(* ===== verification/_CoqProject ===== *)
-Q . S2P
Prelude.v
Text.v
Float.v
Packet.v
Crypto.v
SizeLoss.v
Limiter.v
CryptoPool.v
DataPlane.v
Claim.v
Gossip.v
Reliable.v
Fec.v
FecTx.v
FecRatio.v
Pmtud.v
Tuning.v
BackgroundCc.v
Paths.v
Routing.v
PacingCfg.v
Pacing.v
PacingLedger.v
PacingFair.v
PacingWorker.v
Tracker.v
Punch.v
Discovery.v
Stun.v
Bcast.v
PaceClock.v
Pings.v
Forward.v
Json.v
Members.v
MembersSafe.v
Config.v
ConfigStore.v
PeerCache.v
Ticks.v
Daemon.v
Affinity.v
Reconnect.v
