(* ===== verification/Prelude.v ===== *)
(** * Mint-ConnectUnit: a verification of the peer-to-peer VPN core

    Mint-ConnectUnit is a peer-to-peer VPN.  A node captures packets from a virtual adapter, looks up
    the peer that owns the destination address, protects the packet with forward error correction and
    an AEAD and sends it over UDP, directly or through a relay.  Nodes claim their addresses themselves
    and agree on them by gossip.  This library models the parts that decide what is sent, accepted and
    remembered, and proves them correct.  Paths are relative to src/src.

    ** How the code is modelled

    A struct is a record, an enum an inductive type, a method that changes its receiver a function that
    returns the new value.  Machine integers are [Z] with their wrap-around or saturation written out.
    Doubles are the Standard Library's [spec_float] and compute.  [Instant] and [Duration] are
    nanoseconds in [Z]; an operation that reads the clock takes the reading as an argument, one reading
    per call.  A [HashMap] is a [gmap], and where the code iterates over one the order comes from the
    class [HashIter], so that a theorem holds for every order.  A panic or error is a value of an option
    or result.  Random choices are arguments.  Crates outside the repository (AEAD, HKDF, hashes, base64,
    Reed-Solomon) are classes with their documented laws, and the witnesses instantiate them.

    ** Files

    - Prelude: record update, machine integers, maps, iteration, addresses, shared list lemmas.
    - Text: the text forms of numbers and IPv4 addresses, trimming, order of strings.
    - Float: IEEE arithmetic, order, sign, boundedness, absence of NaN.
    - Packet (net/packet.rs): [parse_datagram_exact], parsing is exactly the inverse of framing.
    - Crypto (crypto.rs): counters, nonces, the replay window ([replay_window_exact], the bit window is
      the set of accepted counters), the replay table of control frames, frames that round-trip, invites.
    - SizeLoss (net/size_loss.rs): loss estimates by packet size stay numbers in range.
    - Limiter (crypto.rs, net/engine.rs): token buckets per source.
    - CryptoPool, DataPlane (net/engine.rs): the keys, and the handlers of encrypted frames.
      [data_session_refines_channel]: two engines with one key refine an abstract channel that delivers
      each packet at most once, under loss, repetition and reordering.  Two theorems show where nonces
      repeat.
    - Claim, Gossip (net/claim.rs, net/claim_gossip.rs): addresses, conflicts, merge by epoch.
      [gossip_converges]: the order in which claims are heard does not matter.
    - Reliable (net/reliable.rs, net/engine.rs): the retransmission heap.  A tick handles exactly what is
      due, a packet that is never acknowledged is reported, a repeated packet is delivered once.
    - Fec, FecTx, FecRatio (net/fec.rs, net/fec_tx_worker.rs, net/engine.rs): no packet is lost, repeated
      or invented by the encoder and its worker, a group comes out once as soon as enough of its shards
      arrived, the decoder is safe on arbitrary input, the ratio does not rise under congestion.
    - Pmtud (pmtud.rs): the search for the path MTU is sound and ends.
    - Tuning (advanced_tuning.rs): what the clamps establish, and when they panic.
    - BackgroundCc (net/background_cc.rs): rates stay in bounds for arbitrary samples.
    - Paths, Routing (routing.rs): the active path changes only for a reason; the indexes of the table
      are sound, the numeric lookup is the lookup by text, and the relay choice is sound and does not
      depend on the order of the hash map.
    - PacingCfg, Pacing, PacingLedger, PacingFair, PacingWorker (net/pacing_defaults.rs, net/pacing.rs,
      net/pacing_worker.rs, net/outbound_udp.rs): the send queues.  [worker_conserves]: no packet is lost
      uncounted, repeated or invented; [pop_next_work_conserving]: the round robin does not idle.
    - PaceClock (net/pace_clock.rs): no tick is early and deadlines do not drift.
    - Tracker, Discovery (nat/tracker.rs, net/decentralized.rs): messages of trackers, and the endpoints
      learned from them ([discovery_authentic]).
    - Punch (net/punch_workflow.rs, net/decentralized.rs): which endpoints are punched, in which order.
    - Stun (nat/stun.rs, net/engine.rs): every query for the public endpoint is answered once.
    - Bcast (bcast.rs): the deduplicator is the history of the keys it accepted.
    - Pings (net/engine.rs): pings, probes and healing; none is left unanswered or stuck.
    - Forward (net/engine.rs): the data path, from the adapter and from peers to the workers and the
      socket.  [tun_packet_sealed] and [peer_packet_forwarded]: where packets go, and that with a key only
      sealed frames leave.
    - Json: JSON values with what the code reads from them, and the laws of the writer and the reader.
    - Members, MembersSafe (net/engine.rs): control messages, claims and their conflicts, joins, leaves,
      gossip and eviction.  [settlement_spec]: what a settlement establishes; [unauthenticated_gate]: what
      a message without a seal cannot do; [gossip_read_back]: gossip is read as it was meant.
    - Config, ConfigStore (config.rs, config_toml.rs): the configuration, its form in the file, and the
      manager with its saving thread as separate steps.  [edit_survives] and [unparseable_kept]: what
      becomes of edits of the file, readable or not; closed runs show where the code falls short.
    - PeerCache (peer_cache.rs, engine_bootstrap.rs): the cache of endpoints and its worker; a restart
      loads what the worker held ([worker_cache_restored]) and a reset leaves nothing ([reset_forgets]).
    - Ticks (net/retransmit.rs, net/engine.rs): retransmissions, probes of the MTU, keepalives, punches.
      [tick_done_retransmits] and [probe_answered] compose Reliable, Pmtud and Packet.
    - Daemon (ipc.rs, daemon.rs, profile.rs): requests on the wire and the count of sessions.
    - Affinity (cpu_affinity.rs): the mask has exactly the processors the specification names.
    - Reconnect (net/engine.rs, nat/ice.rs): background tasks and their flags, the wait for a join, and the
      reconnections an announce starts.  [tasks_stoppable]: no task runs out of reach of the engine;
      [join_waits_answered]: who waits for a join is answered once.

    DataPlane uses Packet, Crypto, SizeLoss, Limiter and CryptoPool; FecTx uses Fec; BackgroundCc uses
    FecRatio and Tuning; Routing uses Paths and Tuning; Forward uses DataPlane, Routing, Pmtud, FecRatio
    and Bcast; Members uses Routing, Gossip and Json; ConfigStore and Daemon use Config; Ticks uses
    Forward and Reliable; Reconnect uses Discovery, Punch and Routing, as the modules of the code do.

    ** Bounds

    Loops that are not structural take fuel, and the fuel is shown to be enough: the tick of the
    reliable channel runs for the work that is left in the heap, trimming for the length of the text,
    the MTU search for 23 answered probes.  [default_search_finds_mtu] is checked for every MTU from
    1220 to 1500.  [relay_choice_order_free] supposes that no round-trip time is NaN; [pmtud_budget_fits]
    that acknowledgements are truthful, which Ticks shows to be two bytes off in what is sent.

    ** Not modelled

    - The select loop of net/engine.rs: which arm runs next is a choice of the runtime, and the models
      take any order.  Its arms are modelled in the files named above, except the commands of the user
      interface that only report or pass settings on.
    - net/msyn_sync.rs and net/pmtud_probe.rs: no module declares them, so they are not compiled.
    - nat/upnp.rs: conversations with gateways and the operating system; of nat/tracker.rs the TCP
      exchange, of net/pace_clock.rs the timer of Windows, and of a peer's keepalive task its loop.
    - The command line, the requests of the daemon other than counting sessions, the adapter,
      operating-system calls, metrics and tracing: input and output.
    - Logging everywhere, and the arithmetic-overflow panics of debug builds: integers wrap as in
      release builds. *)

From stdpp Require Export base gmap strings list fin_maps sorting.
From Stdlib Require Export ZArith Lia.

#[global] Open Scope Z_scope.

(** ** Record update

    [r <| f := v |>] is Rust's in-place field assignment [r.f = v] on a record
    passed by value.  A record type declares its eta expansion as an instance
    of [Settable]; the setter of a projection is then computed from it. *)

Class Settable (R : Type) := eta : R -> R.
Class Setter {R F : Type} (p : R -> F) := setter : (F -> F) -> R -> R.
Arguments setter {R F} p {_} _ _ /.

Ltac solve_setter R p :=
  let e := constr:(_ : Settable R) in
  let e := eval cbv [eta] in e in
  let e := eval unfold e in e in
  match eval pattern p in e with
  | ?f _ =>
      let s := eval cbv beta in (fun (u : _ -> _) => f (fun r => u (p r))) in
      exact s
  end.
#[export] Hint Extern 1 (@Setter ?R ?F ?p) => solve_setter R p : typeclass_instances.

Declare Scope mint_scope.
Delimit Scope mint_scope with mint.
#[global] Open Scope mint_scope.

Notation "r <| f := v |>" := (setter f (fun _ => v) r)
  (at level 10, f at level 9, v at level 200, left associativity,
   format "r  <| f  :=  v |>") : mint_scope.

(** ** Machine integers

    A [w]-bit unsigned integer is a [Z] in [[0, 2^w)], a signed one a [Z] in
    [[-2^(w-1), 2^(w-1))].  The release profile of the crate disables overflow
    checks, so plain arithmetic wraps. *)

Definition wrap (w z : Z) : Z := z mod 2 ^ w.
Definition swrap (w z : Z) : Z := (z + 2 ^ (w - 1)) mod 2 ^ w - 2 ^ (w - 1).

Definition U8_MAX : Z := 255.
Definition U16_MAX : Z := 65535.
Definition U32_MAX : Z := 4294967295.
Definition U64_MAX : Z := 18446744073709551615.

Definition in_u (w z : Z) : Prop := 0 <= z < 2 ^ w.
Definition in_i (w z : Z) : Prop := - 2 ^ (w - 1) <= z < 2 ^ (w - 1).

(** [a.saturating_sub(b)] on unsigned integers, and [a.saturating_add(b)] on
    the type whose largest value is [hi]. *)
Definition sat_sub (a b : Z) : Z := Z.max 0 (a - b).
Definition sat_add (hi a b : Z) : Z := Z.min hi (a + b).
Definition sat_mul (hi a b : Z) : Z := Z.min hi (a * b).

(** [x.clamp(lo, hi)] of [Ord] (the call panics when [lo > hi]; the callers'
    bounds are stated where they matter). *)
Definition clamp (lo hi x : Z) : Z := if x <? lo then lo else if hi <? x then hi else x.

Lemma clamp_bounds lo hi x : lo <= hi -> lo <= clamp lo hi x <= hi.
Proof. unfold clamp. destruct (Z.ltb_spec x lo), (Z.ltb_spec hi x); lia. Qed.

Lemma clamp_id lo hi x : lo <= x <= hi -> clamp lo hi x = x.
Proof. unfold clamp. destruct (Z.ltb_spec x lo), (Z.ltb_spec hi x); lia. Qed.

Lemma wrap_small w z : in_u w z -> wrap w z = z.
Proof. apply Z.mod_small. Qed.

Lemma wrap_range w z : 0 <= w -> in_u w (wrap w z).
Proof. intros. apply Z.mod_pos_bound. lia. Qed.

Lemma pow2_half w : 0 < w -> 2 ^ w = 2 * 2 ^ (w - 1).
Proof. intros. rewrite <- Z.pow_succ_r by lia. f_equal. lia. Qed.

Lemma swrap_small w z : 0 < w -> in_i w z -> swrap w z = z.
Proof.
  intros Hw [Hl Hh]. unfold swrap. pose proof (pow2_half w Hw).
  rewrite Z.mod_small; lia.
Qed.

Lemma swrap_range w z : 0 < w -> in_i w (swrap w z).
Proof.
  intros Hw. unfold swrap, in_i. pose proof (pow2_half w Hw).
  pose proof (Z.mod_pos_bound (z + 2 ^ (w - 1)) (2 ^ w) ltac:(lia)). lia.
Qed.

(** ** Time

    [Instant] and [Duration] are nanosecond counts.  Every reading of the
    clock is an argument of the operation that performs it.
    [Instant::duration_since] saturates at zero. *)

Abbreviation Instant := Z (only parsing).
Abbreviation Duration := Z (only parsing).

Definition from_millis (ms : Z) : Duration := ms * 1000000.
Definition from_micros (us : Z) : Duration := us * 1000.
Definition from_secs (s : Z) : Duration := s * 1000000000.
Definition as_micros (d : Duration) : Z := d / 1000.
Definition as_millis (d : Duration) : Z := d / 1000000.
Definition as_secs (d : Duration) : Z := d / 1000000000.
Definition duration_since (later earlier : Instant) : Duration := sat_sub later earlier.

(** ** Bytes *)

Definition byte_ok (b : Z) : Prop := 0 <= b < 256.
Abbreviation bytes := (list Z).

Definition len {A} (l : list A) : Z := Z.of_nat (length l).

Lemma len_nonneg {A} (l : list A) : 0 <= len l.
Proof. unfold len. lia. Qed.

Lemma len_app {A} (l k : list A) : len (l ++ k) = len l + len k.
Proof. unfold len. rewrite length_app. lia. Qed.

Lemma len_cons {A} (x : A) l : len (x :: l) = 1 + len l.
Proof. unfold len. simpl length. lia. Qed.

(** [z.to_le_bytes()] truncated to [n] bytes, [z.to_be_bytes()], and back. *)
Fixpoint le_bytes (n : nat) (z : Z) : bytes :=
  match n with
  | O => []
  | S n => z mod 256 :: le_bytes n (z / 256)
  end.

Fixpoint le_val (l : bytes) : Z :=
  match l with
  | [] => 0
  | b :: l => b + 256 * le_val l
  end.

Definition be_bytes (n : nat) (z : Z) : bytes := rev (le_bytes n z).
Definition be_val (l : bytes) : Z := le_val (rev l).

Lemma length_le_bytes n z : length (le_bytes n z) = n.
Proof. revert z; induction n; simpl; auto. Qed.

Lemma length_be_bytes n z : length (be_bytes n z) = n.
Proof. unfold be_bytes. rewrite length_rev. apply length_le_bytes. Qed.

Lemma le_bytes_ok n z : Forall byte_ok (le_bytes n z).
Proof.
  revert z; induction n; intros; constructor; auto.
  unfold byte_ok. pose proof (Z.mod_pos_bound z 256). lia.
Qed.

Lemma be_bytes_ok n z : Forall byte_ok (be_bytes n z).
Proof. unfold be_bytes. apply Forall_rev, le_bytes_ok. Qed.

Lemma le_val_le_bytes n z : le_val (le_bytes n z) = z mod 2 ^ (8 * Z.of_nat n).
Proof.
  revert z; induction n as [|n IH]; intros z; [simpl; by rewrite Z.mod_1_r|].
  cbn [le_bytes le_val]. rewrite IH.
  replace (8 * Z.of_nat (S n)) with (8 + 8 * Z.of_nat n) by lia.
  rewrite Z.pow_add_r by lia. change (2 ^ 8) with 256.
  rewrite Z.rem_mul_r; lia.
Qed.

Lemma be_val_be_bytes n z : be_val (be_bytes n z) = z mod 2 ^ (8 * Z.of_nat n).
Proof. unfold be_val, be_bytes. rewrite rev_involutive. apply le_val_le_bytes. Qed.

Lemma le_bytes_le_val l : Forall byte_ok l -> le_bytes (length l) (le_val l) = l.
Proof.
  unfold byte_ok. induction 1 as [|b l Hb _ IH]; [done|]. cbn [length le_bytes le_val].
  rewrite Z.mul_comm, Z.mod_add, Z.mod_small by lia.
  rewrite Z.div_add, Z.div_small by lia. by rewrite Z.add_0_l, IH.
Qed.

Lemma le_val_range l : Forall byte_ok l -> 0 <= le_val l < 2 ^ (8 * len l).
Proof.
  unfold byte_ok. induction 1 as [|b l Hb _ IH]; [by split|].
  rewrite len_cons. replace (8 * (1 + len l)) with (8 + 8 * len l) by lia.
  rewrite Z.pow_add_r by (pose proof (len_nonneg l); lia). cbn [le_val]. lia.
Qed.

(** A fixed-width field read back from the front of a buffer. *)
Lemma le_bytes_app_take n z rest : take n (le_bytes n z ++ rest) = le_bytes n z.
Proof. by rewrite take_app_length' by (by rewrite length_le_bytes). Qed.

Lemma le_bytes_app_drop n z rest : drop n (le_bytes n z ++ rest) = rest.
Proof. by rewrite drop_app_length' by (by rewrite length_le_bytes). Qed.

Lemma be_bytes_app_take n z rest : take n (be_bytes n z ++ rest) = be_bytes n z.
Proof. by rewrite take_app_length' by (by rewrite length_be_bytes). Qed.

Lemma be_bytes_app_drop n z rest : drop n (be_bytes n z ++ rest) = rest.
Proof. by rewrite drop_app_length' by (by rewrite length_be_bytes). Qed.

(** ** Results *)

(** [anyhow::Result] and [Result<_, E>]. *)
Inductive result (A E : Type) : Type :=
| Ok (a : A)
| Err (e : E).
Arguments Ok {A E} a.
Arguments Err {A E} e.

(** ** Iterators *)

(** [iter().min_by_key(f)]: the first of the least elements. *)
Fixpoint min_by_key {A} (f : A -> Z) (l : list A) : option A :=
  match l with
  | [] => None
  | x :: l =>
      match min_by_key f l with
      | None => Some x
      | Some y => if f y <? f x then Some y else Some x
      end
  end.

Lemma min_by_key_spec {A} (f : A -> Z) (l : list A) :
  match min_by_key f l with
  | None => l = []
  | Some x => x ∈ l /\ forall y, y ∈ l -> f x <= f y
  end.
Proof.
  induction l as [|x l IH]; [done|]. simpl. destruct (min_by_key f l) as [y|].
  - destruct IH as [Hin Hmin]. destruct (Z.ltb_spec (f y) (f x)) as [Hl|Hl]; (split; [set_solver|]).
    + intros z [->|Hz]%elem_of_cons; [lia|by apply Hmin].
    + intros z [->|Hz]%elem_of_cons; [lia|]. specialize (Hmin _ Hz). lia.
  - subst l. split; [set_solver|]. intros z ->%list_elem_of_singleton. lia.
Qed.

(** [iter().max_by_key(f)]: the last of the greatest elements. *)
Fixpoint max_by_key {A} (f : A -> Z) (l : list A) : option A :=
  match l with
  | [] => None
  | x :: l =>
      match max_by_key f l with
      | None => Some x
      | Some y => if f y <? f x then Some x else Some y
      end
  end.

(** An invariant of every step is an invariant of a run. *)
Lemma foldl_inv {S E} (P : S -> Prop) (f : S -> E -> S) l s :
  P s -> (forall s e, P s -> P (f s e)) -> P (foldl f s l).
Proof. intros Hs Hf. revert s Hs. induction l as [|e l IH]; intros s Hs; [done|]. apply IH, Hf, Hs. Qed.

(** ** Hash maps

    A [HashMap] is a [gmap].  The order in which a [HashMap] is iterated is
    unspecified, so an operation whose result can depend on it takes that
    order from the class [HashIter]; the theorems hold for every order. *)

Class HashIter := {
  hm_iter : forall {K V} `{Countable K}, gmap K V -> list (K * V);
  hm_iter_perm : forall {K V} `{Countable K} (m : gmap K V), hm_iter m ≡ₚ map_to_list m
}.

Lemma hm_iter_elem `{HashIter} {K V} `{Countable K} (m : gmap K V) k v :
  (k, v) ∈ hm_iter m <-> m !! k = Some v.
Proof. rewrite hm_iter_perm. apply elem_of_map_to_list. Qed.

Lemma hm_iter_NoDup_fst `{HashIter} {K V} `{Countable K} (m : gmap K V) :
  NoDup (hm_iter m).*1.
Proof. rewrite hm_iter_perm. apply NoDup_fst_map_to_list. Qed.

Lemma hm_iter_length `{HashIter} {K V} `{Countable K} (m : gmap K V) :
  length (hm_iter m) = size m.
Proof. rewrite hm_iter_perm. apply length_map_to_list. Qed.

(** One concrete iteration order, for evaluating witnesses. *)
Definition canonical_iter : HashIter :=
  {| hm_iter := fun K V _ _ m => map_to_list m;
     hm_iter_perm := fun K V _ _ m => reflexivity _ |}.

(** [map.retain(|k, v| f k v)]. *)
Definition retain {K V} `{Countable K} (f : K -> V -> bool) (m : gmap K V) : gmap K V :=
  filter (fun kv => f kv.1 kv.2 = true) m.

Lemma lookup_retain {K V} `{Countable K} (f : K -> V -> bool) (m : gmap K V) k v :
  retain f m !! k = Some v <-> m !! k = Some v /\ f k v = true.
Proof. unfold retain. by rewrite map_lookup_filter_Some. Qed.

Lemma lookup_retain_None {K V} `{Countable K} (f : K -> V -> bool) (m : gmap K V) k :
  retain f m !! k = None <-> m !! k = None \/ exists v, m !! k = Some v /\ f k v = false.
Proof.
  unfold retain. rewrite map_lookup_filter_None. split.
  - intros [?|Hf]; [by left|]. destruct (m !! k) as [v|] eqn:E; [|by left].
    right. exists v. split; [done|]. specialize (Hf v eq_refl). simpl in Hf.
    by destruct (f k v).
  - intros [?|(v & E & Hf)]; [by left|]. right. intros v' E'. simplify_eq. simpl. congruence.
Qed.

(** ** SocketAddr *)

(** An address is an IP and a port.  [V6] carries the 128-bit address. *)
Inductive IpAddr := V4 (ip : Z) | V6 (ip : Z).

#[export] Instance IpAddr_eq_dec : EqDecision IpAddr.
Proof. solve_decision. Defined.

#[export] Instance IpAddr_countable : Countable IpAddr.
Proof.
  refine (inj_countable' (fun a => match a with V4 i => inl i | V6 i => inr i end)
            (fun s => match s with inl i => V4 i | inr i => V6 i end) _).
  by intros [].
Defined.

Record SocketAddr := mkAddr { sa_ip : IpAddr; sa_port : Z }.

#[export] Instance SocketAddr_eq_dec : EqDecision SocketAddr.
Proof. solve_decision. Defined.

#[export] Instance SocketAddr_countable : Countable SocketAddr.
Proof.
  refine (inj_countable' (fun a => (sa_ip a, sa_port a)) (fun p => mkAddr p.1 p.2) _).
  by intros [].
Defined.

(** ** Automation *)

Create HintDb mint discriminated.
Create Rewrite HintDb mint_len.
#[export] Hint Resolve length_le_bytes length_be_bytes le_bytes_ok be_bytes_ok
  clamp_bounds len_nonneg wrap_range : mint.
#[export] Hint Rewrite @len_app @len_cons length_le_bytes length_be_bytes : mint_len.

(** Case analysis on the boolean tests of the goal, kept as arithmetic facts. *)
Ltac bsplit :=
  repeat match goal with
  | |- context [?a <? ?b] => destruct (Z.ltb_spec a b)
  | |- context [?a <=? ?b] => destruct (Z.leb_spec a b)
  | |- context [?a =? ?b] => destruct (Z.eqb_spec a b)
  | |- context [?a >? ?b] => rewrite (Z.gtb_ltb a b)
  | |- context [?a >=? ?b] => rewrite (Z.geb_leb a b)
  end.

(** The same on hypotheses that are themselves boolean tests. *)
Ltac breflect :=
  repeat match goal with
  | H : (_ && _)%bool = true |- _ => apply andb_true_iff in H as [? ?]
  | H : (_ || _)%bool = false |- _ => apply orb_false_iff in H as [? ?]
  | H : (_ && _)%bool = false |- _ => apply andb_false_iff in H
  | H : (_ || _)%bool = true |- _ => apply orb_true_iff in H
  | H : negb _ = true |- _ => apply negb_true_iff in H
  | H : negb _ = false |- _ => apply negb_false_iff in H
  | H : (_ <? _) = true |- _ => apply Z.ltb_lt in H
  | H : (_ <? _) = false |- _ => apply Z.ltb_ge in H
  | H : (_ <=? _) = true |- _ => apply Z.leb_le in H
  | H : (_ <=? _) = false |- _ => apply Z.leb_gt in H
  | H : (_ =? _) = true |- _ => apply Z.eqb_eq in H
  | H : (_ =? _) = false |- _ => apply Z.eqb_neq in H
  | H : bool_decide _ = true |- _ => apply bool_decide_eq_true in H
  | H : bool_decide _ = false |- _ => apply bool_decide_eq_false in H
  end.
