(* ===== verification/Text.v ===== *)
(** * Text: decimal numbers and dotted IPv4 addresses

    The parts of Rust's standard library the program uses on text: [format!] of
    an unsigned integer, [str::parse] of one, [str::split], and the [FromStr]
    and [Display] implementations of [Ipv4Addr].  A [str] is a byte string. *)

From S2P Require Import Prelude.
From Stdlib Require Import Ascii String.
#[local] Open Scope Z_scope.

(** ** Strings as bytes *)

Definition str_bytes (s : string) : bytes :=
  map (fun a => Z.of_N (N_of_ascii a)) (list_ascii_of_string s).

Definition bytes_str (l : bytes) : string :=
  string_of_list_ascii (map (fun b => ascii_of_N (Z.to_N b)) l).

Lemma bytes_str_bytes s : bytes_str (str_bytes s) = s.
Proof.
  unfold bytes_str, str_bytes. rewrite map_map.
  rewrite (map_ext _ id) by (intros a; by rewrite N2Z.id, ascii_N_embedding).
  by rewrite map_id, string_of_list_ascii_of_string.
Qed.

Lemma str_bytes_str l : Forall byte_ok l -> str_bytes (bytes_str l) = l.
Proof.
  intros Hl. unfold bytes_str, str_bytes. rewrite list_ascii_of_string_of_list_ascii, map_map.
  induction Hl as [|b l Hb Hl IH]; [done|]. cbn [map]. rewrite IH. f_equal.
  unfold byte_ok in Hb. rewrite N_ascii_embedding by lia. lia.
Qed.

(** ** Decimal *)

Definition is_digit (b : Z) : bool := (48 <=? b) && (b <=? 57).

(** Least significant digit first; [fuel] bounds the number of digits (20 are
    enough for a [u64]). *)
Fixpoint dec_rev (fuel : nat) (n : Z) : bytes :=
  match fuel with
  | O => []
  | S fuel => if n <? 10 then [48 + n] else 48 + n mod 10 :: dec_rev fuel (n / 10)
  end.

(** [format!("{}", n)] of an unsigned integer of at most 64 bits. *)
Definition fmt_dec (n : Z) : bytes := rev (dec_rev 20 n).

(** The accumulation loop of [from_str_radix(_, 10)] with its overflow check. *)
Fixpoint parse_digits (max acc : Z) (l : bytes) : option Z :=
  match l with
  | [] => Some acc
  | b :: l =>
      if is_digit b then
        let acc := acc * 10 + (b - 48) in
        if acc >? max then None else parse_digits max acc l
      else None
  end.

(** [s.parse::<uN>()] where [max] is [uN::MAX]: a leading plus sign and leading
    zeros are accepted. *)
Definition parse_uint (max : Z) (l : bytes) : option Z :=
  match l with
  | [] => None
  | b :: r =>
      if b =? 43 then match r with [] => None | _ => parse_digits max 0 r end
      else parse_digits max 0 l
  end.

(** [s.split(c)]: the pieces between the separators; the empty string has one. *)
Fixpoint split_on (c : Z) (l : bytes) : list bytes :=
  match l with
  | [] => [[]]
  | b :: l =>
      if b =? c then [] :: split_on c l
      else match split_on c l with
           | [] => [[b]]
           | p :: ps => (b :: p) :: ps
           end
  end.

Lemma split_on_no_sep c l : Forall (fun b => b <> c) l -> split_on c l = [l].
Proof.
  induction 1 as [|b l Hb _ IH]; [done|]. simpl. rewrite IH.
  by rewrite (proj2 (Z.eqb_neq _ _) Hb).
Qed.

Lemma split_on_sep c l r : Forall (fun b => b <> c) l -> split_on c (l ++ c :: r) = l :: split_on c r.
Proof.
  induction 1 as [|b l Hb _ IH]; simpl; [by rewrite Z.eqb_refl|]. rewrite IH.
  by rewrite (proj2 (Z.eqb_neq _ _) Hb).
Qed.

Lemma dec_rev_digits fuel n : 0 <= n -> Forall (fun b => 48 <= b <= 57) (dec_rev fuel n).
Proof.
  revert n. induction fuel as [|fuel IH]; intros n Hn; [constructor|]. simpl.
  destruct (Z.ltb_spec n 10); constructor; [lia|constructor| |].
  - pose proof (Z.mod_pos_bound n 10). lia.
  - apply IH. apply Z.div_pos; lia.
Qed.

Lemma fmt_dec_digits n : 0 <= n -> Forall (fun b => 48 <= b <= 57) (fmt_dec n).
Proof. intros. by apply Forall_rev, dec_rev_digits. Qed.

Lemma parse_digits_snoc max acc l d :
  is_digit d = true ->
  parse_digits max acc (l ++ [d]) =
    match parse_digits max acc l with
    | Some a => if a * 10 + (d - 48) >? max then None else Some (a * 10 + (d - 48))
    | None => None
    end.
Proof.
  intros Hd. revert acc. induction l as [|b l IH]; intros acc; cbn [app parse_digits]; [by rewrite Hd|].
  destruct (is_digit b); [|done]. destruct (_ >? max); [done|]. apply IH.
Qed.

Lemma is_digit_true b : 48 <= b <= 57 -> is_digit b = true.
Proof. intros. unfold is_digit. apply andb_true_iff. split; apply Z.leb_le; lia. Qed.

Lemma parse_dec_rev max fuel n :
  0 <= n <= max -> n < 10 ^ Z.of_nat fuel -> parse_digits max 0 (rev (dec_rev fuel n)) = Some n.
Proof.
  revert n. induction fuel as [|fuel IH]; intros n Hn Hf.
  { simpl in Hf. by assert (n = 0) as -> by lia. }
  rewrite Nat2Z.inj_succ, Z.pow_succ_r in Hf by apply Nat2Z.is_nonneg.
  pose proof (Z.mod_pos_bound n 10 eq_refl). pose proof (Z.div_mod n 10 ltac:(done)).
  cbn [dec_rev].
  destruct (Z.ltb_spec n 10) as [Hs|Hs].
  - cbn [rev app parse_digits]. rewrite is_digit_true, Z.gtb_ltb by lia.
    replace (0 * 10 + (48 + n - 48)) with n by lia. rewrite (proj2 (Z.ltb_ge _ _)) by lia. done.
  - cbn [rev]. rewrite parse_digits_snoc by (apply is_digit_true; lia).
    rewrite IH; [| lia |].
    + replace (n / 10 * 10 + (48 + n mod 10 - 48)) with n by lia.
      rewrite Z.gtb_ltb, (proj2 (Z.ltb_ge _ _)) by lia. done.
    + by apply Z.div_lt_upper_bound.
Qed.

Lemma dec_rev_nonempty fuel n : dec_rev (S fuel) n <> [].
Proof. simpl. by destruct (n <? 10). Qed.

Lemma parse_uint_digits max l :
  Forall (fun b => 48 <= b <= 57) l -> l <> [] -> parse_uint max l = parse_digits max 0 l.
Proof.
  intros Hl Hne. destruct l as [|b l]; [done|]. inversion_clear Hl.
  unfold parse_uint. by rewrite (proj2 (Z.eqb_neq b 43)) by lia.
Qed.

Lemma parse_uint_fmt_dec max n :
  0 <= n <= max -> n <= U64_MAX -> parse_uint max (fmt_dec n) = Some n.
Proof.
  intros Hn H64. rewrite parse_uint_digits.
  - apply parse_dec_rev; [done|]. unfold U64_MAX in H64. simpl. lia.
  - apply fmt_dec_digits. lia.
  - intros E. apply (f_equal (@rev Z)) in E. unfold fmt_dec in E. rewrite rev_involutive in E.
    by apply dec_rev_nonempty in E.
Qed.

(** ** IPv4 addresses *)

(** [Parser::read_number(10, Some(3), false)] for a [u8]. *)
Fixpoint read_digits (acc count : Z) (l : bytes) : option (Z * Z * bytes) :=
  match l with
  | b :: r =>
      if is_digit b then
        let acc := acc * 10 + (b - 48) in
        if acc >? U8_MAX then None
        else if count + 1 >? 3 then None
        else read_digits acc (count + 1) r
      else Some (acc, count, l)
  | [] => Some (acc, count, l)
  end.

Definition has_zero_prefix (l : bytes) : bool :=
  match l with b :: _ => b =? 48 | [] => false end.

Definition read_octet (l : bytes) : option (Z * bytes) :=
  match read_digits 0 0 l with
  | Some (v, count, r) =>
      if count =? 0 then None
      else if has_zero_prefix l && (count >? 1) then None
      else Some (v, r)
  | None => None
  end.

Definition read_dot (l : bytes) : option bytes :=
  match l with b :: r => if b =? 46 then Some r else None | [] => None end.

(** [s.parse::<Ipv4Addr>()], as the big-endian [u32] of its octets. *)
Definition parse_ipv4 (l : bytes) : option Z :=
  if len l >? 15 then None
  else
    match read_octet l with
    | None => None
    | Some (a, l) =>
    match read_dot l with None => None | Some l =>
    match read_octet l with
    | None => None
    | Some (b, l) =>
    match read_dot l with None => None | Some l =>
    match read_octet l with
    | None => None
    | Some (c, l) =>
    match read_dot l with None => None | Some l =>
    match read_octet l with
    | Some (d, []) => Some (be_val [a; b; c; d])
    | _ => None
    end end end end end end end.

(** [format!("{a}.{b}.{c}.{d}")] of the octets. *)
Definition fmt_octets (a b c d : Z) : bytes :=
  fmt_dec a ++ 46 :: fmt_dec b ++ 46 :: fmt_dec c ++ 46 :: fmt_dec d.

(** [Ipv4Addr::from(v).to_string()]. *)
Definition fmt_ipv4 (v : Z) : bytes :=
  match be_bytes 4 v with
  | [a; b; c; d] => fmt_octets a b c d
  | _ => []
  end.

(** What follows an octet: nothing or a dot. *)
Definition ends_octet (l : bytes) : Prop :=
  match l with [] => True | b :: _ => is_digit b = false end.

Lemma read_digits_app acc count ds rest a n :
  Forall (fun b => 48 <= b <= 57) ds -> ends_octet rest ->
  read_digits acc count ds = Some (a, n, []) ->
  read_digits acc count (ds ++ rest) = Some (a, n, rest).
Proof.
  intros Hds Hr. revert acc count. induction Hds as [|b ds Hb _ IH]; intros acc count; cbn [app read_digits].
  - intros [= <- <-]. destruct rest as [|b r]; [done|]. simpl in Hr |- *. by rewrite Hr.
  - rewrite is_digit_true by done. destruct (_ >? U8_MAX); [done|]. destruct (_ >? 3); [done|]. apply IH.
Qed.

Definition octet_ok (o : Z) : bool :=
  match read_digits 0 0 (fmt_dec o) with
  | Some (v, n, []) =>
      (v =? o) && (1 <=? n) && (n <=? 3) && (len (fmt_dec o) =? n)
      && negb (has_zero_prefix (fmt_dec o) && (n >? 1))
  | _ => false
  end.

Lemma octets_ok : forallb octet_ok (seqZ 0 256) = true.
Proof. vm_compute. reflexivity. Qed.

Lemma octet_ok_all o : byte_ok o -> octet_ok o = true.
Proof.
  intros Ho. pose proof octets_ok as H. rewrite forallb_forall in H. apply H.
  apply list_elem_of_In, elem_of_seqZ. unfold byte_ok in Ho. lia.
Qed.

Lemma read_octet_fmt o rest :
  byte_ok o -> ends_octet rest ->
  read_octet (fmt_dec o ++ rest) = Some (o, rest) /\ 1 <= len (fmt_dec o) <= 3.
Proof.
  intros Ho Hr. pose proof (octet_ok_all o Ho) as H. unfold octet_ok in H.
  destruct (read_digits 0 0 (fmt_dec o)) as [[[v n] [|]]|] eqn:E; try done.
  apply andb_true_iff in H as [H Hz]. apply negb_true_iff in Hz. revert Hz. breflect. subst v. intros Hz.
  unfold read_octet. rewrite (read_digits_app _ _ _ rest _ _ (fmt_dec_digits o ltac:(unfold byte_ok in Ho; lia)) Hr E).
  rewrite (proj2 (Z.eqb_neq n 0)) by lia.
  assert (has_zero_prefix (fmt_dec o ++ rest) = has_zero_prefix (fmt_dec o)) as ->.
  { destruct (fmt_dec o); [|done]. unfold len in *; simpl in *; lia. }
  rewrite Hz. split; [done|lia].
Qed.

Lemma fmt_octets_parse a b c d :
  byte_ok a -> byte_ok b -> byte_ok c -> byte_ok d ->
  parse_ipv4 (fmt_octets a b c d) = Some (be_val [a; b; c; d]).
Proof.
  intros Ha Hb Hc Hd. unfold parse_ipv4, fmt_octets.
  destruct (read_octet_fmt a (46 :: fmt_dec b ++ 46 :: fmt_dec c ++ 46 :: fmt_dec d) Ha eq_refl) as [-> La].
  destruct (read_octet_fmt b (46 :: fmt_dec c ++ 46 :: fmt_dec d) Hb eq_refl) as [Eb Lb].
  destruct (read_octet_fmt c (46 :: fmt_dec d) Hc eq_refl) as [Ec Lc].
  destruct (read_octet_fmt d [] Hd I) as [Ed Ld]. rewrite app_nil_r in Ed.
  autorewrite with mint_len. rewrite Z.gtb_ltb, (proj2 (Z.ltb_ge _ _)) by lia.
  cbn [read_dot]. rewrite Z.eqb_refl, Eb. cbn [read_dot]. rewrite Z.eqb_refl, Ec.
  cbn [read_dot]. by rewrite Z.eqb_refl, Ed.
Qed.

Lemma fmt_ipv4_parse v : in_u 32 v -> parse_ipv4 (fmt_ipv4 v) = Some v.
Proof.
  intros Hv. unfold fmt_ipv4. pose proof (be_bytes_ok 4 v) as Hok. pose proof (length_be_bytes 4 v) as Hl.
  pose proof (be_val_be_bytes 4 v) as Hval.
  destruct (be_bytes 4 v) as [|a [|b [|c [|d [|]]]]]; try done.
  rewrite !Forall_cons in Hok. rewrite fmt_octets_parse by tauto. f_equal. rewrite Hval.
  by apply wrap_small.
Qed.

(** An octet is read in one way only: its digits are those [fmt_dec] prints. *)
Definition digits_ok (ds : bytes) : bool :=
  match read_octet ds with
  | Some (v, []) => bool_decide (fmt_dec v = ds) && (0 <=? v) && (v <? 256)
  | Some _ => false
  | None => true
  end.

Definition all_digits (n : nat) : list bytes :=
  Nat.iter n (fun ls => ls ≫= (fun l => (fun d => d :: l) <$> seqZ 48 10)) [[]].

Lemma all_digits_ok : forallb digits_ok (all_digits 1 ++ all_digits 2 ++ all_digits 3) = true.
Proof. vm_compute. reflexivity. Qed.

Lemma digit_in_seq b : is_digit b = true -> b ∈ seqZ 48 10.
Proof. unfold is_digit. rewrite andb_true_iff, !Z.leb_le. intros. apply elem_of_seqZ. lia. Qed.

Lemma all_digits_elem l : Forall (fun b => is_digit b = true) l -> l ∈ all_digits (List.length l).
Proof.
  induction 1 as [|b l Hb _ IH]; [by left|]. cbn [List.length all_digits Nat.iter].
  apply list_elem_of_bind. exists l. split; [|exact IH]. apply list_elem_of_fmap. exists b. split; [done|by apply digit_in_seq].
Qed.

Lemma read_digits_split acc count l v n r :
  read_digits acc count l = Some (v, n, r) ->
  exists ds, l = ds ++ r /\ Forall (fun b => is_digit b = true) ds /\ n = count + len ds /\
    (ds <> [] -> n <= 3) /\ read_digits acc count ds = Some (v, n, []).
Proof.
  revert acc count. induction l as [|b l IH]; intros acc count; cbn [read_digits].
  - intros [= <- <- <-]. exists []. unfold len. simpl. split_and!; try done. lia.
  - destruct (is_digit b) eqn:Eb.
    + destruct (_ >? U8_MAX) eqn:E1; [done|]. destruct (_ >? 3) eqn:E2; [done|].
      intros (ds & -> & Hd & Hn & H3 & Hr)%IH. exists (b :: ds). rewrite len_cons.
      rewrite Z.gtb_ltb in E2. apply Z.ltb_ge in E2. split_and!; [done|by constructor|lia| |].
      * intros _. destruct ds; [unfold len in Hn; simpl in Hn; lia|by apply H3].
      * cbn [read_digits]. rewrite Eb, E1. rewrite Z.gtb_ltb, (proj2 (Z.ltb_ge _ _)) by lia. exact Hr.
    + intros [= <- <- <-]. exists []. unfold len. simpl. split_and!; try done. lia.
Qed.

Lemma read_octet_inv l v r : read_octet l = Some (v, r) -> l = fmt_dec v ++ r /\ byte_ok v.
Proof.
  unfold read_octet. destruct (read_digits 0 0 l) as [[[v' n] r']|] eqn:E; [|done].
  destruct (n =? 0) eqn:En; [done|]. destruct (has_zero_prefix l && _) eqn:Ez; [done|]. intros [= -> ->].
  apply read_digits_split in E as (ds & -> & Hd & Hn & H3 & Hr). apply Z.eqb_neq in En.
  destruct ds as [|b ds]; [unfold len in Hn; simpl in Hn; lia|]. specialize (H3 ltac:(done)).
  assert (Hin : b :: ds ∈ all_digits 1 ++ all_digits 2 ++ all_digits 3).
  { pose proof (all_digits_elem _ Hd) as Hin. rewrite len_cons in Hn. unfold len in Hn. simpl List.length in Hin.
    rewrite !elem_of_app. destruct ds as [|? [|? [|? ?]]]; simpl in Hn; [by left|by right; left|by right; right|lia]. }
  pose proof all_digits_ok as Hall. rewrite forallb_forall in Hall. apply list_elem_of_In, Hall in Hin.
  unfold digits_ok, read_octet in Hin. rewrite Hr, (proj2 (Z.eqb_neq n 0)) in Hin by done.
  change (has_zero_prefix ((b :: ds) ++ r)) with (has_zero_prefix (b :: ds)) in Ez. rewrite Ez in Hin.
  rewrite !andb_true_iff, bool_decide_eq_true in Hin. destruct Hin as [[-> H1] H2]. split; [done|]. unfold byte_ok. lia.
Qed.

Lemma read_dot_inv l r : read_dot l = Some r -> l = 46 :: r.
Proof. destruct l as [|b l]; [done|]. cbn [read_dot]. destruct (Z.eqb_spec b 46); [|done]. by intros [= ->]; subst. Qed.

(** The text of an address is canonical: it is what printing the address gives back. *)
Lemma parse_ipv4_canonical l v : parse_ipv4 l = Some v -> l = fmt_ipv4 v /\ in_u 32 v.
Proof.
  unfold parse_ipv4. destruct (len l >? 15); [done|].
  destruct (read_octet l) as [[a l1]|] eqn:Ea; [|done]. destruct (read_dot l1) as [l2|] eqn:D1; [|done].
  destruct (read_octet l2) as [[b l3]|] eqn:Eb; [|done]. destruct (read_dot l3) as [l4|] eqn:D2; [|done].
  destruct (read_octet l4) as [[c l5]|] eqn:Ec; [|done]. destruct (read_dot l5) as [l6|] eqn:D3; [|done].
  destruct (read_octet l6) as [[d [|]]|] eqn:Ed; [|done..]. intros [= <-].
  apply read_octet_inv in Ea as [-> Ha], Eb as [-> Hb], Ec as [-> Hc], Ed as [-> Hd].
  apply read_dot_inv in D1, D2, D3. rewrite app_nil_r in *. subst l1 l3 l5.
  assert (Hok : Forall byte_ok [a; b; c; d]) by auto.
  assert (Hbv : be_bytes 4 (be_val [a; b; c; d]) = [a; b; c; d]).
  { unfold be_bytes, be_val. change 4%nat with (List.length (rev [a; b; c; d])).
    rewrite le_bytes_le_val by (by apply Forall_rev). apply rev_involutive. }
  split; [unfold fmt_ipv4; by rewrite Hbv|].
  pose proof (le_val_range (rev [a; b; c; d]) ltac:(by apply Forall_rev)) as Hr. exact Hr.
Qed.

Lemma parse_ipv4_inj l k v : parse_ipv4 l = Some v -> parse_ipv4 k = Some v -> l = k.
Proof. intros [-> _]%parse_ipv4_canonical [-> _]%parse_ipv4_canonical. done. Qed.

Lemma digits_byte_ok l : Forall (fun b => 48 <= b <= 57) l -> Forall byte_ok l.
Proof. intros H. eapply Forall_impl; [done|]. unfold byte_ok. simpl. lia. Qed.

Lemma fmt_octets_bytes_ok a b c d :
  0 <= a -> 0 <= b -> 0 <= c -> 0 <= d -> Forall byte_ok (fmt_octets a b c d).
Proof.
  intros. assert (byte_ok 46) by (unfold byte_ok; lia). unfold fmt_octets.
  repeat (apply Forall_app; split; [by apply digits_byte_ok, fmt_dec_digits|]; constructor; [done|]).
  by apply digits_byte_ok, fmt_dec_digits.
Qed.

Lemma fmt_ipv4_bytes v : Forall byte_ok (fmt_ipv4 v).
Proof.
  unfold fmt_ipv4. pose proof (be_bytes_ok 4 v) as Hok. destruct (be_bytes 4 v) as [|a [|b [|c [|d [|]]]]]; try done.
  rewrite !Forall_cons in Hok. unfold byte_ok in Hok. apply fmt_octets_bytes_ok; lia.
Qed.

(** ** Trimming *)

(** The UTF-8 encodings of the characters [char::is_whitespace] accepts. *)
Definition whitespace : list bytes :=
  [[9]; [10]; [11]; [12]; [13]; [32]; [194; 133]; [194; 160]; [225; 154; 128];
   [226; 128; 128]; [226; 128; 129]; [226; 128; 130]; [226; 128; 131]; [226; 128; 132];
   [226; 128; 133]; [226; 128; 134]; [226; 128; 135]; [226; 128; 136]; [226; 128; 137];
   [226; 128; 138]; [226; 128; 168]; [226; 128; 169]; [226; 128; 175]; [226; 129; 159];
   [227; 128; 128]].

Fixpoint strip_prefix (p l : bytes) : option bytes :=
  match p, l with
  | [], _ => Some l
  | x :: p, y :: l => if x =? y then strip_prefix p l else None
  | _, [] => None
  end.

Fixpoint first_some {A B} (f : A -> option B) (l : list A) : option B :=
  match l with
  | [] => None
  | x :: l => match f x with Some y => Some y | None => first_some f l end
  end.

(** Drops leading occurrences of the given sequences; the length is fuel enough,
    each step drops at least one byte. *)
Fixpoint drop_seqs (fuel : nat) (seqs : list bytes) (l : bytes) : bytes :=
  match fuel with
  | O => l
  | S fuel =>
      match first_some (fun w => strip_prefix w l) seqs with
      | Some r => drop_seqs fuel seqs r
      | None => l
      end
  end.

(** [s.trim()]. *)
Definition trim (l : bytes) : bytes :=
  let l := drop_seqs (List.length l) whitespace l in
  rev (drop_seqs (List.length l) (map (@rev Z) whitespace) (rev l)).

Lemma drop_seqs_stop fuel seqs b l : forallb (fun w => match w with x :: _ => negb (x =? b) | [] => false end) seqs = true -> drop_seqs fuel seqs (b :: l) = b :: l.
Proof.
  intros F. destruct fuel as [|fuel]; [done|]. cbn [drop_seqs]. enough (first_some (fun w => strip_prefix w (b :: l)) seqs = None) as -> by done.
  induction seqs as [|w seqs IH]; [done|]. cbn in F |- *. apply andb_true_iff in F as [W F]. destruct w as [|x w]; [done|]. cbn.
  apply negb_true_iff in W. rewrite W. by apply IH.
Qed.

(** A text that neither begins nor ends with white space. *)
Definition no_space_at (b : Z) : bool :=
  forallb (fun w => match w with x :: _ => negb (x =? b) | [] => false end) whitespace &&
  forallb (fun w => match w with x :: _ => negb (x =? b) | [] => false end) (map (@rev Z) whitespace).

Lemma trim_solid l : Forall (fun b => no_space_at b = true) l -> trim l = l.
Proof.
  intros F. unfold trim. assert (D : forall k seqs, Forall (fun b => forallb (fun w => match w with x :: _ => negb (x =? b) | [] => false end) seqs = true) k ->
    drop_seqs (List.length k) seqs k = k) by (intros k seqs K; destruct K as [|b k B K]; [done|by apply drop_seqs_stop]).
  rewrite D by (eapply Forall_impl; [exact F|]; intros b B; by apply andb_true_iff in B as [B _]).
  rewrite <- length_rev, D; [apply rev_involutive|]. apply Forall_rev. eapply Forall_impl; [exact F|]. intros b B. by apply andb_true_iff in B as [_ B].
Qed.

Definition trim_str (s : string) : string := bytes_str (trim (str_bytes s)).

(** ** Order *)

(** [a < b] on strings is lexicographic on bytes. *)
Definition str_lt (a b : string) : bool :=
  match String.compare a b with Lt => true | _ => false end.

Definition str_le (a b : string) : Prop := String.compare a b <> Gt.

#[export] Instance str_le_dec : RelDecision str_le.
Proof. intros a b. unfold str_le. destruct (String.compare a b); [left|left|right]; congruence. Defined.

Lemma str_lt_irrefl a : str_lt a a = false.
Proof.
  unfold str_lt. pose proof (String.compare_antisym a a) as H. by destruct (String.compare a a).
Qed.

Lemma str_lt_trichotomy a b : str_lt a b = true \/ a = b \/ str_lt b a = true.
Proof.
  unfold str_lt. rewrite (String.compare_antisym b a).
  destruct (String.compare a b) eqn:E; simpl; auto. apply String.compare_eq_iff in E. auto.
Qed.

Lemma str_lt_asym a b : str_lt a b = true -> str_lt b a = false.
Proof. unfold str_lt. rewrite (String.compare_antisym b a). by destruct (String.compare a b). Qed.

Lemma str_lt_trans a b c : str_lt a b = true -> str_lt b c = true -> str_lt a c = true.
Proof.
  unfold str_lt. revert b c. induction a as [|x a IH]; intros [|y b] [|z c]; simpl; try done.
  unfold Ascii.compare.
  destruct (N.compare_spec (N_of_ascii x) (N_of_ascii y)) as [Exy|Hxy|Hxy];
    destruct (N.compare_spec (N_of_ascii y) (N_of_ascii z)) as [Eyz|Hyz|Hyz]; try done.
  - rewrite (proj2 (N.compare_eq_iff _ _)) by congruence. apply IH.
  - rewrite (proj2 (N.compare_lt_iff _ _)) by lia. done.
  - rewrite (proj2 (N.compare_lt_iff _ _)) by lia. done.
  - rewrite (proj2 (N.compare_lt_iff _ _)) by lia. done.
Qed.

Lemma str_le_iff a b : str_le a b <-> str_lt b a = false.
Proof.
  unfold str_le, str_lt. rewrite (String.compare_antisym b a). by destruct (String.compare a b); simpl; split.
Qed.

#[export] Instance str_le_trans : Transitive str_le.
Proof.
  intros a b c. rewrite !str_le_iff. intros Hab Hbc. destruct (str_lt c a) eqn:E; [|done].
  destruct (str_lt_trichotomy a b) as [H|[->|H]]; [|congruence|congruence].
  pose proof (str_lt_trans _ _ _ E H). congruence.
Qed.

#[export] Instance str_le_total : Total str_le.
Proof.
  intros a b. rewrite !str_le_iff. destruct (str_lt b a) eqn:E; [right|by left]. by apply str_lt_asym.
Qed.

#[export] Instance str_le_antisym : AntiSymm (=) str_le.
Proof.
  intros a b. rewrite !str_le_iff. destruct (str_lt_trichotomy a b) as [H|[->|H]]; congruence.
Qed.
