(* ===== verification/Float.v ===== *)
(** * IEEE-754 binary64 and binary32

    [f64] and [f32] are the standard library's [spec_float] at their precision:
    the operations round to nearest, ties to even, and evaluate by computation.
    A decimal literal is the correctly rounded quotient of two integers. *)

From S2P Require Import Prelude.
From Stdlib Require Export Floats.SpecFloat.

Abbreviation f64 := spec_float (only parsing).
Abbreviation f32 := spec_float (only parsing).

#[export] Instance spec_float_eq_dec : EqDecision f64.
Proof. solve_decision. Defined.

Definition f64_add : f64 -> f64 -> f64 := SFadd 53 1024.
Definition f64_sub : f64 -> f64 -> f64 := SFsub 53 1024.
Definition f64_mul : f64 -> f64 -> f64 := SFmul 53 1024.
Definition f64_div : f64 -> f64 -> f64 := SFdiv 53 1024.
Definition f32_add : f32 -> f32 -> f32 := SFadd 24 128.
Definition f32_sub : f32 -> f32 -> f32 := SFsub 24 128.
Definition f32_mul : f32 -> f32 -> f32 := SFmul 24 128.
Definition f32_div : f32 -> f32 -> f32 := SFdiv 24 128.

(** [n as f64], [n as f32] of an integer. *)
Definition f64_of_Z (n : Z) : f64 := binary_normalize 53 1024 n 0 false.
Definition f32_of_Z (n : Z) : f32 := binary_normalize 24 128 n 0 false.

(** The literal [num / den]. *)
Definition f64_lit (num den : Z) : f64 := f64_div (f64_of_Z num) (f64_of_Z den).
Definition f32_lit (num den : Z) : f32 := f32_div (f32_of_Z num) (f32_of_Z den).

Definition f_lt (x y : f64) : bool := SFltb x y.
Definition f_le (x y : f64) : bool := SFleb x y.
Definition f_eq (x y : f64) : bool := SFeqb x y.
Definition f_is_nan (x : f64) : bool := match x with S754_nan => true | _ => false end.

(** [x.max(y)] and [x.min(y)] ignore a NaN operand; [x.clamp(lo, hi)] keeps one. *)
Definition f_max (x y : f64) : f64 :=
  if f_is_nan x then y else if f_is_nan y then x else if f_lt x y then y else x.
Definition f_min (x y : f64) : f64 :=
  if f_is_nan x then y else if f_is_nan y then x else if f_lt y x then y else x.
Definition f_clamp (lo hi x : f64) : f64 :=
  let x := if f_lt x lo then lo else x in
  if f_lt hi x then hi else x.

(** Magnitude of a finite number, truncated and rounded half away from zero. *)
Definition trunc_mag (m : positive) (e : Z) : Z :=
  if 0 <=? e then Z.pos m * 2 ^ e else Z.pos m / 2 ^ (- e).
Definition round_mag (m : positive) (e : Z) : Z :=
  if 0 <=? e then Z.pos m * 2 ^ e else (Z.pos m + 2 ^ (- e - 1)) / 2 ^ (- e).

(** [x as uN] with [max] the largest value: truncates, saturates, NaN is 0. *)
Definition f_to_uint (max : Z) (x : f64) : Z :=
  match x with
  | S754_nan | S754_zero _ | S754_infinity true | S754_finite true _ _ => 0
  | S754_infinity false => max
  | S754_finite false m e => Z.min max (trunc_mag m e)
  end.

(** [x.round() as uN]. *)
Definition f_round_to_uint (max : Z) (x : f64) : Z :=
  match x with
  | S754_nan | S754_zero _ | S754_infinity true | S754_finite true _ _ => 0
  | S754_infinity false => max
  | S754_finite false m e => Z.min max (round_mag m e)
  end.

(** [d.as_secs_f64()], [d.as_secs_f32()]: whole seconds plus the nanoseconds. *)
Definition as_secs_f64 (d : Duration) : f64 :=
  f64_add (f64_of_Z (d / 1000000000)) (f64_div (f64_of_Z (d mod 1000000000)) (f64_of_Z 1000000000)).
Definition as_secs_f32 (d : Duration) : f32 :=
  f32_add (f32_of_Z (d / 1000000000)) (f32_div (f32_of_Z (d mod 1000000000)) (f32_of_Z 1000000000)).

(** ** Order

    Comparison is lexicographic on a key: the class, then exponent and
    mantissa with the sign of the number. *)

Definition f_key (x : f64) : Z * Z * Z :=
  match x with
  | S754_infinity s => (if s then -2 else 2, 0, 0)
  | S754_zero _ | S754_nan => (0, 0, 0)
  | S754_finite false m e => (1, e, Z.pos m)
  | S754_finite true m e => (-1, - e, Z.neg m)
  end.

Definition key_lt (a b : Z * Z * Z) : Prop :=
  a.1.1 < b.1.1 \/ (a.1.1 = b.1.1 /\ (a.1.2 < b.1.2 \/ (a.1.2 = b.1.2 /\ a.2 < b.2))).

#[local] Ltac key_case :=
  split; [intros ?|intros (?&?&?)];
  first [discriminate | reflexivity | lia | (split; [reflexivity|split; [reflexivity|lia]])].

Lemma f_lt_key x y :
  (f_lt x y = true) <-> (f_is_nan x = false /\ f_is_nan y = false /\ key_lt (f_key x) (f_key y)).
Proof.
  unfold f_lt, SFltb, key_lt.
  destruct x as [[]|[]| |[] mx ex], y as [[]|[]| |[] my ey]; simpl; try key_case;
    (destruct (Z.compare_spec ex ey); [|key_case|key_case]);
    change (Pos.compare_cont Eq mx my) with (Pos.compare mx my);
    destruct (Pos.compare_spec mx my); simpl; key_case.
Qed.

#[local] Ltac le_case :=
  split; [intros H; first [discriminate H | repeat split]
         |intros (H1 & H2 & H3); first [discriminate H1 | discriminate H2 | discriminate H3 | reflexivity]].

Lemma f_le_lt x y :
  (f_le x y = true) <-> (f_is_nan x = false /\ f_is_nan y = false /\ f_lt y x = false).
Proof.
  unfold f_le, f_lt, SFleb, SFltb.
  destruct x as [[]|[]| |[] mx ex], y as [[]|[]| |[] my ey]; simpl; try le_case;
    rewrite (Z.compare_antisym ex ey); destruct (Z.compare ex ey); simpl; try le_case;
    change (Pos.compare_cont Eq mx my) with (Pos.compare mx my);
    change (Pos.compare_cont Eq my mx) with (Pos.compare my mx);
    rewrite (Pos.compare_antisym mx my); destruct (Pos.compare mx my); simpl; le_case.
Qed.

Lemma f_lt_false x y :
  f_is_nan x = false -> f_is_nan y = false -> (f_lt x y = false) <-> ~ key_lt (f_key x) (f_key y).
Proof.
  intros Hx Hy. destruct (f_lt x y) eqn:E.
  - apply f_lt_key in E as (_ & _ & E). naive_solver.
  - split; [|done]. intros _ Hk. assert (f_lt x y = true) by (apply f_lt_key; done). congruence.
Qed.

Lemma f_lt_le_absurd x a b : f_lt x a = true -> f_le b x = true -> f_lt b a = true.
Proof.
  intros (Hx & Ha & H1)%f_lt_key (Hb & _ & H2)%f_le_lt. apply f_lt_key. split_and!; [done..|].
  apply f_lt_false in H2; [|done..]. unfold key_lt in *. lia.
Qed.

Lemma f_le_refl x : f_is_nan x = false -> f_le x x = true.
Proof.
  intros Hx. apply f_le_lt. split_and!; [done..|]. apply f_lt_false; [done..|]. unfold key_lt. lia.
Qed.

Lemma f_lt_le x y : f_lt x y = true -> f_le x y = true.
Proof.
  intros (Hx & Hy & H)%f_lt_key. apply f_le_lt. split_and!; [done..|].
  apply f_lt_false; [done..|]. unfold key_lt in *. lia.
Qed.

Lemma f_clamp_bounds lo hi x :
  f_is_nan x = false -> f_is_nan lo = false -> f_is_nan hi = false -> f_le lo hi = true ->
  f_le lo (f_clamp lo hi x) = true /\ f_le (f_clamp lo hi x) hi = true.
Proof.
  intros Hx Hlo Hhi Hle. unfold f_clamp. destruct (f_lt x lo) eqn:E1.
  - pose proof Hle as (_ & _ & ->)%f_le_lt. split; [by apply f_le_refl|done].
  - destruct (f_lt hi x) eqn:E2; [split; [done|by apply f_le_refl]|].
    split; apply f_le_lt; done.
Qed.

(** ** Sign and rounding

    Rounding a non-negative mantissa never produces a NaN or a negative number. *)

Definition f_nonneg (x : f64) : bool :=
  match x with
  | S754_zero false | S754_infinity false | S754_finite false _ _ => true
  | _ => false
  end.

Definition f_pos_finite (x : f64) : bool :=
  match x with S754_finite false _ _ => true | _ => false end.

Definition f_finite (x : f64) : bool :=
  match x with S754_zero _ | S754_finite _ _ _ => true | _ => false end.

Lemma f_nonneg_not_nan x : f_nonneg x = true -> f_is_nan x = false.
Proof. by destruct x. Qed.

Lemma shr_1_nonneg r : 0 <= shr_m r -> 0 <= shr_m (shr_1 r).
Proof. destruct r as [[|[]|[]] ? ?]; simpl; lia. Qed.

Lemma iter_shr_nonneg p r : 0 <= shr_m r -> 0 <= shr_m (iter_pos shr_1 p r).
Proof. revert r; induction p; intros r Hr; simpl; eauto using shr_1_nonneg. Qed.

Lemma shr_fexp_nonneg prec emax m e l : 0 <= m -> 0 <= shr_m (shr_fexp prec emax m e l).1.
Proof.
  intros Hm. unfold shr_fexp, shr. assert (0 <= shr_m (shr_record_of_loc m l)) by (by destruct l as [|[]]).
  destruct (fexp _ _ _ - e)%Z; simpl; auto using iter_shr_nonneg.
Qed.

Lemma round_nearest_even_nonneg m l : 0 <= m -> 0 <= round_nearest_even m l.
Proof. destruct l as [|[]]; simpl; try lia. destruct (Z.even m); lia. Qed.

Lemma binary_round_aux_nonneg prec emax m e l :
  0 <= m -> f_nonneg (binary_round_aux prec emax false m e l) = true.
Proof.
  intros Hm. unfold binary_round_aux.
  pose proof (shr_fexp_nonneg prec emax m e l Hm) as H1.
  destruct (shr_fexp prec emax m e l) as [r1 e1]. simpl in H1.
  pose proof (shr_fexp_nonneg prec emax (round_nearest_even (shr_m r1) (loc_of_shr_record r1)) e1 loc_Exact
    (round_nearest_even_nonneg _ _ H1)) as H2.
  destruct (shr_fexp prec emax _ e1 loc_Exact) as [r2 e2]. simpl in H2.
  destruct (shr_m r2); [done| |lia]. by destruct (_ <=? _).
Qed.

Lemma binary_round_nonneg prec emax m e : f_nonneg (binary_round prec emax false m e) = true.
Proof. unfold binary_round. destruct (shl_align _ _ _). apply binary_round_aux_nonneg. lia. Qed.

Lemma binary_normalize_nonneg prec emax m e :
  0 <= m -> f_nonneg (binary_normalize prec emax m e false) = true.
Proof.
  intros Hm. destruct m as [|m|m]; [done|apply binary_round_nonneg|lia].
Qed.

Lemma SFadd_nonneg prec emax x y :
  f_nonneg x = true -> f_nonneg y = true -> f_nonneg (SFadd prec emax x y) = true.
Proof.
  destruct x as [[]|[]| |[] mx ex], y as [[]|[]| |[] my ey]; simpl; try done.
  intros _ _. apply binary_round_nonneg.
Qed.

Lemma SFmul_nonneg prec emax x y :
  f_nonneg x = true -> f_pos_finite y = true -> f_nonneg (SFmul prec emax x y) = true.
Proof.
  destruct x as [[]|[]| |[] mx ex], y as [[]|[]| |[] my ey]; simpl; try done.
  intros _ _. apply binary_round_aux_nonneg. lia.
Qed.

Lemma SFmul_nonneg_l prec emax x y :
  f_pos_finite x = true -> f_nonneg y = true -> f_nonneg (SFmul prec emax x y) = true.
Proof.
  destruct x as [[]|[]| |[] mx ex], y as [[]|[]| |[] my ey]; simpl; try done.
  intros _ _. apply binary_round_aux_nonneg. lia.
Qed.

Lemma f_max_pos x y :
  f_nonneg x = true -> f_pos_finite y = true ->
  f_nonneg (f_max x y) = true /\ f_le (f_max x y) (S754_zero false) = false.
Proof.
  destruct y as [[]|[]| |[] my ey]; try done. intros Hx _. unfold f_max.
  rewrite f_nonneg_not_nan by done. simpl (f_is_nan _). cbv iota.
  destruct (f_lt x _) eqn:E; [done|]. split; [done|].
  by destruct x as [[]|[]| |[] mx ex].
Qed.

Lemma SFdiv_core_nonneg prec emax m1 e1 m2 e2 :
  0 <= (SFdiv_core_binary prec emax (Z.pos m1) e1 (Z.pos m2) e2).1.1.
Proof.
  unfold SFdiv_core_binary. set (m' := match _ with Z0 => _ | _ => _ end).
  assert (0 <= m') by (unfold m'; case_match; [lia| |lia]; apply Z.shiftl_nonneg; lia). clearbody m'.
  pose proof (Z.div_pos m' (Z.pos m2)) as Hd. unfold Z.div in Hd.
  destruct (Z.div_eucl m' (Z.pos m2)) as [q r]. simpl. apply Hd; lia.
Qed.

Lemma SFdiv_pos_nonneg prec emax x y :
  f_nonneg x = true -> f_finite x = true -> f_nonneg y = true -> f_le y (S754_zero false) = false ->
  f_nonneg (SFdiv prec emax x y) = true.
Proof.
  destruct x as [[]|[]| |[] mx ex], y as [[]|[]| |[] my ey]; simpl; try done.
  intros _ _ _ _. pose proof (SFdiv_core_nonneg prec emax mx ex my ey) as H.
  destruct (SFdiv_core_binary _ _ _ _ _ _) as [[q e] l]. by apply binary_round_aux_nonneg.
Qed.

Lemma f64_of_Z_nonneg n : 0 <= n -> f_nonneg (f64_of_Z n) = true.
Proof. apply binary_normalize_nonneg. Qed.

Lemma f_to_uint_range max x : 0 <= max -> 0 <= f_to_uint max x <= max.
Proof.
  intros Hm. assert (forall m e, 0 <= trunc_mag m e).
  { intros m e. unfold trunc_mag. destruct (Z.leb_spec 0 e); [lia|]. apply Z.div_pos; lia. }
  destruct x as [|[]| |[] m e]; simpl; try lia. specialize (H m e). lia.
Qed.

Lemma f_round_to_uint_range max x : 0 <= max -> 0 <= f_round_to_uint max x <= max.
Proof.
  intros Hm. assert (forall m e, 0 <= round_mag m e).
  { intros m e. unfold round_mag. destruct (Z.leb_spec 0 e); [lia|]. apply Z.div_pos; lia. }
  destruct x as [|[]| |[] m e]; simpl; try lia. specialize (H m e). lia.
Qed.

(** ** Finiteness

    An integer of at most 64 bits converts to a finite [f64]. *)

Lemma Zdigits2_log2 p : Zdigits2 (Z.pos p) = Z.log2 (Z.pos p) + 1.
Proof.
  cbn [Zdigits2]. induction p as [p IH|p IH|]; cbn [digits2_pos]; [| |done].
  - rewrite Pos2Z.inj_succ, IH, (Pos2Z.inj_xI p), Z.log2_succ_double by lia. lia.
  - rewrite Pos2Z.inj_succ, IH, (Pos2Z.inj_xO p), Z.log2_double by lia. lia.
Qed.

Lemma Zdigits2_mono a b : 0 <= a <= b -> Zdigits2 a <= Zdigits2 b.
Proof.
  intros H. destruct a as [|a|a]; [destruct b; simpl; lia| |lia].
  destruct b as [|b|b]; try lia. rewrite !Zdigits2_log2.
  pose proof (Z.log2_le_mono (Z.pos a) (Z.pos b)). lia.
Qed.

Lemma Zdigits2_succ a : 0 <= a -> Zdigits2 (a + 1) <= Zdigits2 a + 1.
Proof.
  intros Ha. destruct a as [|a|a]; [done| |lia]. change (Z.pos a + 1) with (Z.pos (a + 1)).
  rewrite !Zdigits2_log2. pose proof (Z.log2_succ_le (Z.pos a)) as H.
  change (Z.succ (Z.pos a)) with (Z.pos (a + 1)) in H. lia.
Qed.

Lemma shr_1_le r : 0 <= shr_m r -> shr_m (shr_1 r) <= shr_m r.
Proof. destruct r as [[|[]|[]] ? ?]; simpl; lia. Qed.

Lemma iter_shr_le p r : 0 <= shr_m r -> shr_m (iter_pos shr_1 p r) <= shr_m r.
Proof.
  revert r; induction p as [p IH|p IH|]; intros r Hr; simpl; [| |by apply shr_1_le].
  - pose proof (shr_1_nonneg r Hr). pose proof (iter_shr_nonneg p (shr_1 r)).
    pose proof (IH (shr_1 r)). pose proof (IH (iter_pos shr_1 p (shr_1 r))). pose proof (shr_1_le r Hr). lia.
  - pose proof (iter_shr_nonneg p r Hr). pose proof (IH (iter_pos shr_1 p r)). pose proof (IH r Hr). lia.
Qed.

Lemma shr_fexp_e prec emax m e l :
  (shr_fexp prec emax m e l).2 = Z.max e (fexp prec emax (Zdigits2 m + e)).
Proof. unfold shr_fexp, shr. destruct (_ - e)%Z eqn:E; simpl; lia. Qed.

Lemma shr_fexp_le prec emax m e l : 0 <= m -> shr_m (shr_fexp prec emax m e l).1 <= m.
Proof.
  intros Hm. unfold shr_fexp, shr.
  assert (shr_m (shr_record_of_loc m l) = m) as Hr by (by destruct l as [|[]]).
  destruct (_ - e)%Z; simpl; try lia. pose proof (iter_shr_le p (shr_record_of_loc m l)). lia.
Qed.

Lemma round_nearest_even_le m l : 0 <= m -> m <= round_nearest_even m l <= m + 1.
Proof. destruct l as [|[]]; simpl; try lia. destruct (Z.even m); lia. Qed.

Lemma binary_round_aux_finite prec emax m e l :
  0 <= m ->
  (let e1 := Z.max e (fexp prec emax (Zdigits2 m + e)) in
   Z.max e1 (fexp prec emax (Zdigits2 m + 1 + e1)) <= emax - prec) ->
  f_finite (binary_round_aux prec emax false m e l) = true.
Proof.
  intros Hm He. pose proof (binary_round_aux_nonneg prec emax m e l Hm) as Hn. unfold binary_round_aux in *.
  pose proof (shr_fexp_nonneg prec emax m e l Hm) as H1. pose proof (shr_fexp_le prec emax m e l Hm) as H1'.
  pose proof (shr_fexp_e prec emax m e l) as E1.
  destruct (shr_fexp prec emax m e l) as [r1 e1]. simpl in H1, H1', E1. rewrite <- E1 in He.
  set (m2 := round_nearest_even _ _) in *.
  pose proof (round_nearest_even_le _ (loc_of_shr_record r1) H1) as H2. fold m2 in H2.
  pose proof (shr_fexp_e prec emax m2 e1 loc_Exact) as E2.
  destruct (shr_fexp prec emax m2 e1 loc_Exact) as [r2 e2]. simpl in E2.
  assert (Zdigits2 m2 <= Zdigits2 m + 1) as Hd.
  { pose proof (Zdigits2_mono m2 (m + 1)). pose proof (Zdigits2_succ m Hm). lia. }
  cbv zeta in He. destruct (shr_m r2); [done| |done]. rewrite (proj2 (Z.leb_le _ _)); [done|].
  unfold fexp in *. lia.
Qed.

Lemma pos_iter_xO m d : Z.pos (Pos.iter xO m d) = Z.pos m * 2 ^ Z.pos d.
Proof.
  induction d as [|d IH] using Pos.peano_ind; [simpl; lia|].
  rewrite Pos.iter_succ, Pos2Z.inj_xO, IH, Pos2Z.inj_succ, Z.pow_succ_r by lia. lia.
Qed.

Lemma f64_of_Z_finite n : 0 <= n < 2 ^ 65 -> f_finite (f64_of_Z n) = true.
Proof.
  intros Hn. unfold f64_of_Z, binary_normalize. destruct n as [|m|m]; [done| |lia]. unfold binary_round.
  assert (Hd : 1 <= Zdigits2 (Z.pos m) <= 65).
  { rewrite Zdigits2_log2. pose proof (Z.log2_nonneg (Z.pos m)). pose proof (Z.log2_lt_pow2 (Z.pos m) 65). lia. }
  change (Z.pos (digits2_pos m)) with (Zdigits2 (Z.pos m)). set (d := Zdigits2 (Z.pos m)) in *.
  unfold shl_align. assert (Hf : fexp 53 1024 (d + 0) = d - 53) by (unfold fexp, emin; lia).
  rewrite Hf. destruct (d - 53 - 0)%Z as [|q|q] eqn:E; apply binary_round_aux_finite; try lia.
  1,2: fold d; unfold fexp, emin in *; lia.
  rewrite Zdigits2_log2, pos_iter_xO, Z.log2_mul_pow2 by lia.
  unfold d in *. rewrite Zdigits2_log2 in *. unfold fexp, emin in *. lia.
Qed.

Lemma f_finite_not_nan x : f_finite x = true -> f_is_nan x = false.
Proof. by destruct x. Qed.

(** ** Magnitude

    [f_val x] is the value of a non-negative finite number, scaled by [2^1200] to
    be an integer; [f_bnd b x] says that [x] is such a number with scaled value at
    most [b].  Below [2^73] one rounding adds at most [2^21] (far more than the
    actual half unit in the last place, and enough for the users of the bound). *)

Definition f_val (m : positive) (e : Z) : Z := Z.pos m * 2 ^ (e + 1200).

Definition f_bnd (b : Z) (x : f64) : Prop :=
  match x with
  | S754_zero false => True
  | S754_finite false m e => -1074 <= e /\ f_val m e <= b
  | _ => False
  end.

Lemma f_bnd_weaken b c x : b <= c -> f_bnd b x -> f_bnd c x.
Proof. intros Hbc. destruct x as [[]| | |[] m e]; simpl; try done; lia. Qed.

Lemma f_bnd_finite b x : f_bnd b x -> f_nonneg x = true /\ f_finite x = true.
Proof. by destruct x as [[]| | |[] m e]. Qed.

Lemma shr_1_val r : 0 <= shr_m r -> shr_m (shr_1 r) * 2 <= shr_m r.
Proof. destruct r as [[|[]|[]] ? ?]; simpl; lia. Qed.

Lemma iter_shr_val p r :
  0 <= shr_m r -> shr_m (iter_pos shr_1 p r) * 2 ^ Z.pos p <= shr_m r.
Proof.
  revert r; induction p as [p IH|p IH|]; intros r Hr; cbn [iter_pos].
  - pose proof (shr_1_nonneg r Hr) as H1. pose proof (shr_1_val r Hr).
    pose proof (iter_shr_nonneg p _ H1) as H2. pose proof (IH _ H1). pose proof (IH _ H2).
    replace (Z.pos p~1) with (Z.pos p + Z.pos p + 1) by lia. rewrite !Z.pow_add_r by lia.
    change (2 ^ 1) with 2. pose proof (Z.pow_pos_nonneg 2 (Z.pos p)). nia.
  - pose proof (iter_shr_nonneg p _ Hr) as H2. pose proof (IH _ Hr). pose proof (IH _ H2).
    replace (Z.pos p~0) with (Z.pos p + Z.pos p) by lia. rewrite !Z.pow_add_r by lia.
    pose proof (Z.pow_pos_nonneg 2 (Z.pos p)). nia.
  - by apply shr_1_val.
Qed.

Lemma shr_fexp_val prec emax m e l k :
  0 <= m -> 0 <= e + k ->
  shr_m (shr_fexp prec emax m e l).1 * 2 ^ ((shr_fexp prec emax m e l).2 + k) <= m * 2 ^ (e + k).
Proof.
  intros Hm He. unfold shr_fexp, shr.
  assert (shr_m (shr_record_of_loc m l) = m) as Hr by (by destruct l as [|[]]).
  destruct (_ - e)%Z as [|p|p]; cbn [fst snd]; rewrite ?Hr; [lia| |lia].
  pose proof (iter_shr_val p (shr_record_of_loc m l)) as H. rewrite Hr in H.
  replace (e + Z.pos p + k) with (Z.pos p + (e + k)) by lia. rewrite Z.pow_add_r by lia.
  pose proof (Z.pow_pos_nonneg 2 (e + k)). nia.
Qed.

Lemma digits_val m e k : 0 <= e + 1200 -> f_val m e <= 2 ^ (k + 1200) -> Zdigits2 (Z.pos m) + e <= k + 1.
Proof.
  intros He Hv. rewrite Zdigits2_log2. pose proof (Z.log2_spec (Z.pos m) ltac:(lia)) as [Hl _].
  assert (Hp : 2 ^ (Z.log2 (Z.pos m) + (e + 1200)) <= 2 ^ (k + 1200)).
  { rewrite Z.pow_add_r by (try apply Z.log2_nonneg; lia). unfold f_val in Hv.
    pose proof (Z.pow_pos_nonneg 2 (e + 1200)). nia. }
  apply Z.pow_le_mono_r_iff in Hp; [lia|lia|].
  destruct (Z.le_gt_cases 0 (k + 1200)); [done|]. rewrite (Z.pow_neg_r 2 (k + 1200)) in Hp by lia.
  pose proof (Z.log2_nonneg (Z.pos m)). pose proof (Z.pow_pos_nonneg 2 (Z.log2 (Z.pos m) + (e + 1200))). lia.
Qed.

(** The rounded mantissa after the first shift: exact, or one more than the
    truncation at the target exponent. *)
Lemma round_step_val m e :
  -1200 <= e -> f_val m e <= 2 ^ (73 + 1200) ->
  let (r, e1) := shr_fexp 53 1024 (Z.pos m) e loc_Exact in
  -1074 <= e1 /\ 0 <= round_nearest_even (shr_m r) (loc_of_shr_record r) /\
  round_nearest_even (shr_m r) (loc_of_shr_record r) * 2 ^ (e1 + 1200)
    <= f_val m e + 2 ^ (21 + 1200).
Proof.
  intros He Hv. pose proof (digits_val m e 73 ltac:(lia) Hv) as Hd.
  pose proof (shr_fexp_val 53 1024 (Z.pos m) e loc_Exact 1200 ltac:(lia) ltac:(lia)) as V1.
  pose proof (shr_fexp_nonneg 53 1024 (Z.pos m) e loc_Exact ltac:(lia)) as N1.
  pose proof (shr_fexp_e 53 1024 (Z.pos m) e loc_Exact) as E1.
  unfold shr_fexp, shr in *.
  destruct (fexp 53 1024 (Zdigits2 (Z.pos m) + e) - e)%Z as [|p|p] eqn:En; cbn [fst snd] in *.
  1,3: cbn [shr_record_of_loc shr_m loc_of_shr_record round_nearest_even] in *;
    unfold fexp, emin in *; split_and!; [lia..|]; unfold f_val; pose proof (Z.pow_pos_nonneg 2 (21 + 1200)); lia.
  set (r := iter_pos shr_1 p _) in *. pose proof (round_nearest_even_le _ (loc_of_shr_record r) N1) as H2.
  assert (He1 : -1074 <= e + Z.pos p <= 21) by (unfold fexp, emin in *; lia).
  split_and!; [lia..|]. fold (f_val m e) in V1.
  pose proof (Z.pow_le_mono_r 2 (e + Z.pos p + 1200) (21 + 1200) ltac:(lia) ltac:(lia)).
  pose proof (Z.pow_pos_nonneg 2 (e + Z.pos p + 1200)). nia.
Qed.

Lemma round_aux_bnd m e :
  -1200 <= e -> f_val m e <= 2 ^ (73 + 1200) ->
  f_bnd (f_val m e + 2 ^ (21 + 1200)) (binary_round_aux 53 1024 false (Z.pos m) e loc_Exact).
Proof.
  intros He Hv. pose proof (digits_val m e 73 ltac:(lia) Hv) as Hd.
  pose proof (round_step_val m e He Hv) as Hs.
  assert (Hd1 : 1 <= Zdigits2 (Z.pos m)) by (rewrite Zdigits2_log2; pose proof (Z.log2_nonneg (Z.pos m)); lia).
  pose proof (binary_round_aux_nonneg 53 1024 (Z.pos m) e loc_Exact ltac:(lia)) as Hn.
  unfold binary_round_aux in *. destruct (shr_fexp 53 1024 (Z.pos m) e loc_Exact) as [r1 e1].
  destruct Hs as (He1 & N2 & V2). set (m2 := round_nearest_even _ _) in *.
  pose proof (shr_fexp_val 53 1024 m2 e1 loc_Exact 1200 ltac:(lia) ltac:(lia)) as V3.
  pose proof (shr_fexp_e 53 1024 m2 e1 loc_Exact) as E2.
  destruct (shr_fexp 53 1024 m2 e1 loc_Exact) as [r2 e2]. cbn [fst snd] in *.
  destruct (shr_m r2) as [|m3|m3]; [done| |done].
  assert (f_val m3 e2 <= f_val m e + 2 ^ (21 + 1200)) as Hval by (unfold f_val at 1; lia).
  assert (Zdigits2 (Z.pos m3) + e2 <= 75) as Hd3.
  { apply (digits_val m3 e2 74); [lia|]. assert (2 ^ (21 + 1200) <= 2 ^ (73 + 1200)) by (apply Z.pow_le_mono_r; lia).
    assert (2 ^ (74 + 1200) = 2 * 2 ^ (73 + 1200)) by (rewrite <- Z.pow_succ_r by lia; f_equal). lia. }
  assert (1 <= Zdigits2 (Z.pos m3)) by (rewrite Zdigits2_log2; pose proof (Z.log2_nonneg (Z.pos m3)); lia).
  rewrite (proj2 (Z.leb_le _ _)) by lia. simpl. split; [lia|done].
Qed.

Lemma round_bnd m e :
  -1200 <= e -> f_val m e <= 2 ^ (73 + 1200) ->
  f_bnd (f_val m e + 2 ^ (21 + 1200)) (binary_round 53 1024 false m e).
Proof.
  intros He Hv. unfold binary_round, shl_align.
  set (t := fexp 53 1024 _). assert (Ht : -1074 <= t) by (unfold t, fexp, emin; lia).
  destruct (t - e)%Z as [|q|q] eqn:E; [by apply round_aux_bnd..|].
  assert (Heq : f_val (Pos.iter xO m q) t = f_val m e).
  { unfold f_val. rewrite pos_iter_xO, <- Z.mul_assoc, <- Z.pow_add_r by lia. do 2 f_equal. lia. }
  rewrite <- Heq. apply round_aux_bnd; [lia|by rewrite Heq].
Qed.

Lemma f64_add_bnd a b x y :
  0 <= a -> 0 <= b -> a + b <= 2 ^ (73 + 1200) ->
  f_bnd a x -> f_bnd b y -> f_bnd (a + b + 2 ^ (21 + 1200)) (f64_add x y).
Proof.
  intros Ha Hb Hab. pose proof (Z.pow_pos_nonneg 2 (21 + 1200) ltac:(lia) ltac:(lia)).
  destruct x as [[]| | |[] mx ex]; try done; destruct y as [[]| | |[] my ey]; try done; cbn [f_bnd];
    try (intros; simpl; lia).
  intros [Hex Hx] [Hey Hy]. unfold f64_add, SFadd, cond_Zopp.
  assert (Hal : forall m e ez, ez <= e -> -1074 <= ez -> f_val (shl_align m e ez).1 ez = f_val m e).
  { intros m e ez Hle Hlo. unfold shl_align, f_val. destruct (ez - e)%Z as [|q|q] eqn:E; cbn [fst]; [|lia|].
    - by replace ez with e by lia.
    - rewrite pos_iter_xO, <- Z.mul_assoc, <- Z.pow_add_r by lia. do 2 f_equal. lia. }
  pose proof (Hal mx ex (Z.min ex ey) ltac:(lia) ltac:(lia)) as H1.
  pose proof (Hal my ey (Z.min ex ey) ltac:(lia) ltac:(lia)) as H2.
  set (p1 := (shl_align mx _ _).1) in *. set (p2 := (shl_align my _ _).1) in *.
  change (Z.pos p1 + Z.pos p2) with (Z.pos (p1 + p2)). cbn [binary_normalize].
  assert (Hsum : f_val (p1 + p2) (Z.min ex ey) = f_val mx ex + f_val my ey)
    by (rewrite <- H1, <- H2; unfold f_val; rewrite Pos2Z.inj_add; lia).
  eapply f_bnd_weaken; [|apply round_bnd; [lia|]]; rewrite Hsum; lia.
Qed.

Lemma f64_of_Z_bnd n :
  0 <= n <= 2 ^ 72 -> f_bnd (n * 2 ^ 1200 + 2 ^ (21 + 1200)) (f64_of_Z n).
Proof.
  intros Hn. destruct n as [|m|m]; [done| |lia]. unfold f64_of_Z, binary_normalize.
  apply (round_bnd m 0); [lia|]. unfold f_val. change (0 + 1200) with 1200.
  rewrite Z.pow_add_r by lia. apply Z.mul_le_mono_nonneg_r; [apply Z.pow_nonneg; lia|].
  transitivity (2 ^ 72); [lia|apply Z.pow_le_mono_r; lia].
Qed.

#[export] Hint Resolve SFadd_nonneg SFmul_nonneg f64_of_Z_nonneg f_nonneg_not_nan : mint.

(** ** Absence of NaN *)

Lemma binary_round_aux_not_nan prec emax s m e l : 0 <= m -> f_is_nan (binary_round_aux prec emax s m e l) = false.
Proof.
  intros Hm. unfold binary_round_aux.
  pose proof (shr_fexp_nonneg prec emax m e l Hm) as H1.
  destruct (shr_fexp prec emax m e l) as [r1 e1]. simpl in H1.
  pose proof (shr_fexp_nonneg prec emax (round_nearest_even (shr_m r1) (loc_of_shr_record r1)) e1 loc_Exact
    (round_nearest_even_nonneg _ _ H1)) as H2.
  destruct (shr_fexp prec emax _ e1 loc_Exact) as [r2 e2]. simpl in H2.
  destruct (shr_m r2); [done| |lia]. by destruct (_ <=? _).
Qed.

Lemma binary_round_not_nan prec emax s m e : f_is_nan (binary_round prec emax s m e) = false.
Proof. unfold binary_round. destruct (shl_align _ _ _). apply binary_round_aux_not_nan. lia. Qed.

Lemma binary_normalize_not_nan prec emax m e s : f_is_nan (binary_normalize prec emax m e s) = false.
Proof. destruct m as [|m|m]; [done|apply binary_round_not_nan..]. Qed.

(** Subtraction is undefined only between infinities, multiplication only between zero and infinity. *)
Lemma f64_sub_not_nan x y :
  f_is_nan x = false -> f_is_nan y = false -> f_finite x = true \/ f_finite y = true -> f_is_nan (f64_sub x y) = false.
Proof.
  unfold f64_sub. destruct x as [[]|[]| |[] mx ex], y as [[]|[]| |[] my ey]; simpl; intros H1 H2 H3;
    first [discriminate H1 | discriminate H2 | reflexivity | apply binary_normalize_not_nan | apply binary_round_not_nan
          | destruct H3 as [H3|H3]; discriminate H3].
Qed.

Lemma f64_mul_not_nan x y : f_pos_finite x = true -> f_is_nan y = false -> f_is_nan (f64_mul x y) = false.
Proof.
  unfold f64_mul. destruct x as [[]|[]| |[] mx ex], y as [[]|[]| |[] my ey]; simpl; try done;
    intros _ _; by apply binary_round_aux_not_nan.
Qed.

(** A positive number, or undefined. *)
Definition f_weak (x : f64) : bool :=
  match x with S754_zero s | S754_infinity s | S754_finite s _ _ => negb s | S754_nan => true end.

Lemma f_nonneg_weak x : f_nonneg x = true -> f_weak x = true.
Proof. by destruct x as [[]|[]| |[] m e]. Qed.

Lemma f_weak_cases x : f_weak x = true -> f_nonneg x = true \/ x = S754_nan.
Proof. destruct x as [[]|[]| |[] m e]; simpl; auto. Qed.

Lemma f64_add_weak x y : f_weak x = true -> f_weak y = true -> f_weak (f64_add x y) = true.
Proof.
  intros [Hx| ->]%f_weak_cases [Hy| ->]%f_weak_cases; unfold f64_add; [|by destruct x|by destruct y|done].
  by apply f_nonneg_weak, SFadd_nonneg.
Qed.

Lemma f64_mul_weak x y : f_weak x = true -> f_weak y = true -> f_weak (f64_mul x y) = true.
Proof.
  unfold f64_mul. destruct x as [[]|[]| |[] mx ex], y as [[]|[]| |[] my ey]; simpl; try done.
  intros _ _. apply f_nonneg_weak, binary_round_aux_nonneg. lia.
Qed.

(** A clamp between positive bounds is positive. *)
Lemma f_clamp_pos lo hi x :
  f_pos_finite lo = true -> f_pos_finite hi = true -> f_is_nan x = false -> f_pos_finite (f_clamp lo hi x) = true.
Proof.
  destruct lo as [[]|[]| |[] ml el]; try done. destruct hi as [[]|[]| |[] mh eh]; try done. intros _ _ Hx.
  unfold f_clamp. destruct x as [[]|[]| |[] mx ex]; try done; try (simpl; by case_match).
  cbn -[f_lt]. destruct (f_lt (S754_finite false mx ex) _); by case_match.
Qed.
