(* ===== verification/Packet.v ===== *)
(** * Wire framing ([src/src/net/packet.rs])

    Datagram classification (compact one-byte types and four-byte ASCII control
    tags), the framing functions, the one-hop proxy TTL and the compound control
    body [MCTL]. *)

From S2P Require Import Prelude.

(** ** Constants *)

Definition COMPACT_HEADER_LEN : Z := 1.
Definition CONTROL_TAG_LEN : nat := 4.
Definition FEC_COMPACT_HEADER_LEN : Z := 10.
Definition UNDERLAY_IPV4_UDP_OVERHEAD : Z := 28.

(** Kind byte, 6-byte wire counter and 16-byte tag. *)
Definition MENC_WIRE_OVERHEAD : Z := COMPACT_HEADER_LEN + 6 + 16.

(** [b'M'], the first byte of every control tag. *)
Definition BYTE_M : Z := 77.

Definition PKT_KPAL : bytes := [77; 75; 80; 76].
Definition PKT_JOIN : bytes := [77; 80; 74; 78].
Definition PKT_JACK : bytes := [77; 80; 74; 65].
Definition PKT_PRXY : bytes := [77; 80; 82; 88].
Definition PKT_HPCH : bytes := [77; 72; 79; 76].
Definition PKT_HACK : bytes := [77; 72; 65; 67].
Definition PKT_PMTU : bytes := [77; 80; 77; 84].
Definition PKT_PMAR : bytes := [77; 80; 65; 82].
Definition PKT_CLG : bytes := [77; 67; 76; 71].
Definition PKT_LEAVE : bytes := [77; 76; 69; 65].
Definition PKT_MSTR : bytes := [77; 83; 84; 82].
Definition PKT_MERR : bytes := [77; 69; 82; 82].
Definition PKT_BREK : bytes := [77; 66; 82; 75].
Definition PKT_RDYS : bytes := [77; 82; 68; 89].
Definition PKT_CTSIG : bytes := [77; 67; 84; 83].
Definition PKT_MCTL : bytes := [77; 67; 84; 76].
Definition PKT_PARA_HELLO : bytes := [77; 80; 72; 73].
Definition PKT_PARA_REPLY : bytes := [77; 80; 72; 82].
Definition PKT_PARA_OK : bytes := [77; 80; 72; 79].
Definition PKT_PARA_PUNCH_ACK : bytes := [77; 80; 80; 65].

(** ** Compact packet types *)

Inductive CompactPacketType :=
| Data | Encrypted | Fec | Reliable | Ack | JoinAck | Ping | Pong.

#[export] Instance CompactPacketType_eq_dec : EqDecision CompactPacketType.
Proof. solve_decision. Defined.

Definition to_byte (ty : CompactPacketType) : Z :=
  match ty with
  | Data => 1 | Encrypted => 2 | Fec => 3 | Reliable => 4
  | Ack => 5 | JoinAck => 6 | Ping => 7 | Pong => 8
  end.

Definition try_from_byte (b : Z) : option CompactPacketType :=
  match b with
  | 1 => Some Data
  | 2 => Some Encrypted
  | 3 => Some Fec
  | 4 => Some Reliable
  | 5 => Some Ack
  | 6 => Some JoinAck
  | 7 => Some Ping
  | 8 => Some Pong
  | _ => None
  end.

Lemma try_from_to_byte ty : try_from_byte (to_byte ty) = Some ty.
Proof. by destruct ty. Qed.

Lemma try_from_byte_inv b ty : try_from_byte b = Some ty -> b = to_byte ty.
Proof.
  unfold try_from_byte. intros H.
  repeat match goal with
  | H : context [match ?x with _ => _ end] |- _ => is_var x; destruct x; simplify_eq
  end; done.
Qed.

Lemma to_byte_not_M ty : to_byte ty <> BYTE_M.
Proof. by destruct ty. Qed.

#[export] Hint Resolve try_from_to_byte to_byte_not_M : mint.

(** ** Datagram classification *)

Inductive DatagramKind :=
| Compact (ty : CompactPacketType) (body : bytes)
| Control (tag : bytes) (body : bytes).

Definition parse_datagram (buf : bytes) : option DatagramKind :=
  match buf with
  | [] => None
  | b0 :: rest =>
      if b0 =? BYTE_M then
        if (length buf <? CONTROL_TAG_LEN)%nat then None
        else Some (Control (take CONTROL_TAG_LEN buf) (drop CONTROL_TAG_LEN buf))
      else
        match try_from_byte b0 with
        | None => None
        | Some ty => Some (Compact ty rest)
        end
  end.

Definition frame_compact (ty : CompactPacketType) (body : bytes) : bytes :=
  [to_byte ty] ++ body.

Definition parse_compact (buf : bytes) : option (CompactPacketType * bytes) :=
  match buf with
  | [] => None
  | b0 :: rest =>
      match try_from_byte b0 with
      | None => None
      | Some ty => Some (ty, rest)
      end
  end.

Definition frame_with_tag (tag body : bytes) : bytes := tag ++ body.

Definition parse_tag (buf : bytes) : option (bytes * bytes) :=
  if (length buf <? 4)%nat then None else Some (take 4 buf, drop 4 buf).

(** The sender's side of each kind of datagram, and the tags it may use. *)
Definition frame_datagram (k : DatagramKind) : bytes :=
  match k with
  | Compact ty body => frame_compact ty body
  | Control tag body => frame_with_tag tag body
  end.

Definition sendable (k : DatagramKind) : Prop :=
  match k with
  | Compact _ _ => True
  | Control tag _ => length tag = CONTROL_TAG_LEN /\ head tag = Some BYTE_M
  end.

Lemma parse_datagram_frame k : sendable k -> parse_datagram (frame_datagram k) = Some k.
Proof.
  destruct k as [ty body|tag body]; simpl.
  - intros _. destruct (Z.eqb_spec (to_byte ty) BYTE_M) as [E|_].
    + by destruct (to_byte_not_M ty).
    + by rewrite try_from_to_byte.
  - intros [Hlen Hhd]. destruct tag as [|t0 [|t1 [|t2 [|t3 [|]]]]]; try done.
    simpl in Hhd. simplify_eq. done.
Qed.

Lemma parse_datagram_inv buf k :
  parse_datagram buf = Some k -> buf = frame_datagram k /\ sendable k.
Proof.
  destruct buf as [|b0 rest]; [done|]. cbn [parse_datagram].
  destruct (Z.eqb_spec b0 BYTE_M) as [->|_].
  - destruct (Nat.ltb_spec (length (BYTE_M :: rest)) CONTROL_TAG_LEN) as [|Hlen]; [done|].
    unfold CONTROL_TAG_LEN in *. intros [= <-].
    destruct rest as [|t1 [|t2 [|t3 rest]]]; simpl in Hlen; try lia. done.
  - destruct (try_from_byte b0) eqn:E; [|done]. intros [= <-].
    by rewrite (try_from_byte_inv _ _ E).
Qed.

(** C21. Parsing a datagram is exactly the inverse of framing one: a buffer
    parses as [k] if and only if it is what a sender emits for [k], so no two
    distinct messages share a wire image, every framed message is recognised as
    itself (compact bodies never look like control tags), and every buffer the
    receiver accepts is one a sender could have framed. *)
Theorem parse_datagram_exact (buf : bytes) (k : DatagramKind) :
  parse_datagram buf = Some k <-> (buf = frame_datagram k /\ sendable k).
Proof.
  split; [apply parse_datagram_inv|]. intros [-> ?]. by apply parse_datagram_frame.
Qed.

(** ** One-hop relay *)

Definition prxy_forwarded_ttl (inbound_ttl : Z) : option Z :=
  if Z.min inbound_ttl 1 >? 0 then Some 0 else None.

(** ** Compound control body (MCTL) *)

Definition MCTL_FLAG_HB : Z := 1.
Definition MCTL_FLAG_HOL : Z := 2.

Record MctlParsed := mkMctl {
  mctl_flags : Z;
  mctl_vip : option bytes;
  signaling_ok : bool
}.

Definition encode_mctl (flags : Z) (vip : option bytes) : option bytes :=
  if flags =? 0 then None
  else
    let flags := Z.land flags (Z.lor MCTL_FLAG_HB MCTL_FLAG_HOL) in
    if flags =? 0 then None
    else
      let need_vip := negb (Z.land flags (Z.lor MCTL_FLAG_HB MCTL_FLAG_HOL) =? 0) in
      if need_vip then
        match vip with
        | None => None
        | Some v =>
            if (len v =? 0) || (len v >? 255) then None
            else Some (le_bytes 2 flags ++ [wrap 8 (len v)] ++ v)
        end
      else Some (le_bytes 2 flags).

Definition parse_mctl (body : bytes) : option MctlParsed :=
  match body with
  | b0 :: b1 :: rest =>
      let raw_flags := le_val [b0; b1] in
      if raw_flags =? 0 then None
      else
        let flags := Z.land raw_flags (Z.lor MCTL_FLAG_HB MCTL_FLAG_HOL) in
        if flags =? 0 then None
        else
          let need_vip := negb (Z.land flags (Z.lor MCTL_FLAG_HB MCTL_FLAG_HOL) =? 0) in
          if need_vip then
            match rest with
            | [] => Some (mkMctl flags None false)
            | vip_len :: rest =>
                if (vip_len =? 0) || (len rest <? vip_len)
                then Some (mkMctl flags None false)
                else Some (mkMctl flags (Some (take (Z.to_nat vip_len) rest)) true)
            end
          else Some (mkMctl flags None true)
  | _ => None
  end.

Lemma land3_range f : 0 <= Z.land f 3 < 4.
Proof. change 3 with (Z.ones 2). rewrite Z.land_ones by lia. apply Z.mod_pos_bound. lia. Qed.

Lemma land3_idem f : Z.land (Z.land f 3) 3 = Z.land f 3.
Proof. by rewrite <- Z.land_assoc. Qed.

Lemma encode_mctl_Some flags vip body :
  encode_mctl flags vip = Some body ->
  exists v, vip = Some v /\ Z.land flags 3 <> 0 /\ 0 < len v <= 255 /\
       body = le_bytes 2 (Z.land flags 3) ++ [len v] ++ v.
Proof.
  unfold encode_mctl. change (Z.lor MCTL_FLAG_HB MCTL_FLAG_HOL) with 3.
  rewrite land3_idem. case_match; [done|]. case_match; [done|]. simpl.
  destruct vip as [v|]; [|done]. case_match; [done|]. breflect.
  rewrite Z.gtb_ltb in *. breflect. intros [= <-]. exists v.
  pose proof (len_nonneg v). rewrite wrap_small by (unfold in_u; lia).
  repeat split; try done; lia.
Qed.

(** Round trip of the compound control body: whatever [encode_mctl] emits,
    [parse_mctl] reads back as the two known flag bits of the request and the
    VIP, also when it is followed by other bytes and when the receiver's copy
    carries unknown flag bits in the low flag byte. *)
Theorem mctl_roundtrip (flags unknown : Z) (vip : option bytes) (b0 : Z) (body trailer : bytes) :
  encode_mctl flags vip = Some (b0 :: body) ->
  parse_mctl (Z.lor b0 (4 * unknown) :: body ++ trailer)
  = Some (mkMctl (Z.land flags 3) vip true).
Proof.
  intros (v & -> & Hf & Hlen & Hb)%encode_mctl_Some.
  pose proof (land3_range flags) as Hr. pose proof (land3_idem flags) as Hid.
  set (f := Z.land flags 3) in *. clearbody f.
  assert (Hmod : f mod 256 = f) by (apply Z.mod_small; lia).
  assert (Hdiv : f / 256 = 0) by (apply Z.div_small; lia).
  cbn [le_bytes app] in Hb. rewrite Hmod, Hdiv, Z.mod_0_l in Hb by lia. injection Hb as -> ->.
  cbn [app parse_mctl le_val]. rewrite Z.add_0_r.
  change (Z.lor MCTL_FLAG_HB MCTL_FLAG_HOL) with 3.
  assert (Hland : Z.land (Z.lor f (4 * unknown)) 3 = f).
  { rewrite Z.land_lor_distr_l, Hid.
    change 3 with (Z.ones 2). rewrite (Z.land_ones (4 * unknown)) by lia.
    rewrite Z.mul_comm, Z.mod_mul by lia. apply Z.lor_0_r. }
  destruct (Z.eqb_spec (Z.lor f (4 * unknown)) 0) as [E|_].
  { rewrite E in Hland. by rewrite <- Hland in Hf. }
  rewrite Hland, Hid.
  destruct (Z.eqb_spec f 0); [done|]. simpl.
  destruct (Z.eqb_spec (len v) 0); [lia|].
  destruct (Z.ltb_spec (len (v ++ trailer)) (len v)) as [Hlt|_].
  { rewrite len_app in Hlt. pose proof (len_nonneg trailer). lia. }
  simpl. do 3 f_equal. unfold len. rewrite Nat2Z.id. by apply take_app_length'.
Qed.

Lemma mctl_roundtrip_witness :
  parse_mctl (Z.lor 3 (4 * 1) :: [0; 2; 10; 20] ++ [99])
  = Some (mkMctl (Z.land 7 3) (Some [10; 20]) true).
Proof. apply (mctl_roundtrip 7 1 (Some [10; 20]) 3 [0; 2; 10; 20] [99]). vm_compute. reflexivity. Defined.
