(* ===== verification/Crypto.v ===== *)
(** * Cryptographic framing and replay protection ([src/src/crypto.rs])

    The AEAD (AEGIS-128L), HKDF-SHA256, the hash functions and base64 are crates
    outside the repository: they are parameters of the sections that use them,
    with the documented laws as hypotheses.  The wire counter, the nonce, the
    sliding replay window, the per-source control replay table and the invite
    codec are the repository's own and are modelled in full. *)

From S2P Require Import Prelude Text Packet.

Definition KEY_LEN : nat := 32.
Definition AEAD_KEY_LEN : nat := 16.
Definition DATA_SALT_LEN : nat := 10.
Definition WIRE_COUNTER_LEN : nat := 6.
Definition DATA_TAG_LEN : nat := 16.
Definition DATA_REPLAY_WINDOW_BITS : Z := 128.
Definition CTRL_REPLAY_MAX_SOURCES : Z := 4096.
Definition DATA_REPLAY_MAX_COUNTER : Z := 2 ^ 48 - 1.

(** ASCII byte strings used as domain separators. *)
Definition CTRL_AAD : bytes := [109; 99; 116; 115].
Definition HKDF_DOMAIN_SALT : bytes :=
  [109; 105; 110; 116; 45; 97; 101; 103; 105; 115; 45; 49; 50; 56; 108; 45; 118; 49].
Definition HKDF_DOMAIN_INFO : bytes := [100; 97; 116; 97].
Definition HKDF_DOMAIN_INFO_CTRL : bytes := [99; 116; 114; 108].
Definition FLOATUNIT_SUBNET_INFO : bytes :=
  [102; 108; 111; 97; 116; 117; 110; 105; 116; 45; 115; 117; 98; 110; 101; 116; 45; 118; 49].

(** ** Wire counter and nonce *)

Definition encode_wire_counter (counter : Z) : result bytes string :=
  if counter >? DATA_REPLAY_MAX_COUNTER then Err "counter exhausted"
  else Ok (take WIRE_COUNTER_LEN (le_bytes 8 counter)).

Definition decode_wire_counter (counter_wire : bytes) : Z :=
  le_val (counter_wire ++ [0; 0]).

Definition nonce_from_counter (salt counter_wire : bytes) : bytes := salt ++ counter_wire.

Lemma encode_wire_counter_Ok c w :
  encode_wire_counter c = Ok w -> c <= DATA_REPLAY_MAX_COUNTER /\ w = le_bytes 6 c.
Proof.
  unfold encode_wire_counter. rewrite Z.gtb_ltb. bsplit; intros [=]. by split; [lia|subst].
Qed.

Lemma le_val_app_zeros l : le_val (l ++ [0; 0]) = le_val l.
Proof. induction l as [|b l IH]; [done|]. cbn [app le_val]. by rewrite IH. Qed.

Lemma decode_encode_wire_counter c w :
  0 <= c -> encode_wire_counter c = Ok w -> decode_wire_counter w = c.
Proof.
  intros Hc [Hm ->]%encode_wire_counter_Ok. unfold decode_wire_counter.
  rewrite le_val_app_zeros, le_val_le_bytes. apply Z.mod_small.
  unfold DATA_REPLAY_MAX_COUNTER in Hm. simpl in *. lia.
Qed.

(** No nonce reuse by counter arithmetic: under one salt, two counters that
    the encoder accepts give the same 16-byte nonce only if they are the same
    counter, so a sender whose counter never repeats never repeats a nonce. *)
Theorem nonce_injective (salt : bytes) (c1 c2 : Z) (w1 w2 : bytes) :
  0 <= c1 -> 0 <= c2 ->
  encode_wire_counter c1 = Ok w1 -> encode_wire_counter c2 = Ok w2 ->
  nonce_from_counter salt w1 = nonce_from_counter salt w2 -> c1 = c2.
Proof.
  intros H1 H2 E1 E2 [= ->%app_inv_head].
  rewrite <- (decode_encode_wire_counter _ _ H1 E1). by apply decode_encode_wire_counter.
Qed.

Lemma nonce_injective_witness : 281474976710655 = 281474976710655.
Proof.
  apply (nonce_injective [1; 2] _ _ [255; 255; 255; 255; 255; 255] [255; 255; 255; 255; 255; 255]);
    (lia || reflexivity).
Defined.

(** ** Replay window *)

Record DataReplayWindow := mkWindow { top : option Z; bits : Z }.

Definition new_window : DataReplayWindow := mkWindow None 0.

Definition window_allows (w : DataReplayWindow) (counter : Z) : bool :=
  match top w with
  | None => true
  | Some top =>
      if counter >? top then true
      else
        let delta := top - counter in
        if delta >=? DATA_REPLAY_WINDOW_BITS then false
        else Z.land (bits w) (Z.shiftl 1 delta) =? 0
  end.

Definition window_commit (w : DataReplayWindow) (counter : Z) : DataReplayWindow :=
  match top w with
  | None => mkWindow (Some counter) 1
  | Some top =>
      if counter >? top then
        let shift := Z.min (counter - top) DATA_REPLAY_WINDOW_BITS in
        let shifted :=
          if shift >=? DATA_REPLAY_WINDOW_BITS then 0
          else wrap 128 (Z.shiftl (bits w) shift) in
        mkWindow (Some counter) (Z.lor shifted 1)
      else
        let delta := top - counter in
        if delta <? DATA_REPLAY_WINDOW_BITS
        then mkWindow (Some top) (Z.lor (bits w) (Z.shiftl 1 delta))
        else w
  end.

(** The abstract replay filter is the set of counters committed so far; [repr]
    is the refinement relation: [top] is its maximum and bit [d] says whether
    [top - d] is in it. *)
Definition repr (w : DataReplayWindow) (h : list Z) : Prop :=
  match top w with
  | None => h = []
  | Some t =>
      t ∈ h /\ (forall c, c ∈ h -> c <= t) /\
      forall d, 0 <= d < 128 -> Z.testbit (bits w) d = bool_decide (t - d ∈ h)
  end.

Lemma shiftl1_testbit d i : 0 <= d -> Z.testbit (Z.shiftl 1 d) i = (d =? i).
Proof.
  intros Hd. rewrite Z.shiftl_1_l.
  destruct (Z.eqb_spec d i) as [->|Hne]; [by apply Z.pow2_bits_true|by apply Z.pow2_bits_false].
Qed.

Lemma land_shiftl1_zero b d : 0 <= d -> (Z.land b (Z.shiftl 1 d) =? 0) = negb (Z.testbit b d).
Proof.
  intros Hd. destruct (Z.testbit b d) eqn:E; simpl.
  - apply Z.eqb_neq. intros H0. apply (f_equal (fun z => Z.testbit z d)) in H0.
    rewrite Z.land_spec, shiftl1_testbit, E, Z.eqb_refl, Z.bits_0 in H0 by done. done.
  - apply Z.eqb_eq. apply Z.bits_inj'. intros i Hi.
    rewrite Z.land_spec, shiftl1_testbit, Z.bits_0 by done.
    destruct (Z.eqb_spec d i) as [->|]; by rewrite ?E, ?andb_false_r.
Qed.

Lemma wrap128_testbit z i : 0 <= i < 128 -> Z.testbit (wrap 128 z) i = Z.testbit z i.
Proof. intros. unfold wrap. apply Z.mod_pow2_bits_low. lia. Qed.

Lemma one_testbit d : 0 <= d -> Z.testbit 1 d = (d =? 0).
Proof.
  intros Hd. destruct (Z.eqb_spec d 0) as [->|]; [done|]. apply Z.bits_above_log2; simpl; lia.
Qed.

(** Membership of [x] after committing [c], for the bit that is [c] itself and
    for the others. *)
Lemma mem_commit_eq (x c : Z) h : x = c -> bool_decide (x ∈ c :: h) = true.
Proof. intros ->. apply bool_decide_eq_true. set_solver. Qed.

Lemma mem_commit_ne (x y c : Z) h :
  x <> c -> x = y -> bool_decide (x ∈ c :: h) = bool_decide (y ∈ h).
Proof. intros Hx <-. apply bool_decide_ext. rewrite elem_of_cons. tauto. Qed.

Lemma mem_above_max (x t : Z) (h : list Z) :
  (forall c, c ∈ h -> c <= t) -> t < x -> bool_decide (x ∈ h) = false.
Proof. intros Hmax Hx. apply bool_decide_eq_false. intros H%Hmax. lia. Qed.

Lemma max_commit (c t t' : Z) (h : list Z) :
  (forall x, x ∈ h -> x <= t) -> t <= t' -> c <= t' -> forall x, x ∈ c :: h -> x <= t'.
Proof. intros Hmax ?? x [->|Hx%Hmax]%elem_of_cons; lia. Qed.

(** A counter ahead of the top shifts the window. *)
Lemma commit_ahead b t c (h : list Z) d :
  t < c -> (forall x, x ∈ h -> x <= t) ->
  (forall d, 0 <= d < 128 -> Z.testbit b d = bool_decide (t - d ∈ h)) ->
  0 <= d < 128 ->
  Z.testbit (Z.lor (if Z.min (c - t) 128 >=? 128 then 0
                    else wrap 128 (Z.shiftl b (Z.min (c - t) 128))) 1) d
  = bool_decide (c - d ∈ c :: h).
Proof.
  intros Hlt Hmax Hbits Hd. rewrite Z.lor_spec, one_testbit by lia.
  destruct (Z.eqb_spec d 0) as [->|Hd0].
  { rewrite orb_true_r. symmetry. apply mem_commit_eq. lia. }
  rewrite orb_false_r, Z.geb_leb, (mem_commit_ne _ (c - d)) by lia.
  destruct (Z.leb_spec 128 (Z.min (c - t) 128)) as [Hbig|Hsm].
  { rewrite Z.bits_0. symmetry. apply (mem_above_max _ t); [done|lia]. }
  rewrite wrap128_testbit, Z.shiftl_spec, Z.min_l by lia.
  destruct (Z.le_gt_cases (c - t) d) as [Hle|Hgt].
  - rewrite Hbits by lia. by replace (t - (d - (c - t))) with (c - d) by lia.
  - rewrite Z.testbit_neg_r by lia. symmetry. apply (mem_above_max _ t); [done|lia].
Qed.

(** A counter at or behind the top sets its own bit. *)
Lemma commit_behind b t c (h : list Z) d :
  c <= t -> (forall d, 0 <= d < 128 -> Z.testbit b d = bool_decide (t - d ∈ h)) ->
  0 <= d < 128 ->
  Z.testbit (Z.lor b (Z.shiftl 1 (t - c))) d = bool_decide (t - d ∈ c :: h).
Proof.
  intros Hle Hbits Hd. rewrite Z.lor_spec, shiftl1_testbit, Hbits by lia.
  destruct (Z.eqb_spec (t - c) d) as [Hd'|Hd'].
  - rewrite orb_true_r. symmetry. apply mem_commit_eq. lia.
  - rewrite orb_false_r. symmetry. apply mem_commit_ne; lia.
Qed.

Lemma commit_repr w h c : repr w h -> repr (window_commit w c) (c :: h).
Proof.
  unfold repr, window_commit, DATA_REPLAY_WINDOW_BITS. destruct (top w) as [t|] eqn:Et.
  - intros (Hin & Hmax & Hbits). rewrite (Z.gtb_ltb c t).
    destruct (Z.ltb_spec t c) as [Hlt|Hge]; cbn [top bits].
    { split_and!; [set_solver|by apply (max_commit _ t); [|lia..]|].
      intros d Hd. by apply commit_ahead. }
    assert (Hmax' := max_commit c t t h Hmax (Z.le_refl t) Hge).
    destruct (Z.ltb_spec (t - c) 128) as [Hw|Hw]; cbn [top bits]; [|rewrite Et];
      (split_and!; [set_solver|done|intros d Hd]).
    + by apply commit_behind.
    + rewrite Hbits by lia. symmetry. apply mem_commit_ne; lia.
  - intros ->. cbn [top bits]. split_and!; [set_solver| |].
    { intros x ->%list_elem_of_singleton. lia. }
    intros d Hd. rewrite one_testbit by lia. destruct (Z.eqb_spec d 0) as [->|Hd0].
    + symmetry. apply mem_commit_eq. lia.
    + symmetry. rewrite (mem_commit_ne _ (c - d)) by lia. by apply bool_decide_eq_false, not_elem_of_nil.
Qed.

(** Whatever the window holds, a counter just committed is refused. *)
Lemma commit_rejects w c : window_allows (window_commit w c) c = false.
Proof.
  unfold window_commit, window_allows, DATA_REPLAY_WINDOW_BITS.
  destruct (top w) as [t|] eqn:Et; [|cbn [top bits]; by rewrite Z.gtb_ltb, Z.ltb_irrefl, Z.sub_diag].
  rewrite (Z.gtb_ltb c t). destruct (Z.ltb_spec t c) as [Hlt|Hge]; cbn [top bits].
  { rewrite Z.gtb_ltb, Z.ltb_irrefl, Z.sub_diag. simpl (_ >=? _). cbv iota.
    rewrite land_shiftl1_zero, Z.lor_spec, orb_true_r by lia. done. }
  destruct (Z.ltb_spec (t - c) 128) as [Hd|Hd]; cbn [top bits]; rewrite ?Et;
    rewrite Z.gtb_ltb, (proj2 (Z.ltb_ge _ _)) by lia; rewrite Z.geb_leb.
  - rewrite (proj2 (Z.leb_gt _ _)) by lia.
    rewrite land_shiftl1_zero, Z.lor_spec, shiftl1_testbit, Z.eqb_refl, orb_true_r by lia. done.
  - by rewrite (proj2 (Z.leb_le _ _)) by lia.
Qed.

(** A receiver that has committed the counters of [h], newest first. *)
Definition commit_all (h : list Z) : DataReplayWindow :=
  foldr (fun c w => window_commit w c) new_window h.

Lemma commit_all_repr h : repr (commit_all h) h.
Proof. induction h as [|c h IH]; [done|]. simpl. by apply commit_repr. Qed.

Lemma repr_allows w h c :
  repr w h -> (window_allows w c = true) <-> ((c ∉ h) /\ forall m, m ∈ h -> m - c < 128).
Proof.
  unfold repr, window_allows. destruct (top w) as [t|].
  - intros (Hin & Hmax & Hbits). rewrite Z.gtb_ltb, Z.geb_leb.
    destruct (Z.ltb_spec t c) as [Hlt|Hge].
    + split; [|done]. intros _. split; [intros Hc%Hmax; lia|]. intros m Hm%Hmax. lia.
    + unfold DATA_REPLAY_WINDOW_BITS. destruct (Z.leb_spec 128 (t - c)) as [Hold|Hnew].
      * split; [done|]. intros [_ Hm]. specialize (Hm _ Hin). lia.
      * rewrite land_shiftl1_zero, negb_true_iff, Hbits, bool_decide_eq_false by lia.
        replace (t - (t - c)) with c by lia. split; [|tauto].
        intros Hc. split; [done|]. intros m Hm%Hmax. lia.
  - intros ->. split; [|done]. intros _. split; set_solver.
Qed.

(** Refinement of the replay filter: after any history of commits, the
    128-bit sliding window accepts a counter if and only if it was never
    committed and it is less than 128 behind every committed counter.  In
    particular no counter is ever accepted twice, and no fresh counter inside
    the window is refused. *)
Theorem replay_window_exact (h : list Z) (c : Z) :
  (window_allows (commit_all h) c = true) <-> ((c ∉ h) /\ forall m, m ∈ h -> m - c < 128).
Proof. apply repr_allows, commit_all_repr. Qed.

(** ** Control-plane replay table *)

Record CtrlReplayTable := mkCtrl {
  sources : gmap Z (DataReplayWindow * Instant);
  max_sources : Z
}.

Definition new_ctrl_replay : CtrlReplayTable := mkCtrl ∅ CTRL_REPLAY_MAX_SOURCES.

Definition ctrl_clear (t : CtrlReplayTable) : CtrlReplayTable := mkCtrl ∅ (max_sources t).

Definition ctrl_allows (t : CtrlReplayTable) (src_key counter : Z) : bool :=
  match sources t !! src_key with
  | Some (window, _) => window_allows window counter
  | None => true
  end.

Section ctrl_table.
Context `{HashIter}.

Definition oldest_source (m : gmap Z (DataReplayWindow * Instant)) : option Z :=
  fst <$> min_by_key (fun kv => snd (snd kv)) (hm_iter m).

(** [while self.sources.len() >= self.max_sources { ... }]; every iteration
    removes a source, so [size] iterations are enough. *)
Fixpoint evict_oldest_until_room (fuel : nat) (m : gmap Z (DataReplayWindow * Instant))
    (max : Z) : gmap Z (DataReplayWindow * Instant) :=
  match fuel with
  | O => m
  | S fuel =>
      if Z.of_nat (size m) >=? max then
        match oldest_source m with
        | None => m
        | Some key => evict_oldest_until_room fuel (delete key m) max
        end
      else m
  end.

Definition ctrl_commit (t : CtrlReplayTable) (src_key counter : Z) (now : Instant) : CtrlReplayTable :=
  match sources t !! src_key with
  | Some (window, _) =>
      mkCtrl (<[src_key := (window_commit window counter, now)]> (sources t)) (max_sources t)
  | None =>
      let m :=
        if Z.of_nat (size (sources t)) >=? max_sources t
        then evict_oldest_until_room (size (sources t)) (sources t) (max_sources t)
        else sources t in
      if Z.of_nat (size m) >=? max_sources t then mkCtrl m (max_sources t)
      else mkCtrl (<[src_key := (window_commit new_window counter, now)]> m) (max_sources t)
  end.
End ctrl_table.

Section ctrl_table_lemmas.
Context `{HashIter}.

Lemma oldest_source_spec m :
  match oldest_source m with
  | None => m = ∅
  | Some k => exists w t, m !! k = Some (w, t) /\ forall k' w' t', m !! k' = Some (w', t') -> t <= t'
  end.
Proof.
  unfold oldest_source. pose proof (min_by_key_spec (fun kv => snd (snd kv)) (hm_iter m)) as Hs.
  destruct (min_by_key _ _) as [[k [w t]]|]; simpl.
  - destruct Hs as [Hin Hmin]. apply hm_iter_elem in Hin. exists w, t. split; [done|].
    intros k' w' t' Hk. apply (Hmin (k', (w', t'))). by apply hm_iter_elem.
  - apply map_empty. intros k. destruct (m !! k) eqn:E; [|done].
    apply hm_iter_elem in E. rewrite Hs in E. by apply elem_of_nil in E.
Qed.

Lemma oldest_source_size m k : oldest_source m = Some k -> S (size (delete k m)) = size m.
Proof.
  intros E. pose proof (oldest_source_spec m) as Hs. rewrite E in Hs.
  destruct Hs as (w & t & Hk & _). rewrite map_size_delete_Some by eauto.
  assert (size m <> 0%nat) by (intros ->%map_size_empty_inv; by rewrite lookup_empty in Hk). lia.
Qed.

Lemma evict_room fuel m max :
  0 < max -> (size m <= fuel)%nat -> Z.of_nat (size (evict_oldest_until_room fuel m max)) < max.
Proof.
  intros Hmax. revert m. induction fuel as [|fuel IH]; intros m Hf; simpl; [lia|].
  rewrite Z.geb_leb. destruct (Z.leb_spec max (Z.of_nat (size m))) as [Hfull|]; [|lia].
  destruct (oldest_source m) as [k|] eqn:E.
  - apply IH. pose proof (oldest_source_size _ _ E). lia.
  - pose proof (oldest_source_spec m) as Hs. rewrite E in Hs. subst m.
    rewrite map_size_empty in Hfull. lia.
Qed.

(** Eviction only removes sources, and only ones that are least recently seen:
    a source that goes was last seen no later than every source that stays. *)
Lemma evict_oldest fuel m max :
  evict_oldest_until_room fuel m max ⊆ m /\
  forall k w t k' w' t',
    m !! k = Some (w, t) -> evict_oldest_until_room fuel m max !! k = None ->
    evict_oldest_until_room fuel m max !! k' = Some (w', t') -> t <= t'.
Proof.
  revert m. induction fuel as [|fuel IH]; intros m; simpl; [split; [done|intros; congruence]|].
  destruct (_ >=? _); [|split; [done|intros; congruence]].
  pose proof (oldest_source_spec m) as Hs.
  destruct (oldest_source m) as [k0|]; [|split; [done|intros; congruence]].
  destruct (IH (delete k0 m)) as [Hsub Hold]. destruct Hs as (w0 & t0 & Hk0 & Hmin).
  assert (Hsub' : evict_oldest_until_room fuel (delete k0 m) max ⊆ m)
    by (etrans; [done|apply delete_subseteq]).
  split; [done|]. intros k w t k' w' t' Hk Hgone Hk'.
  destruct (decide (k = k0)) as [->|Hne].
  - simplify_eq. eapply Hmin. by eapply lookup_weaken.
  - eapply Hold; [|done..]. by rewrite lookup_delete_ne by done.
Qed.

Lemma ctrl_commit_max t k c now : max_sources (ctrl_commit t k c now) = max_sources t.
Proof. unfold ctrl_commit. by repeat case_match. Qed.

(** A commit of a new source, once room has been made. *)
Lemma ctrl_commit_new t k c now :
  0 < max_sources t -> sources t !! k = None ->
  exists m, Z.of_nat (size m) < max_sources t /\
    sources (ctrl_commit t k c now) = <[k := (window_commit new_window c, now)]> m /\
    (m = sources t \/
     m = evict_oldest_until_room (size (sources t)) (sources t) (max_sources t)).
Proof.
  intros Hm E. unfold ctrl_commit. rewrite E.
  pose proof (evict_room (size (sources t)) (sources t) (max_sources t) Hm (Nat.le_refl _)) as Hev.
  destruct (Z.of_nat (size (sources t)) >=? max_sources t) eqn:Eg; [|rewrite Eg].
  - rewrite Z.geb_leb, (proj2 (Z.leb_gt _ _) Hev). eauto.
  - rewrite Z.geb_leb in Eg. apply Z.leb_gt in Eg. eauto.
Qed.

Lemma ctrl_commit_size t k c now :
  0 < max_sources t -> Z.of_nat (size (sources t)) <= max_sources t ->
  Z.of_nat (size (sources (ctrl_commit t k c now))) <= max_sources t.
Proof.
  intros Hm Hsz. destruct (sources t !! k) as [[w l]|] eqn:E.
  - unfold ctrl_commit. rewrite E. cbn [sources]. by rewrite map_size_insert_Some by eauto.
  - destruct (ctrl_commit_new t k c now Hm E) as (m & Hs & -> & _).
    rewrite map_size_insert. destruct (m !! k); simpl; lia.
Qed.

Lemma ctrl_commit_lookup t k c now :
  0 < max_sources t ->
  sources (ctrl_commit t k c now) !! k =
    Some (window_commit (default new_window (fst <$> sources t !! k)) c, now).
Proof.
  intros Hm. destruct (sources t !! k) as [[w l]|] eqn:E.
  - unfold ctrl_commit. rewrite E. cbn [sources]. by rewrite lookup_insert_eq.
  - destruct (ctrl_commit_new t k c now Hm E) as (m & _ & -> & _). by rewrite lookup_insert_eq.
Qed.

Lemma ctrl_commit_others t k c now k' :
  0 < max_sources t -> k' <> k ->
  sources (ctrl_commit t k c now) !! k' = None \/
  sources (ctrl_commit t k c now) !! k' = sources t !! k'.
Proof.
  intros Hm Hk. destruct (sources t !! k) as [[w l]|] eqn:E.
  { unfold ctrl_commit. rewrite E. cbn [sources]. rewrite lookup_insert_ne by done. by right. }
  destruct (ctrl_commit_new t k c now Hm E) as (m & _ & -> & Hcase).
  rewrite lookup_insert_ne by done. destruct Hcase as [->| ->]; [by right|].
  destruct (evict_oldest (size (sources t)) (sources t) (max_sources t)) as [Hsub _].
  destruct (evict_oldest_until_room _ _ _ !! k') eqn:Ek; [right|by left].
  symmetry. by eapply lookup_weaken.
Qed.

Lemma ctrl_commit_evicts t k c now k1 w1 l1 k2 w2 l2 :
  0 < max_sources t -> k2 <> k -> sources t !! k1 = Some (w1, l1) ->
  sources (ctrl_commit t k c now) !! k1 = None ->
  sources (ctrl_commit t k c now) !! k2 = Some (w2, l2) -> l1 <= l2.
Proof.
  intros Hm Hk2 H1. destruct (sources t !! k) as [[w l]|] eqn:E.
  { unfold ctrl_commit. rewrite E. cbn [sources]. intros [? _]%lookup_insert_None. congruence. }
  destruct (ctrl_commit_new t k c now Hm E) as (m & _ & -> & Hcase).
  intros [Hg _]%lookup_insert_None Hs. rewrite lookup_insert_ne in Hs by done.
  destruct Hcase as [->| ->]; [congruence|].
  destruct (evict_oldest (size (sources t)) (sources t) (max_sources t)) as [_ Hold]. eauto.
Qed.

(** Control replay table, insertion: committing a counter records it for
    its source and keeps the table within [max_sources]; the sources that had
    to leave are exactly least-recently-seen ones, and no source's window is
    changed other than the committed one. *)
Theorem ctrl_commit_spec (t : CtrlReplayTable) (k c : Z) (now : Instant) :
  0 < max_sources t -> Z.of_nat (size (sources t)) <= max_sources t ->
  let t' := ctrl_commit t k c now in
  Z.of_nat (size (sources t')) <= max_sources t' /\
  ctrl_allows t' k c = false /\
  (forall k', k' <> k -> sources t' !! k' = None \/ sources t' !! k' = sources t !! k') /\
  (forall k1 w1 l1 k2 w2 l2, k2 <> k ->
     sources t !! k1 = Some (w1, l1) -> sources t' !! k1 = None ->
     sources t' !! k2 = Some (w2, l2) -> l1 <= l2).
Proof.
  intros Hm Hsz t'. split_and!.
  - unfold t'. rewrite ctrl_commit_max. by apply ctrl_commit_size.
  - unfold t', ctrl_allows. rewrite ctrl_commit_lookup by done. apply commit_rejects.
  - intros k' Hk'. unfold t'. by apply ctrl_commit_others.
  - intros k1 w1 l1 k2 w2 l2 Hk2 H1 H1' H2. eapply ctrl_commit_evicts; eauto.
Qed.
End ctrl_table_lemmas.

Lemma ctrl_commit_spec_witness :
  let t := mkCtrl {[1 := (new_window, 5); 2 := (new_window, 7)]} 2 in
  ctrl_allows (@ctrl_commit canonical_iter t 3 9 8) 3 9 = false.
Proof. intros t. apply (@ctrl_commit_spec canonical_iter t 3 9 8); vm_compute; congruence. Defined.

(** ** AEAD framing

    [aead_encrypt key nonce aad plaintext] is [Aegis128L::encrypt_in_place]: the
    ciphertext and the tag.  [aead_decrypt] is [decrypt_in_place], [None] being
    its error. *)

Class Aead := {
  aead_encrypt : bytes -> bytes -> bytes -> bytes -> bytes * bytes;
  aead_decrypt : bytes -> bytes -> bytes -> bytes -> bytes -> option bytes;
}.

(** What AEGIS-128L documents: decryption inverts encryption, accepts nothing
    but what encryption produces under the same key, nonce and associated data,
    keeps the length, and tags are 16 bytes. *)
Class AeadLaws `{Aead} : Prop := {
  aead_correct : forall k n a p, aead_decrypt k n a (aead_encrypt k n a p).1 (aead_encrypt k n a p).2 = Some p;
  aead_sound : forall k n a c t p, aead_decrypt k n a c t = Some p -> aead_encrypt k n a p = (c, t);
  aead_len : forall k n a p, length (aead_encrypt k n a p).1 = length p;
  aead_tag_len : forall k n a p, length (aead_encrypt k n a p).2 = DATA_TAG_LEN;
}.

(** [DataPlaneAead] and [ControlPlaneAead] have the same two fields. *)
Record DataPlaneAead := mkDataAead { da_key : bytes; da_salt : bytes }.
Record ControlPlaneAead := mkCtrlAead { ca_key : bytes; ca_salt : bytes }.

Section framing.
Context `{Aead}.

Definition encrypt_framed_packet_into (d : DataPlaneAead) (counter : Z) (aad plaintext : bytes)
    : result bytes string :=
  match encode_wire_counter counter with
  | Err e => Err e
  | Ok counter_wire =>
      let nonce := nonce_from_counter (da_salt d) counter_wire in
      let (ct, tag) := aead_encrypt (da_key d) nonce aad plaintext in
      Ok ([to_byte Encrypted] ++ counter_wire ++ ct ++ tag)
  end.

Definition decrypt_framed_payload_into (d : DataPlaneAead) (counter_wire aad payload : bytes)
    : result bytes string :=
  if (length payload <? DATA_TAG_LEN)%nat then Err "packet too short"
  else
    let nonce := nonce_from_counter (da_salt d) counter_wire in
    let tag_start := (length payload - DATA_TAG_LEN)%nat in
    match aead_decrypt (da_key d) nonce aad (take tag_start payload) (drop tag_start payload) with
    | None => Err "decrypt failure"
    | Some p => Ok p
    end.

Definition seal_into (d : ControlPlaneAead) (counter : Z) (plaintext : bytes) : result bytes string :=
  match encode_wire_counter counter with
  | Err e => Err e
  | Ok counter_wire =>
      let nonce := nonce_from_counter (ca_salt d) counter_wire in
      let (ct, tag) := aead_encrypt (ca_key d) nonce CTRL_AAD plaintext in
      Ok (counter_wire ++ ct ++ tag)
  end.

Definition open_into (d : ControlPlaneAead) (counter_wire payload : bytes) : result bytes string :=
  if (length payload <? DATA_TAG_LEN)%nat then Err "packet too short"
  else
    let nonce := nonce_from_counter (ca_salt d) counter_wire in
    let tag_start := (length payload - DATA_TAG_LEN)%nat in
    match aead_decrypt (ca_key d) nonce CTRL_AAD (take tag_start payload) (drop tag_start payload) with
    | None => Err "decrypt failure"
    | Some p => Ok p
    end.

Context `{!AeadLaws}.

Lemma decrypt_split k n a p ct tag :
  aead_encrypt k n a p = (ct, tag) ->
  (length (ct ++ tag) <? DATA_TAG_LEN)%nat = false /\
  aead_decrypt k n a (take (length (ct ++ tag) - DATA_TAG_LEN) (ct ++ tag))
                     (drop (length (ct ++ tag) - DATA_TAG_LEN) (ct ++ tag)) = Some p.
Proof.
  intros E. pose proof (aead_tag_len k n a p) as Ht. pose proof (aead_correct k n a p) as Hc.
  rewrite E in Ht, Hc. cbn [fst snd] in *. rewrite length_app, Ht. split; [apply Nat.ltb_ge; lia|].
  by rewrite Nat.add_sub, take_app_length, drop_app_length.
Qed.

Lemma decrypt_split_inv k n a payload p :
  (length payload <? DATA_TAG_LEN)%nat = false ->
  aead_decrypt k n a (take (length payload - DATA_TAG_LEN) payload)
                     (drop (length payload - DATA_TAG_LEN) payload) = Some p ->
  payload = (aead_encrypt k n a p).1 ++ (aead_encrypt k n a p).2.
Proof. intros _ E%aead_sound. rewrite E. cbn [fst snd]. by rewrite take_drop. Qed.

(** The shape of every frame a sender can emit. *)
Lemma encrypt_framed_Ok d counter aad plaintext frame :
  0 <= counter -> encrypt_framed_packet_into d counter aad plaintext = Ok frame ->
  counter <= DATA_REPLAY_MAX_COUNTER /\
  len frame = 1 + 6 + len plaintext + 16 /\
  exists wire body, frame = to_byte Encrypted :: wire ++ body /\
    length wire = WIRE_COUNTER_LEN /\ decode_wire_counter wire = counter /\
    decrypt_framed_payload_into d wire aad body = Ok plaintext.
Proof.
  intros Hc. unfold encrypt_framed_packet_into.
  destruct (encode_wire_counter counter) as [w|e] eqn:Ew; [|done].
  pose proof (decode_encode_wire_counter _ _ Hc Ew) as Hdec.
  apply encode_wire_counter_Ok in Ew as [Hm ->].
  set (nonce := nonce_from_counter _ _) in *.
  pose proof (aead_len (da_key d) nonce aad plaintext) as Hl.
  pose proof (aead_tag_len (da_key d) nonce aad plaintext) as Ht.
  destruct (aead_encrypt _ _ _ _) as [ct tag] eqn:E. cbn [fst snd] in Hl, Ht.
  destruct (decrypt_split _ _ _ _ _ _ E) as [Hlen Hd]. intros [= <-].
  split_and!; [done| |].
  - rewrite len_cons. change (_ :: _ :: _ :: _ :: _ :: _ :: ct ++ tag) with (le_bytes 6 counter ++ ct ++ tag).
    rewrite !len_app. unfold len. rewrite length_le_bytes, Hl, Ht. unfold DATA_TAG_LEN. lia.
  - exists (le_bytes 6 counter), (ct ++ tag). split_and!; [done..|].
    unfold decrypt_framed_payload_into. fold nonce. by rewrite Hlen, Hd.
Qed.

Lemma data_frame_ok d counter aad plaintext :
  0 <= counter <= DATA_REPLAY_MAX_COUNTER ->
  exists body, encrypt_framed_packet_into d counter aad plaintext = Ok (to_byte Encrypted :: body).
Proof.
  intros Hc. unfold encrypt_framed_packet_into, encode_wire_counter.
  rewrite Z.gtb_ltb, (proj2 (Z.ltb_ge _ _)) by lia. destruct (aead_encrypt _ _ _ _). by eexists.
Qed.

(** Data-plane framing round trip: for every counter the 48-bit wire field
    can hold, encryption succeeds with a frame of [1 + 6 + |plaintext| + 16]
    bytes whose kind byte is [Encrypted]; its counter field decodes to the
    counter, and decrypting its body under the same key, salt and associated
    data gives the plaintext back.  Any other counter is refused. *)
Theorem data_frame_roundtrip (d : DataPlaneAead) (counter : Z) (aad plaintext : bytes) :
  0 <= counter ->
  match encrypt_framed_packet_into d counter aad plaintext with
  | Ok frame =>
      counter <= DATA_REPLAY_MAX_COUNTER /\
      len frame = 1 + 6 + len plaintext + 16 /\
      exists wire body, frame = to_byte Encrypted :: wire ++ body /\
        length wire = WIRE_COUNTER_LEN /\
        decode_wire_counter wire = counter /\
        decrypt_framed_payload_into d wire aad body = Ok plaintext
  | Err e => DATA_REPLAY_MAX_COUNTER < counter /\ e = "counter exhausted"%string
  end.
Proof.
  intros Hc. destruct (encrypt_framed_packet_into d counter aad plaintext) as [f|e] eqn:E.
  - by apply encrypt_framed_Ok.
  - unfold encrypt_framed_packet_into, encode_wire_counter in E. rewrite Z.gtb_ltb in E.
    destruct (Z.ltb_spec DATA_REPLAY_MAX_COUNTER counter); [by simplify_eq|].
    by destruct (aead_encrypt _ _ _ _).
Qed.
End framing.

(** ** Key derivation

    [hkdf salt ikm info n] is HKDF-SHA256 extract-and-expand to [n] bytes, [None]
    for an invalid output length. *)

Class Kdf := {
  hkdf : option bytes -> bytes -> bytes -> nat -> option bytes;
  blake2b512 : bytes -> bytes;
  sha256 : bytes -> bytes;
  hex_encode : bytes -> string;
}.

(** The documented output lengths; the crate's expand fails only above
    [255 * 32] bytes. *)
Class KdfLaws `{Kdf} : Prop := {
  hkdf_len : forall s k i n, (n <= 255 * 32)%nat ->
    exists okm, hkdf s k i n = Some okm /\ length okm = n /\ Forall byte_ok okm;
  sha256_len : forall l, length (sha256 l) = 32%nat;
}.

Definition data_info (sender_vip receiver_vip : Z) : bytes :=
  HKDF_DOMAIN_INFO ++ be_bytes 4 sender_vip ++ be_bytes 4 receiver_vip.

Section derivation.
Context `{Kdf}.

Definition derive_data_plane_material (network_key : bytes) (sender_vip receiver_vip : Z)
    : result DataPlaneAead string :=
  match hkdf (Some HKDF_DOMAIN_SALT) network_key (data_info sender_vip receiver_vip)
          (AEAD_KEY_LEN + DATA_SALT_LEN) with
  | None => Err "hkdf expand failure"
  | Some okm => Ok (mkDataAead (take AEAD_KEY_LEN okm) (drop AEAD_KEY_LEN okm))
  end.

Definition derive_control_plane_material (network_key : bytes) : result ControlPlaneAead string :=
  match hkdf (Some HKDF_DOMAIN_SALT) network_key HKDF_DOMAIN_INFO_CTRL
          (AEAD_KEY_LEN + DATA_SALT_LEN) with
  | None => Err "hkdf expand failure"
  | Some okm => Ok (mkCtrlAead (take AEAD_KEY_LEN okm) (drop AEAD_KEY_LEN okm))
  end.

Definition derive_network_id (key : bytes) : string := hex_encode (take 5 (blake2b512 key)).

(** The error of [expand] is ignored there: the output stays zeroed. *)
Definition derive_floatunit_subnet24 (key : bytes) : Z * Z * Z :=
  match hkdf None key FLOATUNIT_SUBNET_INFO 2 with
  | Some [h1; h2] => (10, h1, h2)
  | _ => (10, 0, 0)
  end.

Definition floatunit_subnet_base_vip (key : bytes) : string :=
  match derive_floatunit_subnet24 key with
  | (a, b, c) => bytes_str (fmt_octets a b c 1)
  end.

Definition room_id_20b (key : bytes) (protocol : Z) : bytes := take 20 (sha256 (key ++ [protocol])).
Definition room_id_20b_from_raw_key (key : bytes) (protocol : Z) : bytes := room_id_20b key protocol.
Definition room_id_hex (key : bytes) (protocol : Z) : string := hex_encode (room_id_20b key protocol).

Context `{!KdfLaws}.

Lemma derive_data_ok key s r :
  exists d, derive_data_plane_material key s r = Ok d /\
    length (da_key d) = AEAD_KEY_LEN /\ length (da_salt d) = DATA_SALT_LEN.
Proof.
  unfold derive_data_plane_material.
  destruct (hkdf_len (Some HKDF_DOMAIN_SALT) key (data_info s r) (AEAD_KEY_LEN + DATA_SALT_LEN))
    as (okm & -> & Hl & _); [unfold AEAD_KEY_LEN, DATA_SALT_LEN; lia|].
  eexists; split; [done|]. cbn [da_key da_salt]. unfold AEAD_KEY_LEN, DATA_SALT_LEN in *.
  rewrite length_take, length_drop. lia.
Qed.

Lemma derive_ctrl_ok key :
  exists d, derive_control_plane_material key = Ok d /\
    length (ca_key d) = AEAD_KEY_LEN /\ length (ca_salt d) = DATA_SALT_LEN.
Proof.
  unfold derive_control_plane_material.
  destruct (hkdf_len (Some HKDF_DOMAIN_SALT) key HKDF_DOMAIN_INFO_CTRL (AEAD_KEY_LEN + DATA_SALT_LEN))
    as (okm & -> & Hl & _); [unfold AEAD_KEY_LEN, DATA_SALT_LEN; lia|].
  eexists; split; [done|]. cbn [ca_key ca_salt]. unfold AEAD_KEY_LEN, DATA_SALT_LEN in *.
  rewrite length_take, length_drop. lia.
Qed.

Lemma floatunit_subnet_octets key a b c :
  derive_floatunit_subnet24 key = (a, b, c) -> a = 10 /\ byte_ok b /\ byte_ok c.
Proof.
  unfold derive_floatunit_subnet24.
  destruct (hkdf_len None key FLOATUNIT_SUBNET_INFO 2) as (okm & -> & Hl & Hok); [lia|].
  destruct okm as [|h1 [|h2 [|]]]; try done. rewrite !Forall_cons in Hok.
  intros [= <- <- <-]. tauto.
Qed.
End derivation.

(** The base VIP of a network is always a well-formed dotted address, the
    host [.1] of a [/24] inside [10.0.0.0/8]. *)
Theorem floatunit_base_vip_wf `{KdfLaws} (key : bytes) :
  exists h1 h2, byte_ok h1 /\ byte_ok h2 /\
    parse_ipv4 (str_bytes (floatunit_subnet_base_vip key)) = Some (be_val [10; h1; h2; 1]).
Proof.
  unfold floatunit_subnet_base_vip. destruct (derive_floatunit_subnet24 key) as [[a b] c] eqn:E.
  apply floatunit_subnet_octets in E as (-> & Hb & Hc). exists b, c. split_and!; [done..|].
  rewrite str_bytes_str by (unfold byte_ok in *; apply fmt_octets_bytes_ok; lia).
  apply fmt_octets_parse; [|done|done|]; unfold byte_ok; lia.
Qed.

(** Concrete functions with the documented laws, for the witnesses only: they
    show the laws can hold together and are no cryptography. *)
Module Toy.
#[local] Instance toy_kdf : Kdf := {|
  hkdf := fun _ k i n => if (n <=? 255 * 32)%nat then Some (le_bytes n (le_val (k ++ i))) else None;
  blake2b512 := fun l => le_bytes 64 (le_val l);
  sha256 := fun l => le_bytes 32 (le_val l);
  hex_encode := bytes_str |}.

#[local] Instance toy_kdf_laws : KdfLaws.
Proof.
  split; [|intros; apply length_le_bytes]. intros s k i n Hn. unfold hkdf, toy_kdf.
  rewrite (proj2 (Nat.leb_le _ _) Hn). eexists. split; [done|]. auto with mint.
Qed.

Definition toy_tag (k n a p : bytes) : bytes := le_bytes 16 (le_val (k ++ n ++ a ++ p)).

#[local] Instance toy_aead : Aead := {|
  aead_encrypt := fun k n a p => (p, toy_tag k n a p);
  aead_decrypt := fun k n a c t => if decide (t = toy_tag k n a c) then Some c else None |}.

#[local] Instance toy_aead_laws : AeadLaws.
Proof.
  split; intros; simpl in *; auto with mint.
  - by rewrite decide_True.
  - by case_decide; simplify_eq.
Qed.
End Toy.

Lemma floatunit_base_vip_wf_witness :
  exists h1 h2, byte_ok h1 /\ byte_ok h2 /\
    parse_ipv4 (str_bytes (@floatunit_subnet_base_vip Toy.toy_kdf [7; 9]))
    = Some (be_val [10; h1; h2; 1]).
Proof. exact (@floatunit_base_vip_wf Toy.toy_kdf Toy.toy_kdf_laws [7; 9]). Defined.

Lemma data_frame_roundtrip_witness :
  match @encrypt_framed_packet_into Toy.toy_aead (mkDataAead [1] [2]) 258 [3] [4; 5] with
  | Ok frame => len frame = 1 + 6 + len [4; 5] + 16
  | Err _ => DATA_REPLAY_MAX_COUNTER < 258
  end.
Proof.
  pose proof (@data_frame_roundtrip Toy.toy_aead Toy.toy_aead_laws (mkDataAead [1] [2]) 258 [3] [4; 5]
    ltac:(lia)) as H.
  destruct (encrypt_framed_packet_into _ _ _ _); apply H.
Defined.

(** ** Domain separation of the derived keys *)

Lemma be_bytes_inj n x y :
  0 <= x < 2 ^ (8 * Z.of_nat n) -> 0 <= y < 2 ^ (8 * Z.of_nat n) -> be_bytes n x = be_bytes n y -> x = y.
Proof.
  intros Hx Hy E. apply (f_equal be_val) in E. rewrite !be_val_be_bytes in E.
  by rewrite !Z.mod_small in E.
Qed.

(** Every direction of every pair of VIPs, and the control plane, has its own
    key-derivation context: the HKDF info strings of two data directions are
    equal only if sender and receiver are, and none equals the control one. *)
Theorem kdf_contexts_separate (s1 r1 s2 r2 : Z) :
  in_u 32 s1 -> in_u 32 r1 -> in_u 32 s2 -> in_u 32 r2 ->
  (data_info s1 r1 = data_info s2 r2 <-> s1 = s2 /\ r1 = r2) /\
  data_info s1 r1 <> HKDF_DOMAIN_INFO_CTRL.
Proof.
  intros. split; [split|].
  - intros E. apply app_inv_head, app_inj_1 in E as [E1 E2]; [|by rewrite !length_be_bytes].
    apply be_bytes_inj in E1, E2; done.
  - by intros [-> ->].
  - intros E. apply (f_equal length) in E. unfold data_info in E.
    rewrite !length_app, !length_be_bytes in E. done.
Qed.

Lemma kdf_contexts_separate_witness :
  data_info 167837953 167837954 = data_info 167837953 167837954.
Proof.
  apply (kdf_contexts_separate 167837953 167837954 167837953 167837954); (split; reflexivity || (vm_compute; congruence) || done).
Defined.

(** ** Invites *)

Definition PROTO_UDP : Z := 1.
Definition INVITE_VERSION : Z := 1.
Definition INVITE_WIRE_LEN : nat := 34.

Record InvitePayload := mkInvite { version : Z; protocol : Z; ikey : bytes }.

(** The [base64] crate's URL-safe alphabet without padding. *)
Class Base64 := { b64_encode : bytes -> string; b64_decode : string -> option bytes }.
Class Base64Laws `{Base64} : Prop := {
  b64_roundtrip : forall l, Forall byte_ok l -> b64_decode (b64_encode l) = Some l
}.

Section invite.
Context `{Base64}.

Definition encode_invite (payload : InvitePayload) : string :=
  b64_encode ([version payload] ++ [protocol payload] ++ ikey payload).

Definition decode_invite (invite : string) : result InvitePayload string :=
  match b64_decode invite with
  | None => Err "base64"
  | Some raw =>
      if negb (length raw =? INVITE_WIRE_LEN)%nat || negb (bool_decide (head raw = Some INVITE_VERSION))
      then Err "unsupported invite format"
      else match raw with
           | _ :: protocol :: key => Ok (mkInvite INVITE_VERSION protocol key)
           | _ => Err "unsupported invite format"
           end
  end.

(** Invite round trip: an invite of the current version with a 32-byte key
    decodes to itself, one of any other version is refused, and nothing that
    decodes has another version or key length. *)
Theorem invite_roundtrip `{!Base64Laws} (p : InvitePayload) :
  byte_ok (version p) -> byte_ok (protocol p) -> Forall byte_ok (ikey p) -> length (ikey p) = KEY_LEN ->
  decode_invite (encode_invite p) =
    (if version p =? INVITE_VERSION then Ok p else Err "unsupported invite format"%string) /\
  forall s q, decode_invite s = Ok q -> version q = INVITE_VERSION /\ length (ikey q) = KEY_LEN.
Proof.
  destruct p as [v pr k]. cbn [version protocol ikey]. intros Hv Hp Hk Hl. split.
  - unfold decode_invite, encode_invite. cbn [version protocol ikey].
    rewrite b64_roundtrip by (by rewrite !Forall_app, !Forall_singleton).
    cbn [app length head]. rewrite Hl.
    destruct (Z.eqb_spec v INVITE_VERSION) as [->|Hne].
    + by rewrite bool_decide_true.
    + rewrite bool_decide_false by congruence. done.
  - intros s q. unfold decode_invite. destruct (b64_decode s) as [raw|]; [|done].
    destruct (Nat.eqb_spec (length raw) INVITE_WIRE_LEN) as [Hraw|]; [|done]. simpl negb.
    destruct (bool_decide _); [|done]. simpl.
    destruct raw as [|a [|b raw]]; [done..|]. intros [= <-]. split; [done|].
    cbn [ikey]. unfold INVITE_WIRE_LEN, KEY_LEN in *. simpl in Hraw. lia.
Qed.
End invite.

Module ToyBase64.
#[local] Instance toy_base64 : Base64 :=
  {| b64_encode := bytes_str; b64_decode := fun s => Some (str_bytes s) |}.
#[local] Instance toy_base64_laws : Base64Laws.
Proof. split. intros l Hl. simpl. by rewrite str_bytes_str. Qed.
End ToyBase64.

Lemma invite_roundtrip_witness :
  let p := mkInvite 1 PROTO_UDP (replicate 32 7) in
  @decode_invite ToyBase64.toy_base64 (@encode_invite ToyBase64.toy_base64 p) = Ok p.
Proof.
  intros p.
  refine (proj1 (@invite_roundtrip ToyBase64.toy_base64 ToyBase64.toy_base64_laws p _ _ _ _));
    [done|done|apply Forall_replicate; done|done].
Defined.
