(* ===== verification/SizeLoss.v ===== *)
(** * Size-bucketed receive rates and wire loss ([src/src/net/size_loss.rs])

    Per VIP, four packet-size buckets with an exponentially weighted packet rate,
    and decaying counters of lost and received frames that feed adaptive FEC. *)

From S2P Require Import Prelude Float.

Definition BUCKET_COUNT : nat := 4.
Definition EWMA_ALPHA : f64 := f64_lit 2 10.
Definition WARM_COMMITS : Z := 64.
Definition WARM_MIN_COMMITS : Z := 8.
Definition WARM_AGE : Duration := from_secs 3.
Definition LARGE_ALIVE_RATE : f64 := f64_of_Z 2.
Definition LARGE_COLLAPSED_LARGE_MAX : f64 := f64_lit 5 10.
Definition LARGE_COLLAPSED_SMALL_MIN : f64 := f64_of_Z 2.
Definition LARGE_ALIVE_MEMORY : Duration := from_secs 10.
Definition TX_OFFER_RECENT : Duration := from_secs 1.
Definition GAP_CLAMP : Z := 64.
Definition RATE_TICK : Duration := from_millis 100.
Definition WIRE_LOSS_DECAY : f64 := f64_lit 98 100.

Definition f_zero : f64 := S754_zero false.
Definition f_one : f64 := f64_of_Z 1.

(** ** Data *)

Record WireLossEwma := mkWireLoss { lost_w : f64; got_w : f64 }.
#[export] Instance eta_WireLossEwma : Settable WireLossEwma :=
  fun r => mkWireLoss (lost_w r) (got_w r).

Record Bucket := mkBucket { rate : f64; pending : Z; last_tick : Instant }.
#[export] Instance eta_Bucket : Settable Bucket :=
  fun r => mkBucket (rate r) (pending r) (last_tick r).

Record VipTracker := mkVipTracker {
  buckets : list Bucket;
  created_at : Instant;
  commits : Z;
  last_large_alive_at : option Instant;
  last_tx_offer_at : option Instant;
  encrypted_seen : bool;
  wire_loss : WireLossEwma
}.
#[export] Instance eta_VipTracker : Settable VipTracker :=
  fun r => mkVipTracker (buckets r) (created_at r) (commits r) (last_large_alive_at r)
             (last_tx_offer_at r) (encrypted_seen r) (wire_loss r).

Record SizeHealth := mkHealth { warm : bool; large_alive : bool; large_collapsed : bool }.
Definition default_health : SizeHealth := mkHealth false false false.

(** ** Operations *)

Definition wire_loss_note (w : WireLossEwma) (lost got : Z) : WireLossEwma :=
  if (lost =? 0) && (got =? 0) then w
  else
    let lw := f64_mul (lost_w w) WIRE_LOSS_DECAY in
    let gw := f64_mul (got_w w) WIRE_LOSS_DECAY in
    mkWireLoss (f64_add lw (f64_of_Z lost)) (f64_add gw (f64_of_Z got)).

Definition wire_loss_rate (w : WireLossEwma) : f64 :=
  let denom := f64_add (lost_w w) (got_w w) in
  if f_lt denom f_one then f_zero
  else f_clamp f_zero f_one (f64_div (lost_w w) denom).

Definition new_bucket (now : Instant) : Bucket := mkBucket f_zero 0 now.

Definition bucket_flush (b : Bucket) (now : Instant) : Bucket :=
  let elapsed := duration_since now (last_tick b) in
  if elapsed <? RATE_TICK then b
  else
    let secs := f_max (as_secs_f64 elapsed) (f64_lit 1 1000) in
    let sample := f64_div (f64_of_Z (pending b)) secs in
    let rate' :=
      if f_eq (rate b) f_zero && (pending b =? 0) then f_zero
      else f64_add (f64_mul EWMA_ALPHA sample) (f64_mul (f64_sub f_one EWMA_ALPHA) (rate b)) in
    mkBucket rate' 0 now.

Definition bucket_note (b : Bucket) (now : Instant) : Bucket :=
  let b := bucket_flush b now in
  b <| pending := sat_add U64_MAX (pending b) 1 |>.

Definition bucket_note_n (b : Bucket) (n : Z) (now : Instant) : Bucket :=
  if n =? 0 then b
  else
    let b := bucket_flush b now in
    b <| pending := sat_add U64_MAX (pending b) n |>.

Definition new_tracker (now : Instant) : VipTracker :=
  mkVipTracker (replicate BUCKET_COUNT (new_bucket now)) now 0 None None false
    (mkWireLoss f_zero f_zero).

Definition is_warm (t : VipTracker) (now : Instant) : bool :=
  (commits t >=? WARM_COMMITS)
  || ((duration_since now (created_at t) >=? WARM_AGE) && (commits t >=? WARM_MIN_COMMITS)).

Definition flush_all (t : VipTracker) (now : Instant) : VipTracker :=
  t <| buckets := (fun b => bucket_flush b now) <$> buckets t |>.

(** [self.buckets[i].rate]; the array has [BUCKET_COUNT] elements. *)
Definition bucket_rate (t : VipTracker) (i : nat) : f64 :=
  match buckets t !! i with Some b => rate b | None => f_zero end.

Definition large_rate (t : VipTracker) : f64 := f64_add (bucket_rate t 2) (bucket_rate t 3).
Definition small_rate (t : VipTracker) : f64 := bucket_rate t 0.

(** [opt.map(|t| now.saturating_duration_since(t) <= d).unwrap_or(false)]. *)
Definition within (now : Instant) (d : Duration) (at_ : option Instant) : bool :=
  match at_ with Some t => duration_since now t <=? d | None => false end.

Definition tracker_health (t : VipTracker) (now : Instant) : VipTracker * SizeHealth :=
  let t := flush_all t now in
  let w := is_warm t now in
  let large := large_rate t in
  let alive := w && f_le LARGE_ALIVE_RATE large in
  let t := if alive then t <| last_large_alive_at := Some now |> else t in
  let had_large := within now LARGE_ALIVE_MEMORY (last_large_alive_at t) in
  let tx_offer := within now TX_OFFER_RECENT (last_tx_offer_at t) in
  let collapsed :=
    w && encrypted_seen t && had_large
    && f_lt large LARGE_COLLAPSED_LARGE_MAX
    && f_le LARGE_COLLAPSED_SMALL_MIN (small_rate t)
    && tx_offer in
  (t, mkHealth w alive collapsed).

Definition bucket_index (frame_len : Z) : nat :=
  if frame_len <=? 600 then 0 else if frame_len <=? 1000 then 1
  else if frame_len <=? 1300 then 2 else 3.

(** [SizeLossTable { by_vip }]. *)
Abbreviation SizeLossTable := (gmap Z VipTracker).

Definition entry (m : SizeLossTable) (vip : Z) (now : Instant) : VipTracker :=
  default (new_tracker now) (m !! vip).

Definition note_rx (m : SizeLossTable) (vip frame_len : Z) (now : Instant) : SizeLossTable :=
  let t := entry m vip now in
  let t := t <| commits := sat_add U64_MAX (commits t) 1 |> in
  let t := t <| buckets := alter (fun b => bucket_note b now) (bucket_index frame_len) (buckets t) |> in
  <[vip := t]> m.

Definition note_encrypted_commit (m : SizeLossTable) (vip frame_len gap : Z) (now : Instant)
    : SizeLossTable :=
  let t := entry m vip now in
  let t := t <| encrypted_seen := true |> in
  let t := t <| commits := sat_add U64_MAX (commits t) 1 |> in
  let idx := bucket_index frame_len in
  let t := t <| buckets := alter (fun b => bucket_note b now) idx (buckets t) |> in
  let g := Z.min gap GAP_CLAMP in
  let t :=
    if g >? 0 then t <| buckets := alter (fun b => bucket_note_n b g now) idx (buckets t) |> else t in
  <[vip := t]> m.

Definition note_wire_obs (m : SizeLossTable) (vip lost got : Z) (now : Instant) : SizeLossTable :=
  if (lost =? 0) && (got =? 0) then m
  else
    let t := entry m vip now in
    <[vip := t <| wire_loss := wire_loss_note (wire_loss t) lost got |>]> m.

Definition loss_ewma (m : SizeLossTable) (vip : Z) : f64 :=
  match m !! vip with Some t => wire_loss_rate (wire_loss t) | None => f_zero end.

Definition note_tx_offer (m : SizeLossTable) (vip frame_len : Z) (now : Instant) : SizeLossTable :=
  if frame_len <=? 1000 then m
  else <[vip := entry m vip now <| last_tx_offer_at := Some now |>]> m.

Definition health (m : SizeLossTable) (vip : Z) (now : Instant) : SizeLossTable * SizeHealth :=
  match m !! vip with
  | Some t => let (t', h) := tracker_health t now in (<[vip := t']> m, h)
  | None => (m, default_health)
  end.

Definition remove_vip (m : SizeLossTable) (vip : Z) : SizeLossTable := delete vip m.
Definition clear_table (m : SizeLossTable) : SizeLossTable := ∅.

Definition replay_gap (top : option Z) (counter : Z) : Z :=
  match top with
  | Some t => if counter >? t then Z.min (counter - t - 1) GAP_CLAMP else 0
  | None => 0
  end.

(** ** Invariant

    Every tracker has its four buckets; every rate it accumulates is a number
    that is not negative, never NaN, and every weight is below [2^72]. *)

Definition bucket_ok (b : Bucket) : bool :=
  f_nonneg (rate b) && (0 <=? pending b) && (pending b <=? U64_MAX).

(** Wire-loss weights stay below [2^72]: a step multiplies by 0.98 and adds a
    64-bit count. *)
Definition W_MAX : Z := 2 ^ (72 + 1200).

Definition wire_ok (w : WireLossEwma) : Prop := f_bnd W_MAX (lost_w w) /\ f_bnd W_MAX (got_w w).

Definition tracker_ok (t : VipTracker) : Prop :=
  length (buckets t) = BUCKET_COUNT /\ Forall (fun b => bucket_ok b = true) (buckets t) /\
  wire_ok (wire_loss t).

Definition table_ok (m : SizeLossTable) : Prop := map_Forall (fun _ t => tracker_ok t) m.

(** The table's public operations, as a step of its life. *)
Inductive table_op :=
| OpRx (vip frame_len : Z)
| OpEncrypted (vip frame_len gap : Z)
| OpWire (vip lost got : Z)
| OpTxOffer (vip frame_len : Z)
| OpHealth (vip : Z)
| OpRemove (vip : Z)
| OpClear.

Definition apply_op (m : SizeLossTable) (now : Instant) (op : table_op) : SizeLossTable :=
  match op with
  | OpRx v n => note_rx m v n now
  | OpEncrypted v n g => note_encrypted_commit m v n g now
  | OpWire v l g => note_wire_obs m v l g now
  | OpTxOffer v n => note_tx_offer m v n now
  | OpHealth v => (health m v now).1
  | OpRemove v => remove_vip m v
  | OpClear => clear_table m
  end.

(** Counters passed in are [u64]s. *)
Definition op_ok (op : table_op) : Prop :=
  match op with OpWire _ l g => 0 <= l <= U64_MAX /\ 0 <= g <= U64_MAX | _ => True end.

Definition run_ops (m : SizeLossTable) (l : list (Instant * table_op)) : SizeLossTable :=
  fold_left (fun m p => apply_op m p.1 p.2) l m.

(** ** Lemmas *)

Lemma sat_add_range a b : 0 <= a <= U64_MAX -> 0 <= b -> 0 <= sat_add U64_MAX a b <= U64_MAX.
Proof. unfold sat_add. lia. Qed.

Lemma bucket_ok_iff b :
  (bucket_ok b = true) <-> (f_nonneg (rate b) = true /\ 0 <= pending b <= U64_MAX).
Proof. unfold bucket_ok. rewrite !andb_true_iff, !Z.leb_le. tauto. Qed.

Lemma as_secs_f64_nonneg d : 0 <= d -> f_nonneg (as_secs_f64 d) = true.
Proof.
  intros Hd. apply SFadd_nonneg; [apply f64_of_Z_nonneg, Z.div_pos; lia|].
  pose proof (Z.mod_pos_bound d 1000000000 ltac:(lia)). apply SFdiv_pos_nonneg; [|apply f64_of_Z_finite|done..].
  - apply f64_of_Z_nonneg. lia.
  - change (2 ^ 65) with 36893488147419103232. lia.
Qed.

Lemma bucket_flush_ok b now : bucket_ok b = true -> bucket_ok (bucket_flush b now) = true.
Proof.
  intros Hb. pose proof Hb as [Hr Hp]%bucket_ok_iff. unfold bucket_flush.
  destruct (_ <? RATE_TICK); [done|]. apply bucket_ok_iff. cbn [rate pending]. unfold U64_MAX in *.
  split; [|lia]. destruct (_ && _); [done|].
  apply SFadd_nonneg; apply SFmul_nonneg_l; [done| |done|done].
  destruct (f_max_pos (as_secs_f64 (duration_since now (last_tick b))) (f64_lit 1 1000)) as [H1 H2];
    [apply as_secs_f64_nonneg; unfold duration_since, sat_sub; lia|done|].
  apply SFdiv_pos_nonneg; [apply f64_of_Z_nonneg; lia| |done..].
  apply f64_of_Z_finite. change (2 ^ 65) with 36893488147419103232. lia.
Qed.

Lemma bucket_note_ok b now : bucket_ok b = true -> bucket_ok (bucket_note b now) = true.
Proof.
  intros [Hr Hp]%(bucket_flush_ok _ now)%bucket_ok_iff. apply bucket_ok_iff.
  unfold bucket_note. cbn [setter rate pending]. split; [done|]. apply sat_add_range; [done|lia].
Qed.

Lemma bucket_note_n_ok b n now : 0 <= n -> bucket_ok b = true -> bucket_ok (bucket_note_n b n now) = true.
Proof.
  intros Hn Hb. unfold bucket_note_n. destruct (n =? 0); [done|].
  apply (bucket_flush_ok _ now), bucket_ok_iff in Hb as [Hr Hp]. apply bucket_ok_iff.
  cbn [setter rate pending]. split; [done|]. apply sat_add_range; [done|lia].
Qed.

Lemma decay_bnd x : f_bnd W_MAX x -> f_bnd (8827055269646172 * 2 ^ (19 + 1200) + 2 ^ (21 + 1200)) (f64_mul x WIRE_LOSS_DECAY).
Proof.
  replace WIRE_LOSS_DECAY with (S754_finite false 8827055269646172 (-53)) by (by vm_compute).
  destruct x as [[]| | |[] m e]; try done. intros [He Hv]. unfold f64_mul, SFmul. simpl xorb.
  assert (Hscale : f_val (m * 8827055269646172) (e + -53) <= 8827055269646172 * 2 ^ (19 + 1200)).
  { unfold f_val, W_MAX in *. rewrite Pos2Z.inj_mul.
    assert (Hk : 0 <= e + -53 + 1200) by lia.
    replace (e + 1200) with (53 + (e + -53 + 1200)) in Hv by lia. set (k := e + -53 + 1200) in *. clearbody k.
    rewrite (Z.pow_add_r 2 53 k) in Hv by lia.
    change (2 ^ (72 + 1200)) with (2 ^ 53 * 2 ^ (19 + 1200)) in Hv.
    set (A := 2 ^ (19 + 1200)) in *. set (B := 2 ^ 53) in *.
    assert (0 < B) by (unfold B; lia). clearbody A B. nia. }
  eapply f_bnd_weaken; [|apply round_aux_bnd; [lia|]]; [lia|]. etrans; [exact Hscale|].
  vm_compute. congruence.
Qed.

Lemma weight_step_bnd x n :
  f_bnd W_MAX x -> 0 <= n <= U64_MAX -> f_bnd W_MAX (f64_add (f64_mul x WIRE_LOSS_DECAY) (f64_of_Z n)).
Proof.
  intros Hx Hn. assert (Hn' : f_bnd (U64_MAX * 2 ^ 1200 + 2 ^ (21 + 1200)) (f64_of_Z n)).
  { eapply f_bnd_weaken; [|apply f64_of_Z_bnd]; unfold U64_MAX in *.
    - assert (0 < 2 ^ 1200) by (apply Z.pow_pos_nonneg; lia). nia.
    - change (2 ^ 72) with 4722366482869645213696. lia. }
  eapply f_bnd_weaken; [|eapply (f64_add_bnd _ _ _ _); [| | |apply decay_bnd, Hx|exact Hn']];
    vm_compute; congruence.
Qed.

Lemma wire_loss_note_ok w lost got :
  0 <= lost <= U64_MAX -> 0 <= got <= U64_MAX -> wire_ok w -> wire_ok (wire_loss_note w lost got).
Proof.
  intros Hl Hg [H1 H2]. unfold wire_loss_note. destruct (_ && _); [done|].
  split; cbn [lost_w got_w]; by apply weight_step_bnd.
Qed.

Lemma wire_loss_rate_range w :
  wire_ok w -> f_le f_zero (wire_loss_rate w) = true /\ f_le (wire_loss_rate w) f_one = true.
Proof.
  intros [H1 H2]. unfold wire_loss_rate.
  apply f_bnd_finite in H1 as [N1 F1]. apply f_bnd_finite in H2 as [N2 _].
  pose proof (SFadd_nonneg 53 1024 _ _ N1 N2) as N3. fold (f64_add (lost_w w) (got_w w)) in N3.
  destruct (f_lt (f64_add (lost_w w) (got_w w)) f_one) eqn:E; [done|].
  apply f_clamp_bounds; [|done..]. apply f_nonneg_not_nan, SFdiv_pos_nonneg; [done..|].
  by destruct (f64_add (lost_w w) (got_w w)) as [[]|[]| |[] m e].
Qed.

Lemma Forall_alter_impl {A} (P : A -> Prop) f i (l : list A) :
  (forall x, P x -> P (f x)) -> Forall P l -> Forall P (alter f i l).
Proof.
  intros Hf Hl. apply Forall_lookup. intros j x. rewrite Forall_lookup in Hl.
  destruct (decide (i = j)) as [->|Hne].
  - rewrite list_lookup_alter_eq. destruct (l !! j) eqn:E; simpl; [|done]. intros [= <-]. eauto.
  - rewrite list_lookup_alter_ne by done. apply Hl.
Qed.

Lemma new_tracker_ok now : tracker_ok (new_tracker now).
Proof. split_and!; [done| |done]. by apply Forall_replicate. Qed.

Lemma entry_ok m vip now : table_ok m -> tracker_ok (entry m vip now).
Proof.
  intros Hm. unfold entry. destruct (m !! vip) as [t|] eqn:E; simpl; [by apply (Hm vip)|].
  apply new_tracker_ok.
Qed.

Lemma tracker_alter_ok t f i :
  (forall b, bucket_ok b = true -> bucket_ok (f b) = true) ->
  tracker_ok t -> tracker_ok (t <| buckets := alter f i (buckets t) |>).
Proof.
  intros Hf (Hl & Hb & Hw). split_and!; simpl; [by rewrite length_alter| |done].
  by apply (Forall_alter_impl (fun b => bucket_ok b = true)).
Qed.

Lemma tracker_health_ok t now : tracker_ok t -> tracker_ok (tracker_health t now).1.
Proof.
  intros (Hl & Hb & Hw). unfold tracker_health. cbn [fst].
  assert (H : tracker_ok (flush_all t now)).
  { split_and!; simpl; [by rewrite length_fmap| |done]. apply Forall_fmap. eapply Forall_impl; [done|].
    intros b. apply bucket_flush_ok. }
  by destruct (_ && _).
Qed.

Lemma apply_op_ok m now op : op_ok op -> table_ok m -> table_ok (apply_op m now op).
Proof.
  intros Hop Hm. destruct op as [v n|v n g|v l g|v n|v|v|]; simpl in *.
  - apply map_Forall_insert_2; [|done].
    apply (tracker_alter_ok (entry m v now <| commits := _ |>)); [intros; by apply bucket_note_ok|by apply entry_ok].
  - apply map_Forall_insert_2; [|done]. rewrite Z.gtb_ltb.
    destruct (Z.ltb_spec 0 (Z.min g GAP_CLAMP)).
    + apply (tracker_alter_ok (entry m v now <| encrypted_seen := _ |> <| commits := _ |> <| buckets := _ |>)).
      { intros. apply bucket_note_n_ok; [lia|done]. }
      apply (tracker_alter_ok (entry m v now <| encrypted_seen := _ |> <| commits := _ |>));
        [intros; by apply bucket_note_ok|by apply entry_ok].
    + apply (tracker_alter_ok (entry m v now <| encrypted_seen := _ |> <| commits := _ |>));
        [intros; by apply bucket_note_ok|by apply entry_ok].
  - unfold note_wire_obs. destruct (_ && _); [done|]. apply map_Forall_insert_2; [|done].
    destruct (entry_ok m v now Hm) as (Hl & Hb & Hw). split_and!; [done..|].
    destruct Hop. by apply wire_loss_note_ok.
  - unfold note_tx_offer. destruct (_ <=? _); [done|]. apply map_Forall_insert_2; [|done].
    by apply (entry_ok m v now).
  - unfold health. destruct (m !! v) as [t|] eqn:E; [|done].
    pose proof (tracker_health_ok t now (Hm _ _ E)) as Ht.
    destruct (tracker_health t now). by apply map_Forall_insert_2.
  - by apply map_Forall_delete.
  - apply map_Forall_empty.
Qed.

Lemma run_ops_ok l m : Forall (fun p => op_ok p.2) l -> table_ok m -> table_ok (run_ops m l).
Proof.
  intros Hl. revert m. induction Hl as [|[now op] l Hop _ IH]; intros m Hm; [done|].
  apply IH. by apply apply_op_ok.
Qed.

(** Wire loss stays a fraction: after any sequence of table operations with
    [u64] counts, the loss of every VIP is a number between 0 and 1 (never NaN,
    the weights never overflow), and every bucket of every tracker has a rate
    that is a non-negative number. *)
Theorem loss_ewma_range (ops : list (Instant * table_op)) (vip : Z) :
  Forall (fun p => op_ok p.2) ops ->
  let m := run_ops ∅ ops in
  f_le f_zero (loss_ewma m vip) = true /\ f_le (loss_ewma m vip) f_one = true /\
  forall t, m !! vip = Some t ->
    length (buckets t) = BUCKET_COUNT /\ Forall (fun b => f_nonneg (rate b) = true) (buckets t).
Proof.
  intros Hops m. assert (Hm : table_ok m) by (apply run_ops_ok; [done|apply map_Forall_empty]).
  assert (Hw : f_le f_zero (loss_ewma m vip) = true /\ f_le (loss_ewma m vip) f_one = true).
  { unfold loss_ewma. destruct (m !! vip) as [t|] eqn:E; [|done].
    apply wire_loss_rate_range, (Hm _ _ E). }
  split_and!; [apply Hw..|]. intros t Ht. destruct (Hm _ _ Ht) as (Hl & Hb & _). split; [done|].
  eapply Forall_impl; [done|]. by intros b [? _]%bucket_ok_iff.
Qed.

Lemma loss_ewma_range_witness :
  let m := run_ops ∅ [(0, OpWire 7 1 19); (0, OpRx 7 1200); (5, OpWire 7 U64_MAX 0)] in
  f_le (loss_ewma m 7) f_one = true.
Proof.
  apply (loss_ewma_range [(0, OpWire 7 1 19); (0, OpRx 7 1200); (5, OpWire 7 U64_MAX 0)] 7).
  repeat constructor; simpl; unfold U64_MAX; lia.
Defined.

(** The verdicts given to path-MTU discovery are sound: large packets are
    called alive only on a warm tracker; they are called collapsed only on a warm
    tracker that has seen encrypted traffic, saw large packets alive in the last
    ten seconds and was offered a large packet to send in the last second; and
    never both at once. *)
Theorem health_sound (t : VipTracker) (now : Instant) (t' : VipTracker) (h : SizeHealth) :
  tracker_health t now = (t', h) ->
  (large_alive h = true -> warm h = true /\ last_large_alive_at t' = Some now) /\
  (large_collapsed h = true ->
     warm h = true /\ large_alive h = false /\ encrypted_seen t = true /\
     (exists a, last_large_alive_at t = Some a /\ now - a <= LARGE_ALIVE_MEMORY) /\
     (exists o, last_tx_offer_at t = Some o /\ now - o <= TX_OFFER_RECENT)).
Proof.
  unfold tracker_health. set (tf := flush_all t now). set (alive := is_warm tf now && _).
  intros [= <- <-]. cbn [warm large_alive large_collapsed]. split.
  - intros Ha. rewrite Ha. split; [|done]. by apply andb_true_iff in Ha as [? _].
  - intros Hc. assert (Halive : alive = false).
    { destruct alive eqn:Ea; [|done]. unfold alive in Ea. breflect.
      assert (Habs : f_lt LARGE_ALIVE_RATE LARGE_COLLAPSED_LARGE_MAX = true)
        by (eapply f_lt_le_absurd; eauto). by vm_compute in Habs. }
    rewrite Halive in Hc. breflect. unfold within, duration_since, sat_sub in *.
    change (last_large_alive_at tf) with (last_large_alive_at t) in *.
    change (last_tx_offer_at tf) with (last_tx_offer_at t) in *.
    split_and!; [done..| |].
    + destruct (last_large_alive_at t) as [x|]; [|done]. exists x. split; [done|]. breflect. lia.
    + destruct (last_tx_offer_at t) as [x|]; [|done]. exists x. split; [done|]. breflect. lia.
Qed.

Lemma health_sound_witness :
  let t := mkVipTracker [mkBucket (f64_of_Z 40) 0 900000000; new_bucket 0; new_bucket 0; new_bucket 0]
             0 70 (Some 500000000) (Some 800000000) true (mkWireLoss f_zero f_zero) in
  exists h, (tracker_health t 950000000).2 = h /\ large_collapsed h = true /\ large_alive h = false.
Proof.
  intros t. eexists. split; [reflexivity|]. split; [by vm_compute|].
  destruct (tracker_health t 950000000) as [t' h] eqn:E.
  apply (health_sound t 950000000 t' h E). apply (f_equal snd) in E. simpl snd in E.
  rewrite <- E. by vm_compute.
Defined.
