(* ===== verification/Limiter.v ===== *)
(** * Per-source rate limiting ([ControlRateLimiter] of [src/src/crypto.rs]) and
    source keys ([src_key], [src_addr_key] of [src/src/net/engine.rs])

    A token bucket per source key, refilled at a constant rate up to a capacity,
    with idle sources reaped and at most 65,536 of them tracked. *)

From S2P Require Import Prelude Float.

(** ** Source keys *)

Definition src_key (ip : IpAddr) : Z :=
  match ip with
  | V4 a => a
  | V6 a => Z.lxor (a / 2 ^ 64) (a mod 2 ^ 64)
  end.

(** [u64::rotate_left]. *)
Definition rotl64 (x n : Z) : Z :=
  Z.lor (wrap 64 (Z.shiftl x n)) (Z.shiftr x (64 - n)).

Definition src_addr_key (from : SocketAddr) : Z :=
  Z.lxor (rotl64 (src_key (sa_ip from)) 17) (sa_port from).

Definition join_rate_key (from : SocketAddr) : Z := src_addr_key from.
Definition join_ip_key (from : SocketAddr) : Z := src_key (sa_ip from).

(** ** The limiter *)

Record TokenBucket := mkTB { tokens : f64; last_refill : Instant; last_seen : Instant }.

Record ControlRateLimiter := mkLimiter {
  entries : gmap Z TokenBucket;
  capacity : f64;
  refill_per_sec : f64;
  reap_after : Duration;
  last_reap : Instant
}.
#[export] Instance eta_ControlRateLimiter : Settable ControlRateLimiter :=
  fun r => mkLimiter (entries r) (capacity r) (refill_per_sec r) (reap_after r) (last_reap r).

Definition new_limiter (cap refill : f64) (now : Instant) : ControlRateLimiter :=
  mkLimiter ∅ cap refill (from_secs 300) now.

Definition MAX_ENTRIES : Z := 65536.

(** [self.entries.retain(..); self.last_reap = now]. *)
Definition reap (l : ControlRateLimiter) (now : Instant) : ControlRateLimiter :=
  l <| entries := retain (fun _ v => duration_since now (last_seen v) <=? reap_after l) (entries l) |>
    <| last_reap := now |>.

(** The bucket of a source after the refill of a call at [now]. *)
Definition refill (l : ControlRateLimiter) (src_key : Z) (now : Instant) : TokenBucket :=
  let entry := default (mkTB (capacity l) now now) (entries l !! src_key) in
  let elapsed := as_secs_f64 (duration_since now (last_refill entry)) in
  mkTB (f_min (f64_add (tokens entry) (f64_mul elapsed (refill_per_sec l))) (capacity l)) now now.

Definition allow (l : ControlRateLimiter) (src_key : Z) (now : Instant) : ControlRateLimiter * bool :=
  let l := if duration_since now (last_reap l) >=? from_secs 60 then reap l now else l in
  let full := (Z.of_nat (size (entries l)) >=? MAX_ENTRIES) && negb (bool_decide (is_Some (entries l !! src_key))) in
  let l := if full then reap l now else l in
  if full && (Z.of_nat (size (entries l)) >=? MAX_ENTRIES) then (l, false)
  else
    let entry := refill l src_key now in
    if f_lt (tokens entry) (f64_of_Z 1) then (l <| entries := <[src_key := entry]> (entries l) |>, false)
    else
      let entry := mkTB (f64_sub (tokens entry) (f64_of_Z 1)) now now in
      (l <| entries := <[src_key := entry]> (entries l) |>, true).

(** [n] calls of one source at one instant: the final limiter and the verdicts. *)
Fixpoint allow_n (n : nat) (l : ControlRateLimiter) (src_key : Z) (now : Instant)
    : ControlRateLimiter * list bool :=
  match n with
  | O => (l, [])
  | S n => let (l, b) := allow l src_key now in
           let (l, bs) := allow_n n l src_key now in (l, b :: bs)
  end.

(** ** Source keys are unambiguous for IPv4 *)

Definition v4_addr_ok (a : SocketAddr) : Prop :=
  match sa_ip a with V4 i => in_u 32 i | V6 _ => False end /\ in_u 16 (sa_port a).

Lemma rotl17_v4 i : in_u 32 i -> rotl64 i 17 = i * 2 ^ 17.
Proof.
  intros [Hl Hh]. unfold rotl64. rewrite Z.shiftr_div_pow2, Z.shiftl_mul_pow2 by lia.
  rewrite Z.div_small by (split; [lia|]; etrans; [exact Hh|]; vm_compute; congruence).
  rewrite Z.lor_0_r. apply wrap_small. split; [lia|].
  apply (Z.lt_le_trans _ (2 ^ 32 * 2 ^ 17)); [nia|]. vm_compute. congruence.
Qed.

Lemma lxor_low_high i p : 0 <= p < 2 ^ 17 -> Z.lxor (i * 2 ^ 17) p = i * 2 ^ 17 + p.
Proof.
  intros Hp. symmetry. apply Z.add_nocarry_lxor. apply Z.bits_inj'. intros n Hn.
  rewrite Z.land_spec, Z.bits_0. destruct (Z.lt_ge_cases n 17).
  - by rewrite Z.mul_pow2_bits_low by lia.
  - replace (Z.testbit p n) with false; [by rewrite andb_false_r|]. symmetry.
    destruct (Z.eq_dec p 0) as [->|]; [apply Z.bits_0|]. apply Z.bits_above_log2; [lia|].
    apply Z.log2_lt_pow2; [lia|]. apply (Z.lt_le_trans _ (2 ^ 17)); [lia|]. apply Z.pow_le_mono_r; lia.
Qed.

(** Two IPv4 sources never share a rate-limit or replay entry: the 64-bit key
    of a source is different for different addresses or ports. *)
Theorem src_addr_key_injective (a b : SocketAddr) :
  v4_addr_ok a -> v4_addr_ok b -> src_addr_key a = src_addr_key b -> a = b.
Proof.
  destruct a as [[i|i] p], b as [[j|j] q]; unfold v4_addr_ok; simpl; try tauto.
  intros [Hi Hp] [Hj Hq]. unfold src_addr_key. cbn [sa_ip sa_port src_key].
  unfold in_u in Hp, Hq. rewrite !rotl17_v4, !lxor_low_high by (done || lia).
  intros E. assert (i = j) as -> by lia. f_equal. lia.
Qed.

Lemma src_addr_key_injective_witness :
  mkAddr (V4 3405803783) 1111 = mkAddr (V4 3405803783) 1111.
Proof. apply src_addr_key_injective; repeat split; done. Defined.

(** ** Size of the table *)

Lemma retain_size_le f (m : gmap Z TokenBucket) : (size (retain f m) <= size m)%nat.
Proof. apply map_subseteq_size, map_filter_subseteq. Qed.

Lemma insert_size_le {V} (m : gmap Z V) k v B :
  (Z.of_nat (size m) < B \/ is_Some (m !! k)) -> Z.of_nat (size m) <= B ->
  Z.of_nat (size (<[k := v]> m)) <= B.
Proof.
  intros [Hlt|Hs] Hle.
  - rewrite map_size_insert. destruct (m !! k); simpl; lia.
  - by rewrite map_size_insert_Some.
Qed.

(** The limiter's memory is bounded: whatever sources call it, it never tracks
    more than 65,536 of them. *)
Theorem limiter_bounded (l : ControlRateLimiter) (src : Z) (now : Instant) :
  Z.of_nat (size (entries l)) <= MAX_ENTRIES ->
  Z.of_nat (size (entries (allow l src now).1)) <= MAX_ENTRIES.
Proof.
  intros Hsz. unfold allow.
  set (l1 := if _ >=? from_secs 60 then reap l now else l).
  assert (H1 : Z.of_nat (size (entries l1)) <= MAX_ENTRIES).
  { unfold l1. destruct (_ >=? _); [|done]. simpl.
    pose proof (retain_size_le (fun _ v => duration_since now (last_seen v) <=? reap_after l) (entries l)). lia. }
  clearbody l1. set (full := _ && negb _).
  set (l2 := if full then reap l1 now else l1).
  assert (H2 : Z.of_nat (size (entries l2)) <= MAX_ENTRIES).
  { unfold l2. destruct full; [|done]. simpl.
    pose proof (retain_size_le (fun _ v => duration_since now (last_seen v) <=? reap_after l1) (entries l1)). lia. }
  destruct (full && _) eqn:Ef; [done|].
  assert (Hroom : Z.of_nat (size (entries l2)) < MAX_ENTRIES \/ is_Some (entries l2 !! src)).
  { unfold l2 in *. destruct full eqn:Efull; simpl in Ef.
    - left. rewrite Z.geb_leb in Ef. by apply Z.leb_gt in Ef.
    - unfold full in Efull. rewrite Z.geb_leb in Efull. breflect.
      destruct Efull as [Hlt|Hin]; breflect; [by left|by right]. }
  clearbody l2. destruct (f_lt _ _); simpl; by apply insert_size_le.
Qed.

Lemma limiter_bounded_witness :
  Z.of_nat (size (entries (allow (new_limiter (f64_of_Z 8) (f64_of_Z 4) 0) 5 0).1)) <= MAX_ENTRIES.
Proof. apply limiter_bounded. vm_compute. congruence. Defined.

(** ** Burst *)

(** The capacities the engine configures: control, plain data, join and join per
    address. *)
Definition configured_caps : list Z := [400; 200; 8; 32].

Definition whole_token (cap k : Z) : bool :=
  bool_decide (f_min (f64_add (f64_of_Z k) (S754_zero false)) (f64_of_Z cap) = f64_of_Z k)
  && Bool.eqb (f_lt (f64_of_Z k) (f64_of_Z 1)) (k =? 0)
  && ((k =? 0) || bool_decide (f64_sub (f64_of_Z k) (f64_of_Z 1) = f64_of_Z (k - 1))).

Lemma whole_tokens_ok :
  forallb (fun cap => forallb (whole_token cap) (seqZ 0 (cap + 1))) configured_caps = true.
Proof. vm_compute. reflexivity. Qed.

Lemma whole_token_all cap k : cap ∈ configured_caps -> 0 <= k <= cap -> whole_token cap k = true.
Proof.
  intros Hc Hk. pose proof whole_tokens_ok as H. rewrite forallb_forall in H.
  specialize (H cap (proj1 (list_elem_of_In _ _) Hc)). rewrite forallb_forall in H.
  apply H, list_elem_of_In, elem_of_seqZ. lia.
Qed.

(** A source that holds [k] whole tokens at [now]. *)
Definition holds (l : ControlRateLimiter) (src : Z) (now : Instant) (cap k : Z) : Prop :=
  entries l !! src = Some (mkTB (f64_of_Z k) now now) /\ capacity l = f64_of_Z cap /\
  f_pos_finite (refill_per_sec l) = true /\ 0 <= reap_after l.

Lemma refill_same_instant l src now cap k :
  cap ∈ configured_caps -> 0 <= k <= cap -> holds l src now cap k ->
  refill l src now = mkTB (f64_of_Z k) now now.
Proof.
  intros Hc Hk (He & Hcap & Hr & _). unfold refill. rewrite He, Hcap. simpl default. cbn [tokens last_refill].
  assert (duration_since now now = 0) as -> by (unfold duration_since, sat_sub; lia).
  assert (f64_mul (as_secs_f64 0) (refill_per_sec l) = S754_zero false) as ->
    by (by destruct (refill_per_sec l) as [[]|[]| |[] ? ?]).
  pose proof (whole_token_all cap k Hc Hk) as H. unfold whole_token in H.
  apply andb_true_iff in H as [[H _]%andb_true_iff _]. breflect. by rewrite H.
Qed.

Lemma holds_reap l src now cap k : holds l src now cap k -> holds (reap l now) src now cap k.
Proof.
  intros (He & ? & ? & Hr). split_and!; try done. simpl. apply lookup_retain. split; [done|]. simpl.
  apply Z.leb_le. unfold duration_since, sat_sub. lia.
Qed.

(** The decision once the bucket is refilled to [k] whole tokens. *)
Lemma spend_whole l src now cap k :
  cap ∈ configured_caps -> 0 <= k <= cap -> refill l src now = mkTB (f64_of_Z k) now now ->
  capacity l = f64_of_Z cap -> f_pos_finite (refill_per_sec l) = true -> 0 <= reap_after l ->
  let r :=
    if f_lt (tokens (refill l src now)) (f64_of_Z 1)
    then (l <| entries := <[src := refill l src now]> (entries l) |>, false)
    else (l <| entries := <[src := mkTB (f64_sub (tokens (refill l src now)) (f64_of_Z 1)) now now]>
             (entries l) |>, true) in
  r.2 = (0 <? k) /\ holds r.1 src now cap (Z.max 0 (k - 1)).
Proof.
  intros Hc Hk -> Hcap Hr Hra. pose proof (whole_token_all cap k Hc Hk) as H. unfold whole_token in H.
  apply andb_true_iff in H as [[_ Hlt]%andb_true_iff Hsub]. apply Bool.eqb_prop in Hlt.
  cbn [tokens]. rewrite Hlt. destruct (Z.eqb_spec k 0) as [->|Hk0].
  - split; [done|]. split_and!; try done. simpl. by rewrite lookup_insert_eq.
  - rewrite (proj2 (Z.ltb_lt 0 k)) by lia. split; [done|]. simpl in Hsub. breflect.
    split_and!; try done. simpl. rewrite lookup_insert_eq, Hsub. by rewrite Z.max_r by lia.
Qed.

Lemma allow_step l src now cap k :
  cap ∈ configured_caps -> 0 <= k <= cap -> holds l src now cap k ->
  (allow l src now).2 = (0 <? k) /\ holds (allow l src now).1 src now cap (Z.max 0 (k - 1)).
Proof.
  intros Hc Hk Hl. unfold allow.
  set (l1 := if _ >=? from_secs 60 then reap l now else l).
  assert (H1 : holds l1 src now cap k) by (unfold l1; destruct (_ >=? _); auto using holds_reap).
  clearbody l1. pose proof H1 as (He & Hcap & Hr & Hra).
  assert (bool_decide (is_Some (entries l1 !! src)) = true) as -> by (apply bool_decide_eq_true; rewrite He; eauto).
  rewrite andb_false_r. cbn [andb negb].
  apply (spend_whole l1); [done|done|by eapply refill_same_instant|done..].
Qed.

Lemma allow_first cap r t0 src now :
  cap ∈ configured_caps -> 0 <= cap -> f_pos_finite r = true ->
  let a := allow (new_limiter (f64_of_Z cap) r t0) src now in
  a.2 = (0 <? cap) /\ holds a.1 src now cap (Z.max 0 (cap - 1)).
Proof.
  intros Hc Hcap Hr a. unfold a, allow. set (l1 := if _ >=? from_secs 60 then _ else _).
  assert (Hl1 : exists t, l1 = new_limiter (f64_of_Z cap) r t).
  { unfold l1. destruct (_ >=? _); [|by eexists]. exists now. unfold reap, new_limiter. simpl. f_equal. }
  destruct Hl1 as [t ->]. cbn [entries new_limiter]. rewrite map_size_empty. simpl (_ >=? _).
  cbn [andb]. apply (spend_whole (new_limiter (f64_of_Z cap) r t)); [done|lia| |done..].
  erewrite <- (refill_same_instant (new_limiter (f64_of_Z cap) r t <| entries := {[src := mkTB (f64_of_Z cap) now now]} |>) src now cap cap);
    [|done|lia|split_and!; [apply lookup_singleton_eq|done..]].
  unfold refill. simpl. by rewrite lookup_singleton_eq, lookup_empty.
Qed.

Lemma verdicts_cons n k :
  0 <= k ->
  (0 <? k) :: ((fun i => i <? Z.max 0 (k - 1)) <$> seqZ 0 (Z.of_nat n))
  = (fun i => i <? k) <$> seqZ 0 (Z.of_nat (S n)).
Proof.
  intros Hk. rewrite (seqZ_cons 0 (Z.of_nat (S n))) by lia. rewrite fmap_cons. f_equal.
  replace (Z.pred (Z.of_nat (S n))) with (Z.of_nat n) by lia. change (Z.succ 0) with (1 + 0).
  rewrite <- fmap_add_seqZ, <- list_fmap_compose. apply list_fmap_ext. intros i x [-> ?]%lookup_seqZ. simpl.
  destruct (Z.ltb_spec (0 + Z.of_nat i) (Z.max 0 (k - 1))), (Z.ltb_spec (1 + (0 + Z.of_nat i)) k); lia || done.
Qed.

Lemma allow_n_holds n l src now cap k :
  cap ∈ configured_caps -> 0 <= k <= cap -> holds l src now cap k ->
  (allow_n n l src now).2 = (fun i => i <? k) <$> seqZ 0 (Z.of_nat n).
Proof.
  intros Hc. revert l k. induction n as [|n IH]; intros l k Hk Hl; [done|].
  cbn [allow_n]. destruct (allow_step l src now cap k Hc Hk Hl) as [Hv Hn].
  destruct (allow l src now) as [l' b]. cbn [fst snd] in *.
  specialize (IH l' (Z.max 0 (k - 1)) ltac:(lia) Hn). destruct (allow_n n l' src now) as [l'' bs].
  cbn [snd] in *. rewrite IH, Hv. apply verdicts_cons. lia.
Qed.

(** Burst: a source that the limiter does not know yet, calling it [n] times
    at one instant, gets exactly the configured capacity through and everything
    after that refused, for each of the capacities the engine uses. *)
Theorem limiter_burst_exact (cap : Z) (r : f64) (t0 now src : Z) (n : nat) :
  cap ∈ configured_caps -> f_pos_finite r = true ->
  (allow_n n (new_limiter (f64_of_Z cap) r t0) src now).2
    = (fun i => i <? cap) <$> seqZ 0 (Z.of_nat n).
Proof.
  intros Hc Hr. assert (Hcap : 0 < cap) by (unfold configured_caps in Hc; set_solver by lia).
  destruct n as [|n]; [done|]. cbn [allow_n].
  destruct (allow_first cap r t0 src now Hc ltac:(lia) Hr) as [Hv Hh].
  destruct (allow _ src now) as [l b]. cbn [fst snd] in *.
  pose proof (allow_n_holds n l src now cap (Z.max 0 (cap - 1)) Hc ltac:(lia) Hh) as Hn.
  destruct (allow_n n l src now) as [l' bs]. cbn [snd] in *. rewrite Hv, Hn. apply verdicts_cons. lia.
Qed.

Lemma limiter_burst_exact_witness :
  (allow_n 10 (new_limiter (f64_of_Z 8) (f64_of_Z 4) 0) 77 5).2
    = (fun i => i <? 8) <$> seqZ 0 (Z.of_nat 10).
Proof. apply limiter_burst_exact; [unfold configured_caps; set_solver|done]. Defined.
