(* ===== verification/CryptoPool.v ===== *)
(** * The engine's key pool ([CryptoPool] of [src/src/net/engine.rs])

    Keys are shared by reference counting and compared by address where the code
    does so: an [ArcKey] carries the address of its allocation, and an operation
    that allocates takes the fresh address as an argument. *)

From S2P Require Import Prelude.

Record ArcKey := mkArc { arc_ptr : Z; material : bytes }.

#[export] Instance ArcKey_eq_dec : EqDecision ArcKey.
Proof. solve_decision. Defined.

Record CryptoPool := mkPool {
  primary : option ArcKey;
  extras : list ArcKey;
  per_peer : gmap SocketAddr ArcKey
}.
#[export] Instance eta_CryptoPool : Settable CryptoPool :=
  fun r => mkPool (primary r) (extras r) (per_peer r).

Definition MAX_EXTRA_KEYS : nat := 8.

Definition new_pool : CryptoPool := mkPool None [] ∅.

Definition trim_extras (p : CryptoPool) : CryptoPool :=
  if (MAX_EXTRA_KEYS <? length (extras p))%nat
  then p <| extras := drop (length (extras p) - MAX_EXTRA_KEYS) (extras p) |>
  else p.

Definition has_any (p : CryptoPool) : bool :=
  bool_decide (is_Some (primary p)) || negb (bool_decide (extras p = []))
  || negb (bool_decide (per_peer p = ∅)).

Definition or_else {A} (x y : option A) : option A := match x with Some _ => x | None => y end.

Definition shared_signing_key `{HashIter} (p : CryptoPool) : option ArcKey :=
  or_else (or_else (primary p) (last (extras p))) (snd <$> head (hm_iter (per_peer p))).

(** Comparison of keys ([PartialEq for AeadKey]) is by material. *)
Definition same_material (k1 k2 : ArcKey) : bool := bool_decide (material k1 = material k2).

Definition set_primary (p : CryptoPool) (ptr : Z) (key : bytes) : CryptoPool * ArcKey :=
  let key := mkArc ptr key in
  let p := p <| primary := Some key |> in
  let p := if existsb (same_material key) (extras p) then p else p <| extras := extras p ++ [key] |> in
  (trim_extras p, key).

Definition add_key (p : CryptoPool) (ptr : Z) (key : bytes) : CryptoPool * ArcKey :=
  let ak := mkArc ptr key in
  let new :=
    match find (same_material ak) (extras p) with
    | Some existing => (p, existing)
    | None => (trim_extras (p <| extras := extras p ++ [ak] |>), ak)
    end in
  match primary p with
  | Some existing => if same_material ak existing then (p, existing) else new
  | None => new
  end.

Definition bind_peer_key (p : CryptoPool) (peer : SocketAddr) (key : ArcKey) : CryptoPool :=
  p <| per_peer := <[peer := key]> (per_peer p) |>.

Definition unbind_peer (p : CryptoPool) (peer : SocketAddr) : CryptoPool :=
  p <| per_peer := delete peer (per_peer p) |>.

(** [tracks] is [RoutingTable::tracks_endpoint]. *)
Definition prune_per_peer_orphans (p : CryptoPool) (tracks : SocketAddr -> bool) : CryptoPool :=
  p <| per_peer := retain (fun addr _ => tracks addr) (per_peer p) |>.

Definition key_for_peer (p : CryptoPool) (peer : SocketAddr) : option ArcKey := per_peer p !! peer.

Definition key_for_dest (p : CryptoPool) (dest : SocketAddr) : option ArcKey :=
  or_else (or_else (key_for_peer p dest) (primary p)) (last (extras p)).

Definition push_ptr_unique (out : list ArcKey) (candidate : ArcKey) : list ArcKey :=
  if existsb (fun k => arc_ptr k =? arc_ptr candidate) out then out else out ++ [candidate].

Definition push_opt (out : list ArcKey) (c : option ArcKey) : list ArcKey :=
  match c with Some k => push_ptr_unique out k | None => out end.

Definition keys_for_decrypt (p : CryptoPool) (source : SocketAddr) : list ArcKey :=
  let bound := key_for_peer p source in
  let is_primary :=
    match primary p, bound with Some k, Some b => arc_ptr k =? arc_ptr b | _, _ => false end in
  if is_primary then push_opt [] bound
  else
    let out := push_opt [] bound in
    let out := push_opt out (primary p) in
    fold_left push_ptr_unique (rev (extras p)) out.

Definition clear_pool (p : CryptoPool) : CryptoPool := mkPool None [] ∅.

(** ** Theorems *)

Lemma trim_extras_bound p : (length (extras (trim_extras p)) <= MAX_EXTRA_KEYS)%nat.
Proof.
  unfold trim_extras. destruct (Nat.ltb_spec MAX_EXTRA_KEYS (length (extras p))); [|lia].
  simpl. rewrite length_drop. lia.
Qed.

(** The invariant of the extra keys: at most eight, no material twice. *)
Definition extras_ok (p : CryptoPool) : Prop :=
  (length (extras p) <= MAX_EXTRA_KEYS)%nat /\ NoDup (material <$> extras p).

Lemma trim_extras_ok p : NoDup (material <$> extras p) -> extras_ok (trim_extras p).
Proof.
  intros Hd. split; [apply trim_extras_bound|]. unfold trim_extras. case_match; [|done]. simpl.
  rewrite fmap_drop. by eapply sublist_NoDup, sublist_drop.
Qed.

Lemma not_existsb_material k l :
  existsb (same_material k) l = false -> material k ∉ (material <$> l).
Proof.
  intros H (x & E & Hx)%list_elem_of_fmap. rewrite <- not_true_iff_false in H. apply H.
  apply existsb_exists. exists x. split; [by apply list_elem_of_In|]. by apply bool_decide_eq_true.
Qed.

Lemma NoDup_snoc {A} (l : list A) x : NoDup l -> x ∉ l -> NoDup (l ++ [x]).
Proof. intros. apply NoDup_app. split_and!; [done|set_solver|apply NoDup_singleton]. Qed.

Lemma set_primary_ok p ptr key : extras_ok p -> extras_ok (set_primary p ptr key).1.
Proof.
  intros [_ Hd]. unfold set_primary. cbn [fst]. apply trim_extras_ok.
  destruct (existsb _ _) eqn:E; [done|]. simpl. rewrite fmap_app. apply NoDup_snoc; [done|].
  by apply (not_existsb_material (mkArc ptr key)).
Qed.

Lemma add_key_ok p ptr key : extras_ok p -> extras_ok (add_key p ptr key).1.
Proof.
  intros Hp. unfold add_key. pose proof Hp as [_ Hd].
  assert (Hnew : extras_ok (match find (same_material (mkArc ptr key)) (extras p) with
    | Some existing => (p, existing)
    | None => (trim_extras (p <| extras := extras p ++ [mkArc ptr key] |>), mkArc ptr key) end).1).
  { destruct (find _ _) eqn:E; [done|]. cbn [fst]. apply trim_extras_ok. simpl. rewrite fmap_app.
    apply NoDup_snoc; [done|]. apply (not_existsb_material (mkArc ptr key)).
    apply not_true_iff_false. intros (x & Hx & Hm)%existsb_exists.
    pose proof (find_none _ _ E x Hx). congruence. }
  destruct (primary p); [|done]. by destruct (same_material _ _).
Qed.

Lemma push_ptr_unique_spec out k :
  NoDup (arc_ptr <$> out) ->
  NoDup (arc_ptr <$> push_ptr_unique out k) /\
  (length (push_ptr_unique out k) <= S (length out))%nat /\
  out ⊆ push_ptr_unique out k /\
  exists k', k' ∈ push_ptr_unique out k /\ arc_ptr k' = arc_ptr k.
Proof.
  intros Hd. unfold push_ptr_unique. destruct (existsb _ _) eqn:E.
  - apply existsb_exists in E as (k' & Hin & Hp). split_and!; [done|lia|done|].
    exists k'. split; [by apply list_elem_of_In|]. by apply Z.eqb_eq.
  - split_and!; [|rewrite length_app; simpl; lia|set_solver|exists k; set_solver].
    rewrite fmap_app. apply NoDup_snoc; [done|]. intros (x & Ex & Hx)%list_elem_of_fmap.
    rewrite <- not_true_iff_false in E. apply E, existsb_exists. exists x.
    split; [by apply list_elem_of_In|]. by apply Z.eqb_eq.
Qed.

Lemma push_opt_spec out c :
  NoDup (arc_ptr <$> out) ->
  NoDup (arc_ptr <$> push_opt out c) /\ (length (push_opt out c) <= S (length out))%nat /\
  out ⊆ push_opt out c /\
  forall k, c = Some k -> exists k', k' ∈ push_opt out c /\ arc_ptr k' = arc_ptr k.
Proof.
  intros Hd. destruct c as [k|]; simpl; [|split_and!; [done|lia|done|done]].
  destruct (push_ptr_unique_spec out k Hd) as (? & ? & ? & ?). split_and!; [done..|]. by intros ? [= <-].
Qed.

Lemma push_fold_spec l out :
  NoDup (arc_ptr <$> out) ->
  let out' := fold_left push_ptr_unique l out in
  NoDup (arc_ptr <$> out') /\ (length out' <= length l + length out)%nat /\ out ⊆ out' /\
  forall k, k ∈ l -> exists k', k' ∈ out' /\ arc_ptr k' = arc_ptr k.
Proof.
  revert out. induction l as [|x l IH]; intros out Hd; simpl; [split_and!; [done..|set_solver]|].
  destruct (push_ptr_unique_spec out x Hd) as (H1 & H2 & H3 & k' & H4 & H5).
  destruct (IH _ H1) as (I1 & I2 & I3 & I4). split_and!; [done|lia|set_solver|].
  intros k [->|Hk]%elem_of_cons; [|by apply I4]. exists k'. split; [by apply I3|done].
Qed.

(** The operations the engine performs on its pool. *)
Inductive pool_op :=
| PSetPrimary (ptr : Z) (key : bytes)
| PAddKey (ptr : Z) (key : bytes)
| PBind (peer : SocketAddr) (key : ArcKey)
| PUnbind (peer : SocketAddr)
| PPrune (tracks : SocketAddr -> bool)
| PClear.

Definition pool_step (p : CryptoPool) (op : pool_op) : CryptoPool :=
  match op with
  | PSetPrimary ptr key => (set_primary p ptr key).1
  | PAddKey ptr key => (add_key p ptr key).1
  | PBind peer key => bind_peer_key p peer key
  | PUnbind peer => unbind_peer p peer
  | PPrune tracks => prune_per_peer_orphans p tracks
  | PClear => clear_pool p
  end.

Definition pool_run (ops : list pool_op) : CryptoPool := fold_left pool_step ops new_pool.

Lemma pool_run_ok ops : extras_ok (pool_run ops).
Proof.
  unfold pool_run. assert (H : extras_ok new_pool) by (split; [apply Nat.le_0_l|constructor]).
  revert H. generalize new_pool. induction ops as [|op ops IH]; intros p Hp; [done|].
  cbn [fold_left]. apply IH. destruct op; cbn [pool_step]; auto using set_primary_ok, add_key_ok.
  split; [apply Nat.le_0_l|constructor].
Qed.

(** Trial decryption is bounded and complete: whatever happened to the pool,
    at most ten keys are tried for a source, none of them twice, and the key the
    engine would itself use towards that address is one of them. *)
Theorem keys_for_decrypt_spec (ops : list pool_op) (source : SocketAddr) :
  let p := pool_run ops in
  (length (keys_for_decrypt p source) <= 10)%nat /\
  NoDup (arc_ptr <$> keys_for_decrypt p source) /\
  forall k, key_for_dest p source = Some k ->
    exists k', k' ∈ keys_for_decrypt p source /\ arc_ptr k' = arc_ptr k.
Proof.
  intros p. pose proof (pool_run_ok ops) as [Hlen _]. fold p in Hlen. unfold keys_for_decrypt, key_for_dest.
  destruct (push_opt_spec [] (key_for_peer p source)) as (D1 & L1 & _ & M1); [constructor|].
  destruct (push_opt_spec _ (primary p) D1) as (D2 & L2 & S2 & M2).
  destruct (push_fold_spec (rev (extras p)) _ D2) as (D3 & L3 & S3 & M3).
  rewrite length_rev in L3. unfold MAX_EXTRA_KEYS in Hlen. cbn [length] in L1.
  destruct (match primary p with Some _ => _ | None => _ end) eqn:Ep.
  - split_and!; [lia|done|]. intros k Hk. apply M1.
    destruct (key_for_peer p source); [done|]. by destruct (primary p).
  - split_and!; [lia|done|]. intros k Hk.
    destruct (key_for_peer p source) as [b|] eqn:Eb; simpl in Hk.
    + simplify_eq. destruct (M1 _ eq_refl) as (k' & ? & ?). exists k'. split; [by apply S3, S2|done].
    + destruct (primary p) as [k0|]; simpl in Hk.
      * simplify_eq. destruct (M2 _ eq_refl) as (k' & ? & ?). exists k'. split; [by apply S3|done].
      * apply M3. apply last_Some_elem_of in Hk. by rewrite list_elem_of_In, <- in_rev, <- list_elem_of_In.
Qed.
