(* ===== verification/DataPlane.v ===== *)
(** * Encrypted data and control frames in the engine ([src/src/net/engine.rs])

    The engine's cryptographic state and the handlers that change it: sending
    and receiving an encrypted data frame, sealing and opening a control frame,
    and the points at which the state is cleared.  Routing lookups made by a
    handler are arguments. *)

From S2P Require Import Prelude Float Packet Crypto SizeLoss Limiter CryptoPool.

Record EngineCrypto := mkEngine {
  my_vip_u32 : Z;
  crypto_keys : CryptoPool;
  data_ciphers : gmap (Z * Z) DataPlaneAead;
  control_ciphers : gmap bytes ControlPlaneAead;
  data_send_ctr : gmap Z Z;
  data_replay : gmap Z DataReplayWindow;
  size_loss : SizeLossTable;
  ctrl_send_ctr : Z;
  ctrl_replay : CtrlReplayTable;
  ctrl_limiter : ControlRateLimiter
}.
#[export] Instance eta_EngineCrypto : Settable EngineCrypto :=
  fun r => mkEngine (my_vip_u32 r) (crypto_keys r) (data_ciphers r) (control_ciphers r)
             (data_send_ctr r) (data_replay r) (size_loss r) (ctrl_send_ctr r) (ctrl_replay r)
             (ctrl_limiter r).

(** Reduces the projections of updated engine states. *)
Ltac engine_simpl :=
  cbn [setter my_vip_u32 crypto_keys data_ciphers control_ciphers data_send_ctr data_replay size_loss
       ctrl_send_ctr ctrl_replay ctrl_limiter] in *.

Definition COUNTER_LIMIT : Z := 2 ^ 48.

(** Why a received frame is dropped. *)
Inductive drop_reason := TooShort | CryptoGate | Replayed | AuthFailed | RateLimited.

Inductive rx_outcome (A : Type) := Drop (r : drop_reason) | Deliver (a : A).
Arguments Drop {A} r.
Arguments Deliver {A} a.

Definition pair_aad (sender receiver : Z) : bytes := be_bytes 4 sender ++ be_bytes 4 receiver.

Definition ok {A E} (r : result A E) : option A := match r with Ok a => Some a | Err _ => None end.

Section engine.
Context `{HashIter} `{Aead} `{Kdf}.

Definition data_plane_primary_key (st : EngineCrypto) : option bytes :=
  material <$> primary (crypto_keys st).

Definition control_plane_cipher (st : EngineCrypto) (key : ArcKey)
    : EngineCrypto * option ControlPlaneAead :=
  match control_ciphers st !! material key with
  | Some found => (st, Some found)
  | None =>
      match ok (derive_control_plane_material (material key)) with
      | None => (st, None)
      | Some aead =>
          (st <| control_ciphers := <[material key := aead]> (control_ciphers st) |>, Some aead)
      end
  end.

(** [ctr.fetch_add(1)] and the bound check. *)
Definition next_ctrl_send_counter (ctr : Z) : Z * option Z :=
  (wrap 64 (ctr + 1), if ctr >=? COUNTER_LIMIT then None else Some ctr).

Definition data_plane_cipher (st : EngineCrypto) (sender_vip receiver_vip : Z)
    : EngineCrypto * option DataPlaneAead :=
  match data_ciphers st !! (sender_vip, receiver_vip) with
  | Some found => (st, Some found)
  | None =>
      match data_plane_primary_key st with
      | None => (st, None)
      | Some key =>
          match ok (derive_data_plane_material key sender_vip receiver_vip) with
          | None => (st, None)
          | Some aead =>
              (st <| data_ciphers := <[(sender_vip, receiver_vip) := aead]> (data_ciphers st) |>,
               Some aead)
          end
      end
  end.

Definition next_data_send_counter (st : EngineCrypto) (dest_vip : Z) : EngineCrypto * option Z :=
  let out := default 0 (data_send_ctr st !! dest_vip) in
  if out >=? COUNTER_LIMIT
  then (st <| data_send_ctr := <[dest_vip := out]> (data_send_ctr st) |>, None)
  else (st <| data_send_ctr := <[dest_vip := out + 1]> (data_send_ctr st) |>, Some out).

Definition clear_data_crypto_state (st : EngineCrypto) : EngineCrypto :=
  st <| data_ciphers := ∅ |> <| control_ciphers := ∅ |> <| data_send_ctr := ∅ |>
     <| data_replay := ∅ |> <| size_loss := clear_table (size_loss st) |>.

Definition clear_data_crypto_for_vip (st : EngineCrypto) (vip : Z) : EngineCrypto :=
  st <| data_send_ctr := delete vip (data_send_ctr st) |>
     <| data_replay := delete vip (data_replay st) |>
     <| size_loss := remove_vip (size_loss st) vip |>
     <| data_ciphers :=
          retain (fun pr _ => negb (pr.1 =? vip) && negb (pr.2 =? vip)) (data_ciphers st) |>.

Definition encrypt_framed_packet_reuse (st : EngineCrypto) (sender_vip dest_vip : Z) (payload : bytes)
    : EngineCrypto * result bytes string :=
  let (st, counter) := next_data_send_counter st dest_vip in
  match counter with
  | None => (st, Err "counter exhausted"%string)
  | Some counter =>
      let (st, aead) := data_plane_cipher st sender_vip dest_vip in
      match aead with
      | None => (st, Err "missing data-plane key"%string)
      | Some aead =>
          (st, encrypt_framed_packet_into aead counter (pair_aad sender_vip dest_vip) payload)
      end
  end.

(** The [Encrypted] arm of [handle_compact_packet]; [peer] is
    [endpoint_to_vip_u32(from)], and a delivery goes to [handle_mdat_like]. *)
Definition handle_encrypted (st : EngineCrypto) (peer : option Z) (body : bytes)
    (from_fec_recovery : bool) (now : Instant) : EngineCrypto * rx_outcome bytes :=
  if (length body <? WIRE_COUNTER_LEN + DATA_TAG_LEN)%nat then (st, Drop TooShort)
  else
    match peer with
    | None => (st, Drop CryptoGate)
    | Some peer_vip =>
        if my_vip_u32 st =? 0 then (st, Drop CryptoGate)
        else
          let counter_wire := take WIRE_COUNTER_LEN body in
          let counter := decode_wire_counter counter_wire in
          let replay_allowed :=
            match data_replay st !! peer_vip with Some w => window_allows w counter | None => true end in
          if negb replay_allowed then (st, Drop Replayed)
          else
            let (st, aead) := data_plane_cipher st peer_vip (my_vip_u32 st) in
            match aead with
            | None => (st, Drop CryptoGate)
            | Some aead =>
                match decrypt_framed_payload_into aead counter_wire
                        (pair_aad peer_vip (my_vip_u32 st)) (drop WIRE_COUNTER_LEN body) with
                | Err _ => (st, Drop AuthFailed)
                | Ok plain =>
                    let frame_len := COMPACT_HEADER_LEN + len body in
                    let w := default new_window (data_replay st !! peer_vip) in
                    let gap := replay_gap (top w) counter in
                    let st := st <| data_replay :=
                                <[peer_vip := window_commit w counter]> (data_replay st) |> in
                    let st := st <| size_loss :=
                                note_encrypted_commit (size_loss st) peer_vip frame_len gap now |> in
                    let st := if from_fec_recovery then st
                              else st <| size_loss := note_wire_obs (size_loss st) peer_vip gap 1 now |> in
                    (st, Deliver plain)
                end
            end
    end.

Definition seal_control_body (st : EngineCrypto) (key : ArcKey) (tag body : bytes)
    : EngineCrypto * option bytes :=
  let (ctr, counter) := next_ctrl_send_counter (ctrl_send_ctr st) in
  let st := st <| ctrl_send_ctr := ctr |> in
  match counter with
  | None => (st, None)
  | Some counter =>
      let (st, aead) := control_plane_cipher st key in
      match aead with
      | None => (st, None)
      | Some aead => (st, ok (seal_into aead counter (tag ++ body)))
      end
  end.

(** The key loop of [handle_signed_wrapper]: the first key that opens the frame. *)
Fixpoint try_keys (st : EngineCrypto) (keys : list ArcKey) (counter_wire sealed : bytes)
    : EngineCrypto * option (ArcKey * bytes) :=
  match keys with
  | [] => (st, None)
  | key :: keys =>
      let (st, aead) := control_plane_cipher st key in
      match aead with
      | None => try_keys st keys counter_wire sealed
      | Some aead =>
          match open_into aead counter_wire sealed with
          | Ok plain => (st, Some (key, plain))
          | Err _ => try_keys st keys counter_wire sealed
          end
      end
  end.

(** [handle_signed_wrapper] up to the call of [dispatch_control] with the inner
    tag and body. *)
Definition handle_signed_wrapper (st : EngineCrypto) (body : bytes) (from : SocketAddr) (now : Instant)
    : EngineCrypto * rx_outcome (bytes * bytes) :=
  let src_key := src_addr_key from in
  if (length body <? WIRE_COUNTER_LEN + 4 + DATA_TAG_LEN)%nat then (st, Drop AuthFailed)
  else
    let counter_wire := take WIRE_COUNTER_LEN body in
    let counter := decode_wire_counter counter_wire in
    let sealed := drop WIRE_COUNTER_LEN body in
    let (st, chosen) := try_keys st (keys_for_decrypt (crypto_keys st) from) counter_wire sealed in
    match chosen with
    | None => (st, Drop AuthFailed)
    | Some (chosen_key, plain) =>
        if (length plain <? 4)%nat then (st, Drop AuthFailed)
        else
          let (lim, allowed) := allow (ctrl_limiter st) src_key now in
          let st := st <| ctrl_limiter := lim |> in
          if negb allowed then (st, Drop RateLimited)
          else if negb (ctrl_allows (ctrl_replay st) src_key counter) then (st, Drop Replayed)
          else
            let st := st <| ctrl_replay := ctrl_commit (ctrl_replay st) src_key counter now |> in
            let st := st <| crypto_keys := bind_peer_key (crypto_keys st) from chosen_key |> in
            (st, Deliver (take 4 plain, drop 4 plain))
    end.

(** [is_signaling_tag] and [build_signed_or_plain_static]: the frame and the
    shared counter after it; an empty frame stands for failure. *)
Definition is_signaling_tag (tag : bytes) : bool :=
  bool_decide (tag ∈ [PKT_MERR; PKT_PARA_HELLO; PKT_PARA_REPLY; PKT_PARA_OK; PKT_PARA_PUNCH_ACK;
                      PKT_KPAL; PKT_HPCH; PKT_HACK]).

Definition build_signed_or_plain_static (crypto_key : option ArcKey) (ctr : Z) (tag body : bytes)
    : Z * bytes :=
  if is_signaling_tag tag then (ctr, frame_with_tag tag body)
  else
    match crypto_key with
    | None => (ctr, frame_with_tag tag body)
    | Some key =>
        let (ctr', counter) := next_ctrl_send_counter ctr in
        match counter with
        | None => (ctr', [])
        | Some counter =>
            match derive_control_plane_material (material key) with
            | Err _ => (ctr', [])
            | Ok aead =>
                match seal_into aead counter (tag ++ body) with
                | Err _ => (ctr', [])
                | Ok sealed => (ctr', frame_with_tag PKT_CTSIG sealed)
                end
            end
        end
    end.
End engine.

(** ** Ciphers

    A cached cipher is always the one the current primary key derives. *)

Definition ciphers_ok `{Kdf} (st : EngineCrypto) : Prop :=
  forall s r d, data_ciphers st !! (s, r) = Some d ->
    exists key, data_plane_primary_key st = Some key /\ derive_data_plane_material key s r = Ok d.

Section ciphers.
Context `{Aead} `{KdfLaws}.

Lemma data_plane_cipher_ok st key s r :
  ciphers_ok st -> data_plane_primary_key st = Some key ->
  exists d cs, derive_data_plane_material key s r = Ok d /\
    data_plane_cipher st s r = (st <| data_ciphers := cs |>, Some d) /\
    ciphers_ok (st <| data_ciphers := cs |>).
Proof.
  intros Hok Hk. unfold data_plane_cipher.
  destruct (data_ciphers st !! (s, r)) as [d|] eqn:E.
  - destruct (Hok _ _ _ E) as (key' & Hk' & Hd). simplify_eq.
    exists d, (data_ciphers st). by destruct st.
  - rewrite Hk. destruct (derive_data_ok key s r) as (d & Hd & _). rewrite Hd. cbn [ok].
    eexists d, _. split_and!; [done|reflexivity|]. intros s' r' d'. simpl.
    intros [[[= <- <-] <-]|[_ Hl]]%lookup_insert_Some; [by exists key|]. by apply Hok.
Qed.
End ciphers.

(** ** The anti-replay channel between two engines

    Abstractly a receiver keeps the set of counters it has accepted and accepts
    a counter that is new and less than 128 behind every accepted one. *)

Definition channel_accepts (h : list Z) (c : Z) : bool :=
  bool_decide (c ∉ h) && forallb (fun m => m - c <? 128) h.

Fixpoint channel (h : list Z) (arrivals : list (Z * bytes)) : list (rx_outcome bytes) :=
  match arrivals with
  | [] => []
  | (c, p) :: arrivals =>
      if channel_accepts h c then Deliver p :: channel (c :: h) arrivals
      else Drop Replayed :: channel h arrivals
  end.

Lemma channel_accepts_iff h c :
  (channel_accepts h c = true) <-> ((c ∉ h) /\ forall m, m ∈ h -> m - c < 128).
Proof.
  unfold channel_accepts. rewrite andb_true_iff, bool_decide_eq_true, forallb_forall.
  setoid_rewrite <- list_elem_of_In. by setoid_rewrite Z.ltb_lt.
Qed.

Lemma repr_allows_channel w h c : repr w h -> window_allows w c = channel_accepts h c.
Proof.
  intros Hr. apply Bool.eq_iff_eq_true. rewrite channel_accepts_iff. by apply repr_allows.
Qed.

Section session.
Context `{AeadLaws} `{KdfLaws}.

(** [n] frames received from one peer, one at a time. *)
Fixpoint receive_all (st : EngineCrypto) (peer : Z) (now : Instant) (bodies : list (bytes * bool))
    : EngineCrypto * list (rx_outcome bytes) :=
  match bodies with
  | [] => (st, [])
  | (body, fec) :: bodies =>
      let (st, o) := handle_encrypted st (Some peer) body fec now in
      let (st, os) := receive_all st peer now bodies in (st, o :: os)
  end.

(** Payloads sent to one peer, one at a time; [None] as soon as one fails. *)
Fixpoint send_all (st : EngineCrypto) (me dest : Z) (payloads : list bytes)
    : option (EngineCrypto * list bytes) :=
  match payloads with
  | [] => Some (st, [])
  | p :: payloads =>
      match encrypt_framed_packet_reuse st me dest p with
      | (st, Ok frame) =>
          match send_all st me dest payloads with
          | Some (st, frames) => Some (st, frame :: frames)
          | None => None
          end
      | (_, Err _) => None
      end
  end.

(** The body of the frame [d] makes of [p] under counter [c]. *)
Definition honest (d : DataPlaneAead) (aad : bytes) (c : Z) (p body : bytes) : Prop :=
  0 <= c /\ encrypt_framed_packet_into d c aad p = Ok (to_byte Encrypted :: body).

Lemma honest_body d aad c p body :
  honest d aad c p body ->
  (length body <? WIRE_COUNTER_LEN + DATA_TAG_LEN)%nat = false /\
  decode_wire_counter (take WIRE_COUNTER_LEN body) = c /\
  decrypt_framed_payload_into d (take WIRE_COUNTER_LEN body) aad (drop WIRE_COUNTER_LEN body) = Ok p.
Proof.
  intros [Hc He]. unfold encrypt_framed_packet_into in He.
  destruct (encode_wire_counter c) as [w|] eqn:Ew; [|done].
  pose proof (decode_encode_wire_counter _ _ Hc Ew) as Hdec.
  apply encode_wire_counter_Ok in Ew as [Hm ->].
  destruct (aead_encrypt _ _ _ _) as [ct tag] eqn:E. destruct (decrypt_split _ _ _ _ _ _ E) as [Hl Hd].
  assert (body = le_bytes 6 c ++ ct ++ tag) as -> by (cbn [app] in He; congruence).
  unfold WIRE_COUNTER_LEN. rewrite le_bytes_app_take, le_bytes_app_drop. split_and!; [|done|].
  - rewrite length_app, length_le_bytes. apply Nat.ltb_ge in Hl. apply Nat.ltb_ge. lia.
  - unfold decrypt_framed_payload_into. by rewrite Hl, Hd.
Qed.

(** One honest frame is accepted exactly when the channel accepts it. *)
Lemma handle_honest st key d peer h c p body fec now :
  ciphers_ok st -> data_plane_primary_key st = Some key -> my_vip_u32 st <> 0 ->
  derive_data_plane_material key peer (my_vip_u32 st) = Ok d ->
  repr (default new_window (data_replay st !! peer)) h ->
  honest d (pair_aad peer (my_vip_u32 st)) c p body ->
  exists st',
    handle_encrypted st (Some peer) body fec now
      = (st', if channel_accepts h c then Deliver p else Drop Replayed) /\
    ciphers_ok st' /\ data_plane_primary_key st' = Some key /\ my_vip_u32 st' = my_vip_u32 st /\
    repr (default new_window (data_replay st' !! peer)) (if channel_accepts h c then c :: h else h).
Proof.
  intros Hok Hk Hvip Hd Hr (Hlen & Hdec & Hopen)%honest_body. unfold handle_encrypted.
  rewrite Hlen, (proj2 (Z.eqb_neq _ _) Hvip), Hdec.
  assert (Hall : match data_replay st !! peer with Some w => window_allows w c | None => true end
                 = channel_accepts h c).
  { destruct (data_replay st !! peer); simpl in Hr; [by apply repr_allows_channel|].
    symmetry. by rewrite <- (repr_allows_channel new_window). }
  rewrite Hall. destruct (channel_accepts h c); cbn [negb]; [|by exists st].
  destruct (data_plane_cipher_ok st key peer (my_vip_u32 st) Hok Hk) as (d' & cs & Hd' & -> & Hok').
  assert (d' = d) as -> by congruence. engine_simpl. rewrite Hopen.
  eexists. split; [reflexivity|].
  destruct fec; (split_and!; [exact Hok'|exact Hk|done|]);
    engine_simpl; rewrite lookup_insert_eq; by apply commit_repr.
Qed.

Lemma receive_all_channel key d peer now arrivals st h :
  ciphers_ok st -> data_plane_primary_key st = Some key -> my_vip_u32 st <> 0 ->
  derive_data_plane_material key peer (my_vip_u32 st) = Ok d ->
  repr (default new_window (data_replay st !! peer)) h ->
  Forall (fun '(c, p, (body, _)) => honest d (pair_aad peer (my_vip_u32 st)) c p body) arrivals ->
  (receive_all st peer now arrivals.*2).2 = channel h arrivals.*1.
Proof.
  revert st h. induction arrivals as [|[[c p] [body fec]] arrivals IH]; intros st h Hok Hk Hvip Hd Hr Hall; [done|].
  apply Forall_cons in Hall as [Hh Hall]. rewrite !fmap_cons. cbn [fst snd receive_all channel].
  destruct (handle_honest st key d peer h c p body fec now Hok Hk Hvip Hd Hr Hh)
    as (st' & -> & Hok' & Hk' & Hv' & Hr').
  specialize (IH st' (if channel_accepts h c then c :: h else h) Hok' Hk').
  rewrite Hv' in IH. specialize (IH Hvip Hd Hr' Hall).
  destruct (receive_all st' peer now arrivals.*2) as [st'' os]. cbn [snd] in *. rewrite IH.
  by destruct (channel_accepts h c).
Qed.

Lemma encrypt_reuse_ok st key me dest p :
  ciphers_ok st -> data_plane_primary_key st = Some key ->
  0 <= default 0 (data_send_ctr st !! dest) < COUNTER_LIMIT ->
  exists st' d body,
    encrypt_framed_packet_reuse st me dest p = (st', Ok (to_byte Encrypted :: body)) /\
    derive_data_plane_material key me dest = Ok d /\
    honest d (pair_aad me dest) (default 0 (data_send_ctr st !! dest)) p body /\
    ciphers_ok st' /\ data_plane_primary_key st' = Some key /\
    data_send_ctr st' = <[dest := default 0 (data_send_ctr st !! dest) + 1]> (data_send_ctr st).
Proof.
  intros Hok Hk Hc. set (c := default 0 _) in *. unfold encrypt_framed_packet_reuse, next_data_send_counter.
  fold c. rewrite Z.geb_leb, (proj2 (Z.leb_gt _ _)) by lia.
  destruct (data_plane_cipher_ok (st <| data_send_ctr := <[dest := c + 1]> (data_send_ctr st) |>) key me dest)
    as (d & cs & Hd & -> & Hok'); [done|done|].
  pose proof (data_frame_ok d c (pair_aad me dest) p ltac:(unfold COUNTER_LIMIT, DATA_REPLAY_MAX_COUNTER in *; lia)) as (body & Hb).
  eexists _, d, body. rewrite Hb. split_and!; [reflexivity|done| |exact Hok'|exact Hk|done].
  split; [lia|done].
Qed.

(** The counter and the frame of each payload, from the first counter on. *)
Definition sent (d : DataPlaneAead) (aad : bytes) (c0 : Z) (payloads frames : list bytes) : Prop :=
  length frames = length payloads /\
  forall (i : nat) p f, payloads !! i = Some p -> frames !! i = Some f ->
    exists body, f = to_byte Encrypted :: body /\ honest d aad (c0 + Z.of_nat i) p body.

Lemma send_all_ok key d me dest payloads st c0 :
  ciphers_ok st -> data_plane_primary_key st = Some key ->
  derive_data_plane_material key me dest = Ok d ->
  default 0 (data_send_ctr st !! dest) = c0 -> 0 <= c0 -> c0 + len payloads <= COUNTER_LIMIT ->
  exists st' frames, send_all st me dest payloads = Some (st', frames) /\
    sent d (pair_aad me dest) c0 payloads frames.
Proof.
  intros Hok Hk Hd. revert st c0 Hok Hk. induction payloads as [|p payloads IH]; intros st c0 Hok Hk Hc Hc0 Hlim.
  - exists st, []. split; [done|]. split; [done|]. by intros [].
  - rewrite len_cons in Hlim. pose proof (len_nonneg payloads). cbn [send_all].
    destruct (encrypt_reuse_ok st key me dest p Hok Hk) as (st1 & d1 & body & -> & Hd1 & Hh & Hok1 & Hk1 & Hs1);
      [rewrite Hc; lia|]. rewrite Hc in Hh, Hs1. assert (d1 = d) as -> by congruence.
    destruct (IH st1 (c0 + 1)) as (st2 & frames & -> & Hl & Hf); [done|done| |lia|lia|].
    { rewrite Hs1, lookup_insert_eq. done. }
    exists st2, ((to_byte Encrypted :: body) :: frames). split; [done|]. split; [simpl; lia|].
    intros [|i] q f; simpl; [intros [= <-] [= <-]; exists body; by rewrite Z.add_0_r|].
    intros Hq Hff. destruct (Hf i q f Hq Hff) as (b & -> & Hb). exists b. split; [done|].
    by replace (c0 + Z.of_nat (S i)) with (c0 + 1 + Z.of_nat i) by lia.
Qed.
End session.

(** ** Frames from anyone *)

Section adversary.
Context `{AeadLaws} `{KdfLaws}.

(** A frame as it reaches the handler: the peer its address resolves to, its
    body, whether FEC recovered it, and the time. *)
Definition rx_event : Type := option Z * bytes * bool * Instant.

(** Delivered packets: peer, counter and plaintext. *)
Fixpoint deliveries (st : EngineCrypto) (events : list rx_event) : list (Z * Z * bytes) :=
  match events with
  | [] => []
  | (peer, body, fec, now) :: events =>
      match handle_encrypted st peer body fec now with
      | (st, Deliver p) =>
          match peer with
          | Some v => (v, decode_wire_counter (take WIRE_COUNTER_LEN body), p) :: deliveries st events
          | None => deliveries st events
          end
      | (st, Drop _) => deliveries st events
      end
  end.

(** [p] was sealed by a holder of the key of the direction [peer] to [me]. *)
Definition authentic (key : bytes) (peer me c : Z) (p body : bytes) : Prop :=
  exists d wire, derive_data_plane_material key peer me = Ok d /\
    decode_wire_counter wire = c /\
    let ct := aead_encrypt (da_key d) (nonce_from_counter (da_salt d) wire) (pair_aad peer me) p in
    body = wire ++ ct.1 ++ ct.2.

(** What one arbitrary frame does to the receiver. *)
Lemma handle_encrypted_cases st key peer body fec now st' o :
  ciphers_ok st -> data_plane_primary_key st = Some key ->
  handle_encrypted st peer body fec now = (st', o) ->
  ciphers_ok st' /\ data_plane_primary_key st' = Some key /\ my_vip_u32 st' = my_vip_u32 st /\
  match o with
  | Drop _ => data_replay st' = data_replay st
  | Deliver p =>
      exists v, let c := decode_wire_counter (take WIRE_COUNTER_LEN body) in
        let w := default new_window (data_replay st !! v) in
        peer = Some v /\ window_allows w c = true /\
        data_replay st' = <[v := window_commit w c]> (data_replay st) /\
        authentic key v (my_vip_u32 st) c p body
  end.
Proof.
  intros Hok Hk. unfold handle_encrypted.
  destruct (_ <? _)%nat; [by intros [= <- <-]|]. destruct peer as [v|]; [|by intros [= <- <-]].
  destruct (_ =? 0); [by intros [= <- <-]|]. set (c := decode_wire_counter _).
  assert (Hall : match data_replay st !! v with Some w => window_allows w c | None => true end
    = window_allows (default new_window (data_replay st !! v)) c) by (by destruct (data_replay st !! v)).
  rewrite Hall. destruct (window_allows _ c) eqn:Ea; cbn [negb]; [|by intros [= <- <-]].
  destruct (data_plane_cipher_ok st key v (my_vip_u32 st) Hok Hk) as (d & cs & Hd & -> & Hok').
  engine_simpl. unfold decrypt_framed_payload_into.
  destruct (_ <? DATA_TAG_LEN)%nat eqn:El; [by intros [= <- <-]|].
  destruct (aead_decrypt _ _ _ _ _) as [p|] eqn:E; [|by intros [= <- <-]].
  intros [= <- <-]. apply decrypt_split_inv in E; [|done].
  destruct fec; (split_and!; [exact Hok'|exact Hk|done|]); exists v;
    (split_and!; [done|done|done|]); exists d, (take WIRE_COUNTER_LEN body);
    (split_and!; [done|done|]); cbv zeta; rewrite <- E; by rewrite take_drop.
Qed.

Lemma deliveries_spec key events st hist :
  ciphers_ok st -> data_plane_primary_key st = Some key ->
  (forall v, repr (default new_window (data_replay st !! v)) (hist v)) ->
  NoDup (deliveries st events).*1 /\
  forall v c p, (v, c, p) ∈ deliveries st events ->
    (c ∉ hist v) /\ exists body fec now, (Some v, body, fec, now) ∈ events /\
      authentic key v (my_vip_u32 st) c p body.
Proof.
  revert st hist. induction events as [|[[[peer body] fec] now] events IH]; intros st hist Hok Hk Hr.
  { split; [constructor|]. by intros v c p Hin%elem_of_nil. }
  cbn [deliveries]. destruct (handle_encrypted st peer body fec now) as [st' o] eqn:E.
  destruct (handle_encrypted_cases st key peer body fec now st' o Hok Hk E) as (Hok' & Hk' & Hv & Ho).
  assert (Hmono : forall v c p evs,
    (exists body fec now, (Some v, body, fec, now) ∈ events /\ authentic key v (my_vip_u32 st') c p body) ->
    exists body fec now, (Some v, body, fec, now) ∈ (evs : rx_event) :: events /\ authentic key v (my_vip_u32 st) c p body).
  { intros v c p ev (b & f & n & Hin & Ha). rewrite Hv in Ha. exists b, f, n. split; [by apply elem_of_cons; right|done]. }
  destruct o as [r|p0].
  - destruct (IH st' hist Hok' Hk') as [Hnd Hin]; [by rewrite Ho|]. split; [done|].
    intros v c p Hd. destruct (Hin v c p Hd). eauto.
  - destruct Ho as (v0 & -> & Ha & Hrep & Hauth). set (c0 := decode_wire_counter _) in *.
    pose proof (proj1 (repr_allows _ _ _ (Hr v0)) Ha) as [Hfresh _].
    destruct (IH st' (fun v => if decide (v = v0) then c0 :: hist v else hist v) Hok' Hk') as [Hnd Hin].
    { intros v. rewrite Hrep. case_decide as Hd; [subst v; rewrite lookup_insert_eq; by apply commit_repr|].
      by rewrite lookup_insert_ne by done. }
    split.
    + rewrite fmap_cons. constructor; [|done]. intros ([[v c] p] & [= <- <-] & Hd)%list_elem_of_fmap.
      apply Hin in Hd as [Hd _]. rewrite decide_True in Hd by done. set_solver.
    + intros v c p [[= -> -> ->]|Hd]%elem_of_cons.
      * split; [done|]. exists body, fec, now. split; [by apply elem_of_cons; left|done].
      * apply Hin in Hd as [Hd ?]. split; [|eauto]. case_decide; set_solver.
Qed.
End adversary.

(** C2. Anti-replay and authenticity of the data plane: whatever frames arrive, in
    whatever order and however often, from the moment its replay state is empty a
    receiver delivers no counter of a peer twice, and every packet it delivers
    arrived in a frame sealed, under that counter, with the key derived for the
    direction from that peer to itself. *)
Theorem data_plane_at_most_once `{AeadLaws} `{KdfLaws}
    (st : EngineCrypto) (key : bytes) (events : list rx_event) :
  ciphers_ok st -> data_plane_primary_key st = Some key -> data_replay st = ∅ ->
  NoDup (deliveries st events).*1 /\
  forall v c p, (v, c, p) ∈ deliveries st events ->
    exists body fec now, (Some v, body, fec, now) ∈ events /\
      authentic key v (my_vip_u32 st) c p body.
Proof.
  intros Hok Hk He. destruct (deliveries_spec key events st (fun _ => []) Hok Hk) as [Hnd Hin].
  { intros v. by rewrite He, lookup_empty. }
  split; [done|]. intros v c p Hd. by apply Hin.
Qed.

(** The body of the [i]-th frame, without its kind byte. *)
Definition frame_body (frames : list bytes) (i : nat) : bytes := tail (default [] (frames !! i)).

(** C1. Refinement of a data session: two engines that hold the same primary key,
    one sending payloads to the other.  Sending never fails below the 48-bit
    counter limit; and however the network reorders, repeats or loses the frames
    ([arrivals] lists the frames that arrive, by index), the receiver's handler
    delivers exactly what the abstract anti-replay channel delivers: every frame
    whose counter is new and inside the 128-frame window, with its payload. *)
Theorem data_session_refines_channel `{AeadLaws} `{KdfLaws}
    (stA stB : EngineCrypto) (key : bytes) (me c0 : Z) (payloads : list bytes)
    (arrivals : list (nat * bool)) (now : Instant) :
  let dest := my_vip_u32 stB in
  ciphers_ok stA -> data_plane_primary_key stA = Some key ->
  ciphers_ok stB -> data_plane_primary_key stB = Some key -> dest <> 0 ->
  default 0 (data_send_ctr stA !! dest) = c0 -> 0 <= c0 -> c0 + len payloads <= COUNTER_LIMIT ->
  data_replay stB !! me = None ->
  Forall (fun a => (a.1 < length payloads)%nat) arrivals ->
  exists stA' frames, send_all stA me dest payloads = Some (stA', frames) /\
    (receive_all stB me now ((fun a => (frame_body frames a.1, a.2)) <$> arrivals)).2
    = channel [] ((fun a => (c0 + Z.of_nat a.1, default [] (payloads !! a.1))) <$> arrivals).
Proof.
  intros dest HokA HkA HokB HkB Hd0 Hc Hc0 Hlim Hr Harr.
  destruct (derive_data_ok key me dest) as (d & Hd & _).
  destruct (send_all_ok key d me dest payloads stA c0) as (stA' & frames & Hs & Hl & Hf); [done..|].
  exists stA', frames. split; [done|].
  set (tr := (fun a : nat * bool => ((c0 + Z.of_nat a.1, default [] (payloads !! a.1)),
                                     (frame_body frames a.1, a.2))) <$> arrivals).
  assert (E1 : (fun a => (frame_body frames a.1, a.2)) <$> arrivals = tr.*2)
    by (unfold tr; by rewrite <- list_fmap_compose).
  assert (E2 : (fun a => (c0 + Z.of_nat a.1, default [] (payloads !! a.1))) <$> arrivals = tr.*1)
    by (unfold tr; by rewrite <- list_fmap_compose).
  rewrite E1, E2. apply (receive_all_channel key d); [done..|by rewrite Hr|].
  unfold tr. apply Forall_fmap. eapply Forall_impl; [done|]. intros [i fec] Hi. simpl in Hi |- *.
  destruct (lookup_lt_is_Some_2 payloads i Hi) as [p Hp].
  destruct (lookup_lt_is_Some_2 frames i ltac:(lia)) as [f Hff].
  destruct (Hf i p f Hp Hff) as (body & -> & Hh). unfold frame_body. by rewrite Hp, Hff.
Qed.

(** A fresh engine with a primary key. *)
Definition fresh_engine (vip : Z) (key : bytes) : EngineCrypto :=
  mkEngine vip (set_primary new_pool 1 key).1 ∅ ∅ ∅ ∅ ∅ 0 new_ctrl_replay
    (new_limiter (f64_of_Z 400) (f64_of_Z 400) 0).

Lemma fresh_engine_ok `{Kdf} vip key :
  ciphers_ok (fresh_engine vip key) /\ data_plane_primary_key (fresh_engine vip key) = Some key.
Proof. split; [|done]. intros s r d. simpl. by rewrite lookup_empty. Qed.

Lemma data_plane_at_most_once_witness :
  NoDup (@deliveries Toy.toy_aead Toy.toy_kdf (fresh_engine 2 [5]) [(Some 1, [0; 0], false, 0)]).*1.
Proof.
  apply (@data_plane_at_most_once Toy.toy_aead Toy.toy_aead_laws Toy.toy_kdf Toy.toy_kdf_laws
           (fresh_engine 2 [5]) [5]); [apply fresh_engine_ok|reflexivity|reflexivity].
Defined.

Lemma data_session_refines_channel_witness :
  exists stA' frames,
    @send_all Toy.toy_aead Toy.toy_kdf (fresh_engine 1 [5]) 1 2 [[10]; [11]] = Some (stA', frames) /\
    (@receive_all Toy.toy_aead Toy.toy_kdf (fresh_engine 2 [5]) 1 0
       ((fun a => (frame_body frames a.1, a.2)) <$> [(1%nat, false); (0%nat, false); (1%nat, false)])).2
    = [Deliver [11]; Deliver [10]; Drop Replayed].
Proof.
  apply (@data_session_refines_channel Toy.toy_aead Toy.toy_aead_laws Toy.toy_kdf Toy.toy_kdf_laws
           (fresh_engine 1 [5]) (fresh_engine 2 [5]) [5] 1 0 [[10]; [11]]
           [(1%nat, false); (0%nat, false); (1%nat, false)] 0);
    first [apply fresh_engine_ok | reflexivity | done | (vm_compute; congruence) | (repeat constructor; simpl; lia)].
Defined.

(** ** Nonces of a sender *)

(** A session never repeats a nonce: the frames of any run of sends to one
    peer carry pairwise different counters, hence pairwise different nonces under
    the key of that direction. *)
Theorem session_counters_distinct `{AeadLaws} `{KdfLaws}
    (st : EngineCrypto) (key : bytes) (me dest : Z) (payloads : list bytes) :
  ciphers_ok st -> data_plane_primary_key st = Some key ->
  0 <= default 0 (data_send_ctr st !! dest) ->
  default 0 (data_send_ctr st !! dest) + len payloads <= COUNTER_LIMIT ->
  exists st' frames, send_all st me dest payloads = Some (st', frames) /\
    length frames = length payloads /\
    NoDup ((fun f => take WIRE_COUNTER_LEN (tail f)) <$> frames).
Proof.
  intros Hok Hk Hc Hlim. destruct (derive_data_ok key me dest) as (d & Hd & _).
  destruct (send_all_ok key d me dest payloads st _ Hok Hk Hd eq_refl Hc Hlim) as (st' & frames & Hs & Hl & Hf).
  exists st', frames. split_and!; [done..|]. apply NoDup_alt. intros i j w Hi Hj.
  rewrite list_lookup_fmap in Hi, Hj.
  destruct (frames !! i) as [f|] eqn:Ei; simplify_eq/=. destruct (frames !! j) as [g|] eqn:Ej; simplify_eq/=.
  destruct (lookup_lt_is_Some_2 payloads i) as [p Hp]; [rewrite <- Hl; by eapply lookup_lt_Some|].
  destruct (lookup_lt_is_Some_2 payloads j) as [q Hq]; [rewrite <- Hl; by eapply lookup_lt_Some|].
  destruct (Hf i p f Hp Ei) as (b1 & -> & (_ & D1 & _)%honest_body).
  destruct (Hf j q g Hq Ej) as (b2 & -> & (_ & D2 & _)%honest_body).
  simpl in Hj. rewrite Hj in D2. lia.
Qed.

Lemma session_counters_distinct_witness :
  exists st' frames,
    @send_all Toy.toy_aead Toy.toy_kdf (fresh_engine 1 [5]) 1 2 [[10]; [11]] = Some (st', frames) /\
    length frames = 2%nat /\ NoDup ((fun f => take WIRE_COUNTER_LEN (tail f)) <$> frames).
Proof.
  apply (@session_counters_distinct Toy.toy_aead Toy.toy_aead_laws Toy.toy_kdf Toy.toy_kdf_laws
           (fresh_engine 1 [5]) [5] 1 2 [[10]; [11]]);
    first [apply fresh_engine_ok | done | (vm_compute; congruence)].
Defined.

(** The counter does not survive a route removal: when a peer's route goes and
    [clear_data_crypto_for_vip] runs, the next packet to the same VIP is sealed
    with the very key and nonce of the first packet of the session before. *)
Theorem route_removal_repeats_nonce `{AeadLaws} `{KdfLaws}
    (st : EngineCrypto) (key : bytes) (me dest : Z) (p q : bytes) :
  ciphers_ok st -> data_plane_primary_key st = Some key -> data_send_ctr st !! dest = None ->
  exists d st1 st2 body1 body2,
    derive_data_plane_material key me dest = Ok d /\
    encrypt_framed_packet_reuse st me dest p = (st1, Ok (to_byte Encrypted :: body1)) /\
    encrypt_framed_packet_reuse (clear_data_crypto_for_vip st1 dest) me dest q
      = (st2, Ok (to_byte Encrypted :: body2)) /\
    honest d (pair_aad me dest) 0 p body1 /\ honest d (pair_aad me dest) 0 q body2.
Proof.
  intros Hok Hk Hn.
  destruct (encrypt_reuse_ok st key me dest p Hok Hk) as (st1 & d & b1 & E1 & Hd & Hh1 & Hok1 & Hk1 & _);
    [rewrite Hn; done|]. rewrite Hn in Hh1.
  set (st1' := clear_data_crypto_for_vip st1 dest).
  assert (Hn' : data_send_ctr st1' !! dest = None) by apply lookup_delete_eq.
  destruct (encrypt_reuse_ok st1' key me dest q) as (st2 & d' & b2 & E2 & Hd' & Hh2 & _).
  - intros s r x [Hl _]%lookup_retain. by apply (Hok1 s r).
  - done.
  - by rewrite Hn'.
  - rewrite Hn' in Hh2. assert (d' = d) as -> by congruence. by exists d, st1, st2, b1, b2.
Qed.

Lemma route_removal_repeats_nonce_witness :
  exists d st1 st2 body1 body2,
    @derive_data_plane_material Toy.toy_kdf [5] 1 2 = Ok d /\
    @encrypt_framed_packet_reuse Toy.toy_aead Toy.toy_kdf (fresh_engine 1 [5]) 1 2 [10]
      = (st1, Ok (to_byte Encrypted :: body1)) /\
    @encrypt_framed_packet_reuse Toy.toy_aead Toy.toy_kdf (clear_data_crypto_for_vip st1 2) 1 2 [11]
      = (st2, Ok (to_byte Encrypted :: body2)) /\
    @honest Toy.toy_aead d (pair_aad 1 2) 0 [10] body1 /\ @honest Toy.toy_aead d (pair_aad 1 2) 0 [11] body2.
Proof.
  apply (@route_removal_repeats_nonce Toy.toy_aead Toy.toy_aead_laws Toy.toy_kdf Toy.toy_kdf_laws
           (fresh_engine 1 [5]) [5] 1 2 [10] [11]); first [apply fresh_engine_ok | done].
Defined.

(** ** Control plane *)

Definition control_ciphers_ok `{Kdf} (st : EngineCrypto) : Prop :=
  forall m d, control_ciphers st !! m = Some d -> derive_control_plane_material m = Ok d.

Section control.
Context `{HashIter} `{AeadLaws} `{KdfLaws}.

Lemma control_plane_cipher_ok st key :
  control_ciphers_ok st ->
  exists d cs, derive_control_plane_material (material key) = Ok d /\
    control_plane_cipher st key = (st <| control_ciphers := cs |>, Some d) /\
    control_ciphers_ok (st <| control_ciphers := cs |>).
Proof.
  intros Hok. unfold control_plane_cipher.
  destruct (control_ciphers st !! material key) as [d|] eqn:E.
  - exists d, (control_ciphers st). split_and!; [by apply Hok| |]; by destruct st.
  - destruct (derive_ctrl_ok (material key)) as (d & Hd & _). rewrite Hd. cbn [ok].
    eexists d, _. split_and!; [done|reflexivity|]. intros m d'. engine_simpl.
    intros [[<- <-]|[_ Hl]]%lookup_insert_Some; [done|]. by apply Hok.
Qed.

(** [sealed] opens to [plain] under the control key of [key] and counter field [wire]. *)
Definition sealed_by (key : ArcKey) (wire plain sealed : bytes) : Prop :=
  exists d, derive_control_plane_material (material key) = Ok d /\
    let ct := aead_encrypt (ca_key d) (nonce_from_counter (ca_salt d) wire) CTRL_AAD plain in
    sealed = ct.1 ++ ct.2.

Lemma try_keys_spec keys st wire sealed :
  control_ciphers_ok st ->
  exists cs, let (st', r) := try_keys st keys wire sealed in
    st' = st <| control_ciphers := cs |> /\ control_ciphers_ok st' /\
    forall key plain, r = Some (key, plain) -> key ∈ keys /\ sealed_by key wire plain sealed.
Proof.
  revert st. induction keys as [|key keys IH]; intros st Hok.
  { exists (control_ciphers st). split_and!; [by destruct st|done|done]. }
  cbn [try_keys]. destruct (control_plane_cipher_ok st key Hok) as (d & cs & Hd & -> & Hok').
  unfold open_into. destruct (_ <? DATA_TAG_LEN)%nat eqn:El.
  - destruct (IH _ Hok') as (cs' & Hr). exists cs'. destruct (try_keys _ keys wire sealed) as [st' r].
    destruct Hr as (-> & ? & Hr). split_and!; [by destruct st|done|].
    intros k p Hkp. destruct (Hr k p Hkp). split; [by apply elem_of_cons; right|done].
  - destruct (aead_decrypt _ _ _ _ _) as [plain|] eqn:E.
    + exists cs. split_and!; [done..|]. intros k p [= <- <-]. split; [by apply elem_of_cons; left|].
      exists d. split; [done|]. by apply decrypt_split_inv.
    + destruct (IH _ Hok') as (cs' & Hr). exists cs'. destruct (try_keys _ keys wire sealed) as [st' r].
      destruct Hr as (-> & ? & Hr). split_and!; [by destruct st|done|].
      intros k p Hkp. destruct (Hr k p Hkp). split; [by apply elem_of_cons; right|done].
Qed.

(** The replay table is within its bound. *)
Definition ctrl_table_ok (t : CtrlReplayTable) : Prop :=
  0 < max_sources t /\ Z.of_nat (size (sources t)) <= max_sources t.

End control.


(** Control frames of a network share key and nonce: the control key depends
    on the network key alone and every engine starts its counter at zero, so the
    first control frames of any two members are sealed with the same key and the
    same nonce. *)
Theorem members_share_control_nonce `{AeadLaws} `{KdfLaws}
    (vip1 vip2 : Z) (key tag1 body1 tag2 body2 : bytes) :
  exists d, derive_control_plane_material key = Ok d /\
    forall vip tag body, (vip, tag, body) ∈ [(vip1, tag1, body1); (vip2, tag2, body2)] ->
      let k := mkArc 1 key in
      let nonce := nonce_from_counter (ca_salt d) (le_bytes 6 0) in
      let ct := aead_encrypt (ca_key d) nonce CTRL_AAD (tag ++ body) in
      (seal_control_body (fresh_engine vip key) k tag body).2 = Some (le_bytes 6 0 ++ ct.1 ++ ct.2).
Proof.
  destruct (derive_ctrl_ok key) as (d & Hd & _). exists d. split; [done|]. intros vip tag body _ k nonce ct.
  unfold seal_control_body, next_ctrl_send_counter. cbn [fresh_engine ctrl_send_ctr].
  change (0 >=? COUNTER_LIMIT) with false. cbv iota. unfold control_plane_cipher. simpl control_ciphers.
  rewrite lookup_empty. cbn [material k]. rewrite Hd. cbn [ok snd]. unfold seal_into.
  change (encode_wire_counter 0) with (@Ok bytes string (le_bytes 6 0)). unfold ct, nonce.
  by destruct (aead_encrypt _ _ _ _).
Qed.

Lemma members_share_control_nonce_witness :
  exists d, @derive_control_plane_material Toy.toy_kdf [5] = Ok d /\
    forall vip tag body, (vip, tag, body) ∈ [(1, PKT_CLG, [1]); (2, PKT_LEAVE, [2])] ->
      let k := mkArc 1 [5] in
      let nonce := nonce_from_counter (ca_salt d) (le_bytes 6 0) in
      let ct := @aead_encrypt Toy.toy_aead (ca_key d) nonce CTRL_AAD (tag ++ body) in
      (@seal_control_body Toy.toy_aead Toy.toy_kdf (fresh_engine vip [5]) k tag body).2
        = Some (le_bytes 6 0 ++ ct.1 ++ ct.2).
Proof.
  exact (@members_share_control_nonce Toy.toy_aead Toy.toy_aead_laws Toy.toy_kdf Toy.toy_kdf_laws
           1 2 [5] PKT_CLG [1] PKT_LEAVE [2]).
Defined.
