(* ===== verification/Claim.v ===== *)
(** * Self-claimed virtual addresses ([src/src/net/claim.rs])

    Members of a network choose their own VIP inside the [/24] derived from the
    network key; a clash is settled by comparing node ids. *)

From S2P Require Import Prelude Text Packet Crypto.

(** ** Conflicts *)

Definition node_id_wins (local_node_id remote_node_id : string) : bool :=
  str_lt local_node_id remote_node_id.

Definition local_loses_vip_conflict (local_node_id remote_node_id : string) : bool :=
  negb (node_id_wins local_node_id remote_node_id)
  && negb (bool_decide (local_node_id = remote_node_id)).

(** ** Validity *)

(** [Ipv4Addr::octets]. *)
Definition octets (ip : Z) : Z * Z * Z * Z :=
  (ip / 16777216 mod 256, ip / 65536 mod 256, ip / 256 mod 256, ip mod 256).

Definition claim_vip_valid (vip : string) : bool :=
  match parse_ipv4 (str_bytes vip) with
  | None => false
  | Some ip =>
      match octets ip with
      | (a, b, c, d) =>
          negb (ip =? 0)                                 (* is_unspecified *)
          && negb (ip =? U32_MAX)                        (* is_broadcast *)
          && negb ((224 <=? a) && (a <=? 239))           (* is_multicast *)
          && negb (a =? 127)                             (* is_loopback *)
          && negb (d =? 0) && negb (d =? 255)
      end
  end.

(** ** Picking an address *)

Definition fmt_vip (a b c d : Z) : string := bytes_str (fmt_octets a b c d).

Definition base_octets (base_vip : string) : list Z :=
  omap (parse_uint U8_MAX) (split_on 46 (str_bytes base_vip)).

Definition pick_start (d : Z) : Z := wrap 16 (wrap 16 (d * 37) + 17) mod 254.

Definition pick_host (start offset : Z) : Z := (start + offset) mod 254 + 1.

Definition pick_free_vip (base_vip : string) (occupied : string -> bool) : option string :=
  match base_octets base_vip with
  | [a; b; c; d] =>
      let start := pick_start d in
      find (fun cand => negb (occupied cand))
        (map (fun offset => fmt_vip a b c (pick_host start offset)) (seqZ 0 254))
  | _ => None
  end.

Section unit.
Context `{Kdf}.

Definition vip_in_floatunit_subnet (key : bytes) (vip : string) : bool :=
  if negb (claim_vip_valid vip) then false
  else
    match parse_ipv4 (str_bytes vip) with
    | None => false
    | Some ip =>
        match octets ip, derive_floatunit_subnet24 key with
        | (o0, o1, o2, _), (p0, p1, p2) => (o0 =? p0) && (o1 =? p1) && (o2 =? p2)
        end
    end.

(** [draws] are the numbers the random generator yields in [1..=254]. *)
Definition random_member_vip_in_unit (key : bytes) (draws : list Z) : string :=
  match derive_floatunit_subnet24 key with
  | (p0, p1, p2) =>
      match find claim_vip_valid (map (fun h => fmt_vip p0 p1 p2 h) (take 32 draws)) with
      | Some cand => cand
      | None =>
          default (fmt_vip p0 p1 p2 2)
            (pick_free_vip (floatunit_subnet_base_vip key) (fun _ => false))
      end
  end.

Definition resolve_member_vip (key : bytes) (existing : string) (draws : list Z) : string * bool :=
  let existing := trim_str existing in
  if negb (bool_decide (existing = EmptyString)) && vip_in_floatunit_subnet key existing
  then (existing, false)
  else (random_member_vip_in_unit key draws, true).

Definition accept_wire_claim_vip (unit_key : option bytes) (vip : string) : bool :=
  match unit_key with
  | Some k => vip_in_floatunit_subnet k vip
  | None => claim_vip_valid vip
  end.

Definition member_host_vip (key : bytes) (host : Z) : string :=
  match derive_floatunit_subnet24 key with
  | (p0, p1, p2) => fmt_vip p0 p1 p2 (if (host =? 0) || (host =? 255) then 1 else host)
  end.

Definition member_host_ipv4 (key : bytes) (host : Z) : Z :=
  default (be_val [10; 0; 0; 1]) (parse_ipv4 (str_bytes (member_host_vip key host))).
End unit.

(** ** Theorems *)

(** Conflicts are decided the same way on both sides: of two different nodes
    exactly one loses, and a node never loses against itself. *)
Theorem vip_conflict_one_loser (a b : string) :
  (a <> b -> local_loses_vip_conflict a b = negb (local_loses_vip_conflict b a)) /\
  local_loses_vip_conflict a a = false.
Proof.
  unfold local_loses_vip_conflict, node_id_wins. split.
  - intros Hne. rewrite !bool_decide_false by congruence. rewrite !andb_true_r.
    destruct (str_lt_trichotomy a b) as [E|[->|E]]; [|done|]; by rewrite E, (str_lt_asym _ _ E).
  - by rewrite (bool_decide_true (a = a)), andb_false_r by done.
Qed.

Lemma be_val_octets a b c d :
  byte_ok a -> byte_ok b -> byte_ok c -> byte_ok d -> octets (be_val [a; b; c; d]) = (a, b, c, d).
Proof.
  unfold byte_ok, octets, be_val. intros. cbn [rev app le_val].
  replace (d + 256 * (c + 256 * (b + 256 * (a + 256 * 0))))
    with (((a * 256 + b) * 256 + c) * 256 + d) by lia.
  set (x := (a * 256 + b) * 256 + c). set (y := a * 256 + b) in *.
  assert (E1 : (x * 256 + d) / 256 = x) by (rewrite Z.div_add_l, Z.div_small by lia; lia).
  assert (E2 : (x * 256 + d) / 65536 = y).
  { change 65536 with (256 * 256). rewrite <- Z.div_div, E1 by lia. unfold x.
    rewrite Z.div_add_l, Z.div_small by lia. lia. }
  assert (E3 : (x * 256 + d) / 16777216 = a).
  { change 16777216 with (65536 * 256). rewrite <- Z.div_div, E2 by lia. unfold y.
    rewrite Z.div_add_l, Z.div_small by lia. lia. }
  rewrite E1, E2, E3. unfold x, y.
  rewrite (Z.mod_small a), !(Z.add_comm (_ * 256)), !Z.mod_add, !Z.mod_small by lia. done.
Qed.

Lemma fmt_vip_parse a b c d :
  byte_ok a -> byte_ok b -> byte_ok c -> byte_ok d ->
  parse_ipv4 (str_bytes (fmt_vip a b c d)) = Some (be_val [a; b; c; d]).
Proof.
  intros. unfold fmt_vip. unfold byte_ok in *.
  rewrite str_bytes_str by (apply fmt_octets_bytes_ok; lia). by apply fmt_octets_parse.
Qed.

Lemma fmt_dec_no_dot n : 0 <= n -> Forall (fun b => b <> 46) (fmt_dec n).
Proof. intros. eapply Forall_impl; [by apply fmt_dec_digits|]. simpl. lia. Qed.

(** Splitting a formatted address gives its octets back. *)
Lemma base_octets_fmt a b c d :
  byte_ok a -> byte_ok b -> byte_ok c -> byte_ok d -> base_octets (fmt_vip a b c d) = [a; b; c; d].
Proof.
  unfold byte_ok. intros. unfold base_octets, fmt_vip.
  rewrite str_bytes_str by (apply fmt_octets_bytes_ok; lia). unfold fmt_octets.
  rewrite !split_on_sep, split_on_no_sep by (apply fmt_dec_no_dot; lia).
  cbn [omap list_omap]. rewrite !parse_uint_fmt_dec by (unfold U8_MAX, U64_MAX; lia). done.
Qed.

Lemma be_val_4 a b c d : be_val [a; b; c; d] = a * 16777216 + b * 65536 + c * 256 + d.
Proof. unfold be_val. cbn [rev app le_val]. lia. Qed.

(** A host [1..=254] of a [10/8] prefix is a valid claim inside its own unit. *)
Lemma unit_host_valid b c d :
  byte_ok b -> byte_ok c -> 1 <= d <= 254 -> claim_vip_valid (fmt_vip 10 b c d) = true.
Proof.
  intros Hb Hc Hd. unfold byte_ok in *. unfold claim_vip_valid.
  rewrite fmt_vip_parse, be_val_octets by (unfold byte_ok; lia). rewrite be_val_4.
  unfold U32_MAX. rewrite !(proj2 (Z.eqb_neq _ _)) by lia. done.
Qed.

Lemma unit_host_in_subnet `{Kdf} key b c d :
  derive_floatunit_subnet24 key = (10, b, c) ->
  byte_ok b -> byte_ok c -> 1 <= d <= 254 -> vip_in_floatunit_subnet key (fmt_vip 10 b c d) = true.
Proof.
  intros Hk Hb Hc Hd. unfold vip_in_floatunit_subnet. rewrite unit_host_valid by done. simpl negb.
  rewrite fmt_vip_parse, be_val_octets by (unfold byte_ok in *; lia). by rewrite Hk, !Z.eqb_refl.
Qed.

Lemma pick_host_range start offset : 1 <= pick_host start offset <= 254.
Proof. unfold pick_host. pose proof (Z.mod_pos_bound (start + offset) 254). lia. Qed.

(** The scan visits every host. *)
Lemma pick_host_surj start h :
  1 <= h <= 254 -> exists offset, 0 <= offset < 254 /\ pick_host start offset = h.
Proof.
  intros Hh. exists ((h - 1 - start) mod 254). split; [apply Z.mod_pos_bound; lia|].
  unfold pick_host. rewrite Z.add_mod_idemp_r by lia.
  replace (start + (h - 1 - start)) with (h - 1) by lia. rewrite Z.mod_small by lia. lia.
Qed.

Lemma pick_free_vip_cases (base : string) (occupied : string -> bool) :
  match base_octets base with
  | [a; b; c; d] =>
      match pick_free_vip base occupied with
      | Some v => occupied v = false /\ exists h, 1 <= h <= 254 /\ v = fmt_vip a b c h
      | None => forall h, 1 <= h <= 254 -> occupied (fmt_vip a b c h) = true
      end
  | _ => pick_free_vip base occupied = None
  end.
Proof.
  unfold pick_free_vip. destruct (base_octets base) as [|a [|b [|c [|d [|]]]]]; try done.
  destruct (find _ _) as [v|] eqn:E.
  - apply find_some in E as [Hin Hf]. split; [by apply negb_true_iff|].
    apply in_map_iff in Hin as (o & <- & _). exists (pick_host (pick_start d) o).
    split; [apply pick_host_range|done].
  - intros h Hh. destruct (pick_host_surj (pick_start d) h Hh) as (o & Ho & <-).
    apply negb_false_iff. eapply (find_none _ _ E). apply in_map_iff. exists o. split; [done|].
    apply list_elem_of_In, elem_of_seqZ. lia.
Qed.

(** Picking an address is sound and complete: with a base of four octets the
    result is a free host between [.1] and [.254] of the base's prefix, and there
    is none exactly when all 254 hosts are occupied.  A base of another shape
    gives no address. *)
Theorem pick_free_vip_spec (base : string) (occupied : string -> bool) :
  match base_octets base with
  | [a; b; c; d] =>
      match pick_free_vip base occupied with
      | Some v => occupied v = false /\ exists h, 1 <= h <= 254 /\ v = fmt_vip a b c h
      | None => forall h, 1 <= h <= 254 -> occupied (fmt_vip a b c h) = true
      end
  | _ => pick_free_vip base occupied = None
  end.
Proof. apply pick_free_vip_cases. Qed.

(** A member always ends up with an address of its own unit: whatever was
    saved, the resolved VIP passes the check every peer applies to claims, and a
    saved VIP that passes it is kept. *)
Theorem resolve_member_vip_in_unit `{KdfLaws} (key : bytes) (existing : string) (draws : list Z) :
  Forall (fun h => 1 <= h <= 254) draws ->
  let (vip, bumped) := resolve_member_vip key existing draws in
  accept_wire_claim_vip (Some key) vip = true /\
  (bumped = false -> vip = trim_str existing).
Proof.
  intros Hdraws. unfold resolve_member_vip.
  destruct (_ && vip_in_floatunit_subnet key (trim_str existing)) eqn:E.
  { apply andb_true_iff in E as [_ E]. done. }
  split; [|done]. simpl. unfold random_member_vip_in_unit.
  destruct (derive_floatunit_subnet24 key) as [[a b] c] eqn:Ek.
  pose proof (floatunit_subnet_octets key a b c Ek) as (-> & Hb & Hc).
  destruct (find _ _) as [cand|] eqn:Ef.
  - apply find_some in Ef as [Hin _]. apply in_map_iff in Hin as (h & <- & Hh).
    apply unit_host_in_subnet; [done..|]. rewrite Forall_forall in Hdraws. apply Hdraws.
    apply list_elem_of_In in Hh. by eapply subseteq_take.
  - pose proof (pick_free_vip_cases (floatunit_subnet_base_vip key) (fun _ => false)) as Hp.
    unfold floatunit_subnet_base_vip in Hp at 1. rewrite Ek in Hp. fold (fmt_vip 10 b c 1) in Hp. rewrite base_octets_fmt in Hp by (done || (unfold byte_ok; lia)).
    destruct (pick_free_vip _ _) as [v|]; simpl.
    + destruct Hp as (_ & h & Hh & ->). by apply unit_host_in_subnet.
    + apply unit_host_in_subnet; [done..|lia].
Qed.

Lemma resolve_member_vip_in_unit_witness :
  let (vip, bumped) := @resolve_member_vip Toy.toy_kdf [7; 9] "192.168.0.4" [33; 77] in
  @accept_wire_claim_vip Toy.toy_kdf (Some [7; 9]) vip = true /\
  (bumped = false -> vip = trim_str "192.168.0.4").
Proof.
  apply (@resolve_member_vip_in_unit Toy.toy_kdf Toy.toy_kdf_laws [7; 9] "192.168.0.4" [33; 77]).
  repeat constructor; lia.
Defined.

(** [member_host_ipv4] never takes its fallback: the textual VIP of a member
    host always parses, to the address with the unit's prefix and that host (1 for
    the two reserved hosts). *)
Theorem member_host_ipv4_exact `{KdfLaws} (key : bytes) (host : Z) :
  byte_ok host ->
  match derive_floatunit_subnet24 key with
  | (a, b, c) =>
      member_host_ipv4 key host = be_val [a; b; c; if (host =? 0) || (host =? 255) then 1 else host]
  end.
Proof.
  intros Hh. destruct (derive_floatunit_subnet24 key) as [[a b] c] eqn:Ek.
  pose proof (floatunit_subnet_octets key a b c Ek) as (-> & Hb & Hc).
  unfold member_host_ipv4, member_host_vip. rewrite Ek. unfold byte_ok in *.
  rewrite fmt_vip_parse; unfold byte_ok; [done|lia..|]. destruct (_ || _); lia.
Qed.
