(* ===== verification/Gossip.v ===== *)
(** * Claim gossip ([src/src/net/claim_gossip.rs])

    Members exchange who claims which VIP at which epoch.  A claim map is merged
    per node by epoch; leave tombstones block a node's old epochs, suppress
    entries block the loser of a VIP fight, and duplicate VIPs are settled in
    favour of the smaller node id. *)

From S2P Require Import Prelude Text Packet Crypto Claim.

Definition CLAIM_GOSSIP_DIGEST_MAX : nat := 32.
Definition CLAIM_GOSSIP_LEAVE_TOMBS_MAX : nat := 8.
Definition LEAVE_TOMBSTONE_TTL : Duration := from_secs 300.
Definition FIGHT_SUPPRESS_TTL : Duration := from_secs 30.

Record ClaimRecord := mkClaim {
  node_id : string;
  vip : string;
  vip_epoch : Z;
  ep_hints : list string
}.
#[export] Instance eta_ClaimRecord : Settable ClaimRecord :=
  fun r => mkClaim (node_id r) (vip r) (vip_epoch r) (ep_hints r).

#[export] Instance ClaimRecord_eq_dec : EqDecision ClaimRecord.
Proof. solve_decision. Defined.

Record LeaveTombstone := mkTomb {
  lt_node_id : string; lt_vip : string; lt_epoch : Z; lt_expires_at : Instant
}.

Record FightSuppress := mkFight {
  fs_node_id : string; fs_vip : string; fs_epoch : Z; fs_expires_at : Instant
}.

Inductive MergeOutcome := Accepted | IgnoredStale | BlockedByTombstone | BlockedByFight | Rejected.

#[export] Instance MergeOutcome_eq_dec : EqDecision MergeOutcome.
Proof. solve_decision. Defined.

Abbreviation ClaimMap := (gmap string ClaimRecord).
Abbreviation Tombs := (gmap string LeaveTombstone).
Abbreviation Fights := (gmap string FightSuppress).

(** ** Suppression and tombstones *)

Definition fight_suppress_blocks (suppress : Fights) (nid v : string) (epoch : Z) (now : Instant) : bool :=
  match suppress !! nid with
  | Some s => (now <? fs_expires_at s) && bool_decide (fs_vip s = v) && (fs_epoch s =? epoch)
  | None => false
  end.

Definition install_fight_suppress (suppress : Fights) (nid v : string) (epoch : Z) (now : Instant)
    (ttl : Duration) : Fights * bool :=
  if bool_decide (nid = EmptyString) || negb (claim_vip_valid v) then (suppress, false)
  else (<[nid := mkFight nid v epoch (now + ttl)]> suppress, true).

Definition prune_fight_suppress (suppress : Fights) (now : Instant) : Fights :=
  retain (fun _ s => now <? fs_expires_at s) suppress.

Definition install_leave_tombstone (tombs : Tombs) (nid v : string) (epoch : Z) (now : Instant)
    (ttl : Duration) : Tombs * bool :=
  if bool_decide (nid = EmptyString) || negb (claim_vip_valid v) then (tombs, false)
  else (<[nid := mkTomb nid v epoch (now + ttl)]> tombs, true).

Definition prune_leave_tombstones (tombs : Tombs) (now : Instant) : Tombs :=
  retain (fun _ t => now <? lt_expires_at t) tombs.

Definition leave_tombstone_blocks (tombs : Tombs) (nid : string) (claim_epoch : Z) (now : Instant) : bool :=
  match tombs !! nid with
  | Some t => (now <? lt_expires_at t) && (claim_epoch <=? lt_epoch t)
  | None => false
  end.

(** ** Merging *)

Definition merge_claim (map : ClaimMap) (incoming : ClaimRecord) (tombs : Tombs) (fight : Fights)
    (now : Instant) : ClaimMap * Fights * MergeOutcome :=
  let nid := node_id incoming in
  if bool_decide (nid = EmptyString) || negb (claim_vip_valid (vip incoming)) then (map, fight, Rejected)
  else if leave_tombstone_blocks tombs nid (vip_epoch incoming) now then (map, fight, BlockedByTombstone)
  else if fight_suppress_blocks fight nid (vip incoming) (vip_epoch incoming) now then
    (map,
     (install_fight_suppress fight nid (vip incoming) (vip_epoch incoming) now FIGHT_SUPPRESS_TTL).1,
     BlockedByFight)
  else
    match map !! nid with
    | None => (<[nid := incoming]> map, fight, Accepted)
    | Some existing =>
        if vip_epoch existing <? vip_epoch incoming then (<[nid := incoming]> map, fight, Accepted)
        else if (vip_epoch incoming =? vip_epoch existing) && bool_decide (vip incoming = vip existing) then
          if negb (bool_decide (ep_hints incoming = []))
             && negb (bool_decide (ep_hints incoming = ep_hints existing))
          then (<[nid := existing <| ep_hints := ep_hints incoming |>]> map, fight, Accepted)
          else (map, fight, IgnoredStale)
        else (map, fight, IgnoredStale)
    end.

Definition remove_claims_for_vip `{HashIter} (map : ClaimMap) (v : string) : ClaimMap * list string :=
  let doomed := fst <$> List.filter (fun kv => bool_decide (vip kv.2 = v)) (hm_iter map) in
  (fold_left (fun m nid => delete nid m) doomed map, doomed).

Definition claim_still_live (map : ClaimMap) (nid v : string) (epoch : Z) : bool :=
  match map !! nid with
  | Some c => bool_decide (vip c = v) && (vip_epoch c =? epoch)
  | None => false
  end.

Definition should_reroll_for_vip_fight (local_nid local_vip remote_nid remote_vip : string) : bool :=
  bool_decide (remote_vip = local_vip) && local_loses_vip_conflict local_nid remote_nid.

Definition stale_allows_ep_refresh (map : ClaimMap) (nid v : string) (epoch : Z) : bool :=
  match map !! nid with
  | Some c => bool_decide (vip c = v) && (vip_epoch c =? epoch)
  | None => false
  end.

Definition remove_claim (map : ClaimMap) (nid : string) : ClaimMap * option ClaimRecord :=
  (delete nid map, map !! nid).

Definition claim_le (a b : ClaimRecord) : Prop := str_le (node_id a) (node_id b).
#[export] Instance claim_le_dec : RelDecision claim_le.
Proof. intros a b. unfold claim_le. apply _. Defined.

Definition tomb_newer (a b : LeaveTombstone) : Prop := lt_expires_at b <= lt_expires_at a.
#[export] Instance tomb_newer_dec : RelDecision tomb_newer.
Proof. intros a b. unfold tomb_newer. apply _. Defined.

(** ** Settling duplicate VIPs *)

Section settle.
Context `{HashIter}.

(** [by_vip.entry(rec.vip.clone()).or_default().push(nid.clone())] for every claim. *)
Definition group_by_vip (map : ClaimMap) : gmap string (list string) :=
  fold_left (fun m kv => <[vip kv.2 := default [] (m !! vip kv.2) ++ [kv.1]]> m) (hm_iter map) ∅.

(** One VIP's claimants, sorted; all but the first lose. *)
Definition settle_group (st : ClaimMap * list string) (nodes : list string) : ClaimMap * list string :=
  if (length nodes <? 2)%nat then st
  else
    fold_left (fun st nid => (delete nid st.1, st.2 ++ [nid])) (drop 1 (merge_sort str_le nodes)) st.

Definition settle_duplicate_vips (map : ClaimMap) : ClaimMap * list string :=
  fold_left settle_group (snd <$> hm_iter (group_by_vip map)) (map, []).

(** ** Digests *)

(** [(0..take).map(|i| l[(start + i) % n])]. *)
Definition rotated {A} (l : list A) (start take : nat) : list A :=
  omap (fun i => l !! ((start + i) mod length l)%nat) (seq 0 take).

Definition build_gossip_digest_rotated (own : ClaimRecord) (map : ClaimMap) (tombs : Tombs)
    (now : Instant) (max_others start_idx : nat) : list ClaimRecord :=
  let others :=
    List.filter (fun c => negb (leave_tombstone_blocks tombs (node_id c) (vip_epoch c) now))
      (List.filter (fun c => negb (bool_decide (node_id c = node_id own))) (snd <$> hm_iter map)) in
  let others := merge_sort claim_le others in
  if bool_decide (others = []) || (max_others =? 0)%nat then [own]
  else own :: rotated others (start_idx mod length others) (max_others `min` length others).

Definition build_gossip_digest (own : ClaimRecord) (map : ClaimMap) (tombs : Tombs)
    (now : Instant) (max_others : nat) : list ClaimRecord :=
  build_gossip_digest_rotated own map tombs now max_others 0.

(** Newest first by expiry; the sort is stable. *)
Definition select_leave_tombs_for_gossip (tombs : Tombs) (now : Instant) (max : nat) : list LeaveTombstone :=
  let live := List.filter (fun t => now <? lt_expires_at t) (snd <$> hm_iter tombs) in
  take max (merge_sort tomb_newer live).
End settle.

Definition rotate_endpoints (eps : list SocketAddr) (cursor cap : nat) : list SocketAddr :=
  if bool_decide (eps = []) || (cap =? 0)%nat then []
  else rotated eps (cursor mod length eps) (cap `min` length eps).

(** ** Merging converges

    A node gives each of its epochs one VIP.  Then the order in which claims
    arrive, and how often, does not matter: the map holds, for every node, the
    claim of its greatest epoch. *)

Definition merge_all (cs : list ClaimRecord) (now : Instant) : ClaimMap :=
  fold_left (fun m c => (merge_claim m c ∅ ∅ now).1.1) cs ∅.

Definition claim_ok (c : ClaimRecord) : bool :=
  negb (bool_decide (node_id c = EmptyString)) && claim_vip_valid (vip c).

(** What peers act on: the VIP and the epoch. *)
Definition claim_key (c : ClaimRecord) : string * Z := (vip c, vip_epoch c).

(** Node [n]'s entry is the claim with the greatest epoch among [cs]. *)
Definition holds_latest (m : ClaimMap) (cs : list ClaimRecord) : Prop :=
  forall n,
    match m !! n with
    | None => forall c, c ∈ cs -> claim_ok c = true -> node_id c <> n
    | Some r =>
        (exists c, c ∈ cs /\ claim_ok c = true /\ node_id c = n /\ claim_key c = claim_key r) /\
        forall c, c ∈ cs -> claim_ok c = true -> node_id c = n -> vip_epoch c <= vip_epoch r
    end.

Lemma merge_claim_free m c now :
  merge_claim m c ∅ ∅ now =
    if negb (claim_ok c) then (m, ∅, Rejected)
    else
      match m !! node_id c with
      | None => (<[node_id c := c]> m, ∅, Accepted)
      | Some existing =>
          if vip_epoch existing <? vip_epoch c then (<[node_id c := c]> m, ∅, Accepted)
          else if (vip_epoch c =? vip_epoch existing) && bool_decide (vip c = vip existing) then
            if negb (bool_decide (ep_hints c = [])) && negb (bool_decide (ep_hints c = ep_hints existing))
            then (<[node_id c := existing <| ep_hints := ep_hints c |>]> m, ∅, Accepted)
            else (m, ∅, IgnoredStale)
          else (m, ∅, IgnoredStale)
      end.
Proof.
  unfold merge_claim, claim_ok, leave_tombstone_blocks, fight_suppress_blocks. rewrite !lookup_empty.
  by destruct (bool_decide (node_id c = EmptyString)), (claim_vip_valid (vip c)).
Qed.

(** The effect of a merge on what peers act on. *)
Lemma merge_claim_key m c now n :
  (fun r => claim_key r) <$> (merge_claim m c ∅ ∅ now).1.1 !! n =
    if claim_ok c && bool_decide (node_id c = n) then
      match m !! n with
      | None => Some (claim_key c)
      | Some r => Some (if vip_epoch r <? vip_epoch c then claim_key c else claim_key r)
      end
    else claim_key <$> m !! n.
Proof.
  rewrite merge_claim_free. destruct (claim_ok c) eqn:Ec; [|done]. cbn [negb andb].
  destruct (decide (node_id c = n)) as [<-|Hn];
    [rewrite (bool_decide_true (node_id c = _)) by done|rewrite (bool_decide_false (node_id c = n)) by done].
  - destruct (m !! node_id c) as [r|] eqn:E; cbn [fst]; [|by rewrite lookup_insert_eq].
    destruct (_ <? _); cbn [fst]; [by rewrite lookup_insert_eq|].
    repeat (case_match; cbn [fst]); rewrite ?lookup_insert_eq, ?E; done.
  - destruct (m !! node_id c) as [r|] eqn:E; cbn [fst]; [|by rewrite lookup_insert_ne].
    repeat (case_match; cbn [fst]); rewrite ?lookup_insert_ne by done; done.
Qed.

Lemma merge_all_snoc cs c now :
  merge_all (cs ++ [c]) now = (merge_claim (merge_all cs now) c ∅ ∅ now).1.1.
Proof. unfold merge_all. by rewrite fold_left_app. Qed.

Lemma merge_all_latest cs now : holds_latest (merge_all cs now) cs.
Proof.
  induction cs as [|c cs IH] using rev_ind; intros n.
  { unfold merge_all. simpl. rewrite lookup_empty. by intros c Hc%elem_of_nil. }
  specialize (IH n). rewrite merge_all_snoc.
  pose proof (merge_claim_key (merge_all cs now) c now n) as Hk.
  destruct ((merge_claim (merge_all cs now) c ∅ ∅ now).1.1 !! n) as [r|]; simpl in Hk.
  - destruct (claim_ok c && bool_decide (node_id c = n)) eqn:Ec.
    + breflect. destruct (merge_all cs now !! n) as [r0|]; simpl in Hk; apply (inj Some) in Hk.
      * destruct IH as [(c0 & Hc0 & Hok0 & Hn0 & Hk0) Hmax].
        destruct (Z.ltb_spec (vip_epoch r0) (vip_epoch c)) as [Hlt|Hge]; pose proof Hk as Hk2; injection Hk2 as Hv He.
        -- split; [exists c; split_and!; [set_solver|done|done|unfold claim_key; congruence]|].
           intros c' [Hc'| ->%list_elem_of_singleton]%elem_of_app Hok' Hn'; [|lia]. specialize (Hmax _ Hc' Hok' Hn'). lia.
        -- split; [exists c0; split_and!; [by apply elem_of_app; left|done|done|unfold claim_key in *; congruence]|].
           intros c' [Hc'| ->%list_elem_of_singleton]%elem_of_app Hok' Hn'; [|lia]. specialize (Hmax _ Hc' Hok' Hn'). lia.
      * split; [exists c; split_and!; [set_solver|done|done|congruence]|]. pose proof Hk as Hk2; injection Hk2 as Hv He.
        intros c' [Hc'| ->%list_elem_of_singleton]%elem_of_app Hok' Hn'; [by destruct (IH _ Hc' Hok')|lia].
    + destruct (merge_all cs now !! n) as [r0|]; [|done]. simpl in Hk. apply (inj Some) in Hk. pose proof Hk as Hk2; injection Hk2 as Hv He.
      destruct IH as [(c0 & Hc0 & Hok0 & Hn0 & Hk0) Hmax].
      split; [exists c0; split_and!; [by apply elem_of_app; left|done|done|unfold claim_key in *; congruence]|].
      intros c' [Hc'| ->%list_elem_of_singleton]%elem_of_app Hok' Hn'; [specialize (Hmax _ Hc' Hok' Hn'); lia|].
      rewrite Hok', bool_decide_true in Ec by done. done.
  - destruct (claim_ok c && bool_decide (node_id c = n)) eqn:Ec.
    + by destruct (merge_all cs now !! n).
    + destruct (merge_all cs now !! n) as [r0|]; [done|].
      intros c' [Hc'| ->%list_elem_of_singleton]%elem_of_app Hok' Hn'; [by destruct (IH _ Hc' Hok')|].
      rewrite Hok', bool_decide_true in Ec by done. done.
Qed.

Definition claim_triple (c : ClaimRecord) : string * string * Z := (node_id c, vip c, vip_epoch c).

Lemma latest_le m1 m2 cs1 cs2 F n r1 :
  (forall c, c ∈ cs1 \/ c ∈ cs2 -> vip c = F (node_id c) (vip_epoch c)) ->
  (forall c, c ∈ cs1 -> exists c', c' ∈ cs2 /\ claim_triple c' = claim_triple c) ->
  holds_latest m1 cs1 -> holds_latest m2 cs2 -> m1 !! n = Some r1 ->
  exists r2, m2 !! n = Some r2 /\ vip_epoch r1 <= vip_epoch r2 /\ vip r2 = F n (vip_epoch r2).
Proof.
  intros HF Hsub H1 H2 E1. specialize (H1 n). rewrite E1 in H1.
  destruct H1 as [(c & Hc & Hok & <- & Hk) _]. destruct (Hsub c Hc) as (c' & Hc' & [= Hn Hv He]).
  assert (Hok' : claim_ok c' = true) by (unfold claim_ok in *; by rewrite Hn, Hv).
  specialize (H2 (node_id c)). destruct (m2 !! node_id c) as [r2|]; [|by destruct (H2 _ Hc' Hok')].
  destruct H2 as [(c2 & Hc2 & _ & Hn2 & [= Hv2 He2]) Hmax]. exists r2. split_and!; [done| |].
  - specialize (Hmax _ Hc' Hok' Hn). injection Hk as _ Hke. lia.
  - rewrite <- Hv2, <- He2, <- Hn2. apply HF. by right.
Qed.



(** ** Settling *)

Section settle_lemmas.
Context `{HashIter}.

Definition group_step (m : gmap string (list string)) (kv : string * ClaimRecord) :=
  <[vip kv.2 := default [] (m !! vip kv.2) ++ [kv.1]]> m.

Definition claimants (v : string) (l : list (string * ClaimRecord)) : list string :=
  fst <$> List.filter (fun kv => bool_decide (vip kv.2 = v)) l.

Lemma group_fold_lookup l v :
  fold_left group_step l ∅ !! v = match claimants v l with [] => None | ns => Some ns end.
Proof.
  induction l as [|[n r] l IH] using rev_ind; [done|].
  rewrite fold_left_app. cbn [fold_left]. unfold group_step at 1. cbn [fst snd].
  unfold claimants. rewrite List.filter_app, fmap_app. fold (claimants v l). cbn [List.filter snd].
  destruct (decide (vip r = v)) as [<-|Hne].
  - rewrite lookup_insert_eq, IH, bool_decide_true by done. simpl. by destruct (claimants (vip r) l).
  - rewrite lookup_insert_ne, IH, bool_decide_false by done. simpl. by rewrite app_nil_r.
Qed.

Lemma group_by_vip_lookup map v ns :
  group_by_vip map !! v = Some ns <-> ns = claimants v (hm_iter map) /\ ns <> [].
Proof.
  unfold group_by_vip. change (fold_left _ (hm_iter map) ∅) with (fold_left group_step (hm_iter map) ∅).
  rewrite group_fold_lookup. destruct (claimants v (hm_iter map)); naive_solver.
Qed.

Lemma elem_of_claimants map v n :
  n ∈ claimants v (hm_iter map) <-> exists r, map !! n = Some r /\ vip r = v.
Proof.
  unfold claimants. rewrite list_elem_of_fmap. split.
  - intros ([n' r] & -> & Hin). apply list_elem_of_In, filter_In in Hin as [Hin Hv].
    apply list_elem_of_In, hm_iter_elem in Hin. breflect. by exists r.
  - intros (r & Hr & Hv). exists (n, r). split; [done|]. apply list_elem_of_In, filter_In.
    split; [by apply list_elem_of_In, hm_iter_elem|]. by apply bool_decide_eq_true.
Qed.

Lemma claimants_NoDup map v : NoDup (claimants v (hm_iter map)).
Proof.
  unfold claimants. pose proof (hm_iter_NoDup_fst map) as Hnd. induction (hm_iter map) as [|[n r] l IH]; [constructor|].
  rewrite fmap_cons in Hnd. apply NoDup_cons in Hnd as [Hn Hnd]. cbn [List.filter].
  destruct (bool_decide _); [|by apply IH]. rewrite fmap_cons. constructor; [|by apply IH].
  intros Hin. apply Hn. apply list_elem_of_fmap in Hin as (x & Hx & Hin).
  apply list_elem_of_fmap. exists x. split; [done|]. apply list_elem_of_In in Hin.
  apply filter_In in Hin as [Hin _]. by apply list_elem_of_In.
Qed.

(** The claimants of one VIP that lose. *)
Definition group_losers (nodes : list string) : list string := drop 1 (merge_sort str_le nodes).

Lemma settle_group_losers st nodes :
  settle_group st nodes
  = (fold_left (fun m n => delete n m) (group_losers nodes) st.1, st.2 ++ group_losers nodes).
Proof.
  assert (Hf : forall ns (s : ClaimMap * list string),
    fold_left (fun st nid => (delete nid st.1, st.2 ++ [nid])) ns s
    = (fold_left (fun m n => delete n m) ns s.1, s.2 ++ ns)).
  { induction ns as [|n ns IH]; intros [m ls]; simpl; [by rewrite app_nil_r|].
    rewrite IH. simpl. by rewrite <- app_assoc. }
  unfold settle_group. destruct (Nat.ltb_spec (length nodes) 2) as [Hl|Hl]; [|apply Hf].
  unfold group_losers.
  assert (drop 1 (merge_sort str_le nodes) = []) as ->.
  { apply nil_length_inv. rewrite length_drop, merge_sort_Permutation. lia. }
  destruct st. simpl. by rewrite app_nil_r.
Qed.

Lemma settle_fold groups st :
  fold_left settle_group groups st
  = (fold_left (fun m n => delete n m) (groups ≫= group_losers) st.1, st.2 ++ (groups ≫= group_losers)).
Proof.
  revert st. induction groups as [|g groups IH]; intros st; [destruct st; simpl; by rewrite app_nil_r|].
  cbn [fold_left]. rewrite settle_group_losers, IH. cbn [fst snd]. rewrite bind_cons, fold_left_app.
  by rewrite app_assoc.
Qed.

Lemma delete_fold_lookup (ns : list string) (m : ClaimMap) n :
  fold_left (fun m n => delete n m) ns m !! n = if decide (n ∈ ns) then None else m !! n.
Proof.
  revert m. induction ns as [|x ns IH]; intros m.
  { cbn [fold_left]. by rewrite decide_False by apply not_elem_of_nil. }
  cbn [fold_left]. rewrite IH. destruct (decide (n ∈ ns)) as [Hin|Hin].
  - by rewrite decide_True by (by apply elem_of_cons; right).
  - destruct (decide (n = x)) as [->|Hne].
    + rewrite lookup_delete_eq, decide_True; [done|by apply elem_of_cons; left].
    + rewrite lookup_delete_ne by done. rewrite decide_False; [done|]. rewrite elem_of_cons. tauto.
Qed.

(** A claimant loses exactly when another claimant of its VIP has a smaller id. *)
Lemma group_losers_spec ns n :
  NoDup ns -> (n ∈ group_losers ns) <-> (n ∈ ns) /\ exists n', n' ∈ ns /\ str_lt n' n = true.
Proof.
  intros Hnd. unfold group_losers. pose proof (merge_sort_Permutation str_le ns) as Hp.
  pose proof (Sorted_merge_sort str_le ns) as Hs. apply Sorted_StronglySorted in Hs; [|apply _].
  rewrite <- Hp in Hnd. assert (Hin : forall x, x ∈ ns <-> x ∈ merge_sort str_le ns) by (intros; by rewrite Hp).
  clear Hp. revert Hs Hnd Hin. generalize (merge_sort str_le ns). intros s Hs Hnd Hin.
  setoid_rewrite Hin. clear Hin. destruct s as [|x l]; simpl; [set_solver|].
  apply NoDup_cons in Hnd as [Hx _]. apply StronglySorted_inv in Hs as [_ Hs]. rewrite Forall_forall in Hs.
  rewrite drop_0. split.
  - intros Hn. split; [set_solver|]. exists x. split; [set_solver|].
    specialize (Hs n Hn). rewrite str_le_iff in Hs.
    destruct (str_lt_trichotomy x n) as [?|[->|?]]; [done|done|congruence].
  - intros [[->|Hn]%elem_of_cons (n' & Hn' & Hlt)]; [|done].
    apply elem_of_cons in Hn' as [->|Hn']; [by rewrite str_lt_irrefl in Hlt|].
    specialize (Hs n' Hn'). rewrite str_le_iff in Hs. congruence.
Qed.
End settle_lemmas.

Section settle_theorem.
Context `{HashIter}.

(** [n] claims a VIP that a smaller id claims too. *)
Definition outranked (map : ClaimMap) (n : string) : Prop :=
  exists r n' r', map !! n = Some r /\ map !! n' = Some r' /\ vip r' = vip r /\ str_lt n' n = true.

Lemma settle_losers_spec map n : n ∈ (settle_duplicate_vips map).2 <-> outranked map n.
Proof.
  unfold settle_duplicate_vips. rewrite settle_fold. cbn [snd app]. rewrite list_elem_of_bind. split.
  - intros (ns & Hn & Hg). apply list_elem_of_fmap in Hg as ([v ns'] & -> & Hg). simpl in Hn.
    apply hm_iter_elem, group_by_vip_lookup in Hg as [-> _].
    apply group_losers_spec in Hn as [Hn (n' & Hn' & Hlt)]; [|apply claimants_NoDup].
    apply elem_of_claimants in Hn as (r & Hr & Hv). apply elem_of_claimants in Hn' as (r' & Hr' & Hv').
    exists r, n', r'. split_and!; congruence.
  - intros (r & n' & r' & Hr & Hr' & Hv & Hlt). exists (claimants (vip r) (hm_iter map)). split.
    + apply group_losers_spec; [apply claimants_NoDup|]. split; [apply elem_of_claimants; eauto|].
      exists n'. split; [apply elem_of_claimants; eauto|done].
    + apply list_elem_of_fmap. exists (vip r, claimants (vip r) (hm_iter map)). split; [done|].
      apply hm_iter_elem, group_by_vip_lookup. split; [done|]. intros He.
      assert (n ∈ claimants (vip r) (hm_iter map)) as Hin by (apply elem_of_claimants; eauto).
      rewrite He in Hin. by apply elem_of_nil in Hin.
Qed.

Lemma settle_lookup map n :
  (settle_duplicate_vips map).1 !! n = if decide (n ∈ (settle_duplicate_vips map).2) then None else map !! n.
Proof. unfold settle_duplicate_vips. rewrite settle_fold. cbn [fst snd app]. apply delete_fold_lookup. Qed.

(** Every claimed VIP has a least claimant. *)
Lemma least_claimant map n r :
  map !! n = Some r ->
  exists n' r', map !! n' = Some r' /\ vip r' = vip r /\ ~ outranked map n'.
Proof.
  intros Hr. pose proof (merge_sort_Permutation str_le (claimants (vip r) (hm_iter map))) as Hp.
  pose proof (Sorted_merge_sort str_le (claimants (vip r) (hm_iter map))) as Hs.
  apply Sorted_StronglySorted in Hs; [|apply _].
  assert (Hin : forall x, x ∈ merge_sort str_le (claimants (vip r) (hm_iter map))
    <-> exists r0, map !! x = Some r0 /\ vip r0 = vip r) by (intros; rewrite Hp; apply elem_of_claimants).
  clear Hp. destruct (merge_sort str_le _) as [|x l].
  { exfalso. eapply not_elem_of_nil, Hin. eauto. }
  destruct (proj1 (Hin x) ltac:(set_solver)) as (rx & Hrx & Hvx). exists x, rx. split_and!; [done..|].
  intros (r1 & n2 & r2 & H1 & H2 & Hv & Hlt). simplify_eq.
  apply StronglySorted_inv in Hs as [_ Hs]. rewrite Forall_forall in Hs.
  assert (n2 ∈ x :: l) as [->|Hn2]%elem_of_cons by (apply Hin; exists r2; split; congruence).
  - by rewrite str_lt_irrefl in Hlt.
  - specialize (Hs n2 Hn2). rewrite str_le_iff in Hs. congruence.
Qed.

(** Settling is exact, whatever order the hash maps are walked in: the nodes
    removed (and reported) are those whose VIP a smaller node id claims too; the
    others keep their record; afterwards no two nodes claim one VIP, and every VIP
    that was claimed still is. *)
Theorem settle_duplicate_vips_spec (map : ClaimMap) :
  let (map', losers) := settle_duplicate_vips map in
  (forall n, n ∈ losers <-> outranked map n) /\
  (forall n, map' !! n = if decide (n ∈ losers) then None else map !! n) /\
  (forall n1 n2 r1 r2, map' !! n1 = Some r1 -> map' !! n2 = Some r2 -> vip r1 = vip r2 -> n1 = n2) /\
  (forall n r, map !! n = Some r -> exists n' r', map' !! n' = Some r' /\ vip r' = vip r).
Proof.
  pose proof (settle_losers_spec map) as Hl. pose proof (settle_lookup map) as Hm.
  destruct (settle_duplicate_vips map) as [map' losers]. cbn [fst snd] in *. split_and!; [done..| |].
  - intros n1 n2 r1 r2. rewrite !Hm. destruct (decide (n1 ∈ losers)) as [|D1]; [done|].
    destruct (decide (n2 ∈ losers)) as [|D2]; [done|]. intros H1 H2 Hv. rewrite Hl in D1, D2.
    destruct (str_lt_trichotomy n1 n2) as [Hlt|[?|Hlt]]; [|done|].
    + destruct D2. exists r2, n1, r1. done.
    + destruct D1. exists r1, n2, r2. done.
  - intros n r Hr. destruct (least_claimant map n r Hr) as (n' & r' & Hr' & Hv & Ho).
    exists n', r'. rewrite Hm, decide_False by (by rewrite Hl). done.
Qed.
End settle_theorem.

(** ** Rotation *)

Lemma rotated_lookup {A} (l : list A) start take i :
  l <> [] -> (i < take)%nat -> rotated l start take !! i = l !! ((start + i) mod length l)%nat.
Proof.
  intros Hl Hi. unfold rotated.
  assert (Hlen : length l <> 0%nat) by (by destruct l).
  assert (Hall : forall n s, omap (fun i => l !! ((start + i) mod length l)%nat) (seq s n) !! i
    = if (i <? n)%nat then l !! ((start + (s + i)) mod length l)%nat else None).
  { intros n. clear Hi. revert i. induction n as [|n IH]; intros i s; [done|]. cbn [seq omap list_omap].
    destruct (lookup_lt_is_Some_2 l ((start + s) mod length l)%nat) as [x Hx]; [by apply Nat.mod_upper_bound|].
    rewrite Hx. destruct i as [|i]; simpl; [by rewrite Nat.add_0_r, Hx|]. rewrite IH.
    change (S i <? S n)%nat with (i <? n)%nat. by replace (S s + i)%nat with (s + S i)%nat by lia. }
  rewrite Hall, (proj2 (Nat.ltb_lt _ _) Hi). done.
Qed.

Lemma length_rotated {A} (l : list A) start take : l <> [] -> length (rotated l start take) = take.
Proof.
  intros Hl. unfold rotated. assert (Hlen : length l <> 0%nat) by (by destruct l).
  rewrite <- (length_seq take 0) at 2. induction (seq 0 take) as [|i idx IH]; [done|]. cbn [omap list_omap].
  destruct (lookup_lt_is_Some_2 l ((start + i) mod length l)%nat) as [x ->]; [by apply Nat.mod_upper_bound|].
  simpl. by rewrite IH.
Qed.

Lemma rotated_NoDup {A} (l : list A) start take :
  NoDup l -> (take <= length l)%nat -> NoDup (rotated l start take).
Proof.
  intros Hnd Ht. destruct (decide (l = [])) as [->|Hl]; [by assert (take = 0%nat) as -> by (simpl in Ht; lia); constructor|].
  assert (Hlen : length l <> 0%nat) by (by destruct l).
  apply NoDup_alt. intros i j x Hi Hj.
  pose proof (lookup_lt_Some _ _ _ Hi) as Li. pose proof (lookup_lt_Some _ _ _ Hj) as Lj.
  rewrite length_rotated in Li, Lj by done. rewrite rotated_lookup in Hi, Hj by done.
  pose proof (NoDup_lookup _ _ _ _ Hnd Hi Hj) as E.
  pose proof (Nat.div_mod_eq (start + i) (length l)). pose proof (Nat.div_mod_eq (start + j) (length l)).
  pose proof (Nat.mod_upper_bound (start + i) (length l) Hlen).
  assert ((start + i) / length l = (start + j) / length l)%nat by nia. lia.
Qed.

Lemma rotated_subset {A} (l : list A) start take x : x ∈ rotated l start take -> x ∈ l.
Proof.
  unfold rotated. rewrite list_elem_of_omap. intros (i & _ & Hi). by eapply list_elem_of_lookup_2.
Qed.

(** Starting one further each round, every element leads some round. *)
Lemma rotated_covers {A} (l : list A) cursor take x :
  x ∈ l -> (0 < take)%nat ->
  exists r, (r < length l)%nat /\ x ∈ rotated l ((cursor + r) mod length l) take.
Proof.
  intros Hx Ht. assert (Hl : l <> []) by (intros ->; by apply elem_of_nil in Hx).
  assert (Hlen : length l <> 0%nat) by (by destruct l).
  apply list_elem_of_lookup in Hx as [j Hj]. pose proof (lookup_lt_Some _ _ _ Hj) as Lj.
  exists ((j + (length l - cursor mod length l)) mod length l)%nat.
  split; [by apply Nat.mod_upper_bound|]. apply list_elem_of_lookup. exists 0%nat.
  rewrite rotated_lookup by done. rewrite Nat.add_0_r, Nat.Div0.mod_mod, <- Hj. f_equal.
  rewrite Nat.Div0.add_mod_idemp_r. pose proof (Nat.div_mod_eq cursor (length l)) as Hd.
  pose proof (Nat.mod_upper_bound cursor (length l) Hlen).
  replace (cursor + (j + (length l - cursor mod length l)))%nat
    with (j + (cursor / length l + 1) * length l)%nat by nia.
  rewrite Nat.Div0.mod_add. by apply Nat.mod_small.
Qed.

(** Fan-out is fair: a round addresses [min cap n] different endpoints of the
    list, and advancing the cursor by one per round, every endpoint is addressed
    within [n] rounds. *)
Theorem rotate_endpoints_fair (eps : list SocketAddr) (cursor cap : nat) :
  NoDup eps -> (0 < cap)%nat ->
  length (rotate_endpoints eps cursor cap) = (cap `min` length eps)%nat /\
  NoDup (rotate_endpoints eps cursor cap) /\
  (forall ep, ep ∈ rotate_endpoints eps cursor cap -> ep ∈ eps) /\
  (forall ep, ep ∈ eps -> exists r, (r < length eps)%nat /\ ep ∈ rotate_endpoints eps (cursor + r) cap).
Proof.
  intros Hnd Hcap. unfold rotate_endpoints. rewrite (proj2 (Nat.eqb_neq cap 0)), orb_false_r by lia.
  destruct (decide (eps = [])) as [->|Hne].
  { rewrite bool_decide_true by done. split_and!; [simpl; lia|constructor|done|by intros ep ?%elem_of_nil]. }
  rewrite bool_decide_false by done. assert (length eps <> 0%nat) by (by destruct eps). split_and!.
  - by apply length_rotated.
  - apply rotated_NoDup; [done|lia].
  - intros ep. apply rotated_subset.
  - intros ep Hep. apply rotated_covers; [done|lia].
Qed.

Lemma rotate_endpoints_fair_witness :
  length (rotate_endpoints [mkAddr (V4 1) 1; mkAddr (V4 2) 1; mkAddr (V4 3) 1] 5 2) = 2%nat.
Proof.
  apply (rotate_endpoints_fair [mkAddr (V4 1) 1; mkAddr (V4 2) 1; mkAddr (V4 3) 1] 5 2); [|lia].
  refine (bool_decide_unpack _ _). by vm_compute.
Defined.

(** ** Digests *)

(** Every record is stored under its node's id. *)
Definition keys_ok (map : ClaimMap) : Prop := forall n r, map !! n = Some r -> node_id r = n.

Lemma merge_claim_keys map c tombs fight now :
  keys_ok map -> keys_ok (merge_claim map c tombs fight now).1.1.
Proof.
  intros Hk. unfold merge_claim.
  repeat (case_match; cbn [fst]; try done);
    intros n r [[<- <-]|[_ Hl]]%lookup_insert_Some; simpl; auto.
Qed.

Section digest.
Context `{HashIter}.

(** The other members' claims a digest may carry. *)
Definition digestible (own : ClaimRecord) (map : ClaimMap) (tombs : Tombs) (now : Instant) : list ClaimRecord :=
  List.filter (fun c => negb (leave_tombstone_blocks tombs (node_id c) (vip_epoch c) now))
    (List.filter (fun c => negb (bool_decide (node_id c = node_id own))) (snd <$> hm_iter map)).

Lemma elem_of_digestible own map tombs now c :
  keys_ok map ->
  c ∈ digestible own map tombs now <->
  (map !! node_id c = Some c /\ node_id c <> node_id own /\
   leave_tombstone_blocks tombs (node_id c) (vip_epoch c) now = false).
Proof.
  intros Hk. unfold digestible. rewrite list_elem_of_In, !filter_In, <- list_elem_of_In, list_elem_of_fmap.
  rewrite !negb_true_iff, bool_decide_eq_false. split.
  - intros [[([n r] & -> & Hin%hm_iter_elem) Hn] Hb]. simpl in *. pose proof (Hk _ _ Hin). by subst n.
  - intros (Hm & Hn & Hb). split_and!; [|done..]. exists (node_id c, c). split; [done|]. by apply hm_iter_elem.
Qed.

Lemma digestible_NoDup own map tombs now :
  keys_ok map -> NoDup (node_id <$> digestible own map tombs now).
Proof.
  intros Hk. unfold digestible.
  assert (Hf : forall (f : ClaimRecord -> bool) l, NoDup (node_id <$> l) -> NoDup (node_id <$> List.filter f l)).
  { intros f l. induction l as [|x l IH]; [done|]. rewrite fmap_cons. intros [Hx Hl]%NoDup_cons. cbn [List.filter].
    destruct (f x); [|by apply IH]. rewrite fmap_cons. apply NoDup_cons. split; [|by apply IH].
    intros (y & Hy & Hin)%list_elem_of_fmap. apply Hx, list_elem_of_fmap. exists y. split; [done|].
    rewrite list_elem_of_In, filter_In, <- list_elem_of_In in Hin. apply Hin. }
  apply Hf, Hf. rewrite <- list_fmap_compose. pose proof (hm_iter_NoDup_fst map) as Hnd.
  erewrite list_fmap_ext; [exact Hnd|]. intros i [n r] Hi. simpl.
  apply list_elem_of_lookup_2, hm_iter_elem in Hi. by apply Hk.
Qed.

(** What a digest carries: the sender's own claim first, then at most
    [max_others] claims of other members, each the current record of its node and
    not blocked by a tombstone, no node twice; and advancing the cursor by one per
    round, every such claim is carried within as many rounds as there are of them. *)
Theorem gossip_digest_spec (own : ClaimRecord) (map : ClaimMap) (tombs : Tombs) (now : Instant)
    (max_others cursor : nat) :
  keys_ok map -> (0 < max_others)%nat ->
  let others := digestible own map tombs now in
  exists carried,
    build_gossip_digest_rotated own map tombs now max_others cursor = own :: carried /\
    length carried = (max_others `min` length others)%nat /\
    NoDup (node_id <$> own :: carried) /\
    (forall c, c ∈ carried ->
       map !! node_id c = Some c /\ node_id c <> node_id own /\
       leave_tombstone_blocks tombs (node_id c) (vip_epoch c) now = false) /\
    (forall c, c ∈ others -> exists r, (r < length others)%nat /\
       c ∈ build_gossip_digest_rotated own map tombs now max_others (cursor + r)).
Proof.
  intros Hk Hmax others. unfold build_gossip_digest_rotated. fold (digestible own map tombs now). fold others.
  pose proof (merge_sort_Permutation claim_le others) as Hp. set (sorted := merge_sort claim_le others) in *.
  rewrite (proj2 (Nat.eqb_neq max_others 0)), orb_false_r by lia.
  assert (Hlen : length sorted = length others) by (by rewrite Hp).
  assert (Hsub : forall s t c, c ∈ rotated sorted s t -> c ∈ others) by (intros s t c ?%rotated_subset; by rewrite <- Hp).
  destruct (decide (sorted = [])) as [Es|Hne].
  { rewrite bool_decide_true by done. rewrite Es in Hlen. exists []. split_and!; [done|simpl in *; lia|apply NoDup_singleton| |].
    - by intros c ?%elem_of_nil.
    - intros c Hc. rewrite <- Hp, Es in Hc. by apply elem_of_nil in Hc. }
  rewrite bool_decide_false by done. eexists. split_and!; [reflexivity|rewrite length_rotated by done; lia| | |].
  - rewrite fmap_cons. apply NoDup_cons. split.
    + intros (c & Hc & Hin)%list_elem_of_fmap. apply Hsub, elem_of_digestible in Hin as (_ & Hn & _); done.
    + assert (Hnd : NoDup (node_id <$> sorted)) by (rewrite Hp; by apply digestible_NoDup).
      apply NoDup_fmap_2_strong; [|apply rotated_NoDup; [by eapply NoDup_fmap_1|lia]].
      intros x y Hx%Hsub Hy%Hsub Hxy. apply elem_of_digestible in Hx as [Hx _]; [|done].
      apply elem_of_digestible in Hy as [Hy _]; [|done]. congruence.
  - intros c Hc%Hsub. by apply elem_of_digestible in Hc.
  - intros c Hc. rewrite <- Hp in Hc.
    destruct (rotated_covers sorted cursor (max_others `min` length sorted) c Hc) as (r & Hr & Hin).
    { assert (length sorted <> 0%nat) by (by destruct sorted). lia. }
    exists r. split; [by rewrite <- Hlen|]. apply elem_of_cons. by right.
Qed.
End digest.

Lemma gossip_digest_spec_witness :
  let own := mkClaim "me" "10.0.0.9" 1 [] in
  let a := mkClaim "a" "10.0.0.1" 1 [] in
  let b := mkClaim "b" "10.0.0.2" 4 [] in
  let map := {["a"%string := a; "b"%string := b]} in
  exists carried, @build_gossip_digest_rotated canonical_iter own map ∅ 0 1 3 = own :: carried /\
    length carried = 1%nat.
Proof.
  intros own a b map.
  destruct (@gossip_digest_spec canonical_iter own map ∅ 0 1 3) as (c & Hc & Hl & _).
  - intros n r. unfold map. intros [[<- <-]|[_ [<- <-]%lookup_singleton_Some]]%lookup_insert_Some; done.
  - lia.
  - exists c. split; [exact Hc|]. rewrite Hl. vm_compute. reflexivity.
Defined.

(** ** Leaving *)

(** A run of merges at the given times, the suppress table threaded through. *)
Definition merge_run (tombs : Tombs) (st : ClaimMap * Fights) (events : list (Instant * ClaimRecord))
    : ClaimMap * Fights :=
  fold_left (fun st ev => (merge_claim st.1 ev.2 tombs st.2 ev.1).1) events st.

(** A leave is final for the epochs it covers: after a node's claim is removed
    and its tombstone installed, no merge before the tombstone expires brings back
    a claim of that node at the tombstone's epoch or below, whatever is gossiped. *)
Theorem leave_blocks_old_epochs (tombs : Tombs) (n : string) (t : LeaveTombstone)
    (map : ClaimMap) (fight : Fights) (events : list (Instant * ClaimRecord)) :
  tombs !! n = Some t -> map !! n = None ->
  Forall (fun ev => ev.1 < lt_expires_at t) events ->
  forall r, (merge_run tombs (map, fight) events).1 !! n = Some r -> lt_epoch t < vip_epoch r.
Proof.
  intros Ht Hn Hev.
  assert (Hinv : forall r, map !! n = Some r -> lt_epoch t < vip_epoch r) by (intros r; by rewrite Hn).
  clear Hn. revert map fight Hinv. induction Hev as [|[now c] events Hlt _ IH]; intros map fight Hinv; [done|].
  cbn [merge_run fold_left fst snd]. destruct (merge_claim map c tombs fight now) as [[map' fight'] o] eqn:E.
  apply (IH map' fight'). intros r Hr. cbn [fst snd] in Hlt. unfold merge_claim in E.
  destruct (_ || _); [simplify_eq; by apply Hinv|].
  destruct (leave_tombstone_blocks _ _ _ _) eqn:Eb; [simplify_eq; by apply Hinv|].
  destruct (fight_suppress_blocks _ _ _ _ _); [simplify_eq; by apply Hinv|].
  assert (Hc : node_id c = n -> lt_epoch t < vip_epoch c).
  { intros <-. unfold leave_tombstone_blocks in Eb. rewrite Ht, (proj2 (Z.ltb_lt _ _) Hlt) in Eb. simpl in Eb.
    by apply Z.leb_gt. }
  repeat case_match; simplify_eq; try (by apply Hinv);
    apply lookup_insert_Some in Hr as [[? <-]|[_ Hr]]; simpl; eauto; apply Hinv; congruence.
Qed.

Lemma leave_blocks_old_epochs_witness :
  let t := mkTomb "a" "10.0.0.1" 3 1000 in
  let events := [(5, mkClaim "a" "10.0.0.1" 2 []); (6, mkClaim "a" "10.0.0.1" 4 [])] in
  (exists r, (merge_run {["a"%string := t]} (∅, ∅) events).1 !! "a"%string = Some r) /\
  forall r, (merge_run {["a"%string := t]} (∅, ∅) events).1 !! "a"%string = Some r -> lt_epoch t < vip_epoch r.
Proof.
  intros t events. split.
  - eexists. vm_compute. reflexivity.
  - apply (leave_blocks_old_epochs {["a"%string := t]} "a"%string t ∅ ∅ events).
    + reflexivity.
    + reflexivity.
    + by repeat constructor.
Defined.

(** ** Tombstones in gossip ([broadcast_claim_gossip], [handle_claim_gossip_body]) *)

Section leaves.
Context `{HashIter}.

(** The leaves part of a received digest: each one is installed anew. *)
Definition apply_gossiped_leaves (accept : string -> bool) (tombs : Tombs)
    (leaves : list (string * string * Z)) (now : Instant) : Tombs :=
  fold_left (fun ts lf =>
    match lf with
    | (nid, v, epoch) =>
        if bool_decide (nid = EmptyString) || negb (accept v) then ts
        else (install_leave_tombstone ts nid v epoch now LEAVE_TOMBSTONE_TTL).1
    end) leaves tombs.

(** One member's digest reaching another. *)
Definition gossip_leaves (accept : string -> bool) (sender receiver : Tombs) (now : Instant) : Tombs :=
  apply_gossiped_leaves accept receiver
    ((fun t => (lt_node_id t, lt_vip t, lt_epoch t))
       <$> select_leave_tombs_for_gossip sender now CLAIM_GOSSIP_LEAVE_TOMBS_MAX) now.

(** Two members gossiping in turn; the tombstones of the last receiver. *)
Fixpoint ping_pong (accept : string -> bool) (sender receiver : Tombs) (times : list Instant) : Tombs :=
  match times with
  | [] => sender
  | t :: times => ping_pong accept (gossip_leaves accept sender receiver t) sender times
  end.

(** Consecutive times less than a TTL apart. *)
Fixpoint within_ttl (prev : Instant) (times : list Instant) : Prop :=
  match times with
  | [] => True
  | t :: times => prev <= t < prev + LEAVE_TOMBSTONE_TTL /\ within_ttl t times
  end.

Lemma hm_iter_singleton (n : string) (t : LeaveTombstone) : hm_iter ({[n := t]} : Tombs) = [(n, t)].
Proof. apply Permutation_length_1_inv. by rewrite hm_iter_perm, map_to_list_singleton. Qed.

Lemma select_singleton n t now :
  now < lt_expires_at t ->
  select_leave_tombs_for_gossip {[n := t]} now CLAIM_GOSSIP_LEAVE_TOMBS_MAX = [t].
Proof.
  intros Hl. unfold select_leave_tombs_for_gossip. rewrite hm_iter_singleton. simpl.
  by rewrite (proj2 (Z.ltb_lt _ _) Hl).
Qed.

(** Gossip keeps tombstones alive for ever: each receiver restarts the
    five-minute TTL, so as long as two members exchange digests at least every
    five minutes a tombstone never expires, however long ago the node left. *)
Theorem gossiped_tombstone_never_expires (accept : string -> bool) (n v : string) (e t0 : Z)
    (times : list Instant) :
  n <> EmptyString -> claim_vip_valid v = true -> accept v = true -> within_ttl t0 times ->
  let tomb := mkTomb n v e (t0 + LEAVE_TOMBSTONE_TTL) in
  ping_pong accept {[n := tomb]} ∅ times !! n
    = Some (mkTomb n v e (default t0 (last times) + LEAVE_TOMBSTONE_TTL)).
Proof.
  intros Hn Hv Ha Ht tomb. unfold tomb. clear tomb.
  assert (Hrec : forall k, k <> n -> (∅ : Tombs) !! k = None) by (intros; apply lookup_empty).
  revert Hrec. generalize (∅ : Tombs). revert t0 Ht. induction times as [|t times IH]; intros t0 Ht b Hb.
  { simpl. by rewrite lookup_singleton_eq. }
  destruct Ht as [Hlt Ht]. cbn [ping_pong]. unfold gossip_leaves at 1.
  rewrite select_singleton by (simpl; lia). cbn [fmap list_fmap apply_gossiped_leaves fold_left lt_node_id lt_vip lt_epoch].
  unfold apply_gossiped_leaves. cbn [fold_left]. rewrite bool_decide_false, Ha by done. cbn [orb negb].
  unfold install_leave_tombstone. rewrite bool_decide_false, Hv by done. cbn [orb negb fst].
  assert (<[n := mkTomb n v e (t + LEAVE_TOMBSTONE_TTL)]> b = {[n := mkTomb n v e (t + LEAVE_TOMBSTONE_TTL)]}) as ->.
  { apply map_eq. intros k. destruct (decide (k = n)) as [->|Hk]; [by rewrite lookup_insert_eq, lookup_singleton_eq|].
    rewrite lookup_insert_ne, lookup_singleton_ne by done. by apply Hb. }
  rewrite (IH t Ht) by (intros; by apply lookup_singleton_ne).
  rewrite last_cons. by destruct (last times).
Qed.
End leaves.

Lemma gossiped_tombstone_never_expires_witness :
  let m := from_secs 240 in
  @ping_pong canonical_iter (fun _ => true) {["a"%string := mkTomb "a" "10.0.0.1" 3 (0 + LEAVE_TOMBSTONE_TTL)]} ∅
    [m; 2 * m; 3 * m; 4 * m; 5 * m] !! "a"%string
  = Some (mkTomb "a" "10.0.0.1" 3 (5 * m + LEAVE_TOMBSTONE_TTL)).
Proof.
  intros m. apply (@gossiped_tombstone_never_expires canonical_iter (fun _ => true) "a" "10.0.0.1" 3 0
    [m; 2 * m; 3 * m; 4 * m; 5 * m]); [done|by vm_compute|done|].
  unfold m. repeat split; vm_compute; congruence.
Defined.

(** A stale leave weakens a newer tombstone: installing the leave of an older
    epoch over it lifts the block on the epochs in between. *)
Lemma stale_leave_lifts_block tombs n v e_old e now :
  n <> EmptyString -> claim_vip_valid v = true -> e_old < e ->
  let tombs1 := (install_leave_tombstone tombs n v e now LEAVE_TOMBSTONE_TTL).1 in
  let tombs2 := (install_leave_tombstone tombs1 n v e_old now LEAVE_TOMBSTONE_TTL).1 in
  leave_tombstone_blocks tombs1 n e now = true /\ leave_tombstone_blocks tombs2 n e now = false.
Proof.
  intros Hn Hv He. unfold install_leave_tombstone. rewrite bool_decide_false, Hv by done. cbn [orb negb fst].
  unfold leave_tombstone_blocks. rewrite !lookup_insert_eq. cbn [lt_expires_at lt_epoch].
  unfold LEAVE_TOMBSTONE_TTL, from_secs. rewrite (proj2 (Z.ltb_lt _ _)) by lia. cbn [andb].
  split; [apply Z.leb_le; lia|apply Z.leb_gt; lia].
Qed.
