(* ===== verification/Reliable.v ===== *)
(** * Reliable delivery ([src/src/net/reliable.rs] and its receiver in
    [src/src/net/engine.rs])

    The sender keeps unacknowledged packets in a map and their deadlines in a
    heap with lazy deletion; a tick retransmits or gives up the packets whose
    deadline has passed.  [BinaryHeap] of [Reverse] pairs is a list sorted by
    (deadline, sequence number): [peek] is its head. *)

From S2P Require Import Prelude Float Packet.

Definition MAX_PENDING : Z := 256.
Definition RTO_MIN_MS : Z := 50.
Definition RTO_MAX_MS : Z := 400.
Definition DEFAULT_SRTT_MS : Z := 100.
Definition DEFAULT_RTTVAR_MS : Z := 50.
Definition SRTT_MIN_MS : Z := 5.

(** ** Retransmission timeout ([i32] arithmetic) *)

Definition compute_rto_ms (srtt_ms rttvar_ms rto_min rto_max : Z) : Z :=
  let srtt := Z.max srtt_ms SRTT_MIN_MS in
  let rttvar := Z.max rttvar_ms 1 in
  wrap 32 (clamp (swrap 32 rto_min) (swrap 32 rto_max)
             (swrap 32 (srtt + Z.max (swrap 32 (4 * rttvar)) 10))).

Definition initial_rto_for_send (srtt_ms rttvar_ms : Z) (rtt_hint_ms : option Z) (rto_min rto_max : Z) : Z :=
  let base := compute_rto_ms srtt_ms rttvar_ms rto_min rto_max in
  match rtt_hint_ms with
  | Some r =>
      if r >? 0 then
        let rv := Z.max (Z.quot r 2) 10 in
        Z.min base (compute_rto_ms (Z.max r 20) rv rto_min rto_max)
      else base
  | None => base
  end.

(** ** State *)

Record PendingPacket := mkPending {
  data : bytes;
  dest : SocketAddr;
  next_at : option Instant;
  enqueued_at : Instant;
  actual_sent_at : option Instant;
  retransmitted : bool;
  p_retries_left : Z;
  rto_ms : Z
}.
#[export] Instance eta_PendingPacket : Settable PendingPacket :=
  fun r => mkPending (data r) (dest r) (next_at r) (enqueued_at r) (actual_sent_at r)
             (retransmitted r) (p_retries_left r) (rto_ms r).

Record ReliableChannel := mkChannel {
  next_seq : Z;
  pending_pkts : gmap Z PendingPacket;
  due_heap : list (Instant * Z);
  next_due_at : option Instant;
  srtt_ms : Z;
  rttvar_ms : Z;
  rto_min_ms : Z;
  rto_max_ms : Z;
  max_pending : Z;
  retries_left : Z
}.
#[export] Instance eta_ReliableChannel : Settable ReliableChannel :=
  fun r => mkChannel (next_seq r) (pending_pkts r) (due_heap r) (next_due_at r) (srtt_ms r)
             (rttvar_ms r) (rto_min_ms r) (rto_max_ms r) (max_pending r) (retries_left r).

Ltac ch_simpl :=
  cbn [setter next_seq pending_pkts due_heap next_due_at srtt_ms rttvar_ms rto_min_ms rto_max_ms
       max_pending retries_left data dest next_at enqueued_at actual_sent_at retransmitted
       p_retries_left rto_ms] in *.

Inductive SendResult := Queued (seq : Z) (packet : bytes) | Backpressure.

Record ReliableTuning := mkRTuning {
  t_rto_min_ms : Z; t_rto_max_ms : Z; t_max_pending : Z; t_retries_left : Z;
  t_send_scratch_bytes : Z
}.

(** ** Heap *)

(** Order of [(Instant, u32)]. *)
Definition due_le (a b : Instant * Z) : Prop := a.1 < b.1 \/ (a.1 = b.1 /\ a.2 <= b.2).
#[export] Instance due_le_dec : RelDecision due_le.
Proof. intros a b. unfold due_le. apply _. Defined.

Fixpoint heap_push (x : Instant * Z) (h : list (Instant * Z)) : list (Instant * Z) :=
  match h with
  | [] => [x]
  | y :: h' => if decide (due_le x y) then x :: h else y :: heap_push x h'
  end.

(** The top entry is current: its packet is pending with that very deadline. *)
Definition heap_valid (pending : gmap Z PendingPacket) (e : Instant * Z) : bool :=
  match pending !! e.2 with
  | None => false
  | Some p => bool_decide (next_at p = Some e.1)
  end.

Fixpoint pop_stale (pending : gmap Z PendingPacket) (h : list (Instant * Z)) : list (Instant * Z) :=
  match h with
  | [] => []
  | e :: h' => if heap_valid pending e then h else pop_stale pending h'
  end.

Definition pop_stale_due_heap_top (c : ReliableChannel) : ReliableChannel :=
  c <| due_heap := pop_stale (pending_pkts c) (due_heap c) |>.

Definition refresh_next_due_from_heap (c : ReliableChannel) : ReliableChannel :=
  let c := pop_stale_due_heap_top c in
  c <| next_due_at := fst <$> head (due_heap c) |>.

Definition rebuild_due_heap_from_pending (c : ReliableChannel) : ReliableChannel :=
  refresh_next_due_from_heap
    (c <| due_heap :=
       map_fold (fun seq p h => match next_at p with Some t => heap_push (t, seq) h | None => h end)
         [] (pending_pkts c) |>).

(** ** Operations *)

Definition new_channel : ReliableChannel :=
  mkChannel 1 ∅ [] None DEFAULT_SRTT_MS DEFAULT_RTTVAR_MS RTO_MIN_MS RTO_MAX_MS MAX_PENDING 1.

Definition apply_tuning (c : ReliableChannel) (t : ReliableTuning) : ReliableChannel :=
  c <| rto_min_ms := t_rto_min_ms t |> <| rto_max_ms := t_rto_max_ms t |>
    <| max_pending := t_max_pending t |> <| retries_left := t_retries_left t |>.

Definition reset_session (c : ReliableChannel) : ReliableChannel :=
  c <| pending_pkts := ∅ |> <| due_heap := [] |> <| next_due_at := None |> <| next_seq := 1 |>
    <| srtt_ms := DEFAULT_SRTT_MS |> <| rttvar_ms := DEFAULT_RTTVAR_MS |>.

Definition reliable_frame (seq : Z) (inner : CompactPacketType) (body : bytes) : bytes :=
  [to_byte Reliable] ++ be_bytes 4 seq ++ [to_byte inner] ++ body.

Definition send (c : ReliableChannel) (inner : CompactPacketType) (body : bytes) (to : SocketAddr)
    (rtt_hint_ms : option Z) (now : Instant) : ReliableChannel * SendResult :=
  if Z.of_nat (size (pending_pkts c)) >=? max_pending c then (c, Backpressure)
  else
    let seq := next_seq c in
    let c := c <| next_seq := wrap 32 (next_seq c + 1) |> in
    let packet := reliable_frame seq inner body in
    let initial_rto :=
      initial_rto_for_send (srtt_ms c) (rttvar_ms c) rtt_hint_ms (rto_min_ms c) (rto_max_ms c) in
    let due := now + from_millis initial_rto in
    let p := mkPending packet to (Some due) now None false (retries_left c) initial_rto in
    let c := c <| pending_pkts := <[seq := p]> (pending_pkts c) |> in
    let c := c <| due_heap := heap_push (due, seq) (due_heap c) |> in
    (refresh_next_due_from_heap c, Queued seq packet).

Definition mark_sent (c : ReliableChannel) (seq : Z) (sent_at : Instant) : ReliableChannel :=
  match pending_pkts c !! seq with
  | None => c
  | Some p =>
      match actual_sent_at p with
      | Some _ => c
      | None =>
          let new_deadline := sent_at + from_millis (rto_ms p) in
          let p := p <| actual_sent_at := Some sent_at |> <| next_at := Some new_deadline |> in
          let c := c <| pending_pkts := <[seq := p]> (pending_pkts c) |> in
          let c := c <| due_heap := heap_push (new_deadline, seq) (due_heap c) |> in
          refresh_next_due_from_heap c
      end
  end.

Definition ack_packet (seq : Z) : bytes := [to_byte Ack] ++ be_bytes 4 seq.

(** [sent.elapsed().as_millis().max(1) as i32]. *)
Definition rtt_sample_ms (sent now : Instant) : Z := swrap 32 (Z.max (as_millis (duration_since now sent)) 1).

Definition on_ack (c : ReliableChannel) (seq : Z) (from : SocketAddr) (now : Instant) : ReliableChannel :=
  match pending_pkts c !! seq with
  | None => c
  | Some p =>
      if bool_decide (from = dest p) || bool_decide (sa_ip from = sa_ip (dest p)) then
        let c := c <| pending_pkts := delete seq (pending_pkts c) |> in
        let c :=
          if retransmitted p then c
          else
            let sent := default (enqueued_at p) (actual_sent_at p) in
            let rtt := rtt_sample_ms sent now in
            let rttvar := Z.quot (swrap 32 (swrap 32 (3 * rttvar_ms c) + swrap 32 (Z.abs (swrap 32 (srtt_ms c - rtt))))) 4 in
            let srtt := Z.quot (swrap 32 (swrap 32 (7 * srtt_ms c) + rtt)) 8 in
            c <| rttvar_ms := Z.max rttvar 1 |> <| srtt_ms := Z.max srtt SRTT_MIN_MS |> in
        refresh_next_due_from_heap c
      else c
  end.

Definition migrate_dest (c : ReliableChannel) (old_dest new_dest : SocketAddr) : ReliableChannel :=
  if bool_decide (old_dest = new_dest) then c
  else
    refresh_next_due_from_heap
      (c <| pending_pkts :=
         (fun p => if bool_decide (dest p = old_dest) then p <| dest := new_dest |> else p)
           <$> pending_pkts c |>).

Definition flush_dest (c : ReliableChannel) (d : SocketAddr) : ReliableChannel :=
  rebuild_due_heap_from_pending
    (c <| pending_pkts := retain (fun _ p => negb (bool_decide (dest p = d))) (pending_pkts c) |>).

(** ** The tick

    One iteration of the loop either returns ([inr]) or continues ([inl]) with
    the channel, the retransmissions and the failures so far. *)

Abbreviation TickState := (ReliableChannel * list (bytes * SocketAddr) * list (Z * SocketAddr))%type.

(** [min] of the remaining deadlines, when nothing could be put in the heap. *)
Definition min_next_at (c : ReliableChannel) : option Instant :=
  map_fold (fun _ p acc =>
    match next_at p, acc with
    | Some t, Some a => Some (Z.min t a)
    | Some t, None => Some t
    | None, acc => acc
    end) None (pending_pkts c).

Definition retransmit (c : ReliableChannel) (p : PendingPacket) (now : Instant) : PendingPacket :=
  let rto := clamp (rto_min_ms c) (rto_max_ms c) (wrap 32 (rto_ms p * 2)) in
  p <| retransmitted := true |> <| p_retries_left := p_retries_left p - 1 |> <| rto_ms := rto |>
    <| next_at := Some (now + from_millis rto) |>.

Definition tick_iter (st : TickState) (now : Instant) : TickState + TickState :=
  let '(c, out, fails) := st in
  let c := pop_stale_due_heap_top c in
  match due_heap c with
  | [] =>
      if bool_decide (pending_pkts c = ∅) then inr (c <| next_due_at := None |>, out, fails)
      else
        let c := rebuild_due_heap_from_pending c in
        match due_heap c with
        | [] => inr (c <| next_due_at := min_next_at c |>, out, fails)
        | _ => inl (c, out, fails)
        end
  | (t, seq) :: h =>
      if t >? now then inr (c <| next_due_at := Some t |>, out, fails)
      else
        let c := c <| due_heap := h |> in
        match pending_pkts c !! seq with
        | None => inl (c, out, fails)
        | Some p =>
            if negb (bool_decide (next_at p = Some t)) then inl (c, out, fails)
            else if p_retries_left p =? 0 then
              inl (c <| pending_pkts := delete seq (pending_pkts c) |>, out, fails ++ [(seq, dest p)])
            else
              let p := retransmit c p now in
              let c := c <| pending_pkts := <[seq := p]> (pending_pkts c) |> in
              let new_at := now + from_millis (rto_ms p) in
              inl (c <| due_heap := heap_push (new_at, seq) (due_heap c) |>,
                   out ++ [(data p, dest p)], fails)
        end
  end.

Fixpoint tick_loop (fuel : nat) (st : TickState) (now : Instant) : option TickState :=
  match fuel with
  | O => None
  | S fuel => match tick_iter st now with inr r => Some r | inl st => tick_loop fuel st now end
  end.

(** The retransmissions that are left in the channel, plus one give-up each. *)
Definition budget_step (seq : Z) (p : PendingPacket) (n : nat) : nat :=
  (Z.to_nat (p_retries_left p) + 1 + n)%nat.
Definition budget_of (m : gmap Z PendingPacket) : nat := map_fold budget_step 0%nat m.
Definition budget (c : ReliableChannel) : nat := budget_of (pending_pkts c).

Definition tick_into (c : ReliableChannel) (now : Instant) : option TickState :=
  if bool_decide (pending_pkts c = ∅)
  then Some (c <| due_heap := [] |> <| next_due_at := None |>, [], [])
  else tick_loop (S (budget c)) (c, [], []) now.

(** ** Invariant

    The heap is sorted and holds the deadline of every pending packet (besides
    stale entries); the cached next deadline is the earliest one. *)

Definition covers (pending : gmap Z PendingPacket) (h : list (Instant * Z)) : Prop :=
  forall seq p, pending !! seq = Some p -> exists t, next_at p = Some t /\ (t, seq) ∈ h.

Definition core_ok (c : ReliableChannel) : Prop :=
  StronglySorted due_le (due_heap c) /\ covers (pending_pkts c) (due_heap c).

Definition earliest (pending : gmap Z PendingPacket) (o : option Instant) : Prop :=
  match o with
  | None => pending = ∅
  | Some t =>
      (exists seq p, pending !! seq = Some p /\ next_at p = Some t) /\
      forall seq p t', pending !! seq = Some p -> next_at p = Some t' -> t <= t'
  end.

Definition channel_ok (c : ReliableChannel) : Prop :=
  core_ok c /\ earliest (pending_pkts c) (next_due_at c).

#[export] Instance due_le_trans : Transitive due_le.
Proof. intros a b c. unfold due_le. lia. Qed.

Lemma due_le_total a b : due_le a b \/ due_le b a.
Proof. unfold due_le. lia. Qed.

Lemma heap_push_perm x h : heap_push x h ≡ₚ x :: h.
Proof.
  induction h as [|y h IH]; [done|]. cbn [heap_push]. case_decide; [done|].
  rewrite IH. apply Permutation_swap.
Qed.

Lemma heap_push_sorted x h : StronglySorted due_le h -> StronglySorted due_le (heap_push x h).
Proof.
  induction 1 as [|y h Hs IH Hy]; [by repeat constructor|]. cbn [heap_push].
  case_decide as Hd; [|constructor; [done|]].
  - constructor; [by constructor|]. constructor; [done|]. eapply Forall_impl; [done|]. intros z. by etrans.
  - rewrite heap_push_perm. constructor; [|done]. by destruct (due_le_total x y).
Qed.

Lemma pop_stale_sorted pending h : StronglySorted due_le h -> StronglySorted due_le (pop_stale pending h).
Proof. induction 1 as [|y h Hs IH Hy]; [constructor|]. cbn [pop_stale]. by destruct (heap_valid _ _); [constructor|]. Qed.

Lemma pop_stale_covers pending h : covers pending h -> covers pending (pop_stale pending h).
Proof.
  intros Hc seq p Hp. destruct (Hc seq p Hp) as (t & Ht & Hin). exists t. split; [done|].
  clear Hc. induction h as [|e h IH]; [done|]. cbn [pop_stale]. destruct (heap_valid pending e) eqn:Ev; [done|].
  apply elem_of_cons in Hin as [<-|Hin]; [|by apply IH]. unfold heap_valid in Ev. cbn [fst snd] in Ev.
  rewrite Hp in Ev. breflect. congruence.
Qed.

Lemma pop_stale_head pending h e h' : pop_stale pending h = e :: h' -> heap_valid pending e = true.
Proof.
  induction h as [|x h IH]; [done|]. cbn [pop_stale]. destruct (heap_valid pending x) eqn:Ev; [|done].
  by intros [= <- <-].
Qed.

Lemma heap_valid_spec pending t seq :
  heap_valid pending (t, seq) = true <-> exists p, pending !! seq = Some p /\ next_at p = Some t.
Proof.
  unfold heap_valid. cbn [fst snd]. destruct (pending !! seq) as [p|].
  - rewrite bool_decide_eq_true. naive_solver.
  - naive_solver.
Qed.

Lemma pop_stale_core c : core_ok c -> core_ok (pop_stale_due_heap_top c).
Proof. intros [Hs Hc]. split; ch_simpl; [by apply pop_stale_sorted|by apply pop_stale_covers]. Qed.

(** The head of a popped heap is the earliest deadline. *)
Lemma popped_earliest c :
  core_ok c ->
  earliest (pending_pkts c) (fst <$> head (due_heap (pop_stale_due_heap_top c))).
Proof.
  intros Hc. pose proof (pop_stale_core c Hc) as [Hs Hcov]. unfold pop_stale_due_heap_top in *. ch_simpl.
  destruct (pop_stale (pending_pkts c) (due_heap c)) as [|[t seq] h] eqn:E; simpl.
  - apply map_empty. intros k. destruct (pending_pkts c !! k) as [p|] eqn:Ek; [|done].
    destruct (Hcov k p Ek) as (? & _ & Hin). by apply elem_of_nil in Hin.
  - apply pop_stale_head, heap_valid_spec in E as (p & Hp & Ht). split; [by exists seq, p|].
    intros seq' p' t' Hp' Ht'. destruct (Hcov seq' p' Hp') as (t2 & Ht2 & Hin). simplify_eq.
    apply elem_of_cons in Hin as [[= -> ->]|Hin]; [lia|].
    apply StronglySorted_inv in Hs as [_ Hall]. rewrite Forall_forall in Hall.
    specialize (Hall _ Hin). unfold due_le in Hall. simpl in Hall. lia.
Qed.

Lemma empty_channel_ok c :
  pending_pkts c = ∅ -> due_heap c = [] -> next_due_at c = None -> channel_ok c.
Proof.
  intros Hp Hh Hn. unfold channel_ok, core_ok. rewrite Hp, Hh, Hn.
  split; [split; [apply SSorted_nil|]|done]. intros s q. by rewrite lookup_empty.
Qed.

Lemma refresh_ok c : core_ok c -> channel_ok (refresh_next_due_from_heap c).
Proof.
  intros Hc. destruct (pop_stale_core c Hc) as [H1 H2]. split; [by split|]. exact (popped_earliest c Hc).
Qed.

Lemma push_core c t seq p :
  core_ok c -> next_at p = Some t ->
  core_ok (c <| pending_pkts := <[seq := p]> (pending_pkts c) |> <| due_heap := heap_push (t, seq) (due_heap c) |>).
Proof.
  intros [Hs Hc] Ht. split; ch_simpl; [by apply heap_push_sorted|].
  intros seq' p' [[<- <-]|[Hne Hl]]%lookup_insert_Some.
  - exists t. split; [done|]. rewrite heap_push_perm. by apply elem_of_cons; left.
  - destruct (Hc seq' p' Hl) as (t' & Ht' & Hin). exists t'. split; [done|].
    rewrite heap_push_perm. by apply elem_of_cons; right.
Qed.

(** Removing packets, or changing fields other than the deadline, keeps the core. *)
Lemma shrink_core c m :
  core_ok c ->
  (forall seq p, m !! seq = Some p -> exists p0, pending_pkts c !! seq = Some p0 /\ next_at p0 = next_at p) ->
  core_ok (c <| pending_pkts := m |>).
Proof.
  intros [Hs Hc] Hm. split; ch_simpl; [done|]. intros seq p Hp.
  destruct (Hm seq p Hp) as (p0 & Hp0 & <-). by apply (Hc seq p0).
Qed.

Lemma rebuild_core c :
  (forall seq p, pending_pkts c !! seq = Some p -> is_Some (next_at p)) ->
  core_ok (c <| due_heap :=
     map_fold (fun seq p h => match next_at p with Some t => heap_push (t, seq) h | None => h end)
       [] (pending_pkts c) |>).
Proof.
  intros Hall. unfold core_ok. ch_simpl. revert Hall.
  apply (map_fold_weak_ind (fun h m => (forall seq p, m !! seq = Some p -> is_Some (next_at p)) ->
    StronglySorted due_le h /\ covers m h)).
  - intros _. split; [constructor|]. intros seq p. by rewrite lookup_empty.
  - intros i x m h Hi IH Hall. destruct (Hall i x) as [t Ht]; [by rewrite lookup_insert_eq|]. rewrite Ht.
    destruct IH as [Hs Hc].
    { intros seq p Hp. apply (Hall seq). rewrite lookup_insert_ne; [done|]. intros ->. congruence. }
    split; [by apply heap_push_sorted|]. intros seq p [[<- <-]|[_ Hl]]%lookup_insert_Some.
    + exists t. split; [done|]. rewrite heap_push_perm. by apply elem_of_cons; left.
    + destruct (Hc _ _ Hl) as (t' & ? & ?). exists t'. split; [done|].
      rewrite heap_push_perm. by apply elem_of_cons; right.
Qed.

Lemma core_next_at c seq p : core_ok c -> pending_pkts c !! seq = Some p -> is_Some (next_at p).
Proof. intros [_ Hc] Hp. destruct (Hc _ _ Hp) as (t & -> & _). eauto. Qed.

(** ** The tick *)

Definition is_due (now : Instant) (p : PendingPacket) : bool :=
  match next_at p with Some t => t <=? now | None => false end.

(** A tick never touches the configuration. *)
Lemma tick_iter_config st now :
  match tick_iter st now with
  | inl r | inr r =>
      rto_min_ms r.1.1 = rto_min_ms st.1.1 /\ rto_max_ms r.1.1 = rto_max_ms st.1.1 /\
      retries_left r.1.1 = retries_left st.1.1
  end.
Proof. destruct st as [[c out] fails]. unfold tick_iter. repeat case_match; simplify_eq; done. Qed.

Lemma tick_loop_config fuel st now r :
  tick_loop fuel st now = Some r ->
  rto_min_ms r.1.1 = rto_min_ms st.1.1 /\ rto_max_ms r.1.1 = rto_max_ms st.1.1 /\
  retries_left r.1.1 = retries_left st.1.1.
Proof.
  revert st. induction fuel as [|fuel IH]; intros st; [done|]. cbn [tick_loop].
  pose proof (tick_iter_config st now) as H. destruct (tick_iter st now) as [st'|r']; [|by intros [= <-]].
  intros (H1 & H2 & H3)%IH. destruct H as (? & ? & ?). split_and!; congruence.
Qed.

Lemma tick_into_config c now r :
  tick_into c now = Some r ->
  rto_min_ms r.1.1 = rto_min_ms c /\ rto_max_ms r.1.1 = rto_max_ms c /\ retries_left r.1.1 = retries_left c.
Proof.
  unfold tick_into. destruct (bool_decide _); [by intros [= <-]|]. intros H. by apply tick_loop_config in H.
Qed.

(** What a tick does to one packet: nothing, drop it, or retransmit it. *)
Definition tick_one (c : ReliableChannel) (now : Instant) (p : PendingPacket) : option PendingPacket :=
  if is_due now p then if p_retries_left p =? 0 then None else Some (retransmit c p now) else Some p.

Definition tick_sent (now : Instant) (kv : Z * PendingPacket) : option (bytes * SocketAddr) :=
  if is_due now kv.2 && negb (p_retries_left kv.2 =? 0) then Some (data kv.2, dest kv.2) else None.

Definition tick_failed (now : Instant) (kv : Z * PendingPacket) : option (Z * SocketAddr) :=
  if is_due now kv.2 && (p_retries_left kv.2 =? 0) then Some (kv.1, dest kv.2) else None.

(** Retry counts are unsigned, and a retransmission is scheduled in the future. *)
Definition tuning_ok (c : ReliableChannel) : Prop := 1 <= rto_min_ms c <= rto_max_ms c.
Definition retries_ok (c : ReliableChannel) : Prop :=
  map_Forall (fun _ p => 0 <= p_retries_left p) (pending_pkts c).

Lemma budget_delete m seq p :
  m !! seq = Some p -> budget_of m = (Z.to_nat (p_retries_left p) + 1 + budget_of (delete seq m))%nat.
Proof. intros Hp. apply (map_fold_delete_L budget_step); [unfold budget_step; lia|done]. Qed.

Lemma budget_insert m seq p :
  budget_of (<[seq := p]> m) = (Z.to_nat (p_retries_left p) + 1 + budget_of (delete seq m))%nat.
Proof.
  rewrite <- insert_delete_eq.
  apply (map_fold_insert_L budget_step); [unfold budget_step; lia|apply lookup_delete_eq].
Qed.

Lemma retransmit_not_due c p now : tuning_ok c -> is_due now (retransmit c p now) = false.
Proof.
  intros [H1 H2]. unfold is_due, retransmit. ch_simpl. apply Z.leb_gt.
  pose proof (clamp_bounds (rto_min_ms c) (rto_max_ms c) (wrap 32 (rto_ms p * 2)) H2). unfold from_millis. lia.
Qed.

(** The list of pending packets around one of them. *)
Lemma split_list (m : gmap Z PendingPacket) seq p :
  m !! seq = Some p -> map_to_list m ≡ₚ (seq, p) :: map_to_list (delete seq m).
Proof. intros. by rewrite map_to_list_delete. Qed.

Lemma put_list (m : gmap Z PendingPacket) seq p :
  map_to_list (<[seq := p]> m) ≡ₚ (seq, p) :: map_to_list (delete seq m).
Proof. rewrite <- insert_delete_eq. apply map_to_list_insert, lookup_delete_eq. Qed.

(** One continuing iteration handles one due packet. *)
Lemma tick_iter_step c out fails now t seq h :
  core_ok c -> due_heap (pop_stale_due_heap_top c) = (t, seq) :: h -> t <= now ->
  exists p, pending_pkts c !! seq = Some p /\ is_due now p = true /\
    exists c',
      (if p_retries_left p =? 0 then
         tick_iter (c, out, fails) now = inl (c', out, fails ++ [(seq, dest p)]) /\
         pending_pkts c' = delete seq (pending_pkts c)
       else
         tick_iter (c, out, fails) now = inl (c', out ++ [(data p, dest p)], fails) /\
         pending_pkts c' = <[seq := retransmit c p now]> (pending_pkts c)) /\
      core_ok c' /\ rto_min_ms c' = rto_min_ms c /\ rto_max_ms c' = rto_max_ms c.
Proof.
  intros Hc Eh Ht. destruct (pop_stale_core c Hc) as [Hs Hcov].
  assert (Hv : exists p, pending_pkts c !! seq = Some p /\ next_at p = Some t)
    by (by apply heap_valid_spec, (pop_stale_head _ (due_heap c) _ h)).
  destruct Hv as (p & Hp & Hn). exists p. split; [done|].
  split; [unfold is_due; rewrite Hn; by apply Z.leb_le|].
  unfold tick_iter. rewrite Eh, Z.gtb_ltb, (proj2 (Z.ltb_ge _ _)) by done. rewrite Eh in Hs, Hcov.
  apply StronglySorted_inv in Hs as [Hs _].
  assert (Hrest : forall s q, s <> seq -> pending_pkts c !! s = Some q -> exists t', next_at q = Some t' /\ (t', s) ∈ h).
  { intros s q Hne Hq. destruct (Hcov s q Hq) as (t' & Ht' & Hin). exists t'. split; [done|].
    by apply elem_of_cons in Hin as [[= -> ->]|Hin]. }
  unfold pop_stale_due_heap_top. ch_simpl. rewrite Hp, bool_decide_true by done. cbn [negb].
  destruct (p_retries_left p =? 0).
  - eexists. split; [split; [reflexivity|done]|]. split; [|done]. split; ch_simpl; [done|].
    intros s q [Hne Hq]%lookup_delete_Some. by apply Hrest.
  - eexists. split; [split; [reflexivity|done]|]. split; [|done]. split; ch_simpl; [by apply heap_push_sorted|].
    intros s q [[<- <-]|[Hne Hq]]%lookup_insert_Some.
    + eexists. split; [reflexivity|]. rewrite heap_push_perm. by apply elem_of_cons; left.
    + destruct (Hrest s q) as (t' & ? & ?); [done..|]. exists t'. split; [done|].
      rewrite heap_push_perm. by apply elem_of_cons; right.
Qed.

(** An iteration that returns does so with nothing due. *)
Lemma tick_iter_done c out fails now :
  core_ok c -> match due_heap (pop_stale_due_heap_top c) with [] => True | e :: _ => now < e.1 end ->
  exists c', tick_iter (c, out, fails) now = inr (c', out, fails) /\ channel_ok c' /\
    pending_pkts c' = pending_pkts c /\ map_Forall (fun _ p => is_due now p = false) (pending_pkts c).
Proof.
  intros Hc Hh. destruct (pop_stale_core c Hc) as [Hs Hcov]. pose proof (popped_earliest c Hc) as He.
  unfold tick_iter. destruct (due_heap (pop_stale_due_heap_top c)) as [|[t seq] h] eqn:Eh; simpl in He.
  - rewrite bool_decide_true by done. eexists. split_and!; [reflexivity| |done|].
    + split; [|exact He]. split; ch_simpl; [by rewrite Eh|]. unfold pop_stale_due_heap_top in *. ch_simpl.
      rewrite He. intros s q. by rewrite lookup_empty.
    + rewrite He. apply map_Forall_empty.
  - simpl in Hh. rewrite Z.gtb_ltb, (proj2 (Z.ltb_lt _ _)) by done. eexists. split_and!; [reflexivity| |done|].
    + split; [split; ch_simpl; by rewrite Eh|exact He].
    + intros s q Hq. destruct (core_next_at c s q Hc Hq) as [t' Ht']. unfold is_due. rewrite Ht'.
      destruct He as [_ He]. specialize (He s q t' Hq Ht'). apply Z.leb_gt. lia.
Qed.

(** The result of handling one packet, on the whole map. *)
Lemma omap_delete_due c now (m : gmap Z PendingPacket) seq p :
  m !! seq = Some p -> tick_one c now p = None ->
  omap (tick_one c now) (delete seq m) = omap (tick_one c now) m.
Proof.
  intros Hp Hn. apply map_eq. intros k. rewrite !lookup_omap.
  destruct (decide (k = seq)) as [->|Hk]; [by rewrite lookup_delete_eq, Hp; simpl|].
  by rewrite lookup_delete_ne by done.
Qed.

Lemma omap_insert_due c now (m : gmap Z PendingPacket) seq p p' :
  m !! seq = Some p -> tick_one c now p = Some p' -> tick_one c now p' = Some p' ->
  omap (tick_one c now) (<[seq := p']> m) = omap (tick_one c now) m.
Proof.
  intros Hp Hn Hn'. apply map_eq. intros k. rewrite !lookup_omap.
  destruct (decide (k = seq)) as [->|Hk]; [rewrite lookup_insert_eq, Hp; simpl; congruence|].
  by rewrite lookup_insert_ne by done.
Qed.

Lemma tick_one_ext c c' now p :
  rto_min_ms c' = rto_min_ms c -> rto_max_ms c' = rto_max_ms c -> tick_one c' now p = tick_one c now p.
Proof. intros H1 H2. unfold tick_one, retransmit. by rewrite H1, H2. Qed.

Lemma omap_tick_ext c c' now (m : gmap Z PendingPacket) :
  rto_min_ms c' = rto_min_ms c -> rto_max_ms c' = rto_max_ms c ->
  omap (tick_one c' now) m = omap (tick_one c now) m.
Proof.
  intros H1 H2. apply map_eq. intros k. rewrite !lookup_omap. destruct (m !! k); [|done].
  simpl. by apply tick_one_ext.
Qed.

Lemma tick_none_due c now (m : gmap Z PendingPacket) :
  map_Forall (fun _ p => is_due now p = false) m ->
  omap (tick_one c now) m = m /\ omap (tick_sent now) (map_to_list m) = [] /\
  omap (tick_failed now) (map_to_list m) = [].
Proof.
  intros Hall. split.
  - apply map_eq. intros k. rewrite lookup_omap. destruct (m !! k) as [p|] eqn:E; [|done].
    simpl. unfold tick_one. by rewrite (Hall _ _ E).
  - assert (Hl : Forall (fun kv => is_due now kv.2 = false) (map_to_list m)).
    { apply Forall_forall. intros [k p] Hin%elem_of_map_to_list. apply (Hall _ _ Hin). }
    induction Hl as [|[k p] l Hp _ IH]; [done|]. unfold tick_sent, tick_failed in *. simpl in *. by rewrite Hp.
Qed.

Lemma tick_loop_spec fuel c out fails now :
  core_ok c -> tuning_ok c -> retries_ok c -> (budget c < fuel)%nat ->
  exists c' out' fails',
    tick_loop fuel (c, out, fails) now = Some (c', out', fails') /\ channel_ok c' /\
    pending_pkts c' = omap (tick_one c now) (pending_pkts c) /\
    map_Forall (fun _ p => is_due now p = false) (pending_pkts c') /\
    out' ≡ₚ out ++ omap (tick_sent now) (map_to_list (pending_pkts c)) /\
    fails' ≡ₚ fails ++ omap (tick_failed now) (map_to_list (pending_pkts c)).
Proof.
  revert c out fails. induction fuel as [|fuel IH]; intros c out fails Hc Ht Hr Hb; [lia|]. cbn [tick_loop].
  destruct (due_heap (pop_stale_due_heap_top c)) as [|[t seq] h] eqn:Eh.
  { destruct (tick_iter_done c out fails now Hc) as (c' & -> & Hok & Hp & Hnd); [by rewrite Eh|].
    destruct (tick_none_due c now _ Hnd) as (-> & -> & ->). exists c', out, fails. rewrite !app_nil_r, Hp. done. }
  destruct (Z.le_gt_cases t now) as [Hle|Hgt]; cycle 1.
  { destruct (tick_iter_done c out fails now Hc) as (c' & -> & Hok & Hp & Hnd); [by rewrite Eh|].
    destruct (tick_none_due c now _ Hnd) as (-> & -> & ->). exists c', out, fails. rewrite !app_nil_r, Hp. done. }
  destruct (tick_iter_step c out fails now t seq h Hc Eh Hle) as (p & Hp & Hdue & c1 & Hcase & Hc1 & Hmin & Hmax).
  assert (Ht1 : tuning_ok c1) by (unfold tuning_ok in *; lia).
  pose proof (budget_delete _ _ _ Hp) as Hbd. unfold budget in *.
  destruct (p_retries_left p =? 0) eqn:E0; destruct Hcase as [-> Hp1].
  - destruct (IH c1 out (fails ++ [(seq, dest p)])) as (c' & out' & fails' & -> & Hok & Hpend & Hnd & Hout & Hf);
      [done|done|by unfold retries_ok; rewrite Hp1; apply map_Forall_delete|unfold budget; rewrite Hp1; lia|].
    exists c', out', fails'. rewrite Hpend, Hp1 in *. split_and!; [done|done| |done| |].
    + rewrite (omap_delete_due c1 now _ seq p Hp) by (unfold tick_one; by rewrite Hdue, E0).
      by apply omap_tick_ext.
    + rewrite Hout, (split_list _ _ _ Hp). cbn [omap list_omap].
      by assert (tick_sent now (seq, p) = None) as -> by (unfold tick_sent; cbn [snd]; by rewrite Hdue, E0).
    + rewrite Hf, (split_list _ _ _ Hp). cbn [omap list_omap].
      assert (tick_failed now (seq, p) = Some (seq, dest p)) as ->
        by (unfold tick_failed; cbn [fst snd]; by rewrite Hdue, E0).
      by rewrite <- app_assoc.
  - assert (Hret : 0 < p_retries_left p) by (apply Z.eqb_neq in E0; pose proof (Hr _ _ Hp); simpl in *; lia).
    destruct (IH c1 (out ++ [(data p, dest p)]) fails) as (c' & out' & fails' & -> & Hok & Hpend & Hnd & Hout & Hf);
      [done|done| | |].
    { unfold retries_ok. rewrite Hp1. apply map_Forall_insert_2; [|done]. unfold retransmit. ch_simpl. lia. }
    { unfold budget. rewrite Hp1, budget_insert. unfold retransmit. ch_simpl. lia. }
    exists c', out', fails'. rewrite Hpend, Hp1 in *. split_and!; [done|done| |done| |].
    + rewrite (omap_insert_due c1 now _ seq p).
      * by apply omap_tick_ext.
      * done.
      * rewrite (tick_one_ext c) by done. unfold tick_one. by rewrite Hdue, E0.
      * unfold tick_one. by rewrite (retransmit_not_due c).
    + rewrite Hout, (split_list _ _ _ Hp), put_list. cbn [omap list_omap].
      assert (tick_sent now (seq, p) = Some (data p, dest p)) as ->
        by (unfold tick_sent; cbn [snd]; by rewrite Hdue, E0).
      assert (tick_sent now (seq, retransmit c p now) = None) as ->
        by (unfold tick_sent; cbn [snd]; by rewrite (retransmit_not_due c)).
      by rewrite <- app_assoc.
    + rewrite Hf, (split_list _ _ _ Hp), put_list. cbn [omap list_omap].
      assert (tick_failed now (seq, p) = None) as -> by (unfold tick_failed; cbn [snd]; by rewrite Hdue, E0).
      by assert (tick_failed now (seq, retransmit c p now) = None) as ->
        by (unfold tick_failed; cbn [snd]; by rewrite (retransmit_not_due c)).
Qed.

Lemma tick_into_spec (c : ReliableChannel) (now : Instant) :
  channel_ok c -> tuning_ok c -> retries_ok c ->
  exists c' out fails,
    tick_into c now = Some (c', out, fails) /\ channel_ok c' /\
    pending_pkts c' = omap (tick_one c now) (pending_pkts c) /\
    map_Forall (fun _ p => is_due now p = false) (pending_pkts c') /\
    out ≡ₚ omap (tick_sent now) (map_to_list (pending_pkts c)) /\
    fails ≡ₚ omap (tick_failed now) (map_to_list (pending_pkts c)).
Proof.
  intros [Hc _] Ht Hr. unfold tick_into. destruct (decide (pending_pkts c = ∅)) as [He|Hne].
  - rewrite bool_decide_true by done. eexists _, [], []. split; [reflexivity|].
    ch_simpl. rewrite He, omap_empty, map_to_list_empty. split_and!; [by apply empty_channel_ok|done|apply map_Forall_empty|done..].
  - rewrite bool_decide_false by done.
    apply (tick_loop_spec (S (budget c)) c [] [] now Hc Ht Hr). lia.
Qed.

(** C6. A tick is total and exact: it always returns; afterwards every packet that
    was not due is as it was, every due packet with retries left is retransmitted
    once (one retry fewer, doubled and clamped timeout, new deadline) and every
    other due packet is reported as failed and gone; nothing is due any more, and
    the cached next deadline is the earliest one again. *)
Theorem tick_into_exact (c : ReliableChannel) (now : Instant) :
  channel_ok c -> tuning_ok c -> retries_ok c ->
  exists c' out fails,
    tick_into c now = Some (c', out, fails) /\ channel_ok c' /\
    pending_pkts c' = omap (tick_one c now) (pending_pkts c) /\
    map_Forall (fun _ p => is_due now p = false) (pending_pkts c') /\
    out ≡ₚ omap (tick_sent now) (map_to_list (pending_pkts c)) /\
    fails ≡ₚ omap (tick_failed now) (map_to_list (pending_pkts c)).
Proof. apply tick_into_spec. Qed.

Lemma tick_into_exact_witness :
  let p := mkPending [1] (mkAddr (V4 7) 9) (Some 5) 0 None false 1 50 in
  let c := new_channel <| pending_pkts := {[3 := p]} |> <| due_heap := [(5, 3)] |> <| next_due_at := Some 5 |> in
  exists c' out fails, tick_into c 10 = Some (c', out, fails) /\ channel_ok c'.
Proof.
  intros p c. destruct (tick_into_exact c 10) as (c' & out & fails & H1 & H2 & _).
  - split; [split|split].
    + repeat constructor.
    + intros s q Hq. change (({[3 := p]} : gmap Z PendingPacket) !! s = Some q) in Hq. apply lookup_singleton_Some in Hq as [<- <-]. exists 5. by split; [|apply list_elem_of_singleton].
    + exists 3, p. by split; [apply lookup_singleton_eq|].
    + intros s q t Hq. change (({[3 := p]} : gmap Z PendingPacket) !! s = Some q) in Hq.
      apply lookup_singleton_Some in Hq as [<- <-]. by intros [= <-].
  - vm_compute. split; congruence.
  - intros s q Hq. change (({[3 := p]} : gmap Z PendingPacket) !! s = Some q) in Hq.
    apply lookup_singleton_Some in Hq as [<- <-]. vm_compute. congruence.
  - exists c', out, fails. by split.
Defined.

(** ** Every reachable channel *)

Inductive reliable_op :=
| RSend (inner : CompactPacketType) (body : bytes) (to : SocketAddr) (hint : option Z)
| RMarkSent (seq : Z)
| RAck (seq : Z) (from : SocketAddr)
| RMigrate (old_dest new_dest : SocketAddr)
| RFlush (d : SocketAddr)
| RTick
| RReset
| RTune (t : ReliableTuning).

Definition reliable_step (c : ReliableChannel) (now : Instant) (op : reliable_op) : option ReliableChannel :=
  match op with
  | RSend inner body to hint => Some (send c inner body to hint now).1
  | RMarkSent seq => Some (mark_sent c seq now)
  | RAck seq from => Some (on_ack c seq from now)
  | RMigrate a b => Some (migrate_dest c a b)
  | RFlush d => Some (flush_dest c d)
  | RTick => (fun r => r.1.1) <$> tick_into c now
  | RReset => Some (reset_session c)
  | RTune t => Some (apply_tuning c t)
  end.

Fixpoint reliable_run (c : ReliableChannel) (ops : list (Instant * reliable_op)) : option ReliableChannel :=
  match ops with
  | [] => Some c
  | (now, op) :: ops =>
      match reliable_step c now op with Some c => reliable_run c ops | None => None end
  end.

(** Tunings are clamped before they are applied: a positive minimum not above the
    maximum, and an unsigned retry count. *)
Definition rop_ok (op : reliable_op) : Prop :=
  match op with
  | RTune t => 1 <= t_rto_min_ms t <= t_rto_max_ms t /\ 0 <= t_retries_left t
  | _ => True
  end.

Definition reliable_inv (c : ReliableChannel) : Prop :=
  channel_ok c /\ tuning_ok c /\ retries_ok c /\ 0 <= retries_left c.

Lemma send_inv c inner body to hint now : reliable_inv c -> reliable_inv (send c inner body to hint now).1.
Proof.
  intros (Hok & Ht & Hr & Hl). unfold send. destruct (_ >=? _); [done|]. cbn [fst]. split_and!; [|done| |done].
  - apply refresh_ok. by apply (push_core (c <| next_seq := _ |>)); [destruct Hok|].
  - apply map_Forall_insert_2; [exact Hl|exact Hr].
Qed.

Lemma mark_sent_inv c seq now : reliable_inv c -> reliable_inv (mark_sent c seq now).
Proof.
  intros (Hok & Ht & Hr & Hl). unfold mark_sent.
  destruct (pending_pkts c !! seq) as [p|] eqn:E; [|done]. destruct (actual_sent_at p); [done|].
  split_and!; [|done| |done].
  - apply refresh_ok.
    exact (push_core c _ seq (p <| actual_sent_at := Some now |> <| next_at := Some (now + from_millis (rto_ms p)) |>)
             (proj1 Hok) eq_refl).
  - apply map_Forall_insert_2; [exact (Hr _ _ E)|exact Hr].
Qed.

Lemma on_ack_inv c seq from now : reliable_inv c -> reliable_inv (on_ack c seq from now).
Proof.
  intros ([Hc He] & Ht & Hr & Hl). unfold on_ack.
  destruct (pending_pkts c !! seq) as [p|] eqn:E; [|done]. destruct (_ || _); [|done].
  assert (Hd : core_ok (c <| pending_pkts := delete seq (pending_pkts c) |>)).
  { apply shrink_core; [done|]. intros s q [_ Hq]%lookup_delete_Some. eauto. }
  destruct Hd as [Hd1 Hd2].
  destruct (retransmitted p); (split_and!; [apply refresh_ok; by split|done|by apply map_Forall_delete|done]).
Qed.

Lemma migrate_inv c a b : reliable_inv c -> reliable_inv (migrate_dest c a b).
Proof.
  intros ([Hc He] & Ht & Hr & Hl). unfold migrate_dest. destruct (bool_decide _); [done|].
  split_and!; [|done| |done].
  - apply refresh_ok, shrink_core; [done|]. intros s q Hq. rewrite lookup_fmap in Hq.
    destruct (pending_pkts c !! s) as [p|]; simplify_eq/=. exists p. split; [done|]. by case_bool_decide.
  - intros s q Hq. unfold refresh_next_due_from_heap, pop_stale_due_heap_top in Hq. ch_simpl. rewrite lookup_fmap in Hq.
    destruct (pending_pkts c !! s) as [p|] eqn:Ep; simplify_eq/=. pose proof (Hr _ _ Ep). by case_bool_decide.
Qed.

Lemma flush_inv c d : reliable_inv c -> reliable_inv (flush_dest c d).
Proof.
  intros ([Hc He] & Ht & Hr & Hl). unfold flush_dest, rebuild_due_heap_from_pending. split_and!; [|done| |done].
  - apply refresh_ok. apply (rebuild_core (c <| pending_pkts := _ |>)).
    intros s q [Hq _]%lookup_retain. by apply (core_next_at c s q).
  - intros s q [Hq _]%lookup_retain. by apply (Hr s q).
Qed.

Lemma tick_inv c now : reliable_inv c -> exists r, tick_into c now = Some r /\ reliable_inv r.1.1.
Proof.
  intros (Hok & Ht & Hr & Hl). destruct (tick_into_spec c now Hok Ht Hr) as (c' & out & fails & E & Hok' & Hp & _).
  eexists. split; [done|]. cbn [fst]. pose proof (tick_into_config _ _ _ E) as (H1 & H2 & H3).
  cbn [fst] in *. split_and!; [done|unfold tuning_ok in *; lia| |lia].
  intros s q Hq. rewrite Hp, lookup_omap in Hq. destruct (pending_pkts c !! s) as [p|] eqn:Ep; [|done].
  pose proof (Hr _ _ Ep). simpl in *. unfold tick_one in Hq.
  destruct (is_due now p); [|by simplify_eq]. destruct (Z.eqb_spec (p_retries_left p) 0); simplify_eq.
  unfold retransmit. ch_simpl. lia.
Qed.

Lemma reliable_step_inv c now op :
  rop_ok op -> reliable_inv c -> exists c', reliable_step c now op = Some c' /\ reliable_inv c'.
Proof.
  intros Hop Hc. destruct op; cbn [reliable_step].
  - eexists. split; [done|by apply send_inv].
  - eexists. split; [done|by apply mark_sent_inv].
  - eexists. split; [done|by apply on_ack_inv].
  - eexists. split; [done|by apply migrate_inv].
  - eexists. split; [done|by apply flush_inv].
  - destruct (tick_inv c now Hc) as (r & -> & Hr). by eexists.
  - eexists. split; [done|]. destruct Hc as (_ & Ht & _ & Hl). split_and!; [by apply empty_channel_ok|done|apply map_Forall_empty|done].
  - eexists. split; [done|]. destruct Hc as (Hok & Ht & Hr & Hl), Hop as [Hop1 Hop2].
    split_and!; [exact Hok|exact Hop1|exact Hr|exact Hop2].
Qed.

Lemma reliable_run_inv ops c :
  Forall (fun o => rop_ok o.2) ops -> reliable_inv c -> exists c', reliable_run c ops = Some c' /\ reliable_inv c'.
Proof.
  intros Hops. revert c. induction Hops as [|[now op] ops Hop _ IH]; intros c Hc; [by exists c|].
  cbn [reliable_run]. destruct (reliable_step_inv c now op Hop Hc) as (c' & -> & Hc'). by apply IH.
Qed.

Lemma new_channel_inv : reliable_inv new_channel.
Proof.
  split_and!; [by apply empty_channel_ok|vm_compute; split; congruence|apply map_Forall_empty|vm_compute; congruence].
Qed.



(** ** Bounded effort *)

(** Ticks at the given times; what is sent for the packets of one destination. *)
Fixpoint tick_times (c : ReliableChannel) (times : list Instant) : option (ReliableChannel * list (list (Z * SocketAddr))) :=
  match times with
  | [] => Some (c, [])
  | t :: times =>
      match tick_into c t with
      | None => None
      | Some (c, _, fails) =>
          match tick_times c times with
          | None => None
          | Some (c, fs) => Some (c, fails :: fs)
          end
      end
  end.

(** Each tick comes after the longest timeout of the one before. *)
Fixpoint spaced (gap : Duration) (prev : Instant) (times : list Instant) : Prop :=
  match times with
  | [] => True
  | t :: times => prev + gap <= t /\ spaced gap t times
  end.

Lemma tick_into_one c now seq p :
  reliable_inv c -> pending_pkts c !! seq = Some p ->
  exists c' out fails, tick_into c now = Some (c', out, fails) /\ reliable_inv c' /\
    rto_max_ms c' = rto_max_ms c /\
    pending_pkts c' !! seq = tick_one c now p /\
    ((exists d, (seq, d) ∈ fails) <-> is_due now p = true /\ p_retries_left p = 0).
Proof.
  intros Hc Hp. destruct (tick_inv c now Hc) as (r & E & Hr). destruct Hc as (Hok & Ht & Hret & Hl).
  destruct (tick_into_spec c now Hok Ht Hret) as (c' & out & fails & E' & _ & Hpend & _ & _ & Hf).
  pose proof (tick_into_config c now _ E') as (_ & Hmax & _). simplify_eq. cbn [fst] in *.
  exists c', out, fails. split_and!; [done|done|done|by rewrite Hpend, lookup_omap, Hp|].
  setoid_rewrite Hf. setoid_rewrite list_elem_of_omap. unfold tick_failed. split.
  - intros (d & [k q] & Hin%elem_of_map_to_list & Hk). cbn [fst snd] in Hk.
    destruct (is_due now q && (p_retries_left q =? 0)) eqn:Eq; simplify_eq. by breflect.
  - intros [Hd H0]. exists (dest p), (seq, p). split; [by apply elem_of_map_to_list|]. cbn [fst snd].
    by rewrite Hd, H0.
Qed.

Lemma tick_gives_up times c seq p t0 :
  reliable_inv c -> pending_pkts c !! seq = Some p ->
  (exists t, next_at p = Some t /\ t <= t0 + from_millis (rto_max_ms c)) ->
  spaced (from_millis (rto_max_ms c)) t0 times -> Z.of_nat (length times) = p_retries_left p + 1 ->
  exists c' fs, tick_times c times = Some (c', fs) /\ pending_pkts c' !! seq = None /\
    exists d f, last fs = Some f /\ (seq, d) ∈ f.
Proof.
  revert c p t0. induction times as [|t times IH]; intros c p t0 Hc Hp (tn & Hn & Hle) Hsp Hlen.
  { destruct Hc as (_ & _ & Hr & _). pose proof (Hr _ _ Hp). simpl in *. lia. }
  destruct Hsp as [Hgap Hsp]. cbn [tick_times length] in *.
  destruct (tick_into_one c t seq p Hc Hp) as (c1 & out & fails & -> & Hc1 & Hmax & Hp1 & Hf).
  assert (Hdue : is_due t p = true) by (unfold is_due; rewrite Hn; apply Z.leb_le; lia).
  unfold tick_one in Hp1. rewrite Hdue in Hp1. destruct (Z.eqb_spec (p_retries_left p) 0) as [H0|H0].
  - assert (times = []) as -> by (destruct times; [done|simpl in Hlen; lia]). cbn [tick_times].
    exists c1, [fails]. split_and!; [done|done|]. destruct (proj2 Hf) as [d Hd]; [done|]. by exists d, fails.
  - destruct Hc as (_ & Ht & Hr & _). rewrite <- Hmax in Hsp.
    destruct (IH c1 (retransmit c p t) t Hc1 Hp1) as (c' & fs & -> & Hgone & d & f & Hl & Hd); [|done| |].
    + eexists. split; [reflexivity|]. ch_simpl. rewrite Hmax. unfold tuning_ok in Ht.
      pose proof (clamp_bounds (rto_min_ms c) (rto_max_ms c) (wrap 32 (rto_ms p * 2))). unfold from_millis. lia.
    + unfold retransmit. ch_simpl. lia.
    + exists c', (fails :: fs). split_and!; [done|done|]. exists d, f. split; [|done].
      rewrite last_cons, Hl. done.
Qed.



(** ** Timeouts *)

(** Timeouts are always inside the configured bounds, for the first
    transmission (with or without a round-trip hint) and after every
    retransmission. *)
Theorem rto_within_bounds (c : ReliableChannel) (hint : option Z) (p : PendingPacket) (now : Instant) :
  1 <= rto_min_ms c <= rto_max_ms c -> rto_max_ms c < 2 ^ 31 ->
  rto_min_ms c <= initial_rto_for_send (srtt_ms c) (rttvar_ms c) hint (rto_min_ms c) (rto_max_ms c) <= rto_max_ms c /\
  rto_min_ms c <= rto_ms (retransmit c p now) <= rto_max_ms c.
Proof.
  intros Hb Hm. assert (Hc : forall s v, rto_min_ms c <= compute_rto_ms s v (rto_min_ms c) (rto_max_ms c) <= rto_max_ms c).
  { intros s v. unfold compute_rto_ms. rewrite (swrap_small 32 (rto_min_ms c)), (swrap_small 32 (rto_max_ms c))
      by (unfold in_i; lia). set (x := swrap 32 _).
    pose proof (clamp_bounds (rto_min_ms c) (rto_max_ms c) x). rewrite wrap_small by (unfold in_u; lia). lia. }
  split.
  - unfold initial_rto_for_send. destruct hint as [r|]; [|apply Hc]. destruct (r >? 0); [|apply Hc].
    pose proof (Hc (srtt_ms c) (rttvar_ms c)). pose proof (Hc (Z.max r 20) (Z.max (Z.quot r 2) 10)). lia.
  - unfold retransmit. ch_simpl. apply clamp_bounds. lia.
Qed.

Lemma rto_within_bounds_witness :
  50 <= initial_rto_for_send 100 50 (Some 12) 50 400 <= 400.
Proof.
  apply (rto_within_bounds new_channel (Some 12)
           (mkPending [] (mkAddr (V4 7) 9) None 0 None false 1 300) 0); vm_compute; split; congruence || done.
Defined.

(** ** The receiver

    [handle_reliable_packet]: every well-formed packet is acknowledged; one whose
    (sender, sequence number) was seen in the last minute is not dispatched. *)

Inductive ReliableDedupKey := VipU32 (v : Z) | Addr (a : SocketAddr).

#[export] Instance ReliableDedupKey_eq_dec : EqDecision ReliableDedupKey.
Proof. solve_decision. Defined.

#[export] Instance ReliableDedupKey_countable : Countable ReliableDedupKey.
Proof.
  refine (inj_countable' (fun a => match a with VipU32 i => inl i | Addr i => inr i end)
            (fun s => match s with inl i => VipU32 i | inr i => Addr i end) _).
  by intros [].
Defined.

Record ReliableSeen := mkSeen {
  seen : gset (ReliableDedupKey * Z);
  timeline : list (Instant * (ReliableDedupKey * Z))
}.

Definition SEEN_TTL : Duration := from_secs 60.
Definition SEEN_CAP : Z := 16384.

Fixpoint prune_expired (now : Instant) (s : gset (ReliableDedupKey * Z))
    (tl : list (Instant * (ReliableDedupKey * Z))) : ReliableSeen :=
  match tl with
  | [] => mkSeen s []
  | (ts, k) :: tl' =>
      if duration_since now ts <? SEEN_TTL then mkSeen s tl
      else prune_expired now (s ∖ {[k]}) tl'
  end.

Fixpoint prune_over_cap (s : gset (ReliableDedupKey * Z))
    (tl : list (Instant * (ReliableDedupKey * Z))) : ReliableSeen :=
  match tl with
  | [] => mkSeen s []
  | (ts, k) :: tl' =>
      if len tl >? SEEN_CAP then prune_over_cap (s ∖ {[k]}) tl' else mkSeen s tl
  end.

Definition prune_reliable_seen_cache (r : ReliableSeen) (now : Instant) : ReliableSeen :=
  let r := prune_expired now (seen r) (timeline r) in
  prune_over_cap (seen r) (timeline r).

(** The acknowledgement to send back and the body to dispatch as a join answer.
    [dk] is the dedup key of the sender (its VIP when it has a route). *)
Definition handle_reliable_packet (r : ReliableSeen) (body : bytes) (dk : ReliableDedupKey)
    (has_crypto : bool) (now : Instant) : ReliableSeen * option bytes * option bytes :=
  if (length body <? 5)%nat then (r, None, None)
  else
    let seq := be_val (take 4 body) in
    match body !! 4%nat with
    | Some b =>
        match try_from_byte b with
        | Some JoinAck =>
            let ack := ack_packet seq in
            let r := prune_reliable_seen_cache r now in
            if bool_decide ((dk, seq) ∈ seen r) then (r, Some ack, None)
            else
              let r := mkSeen ({[(dk, seq)]} ∪ seen r) (timeline r ++ [(now, (dk, seq))]) in
              (r, Some ack, if has_crypto then None else Some (drop 5 body))
        | _ => (r, None, None)
        end
    | None => (r, None, None)
    end.

(** The set is the set of the timeline's keys, each there once. *)
Definition seen_ok (r : ReliableSeen) : Prop :=
  NoDup (timeline r).*2 /\ forall k, k ∈ seen r <-> k ∈ (timeline r).*2.

Lemma seen_ok_drop s e tl :
  seen_ok (mkSeen s (e :: tl)) -> seen_ok (mkSeen (s ∖ {[e.2]}) tl).
Proof.
  intros [Hnd Hs]. cbn [seen timeline] in *. rewrite fmap_cons in *. apply NoDup_cons in Hnd as [Hn Hnd].
  split; [done|]. intros k. cbn [seen timeline]. rewrite elem_of_difference, not_elem_of_singleton, Hs, elem_of_cons.
  split; [tauto|]. intros Hk. split; [by right|]. by intros ->.
Qed.

Lemma prune_expired_ok now s tl : seen_ok (mkSeen s tl) -> seen_ok (prune_expired now s tl).
Proof.
  revert s. induction tl as [|[ts k] tl IH]; intros s Hs; [done|]. cbn [prune_expired].
  destruct (_ <? _); [done|]. by apply IH, (seen_ok_drop s (ts, k)).
Qed.

Lemma prune_over_cap_ok s tl : seen_ok (mkSeen s tl) -> seen_ok (prune_over_cap s tl).
Proof.
  revert s. induction tl as [|[ts k] tl IH]; intros s Hs; [done|]. cbn [prune_over_cap].
  destruct (_ >? _); [|done]. by apply IH, (seen_ok_drop s (ts, k)).
Qed.

(** An entry younger than the TTL with fewer than [SEEN_CAP] entries after it stays. *)
Definition kept (r : ReliableSeen) (t : Instant) (k : ReliableDedupKey * Z) (n : Z) : Prop :=
  seen_ok r /\ exists pre post, timeline r = pre ++ (t, k) :: post /\ len post <= n.

Lemma prune_expired_kept now s tl t k n :
  now - t < SEEN_TTL -> kept (mkSeen s tl) t k n -> kept (prune_expired now s tl) t k n.
Proof.
  intros Hage [Hok (pre & post & E & Hp)]. split; [by apply prune_expired_ok|]. clear Hok. cbn [timeline] in E. subst tl.
  revert s. induction pre as [|[ts k'] pre IH]; intros s; cbn [app prune_expired].
  - unfold duration_since, sat_sub, SEEN_TTL, from_secs in *.
    rewrite (proj2 (Z.ltb_lt _ _)) by lia. by exists [], post.
  - destruct (_ <? _); [by exists ((ts, k') :: pre), post|]. apply IH.
Qed.

Lemma prune_over_cap_kept s tl t k n :
  n < SEEN_CAP -> kept (mkSeen s tl) t k n -> kept (prune_over_cap s tl) t k n.
Proof.
  intros Hn [Hok (pre & post & E & Hp)]. split; [by apply prune_over_cap_ok|]. clear Hok. cbn [timeline] in E. subst tl.
  revert s. induction pre as [|[ts k'] pre IH]; intros s; cbn [app prune_over_cap].
  - rewrite len_cons, Z.gtb_ltb, (proj2 (Z.ltb_ge _ _)) by lia. by exists [], post.
  - destruct (_ >? _); [apply IH|]. by exists ((ts, k') :: pre), post.
Qed.

Lemma prune_kept r now t k n :
  now - t < SEEN_TTL -> n < SEEN_CAP -> kept r t k n -> kept (prune_reliable_seen_cache r now) t k n.
Proof.
  intros Ha Hn Hk. unfold prune_reliable_seen_cache. destruct r as [s tl]. cbn [seen timeline].
  apply (prune_expired_kept now) in Hk; [|done]. destruct (prune_expired now s tl). by apply prune_over_cap_kept.
Qed.

Lemma kept_seen r t k n : kept r t k n -> k ∈ seen r.
Proof.
  intros [[_ Hs] (pre & post & E & _)]. apply Hs. rewrite E, fmap_app, fmap_cons. set_solver.
Qed.

Lemma push_ok r now k : seen_ok r -> k ∉ seen r -> seen_ok (mkSeen ({[k]} ∪ seen r) (timeline r ++ [(now, k)])).
Proof.
  intros [Hnd Hs] Hk. split; cbn [seen timeline]; rewrite fmap_app.
  - apply NoDup_app. split_and!; [done| |apply NoDup_singleton]. intros x Hx%Hs Hx'. set_solver.
  - intros x. rewrite elem_of_app, elem_of_union, Hs. set_solver.
Qed.

Lemma handle_kept r body dk crypto now t k n :
  now - t < SEEN_TTL -> n < SEEN_CAP -> kept r t k n ->
  kept (handle_reliable_packet r body dk crypto now).1.1 t k (n + 1).
Proof.
  intros Ha Hn Hk. assert (Hw : forall r, kept r t k n -> kept r t k (n + 1)).
  { intros r0 [? (pre & post & E & ?)]. split; [done|]. exists pre, post. split; [done|lia]. }
  unfold handle_reliable_packet. destruct (_ <? _)%nat; [by apply Hw|].
  destruct (body !! 4%nat) as [b|]; [|by apply Hw]. destruct (try_from_byte b) as [[]|]; try (by apply Hw).
  pose proof (prune_kept r now t k n Ha Hn Hk) as [Hok (pre & post & E & Hp)].
  case_bool_decide as Hin; [by apply Hw; split; eauto|]. cbn [fst].
  split; [by apply push_ok|]. cbn [timeline]. exists pre, (post ++ [(now, (dk, be_val (take 4 body)))]).
  rewrite E, <- app_assoc. split; [done|]. rewrite len_app. change (len [_]) with 1. lia.
Qed.

(** A packet received: the frame after its kind byte, who sent it, and when. *)
Definition reliable_event : Type := bytes * ReliableDedupKey * bool * Instant.

Definition handle_event (r : ReliableSeen) (e : reliable_event) : ReliableSeen :=
  let '(body, dk, crypto, now) := e in (handle_reliable_packet r body dk crypto now).1.1.

Lemma run_kept evs r t k n :
  Forall (fun e : reliable_event => e.2 - t < SEEN_TTL) evs -> n + len evs <= SEEN_CAP ->
  kept r t k n -> kept (foldl handle_event r evs) t k (n + len evs).
Proof.
  revert r n. induction evs as [|[[[b dk] cr] now] evs IH]; intros r n Hall Hn Hk.
  - replace (n + len []) with n by (unfold len; simpl; lia). done.
  - apply Forall_cons in Hall as [Hh Hall]. rewrite len_cons in *. cbn [foldl].
    replace (n + (1 + len evs)) with ((n + 1) + len evs) by lia.
    pose proof (len_nonneg evs). apply IH; [done|lia|]. apply handle_kept; [done|lia|done].
Qed.

Lemma reliable_body_decode seq body :
  0 <= seq < 2 ^ 32 ->
  let frame := be_bytes 4 seq ++ [to_byte JoinAck] ++ body in
  (length frame <? 5)%nat = false /\ be_val (take 4 frame) = seq /\
  frame !! 4%nat = Some (to_byte JoinAck) /\ drop 5 frame = body.
Proof.
  intros Hs frame. assert (L : length (be_bytes 4 seq) = 4%nat) by apply length_be_bytes. subst frame.
  split_and!.
  - apply Nat.ltb_ge. rewrite length_app, L. simpl. lia.
  - rewrite be_bytes_app_take, be_val_be_bytes. by apply Z.mod_small.
  - by rewrite lookup_app_r, L by lia.
  - rewrite drop_app_ge by lia. by rewrite L.
Qed.

(** What the receiver makes of a frame built by [send]. *)
Lemma handle_sent r seq body dk crypto now :
  0 <= seq < 2 ^ 32 ->
  let r' := prune_reliable_seen_cache r now in
  handle_reliable_packet r (drop 1 (reliable_frame seq JoinAck body)) dk crypto now =
  if bool_decide ((dk, seq) ∈ seen r') then (r', Some (ack_packet seq), None)
  else (mkSeen ({[(dk, seq)]} ∪ seen r') (timeline r' ++ [(now, (dk, seq))]), Some (ack_packet seq),
        if crypto then None else Some body).
Proof.
  intros Hs r'. unfold reliable_frame. change (drop 1 ([to_byte Reliable] ++ ?x)) with x.
  destruct (reliable_body_decode seq body Hs) as (E1 & E2 & E3 & E4). unfold handle_reliable_packet.
  rewrite E1, E2, E3, E4, try_from_to_byte. done.
Qed.

Lemma handle_seen_ok r e : seen_ok r -> seen_ok (handle_event r e).
Proof.
  destruct e as [[[body dk] crypto] now]. intros Hok.
  assert (Hp : seen_ok (prune_reliable_seen_cache r now)).
  { unfold prune_reliable_seen_cache. pose proof (prune_expired_ok now (seen r) (timeline r)) as Hp. destruct r as [s tl].
    specialize (Hp Hok). cbn [seen timeline] in *. destruct (prune_expired now s tl). by apply prune_over_cap_ok. }
  cbn [handle_event]. unfold handle_reliable_packet. destruct (_ <? _)%nat; [done|].
  destruct (body !! 4%nat) as [b|]; [|done]. destruct (try_from_byte b) as [[]|]; try done.
  case_bool_decide; [done|]. cbn [fst]. by apply push_ok.
Qed.

Lemma prune_over_cap_len s tl : len (timeline (prune_over_cap s tl)) <= SEEN_CAP.
Proof.
  revert s. induction tl as [|[ts k] tl IH]; intros s; [unfold len, SEEN_CAP; simpl; lia|]. cbn [prune_over_cap].
  destruct (_ >? _) eqn:E; [apply IH|]. cbn [timeline]. lia.
Qed.

Lemma handle_len r e : len (timeline r) <= SEEN_CAP + 1 -> len (timeline (handle_event r e)) <= SEEN_CAP + 1.
Proof.
  destruct e as [[[body dk] crypto] now]. intros Hl. cbn [handle_event]. unfold handle_reliable_packet.
  destruct (_ <? _)%nat; [done|]. destruct (body !! 4%nat) as [b|]; [|done].
  destruct (try_from_byte b) as [[]|]; try done.
  pose proof (prune_over_cap_len (seen (prune_expired now (seen r) (timeline r)))
                (timeline (prune_expired now (seen r) (timeline r)))) as Hp.
  fold (prune_reliable_seen_cache r now) in Hp. case_bool_decide; cbn [fst timeline]; [lia|].
  rewrite len_app. change (len [_]) with 1. lia.
Qed.

Lemma fresh_then_duplicate r seq body body' dk crypto t evs t' :
  0 <= seq < 2 ^ 32 -> seen_ok r -> (dk, seq) ∉ seen (prune_reliable_seen_cache r t) ->
  Forall (fun e : reliable_event => e.2 - t < SEEN_TTL) evs -> len evs < SEEN_CAP -> t' - t < SEEN_TTL ->
  let first := handle_reliable_packet r (drop 1 (reliable_frame seq JoinAck body)) dk false t in
  let again := handle_reliable_packet (foldl handle_event first.1.1 evs)
                 (drop 1 (reliable_frame seq JoinAck body')) dk crypto t' in
  first.1.2 = Some (ack_packet seq) /\ first.2 = Some body /\
  again.1.2 = Some (ack_packet seq) /\ again.2 = None.
Proof.
  intros Hs Hok Hn Hall Hlen Ht first again.
  assert (E : first = (mkSeen ({[(dk, seq)]} ∪ seen (prune_reliable_seen_cache r t))
     (timeline (prune_reliable_seen_cache r t) ++ [(t, (dk, seq))]), Some (ack_packet seq), Some body)).
  { unfold first. rewrite handle_sent by done. by rewrite bool_decide_eq_false_2. }
  assert (Hk : kept first.1.1 t (dk, seq) 0).
  { split.
    - change (seen_ok (handle_event r (drop 1 (reliable_frame seq JoinAck body), dk, false, t))). by apply handle_seen_ok.
    - rewrite E. cbn [fst timeline]. by exists (timeline (prune_reliable_seen_cache r t)), []. }
  apply (run_kept evs) in Hk; [|done|lia]. rewrite E. cbn [fst snd].
  assert (Hin : (dk, seq) ∈ seen (prune_reliable_seen_cache (foldl handle_event first.1.1 evs) t')).
  { eapply kept_seen, prune_kept; [| |exact Hk]; [done|lia]. }
  unfold again. rewrite handle_sent by done. rewrite bool_decide_eq_true_2 by exact Hin. done.
Qed.


(** Restarting the sequence numbers at a session reset makes a peer that heard the old session less
    than a minute ago acknowledge the first join answer of the new session without delivering it, and
    that acknowledgement ends its retransmission: the answer is lost. *)
Theorem session_reset_loses_answer (c : ReliableChannel) (body body' : bytes) (to : SocketAddr)
    (hint : option Z) (dk : ReliableDedupKey) (t t' : Instant) :
  0 < max_pending c -> t' - t < SEEN_TTL ->
  let r := (handle_reliable_packet (mkSeen ∅ []) (drop 1 (reliable_frame 1 JoinAck body)) dk false t).1.1 in
  let '(c', res) := send (reset_session c) JoinAck body' to hint t' in
  exists seq frame, res = Queued seq frame /\
  let got := handle_reliable_packet r (drop 1 frame) dk false t' in
  got.2 = None /\ got.1.2 = Some (ack_packet seq) /\
  pending_pkts (on_ack c' seq to t') = ∅.
Proof.
  intros Hm Ht r. destruct (send _ _ _ _ _ _) as [c' res] eqn:Es. unfold send in Es.
  rewrite Z.geb_leb, (proj2 (Z.leb_gt _ _)) in Es by (unfold reset_session; simpl; rewrite map_size_empty; lia).
  simplify_eq. eexists _, _. split; [done|].
  destruct (fresh_then_duplicate (mkSeen ∅ []) 1 body body' dk false t [] t') as (_ & _ & H1 & H2);
    [lia|split; [constructor|set_solver]|cbn; set_solver|constructor|unfold len, SEEN_CAP; simpl; lia|done|].
  split_and!; [exact H2|exact H1|].
  unfold on_ack, refresh_next_due_from_heap, pop_stale_due_heap_top, reset_session. ch_simpl.
  rewrite lookup_insert_eq. ch_simpl. rewrite bool_decide_eq_true_2 by done.
  cbn [orb]. ch_simpl. by rewrite delete_insert_eq.
Qed.

Lemma session_reset_loses_answer_witness :
  let c := new_channel in
  let dk := Addr (mkAddr (V4 5) 4000) in
  let r := (handle_reliable_packet (mkSeen ∅ []) (drop 1 (reliable_frame 1 JoinAck [1])) dk false 0).1.1 in
  let '(c', res) := send (reset_session c) JoinAck [2] (mkAddr (V4 5) 4000) None (from_secs 10) in
  exists seq frame, res = Queued seq frame /\
  let got := handle_reliable_packet r (drop 1 frame) dk false (from_secs 10) in
  got.2 = None /\ got.1.2 = Some (ack_packet seq) /\
  pending_pkts (on_ack c' seq (mkAddr (V4 5) 4000) (from_secs 10)) = ∅.
Proof.
  apply (session_reset_loses_answer new_channel [1] [2] (mkAddr (V4 5) 4000) None
           (Addr (mkAddr (V4 5) 4000)) 0 (from_secs 10)).
  - reflexivity.
  - reflexivity.
Defined.

