(* ===== verification/Fec.v ===== *)
(** * Forward error correction (src/net/fec.rs)

    The encoder groups outgoing packets into length-prefixed shards of one size and adds
    Reed-Solomon parity; the decoder collects shards per group and rebuilds the packets as soon as
    enough of them arrived.  The Reed-Solomon codec is the [reed_solomon_erasure] crate: it is the
    class [ReedSolomon] here, with the documented behaviour as [ReedSolomonLaws].

    [enc_inv] and [dec_inv] are the invariants; the theorems show that the encoder neither loses nor
    invents a packet, that the decoder never indexes out of range and stays within fixed bounds on
    arbitrary input, and that a group's packets come out exactly once, as soon as any [data_shards]
    of its shards arrived, whatever else arrives in between. *)

From S2P Require Import Prelude Packet.

Definition FEC_SHARD_PAYLOAD_SIZE : Z := 1279.
Definition FEC_SHARD_LEN_PREFIX : Z := 2.
Definition FEC_SHARD_PAYLOAD_MIN : Z := 512.
Definition FEC_FLUSH_TIMEOUT : Duration := from_millis 2.
Definition FEC_FLUSH_TIMEOUT_AGGRESSIVE : Duration := from_millis 1.
Definition FEC_MAX_TOTAL_SHARDS : Z := 64.
Definition FEC_DECODER_EVICT_INTERVAL : Duration := from_millis 50.
Definition FEC_COMPLETED_GROUPS_CAP : nat := 128.

Definition effective_shard_payload_size (configured min_path_mtu : Z) : option Z :=
  let max := sat_sub min_path_mtu (UNDERLAY_IPV4_UDP_OVERHEAD + FEC_COMPACT_HEADER_LEN) in
  let e := Z.min (Z.min configured max) FEC_SHARD_PAYLOAD_SIZE in
  if e >=? FEC_SHARD_PAYLOAD_MIN then Some e else None.

(** ** The codec *)

(** [rs_new d p]: [ReedSolomon::new(d, p)] succeeds.  [rs_encode d p shards] overwrites the last [p]
    shards with parity, [rs_reconstruct d p shards] fills in the missing ones; [None] is [Err]. *)
Class ReedSolomon := {
  rs_new : nat -> nat -> bool;
  rs_encode : nat -> nat -> list bytes -> option (list bytes);
  rs_reconstruct : nat -> nat -> list (option bytes) -> option (list (option bytes))
}.

(** The shards that arrived are shards of [full], at their places. *)
Definition partial_of (full : list bytes) (got : list (option bytes)) : Prop :=
  Forall2 (fun s g => g = None \/ g = Some s) full got.

Definition present (got : list (option bytes)) : nat := length (omap id got).

Class ReedSolomonLaws `{ReedSolomon} := {
  (** Only the parity shards are written, and their number and sizes stay. *)
  rs_encode_frame : forall d p l l', rs_encode d p l = Some l' ->
    take d l' = take d l /\ length <$> l' = length <$> l;
  (** Non-empty shards of one size are encoded. *)
  rs_encode_some : forall d p n l, rs_new d p = true -> length l = (d + p)%nat ->
    Forall (fun s => length s = S n) l -> Forall (Forall byte_ok) l -> is_Some (rs_encode d p l);
  (** Any [d] shards of an encoded group determine all of them. *)
  rs_reconstruct_encoded : forall d p n l full got, rs_new d p = true -> length l = (d + p)%nat ->
    Forall (fun s => length s = S n) l -> Forall (Forall byte_ok) l -> rs_encode d p l = Some full ->
    partial_of full got -> (d <= present got)%nat ->
    rs_reconstruct d p got = Some (Some <$> full);
  (** What is reconstructed has the size of what was given, and every shard is present. *)
  rs_reconstruct_frame : forall d p n got got', rs_reconstruct d p got = Some got' ->
    Forall (fun s => forall b, s = Some b -> length b = n) got ->
    length got' = length got /\ Forall (fun s => exists b, s = Some b /\ length b = n) got'
}.

(** ** Encoder *)

Inductive FlushPolicy := Immediate | Aggressive | Standard.
#[export] Instance FlushPolicy_eq_dec : EqDecision FlushPolicy.
Proof. solve_decision. Defined.

Definition classify_packet (n : Z) : FlushPolicy :=
  if n <=? 255 then Immediate else if n <=? 799 then Aggressive else Standard.

Inductive FecOutput := Buffered | Encoded (frames : list bytes) | Passthrough (pkts : list bytes).

Record PendingShard := mkShard { original : bytes; shard : bytes }.

(** [rs_cache] holds the shard counts the cached codec was built with.  The top of [shard_pool] is
    its head.  ([frame_scratch] is a buffer that is emptied before every use.) *)
Record FecEncoder := mkEncoder {
  group_salt : Z;
  group_seq : Z;
  data_shards : Z;
  parity_shards : Z;
  shard_buf : list PendingShard;
  first_at : option Instant;
  rs_cache : option (nat * nat);
  rs_cache_data : nat;
  rs_cache_parity : nat;
  shard_pool : list bytes;
  group_flush_timeout : Duration;
  shard_payload_size : Z;
  flush_standard : Duration;
  flush_aggressive : Duration
}.
#[export] Instance eta_FecEncoder : Settable FecEncoder :=
  fun r => mkEncoder (group_salt r) (group_seq r) (data_shards r) (parity_shards r) (shard_buf r)
             (first_at r) (rs_cache r) (rs_cache_data r) (rs_cache_parity r) (shard_pool r)
             (group_flush_timeout r) (shard_payload_size r) (flush_standard r) (flush_aggressive r).

Ltac enc_simpl :=
  cbn [setter group_salt group_seq data_shards parity_shards shard_buf first_at rs_cache
       rs_cache_data rs_cache_parity shard_pool group_flush_timeout shard_payload_size
       flush_standard flush_aggressive original shard fst snd] in *.

(** [salt] is the random draw. *)
Definition with_flush (salt d p size : Z) (standard aggressive : Duration) : FecEncoder :=
  let salt := if salt =? 0 then 0x9e3779b9 else salt in
  mkEncoder salt 1 d p [] None None 0 0 [] standard size standard aggressive.

Definition new_encoder (salt d p : Z) : FecEncoder :=
  with_flush salt d p FEC_SHARD_PAYLOAD_SIZE FEC_FLUSH_TIMEOUT FEC_FLUSH_TIMEOUT_AGGRESSIVE.

Definition enc_apply_tuning (e : FecEncoder) (size : Z) (standard aggressive : Duration) : FecEncoder :=
  let e := if size =? shard_payload_size e then e else e <| shard_pool := [] |> in
  e <| shard_payload_size := size |> <| flush_standard := standard |> <| flush_aggressive := aggressive |>.

Definition flush_timeout_for_policy (e : FecEncoder) (p : FlushPolicy) : Duration :=
  match p with
  | Immediate => 0
  | Aggressive => flush_aggressive e
  | Standard => flush_standard e
  end.

Definition reset_group_timing (e : FecEncoder) : FecEncoder :=
  e <| first_at := None |> <| group_flush_timeout := flush_standard e |>.

Definition ratio (e : FecEncoder) : Z * Z := (data_shards e, parity_shards e).

Definition needs_flush (e : FecEncoder) (now : Instant) : bool :=
  match first_at e with
  | Some t => duration_since now t >=? group_flush_timeout e
  | None => false
  end.

Definition zeros (n : Z) : bytes := replicate (Z.to_nat n) 0.

Definition take_shard_buf (e : FecEncoder) : FecEncoder * bytes :=
  match shard_pool e with
  | v :: pool =>
      (e <| shard_pool := pool |>,
       if len v =? shard_payload_size e then replicate (length v) 0 else zeros (shard_payload_size e))
  | [] => (e, zeros (shard_payload_size e))
  end.

Definition return_shard_buf (e : FecEncoder) (v : bytes) : FecEncoder :=
  if len v =? shard_payload_size e then
    if (length (shard_pool e) <? 32)%nat then e <| shard_pool := replicate (length v) 0 :: shard_pool e |>
    else e
  else e.

Definition next_group_seq (s : Z) : Z := Z.max (wrap 32 (s + 1)) 1.

Definition take_passthrough_packets (e : FecEncoder) : FecEncoder * list bytes :=
  let pending := shard_buf e in
  let e := e <| shard_buf := [] |> in
  let e := foldl (fun e s => return_shard_buf e (shard s)) e pending in
  let e := reset_group_timing e in
  (e <| group_seq := next_group_seq (group_seq e) |>, original <$> pending).

Definition take_passthrough (e : FecEncoder) : FecEncoder * FecOutput :=
  let '(e, out) := take_passthrough_packets e in (e, Passthrough out).

Definition current_group_id (e : FecEncoder) : Z := Z.lxor (group_salt e) (group_seq e).

Definition build_fec_packet_into (group_id shard_idx d p : Z) (shard_data : bytes) : bytes :=
  [to_byte Fec] ++ le_bytes 4 group_id ++ [wrap 8 shard_idx] ++ [wrap 8 d] ++ [wrap 8 p] ++
  le_bytes 2 (len shard_data) ++ shard_data.

(** [n] zeroed buffers for the parity shards. *)
Fixpoint take_shard_bufs (n : nat) (e : FecEncoder) : FecEncoder * list bytes :=
  match n with
  | O => (e, [])
  | S n =>
      let '(e, v) := take_shard_buf e in
      let '(e, vs) := take_shard_bufs n e in (e, v :: vs)
  end.

Section Codec.
Context `{ReedSolomon}.

Definition ensure_codec (e : FecEncoder) (d p : nat) : FecEncoder * bool :=
  if bool_decide (rs_cache e = None) || negb (rs_cache_data e =? d)%nat || negb (rs_cache_parity e =? p)%nat then
    if rs_new d p then
      (e <| rs_cache := Some (d, p) |> <| rs_cache_data := d |> <| rs_cache_parity := p |>, true)
    else (e <| rs_cache := None |>, false)
  else (e, true).

Definition encode_and_reset (e : FecEncoder) (d p : nat) (now : Instant) : FecEncoder * list bytes :=
  let '(e, ok) := ensure_codec e d p in
  if negb ok then take_passthrough_packets e
  else
    let group_id := current_group_id e in
    if (length (shard_buf e) <? d)%nat then take_passthrough_packets e
    else
      let data := shard <$> take d (shard_buf e) in
      let '(e, parity) := take_shard_bufs p e in
      let restore e := foldl return_shard_buf e parity in
      match rs_cache e with
      | None => take_passthrough_packets (restore e)
      | Some (cd, cp) =>
          match rs_encode cd cp (data ++ parity) with
          | None => take_passthrough_packets (restore e)
          | Some all_shards =>
              let out := imap (fun i s => build_fec_packet_into group_id (Z.of_nat i) (Z.of_nat d)
                                            (Z.of_nat p) s) all_shards in
              let e := foldl return_shard_buf e all_shards in
              let e := e <| shard_buf := drop d (shard_buf e) |> in
              let e := if bool_decide (shard_buf e = []) then reset_group_timing e
                       else e <| first_at := Some now |> <| group_flush_timeout := flush_standard e |> in
              (e <| group_seq := next_group_seq (group_seq e) |>, out)
          end
      end.

(** The budget is the queue's length and its capacity. *)
Definition over_budget (queue_budget : option (Z * Z)) (total : Z) : bool :=
  match queue_budget with
  | Some (ql, cap) => sat_add U64_MAX ql total >? cap
  | None => false
  end.

Definition enc_flush (e : FecEncoder) (queue_budget : option (Z * Z)) (now : Instant) : FecEncoder * FecOutput :=
  if bool_decide (shard_buf e = []) then (reset_group_timing e, Buffered)
  else if (data_shards e =? 0) || (parity_shards e =? 0) then take_passthrough e
  else
    let data_n := len (shard_buf e) in
    if data_n <? 2 then take_passthrough e
    else
      let configured_data := Z.max (data_shards e) 1 in
      let configured_parity := Z.max (parity_shards e) 1 in
      let dynamic_parity := (data_n * configured_parity + configured_data - 1) / configured_data in
      let dynamic_parity := clamp 1 configured_parity dynamic_parity in
      if data_n + dynamic_parity >? FEC_MAX_TOTAL_SHARDS then take_passthrough e
      else if over_budget queue_budget (data_n + dynamic_parity) then take_passthrough e
      else
        let '(e, out) := encode_and_reset e (Z.to_nat data_n) (Z.to_nat dynamic_parity) now in
        (e, Encoded out).

Definition flush_passthrough (e : FecEncoder) : FecEncoder * FecOutput :=
  if bool_decide (shard_buf e = []) then (reset_group_timing e, Buffered) else take_passthrough e.

(** The deadline of the group the packet joins: the most urgent policy wins. *)
Definition arm_group (e : FecEncoder) (policy : FlushPolicy) (now : Instant) : FecEncoder :=
  let e := if bool_decide (shard_buf e = []) then e <| group_flush_timeout := flush_standard e |> else e in
  let e := e <| group_flush_timeout := Z.min (group_flush_timeout e) (flush_timeout_for_policy e policy) |> in
  match first_at e with None => e <| first_at := Some now |> | Some _ => e end.

Definition push_output (e : FecEncoder) (pkt : bytes) (queue_budget : option (Z * Z)) (now : Instant)
  : FecEncoder * FecOutput :=
  if (data_shards e =? 0) || (parity_shards e =? 0) then (e, Passthrough [pkt])
  else if len pkt + FEC_SHARD_LEN_PREFIX >? shard_payload_size e then (e, Passthrough [pkt])
  else
    let total := data_shards e + parity_shards e in
    if (total =? 0) || (total >? FEC_MAX_TOTAL_SHARDS) then (e, Passthrough [pkt])
    else
      let policy := classify_packet (len pkt) in
      let '(e, buf) := take_shard_buf (arm_group e policy now) in
      let s := le_bytes 2 (len pkt) ++ pkt ++ drop (2 + length pkt) buf in
      let e := e <| shard_buf := shard_buf e ++ [mkShard pkt s] |> in
      if len (shard_buf e) >=? data_shards e then
        if over_budget queue_budget total then take_passthrough e
        else
          let '(e, out) := encode_and_reset e (Z.to_nat (data_shards e)) (Z.to_nat (parity_shards e)) now in
          (e, Encoded out)
      else if bool_decide (policy = Immediate) then enc_flush e queue_budget now
      else (e, Buffered).

Definition fec_push (e : FecEncoder) (pkt : bytes) (now : Instant) : FecEncoder * option (list bytes) :=
  let '(e, o) := push_output e pkt None now in
  (e, match o with Buffered => None | Encoded l | Passthrough l => Some l end).

Definition update_ratio_with_flush (e : FecEncoder) (d p : Z) (queue_budget : option (Z * Z)) (now : Instant)
  : FecEncoder * FecOutput :=
  if (data_shards e =? d) && (parity_shards e =? p) then (e, Buffered)
  else
    let '(e, pending) := enc_flush e queue_budget now in
    let e := reset_group_timing (e <| shard_buf := [] |>) in
    (e <| group_seq := next_group_seq (group_seq e) |> <| data_shards := d |> <| parity_shards := p |>, pending).

End Codec.

(** ** Decoder *)

Record PartialGroup := mkGroup {
  g_data : Z;
  g_parity : Z;
  g_shard_size : Z;
  received : list (option bytes);
  received_count : Z;
  created_at : Instant
}.
#[export] Instance eta_PartialGroup : Settable PartialGroup :=
  fun r => mkGroup (g_data r) (g_parity r) (g_shard_size r) (received r) (received_count r) (created_at r).

(** The front of [completed_groups] is its head. *)
Record FecDecoder := mkDecoder {
  groups : gmap Z PartialGroup;
  completed_groups : list Z;
  group_ttl : Duration;
  max_groups : nat;
  reconstruct_rs : option (nat * nat);
  reconstruct_rs_data : nat;
  reconstruct_rs_parity : nat;
  last_evict : Instant
}.
#[export] Instance eta_FecDecoder : Settable FecDecoder :=
  fun r => mkDecoder (groups r) (completed_groups r) (group_ttl r) (max_groups r) (reconstruct_rs r)
             (reconstruct_rs_data r) (reconstruct_rs_parity r) (last_evict r).

Ltac dec_simpl :=
  cbn [setter groups completed_groups group_ttl max_groups reconstruct_rs reconstruct_rs_data
       reconstruct_rs_parity last_evict g_data g_parity g_shard_size received received_count
       created_at] in *.

Record FecDecodeResult := mkDecoded {
  recovered : list bytes;
  invalid : bool;
  shards_new : Z;
  shards_missing : Z
}.

Definition invalid_with_missing (m : Z) : FecDecodeResult := mkDecoded [] true 0 m.
Definition decoded_ok (r : list bytes) (n m : Z) : FecDecodeResult := mkDecoded r false n m.

Definition group_shards_missing (g : PartialGroup) : Z :=
  sat_sub (wrap 16 (len (received g))) (received_count g).

Definition new_decoder (now : Instant) : FecDecoder :=
  mkDecoder ∅ [] (from_millis 200) 256 None 0 0 now.

Definition note_completed (x : FecDecoder) (group_id : Z) : FecDecoder :=
  let x := if (FEC_COMPLETED_GROUPS_CAP <=? length (completed_groups x))%nat
           then x <| completed_groups := drop 1 (completed_groups x) |> else x in
  x <| completed_groups := completed_groups x ++ [group_id] |>.

(** One data shard as a packet.  The outer [None] is the panic of [s[0]] on a shorter shard. *)
Definition shard_packet (s : bytes) : option (option bytes) :=
  match s with
  | b0 :: b1 :: rest =>
      let orig_len := le_val [b0; b1] in
      if orig_len >? sat_sub (len s) FEC_SHARD_LEN_PREFIX then Some None
      else Some (Some (take (Z.to_nat orig_len) rest))
  | _ => None
  end.

(** The outer [None] is a panic: of the slice [..data_shards] or of [shard_packet]. *)
Definition extract_packets (g : PartialGroup) : option (list bytes) :=
  if (length (received g) <? Z.to_nat (g_data g))%nat then None
  else omap id <$> mapM shard_packet (omap id (take (Z.to_nat (g_data g)) (received g))).

Definition extract_data (x : FecDecoder) (group_id : Z) : option (FecDecoder * (list bytes * Z)) :=
  match groups x !! group_id with
  | None => Some (x, ([], 0))
  | Some g =>
      pkts ← extract_packets g;
      Some (x <| groups := delete group_id (groups x) |>, (pkts, group_shards_missing g))
  end.

Definition take_group_as_missing (x : FecDecoder) (group_id : Z) : FecDecoder * (list bytes * Z) :=
  match groups x !! group_id with
  | None => (x, ([], 0))
  | Some g => (x <| groups := delete group_id (groups x) |>, ([], group_shards_missing g))
  end.

(** The sum saturates, so the order of the map does not matter. *)
Definition add_missing (_ : Z) (g : PartialGroup) (m : Z) : Z := sat_add U16_MAX m (group_shards_missing g).

Definition evict_at (x : FecDecoder) (now : Instant) : FecDecoder * Z :=
  let keep (_ : Z) g := duration_since now (created_at g) <? group_ttl x in
  (x <| groups := retain keep (groups x) |>,
   map_fold add_missing 0 (retain (fun k g => negb (keep k g)) (groups x))).

Definition evict_expired (x : FecDecoder) (now : Instant) : FecDecoder * Z :=
  let '(x, m) := evict_at x now in (x <| last_evict := now |>, m).

Definition evict_oldest_group `{HashIter} (x : FecDecoder) : FecDecoder * Z :=
  match min_by_key (fun kv : Z * PartialGroup => created_at kv.2) (hm_iter (groups x)) with
  | Some (id, g) => (x <| groups := delete id (groups x) |>, group_shards_missing g)
  | None => (x, 0)
  end.

Section Decode.
Context `{HashIter} `{ReedSolomon}.

Definition dec_ensure_codec (x : FecDecoder) (d p : nat) : FecDecoder * bool :=
  if bool_decide (reconstruct_rs x = None) || negb (reconstruct_rs_data x =? d)%nat
     || negb (reconstruct_rs_parity x =? p)%nat then
    if rs_new d p then
      (x <| reconstruct_rs := Some (d, p) |> <| reconstruct_rs_data := d |> <| reconstruct_rs_parity := p |>, true)
    else (x, false)
  else (x, true).

Definition reconstruct_and_extract (x : FecDecoder) (group_id : Z) : option (FecDecoder * (list bytes * Z)) :=
  match groups x !! group_id with
  | None => Some (x, ([], 0))
  | Some g =>
      let '(x, ok) := dec_ensure_codec x (Z.to_nat (g_data g)) (Z.to_nat (g_parity g)) in
      if negb ok then Some (take_group_as_missing x group_id)
      else
        match reconstruct_rs x with
        | None => Some (take_group_as_missing x group_id)
        | Some (cd, cp) =>
            match rs_reconstruct cd cp (received g) with
            | None => Some (take_group_as_missing x group_id)
            | Some got =>
                extract_data (x <| groups := <[group_id := g <| received := got |>]> (groups x) |>) group_id
            end
        end
  end.

(** The header fields of a shard frame. *)
Record FecHeader := mkFecHeader {
  h_group : Z; h_idx : Z; h_data : Z; h_parity : Z; h_size : Z; h_payload : bytes
}.

Definition fec_header (raw : bytes) : FecHeader :=
  mkFecHeader (le_val (take 4 (drop 1 raw))) (nth 5 raw 0) (nth 6 raw 0) (nth 7 raw 0)
    (le_val (take 2 (drop 8 raw))) (drop 10 raw).

Definition header_bad (h : FecHeader) : bool :=
  let total := h_data h + h_parity h in
  (total =? 0) || (total >? FEC_MAX_TOTAL_SHARDS) || (h_idx h >=? total) ||
  (len (h_payload h) <? h_size h) || (h_size h <? FEC_SHARD_LEN_PREFIX) ||
  (h_size h >? FEC_SHARD_PAYLOAD_SIZE).

Definition drop_group (x : FecDecoder) (group_id m : Z) : FecDecoder * Z :=
  match groups x !! group_id with
  | Some g => (x <| groups := delete group_id (groups x) |>, sat_add U16_MAX m (group_shards_missing g))
  | None => (x, m)
  end.

(** The part of [push_shard] after the entry of the group was found or made. *)
Definition store_shard (x : FecDecoder) (h : FecHeader) (g : PartialGroup) (m : Z)
  : option (FecDecoder * FecDecodeResult) :=
  let total := h_data h + h_parity h in
  let id := h_group h in
  if negb (g_data g =? h_data h) || negb (g_parity g =? h_parity h) || negb (g_shard_size g =? h_size h)
     || negb (len (received g) =? total) then
    let '(x, m) := drop_group x id m in Some (x, invalid_with_missing m)
  else
    match received g !! Z.to_nat (h_idx h) with
    | None => None
    | Some (Some _) => Some (x, decoded_ok [] 0 m)
    | Some None =>
        let g := g <| received := <[Z.to_nat (h_idx h) := Some (take (Z.to_nat (h_size h)) (h_payload h))]> (received g) |>
                   <| received_count := sat_add U8_MAX (received_count g) 1 |> in
        let x := x <| groups := <[id := g]> (groups x) |> in
        let data_count := present (take (Z.to_nat (g_data g)) (received g)) in
        if (data_count =? Z.to_nat (g_data g))%nat then
          '(x, (pkts, _)) ← extract_data x id;
          Some (note_completed x id, decoded_ok pkts 1 m)
        else if received_count g >=? g_data g then
          '(x, (pkts, close_missing)) ← reconstruct_and_extract x id;
          Some (note_completed x id, decoded_ok pkts 1 (sat_add U16_MAX m close_missing))
        else Some (x, decoded_ok [] 1 m)
    end.

(** The eviction [push_shard] starts with, every 50 ms. *)
Definition evict_due (x : FecDecoder) (now : Instant) : FecDecoder * Z :=
  if duration_since now (last_evict x) >=? FEC_DECODER_EVICT_INTERVAL then
    let '(x, n) := evict_at x now in (x <| last_evict := now |>, sat_add U16_MAX 0 n)
  else (x, 0).

(** Room for one more group. *)
Definition make_room (x : FecDecoder) (m : Z) : FecDecoder * Z :=
  if (max_groups x <=? size (groups x))%nat then
    let '(x, n) := evict_oldest_group x in (x, sat_add U16_MAX m n)
  else (x, m).

(** [now] and [now'] are the two readings of the clock; [None] is a panic. *)
Definition push_shard (x : FecDecoder) (raw : bytes) (now now' : Instant) : option (FecDecoder * FecDecodeResult) :=
  let '(x, m) := evict_due x now in
  if (len raw <? FEC_COMPACT_HEADER_LEN) || negb (nth 0 raw 0 =? to_byte Fec) then
    Some (x, invalid_with_missing m)
  else
    let h := fec_header raw in
    let id := h_group h in
    if existsb (fun i => i =? id) (completed_groups x) then Some (x, decoded_ok [] 0 m)
    else if header_bad h then
      let '(x, m) := drop_group x id m in Some (x, invalid_with_missing m)
    else
      match groups x !! id with
      | Some g => store_shard x h g m
      | None =>
          let '(x, m) := make_room x m in
          let g := mkGroup (h_data h) (h_parity h) (h_size h)
                     (replicate (Z.to_nat (h_data h + h_parity h)) None) 0 now' in
          store_shard (x <| groups := <[id := g]> (groups x) |>) h g m
      end.

End Decode.

(** ** The encoder conserves packets *)

(** Pooled buffers do not show: a fresh shard is always zeroed. *)
Definition same_but_pool (e e' : FecEncoder) : Prop := e' = e <| shard_pool := shard_pool e' |>.

Lemma same_but_pool_refl e : same_but_pool e e.
Proof. by destruct e. Qed.

Lemma same_but_pool_trans e1 e2 e3 : same_but_pool e1 e2 -> same_but_pool e2 e3 -> same_but_pool e1 e3.
Proof. unfold same_but_pool. intros -> ->. by destruct e1. Qed.

Lemma take_shard_buf_spec e :
  same_but_pool e (take_shard_buf e).1 /\ (take_shard_buf e).2 = zeros (shard_payload_size e).
Proof.
  unfold take_shard_buf, same_but_pool, zeros. destruct e as [???????? ?  [|v pool]?]; enc_simpl; [done|].
  split; [done|]. destruct (len v =? _) eqn:E; [|done]. breflect. unfold len in E. f_equal. lia.
Qed.

Lemma return_shard_buf_spec e v : same_but_pool e (return_shard_buf e v).
Proof. unfold return_shard_buf, same_but_pool. destruct e. enc_simpl. by repeat case_match. Qed.

Lemma return_all_spec {A} (f : A -> bytes) e l : same_but_pool e (foldl (fun e s => return_shard_buf e (f s)) e l).
Proof.
  apply (foldl_inv (same_but_pool e)); [apply same_but_pool_refl|].
  intros e' v He. eapply same_but_pool_trans; [done|]. apply return_shard_buf_spec.
Qed.

Lemma take_shard_bufs_spec n e :
  same_but_pool e (take_shard_bufs n e).1 /\
  (take_shard_bufs n e).2 = replicate n (zeros (shard_payload_size e)).
Proof.
  revert e. induction n as [|n IH]; intros e; [split; [apply same_but_pool_refl|done]|]. cbn [take_shard_bufs].
  destruct (take_shard_buf_spec e) as [H1 H2]. destruct (take_shard_buf e) as [e1 v]. cbn [fst snd] in *.
  destruct (IH e1) as [H3 H4]. destruct (take_shard_bufs n e1) as [e2 vs]. cbn [fst snd] in *.
  split; [by eapply same_but_pool_trans|]. rewrite H4, H2. unfold same_but_pool in H1. rewrite H1. by destruct e.
Qed.

Definition originals (e : FecEncoder) : list bytes := original <$> shard_buf e.

(** A buffered shard holds its packet behind a length prefix. *)
Definition shard_ok (s : PendingShard) : Prop := shard_packet (shard s) = Some (Some (original s)).

Lemma le_val_two z : 0 <= z < 65536 -> le_val [z mod 256; z / 256 mod 256] = z.
Proof.
  intros Hz. change [z mod 256; z / 256 mod 256] with (le_bytes 2 z). rewrite le_val_le_bytes.
  apply Z.mod_small. simpl. lia.
Qed.

Lemma shard_packet_encode pkt pad :
  len pkt < 65536 -> shard_packet (le_bytes 2 (len pkt) ++ pkt ++ pad) = Some (Some pkt).
Proof.
  intros Hl. pose proof (len_nonneg pkt). pose proof (len_nonneg pad).
  change (le_bytes 2 (len pkt) ++ pkt ++ pad)
    with (len pkt mod 256 :: len pkt / 256 mod 256 :: (pkt ++ pad)). unfold shard_packet.
  rewrite le_val_two by lia. rewrite !len_cons, len_app. unfold FEC_SHARD_LEN_PREFIX, sat_sub.
  rewrite Z.gtb_ltb, (proj2 (Z.ltb_ge _ _)) by lia. unfold len. by rewrite Nat2Z.id, take_app_length.
Qed.

(** ** Encoder invariant *)

Section Encoder.
Context `{ReedSolomonLaws}.

(** The cached codec is the one its counts name, and buffered shards hold their packets. *)
Definition enc_core (e : FecEncoder) : Prop :=
  (forall c, rs_cache e = Some c -> c = (rs_cache_data e, rs_cache_parity e) /\ rs_new c.1 c.2 = true) /\
  shard_payload_size e <= FEC_SHARD_PAYLOAD_SIZE /\
  0 <= data_shards e <= 255 /\ 0 <= parity_shards e <= 255 /\
  Forall shard_ok (shard_buf e).

(** Between calls, a non-empty buffer belongs to a usable ratio and is smaller than a full group. *)
Definition enc_inv (e : FecEncoder) : Prop :=
  enc_core e /\
  (shard_buf e <> [] ->
   0 < parity_shards e /\ data_shards e + parity_shards e <= FEC_MAX_TOTAL_SHARDS /\
   len (shard_buf e) < data_shards e).

(** Every buffered shard has the configured size: a group can be encoded. *)
Definition enc_uniform (e : FecEncoder) : Prop :=
  Forall (fun s => len (shard s) = shard_payload_size e /\ Forall byte_ok (shard s)) (shard_buf e).

Definition group_frames (gid : Z) (d p : nat) (full : list bytes) : list bytes :=
  imap (fun i s => build_fec_packet_into gid (Z.of_nat i) (Z.of_nat d) (Z.of_nat p) s) full.

(** The frames of a group of [d] data shards holding [pkts] and [p] parity shards. *)
Definition encoded_group (gid : Z) (d p : nat) (pkts : list bytes) (frames : list bytes) : Prop :=
  exists l full, (1 <= d)%nat /\ (1 <= p)%nat /\ (d + p <= 64)%nat /\ length l = (d + p)%nat /\
  Forall2 (fun s pkt => shard_packet s = Some (Some pkt)) (take d l) pkts /\
  rs_encode d p l = Some full /\ frames = group_frames gid d p full.

(** Which packets an output of the encoder delivers.  When the codec refuses a group, the packets
    themselves are sent. *)
Inductive carries : FecOutput -> list bytes -> Prop :=
| carries_none : carries Buffered []
| carries_plain l : carries (Passthrough l) l
| carries_refused l : carries (Encoded l) l
| carries_group gid d p pkts frames : encoded_group gid d p pkts frames -> carries (Encoded frames) pkts.

(** What does not change when a group is closed. *)
Definition same_config (e e' : FecEncoder) : Prop :=
  ratio e' = ratio e /\ shard_payload_size e' = shard_payload_size e.

Lemma core_empty e : enc_core e -> shard_buf e = [] -> enc_inv e.
Proof. intros Hc Hb. split; [done|]. by rewrite Hb. Qed.

Lemma core_frame e e' :
  enc_core e -> rs_cache e' = rs_cache e -> rs_cache_data e' = rs_cache_data e ->
  rs_cache_parity e' = rs_cache_parity e -> same_config e e' -> Forall shard_ok (shard_buf e') -> enc_core e'.
Proof.
  unfold enc_core, same_config, ratio. intros (Hc & Hs & Hd & Hp & Hb) E1 E2 E3 [[= E4 E5] E6] Hb'.
  rewrite E1, E2, E3, E4, E5, E6. done.
Qed.

Lemma passthrough_spec e :
  enc_core e ->
  let '(e', out) := take_passthrough_packets e in
  out = originals e /\ shard_buf e' = [] /\ enc_core e' /\ same_config e e'.
Proof.
  intros Hc. unfold take_passthrough_packets.
  pose proof (return_all_spec shard (e <| shard_buf := [] |>) (shard_buf e)) as Hr.
  unfold same_but_pool in Hr. rewrite Hr. split_and!; try done.
  eapply core_frame; [exact Hc|done..|constructor].
Qed.

Lemma ensure_codec_spec e d p :
  enc_core e ->
  let '(e', ok) := ensure_codec e d p in
  enc_core e' /\ ok = rs_new d p /\ (ok = true -> rs_cache e' = Some (d, p)) /\
  shard_buf e' = shard_buf e /\ same_config e e' /\ current_group_id e' = current_group_id e.
Proof.
  intros Hi. pose proof Hi as (Hc & Hs & Hd & Hp & Hb). unfold ensure_codec.
  destruct (bool_decide _) eqn:E1; cbn [orb].
  2: destruct (rs_cache_data e =? d)%nat eqn:E2; cbn [orb negb].
  2: destruct (rs_cache_parity e =? p)%nat eqn:E3; cbn [orb negb].
  2: { breflect. apply Nat.eqb_eq in E2, E3. subst. destruct (rs_cache e) as [c|] eqn:Ec; [|done].
       destruct (Hc c eq_refl) as [-> Hn]. by split_and!. }
  all: destruct (rs_new d p) eqn:En; (split; [split; [by intros ? [= <-]|done]|done]).
Qed.

(** A group any [d] frames of which are enough. *)
Definition recoverable_group (gid : Z) (d p : nat) (pkts : list bytes) (frames : list bytes) : Prop :=
  exists l full n, (1 <= d)%nat /\ (1 <= p)%nat /\ (d + p <= 64)%nat /\ length l = (d + p)%nat /\
  Forall2 (fun s pkt => shard_packet s = Some (Some pkt)) (take d l) pkts /\
  rs_encode d p l = Some full /\ frames = group_frames gid d p full /\
  rs_new d p = true /\ Forall (fun s => length s = S n) l /\ Forall (Forall byte_ok) l /\
  2 <= Z.of_nat (S n) <= FEC_SHARD_PAYLOAD_SIZE.

Lemma originals_shards l : Forall shard_ok l ->
  Forall2 (fun s pkt => shard_packet s = Some (Some pkt)) (shard <$> l) (original <$> l).
Proof. induction 1; simpl; constructor; done. Qed.

Lemma same_but_pool_fields e e' :
  same_but_pool e e' ->
  shard_buf e' = shard_buf e /\ rs_cache e' = rs_cache e /\ same_config e e' /\ group_seq e' = group_seq e /\
  (enc_core e -> enc_core e').
Proof.
  intros E. assert (F : rs_cache_data e' = rs_cache_data e /\ rs_cache_parity e' = rs_cache_parity e /\
    shard_buf e' = shard_buf e /\ rs_cache e' = rs_cache e /\ same_config e e' /\ group_seq e' = group_seq e).
  { unfold same_but_pool in E. rewrite E. by split_and!. }
  destruct F as (F1 & F2 & F3 & F4 & F5 & F6). split_and!; try done; try apply F5.
  intros Hc. eapply core_frame; [exact Hc|done..|]. rewrite F3. apply Hc.
Qed.

Lemma same_config_trans e1 e2 e3 : same_config e1 e2 -> same_config e2 e3 -> same_config e1 e3.
Proof. unfold same_config. intros [-> ->] [-> ->]. done. Qed.

(** A closed group: either its packets, or its frames. *)
Definition group_out (e e' : FecEncoder) (d p : nat) (out : list bytes) : Prop :=
  enc_core e' /\ shard_buf e' = [] /\ same_config e e' /\ carries (Encoded out) (originals e) /\
  (enc_uniform e -> rs_new d p = true -> exists gid, recoverable_group gid d p (originals e) out).

Lemma group_refused e e1 d p :
  enc_core e1 -> shard_buf e1 = shard_buf e -> same_config e e1 -> rs_new d p = false \/ ~ enc_uniform e ->
  group_out e (take_passthrough_packets e1).1 d p (take_passthrough_packets e1).2.
Proof.
  intros Hc Hb Hcfg Hno. pose proof (passthrough_spec e1 Hc) as Hq.
  destruct (take_passthrough_packets e1) as [e' out]. destruct Hq as (-> & Hb' & Hc' & Hcfg').
  unfold group_out. cbn [fst snd]. split_and!; [done|done|by eapply same_config_trans| |].
  - unfold originals. rewrite Hb. constructor.
  - intros Hu Hn. destruct Hno; [congruence|done].
Qed.

Lemma uniform_shards e p :
  enc_uniform e -> shard_buf e <> [] -> Forall shard_ok (shard_buf e) -> shard_payload_size e <= FEC_SHARD_PAYLOAD_SIZE ->
  exists n, shard_payload_size e = Z.of_nat (S n) /\ 2 <= Z.of_nat (S n) <= FEC_SHARD_PAYLOAD_SIZE /\
  Forall (fun s => length s = S n) ((shard <$> shard_buf e) ++ replicate p (zeros (shard_payload_size e))) /\
  Forall (Forall byte_ok) ((shard <$> shard_buf e) ++ replicate p (zeros (shard_payload_size e))).
Proof.
  intros Hu Hne Hok Hsz.
  assert (Hlo : 2 <= shard_payload_size e).
  { destruct (shard_buf e) as [|s0 b] eqn:E; [done|]. unfold enc_uniform in Hu. rewrite E in Hu.
    apply Forall_cons in Hu as [[<- _] _]. apply Forall_cons in Hok as [Hs _].
    unfold shard_ok in Hs. destruct (shard s0) as [|b0 [|b1 r]]; try done. rewrite !len_cons.
    pose proof (len_nonneg r). lia. }
  exists (Z.to_nat (shard_payload_size e - 1)). split_and!; [lia|lia|lia| |].
  - apply Forall_app. split.
    + apply Forall_fmap. eapply Forall_impl; [exact Hu|]. intros s [Hs _]. unfold len in Hs. simpl. lia.
    + apply Forall_replicate. unfold zeros. rewrite length_replicate. lia.
  - apply Forall_app. split.
    + apply Forall_fmap. eapply Forall_impl; [exact Hu|]. by intros s [_ Hs].
    + apply Forall_replicate. unfold zeros. apply Forall_replicate. unfold byte_ok. lia.
Qed.

Lemma group_encoded e d p full :
  enc_core e -> length (shard_buf e) = d -> (1 <= d)%nat -> (1 <= p)%nat -> (d + p <= 64)%nat ->
  rs_encode d p ((shard <$> take d (shard_buf e)) ++ replicate p (zeros (shard_payload_size e))) = Some full ->
  let out := group_frames (current_group_id e) d p full in
  carries (Encoded out) (originals e) /\
  (enc_uniform e -> rs_new d p = true -> recoverable_group (current_group_id e) d p (originals e) out).
Proof.
  intros (_ & Hsz & _ & _ & Hok) Hl Hd Hp Hdp. rewrite take_ge by lia. intros He out.
  set (l := _ ++ _) in He.
  assert (Hl' : length l = (d + p)%nat) by (unfold l; rewrite length_app, length_fmap, length_replicate; lia).
  assert (Hf : Forall2 (fun s pkt => shard_packet s = Some (Some pkt)) (take d l) (originals e)).
  { unfold l. rewrite take_app_length' by (by rewrite length_fmap). by apply originals_shards. }
  split; [apply (carries_group (current_group_id e) d p); exists l, full; by split_and!|].
  intros Hu Hn. destruct (uniform_shards e p Hu) as (n & _ & Hn2 & Hlen & Hbytes); [|done..|].
  - intros E. rewrite E in Hl. simpl in Hl. lia.
  - exists l, full, n. destruct Hn2. by split_and!.
Qed.

Lemma encode_spec e d p now :
  enc_core e -> length (shard_buf e) = d -> (1 <= d)%nat -> (1 <= p)%nat -> (d + p <= 64)%nat ->
  let '(e', out) := encode_and_reset e d p now in group_out e e' d p out.
Proof.
  intros Hc Hl Hd Hp Hdp. unfold encode_and_reset.
  pose proof (ensure_codec_spec e d p Hc) as Hen. destruct (ensure_codec e d p) as [e1 ok].
  destruct Hen as (Hc1 & -> & Hcache & Hb1 & Hcfg1 & Hgid).
  assert (Hpass : forall e2, same_but_pool e1 e2 -> rs_new d p = false \/ ~ enc_uniform e ->
    let '(e', out) := take_passthrough_packets e2 in group_out e e' d p out).
  { intros e2 (F1 & F2 & F3 & _ & F4)%same_but_pool_fields Hno.
    pose proof (group_refused e e2 d p) as Hg. destruct (take_passthrough_packets e2).
    apply Hg; [by apply F4|congruence|by eapply same_config_trans|done]. }
  destruct (rs_new d p) eqn:En; cbn [negb]; [|apply Hpass; [apply same_but_pool_refl|by left]].
  rewrite Hb1, Hl, Nat.ltb_irrefl.
  destruct (take_shard_bufs_spec p e1) as [Hp1 Hp2]. destruct (take_shard_bufs p e1) as [e2 parity].
  cbn [fst snd] in *. subst parity. rewrite (proj2 Hcfg1).
  pose proof (same_but_pool_fields _ _ Hp1) as (F1 & F2 & F3 & _ & F4). rewrite F2, Hcache by done.
  destruct (rs_encode d p _) as [full|] eqn:Ee.
  - destruct (group_encoded e d p full) as [Hcar Hrec]; [done..|].
    pose proof (return_all_spec id e2 full) as (G1 & G2 & G3 & _ & G4)%same_but_pool_fields.
    set (e3 := foldl return_shard_buf e2 full) in *. change (foldl _ e2 full) with e3 in G1, G2, G3, G4.
    assert (Hdrop : drop d (shard_buf e3) = []) by (rewrite G1, F1, Hb1; apply drop_ge; lia).
    enc_simpl. rewrite Hdrop, bool_decide_eq_true_2 by done.
    unfold group_out. rewrite Hgid. split_and!; [|done| | exact Hcar|].
    + eapply core_frame; [exact (G4 (F4 Hc1))|done..|constructor].
    + eapply same_config_trans; [exact Hcfg1|]. eapply same_config_trans; [exact F3|exact G3].
    + intros Hu _. by exists (current_group_id e); apply Hrec.
  - apply Hpass; [eapply same_but_pool_trans; [exact Hp1|apply (return_all_spec id)]|]. right. intros Hu.
    destruct (uniform_shards e p Hu) as (n & _ & Hn2 & Hlen & Hbytes); [|by apply Hc..|].
    { intros E. rewrite E in Hl. simpl in Hl. lia. }
    rewrite take_ge in Ee by lia. eapply eq_None_not_Some; [exact Ee|]. eapply rs_encode_some; [done| |exact Hlen|exact Hbytes].
    rewrite length_app, length_fmap, length_replicate. lia.
Qed.
(** If the codec accepts the shard counts, the frames are a group carrying the packets. *)
Definition recoverable (o : FecOutput) (pkts : list bytes) : Prop :=
  forall frames, o = Encoded frames ->
  exists gid d p, (1 <= d)%nat /\ (1 <= p)%nat /\ (d + p <= 64)%nat /\
  (rs_new d p = true -> recoverable_group gid d p pkts frames).

(** An operation that empties the buffer: everything buffered is in its output. *)
Definition closes (e e' : FecEncoder) (o : FecOutput) : Prop :=
  enc_core e' /\ shard_buf e' = [] /\ same_config e e' /\ carries o (originals e) /\
  (enc_uniform e -> recoverable o (originals e)).

Lemma closes_passthrough e : enc_core e -> closes e (take_passthrough e).1 (take_passthrough e).2.
Proof.
  intros Hc. unfold take_passthrough. pose proof (passthrough_spec e Hc) as Hq.
  destruct (take_passthrough_packets e) as [e' out]. destruct Hq as (-> & Hb & Hc' & Hcfg). cbn [fst snd].
  split_and!; try done. constructor.
Qed.

Lemma closes_encode e d p now :
  enc_core e -> length (shard_buf e) = d -> (1 <= d)%nat -> (1 <= p)%nat -> (d + p <= 64)%nat ->
  closes e (encode_and_reset e d p now).1 (Encoded (encode_and_reset e d p now).2).
Proof.
  intros Hc Hl Hd Hp Hdp. pose proof (encode_spec e d p now Hc Hl Hd Hp Hdp) as Hg.
  destruct (encode_and_reset e d p now) as [e' out]. destruct Hg as (H1 & H2 & H3 & H4 & H5).
  unfold closes. cbn [fst snd]. split_and!; try done.
  intros Hu ? [= <-]. destruct (rs_new d p) eqn:En; [|by exists 0, d, p; rewrite En].
  destruct (H5 Hu eq_refl) as [gid Hr]. by exists gid, d, p.
Qed.

Lemma closes_flush e qb now :
  enc_core e ->
  (shard_buf e <> [] -> 0 < parity_shards e /\ data_shards e + parity_shards e <= FEC_MAX_TOTAL_SHARDS /\
                        len (shard_buf e) <= data_shards e) ->
  closes e (enc_flush e qb now).1 (enc_flush e qb now).2.
Proof.
  intros Hc Hb. unfold enc_flush. case_bool_decide as E.
  { cbn [fst snd]. unfold closes, originals. rewrite E. split_and!; try done; try apply Hc. constructor. }
  destruct (Hb E) as (Hp & Htot & Hlen). unfold FEC_MAX_TOTAL_SHARDS in *.
  destruct (_ || _); [by apply closes_passthrough|]. destruct (len (shard_buf e) <? 2) eqn:E2; [by apply closes_passthrough|].
  breflect. set (q := clamp _ _ _).
  assert (Hq : 1 <= q <= parity_shards e) by (unfold q; rewrite (Z.max_l (parity_shards e)) by lia; apply clamp_bounds; lia).
  destruct (_ >? _); [by apply closes_passthrough|]. destruct (over_budget _ _); [by apply closes_passthrough|].
  pose proof (closes_encode e (Z.to_nat (len (shard_buf e))) (Z.to_nat q) now) as Hcl.
  destruct (encode_and_reset _ _ _ _) as [e' out]. apply Hcl; unfold len in *; [done|lia..].
Qed.

(** The buffer after the packet was put in. *)
Lemma push_buffered e pkt :
  enc_core e -> 0 <= len pkt + FEC_SHARD_LEN_PREFIX <= shard_payload_size e ->
  let s := le_bytes 2 (len pkt) ++ pkt ++ drop (2 + length pkt) (zeros (shard_payload_size e)) in
  shard_ok (mkShard pkt s) /\ len s = shard_payload_size e /\ (Forall byte_ok pkt -> Forall byte_ok s).
Proof.
  intros (_ & Hsz & _) Hl s. unfold FEC_SHARD_PAYLOAD_SIZE, FEC_SHARD_LEN_PREFIX in *. split_and!.
  - unfold shard_ok. simpl. apply shard_packet_encode. lia.
  - unfold s, zeros. rewrite !len_app. unfold len in *. rewrite length_le_bytes, length_drop, length_replicate. lia.
  - intros Hp. unfold s. rewrite !Forall_app. split_and!; [apply le_bytes_ok|done|].
    apply Forall_drop, Forall_replicate. unfold byte_ok. lia.
Qed.
Definition fits (e : FecEncoder) (pkt : bytes) : Prop := len pkt + FEC_SHARD_LEN_PREFIX <= shard_payload_size e.

(** One step of the encoder that takes in [pushed] and puts out [o]: no packet is lost, repeated or
    invented, and packets that fit a shard keep their order. *)
Definition advances (e : FecEncoder) (pushed : list bytes) (e' : FecEncoder) (o : FecOutput) : Prop :=
  enc_inv e' /\ shard_payload_size e' = shard_payload_size e /\
  exists out, carries o out /\ originals e ++ pushed ≡ₚ out ++ originals e' /\
  (Forall (fits e) pushed -> originals e ++ pushed = out ++ originals e') /\
  (Forall (Forall byte_ok) pushed -> enc_uniform e -> enc_uniform e' /\ recoverable o out).

Lemma uniform_empty e : shard_buf e = [] -> enc_uniform e.
Proof. unfold enc_uniform. intros ->. constructor. Qed.

Lemma closes_advances e e1 e' o pushed :
  closes e1 e' o -> originals e1 = originals e ++ pushed -> shard_payload_size e1 = shard_payload_size e ->
  (Forall (Forall byte_ok) pushed -> enc_uniform e -> enc_uniform e1) -> advances e pushed e' o.
Proof.
  intros (Hc & Hb & Hcfg & Hcar & Hrec) Ho Hs Hu. split; [by apply core_empty|]. split; [by rewrite (proj2 Hcfg)|].
  assert (Ho' : originals e' = []) by (unfold originals; by rewrite Hb).
  exists (originals e1). rewrite Ho', app_nil_r, Ho. split_and!; try done; [by rewrite <- Ho|].
  intros Hby Hue. split; [by apply uniform_empty|]. rewrite <- Ho. by apply Hrec, Hu.
Qed.

Lemma advances_plain e pkt :
  enc_inv e -> (shard_buf e = [] \/ ~ fits e pkt) -> advances e [pkt] e (Passthrough [pkt]).
Proof.
  intros Hi Hor. split; [done|]. split; [done|]. exists [pkt]. split; [constructor|]. split; [by rewrite Permutation_app_comm|].
  split; [|by intros _ Hu]. intros [Hf _]%Forall_cons. destruct Hor as [Hb|Hn]; [|by destruct (Hn Hf)].
  unfold originals. by rewrite Hb.
Qed.

Lemma arm_group_fields e policy now e' :
  e' = arm_group e policy now ->
  shard_buf e' = shard_buf e /\ same_config e e' /\ (enc_core e -> enc_core e').
Proof.
  intros ->. unfold arm_group. destruct (bool_decide _), (first_at e) eqn:E; enc_simpl; rewrite ?E; by split_and!.
Qed.

(** The packet is in the buffer, nothing else changed. *)
Lemma buffered_spec e pkt policy now :
  enc_core e -> fits e pkt ->
  let '(e1, buf) := take_shard_buf (arm_group e policy now) in
  let e2 := e1 <| shard_buf := shard_buf e1 ++ [mkShard pkt (le_bytes 2 (len pkt) ++ pkt ++ drop (2 + length pkt) buf)] |> in
  enc_core e2 /\ same_config e e2 /\ originals e2 = originals e ++ [pkt] /\
  len (shard_buf e2) = len (shard_buf e) + 1 /\
  (Forall (Forall byte_ok) [pkt] -> enc_uniform e -> enc_uniform e2).
Proof.
  intros Hc Hf. destruct (arm_group_fields e policy now _ eq_refl) as (A1 & A2 & A3).
  destruct (take_shard_buf_spec (arm_group e policy now)) as [Hp Hz].
  destruct (take_shard_buf _) as [e1 buf]. cbn [fst snd] in *.
  apply same_but_pool_fields in Hp as (F1 & F2 & F3 & _ & F4).
  pose proof (same_config_trans _ _ _ A2 F3) as Hcfg. specialize (F4 (A3 Hc)). subst buf.
  rewrite (proj2 A2). pose proof (len_nonneg pkt).
  destruct (push_buffered e pkt Hc) as (B1 & B2 & B3); [unfold fits, FEC_SHARD_LEN_PREFIX in *; lia|].
  split; [|split; [|split; [|split]]].
  - eapply core_frame; [exact F4|done..|]. enc_simpl. apply Forall_app. split; [apply F4|]. by constructor.
  - exact Hcfg.
  - unfold originals. enc_simpl. by rewrite F1, A1, fmap_app.
  - enc_simpl. rewrite F1, A1, len_app. done.
  - intros [Hby _]%Forall_cons Hu. unfold enc_uniform in *. enc_simpl. rewrite F1, A1, (proj2 Hcfg).
    apply Forall_app. split; [done|]. constructor; [|done]. split; [done|by apply B3].
Qed.

Lemma push_spec e pkt qb now :
  enc_inv e -> advances e [pkt] (push_output e pkt qb now).1 (push_output e pkt qb now).2.
Proof.
  intros Hi. pose proof Hi as [Hc Hb]. unfold push_output.
  assert (Hempty : (data_shards e =? 0) || (parity_shards e =? 0) = true \/
    (data_shards e + parity_shards e =? 0) || (data_shards e + parity_shards e >? FEC_MAX_TOTAL_SHARDS) = true -> shard_buf e = []).
  { intros Hoff. destruct (shard_buf e) as [|s0 b]; [done|]. destruct Hb as (? & ? & ?); [done|].
    pose proof (len_nonneg (s0 :: b)). rewrite Z.gtb_ltb in Hoff. destruct Hoff as [Ho|Ho]; apply orb_true_iff in Ho as [Ho|Ho]; breflect; lia. }
  destruct (_ || _) eqn:E1; [apply advances_plain; auto|].
  destruct (len pkt + _ >? _) eqn:E2.
  { apply advances_plain; [done|]. right. unfold fits. rewrite Z.gtb_ltb in E2. breflect. simpl. lia. }
  destruct ((_ + _ =? 0) || _) eqn:E3; [apply advances_plain; auto|].
  rewrite Z.gtb_ltb in *. breflect. unfold FEC_MAX_TOTAL_SHARDS in *.
  pose proof (buffered_spec e pkt (classify_packet (len pkt)) now Hc) as Hbuf.
  destruct (take_shard_buf _) as [e1 buf]. set (e2 := e1 <| shard_buf := _ |>) in *.
  destruct Hbuf as (Hc2 & Hcfg & Ho & Hl & Hu); [unfold fits; lia|].
  assert (Hds : data_shards e2 = data_shards e /\ parity_shards e2 = parity_shards e) by (by destruct Hcfg as [[=] _]).
  destruct Hds as [Hd Hp]. pose proof (len_nonneg (shard_buf e)). destruct Hc as (_ & _ & Hdr & Hpr & _).
  assert (Hle : len (shard_buf e2) <= Z.max 1 (data_shards e)).
  { rewrite Hl. destruct (shard_buf e) as [|s0 b]; [unfold len; simpl; lia|]. destruct Hb as (_ & _ & Hb); [done|]. lia. }
  assert (Hne : shard_buf e2 <> []) by (intros E; rewrite E in Hl; unfold len in *; simpl in Hl; lia).
  rewrite Z.geb_leb, Hd, Hp. destruct (_ <=? _) eqn:E4; breflect.
  - destruct (over_budget _ _).
    + eapply closes_advances; [by apply closes_passthrough|done|apply Hcfg|done].
    + pose proof (closes_encode e2 (Z.to_nat (data_shards e)) (Z.to_nat (parity_shards e)) now Hc2) as Hcl.
      destruct (encode_and_reset _ _ _ _) as [e' out].
      eapply closes_advances; [apply Hcl; unfold len in *; lia|done|apply Hcfg|done].
  - case_bool_decide.
    + eapply closes_advances; [apply closes_flush; [done|]|done|apply Hcfg|done].
      intros _. rewrite Hd, Hp. unfold FEC_MAX_TOTAL_SHARDS. lia.
    + cbn [fst snd]. split; [|split; [apply Hcfg|]].
      * split; [done|]. intros _. rewrite Hd, Hp. unfold FEC_MAX_TOTAL_SHARDS. lia.
      * exists []. rewrite Ho. split; [constructor|]. split; [done|]. split; [done|].
        intros Hby Hue. split; [by apply Hu|]. by intros ? ?.
Qed.

Lemma flush_advances e qb now : enc_inv e -> advances e [] (enc_flush e qb now).1 (enc_flush e qb now).2.
Proof.
  intros [Hc Hb]. eapply closes_advances; [apply closes_flush; [done|]|by rewrite app_nil_r|done|done].
  intros Hne. destruct (Hb Hne) as (? & ? & ?). lia.
Qed.

Lemma flush_passthrough_advances e :
  enc_inv e -> advances e [] (flush_passthrough e).1 (flush_passthrough e).2.
Proof.
  intros [Hc Hb]. unfold flush_passthrough. case_bool_decide as E.
  - eapply (closes_advances e e); [|by rewrite app_nil_r|done|done].
    pose proof (closes_flush e None 0 Hc) as Hcl. unfold enc_flush in Hcl. rewrite bool_decide_eq_true_2 in Hcl by done.
    apply Hcl. done.
  - eapply closes_advances; [by apply closes_passthrough|by rewrite app_nil_r|done|done].
Qed.

Lemma update_ratio_advances e d p qb now :
  enc_inv e -> 0 <= d <= 255 -> 0 <= p <= 255 ->
  let '(e', o) := update_ratio_with_flush e d p qb now in advances e [] e' o /\ ratio e' = (d, p).
Proof.
  intros [Hc Hb] Hd Hp. unfold update_ratio_with_flush. destruct (_ && _) eqn:E.
  { breflect. split; [|unfold ratio; congruence]. split; [done|]. split; [done|]. exists []. rewrite app_nil_r.
    split; [constructor|]. split; [done|]. split; [done|]. intros _ Hu. split; [done|]. by intros ? ?. }
  pose proof (closes_flush e qb now Hc) as Hcl. destruct (enc_flush e qb now) as [e1 o]. cbn [fst snd] in Hcl.
  destruct Hcl as (Hc1 & Hb1 & Hcfg1 & Hcar & Hrec). { intros Hne. destruct (Hb Hne) as (? & ? & ?). lia. }
  split; [|done]. destruct Hc1 as (C1 & C2 & C3 & C4 & C5).
  split; [apply core_empty; [split; [done|split; [done|split; [done|split; [done|constructor]]]]|done]|]. split; [apply Hcfg1|].
  exists (originals e). rewrite app_nil_r. change (originals (_ <| data_shards := d |> <| parity_shards := p |>)) with (@nil bytes).
  rewrite app_nil_r. split; [done|]. split; [done|]. split; [done|].
  intros _ Hu. split; [by apply uniform_empty|by apply Hrec].
Qed.

(** The operations of the encoder's owner, at the times they happen. *)
Inductive enc_op :=
| OpPush (pkt : bytes) (qb : option (Z * Z))
| OpFlush (qb : option (Z * Z))
| OpPassthrough
| OpRatio (d p : Z) (qb : option (Z * Z)).

Definition enc_step (e : FecEncoder) (now : Instant) (op : enc_op) : FecEncoder * FecOutput :=
  match op with
  | OpPush pkt qb => push_output e pkt qb now
  | OpFlush qb => enc_flush e qb now
  | OpPassthrough => flush_passthrough e
  | OpRatio d p qb => update_ratio_with_flush e d p qb now
  end.

Fixpoint enc_run (e : FecEncoder) (ops : list (Instant * enc_op)) : FecEncoder * list FecOutput :=
  match ops with
  | [] => (e, [])
  | (now, op) :: ops =>
      let '(e, o) := enc_step e now op in
      let '(e, os) := enc_run e ops in (e, o :: os)
  end.

Definition op_pushed (op : enc_op) : list bytes := match op with OpPush pkt _ => [pkt] | _ => [] end.
Definition pushed (ops : list (Instant * enc_op)) : list bytes := ops ≫= (fun x => op_pushed x.2).

Definition enc_op_ok (op : enc_op) : Prop :=
  match op with OpRatio d p _ => 0 <= d <= 255 /\ 0 <= p <= 255 | _ => True end.

Lemma enc_step_advances e now op :
  enc_inv e -> enc_op_ok op -> advances e (op_pushed op) (enc_step e now op).1 (enc_step e now op).2.
Proof.
  intros Hi Hok. destruct op as [pkt qb|qb| |d p qb]; cbn [enc_step op_pushed].
  - by apply push_spec.
  - by apply flush_advances.
  - by apply flush_passthrough_advances.
  - destruct Hok as [Hd Hp]. pose proof (update_ratio_advances e d p qb now Hi Hd Hp) as Ha.
    destruct (update_ratio_with_flush e d p qb now). apply Ha.
Qed.

Lemma enc_run_advances ops e :
  enc_inv e -> Forall (fun x => enc_op_ok x.2) ops ->
  let '(e', outs) := enc_run e ops in
  enc_inv e' /\ shard_payload_size e' = shard_payload_size e /\
  exists lists, Forall2 carries outs lists /\
  originals e ++ pushed ops ≡ₚ concat lists ++ originals e' /\
  (Forall (fits e) (pushed ops) -> originals e ++ pushed ops = concat lists ++ originals e') /\
  (Forall (Forall byte_ok) (pushed ops) -> enc_uniform e -> Forall2 recoverable outs lists).
Proof.
  revert e. induction ops as [|[now op] ops IH]; intros e Hi Hok.
  - cbn [enc_run]. split; [done|]. split; [done|]. exists []. rewrite app_nil_r. split_and!; [constructor|done|done|].
    intros. constructor.
  - apply Forall_cons in Hok as [Hop Hok]. cbn [enc_run].
    pose proof (enc_step_advances e now op Hi Hop) as Ha. destruct (enc_step e now op) as [e1 o]. cbn [fst snd] in Ha.
    destruct Ha as (Hi1 & Hs1 & out & C1 & C2 & C3 & C4). specialize (IH e1 Hi1 Hok).
    destruct (enc_run e1 ops) as [e2 outs]. destruct IH as (Hi2 & Hs2 & lists & D1 & D2 & D3 & D4).
    split; [done|]. split; [congruence|]. exists (out :: lists).
    change (pushed ((now, op) :: ops)) with (op_pushed op ++ pushed ops). cbn [concat]. split_and!.
    + by constructor.
    + rewrite app_assoc, C2, <- !app_assoc. by apply Permutation_app_head.
    + intros [Hf1 Hf2]%Forall_app. rewrite app_assoc, C3, <- !app_assoc by done. f_equal. apply D3.
      eapply Forall_impl; [exact Hf2|]. intros pk. unfold fits. by rewrite Hs1.
    + intros [Hb1 Hb2]%Forall_app Hu. destruct (C4 Hb1 Hu) as [Hu1 Hr]. constructor; [done|by apply D4].
Qed.

Lemma with_flush_inv salt d p size st ag :
  0 <= d <= 255 -> 0 <= p <= 255 -> size <= FEC_SHARD_PAYLOAD_SIZE -> enc_inv (with_flush salt d p size st ag).
Proof. intros. apply core_empty; [|done]. split; [done|]. split; [done|]. split; [done|]. split; [done|constructor]. Qed.

(** The encoder delivers every packet pushed into it exactly once, in the packets and groups it puts
    out or still in its buffer; packets that fit a shard come out in the order they went in; and
    every group it puts out whose shard counts the codec accepts is one that any [d] of its frames
    determine. *)
Theorem encoder_conserves (salt d p size : Z) (st ag : Duration) (ops : list (Instant * enc_op)) :
  0 <= d <= 255 -> 0 <= p <= 255 -> size <= FEC_SHARD_PAYLOAD_SIZE -> Forall (fun x => enc_op_ok x.2) ops ->
  let '(e, outs) := enc_run (with_flush salt d p size st ag) ops in
  exists lists, Forall2 carries outs lists /\
  pushed ops ≡ₚ concat lists ++ originals e /\
  (Forall (fun pkt => len pkt + FEC_SHARD_LEN_PREFIX <= size) (pushed ops) -> pushed ops = concat lists ++ originals e) /\
  (Forall (Forall byte_ok) (pushed ops) -> Forall2 recoverable outs lists).
Proof.
  intros Hd Hp Hs Hok. pose proof (enc_run_advances ops (with_flush salt d p size st ag)) as Hr.
  destruct (enc_run _ ops) as [e outs]. destruct Hr as (_ & _ & lists & H1 & H2 & H3 & H4); [by apply with_flush_inv|done|].
  exists lists. split_and!; [done|exact H2|exact H3|]. intros Hb. apply H4; [done|by apply uniform_empty].
Qed.

End Encoder.

(** ** The decoder on arbitrary input *)

Lemma present_app l k : present (l ++ k) = (present l + present k)%nat.
Proof. unfold present. by rewrite omap_app, length_app. Qed.

Lemma present_replicate n : present (replicate n None) = 0%nat.
Proof. induction n; [done|]. exact IHn. Qed.

Lemma present_Some s l : present (Some s :: l) = S (present l).
Proof. done. Qed.

Lemma present_None l : present (None :: l) = present l.
Proof. done. Qed.

Lemma present_insert l i s :
  l !! i = Some None -> present (<[i := Some s]> l) = S (present l).
Proof.
  intros Hl. rewrite insert_take_drop by (by eapply lookup_lt_Some).
  rewrite <- (take_drop_middle l i None) at 3 by done.
  rewrite !present_app, present_Some, present_None. lia.
Qed.

Lemma present_le l : (present l <= length l)%nat.
Proof. induction l as [|[s|] l IH]; [done| |]; rewrite ?present_Some, ?present_None; simpl; lia. Qed.

Lemma present_full l : present l = length l -> exists k, l = Some <$> k.
Proof.
  induction l as [|[s|] l IH]; [by exists []| |]; rewrite ?present_Some, ?present_None; simpl; intros Hp.
  - destruct IH as [k ->]; [lia|]. by exists (s :: k).
  - pose proof (present_le l). lia.
Qed.

(** A group as stored: its shards, their number and their size. *)
Definition group_shape (g : PartialGroup) : Prop :=
  0 <= g_data g /\ 0 <= g_parity g /\ g_data g + g_parity g <= FEC_MAX_TOTAL_SHARDS /\
  len (received g) = g_data g + g_parity g /\
  FEC_SHARD_LEN_PREFIX <= g_shard_size g <= FEC_SHARD_PAYLOAD_SIZE /\
  Forall (fun s => forall b, s = Some b -> len b = g_shard_size g) (received g).

Definition group_wf (g : PartialGroup) : Prop :=
  group_shape g /\ received_count g = Z.of_nat (present (received g)).

Definition dec_core (x : FecDecoder) : Prop :=
  max_groups x = 256%nat /\ group_ttl x = from_millis 200 /\ (length (completed_groups x) <= FEC_COMPLETED_GROUPS_CAP)%nat /\
  (forall c, reconstruct_rs x = Some c -> c = (reconstruct_rs_data x, reconstruct_rs_parity x)).

(** At most 256 groups of at most 64 shards of at most 1,279 bytes, none of them complete. *)
Definition dec_inv (x : FecDecoder) : Prop :=
  dec_core x /\ (size (groups x) <= 256)%nat /\
  map_Forall (fun _ g => group_wf g /\ received_count g < g_data g) (groups x).

Lemma shard_packet_some s n : 2 <= n -> len s = n ->
  exists o, shard_packet s = Some o /\ forall pkt, o = Some pkt -> len pkt <= n - 2.
Proof.
  intros Hn Hl. destruct s as [|b0 [|b1 r]]; [unfold len in Hl; simpl in Hl; lia..|]. unfold shard_packet.
  rewrite !len_cons in Hl. destruct (_ >? _) eqn:E; eexists; (split; [done|]); [done|].
  intros ? [= <-]. unfold len in *. rewrite length_take. lia.
Qed.

Lemma shard_packets_some (l : list bytes) n :
  2 <= n -> Forall (fun s => len s = n) l ->
  exists os, mapM shard_packet l = Some os /\ length os = length l /\
  Forall (fun pkt => len pkt <= n - 2) (omap id os).
Proof.
  intros Hn. induction 1 as [|s l Hs _ (os & E & El & Hb)]; [by exists []|].
  destruct (shard_packet_some s n Hn Hs) as (o & Eo & Ho). exists (o :: os). cbn [mapM]. rewrite Eo. cbn. rewrite E.
  split; [done|]. split; [by rewrite El|]. destruct o as [pkt|]; cbn; [constructor; [by apply Ho|done]|done].
Qed.

Lemma omap_id_size (l : list (option bytes)) n :
  Forall (fun s => forall b, s = Some b -> len b = n) l -> Forall (fun s => len s = n) (omap id l).
Proof. induction 1 as [|[s|] l Hs _ IH]; cbn; [constructor| |done]. constructor; [by apply Hs|done]. Qed.

(** Extracting from a well-formed group does not panic; the packets are bounded. *)
Lemma extract_packets_some g :
  group_shape g ->
  exists pkts, extract_packets g = Some pkts /\ (length pkts <= Z.to_nat (g_data g))%nat /\
  Forall (fun pkt => len pkt <= FEC_SHARD_PAYLOAD_SIZE - FEC_SHARD_LEN_PREFIX) pkts.
Proof.
  intros (H1 & H2 & H3 & H4 & H5 & H6). unfold extract_packets, FEC_SHARD_LEN_PREFIX in *.
  destruct (Nat.ltb_spec (length (received g)) (Z.to_nat (g_data g))) as [Hlt|Hge]; [unfold len in H4; lia|].
  destruct (shard_packets_some (omap id (take (Z.to_nat (g_data g)) (received g))) (g_shard_size g))
    as (os & E & El & Hb); [lia|by apply omap_id_size, Forall_take|].
  rewrite E. exists (omap id os). split; [done|]. split.
  - assert (Hos : (length (omap id os) <= length os)%nat) by (apply (present_le os)).
    pose proof (present_le (take (Z.to_nat (g_data g)) (received g))) as Hp. rewrite length_take in Hp.
    unfold present in Hp. rewrite El in Hos. lia.
  - eapply Forall_impl; [exact Hb|]. intros. simpl in *. lia.
Qed.

Definition result_ok (r : FecDecodeResult) : Prop :=
  (length (recovered r) <= 64)%nat /\
  Forall (fun pkt => len pkt <= FEC_SHARD_PAYLOAD_SIZE - FEC_SHARD_LEN_PREFIX) (recovered r) /\
  (invalid r = true -> recovered r = []) /\ 0 <= shards_new r <= 1 /\ 0 <= shards_missing r <= U16_MAX.

(** Everything holds but for the group [id]. *)
Definition dec_but (id : Z) (x : FecDecoder) : Prop :=
  dec_core x /\ (size (groups x) <= 256)%nat /\
  forall k g, groups x !! k = Some g -> k <> id -> group_wf g /\ received_count g < g_data g.

Lemma dec_inv_but id x : dec_inv x -> dec_but id x.
Proof. intros (H1 & H2 & H3). split_and!; [apply H1..|done|]. intros k g Hg _. by eapply H3. Qed.

Lemma dec_but_delete id x : dec_but id x -> dec_inv (x <| groups := delete id (groups x) |>).
Proof.
  intros (H1 & H2 & H3). split; [done|]. dec_simpl. split.
  - destruct (groups x !! id) as [g|] eqn:E.
    + rewrite map_size_delete_Some by (by eexists). lia.
    + by rewrite delete_id.
  - intros k g [Hne Hg]%lookup_delete_Some. by apply (H3 k).
Qed.

Lemma note_completed_inv x id : dec_inv x -> dec_inv (note_completed x id).
Proof.
  intros (H1 & H2 & H3). destruct H1 as (H4 & H4' & H5 & H6).
  assert (Hl : (length (completed_groups (note_completed x id)) <= FEC_COMPLETED_GROUPS_CAP)%nat).
  { unfold note_completed. destruct (Nat.leb_spec FEC_COMPLETED_GROUPS_CAP (length (completed_groups x))); dec_simpl;
      rewrite length_app, ?length_drop; cbn [length]; unfold FEC_COMPLETED_GROUPS_CAP in *; lia. }
  unfold note_completed in *. destruct (_ <=? _)%nat; (split; [by split_and!|done]).
Qed.

Lemma missing_range g : 0 <= received_count g -> 0 <= group_shards_missing g <= U16_MAX.
Proof.
  intros. unfold group_shards_missing, sat_sub, U16_MAX. pose proof (wrap_range 16 (len (received g)) ltac:(lia)) as Hw.
  unfold in_u in Hw. change (2 ^ 16) with 65536 in Hw. lia.
Qed.

Lemma sat_add_u16 a b : 0 <= a -> 0 <= b -> 0 <= sat_add U16_MAX a b <= U16_MAX.
Proof. unfold sat_add, U16_MAX. lia. Qed.

Lemma extract_data_some x id g :
  dec_but id x -> groups x !! id = Some g -> group_shape g ->
  exists pkts, extract_data x id = Some (x <| groups := delete id (groups x) |>, (pkts, group_shards_missing g)) /\
  (length pkts <= 64)%nat /\ Forall (fun pkt => len pkt <= FEC_SHARD_PAYLOAD_SIZE - FEC_SHARD_LEN_PREFIX) pkts.
Proof.
  intros Hb Hg Hs. destruct (extract_packets_some g Hs) as (pkts & E & Hl & Hp).
  exists pkts. unfold extract_data. rewrite Hg, E. split; [done|]. split; [|done].
  destruct Hs as (? & ? & Ht & _). unfold FEC_MAX_TOTAL_SHARDS in Ht. lia.
Qed.

Section DecoderSafety.
Context `{HashIter} `{ReedSolomonLaws}.

Lemma dec_ensure_codec_spec x d p :
  dec_core x ->
  let '(x', ok) := dec_ensure_codec x d p in
  dec_core x' /\ groups x' = groups x /\ completed_groups x' = completed_groups x /\
  (ok = true -> reconstruct_rs x' = Some (d, p)) /\ (rs_new d p = true -> ok = true).
Proof.
  intros (H3 & H3' & H4 & Hc). unfold dec_ensure_codec.
  destruct (bool_decide _) eqn:E1; cbn [orb].
  2: destruct (reconstruct_rs_data x =? d)%nat eqn:E2; cbn [orb negb].
  2: destruct (reconstruct_rs_parity x =? p)%nat eqn:E3; cbn [orb negb].
  2: { breflect. apply Nat.eqb_eq in E2, E3. subst. destruct (reconstruct_rs x) as [c|] eqn:Ec; [|done].
       rewrite (Hc c eq_refl) in *. split; [|done]. split; [done|]. split; [done|]. split; [done|]. rewrite Ec. by intros ? [= <-]. }
  all: destruct (rs_new d p); (split; [split; [done|split; [done|split; [done|]]]|done]); [by intros ? [= <-]|done].
Qed.

Lemma reconstruct_some x id g :
  dec_but id x -> groups x !! id = Some g -> group_wf g ->
  exists x' pkts m, reconstruct_and_extract x id = Some (x', (pkts, m)) /\ dec_inv x' /\
  (length pkts <= 64)%nat /\ 0 <= m <= U16_MAX /\
  Forall (fun pkt => len pkt <= FEC_SHARD_PAYLOAD_SIZE - FEC_SHARD_LEN_PREFIX) pkts.
Proof.
  intros Hb Hg [Hs Hcount]. unfold reconstruct_and_extract. rewrite Hg.
  pose proof (dec_ensure_codec_spec x (Z.to_nat (g_data g)) (Z.to_nat (g_parity g)) (proj1 Hb)) as He.
  destruct (dec_ensure_codec _ _ _) as [x1 ok]. destruct He as (Hc1 & Hg1 & Hcm & Hok & _).
  assert (Hb1 : dec_but id x1) by (split; [done|]; rewrite Hg1; apply Hb).
  assert (Hm : 0 <= group_shards_missing g <= U16_MAX) by (apply missing_range; lia).
  assert (Hmiss : take_group_as_missing x1 id = (x1 <| groups := delete id (groups x1) |>, ([], group_shards_missing g)))
    by (unfold take_group_as_missing; by rewrite Hg1, Hg).
  assert (Hgiven : exists x' pkts m, Some (take_group_as_missing x1 id) = Some (x', (pkts, m)) /\ dec_inv x' /\
    (length pkts <= 64)%nat /\ 0 <= m <= U16_MAX /\
    Forall (fun pkt => len pkt <= FEC_SHARD_PAYLOAD_SIZE - FEC_SHARD_LEN_PREFIX) pkts).
  { rewrite Hmiss. eexists _, _, _. split; [done|]. split; [by apply dec_but_delete|]. split_and!; try done; simpl; lia. }
  destruct ok; cbn [negb]; [|done]. rewrite Hok by done.
  destruct (rs_reconstruct _ _ _) as [got|] eqn:Er; [|done].
  destruct Hs as (S1 & S2 & S3 & S4 & S5 & S6).
  destruct (rs_reconstruct_frame _ _ (Z.to_nat (g_shard_size g)) _ _ Er) as [L1 L2].
  { eapply Forall_impl; [exact S6|]. intros s Hsz b ->. specialize (Hsz b eq_refl). unfold len in Hsz. lia. }
  set (g' := g <| received := got |>). set (x2 := x1 <| groups := <[id := g']> (groups x1) |>).
  assert (Hs' : group_shape g').
  { unfold group_shape, g'. dec_simpl. unfold len, FEC_SHARD_LEN_PREFIX in *. rewrite L1. split_and!; try done; try lia.
    eapply Forall_impl; [exact L2|]. intros s (b' & -> & Hb') b [= ->]. lia. }
  assert (Hb2 : dec_but id x2).
  { split; [done|]. unfold x2. dec_simpl. rewrite Hg1. split.
    - rewrite map_size_insert_Some by (by eexists). apply Hb.
    - intros k g0 Hk Hne. rewrite lookup_insert_ne in Hk by done. by apply Hb in Hk. }
  destruct (extract_data_some x2 id g' Hb2) as (pkts & E & Hl & Hp); [by apply lookup_insert_eq|done|].
  rewrite E. eexists _, _, _. split; [done|]. split; [by apply dec_but_delete|]. split; [done|]. split; [|done].
  apply missing_range. unfold g'. dec_simpl. lia.
Qed.
Lemma drop_group_inv x id m :
  dec_but id x -> (forall g, groups x !! id = Some g -> 0 <= received_count g) -> 0 <= m <= U16_MAX ->
  let '(x', m') := drop_group x id m in dec_inv x' /\ 0 <= m' <= U16_MAX.
Proof.
  intros Hb Hc Hm. unfold drop_group. destruct (groups x !! id) as [g|] eqn:E.
  - split; [by apply dec_but_delete|]. apply sat_add_u16; [lia|]. apply missing_range. by apply Hc.
  - split; [|done]. destruct Hb as (H1' & H2' & H3). split; [done|]. split; [done|].
    intros k g Hk. apply (H3 k); [done|]. congruence.
Qed.

Definition header_ok (h : FecHeader) : Prop :=
  0 <= h_data h /\ 0 <= h_parity h /\ h_data h + h_parity h <= FEC_MAX_TOTAL_SHARDS /\
  0 <= h_idx h < h_data h + h_parity h /\ FEC_SHARD_LEN_PREFIX <= h_size h <= FEC_SHARD_PAYLOAD_SIZE /\
  h_size h <= len (h_payload h).

(** The group after a new shard. *)
Lemma store_group_wf g i s :
  group_wf g -> received g !! i = Some None -> len s = g_shard_size g ->
  group_wf (g <| received := <[i := Some s]> (received g) |>
              <| received_count := sat_add U8_MAX (received_count g) 1 |>).
Proof.
  intros [(S1 & S2 & S3 & S4 & S5 & S6) Hc] Hi Hs. split.
  - unfold group_shape. dec_simpl. unfold len in *. rewrite length_insert. split_and!; try done; try lia.
    apply Forall_insert; [done|]. by intros ? [= <-].
  - dec_simpl. rewrite present_insert by done. pose proof (present_insert _ _ s Hi) as Hp.
    pose proof (present_le (<[i := Some s]> (received g))) as Hle. rewrite length_insert in Hle.
    unfold sat_add, U8_MAX, FEC_MAX_TOTAL_SHARDS, len in *. lia.
Qed.

Lemma store_shard_safe x h g m :
  dec_but (h_group h) x -> groups x !! h_group h = Some g -> group_wf g -> header_ok h -> 0 <= m <= U16_MAX ->
  (forall i s, received g !! i = Some (Some s) -> received_count g < g_data g) ->
  exists x' r, store_shard x h g m = Some (x', r) /\ dec_inv x' /\ result_ok r.
Proof.
  intros Hb Hg Hwf (N1 & N2 & N3 & N4 & N5 & N6) Hm Hdup. unfold store_shard. destruct (_ || _) eqn:Em.
  { pose proof (drop_group_inv x (h_group h) m Hb) as Hd. destruct (drop_group _ _ _) as [x' m'].
    destruct Hd as [Hi Hm']; [intros ? E; simplify_eq; destruct Hwf as [_ ->]; lia|done|].
    exists x', (invalid_with_missing m'). split; [done|]. split; [done|]. unfold result_ok. simpl. split_and!; (done || lia). }
  breflect. destruct (lookup_lt_is_Some_2 (received g) (Z.to_nat (h_idx h))) as [o Ho]; [unfold len in *; lia|].
  rewrite Ho. destruct o as [s|].
  { eexists _, _. split; [done|]. split; [|unfold result_ok; simpl; split_and!; (done || lia)].
    destruct Hb as (B1 & B2 & B3). split; [done|]. split; [done|]. intros k g0 Hk.
    destruct (decide (k = h_group h)) as [->|]; [|by eapply B3]. simplify_eq. split; [done|by eapply Hdup]. }
  set (s := take (Z.to_nat (h_size h)) (h_payload h)) in *. pose proof (store_group_wf g (Z.to_nat (h_idx h)) s Hwf Ho) as Hwf'.
  set (g' := _ <| received_count := _ |>) in *. destruct Hwf' as [Hs' Hc'].
  { unfold s, len in *. rewrite length_take. unfold FEC_SHARD_LEN_PREFIX in *. lia. }
  set (x1 := x <| groups := _ |>).
  assert (Hb1 : dec_but (h_group h) x1).
  { destruct Hb as (B1 & B2 & B3). split; [done|]. unfold x1. dec_simpl. split.
    - by rewrite map_size_insert_Some by (by eexists).
    - intros k g0 Hk Hne. rewrite lookup_insert_ne in Hk by done. by apply (B3 k). }
  assert (Hg1 : groups x1 !! h_group h = Some g') by (by apply lookup_insert_eq).
  destruct (_ =? _)%nat eqn:Edata.
  { destruct (extract_data_some x1 _ g' Hb1 Hg1 Hs') as (pkts & -> & Hl & Hp). eexists _, _. split; [done|].
    split; [by apply note_completed_inv, dec_but_delete|]. unfold result_ok. simpl. split_and!; (done || lia). }
  destruct (_ >=? _) eqn:Ecount.
  { destruct (reconstruct_some x1 _ g' Hb1 Hg1) as (x' & pkts & m' & -> & Hi & Hl & Hm' & Hp); [done|].
    eexists _, _. split; [done|]. split; [by apply note_completed_inv|].
    unfold result_ok. simpl. pose proof (sat_add_u16 m m'). split_and!; (done || lia). }
  eexists _, _. split; [done|]. split; [|unfold result_ok; simpl; split_and!; (done || lia)].
  rewrite Z.geb_leb in Ecount. breflect. destruct Hb1 as (B1 & B2 & B3). split; [done|]. split; [done|]. intros k g0 Hk.
  destruct (decide (k = h_group h)) as [->|]; [|by eapply B3]. rewrite Hg1 in Hk. by simplify_eq.
Qed.

Lemma size_retain {V} (f : Z -> V -> bool) (m : gmap Z V) : (size (retain f m) <= size m)%nat.
Proof. apply map_subseteq_size. unfold retain. apply map_filter_subseteq. Qed.

Lemma add_missing_range (m : gmap Z PartialGroup) :
  map_Forall (fun _ g => 0 <= received_count g) m -> 0 <= map_fold add_missing 0 m <= U16_MAX.
Proof.
  intros Hm. apply (map_fold_weak_ind (fun r m => map_Forall (fun _ g => 0 <= received_count g) m -> 0 <= r <= U16_MAX));
    [unfold U16_MAX; lia| |done].
  intros k g m' r Hk IH [Hg Hm']%map_Forall_insert; [|done]. specialize (IH Hm').
  unfold add_missing. apply sat_add_u16; [lia|]. by apply missing_range.
Qed.

Lemma evict_at_inv x now : dec_inv x -> let '(x', m) := evict_at x now in dec_inv x' /\ 0 <= m <= U16_MAX.
Proof.
  intros (D1 & D2 & D3). unfold evict_at. split.
  - split; [done|]. dec_simpl. split; [etrans; [apply size_retain|done]|].
    intros k g [Hg _]%lookup_retain. by eapply D3.
  - apply add_missing_range. intros k g [Hg _]%lookup_retain. destruct (D3 k g Hg) as [[_ ->] _]. lia.
Qed.

Lemma evict_oldest_inv x :
  dec_inv x -> (0 < size (groups x))%nat ->
  let '(x', m) := evict_oldest_group x in dec_inv x' /\ 0 <= m <= U16_MAX /\ (size (groups x') < size (groups x))%nat /\
  forall k g, groups x' !! k = Some g -> groups x !! k = Some g.
Proof.
  intros Hi Hs. unfold evict_oldest_group.
  pose proof (min_by_key_spec (fun kv : Z * PartialGroup => created_at kv.2) (hm_iter (groups x))) as Hm.
  destruct (min_by_key _ _) as [[id g]|].
  - destruct Hm as [Hin _]. apply hm_iter_elem in Hin. split_and!.
    + by apply dec_but_delete, dec_inv_but.
    + destruct Hi as (_ & _ & D3). destruct (D3 _ _ Hin) as [[_ Hc] _]. apply missing_range. lia.
    + destruct Hi as (_ & _ & D3). destruct (D3 _ _ Hin) as [[_ Hc] _]. apply missing_range. lia.
    + dec_simpl. rewrite map_size_delete_Some by (by eexists). lia.
    + dec_simpl. by intros k g' [_ ?]%lookup_delete_Some.
  - apply (f_equal length) in Hm. rewrite hm_iter_length in Hm. simpl in Hm. lia.
Qed.

Lemma fec_header_ok raw :
  Forall byte_ok raw -> header_bad (fec_header raw) = false -> header_ok (fec_header raw).
Proof.
  intros Hr Hb. unfold header_bad in Hb. rewrite !Z.gtb_ltb, Z.geb_leb in Hb. breflect.
  assert (Hn : forall i, 0 <= nth i raw 0).
  { intros i. destruct (nth_in_or_default i raw 0) as [Hin| ->]; [|lia].
    apply list_elem_of_In in Hin. rewrite Forall_forall in Hr. by apply Hr. }
  unfold header_ok. split_and!; try done; try lia; cbn [fec_header h_data h_parity h_idx h_size h_payload] in *;
    try apply Hn.
Qed.

Lemma fresh_group_wf h now :
  header_ok h -> group_wf (mkGroup (h_data h) (h_parity h) (h_size h)
                             (replicate (Z.to_nat (h_data h + h_parity h)) None) 0 now).
Proof.
  intros (N1 & N2 & N3 & N4 & N5 & N6). split.
  - unfold group_shape. dec_simpl. unfold len. rewrite length_replicate. split_and!; try done; try lia.
    by apply Forall_replicate.
  - dec_simpl. by rewrite present_replicate.
Qed.

Lemma push_shard_total x raw now now' :
  Forall byte_ok raw -> dec_inv x ->
  exists x' r, push_shard x raw now now' = Some (x', r) /\ dec_inv x' /\ result_ok r.
Proof.
  intros Hr Hi. unfold push_shard.
  assert (Hst : dec_inv (evict_due x now).1 /\ 0 <= (evict_due x now).2 <= U16_MAX).
  { unfold evict_due. destruct (_ >=? _); [|unfold U16_MAX; simpl; split; [done|lia]].
    pose proof (evict_at_inv x now Hi) as He. destruct (evict_at x now) as [x1 n]. destruct He as [He Hn].
    split; [done|]. apply sat_add_u16; lia. }
  destruct (evict_due x now) as [x1 m]. cbn [fst snd] in Hst. destruct Hst as [Hi1 Hm]. clear Hi x.
  destruct (_ || _).
  { eexists _, _. split; [done|]. split; [done|]. unfold result_ok. simpl. split_and!; (done || lia). }
  destruct (existsb _ _).
  { eexists _, _. split; [done|]. split; [done|]. unfold result_ok. simpl. split_and!; (done || lia). }
  destruct (header_bad _) eqn:Ebad.
  { pose proof (drop_group_inv x1 (h_group (fec_header raw)) m (dec_inv_but _ _ Hi1)) as Hd.
    destruct (drop_group _ _ _) as [x' m']. destruct Hd as [Hi' Hm']; [|done|].
    - intros g Hg. destruct Hi1 as (_ & _ & D3). destruct (D3 _ _ Hg) as [[_ ->] _]. lia.
    - eexists _, _. split; [done|]. split; [done|]. unfold result_ok. simpl. split_and!; (done || lia). }
  apply fec_header_ok in Ebad; [|done]. set (h := fec_header raw) in *.
  destruct (groups x1 !! h_group h) as [g|] eqn:Eg.
  { destruct Hi1 as (D1 & D2 & D3). destruct (D3 _ _ Eg) as [Hwf Hlt].
    apply store_shard_safe; try done. split; [done|]. split; [done|]. intros k g0 Hk _. by apply (D3 k). }
  assert (Hroom : dec_inv (make_room x1 m).1 /\ 0 <= (make_room x1 m).2 <= U16_MAX /\
    (size (groups (make_room x1 m).1) < 256)%nat /\ groups (make_room x1 m).1 !! h_group h = None).
  { unfold make_room. pose proof Hi1 as (D1 & D2 & D3). rewrite (proj1 D1). destruct (Nat.leb_spec 256 (size (groups x1))).
    - pose proof (evict_oldest_inv x1) as He. destruct (evict_oldest_group x1) as [x2 n].
      destruct He as (E1 & E2 & E3 & E4); [done|lia|]. simpl. split; [done|]. split; [apply sat_add_u16; lia|]. split; [lia|].
      destruct (groups x2 !! h_group h) as [g|] eqn:E; [|done]. apply E4 in E. congruence.
    - cbn [fst snd]. split; [done|]. split; [done|]. split; [lia|done]. }
  destruct (make_room x1 m) as [x2 m2]. cbn [fst snd] in Hroom. destruct Hroom as (Hi2 & Hm2 & Hsz & Hnone).
  pose proof (fresh_group_wf h now' Ebad) as Hwf. set (g := mkGroup _ _ _ _ _ _) in *.
  apply store_shard_safe; try done.
  - destruct Hi2 as (D1 & D2 & D3). split; [done|]. dec_simpl. split.
    + rewrite map_size_insert_None by done. lia.
    + intros k g0 Hk Hne. rewrite lookup_insert_ne in Hk by done. by apply (D3 k).
  - by apply lookup_insert_eq.
  - intros i s Hs. unfold g in Hs. dec_simpl. by apply lookup_replicate in Hs as [? _].
Qed.

Fixpoint dec_run (x : FecDecoder) (inputs : list (bytes * Instant * Instant))
  : option (FecDecoder * list FecDecodeResult) :=
  match inputs with
  | [] => Some (x, [])
  | (raw, now, now') :: inputs =>
      '(x, r) ← push_shard x raw now now';
      '(x, rs) ← dec_run x inputs;
      Some (x, r :: rs)
  end.

Lemma dec_run_total x inputs :
  Forall (fun i => Forall byte_ok i.1.1) inputs -> dec_inv x ->
  exists x' rs, dec_run x inputs = Some (x', rs) /\ dec_inv x' /\ length rs = length inputs /\ Forall result_ok rs.
Proof.
  intros Hall. revert x. induction Hall as [|[[raw now] now'] l Hr _ IH]; intros x Hi; [by exists x, []|].
  destruct (push_shard_total x raw now now' Hr Hi) as (x1 & r & E & Hi1 & Hr1). cbn [dec_run]. rewrite E. cbn.
  destruct (IH x1 Hi1) as (x2 & rs & -> & Hi2 & Hl & Hrs). exists x2, (r :: rs). split_and!; try done.
  - simpl. by rewrite Hl.
  - by constructor.
Qed.

Lemma new_decoder_inv start : dec_inv (new_decoder start).
Proof.
  split; [split; [done|split; [done|split; [simpl; unfold FEC_COMPLETED_GROUPS_CAP; lia|done]]]|].
  split; [simpl; rewrite map_size_empty; lia|]. apply map_Forall_empty.
Qed.

(** C4. On arbitrary bytes the decoder never indexes out of range; it holds at most 256 groups of at
    most 64 shards and remembers at most 128 finished groups; each call returns at most 64 packets
    of at most 1,277 bytes. *)
Theorem decoder_safe (start : Instant) (inputs : list (bytes * Instant * Instant)) :
  Forall (fun i => Forall byte_ok i.1.1) inputs ->
  exists x rs, dec_run (new_decoder start) inputs = Some (x, rs) /\
  dec_inv x /\ length rs = length inputs /\ Forall result_ok rs.
Proof. intros Hall. apply dec_run_total; [done|apply new_decoder_inv]. Qed.

End DecoderSafety.

(** ** Recovery *)

Section Recovery.
Context `{HashIter} `{ReedSolomonLaws}.

(** What handling a frame of the group [id] leaves of the rest, whatever the frame. *)
Definition touches (id : Z) (x x' : FecDecoder) : Prop :=
  (completed_groups x' = completed_groups x \/ completed_groups x' = completed_groups (note_completed x id)) /\
  (size (groups x') <= S (size (delete id (groups x))))%nat /\
  forall k, k <> id -> groups x' !! k = groups x !! k.

Lemma extract_data_effect x id x' res :
  extract_data x id = Some (x', res) ->
  completed_groups x' = completed_groups x /\ groups x' = delete id (groups x).
Proof.
  unfold extract_data. destruct (groups x !! id) as [g|] eqn:E.
  - destruct (extract_packets g); [|done]. by intros [= <- _].
  - intros [= <- _]. by rewrite delete_id.
Qed.

Lemma take_missing_effect x id x' res :
  take_group_as_missing x id = (x', res) ->
  completed_groups x' = completed_groups x /\ groups x' = delete id (groups x).
Proof.
  unfold take_group_as_missing. destruct (groups x !! id) as [g|] eqn:E; intros [= <- _]; [done|]. by rewrite delete_id.
Qed.

Lemma dec_ensure_codec_frame x d p :
  groups (dec_ensure_codec x d p).1 = groups x /\ completed_groups (dec_ensure_codec x d p).1 = completed_groups x.
Proof. unfold dec_ensure_codec. by repeat case_match. Qed.

Lemma reconstruct_effect x id x' res :
  reconstruct_and_extract x id = Some (x', res) ->
  completed_groups x' = completed_groups x /\ groups x' = delete id (groups x).
Proof.
  unfold reconstruct_and_extract. destruct (groups x !! id) as [g|] eqn:E.
  2: { intros [= <- _]. by rewrite delete_id. }
  destruct (dec_ensure_codec_frame x (Z.to_nat (g_data g)) (Z.to_nat (g_parity g))) as [F1 F2].
  destruct (dec_ensure_codec _ _ _) as [x1 ok]. cbn [fst] in *. rewrite <- F1, <- F2.
  destruct ok; cbn [negb]; [|by intros [= ?%take_missing_effect]].
  destruct (reconstruct_rs x1) as [[cd cp]|]; [|by intros [= ?%take_missing_effect]].
  destruct (rs_reconstruct _ _ _) as [got|]; [|by intros [= ?%take_missing_effect]].
  intros [Hc Hg]%extract_data_effect. dec_simpl. rewrite Hc, Hg. split; [done|]. apply delete_insert_eq.
Qed.

Lemma size_delete_le {V} (k : Z) (m : gmap Z V) : (size (delete k m) <= size m)%nat.
Proof. apply map_subseteq_size, delete_subseteq. Qed.

Lemma touches_delete id x x' :
  completed_groups x' = completed_groups x -> groups x' = delete id (groups x) -> touches id x x'.
Proof.
  intros Hc Hg. split; [by left|]. rewrite Hg. split; [lia|].
  intros k Hk. by rewrite lookup_delete_ne.
Qed.

Lemma touches_refl id x : touches id x x.
Proof.
  split; [by left|]. split; [|done]. destruct (groups x !! id) as [g|] eqn:E.
  - rewrite map_size_delete_Some by (by eexists). lia.
  - rewrite delete_id by done. lia.
Qed.

Lemma note_completed_cong x x' id :
  completed_groups x' = completed_groups x -> completed_groups (note_completed x' id) = completed_groups (note_completed x id).
Proof. unfold note_completed. intros E. rewrite E. destruct (_ <=? _)%nat; dec_simpl; by rewrite ?E. Qed.

Lemma note_completed_groups x id : groups (note_completed x id) = groups x.
Proof. unfold note_completed. by destruct (_ <=? _)%nat. Qed.

Lemma touches_close id g x x' :
  completed_groups x' = completed_groups x -> groups x' = delete id (<[id := g]> (groups x)) ->
  touches id x (note_completed x' id).
Proof.
  intros Hc Hg. rewrite delete_insert_eq in Hg. destruct (touches_delete id x x' Hc Hg) as (_ & T2 & T3).
  split; [right; by apply note_completed_cong|]. by rewrite note_completed_groups.
Qed.

Lemma store_shard_touches x h g m x' r :
  store_shard x h g m = Some (x', r) -> touches (h_group h) x x'.
Proof.
  unfold store_shard. destruct (_ || _).
  { unfold drop_group. destruct (groups x !! h_group h) as [g0|] eqn:E; intros [= <- _]; [by apply touches_delete|].
    apply touches_delete; [done|by rewrite delete_id]. }
  destruct (received g !! _) as [[s|]|]; [| |done].
  { intros [= <- _]. apply touches_refl. }
  set (g' := _ <| received_count := _ |>). set (x1 := x <| groups := _ |>). destruct (_ =? _)%nat.
  { destruct (extract_data x1 _) as [[x2 [pkts ?]]|] eqn:E; [|done]. cbn. intros [= <- _].
    apply extract_data_effect in E as [Hc Hg]. by apply (touches_close _ g'). }
  destruct (_ >=? _).
  { destruct (reconstruct_and_extract x1 _) as [[x2 [pkts ?]]|] eqn:E; [|done]. cbn. intros [= <- _].
    apply reconstruct_effect in E as [Hc Hg]. by apply (touches_close _ g'). }
  intros [= <- _]. split; [by left|]. unfold x1. dec_simpl. split.
  - rewrite <- insert_delete_eq, map_size_insert_None by apply lookup_delete_eq. lia.
  - intros k Hk. by rewrite lookup_insert_ne.
Qed.

(** A group that is not expired survives the periodic eviction. *)
Definition alive (x : FecDecoder) (gid : Z) (now : Instant) : Prop :=
  forall g, groups x !! gid = Some g -> duration_since now (created_at g) < group_ttl x.

Lemma evict_due_frame x now gid :
  alive x gid now ->
  let x' := (evict_due x now).1 in
  completed_groups x' = completed_groups x /\ (size (groups x') <= size (groups x))%nat /\
  groups x' !! gid = groups x !! gid.
Proof.
  intros Ha. unfold evict_due. destruct (_ >=? _); [|done]. unfold evict_at. dec_simpl. cbn [fst]. dec_simpl.
  split; [done|]. split; [apply size_retain|].
  destruct (groups x !! gid) as [g|] eqn:E.
  - apply lookup_retain. split; [done|]. apply Z.ltb_lt, Ha, E.
  - apply lookup_retain_None. by left.
Qed.

Lemma push_shard_touches x raw now now' x' r gid :
  push_shard x raw now now' = Some (x', r) -> max_groups x = 256%nat -> (size (groups x) < 256)%nat -> alive x gid now ->
  let h := fec_header raw in
  (completed_groups x' = completed_groups x \/ completed_groups x' = completed_groups (note_completed x (h_group h))) /\
  (size (groups x') <= S (size (groups x)))%nat /\
  (h_group h <> gid -> groups x' !! gid = groups x !! gid).
Proof.
  intros Hp Hmax Hsz Ha h. unfold push_shard in Hp. pose proof (evict_due_frame x now gid Ha) as Hev.
  assert (Hmax1 : max_groups (evict_due x now).1 = 256%nat)
    by (unfold evict_due; destruct (_ >=? _); [unfold evict_at|]; exact Hmax).
  destruct (evict_due x now) as [x1 m]. cbn [fst] in *. destruct Hev as (E1 & E2 & E3).
  assert (Hfin : forall x2, touches (h_group h) x1 x2 ->
    (completed_groups x2 = completed_groups x \/ completed_groups x2 = completed_groups (note_completed x (h_group h))) /\
    (size (groups x2) <= S (size (groups x)))%nat /\ (h_group h <> gid -> groups x2 !! gid = groups x !! gid)).
  { intros x2 (T1 & T2 & T3). rewrite (note_completed_cong x x1) in T1 by done. rewrite E1 in T1.
    split; [done|]. split; [pose proof (size_delete_le (h_group h) (groups x1)); lia|]. intros Hne. by rewrite T3, E3. }
  pose proof (touches_refl (h_group h) x1) as Hself.
  destruct (_ || _); [injection Hp as <- _; by apply Hfin|].
  destruct (existsb _ _); [injection Hp as <- _; by apply Hfin|]. fold h in Hp.
  destruct (header_bad h).
  { unfold drop_group in Hp. destruct (groups x1 !! h_group h) eqn:E; injection Hp as <- _; apply Hfin; [by apply touches_delete|done]. }
  destruct (groups x1 !! h_group h) as [g|] eqn:Eg; [by apply store_shard_touches in Hp; apply Hfin|].
  unfold make_room in Hp. rewrite Hmax1, (proj2 (Nat.leb_gt _ _)) in Hp by lia.
  apply store_shard_touches in Hp as (T1 & T2 & T3). apply Hfin. dec_simpl. rewrite delete_insert_eq in T2.
  split; [|split; [done|]].
  - by rewrite (note_completed_cong x1) in T1.
  - intros k Hk. rewrite T3 by done. by rewrite lookup_insert_ne.
Qed.
(** The frames of one recoverable group and what the decoder knows after [seen] arrived. *)
Section Group.
Context (gid : Z) (d p n : nat) (pkts l full : list bytes).
Context (Hgid : 0 <= gid < 2 ^ 32) (Hd : (1 <= d)%nat) (Hdp : (d + p <= 64)%nat) (Hl : length l = (d + p)%nat).
Context (Hpkts : Forall2 (fun s pkt => shard_packet s = Some (Some pkt)) (take d l) pkts).
Context (Henc : rs_encode d p l = Some full) (Hnew : rs_new d p = true).
Context (Hsize : Forall (fun s => length s = S n) l) (Hbytes : Forall (Forall byte_ok) l).
Context (Hn : 2 <= Z.of_nat (S n) <= FEC_SHARD_PAYLOAD_SIZE).

Lemma full_shape : length full = (d + p)%nat /\ Forall (fun s => length s = S n) full /\ take d full = take d l.
Proof.
  destruct (rs_encode_frame _ _ _ _ Henc) as [Ht Hf]. split_and!; [|  |done].
  - rewrite <- Hl, <- (length_fmap length full), Hf. apply length_fmap.
  - apply (Forall_fmap length (fun k => k = S n) full). rewrite Hf. by apply Forall_fmap.
Qed.

Definition frame (i : nat) (s : bytes) : bytes := build_fec_packet_into gid (Z.of_nat i) (Z.of_nat d) (Z.of_nat p) s.
Definition frames : list bytes := imap frame full.

Lemma frames_lookup i : frames !! i = frame i <$> full !! i.
Proof. apply list_lookup_imap. Qed.

Lemma frame_header i s :
  full !! i = Some s ->
  fec_header (frame i s) = mkFecHeader gid (Z.of_nat i) (Z.of_nat d) (Z.of_nat p) (Z.of_nat (S n)) s /\
  (len (frame i s) <? FEC_COMPACT_HEADER_LEN) || negb (nth 0 (frame i s) 0 =? to_byte Fec) = false /\
  header_bad (fec_header (frame i s)) = false.
Proof.
  intros Hi. destruct full_shape as (F1 & F2 & _). pose proof (lookup_lt_Some _ _ _ Hi) as Hlt.
  assert (Hs : length s = S n) by (rewrite Forall_forall in F2; apply F2; by eapply list_elem_of_lookup_2).
  assert (E : frame i s = to_byte Fec :: le_bytes 4 gid ++ (Z.of_nat i :: Z.of_nat d :: Z.of_nat p :: le_bytes 2 (Z.of_nat (S n)) ++ s)).
  { unfold frame, build_fec_packet_into, len. rewrite Hs, !wrap_small by (unfold in_u; change (2 ^ 8) with 256; lia). done. }
  assert (H4 : length (le_bytes 4 gid) = 4%nat) by apply length_le_bytes.
  assert (Hh : fec_header (frame i s) = mkFecHeader gid (Z.of_nat i) (Z.of_nat d) (Z.of_nat p) (Z.of_nat (S n)) s).
  { rewrite E. unfold fec_header. f_equal.
    - change (drop 1 (?a :: ?k)) with k. rewrite le_bytes_app_take, le_val_le_bytes. apply Z.mod_small. exact Hgid.
    - cbn [nth]. change (drop 8 (?a :: le_bytes 4 gid ++ ?b :: ?c :: ?e :: ?k)) with k.
      rewrite le_bytes_app_take, le_val_le_bytes. apply Z.mod_small. unfold FEC_SHARD_PAYLOAD_SIZE in Hn. simpl. lia. }
  split; [done|]. split.
  - rewrite E. cbn [nth]. rewrite Z.eqb_refl. unfold FEC_COMPACT_HEADER_LEN, len. cbn [length]. rewrite length_app, H4.
    cbn [length]. rewrite length_app, length_le_bytes. rewrite (proj2 (Z.ltb_ge _ _)) by lia. done.
  - rewrite Hh. unfold header_bad. cbn [h_data h_parity h_idx h_size h_payload]. unfold len, FEC_MAX_TOTAL_SHARDS, FEC_SHARD_LEN_PREFIX.
    rewrite Hs, !Z.gtb_ltb, Z.geb_leb. repeat (apply orb_false_iff; split); try apply Z.eqb_neq; try apply Z.ltb_ge; try apply Z.leb_gt; lia.
Qed.

Lemma frames_inj i j si sj : full !! i = Some si -> full !! j = Some sj -> frame i si = frame j sj -> i = j.
Proof.
  intros Hi Hj E. destruct (frame_header i si Hi) as [Ei _], (frame_header j sj Hj) as [Ej _].
  rewrite E, Ej in Ei. injection Ei. lia.
Qed.

(** Which of the frames arrived, and the shards the decoder has then. *)
Definition arrived (seen : list bytes) : list bytes := filter (fun f => f ∈ seen) frames.
Definition got_of (seen : list bytes) : list (option bytes) :=
  zip_with (fun f s => if bool_decide (f ∈ seen) then Some s else None) frames full.

Lemma frames_length : length frames = length full.
Proof. apply length_imap. Qed.

Lemma got_lookup seen i s :
  full !! i = Some s -> got_of seen !! i = Some (if bool_decide (frame i s ∈ seen) then Some s else None).
Proof. intros Hi. unfold got_of. rewrite lookup_zip_with, frames_lookup, Hi. done. Qed.

Lemma present_got_gen (fs : list bytes) (ss : list bytes) (seen : list bytes) :
  length fs = length ss ->
  present (zip_with (fun f s => if bool_decide (f ∈ seen) then Some s else None) fs ss) =
  length (filter (fun f => f ∈ seen) fs).
Proof.
  revert ss. induction fs as [|f fs IH]; intros [|s ss] Hlen; try done. cbn [zip_with]. rewrite filter_cons.
  injection Hlen as Hlen. case_bool_decide; case_decide; try done; [rewrite present_Some|rewrite present_None]; simpl; by rewrite IH.
Qed.

Lemma present_got seen : present (got_of seen) = length (arrived seen).
Proof. apply present_got_gen, frames_length. Qed.

Lemma got_length seen : length (got_of seen) = (d + p)%nat.
Proof.
  unfold got_of. destruct full_shape as (F1 & _). rewrite length_zip_with, frames_length, F1. lia.
Qed.

Lemma got_partial seen : partial_of full (got_of seen).
Proof.
  apply Forall2_same_length_lookup. split; [rewrite got_length; by destruct full_shape|].
  intros i s o Hs Ho. rewrite (got_lookup seen i s Hs) in Ho. injection Ho as <-. case_bool_decide; auto.
Qed.

Lemma got_insert seen i s :
  full !! i = Some s -> <[i := Some s]> (got_of seen) = got_of (frame i s :: seen).
Proof.
  intros Hi. apply list_eq. intros j. destruct full_shape as (F1 & _).
  destruct (full !! j) as [sj|] eqn:Ej.
  - rewrite (got_lookup _ j sj Ej). destruct (decide (i = j)) as [<-|Hne].
    + rewrite Hi in Ej. injection Ej as ->. rewrite list_lookup_insert_eq.
      * by rewrite bool_decide_eq_true_2 by (by left).
      * rewrite got_length, <- F1. by eapply lookup_lt_Some.
    + rewrite list_lookup_insert_ne by done. rewrite (got_lookup _ j sj Ej).
      rewrite (bool_decide_ext (frame j sj ∈ seen) (frame j sj ∈ frame i s :: seen)); [done|].
      rewrite elem_of_cons. split; [by right|]. intros [E|]; [|done].
      destruct Hne. symmetry. by eapply frames_inj.
  - apply lookup_ge_None in Ej. rewrite !lookup_ge_None_2; [done|rewrite got_length; lia|rewrite length_insert, got_length; lia].
Qed.

(** All data shards there: the packets come out. *)
Lemma extract_full g :
  g_data g = Z.of_nat d -> length (received g) = (d + p)%nat -> take d (received g) = Some <$> take d full ->
  extract_packets g = Some pkts.
Proof.
  intros E1 E2 E3. unfold extract_packets. rewrite E1, Nat2Z.id, E2, (proj2 (Nat.ltb_ge _ _)), E3 by lia.
  destruct full_shape as (_ & _ & ->).
  assert (Hid : forall k : list bytes, omap id (Some <$> k) = k) by (induction k as [|? k IHk]; [done|]; cbn; by rewrite <- IHk at 2).
  rewrite Hid. assert (Hm : mapM shard_packet (take d l) = Some (Some <$> pkts)).
  { apply mapM_Some. clear -Hpkts. induction Hpkts; cbn; constructor; auto. }
  rewrite Hm. cbn. by rewrite Hid.
Qed.
Definition group_at (seen : list bytes) (t : Instant) : PartialGroup :=
  mkGroup (Z.of_nat d) (Z.of_nat p) (Z.of_nat (S n)) (got_of seen) (Z.of_nat (length (arrived seen))) t.

Definition header_at (i : nat) (s : bytes) : FecHeader :=
  mkFecHeader gid (Z.of_nat i) (Z.of_nat d) (Z.of_nat p) (Z.of_nat (S n)) s.

Lemma arrived_new seen i s :
  full !! i = Some s -> frame i s ∉ seen -> length (arrived (frame i s :: seen)) = S (length (arrived seen)).
Proof.
  intros Hi Hs. rewrite <- !present_got, <- got_insert by done. apply present_insert.
  rewrite (got_lookup _ _ _ Hi). by rewrite bool_decide_eq_false_2.
Qed.

Lemma arrived_old seen f : f ∈ seen -> arrived (f :: seen) = arrived seen.
Proof. intros Hf. apply list_filter_iff. intros x. rewrite elem_of_cons. naive_solver. Qed.

Lemma arrived_le seen : (length (arrived seen) <= d + p)%nat.
Proof. destruct full_shape as (F1 & _). rewrite <- F1, <- frames_length. apply length_filter. Qed.

Lemma got_none seen : arrived seen = [] -> got_of seen = replicate (d + p) None.
Proof.
  intros Ha. pose proof (got_length seen) as Hlen. rewrite <- Hlen.
  pose proof (present_got seen) as Hp. rewrite Ha in Hp. simpl in Hp. clear -Hp.
  induction (got_of seen) as [|[s|] k IH]; [done|by rewrite present_Some in Hp|]. simpl. f_equal. by apply IH.
Qed.

Lemma present_take_full (k : list (option bytes)) m :
  (m <= length k)%nat -> present (take m k) = m -> exists ss, take m k = Some <$> ss.
Proof. intros Hm Hp. apply present_full. rewrite length_take. lia. Qed.

Lemma got_take_full seen :
  present (take d (got_of seen)) = d -> take d (got_of seen) = Some <$> take d full.
Proof.
  intros Hp. destruct (present_take_full (got_of seen) d) as [ss Hss]; [rewrite got_length; lia|done|].
  rewrite Hss. f_equal. apply list_eq. intros j. destruct full_shape as (F1 & _).
  destruct (ss !! j) as [sj|] eqn:Ej.
  - assert (Hj : take d (got_of seen) !! j = Some (Some sj)) by (by rewrite Hss, list_lookup_fmap, Ej).
    apply lookup_take_Some in Hj as [Hj Hlt]. rewrite lookup_take_lt by done.
    destruct (full !! j) as [s|] eqn:Es; [|apply lookup_ge_None in Es; lia].
    rewrite (got_lookup _ _ _ Es) in Hj. case_bool_decide; by simplify_eq.
  - apply lookup_ge_None in Ej. apply (f_equal length) in Hss. rewrite length_fmap, length_take, got_length in Hss.
    symmetry. apply lookup_ge_None. rewrite length_take. lia.
Qed.

Lemma reconstruct_full x seen t :
  dec_core x -> groups x !! gid = Some (group_at seen t) -> (d <= length (arrived seen))%nat ->
  exists x' m, reconstruct_and_extract x gid = Some (x', (pkts, m)) /\ completed_groups x' = completed_groups x.
Proof.
  intros Hc Hg Ha. unfold reconstruct_and_extract. rewrite Hg. unfold group_at. dec_simpl. rewrite !Nat2Z.id.
  pose proof (dec_ensure_codec_spec x d p Hc) as He. destruct (dec_ensure_codec x d p) as [x1 ok].
  destruct He as (_ & Hg1 & Hc1 & Hok & Ht). rewrite (Ht Hnew) in *. cbn [negb]. rewrite Hok by done.
  rewrite (rs_reconstruct_encoded d p n l full (got_of seen)); try done; [|apply got_partial|by rewrite present_got].
  unfold extract_data. dec_simpl. rewrite lookup_insert_eq. cbn.
  rewrite extract_full; [eexists _, _; split; [done|]; exact Hc1|done| |]; dec_simpl.
  - rewrite length_fmap. by destruct full_shape.
  - by rewrite <- fmap_take.
Qed.

Lemma store_new x seen t i s m :
  dec_core x -> full !! i = Some s -> frame i s ∉ seen -> (length (arrived seen) < d)%nat ->
  let seen' := frame i s :: seen in
  exists x' r, store_shard x (header_at i s) (group_at seen t) m = Some (x', r) /\
  if (length (arrived seen') <? d)%nat
  then x' = x <| groups := <[gid := group_at seen' t]> (groups x) |> /\ recovered r = []
  else recovered r = pkts /\ completed_groups x' = completed_groups (note_completed x gid).
Proof.
  intros Hc Hi Hs Ha seen'.
  assert (Hlen : length s = S n).
  { destruct full_shape as (_ & F2 & _). rewrite Forall_forall in F2. apply F2. by eapply list_elem_of_lookup_2. }
  pose proof (arrived_new seen i s Hi Hs) as Hnew'.
  assert (Eg : group_at seen t
      <| received := <[i := Some (take (S n) s)]> (received (group_at seen t)) |>
      <| received_count := sat_add U8_MAX (received_count (group_at seen t)) 1 |> = group_at seen' t).
  { unfold group_at. dec_simpl. f_equal; [rewrite take_ge by lia; by apply got_insert|].
    fold seen' in Hnew'. rewrite Hnew'. unfold sat_add, U8_MAX. lia. }
  unfold store_shard, header_at. cbn [h_data h_parity h_idx h_size h_payload h_group]. rewrite !Nat2Z.id, Eg.
  assert (Ematch : negb (g_data (group_at seen t) =? Z.of_nat d) || negb (g_parity (group_at seen t) =? Z.of_nat p)
    || negb (g_shard_size (group_at seen t) =? Z.of_nat (S n))
    || negb (len (received (group_at seen t)) =? Z.of_nat d + Z.of_nat p) = false).
  { unfold group_at, len. dec_simpl. rewrite got_length, Nat2Z.inj_add, !Z.eqb_refl. done. }
  rewrite Ematch. clear Ematch Eg.
  assert (Eold : received (group_at seen t) !! i = Some None)
    by (unfold group_at; dec_simpl; by rewrite (got_lookup _ _ _ Hi), bool_decide_eq_false_2).
  rewrite Eold. change (g_data (group_at seen' t)) with (Z.of_nat d). rewrite Nat2Z.id.
  change (received (group_at seen' t)) with (got_of seen'). set (x1 := x <| groups := _ |>).
  assert (Hg1 : groups x1 !! gid = Some (group_at seen' t)) by (by apply lookup_insert_eq).
  destruct (present (take d (got_of seen')) =? d)%nat eqn:Ed.
  - apply Nat.eqb_eq in Ed. assert (Hge : (d <= length (arrived seen'))%nat).
    { rewrite <- present_got, <- (take_drop d (got_of seen')), present_app. lia. }
    rewrite (proj2 (Nat.ltb_ge _ _)) by done. unfold extract_data. rewrite Hg1. cbn.
    rewrite extract_full; [|done|apply got_length|by apply got_take_full]. cbn.
    eexists _, _. split; [done|]. split; [done|]. by apply note_completed_cong.
  - change (received_count (group_at seen' t)) with (Z.of_nat (length (arrived seen'))). rewrite Z.geb_leb.
    destruct (Nat.ltb_spec (length (arrived seen')) d) as [Hlt|Hge].
    + rewrite (proj2 (Z.leb_gt _ _)) by lia. eexists _, _. split; [done|]. done.
    + rewrite (proj2 (Z.leb_le _ _)) by lia.
      destruct (reconstruct_full x1 seen' t) as (x' & m' & -> & Hcm); [done|done|done|]. cbn.
      eexists _, _. split; [done|]. split; [done|]. by apply note_completed_cong.
Qed.

(** The decoder has the shards of [seen] and is waiting for more. *)
Definition tracked (seen : list bytes) (t0 : Instant) (x : FecDecoder) : Prop :=
  (length (arrived seen) < d)%nat /\ (gid ∉ completed_groups x) /\
  exists t, t0 <= t /\ groups x !! gid = if bool_decide (arrived seen = []) then None else Some (group_at seen t).

Lemma not_completed (k : list Z) : gid ∉ k -> existsb (fun i => i =? gid) k = false.
Proof.
  intros Hk. apply not_true_is_false. intros He. apply existsb_exists in He as (i & Hi & E). breflect. subst i.
  apply Hk. by apply list_elem_of_In.
Qed.

Lemma tracked_alive seen t0 x now : tracked seen t0 x -> group_ttl x = from_millis 200 -> now < t0 + from_millis 200 -> alive x gid now.
Proof.
  intros (_ & _ & t & Ht & Hg) Httl Hnow g Hg'. rewrite Hg in Hg'. case_bool_decide; simplify_eq.
  rewrite Httl. unfold group_at. dec_simpl. unfold duration_since, sat_sub, from_millis in *. lia.
Qed.

Lemma evict_due_core x now : dec_core x -> dec_core (evict_due x now).1 /\ max_groups (evict_due x now).1 = 256%nat.
Proof. intros Hc. unfold evict_due, evict_at. destruct (_ >=? _); (split; [done|apply Hc]). Qed.

Lemma frame_arrived seen i s : full !! i = Some s -> frame i s ∈ seen -> arrived seen <> [].
Proof.
  intros Hi Hs E. assert (Hin : frame i s ∈ arrived seen); [|rewrite E in Hin; by apply elem_of_nil in Hin].
  apply list_elem_of_filter. split; [done|]. apply (list_elem_of_lookup_2 _ i). by rewrite frames_lookup, Hi.
Qed.

Lemma group_at_old seen t i s : full !! i = Some s -> frame i s ∈ seen -> group_at (frame i s :: seen) t = group_at seen t.
Proof.
  intros Hi Hf. unfold group_at. rewrite arrived_old by done. f_equal. rewrite <- got_insert by done.
  apply list_insert_id. by rewrite (got_lookup _ _ _ Hi), bool_decide_eq_true_2.
Qed.

Lemma store_dup x seen t i s m :
  full !! i = Some s -> frame i s ∈ seen ->
  store_shard x (header_at i s) (group_at seen t) m = Some (x, decoded_ok [] 0 m).
Proof.
  intros Hi Hs. unfold store_shard, header_at, group_at. dec_simpl. cbn [h_data h_parity h_idx h_size h_payload h_group].
  unfold len. rewrite got_length, Nat2Z.inj_add, !Z.eqb_refl. cbn [negb orb].
  by rewrite Nat2Z.id, (got_lookup _ _ _ Hi), bool_decide_eq_true_2.
Qed.

Lemma push_own x seen t0 now now' i s :
  dec_core x -> tracked seen t0 x -> (size (groups x) < 256)%nat -> now < t0 + from_millis 200 -> t0 <= now' ->
  full !! i = Some s ->
  let seen' := frame i s :: seen in
  exists x' r, push_shard x (frame i s) now now' = Some (x', r) /\
  if (length (arrived seen') <? d)%nat then tracked seen' t0 x' /\ recovered r = []
  else recovered r = pkts /\ completed_groups x' = completed_groups (note_completed x gid).
Proof.
  intros Hc Htr Hsz Hnow Hnow' Hi seen'.
  pose proof (evict_due_frame x now gid (tracked_alive _ _ _ _ Htr (proj1 (proj2 Hc)) Hnow)) as Hev.
  pose proof (evict_due_core x now Hc) as [Hc1 Hmax]. destruct Htr as (Ha & Hnc & t & Ht & Hg).
  destruct (frame_header i s Hi) as (E1 & E2 & E3). unfold push_shard. rewrite E2, E3, E1.
  destruct (evict_due x now) as [x1 m]. cbn [fst h_group] in *. destruct Hev as (F1 & F2 & F3).
  rewrite F1, not_completed by done. rewrite F3, Hg. change (mkFecHeader _ _ _ _ _ _) with (header_at i s).
  assert (Hstore : forall x2 t', dec_core x2 -> t0 <= t' -> completed_groups x2 = completed_groups x -> frame i s ∉ seen ->
    exists x' r, store_shard x2 (header_at i s) (group_at seen t') m = Some (x', r) /\
    if (length (arrived seen') <? d)%nat then tracked seen' t0 x' /\ recovered r = []
    else recovered r = pkts /\ completed_groups x' = completed_groups (note_completed x gid)).
  { intros x2 t' Hc2 Ht' Hcm Hns. destruct (store_new x2 seen t' i s m Hc2 Hi Hns Ha) as (x' & r & Es & Hr).
    exists x', r. split; [done|]. fold seen' in Hr. destruct (Nat.ltb_spec (length (arrived seen')) d) as [Hlt|Hge].
    - destruct Hr as [-> Hr]. split; [|done]. split; [done|]. split; [by dec_simpl; rewrite Hcm|].
      exists t'. split; [done|]. dec_simpl. rewrite lookup_insert_eq, bool_decide_eq_false_2; [done|].
      unfold seen'. intros E. pose proof (arrived_new seen i s Hi Hns) as Hn'. by rewrite E in Hn'.
    - destruct Hr as [Hr Hcm']. split; [done|]. rewrite Hcm'. by apply note_completed_cong. }
  case_bool_decide as Hemp.
  - assert (Hns : frame i s ∉ seen) by (intros Hin; by apply (frame_arrived seen i s)).
    unfold make_room. rewrite Hmax, (proj2 (Nat.leb_gt _ _)) by lia.
    assert (Eg : mkGroup (h_data (header_at i s)) (h_parity (header_at i s)) (h_size (header_at i s))
      (replicate (Z.to_nat (h_data (header_at i s) + h_parity (header_at i s))) None) 0 now' = group_at seen now').
    { unfold group_at, header_at. cbn [h_data h_parity h_size]. rewrite got_none, Hemp by done.
      by rewrite <- Nat2Z.inj_add, Nat2Z.id. }
    rewrite Eg. by apply Hstore.
  - destruct (decide (frame i s ∈ seen)) as [Hin|Hns]; [|by apply Hstore].
    rewrite store_dup by done. eexists _, _. split; [done|]. unfold seen'. rewrite arrived_old by done.
    rewrite (proj2 (Nat.ltb_lt _ _)) by done. split; [|done]. unfold tracked. rewrite arrived_old by done.
    split; [done|]. split; [by rewrite F1|]. exists t. split; [done|].
    rewrite bool_decide_eq_false_2 by done. by rewrite group_at_old, F3, Hg.
Qed.
Lemma seen_ext s1 s2 :
  (forall f, f ∈ frames -> f ∈ s1 <-> f ∈ s2) -> arrived s1 = arrived s2 /\ got_of s1 = got_of s2.
Proof.
  intros Hs. split.
  - unfold arrived. induction frames as [|f fs IH]; [done|]. rewrite !filter_cons.
    rewrite IH by (intros; apply Hs; by right).
    destruct (decide (f ∈ s1)) as [H1'|H1'], (decide (f ∈ s2)) as [H2'|H2']; try done; rewrite Hs in H1' by (by left); done.
  - apply list_eq. intros j. destruct (full !! j) as [s|] eqn:Ej.
    + rewrite !(got_lookup _ _ _ Ej). rewrite (bool_decide_ext (frame j s ∈ s1) (frame j s ∈ s2)); [done|].
      apply Hs, (list_elem_of_lookup_2 _ j). by rewrite frames_lookup, Ej.
    + apply lookup_ge_None in Ej. destruct full_shape as (F1 & _).
      rewrite !lookup_ge_None_2; [done|rewrite got_length; lia..].
Qed.

(** An input that is a frame of the group, or a frame of another group, or no frame at all. *)
Definition input_ok (t0 : Instant) (i : bytes * Instant * Instant) : Prop :=
  Forall byte_ok i.1.1 /\ (i.1.1 ∈ frames \/ h_group (fec_header i.1.1) <> gid) /\
  i.1.2 < t0 + from_millis 200 /\ t0 <= i.2.

Lemma frames_elem f : f ∈ frames -> exists i s, full !! i = Some s /\ f = frame i s.
Proof.
  intros (i & Hi)%list_elem_of_lookup_1. rewrite frames_lookup in Hi. destruct (full !! i) as [s|] eqn:Es; [|done].
  injection Hi as <-. by exists i, s.
Qed.

Lemma other_not_frame raw : h_group (fec_header raw) <> gid -> raw ∉ frames.
Proof.
  intros Hne (i & s & Hi & ->)%frames_elem. destruct (frame_header i s Hi) as [E _]. by rewrite E in Hne.
Qed.

(** The packets that come out while frames of the group are handed in. *)
Definition own_packets (inputs : list (bytes * Instant * Instant)) (rs : list FecDecodeResult) : list bytes :=
  concat (zip_with (fun i r => if bool_decide (i.1.1 ∈ frames) then recovered r else []) inputs rs).

(** The group is among the finished ones and [k] more calls will not push it out. *)
Definition finished (k : nat) (x : FecDecoder) : Prop :=
  exists pre post, completed_groups x = pre ++ gid :: post /\ (length post + k < FEC_COMPLETED_GROUPS_CAP)%nat.

Lemma finished_elem k x : finished k x -> gid ∈ completed_groups x.
Proof. intros (pre & post & -> & _). set_solver. Qed.

Lemma finished_step k x x' id :
  finished (S k) x ->
  completed_groups x' = completed_groups x \/ completed_groups x' = completed_groups (note_completed x id) ->
  finished k x'.
Proof.
  intros (pre & post & E & Hk) [Hc|Hc]; unfold finished; rewrite Hc.
  - exists pre, post. split; [done|]. unfold FEC_COMPLETED_GROUPS_CAP in *. lia.
  - unfold note_completed. destruct (Nat.leb_spec FEC_COMPLETED_GROUPS_CAP (length (completed_groups x))) as [Hcap|Hcap]; dec_simpl; rewrite E in *.
    + destruct pre as [|y pre]; [rewrite length_app in Hcap; simpl in Hcap; lia|].
      exists pre, (post ++ [id]). change (drop 1 ((y :: pre) ++ ?k)) with (pre ++ k). rewrite <- app_assoc. split; [done|]. rewrite length_app. simpl. lia.
    + exists pre, (post ++ [id]). rewrite <- app_assoc. split; [done|]. rewrite length_app. simpl. lia.
Qed.

Lemma note_completed_finished x k : (k < FEC_COMPLETED_GROUPS_CAP)%nat ->
  forall x', completed_groups x' = completed_groups (note_completed x gid) -> finished k x'.
Proof.
  intros Hk x' Hc. unfold finished. rewrite Hc. unfold note_completed.
  destruct (_ <=? _)%nat; dec_simpl; eexists _, []; (split; [done|simpl; lia]).
Qed.

Lemma finished_own x raw now now' x' r k :
  finished k x -> raw ∈ frames -> push_shard x raw now now' = Some (x', r) -> recovered r = [].
Proof.
  intros Hf (i & s & Hi & ->)%frames_elem. destruct (frame_header i s Hi) as (E1 & E2 & E3).
  unfold push_shard. rewrite E2, E3, E1. cbn [h_group].
  assert (Hcm : completed_groups (evict_due x now).1 = completed_groups x)
    by (unfold evict_due, evict_at; by destruct (_ >=? _)).
  destruct (evict_due x now) as [x1 m]. cbn [fst] in Hcm. rewrite Hcm.
  assert (He : existsb (fun i => i =? gid) (completed_groups x) = true).
  { apply existsb_exists. exists gid. split; [apply list_elem_of_In; by eapply finished_elem|apply Z.eqb_refl]. }
  rewrite He. by intros [= _ <-].
Qed.

Lemma push_completed x raw now now' x' r :
  push_shard x raw now now' = Some (x', r) -> dec_core x -> (size (groups x) < 256)%nat ->
  (completed_groups x' = completed_groups x \/
   completed_groups x' = completed_groups (note_completed x (h_group (fec_header raw)))) /\
  (size (groups x') <= S (size (groups x)))%nat.
Proof.
  intros Hp Hc Hsz. pose proof (is_fresh (dom (groups x) : gset Z)) as Hfr. set (k := fresh _) in Hfr.
  apply not_elem_of_dom in Hfr.
  destruct (push_shard_touches x raw now now' x' r k Hp (proj1 Hc) Hsz) as (T1 & T2 & _); [|done].
  intros g Hg. congruence.
Qed.

Lemma run_finished t0 inputs x :
  Forall (input_ok t0) inputs -> dec_inv x -> (size (groups x) + length inputs <= 256)%nat -> finished (length inputs) x ->
  exists x' rs, dec_run x inputs = Some (x', rs) /\ own_packets inputs rs = [].
Proof.
  intros Hall. revert x. induction Hall as [|[[raw now] now'] inputs (Hb & Hor & _ & _) _ IH]; intros x Hi Hsz Hf.
  - by exists x, [].
  - cbn [length] in *. destruct (push_shard_total x raw now now' Hb Hi) as (x1 & r & E & Hi1 & _).
    destruct (push_completed x raw now now' x1 r E (proj1 Hi)) as [Hc1 Hs1]; [lia|].
    destruct (IH x1 Hi1) as (x2 & rs & E2 & Ho); [lia|by eapply finished_step|].
    exists x2, (r :: rs). cbn [dec_run]. rewrite E. cbn. rewrite E2. split; [done|].
    unfold own_packets. cbn [zip_with concat]. unfold own_packets in Ho. rewrite Ho, app_nil_r. cbn [fst].
    case_bool_decide; [|done]. by eapply finished_own.
Qed.
Lemma tracked_other seen t0 x x' raw :
  tracked seen t0 x -> h_group (fec_header raw) <> gid ->
  groups x' !! gid = groups x !! gid ->
  completed_groups x' = completed_groups x \/
  completed_groups x' = completed_groups (note_completed x (h_group (fec_header raw))) ->
  tracked (raw :: seen) t0 x'.
Proof.
  intros (Ha & Hnc & t & Ht & Hg) Hne Hg' Hc.
  destruct (seen_ext (raw :: seen) seen) as [E1 E2].
  { intros f Hf. rewrite elem_of_cons. split; [|by right]. intros [->|]; [|done]. by apply other_not_frame in Hne. }
  unfold tracked, group_at. rewrite E1, E2. split; [done|]. split; [|exists t; split; [done|]; by rewrite Hg', Hg].
  destruct Hc as [->| ->]; [done|]. unfold note_completed. destruct (_ <=? _)%nat; dec_simpl; rewrite elem_of_app; intros [Hin|Hin]; try done.
  - apply Hnc. apply list_elem_of_lookup_1 in Hin as [j Hj]. rewrite lookup_drop in Hj. by eapply list_elem_of_lookup_2.
  - by apply list_elem_of_singleton in Hin.
  - by apply list_elem_of_singleton in Hin.
Qed.

Lemma arrived_mono s1 s2 : (forall f, f ∈ s1 -> f ∈ s2) -> (length (arrived s1) <= length (arrived s2))%nat.
Proof.
  intros Hs. unfold arrived. induction frames as [|f fs IH]; [done|]. rewrite !filter_cons.
  destruct (decide (f ∈ s1)), (decide (f ∈ s2)); simpl; try lia. exfalso. auto.
Qed.

Lemma run_tracked t0 inputs x seen :
  Forall (input_ok t0) inputs -> dec_inv x -> (size (groups x) + length inputs <= 256)%nat ->
  (length inputs <= FEC_COMPLETED_GROUPS_CAP)%nat -> tracked seen t0 x ->
  exists x' rs, dec_run x inputs = Some (x', rs) /\
  own_packets inputs rs = if (length (arrived (rev (inputs.*1.*1) ++ seen)) <? d)%nat then [] else pkts.
Proof.
  intros Hall. revert x seen. induction Hall as [|[[raw now] now'] inputs Hin Hall IH]; intros x seen Hi Hsz Hcap Htr.
  - exists x, []. split; [done|]. destruct Htr as [Ha _]. cbn [fmap list_fmap rev app].
    by rewrite (proj2 (Nat.ltb_lt _ _)).
  - cbn [length] in *. destruct Hin as (Hb & Hor & Hnow & Hnow'). cbn [fst snd] in *.
    destruct (push_shard_total x raw now now' Hb Hi) as (x1 & r & E & Hi1 & _).
    destruct (push_completed x raw now now' x1 r E (proj1 Hi)) as [Hc1 Hs1]; [lia|].
    assert (Hrev : rev (((raw, now, now') :: inputs).*1.*1) ++ seen = rev (inputs.*1.*1) ++ (raw :: seen))
      by (cbn [fmap list_fmap rev fst]; by rewrite <- app_assoc).
    rewrite Hrev. cbn [dec_run]. rewrite E. cbn [mbind option_bind]. clear Hrev.
    destruct Hor as [Hf|Hne].
    + destruct (frames_elem raw Hf) as (i & s & Hs & ->).
      destruct (push_own x seen t0 now now' i s (proj1 Hi) Htr) as (x1' & r' & E' & Hr); [lia|done|done|done|].
      rewrite E in E'. injection E' as <- <-.
      destruct (Nat.ltb_spec (length (arrived (frame i s :: seen))) d) as [Hlt|Hge].
      * destruct Hr as [Htr1 Hr]. destruct (IH x1 (frame i s :: seen) Hi1) as (x2 & rs & E2 & Ho); [lia|lia|done|].
        exists x2, (r :: rs). rewrite E2. cbn [mbind option_bind]. split; [done|]. unfold own_packets in *. cbn [zip_with concat].
        rewrite Hr, Ho. by case_bool_decide.
      * destruct Hr as [Hr Hc]. destruct (run_finished t0 inputs x1 Hall Hi1) as (x2 & rs & E2 & Ho);
          [lia|by eapply note_completed_finished; [|exact Hc]; lia|].
        exists x2, (r :: rs). rewrite E2. cbn [mbind option_bind]. split; [done|]. unfold own_packets in *. cbn [zip_with concat fst].
        rewrite Ho, app_nil_r, Hr, bool_decide_eq_true_2 by done.
        rewrite (proj2 (Nat.ltb_ge _ _)); [done|]. etrans; [exact Hge|].
        apply arrived_mono. intros f Hin. apply elem_of_app. by right.
    + destruct (push_shard_touches x raw now now' x1 r gid E (proj1 (proj1 Hi))) as (_ & _ & T3);
        [lia|by apply (tracked_alive seen t0); [|apply Hi|]|].
      destruct (IH x1 (raw :: seen) Hi1) as (x2 & rs & E2 & Ho); [lia|lia|by eapply tracked_other; eauto|].
      exists x2, (r :: rs). rewrite E2. cbn [mbind option_bind]. split; [done|]. unfold own_packets in *. cbn [zip_with concat fst].
      rewrite Ho, bool_decide_eq_false_2 by (by apply other_not_frame). done.
Qed.
End Group.

Lemma filter_none (k : list bytes) : filter (fun f => f ∈ ([] : list bytes)) k = [].
Proof. induction k as [|f k IH]; [done|]. by rewrite filter_cons_False by apply not_elem_of_nil. Qed.


End Recovery.

(** ** A concrete codec: one parity shard, the exclusive or of the data shards *)

(** Closed lists of bytes are checked by evaluation. *)
Lemma bytes_ok_eval l : forallb (fun b => (0 <=? b) && (b <? 256)) l = true -> Forall byte_ok l.
Proof.
  intros Hl. rewrite forallb_forall in Hl. apply Forall_forall. intros b Hb%list_elem_of_In%Hl. breflect. done.
Qed.

Module XorCodec.

Definition col (j : nat) (l : list bytes) : Z := foldr Z.lxor 0 ((fun s => nth j s 0) <$> l).
Definition xor_all (n : nat) (l : list bytes) : bytes := (fun j => col j l) <$> seq 0 n.

Definition all_len (n : nat) (l : list bytes) : bool := forallb (fun s => length s =? n)%nat l.

Definition xor_new (d p : nat) : bool := (1 <=? d)%nat && (p =? 1)%nat.

Definition xor_encode (d p : nat) (l : list bytes) : option (list bytes) :=
  let n := length (hd [] l) in
  if xor_new d p && (length l =? d + p)%nat && all_len n l then Some (take d l ++ [xor_all n (take d l)]) else None.

Definition xor_reconstruct (d p : nat) (got : list (option bytes)) : option (list (option bytes)) :=
  let have := omap id got in
  let n := length (hd [] have) in
  if xor_new d p && (length got =? d + p)%nat && (d <=? present got)%nat && all_len n have
  then Some ((fun o => Some (default (xor_all n have) o)) <$> got) else None.

#[local] Instance xor_codec : ReedSolomon :=
  {| rs_new := xor_new; rs_encode := xor_encode; rs_reconstruct := xor_reconstruct |}.

Lemma all_len_spec n l : all_len n l = true <-> Forall (fun s => length s = n) l.
Proof.
  unfold all_len. rewrite forallb_forall, Forall_forall. setoid_rewrite Nat.eqb_eq.
  split; intros Hl x Hx; apply Hl; by apply list_elem_of_In.
Qed.

Lemma col_app j a b : col j (a ++ b) = Z.lxor (col j a) (col j b).
Proof.
  unfold col. rewrite fmap_app. induction (_ <$> a) as [|v k IH]; cbn [app foldr]; [by rewrite Z.lxor_0_l|].
  by rewrite IH, Z.lxor_assoc.
Qed.

Lemma nth_seq_id (s : bytes) : (fun j => nth j s 0) <$> seq 0 (length s) = s.
Proof.
  induction s as [|b s IH]; [done|]. cbn [length seq fmap list_fmap nth]. f_equal.
  rewrite <- seq_shift, <- list_fmap_compose. exact IH.
Qed.

Lemma length_xor_all n l : length (xor_all n l) = n.
Proof. unfold xor_all. by rewrite length_fmap, length_seq. Qed.

Lemma nth_xor_all n l j : (j < n)%nat -> nth j (xor_all n l) 0 = col j l.
Proof.
  intros Hj. apply nth_lookup_Some. unfold xor_all. rewrite list_lookup_fmap, lookup_seq_lt by done. done.
Qed.

(** The missing shard is the exclusive or of the others. *)
Lemma xor_missing n data a m b :
  data ++ [xor_all n data] = a ++ m :: b -> length m = n -> xor_all n (a ++ b) = m.
Proof.
  intros E Hm. transitivity ((fun j => nth j m 0) <$> seq 0 n); [|rewrite <- Hm; apply nth_seq_id]. unfold xor_all at 1.
  apply list_eq. intros j. rewrite !list_lookup_fmap. destruct (decide (j < n)%nat) as [Hj|Hj].
  2: { by rewrite !lookup_seq_ge by lia. }
  rewrite lookup_seq_lt by done. cbn. f_equal.
  assert (Hz : col j (a ++ m :: b) = 0).
  { rewrite <- E, col_app. change (col j [?s]) with (Z.lxor (nth j s 0) 0).
    by rewrite Z.lxor_0_r, nth_xor_all, Z.lxor_nilpotent by done. }
  rewrite col_app in *. change (col j (m :: b)) with (Z.lxor (nth j m 0) (col j b)) in Hz.
  apply Z.lxor_eq. rewrite Z.lxor_assoc, (Z.lxor_comm (col j b)). exact Hz.
Qed.

(** At most one shard of the group is missing. *)
Lemma partial_split full got :
  partial_of full got -> (length full <= S (present got))%nat ->
  got = Some <$> full \/
  exists a m b, full = a ++ m :: b /\ got = (Some <$> a) ++ None :: (Some <$> b).
Proof.
  induction 1 as [|s g full got Hg Hf IH]; intros Hp; [by left|]. destruct Hg as [->| ->].
  - right. exists [], s, full. split; [done|]. rewrite present_None in Hp. simpl in *. f_equal. clear IH.
    assert (Hlen : length full = length got) by (by eapply Forall2_length).
    destruct (present_full got) as [k ->]; [pose proof (present_le got); lia|].
    f_equal. rewrite Forall2_fmap_r in Hf. clear -Hf. induction Hf as [|? ? ? ? Ho ? IH]; [done|].
    destruct Ho as [|[= ->]]; [done|]. by rewrite IH.
  - rewrite present_Some in Hp. simpl in Hp. destruct IH as [->|(a & m & b & -> & ->)]; [lia|by left|].
    right. by exists (s :: a), m, b.
Qed.

Lemma omap_id_Some (k : list bytes) : omap id (Some <$> k) = k.
Proof. induction k as [|s k IH]; [done|]. cbn. f_equal. exact IH. Qed.

Lemma hd_len n (l : list bytes) : l <> [] -> Forall (fun s => length s = n) l -> length (hd [] l) = n.
Proof. destruct 2; done. Qed.

Lemma xor_new_spec d p : xor_new d p = true <-> (1 <= d)%nat /\ p = 1%nat.
Proof. unfold xor_new. by rewrite andb_true_iff, Nat.leb_le, Nat.eqb_eq. Qed.

Lemma xor_encode_spec d p l l' :
  xor_encode d p l = Some l' <->
  (1 <= d)%nat /\ p = 1%nat /\ length l = (d + p)%nat /\ Forall (fun s => length s = length (hd [] l)) l /\
  l' = take d l ++ [xor_all (length (hd [] l)) (take d l)].
Proof.
  unfold xor_encode. destruct (_ && _) eqn:E.
  - rewrite !andb_true_iff, xor_new_spec, all_len_spec, Nat.eqb_eq in E. naive_solver.
  - split; [done|]. intros (H1 & -> & H2 & H3 & _).
    rewrite <- not_true_iff_false, !andb_true_iff, xor_new_spec, all_len_spec, Nat.eqb_eq in E. naive_solver.
Qed.

Lemma xor_reconstruct_spec d p got got' :
  let have := omap id got in
  xor_reconstruct d p got = Some got' <->
  (1 <= d)%nat /\ p = 1%nat /\ length got = (d + p)%nat /\ (d <= present got)%nat /\
  Forall (fun s => length s = length (hd [] have)) have /\
  got' = (fun o => Some (default (xor_all (length (hd [] have)) have) o)) <$> got.
Proof.
  intros have. unfold xor_reconstruct. fold have. destruct (_ && _) eqn:E.
  - rewrite !andb_true_iff, xor_new_spec, all_len_spec, Nat.eqb_eq, Nat.leb_le in E. naive_solver.
  - split; [done|]. intros (H1 & -> & H2 & H3 & H4 & _).
    rewrite <- not_true_iff_false, !andb_true_iff, xor_new_spec, all_len_spec, Nat.eqb_eq, Nat.leb_le in E. naive_solver.
Qed.

Lemma length_fmap_const n (k : list bytes) : Forall (fun s => length s = n) k -> length <$> k = replicate (length k) n.
Proof. induction 1 as [|s k Hs _ IH]; [done|]. cbn. rewrite Hs. by f_equal. Qed.

Lemma xor_full_len d n l :
  length l = (d + 1)%nat -> Forall (fun s => length s = n) l ->
  let full := take d l ++ [xor_all n (take d l)] in
  length full = (d + 1)%nat /\ Forall (fun s => length s = n) full.
Proof.
  intros Hl Hn full. split; [unfold full; rewrite length_app, length_take; simpl; lia|].
  apply Forall_app. split; [by apply Forall_take|]. constructor; [apply length_xor_all|done].
Qed.

Lemma fill_Some (v : bytes) (k : list bytes) :
  (fun o => Some (default v o)) <$> (Some <$> k) = Some <$> k.
Proof. rewrite <- list_fmap_compose. done. Qed.

Lemma xor_reconstruct_encoded d n l full got :
  xor_encode d 1 l = Some full -> Forall (fun s => length s = S n) l ->
  partial_of full got -> (d <= present got)%nat -> xor_reconstruct d 1 got = Some (Some <$> full).
Proof.
  intros (Hd & _ & Hl & Hu & ->)%xor_encode_spec Hn Hpart Hp.
  assert (Hhd : length (hd [] l) = S n) by (apply hd_len; [by destruct l; [simpl in Hl; lia|]|done]). rewrite Hhd in *.
  destruct (xor_full_len d (S n) l Hl Hn) as [F1 F2]. set (full := take d l ++ _) in *.
  apply xor_reconstruct_spec. assert (Hlen : length got = length full) by (symmetry; by eapply Forall2_length).
  split; [done|]. split; [done|]. split; [congruence|]. split; [done|].
  destruct (partial_split full got Hpart) as [->|(a & m & b & E & ->)]; [lia| |].
  - rewrite omap_id_Some, fill_Some. split; [|done].
    rewrite (hd_len (S n)); [done|by destruct full; [simpl in F1; lia|]|done].
  - rewrite omap_app. change (omap id (None :: ?k)) with (omap id k). rewrite !omap_id_Some. rewrite E in F2.
    apply Forall_app in F2 as [Fa Fb]. apply Forall_cons in Fb as [Fm Fb].
    assert (Fab : Forall (fun s => length s = S n) (a ++ b)) by (apply Forall_app; by split).
    assert (Hne : a ++ b <> []).
    { intros Hnil. apply (f_equal length) in E, Hnil. rewrite length_app in E, Hnil. simpl in *. lia. }
    rewrite (hd_len (S n)) by done. split; [done|].
    rewrite fmap_app, fmap_cons, !fill_Some. cbn [default]. rewrite E, fmap_app, fmap_cons. do 2 f_equal.
    symmetry. f_equal. by apply (xor_missing (S n) (take d l)).
Qed.

#[local] Instance xor_laws : ReedSolomonLaws.
Proof.
  split; cbn [rs_new rs_encode rs_reconstruct xor_codec].
  - intros d p l l' (Hd & -> & Hl & Hu & ->)%xor_encode_spec. destruct (xor_full_len d _ l Hl Hu) as [F1 F2].
    split; [rewrite take_app_length' by (rewrite length_take; lia); done|].
    rewrite !(length_fmap_const (length (hd [] l))) by done. by rewrite F1, Hl.
  - intros d p n l [Hd ->]%xor_new_spec Hl Hu _. eexists. apply xor_encode_spec. split_and!; try done.
    eapply Forall_impl; [exact Hu|]. intros s Hs. simpl in Hs. rewrite Hs. symmetry. apply hd_len; [|done].
    by destruct l; [simpl in Hl; lia|].
  - intros d p n l full got [Hd ->]%xor_new_spec _ Hu _ He Hpart Hp. by eapply xor_reconstruct_encoded.
  - intros d p n got got' (Hd & -> & Hl & Hp & Hu & ->)%xor_reconstruct_spec Hsz. split; [by rewrite length_fmap|].
    apply Forall_fmap. assert (Hh : Forall (fun s : bytes => length s = n) (omap id got)).
    { clear -Hsz. induction Hsz as [|[s|] k Hs _ IH]; cbn; [constructor| |done]. constructor; [by apply Hs|done]. }
    assert (Hn : length (hd [] (omap id got)) = n).
    { apply hd_len; [|done]. unfold present in Hp. intros E. rewrite E in Hp. simpl in Hp. lia. }
    rewrite Hn. eapply Forall_impl; [exact Hsz|]. intros [s|] Hs; eexists; (split; [done|]); [by apply Hs|apply length_xor_all].
Qed.
End XorCodec.

(** Two packets of 300 bytes fill a group of two data shards. *)
Lemma encoder_conserves_witness :
  let pk b := replicate 300 b in
  let ops := [(0, OpPush (pk 1) None); (5, OpPush (pk 2) None)] in
  let '(e, outs) := enc_run (H := XorCodec.xor_codec) (with_flush 7 2 1 400 (from_millis 2) (from_millis 1)) ops in
  exists lists, Forall2 (carries (H := XorCodec.xor_codec)) outs lists /\
  pushed ops ≡ₚ concat lists ++ originals e.
Proof.
  intros pk ops.
  pose proof (encoder_conserves (H := XorCodec.xor_codec) (H0 := XorCodec.xor_laws) 7 2 1 400 (from_millis 2) (from_millis 1) ops) as Hw.
  destruct (enc_run _ ops) as [e outs]. destruct Hw as (lists & H1 & H2 & _); [lia|lia|done|by repeat constructor|].
  by exists lists.
Defined.

Lemma decoder_safe_witness :
  exists x rs, dec_run (H := canonical_iter) (H0 := XorCodec.xor_codec) (new_decoder 0) [([1; 2; 3], 0, 0); (replicate 12 0, 60, 60)] = Some (x, rs) /\
  length rs = 2%nat.
Proof.
  destruct (decoder_safe (H := canonical_iter) (H0 := XorCodec.xor_codec) (H1 := XorCodec.xor_laws) 0 [([1; 2; 3], 0, 0); (replicate 12 0, 60, 60)])
    as (x & rs & E & _ & Hl & _).
  - constructor; [by apply bytes_ok_eval|]. constructor; [by apply bytes_ok_eval|constructor].
  - by exists x, rs.
Defined.

