(* ===== verification/FecTx.v ===== *)
(** * The FEC transmit worker (src/net/fec_tx_worker.rs)

    A thread owns one encoder per destination.  It is driven by data items, control commands and
    flush requests; what it puts out goes to the pacing queue in batches or back to the engine as
    packets to enqueue.  The pacing queue is not part of it: its length, its capacity and whether it
    takes a batch are the [World] of an operation.  The theorems show that no packet handed to the
    worker is lost or repeated, except those of a removed peer and one that is in hand at a stop. *)

From S2P Require Import Prelude Float Packet Fec.

Record FecTxTuning := mkTxTuning {
  tx_shard : Z; tx_flush_std : Duration; tx_flush_agg : Duration; tx_frame_scratch : Z
}.

Definition default_tx_tuning : FecTxTuning :=
  mkTxTuning FEC_SHARD_PAYLOAD_SIZE FEC_FLUSH_TIMEOUT FEC_FLUSH_TIMEOUT_AGGRESSIVE 0.

Record FecTxPush := mkPush {
  push_dest : SocketAddr;
  push_pkt : bytes;
  push_ds : Z;
  push_ps : Z;
  push_budget : option (Z * Z);
  push_rtt : option f32;
  push_qd : option f32
}.

(** The replies a command carries are not modelled; they are sent in every case. *)
Inductive FecTxControl :=
| FlushAll
| Retune (shard : Z) (flush_std flush_agg : Duration) (frame_scratch : Z)
| SetEncodeEnabled (enabled : bool)
| RemovePeer (dest : SocketAddr)
| ResetSession
| Stop.

Inductive NormalOfferKind := NPassthrough | BatchFallback | DrainPassthrough.

(** A batch taken by the pacing queue, or packets the engine has to enqueue. *)
Inductive FecTxEmit :=
| PeerBatch (dest : SocketAddr) (pkts : list bytes) (rtt qd : option f32)
| EnqueueNormal (dest : SocketAddr) (pkts : list bytes) (kind : NormalOfferKind).

Record WorkerState := mkWorker {
  encoders : gmap SocketAddr FecEncoder;
  hints : gmap SocketAddr (option f32 * option f32);
  tuning : FecTxTuning;
  encode_enabled : bool
}.
#[export] Instance eta_WorkerState : Settable WorkerState :=
  fun r => mkWorker (encoders r) (hints r) (tuning r) (encode_enabled r).

Ltac wk_simpl := cbn [setter encoders hints tuning encode_enabled fst snd] in *.

Definition new_worker (t : FecTxTuning) : WorkerState := mkWorker ∅ ∅ t true.

Record World := mkWorld {
  peer_data_queue_len : SocketAddr -> Z;
  max_data_queue_packets : Z;
  try_enqueue_peer_batch : SocketAddr -> list bytes -> bool
}.

Definition dispatch_output (w : World) (st : WorkerState) (dest : SocketAddr) (out : FecOutput) (drain : bool)
  : list FecTxEmit :=
  match out with
  | Buffered => []
  | Encoded pkts =>
      let '(rtt, qd) := default (None, None) (hints st !! dest) in
      if try_enqueue_peer_batch w dest pkts then [PeerBatch dest pkts rtt qd]
      else [EnqueueNormal dest pkts BatchFallback]
  | Passthrough pkts => [EnqueueNormal dest pkts (if drain then DrainPassthrough else NPassthrough)]
  end.

Definition set_tuning_after_flush (st : WorkerState) (t : FecTxTuning) : WorkerState := st <| tuning := t |>.

Definition flush_budget (w : World) (dest : SocketAddr) : option (Z * Z) :=
  Some (peer_data_queue_len w dest, Z.max (max_data_queue_packets w) 1).

Section Worker.
Context `{HashIter} `{ReedSolomon}.

Definition flush_all (w : World) (st : WorkerState) (now : Instant) : WorkerState * list FecTxEmit :=
  let pending := (fun kv : SocketAddr * FecEncoder => (kv.1, (enc_flush kv.2 (flush_budget w kv.1) now).2))
                   <$> hm_iter (encoders st) in
  let st := st <| encoders := ∅ |> in
  (st, pending ≫= (fun po : SocketAddr * FecOutput => dispatch_output w st po.1 po.2 false)).

(** One encoder at a flush request. *)
Definition flush_one (w : World) (now : Instant) (drain : bool) (dest : SocketAddr) (e : FecEncoder)
  : FecEncoder * option FecOutput :=
  if needs_flush e now then
    let '(e, o) := if drain then flush_passthrough e else enc_flush e (flush_budget w dest) now in (e, Some o)
  else (e, None).

Definition flush_due (w : World) (st : WorkerState) (drain : bool) (now : Instant) : WorkerState * list FecTxEmit :=
  let pending := omap (fun kv : SocketAddr * FecEncoder => pair kv.1 <$> (flush_one w now drain kv.1 kv.2).2)
                   (hm_iter (encoders st)) in
  let st := st <| encoders := map_imap (fun dest e => Some (flush_one w now drain dest e).1) (encoders st) |> in
  (st, pending ≫= (fun po : SocketAddr * FecOutput => dispatch_output w st po.1 po.2 drain)).

(** [salt] is the random draw of a new encoder. *)
Definition handle_push (w : World) (st : WorkerState) (m : FecTxPush) (salt : Z) (now : Instant)
  : WorkerState * list FecTxEmit :=
  let dest := push_dest m in
  let st := st <| hints := <[dest := (push_rtt m, push_qd m)]> (hints st) |> in
  if negb (encode_enabled st) then (st, [EnqueueNormal dest [push_pkt m] NPassthrough])
  else
    let t := tuning st in
    let enc := default (with_flush salt (push_ds m) (push_ps m) (tx_shard t) (tx_flush_std t) (tx_flush_agg t))
                 (encoders st !! dest) in
    let '(enc, size_flush) :=
      if negb (shard_payload_size enc =? tx_shard t) then
        let '(enc, o) := enc_flush enc (push_budget m) now in
        (enc_apply_tuning enc (tx_shard t) (tx_flush_std t) (tx_flush_agg t), o)
      else (enc_apply_tuning enc (tx_shard t) (tx_flush_std t) (tx_flush_agg t), Buffered) in
    let '(enc, ratio_flush) := update_ratio_with_flush enc (push_ds m) (push_ps m) (push_budget m) now in
    let '(enc, out) := push_output enc (push_pkt m) (push_budget m) now in
    let st := st <| encoders := <[dest := enc]> (encoders st) |> in
    (st, dispatch_output w st dest size_flush false ++ dispatch_output w st dest ratio_flush false ++
         dispatch_output w st dest out false).

(** The last component: the worker exits. *)
Definition handle_control (w : World) (st : WorkerState) (cmd : FecTxControl) (now : Instant)
  : WorkerState * list FecTxEmit * bool :=
  match cmd with
  | FlushAll => (flush_all w st now, false)
  | Retune shard fs fa scratch =>
      let '(st, es) := flush_all w st now in
      (set_tuning_after_flush st (mkTxTuning shard fs fa scratch), es, false)
  | SetEncodeEnabled b => (st <| encode_enabled := b |>, [], false)
  | RemovePeer dest =>
      (st <| encoders := delete dest (encoders st) |> <| hints := delete dest (hints st) |>, [], false)
  | ResetSession =>
      let '(st, es) := flush_all w st now in
      (st <| hints := ∅ |> <| encode_enabled := true |>, es, false)
  | Stop => (flush_all w st now, true)
  end.

(** Commands are taken until one of them stops the worker. *)
Fixpoint run_controls (st : WorkerState) (cmds : list (World * FecTxControl * Instant))
  : WorkerState * list FecTxEmit * bool :=
  match cmds with
  | [] => (st, [], false)
  | (w, cmd, now) :: cmds =>
      let '(st, es, stop) := handle_control w st cmd now in
      if stop then (st, es, true)
      else let '(st, es', stop) := run_controls st cmds in (st, es ++ es', stop)
  end.

(** One turn of the main loop: the waiting commands, the flush request (0 none, 2 drain), the data
    item if one arrives, and the commands that arrived with it. *)
Record Turn := mkTurn {
  tn_controls : list (World * FecTxControl * Instant);
  tn_flush : World * Z * Instant;
  tn_data : option (World * FecTxPush * Z * Instant);
  tn_controls' : list (World * FecTxControl * Instant)
}.

Definition fec_tx_turn (st : WorkerState) (t : Turn) : WorkerState * list FecTxEmit * bool :=
  let '(st, es1, stop) := run_controls st (tn_controls t) in
  if stop then (st, es1, true)
  else
    let '(w, req, now) := tn_flush t in
    let '(st, es2) := if req =? 0 then (st, []) else flush_due w st (req =? 2) now in
    match tn_data t with
    | None => (st, es1 ++ es2, false)
    | Some (w, m, salt, now) =>
        let '(st, es3, stop) := run_controls st (tn_controls' t) in
        if stop then (st, es1 ++ es2 ++ es3, true)
        else let '(st, es4) := handle_push w st m salt now in (st, es1 ++ es2 ++ es3 ++ es4, false)
    end.

End Worker.

(** ** Conservation *)

Definition emit_dest (em : FecTxEmit) : SocketAddr :=
  match em with PeerBatch d _ _ _ => d | EnqueueNormal d _ _ => d end.

Definition to_dest (d : SocketAddr) (es : list FecTxEmit) : list FecTxEmit := filter (fun em => emit_dest em = d) es.

Definition buffered (st : WorkerState) (d : SocketAddr) : list bytes :=
  match encoders st !! d with Some e => originals e | None => [] end.

Lemma to_dest_app d a b : to_dest d (a ++ b) = to_dest d a ++ to_dest d b.
Proof. apply filter_app. Qed.

Lemma to_dest_own d es : Forall (fun em => emit_dest em = d) es -> to_dest d es = es.
Proof. unfold to_dest. induction 1 as [|em es He _ IH]; [done|]. by rewrite filter_cons_True, IH. Qed.

Lemma to_dest_other d d' es : d <> d' -> Forall (fun em => emit_dest em = d') es -> to_dest d es = [].
Proof.
  intros Hne. unfold to_dest. induction 1 as [|em es He _ IH]; [done|]. by rewrite filter_cons_False by congruence.
Qed.

(** The outputs for one destination of a pass over the encoders. *)
Lemma to_dest_pass {V} (d : SocketAddr) (l : list (SocketAddr * V)) (f : SocketAddr * V -> list FecTxEmit) :
  NoDup l.*1 -> (forall kv, Forall (fun em => emit_dest em = kv.1) (f kv)) ->
  (forall v, (d, v) ∈ l -> to_dest d (l ≫= f) = f (d, v)) /\ ((forall v, (d, v) ∉ l) -> to_dest d (l ≫= f) = []).
Proof.
  intros Hnd Hf. induction l as [|[k v0] l IH]; [split; [intros v Hv; by apply elem_of_nil in Hv|done]|].
  rewrite fmap_cons in Hnd. apply NoDup_cons in Hnd as [Hk Hnd]. destruct (IH Hnd) as [IH1 IH2]. clear IH.
  cbn [mbind list_bind]. change (list_bind _ _ f l) with (l ≫= f) in *. split.
  - intros v [E|Hv]%elem_of_cons.
    + injection E as <- <-. rewrite to_dest_app, (to_dest_own d) by apply (Hf (d, v)). rewrite IH2, app_nil_r; [done|].
      intros v' Hv'. apply Hk. apply list_elem_of_fmap. by exists (d, v').
    + rewrite to_dest_app, (to_dest_other d k), (IH1 v Hv); [done| |apply (Hf (k, v0))].
      intros ->. apply Hk, list_elem_of_fmap. by exists (k, v).
  - intros Hno. rewrite to_dest_app, IH2 by (intros v Hv; apply (Hno v); by right).
    rewrite (to_dest_other d k); [done| |apply (Hf (k, v0))]. intros ->. apply (Hno v0). by left.
Qed.

Section Conservation.
Context `{HashIter} `{ReedSolomonLaws}.

(** The packets an emission stands for. *)
Inductive delivers : FecTxEmit -> list bytes -> Prop :=
| delivers_batch d pkts rtt qd out : carries (Encoded pkts) out -> delivers (PeerBatch d pkts rtt qd) out
| delivers_fallback d pkts out : carries (Encoded pkts) out -> delivers (EnqueueNormal d pkts BatchFallback) out
| delivers_plain d pkts kind : kind <> BatchFallback -> delivers (EnqueueNormal d pkts kind) pkts.

Definition emitted (es : list FecTxEmit) (out : list bytes) : Prop :=
  exists outs, Forall2 delivers es outs /\ concat outs = out.

Lemma emitted_nil : emitted [] [].
Proof. by exists []. Qed.

Lemma emitted_app a b out out' : emitted a out -> emitted b out' -> emitted (a ++ b) (out ++ out').
Proof.
  intros (oa & Ha & <-) (ob & Hb & <-). exists (oa ++ ob). split; [by apply Forall2_app|]. by rewrite concat_app.
Qed.

Lemma emitted_one em out : delivers em out -> emitted [em] out.
Proof. intros Hd. exists [out]. split; [by repeat constructor|]. simpl. by rewrite app_nil_r. Qed.

Lemma dispatch_dest w st d o drain : Forall (fun em => emit_dest em = d) (dispatch_output w st d o drain).
Proof. destruct o; cbn [dispatch_output]; repeat case_match; by repeat constructor. Qed.

Lemma dispatch_emitted w st d o drain out : carries o out -> emitted (dispatch_output w st d o drain) out.
Proof.
  intros Hc. destruct o as [|frames|pkts]; cbn [dispatch_output].
  - inversion Hc; subst. apply emitted_nil.
  - destruct (default _ _) as [rtt qd]. destruct (try_enqueue_peer_batch _ _ _); apply emitted_one; by constructor.
  - inversion Hc; subst. apply emitted_one. constructor. by destruct drain.
Qed.

Definition worker_inv (st : WorkerState) : Prop :=
  map_Forall (fun _ e => enc_inv e) (encoders st) /\ tx_shard (tuning st) <= FEC_SHARD_PAYLOAD_SIZE.

(** What happens to the packets of one destination. *)
Definition conserves (st : WorkerState) (d : SocketAddr) (pushed : list bytes) (st' : WorkerState)
    (es : list FecTxEmit) : Prop :=
  exists out, emitted (to_dest d es) out /\ buffered st d ++ pushed ≡ₚ out ++ buffered st' d.

Lemma conserves_trans st1 st2 st3 d p1 p2 e1 e2 :
  conserves st1 d p1 st2 e1 -> conserves st2 d p2 st3 e2 -> conserves st1 d (p1 ++ p2) st3 (e1 ++ e2).
Proof.
  intros (o1 & D1 & P1) (o2 & D2 & P2). exists (o1 ++ o2). rewrite to_dest_app. split; [by apply emitted_app|].
  by rewrite app_assoc, P1, <- !app_assoc, P2.
Qed.

Lemma conserves_same st st' d : buffered st' d = buffered st d -> conserves st d [] st' [].
Proof. intros E. exists []. split; [apply emitted_nil|]. by rewrite E, app_nil_r. Qed.

Lemma flush_all_spec w st now d :
  worker_inv st ->
  let '(st', es) := flush_all w st now in
  worker_inv st' /\ encoders st' = ∅ /\ tuning st' = tuning st /\ conserves st d [] st' es.
Proof.
  intros [He Ht]. unfold flush_all. split; [split; [apply map_Forall_empty|done]|]. split; [done|]. split; [done|].
  set (st' := st <| encoders := ∅ |>).
  set (f := fun kv : SocketAddr * FecEncoder =>
              dispatch_output w st' kv.1 (enc_flush kv.2 (flush_budget w kv.1) now).2 false).
  assert (Eb : ((fun kv : SocketAddr * FecEncoder => (kv.1, (enc_flush kv.2 (flush_budget w kv.1) now).2))
      <$> hm_iter (encoders st)) ≫= (fun po => dispatch_output w st' po.1 po.2 false) = hm_iter (encoders st) ≫= f)
    by (induction (hm_iter (encoders st)) as [|kv l IH]; [done|]; cbn; f_equal; exact IH).
  rewrite Eb. destruct (to_dest_pass d (hm_iter (encoders st)) f (hm_iter_NoDup_fst _)) as [P1 P2]; [intros; apply dispatch_dest|].
  unfold conserves, buffered. change (encoders st') with (∅ : gmap SocketAddr FecEncoder). rewrite lookup_empty.
  destruct (encoders st !! d) as [e|] eqn:E.
  - rewrite (P1 e) by (by apply hm_iter_elem). unfold f. cbn [fst snd].
    destruct (He d e E) as [Hc Hb]. destruct (closes_flush e (flush_budget w d) now Hc) as (_ & _ & _ & Hcar & _).
    { intros Hne. destruct (Hb Hne) as (? & ? & ?). lia. }
    exists (originals e). split; [by apply dispatch_emitted|]. by rewrite !app_nil_r.
  - rewrite P2 by (intros v Hv%hm_iter_elem; congruence). exists []. split; [apply emitted_nil|done].
Qed.
(** A pass over the encoders leaves out the ones with nothing to say. *)
Lemma bind_omap {A B} (g : A -> option B) (k : B -> list FecTxEmit) (l : list A) :
  omap g l ≫= k = l ≫= (fun a => match g a with Some b => k b | None => [] end).
Proof. induction l as [|a l IH]; [done|]. cbn. destruct (g a); cbn; [f_equal|]; exact IH. Qed.

Lemma flush_one_spec w now drain d e :
  enc_inv e ->
  enc_inv (flush_one w now drain d e).1 /\
  exists out, match (flush_one w now drain d e).2 with Some o => carries o out | None => out = [] end /\
  originals e = out ++ originals (flush_one w now drain d e).1.
Proof.
  intros Hi. unfold flush_one. destruct (needs_flush e now); [|by split; [|exists []]].
  assert (Ha : let r := if drain then flush_passthrough e else enc_flush e (flush_budget w d) now in advances e [] r.1 r.2)
    by (destruct drain; [by apply flush_passthrough_advances|by apply flush_advances]).
  destruct (if drain then _ else _) as [e' o]. cbn [fst snd] in *. destruct Ha as (Hi' & _ & out & Hc & _ & Heq & _).
  split; [done|]. exists out. split; [done|]. rewrite <- Heq by constructor. by rewrite app_nil_r.
Qed.

Lemma flush_due_spec w st drain now d :
  worker_inv st ->
  let '(st', es) := flush_due w st drain now in
  worker_inv st' /\ tuning st' = tuning st /\ conserves st d [] st' es.
Proof.
  intros [He Ht]. unfold flush_due. set (st' := st <| encoders := _ |>).
  assert (Hl : forall k, encoders st' !! k = (fun e => (flush_one w now drain k e).1) <$> encoders st !! k).
  { intros k. unfold st'. wk_simpl. rewrite map_lookup_imap. by destruct (encoders st !! k). }
  split; [split; [|done]|split; [done|]].
  { intros k e' Hk. rewrite Hl in Hk. destruct (encoders st !! k) as [e|] eqn:E; [|done]. injection Hk as <-.
    by apply flush_one_spec, (He k). }
  rewrite bind_omap. set (f := fun kv : SocketAddr * FecEncoder => _).
  destruct (to_dest_pass d (hm_iter (encoders st)) f (hm_iter_NoDup_fst _)) as [P1 P2].
  { intros [k e]. unfold f. cbn [fst snd]. destruct (flush_one w now drain k e).2; cbn; [apply dispatch_dest|constructor]. }
  unfold conserves, buffered. rewrite Hl. destruct (encoders st !! d) as [e|] eqn:E.
  - rewrite (P1 e) by (by apply hm_iter_elem). unfold f. cbn [fst snd].
    destruct (flush_one_spec w now drain d e (He d e E)) as (_ & out & Hc & Heq). exists out. cbn. rewrite app_nil_r. split.
    + destruct (flush_one w now drain d e).2 as [o|]; cbn; [by apply dispatch_emitted|]. subst out. apply emitted_nil.
    + by rewrite Heq.
  - rewrite P2 by (intros v Hv%hm_iter_elem; congruence). exists []. split; [apply emitted_nil|done].
Qed.

Lemma retune_inv e size st ag :
  enc_inv e -> size <= FEC_SHARD_PAYLOAD_SIZE ->
  enc_inv (enc_apply_tuning e size st ag) /\ originals (enc_apply_tuning e size st ag) = originals e.
Proof.
  intros [(C1 & C2 & C3 & C4 & C5) Hb] Hs. unfold enc_apply_tuning, originals, enc_inv, enc_core.
  destruct (_ =? _); enc_simpl; (split; [|done]); (split; [|done]);
    (split; [done|split; [done|split; [done|split; [done|done]]]]).
Qed.

Definition push_ok (m : FecTxPush) : Prop := 0 <= push_ds m <= 255 /\ 0 <= push_ps m <= 255.

(** The three steps of a push on the encoder of its destination. *)
Lemma push_steps e m t now :
  enc_inv e -> tx_shard t <= FEC_SHARD_PAYLOAD_SIZE -> push_ok m ->
  let '(e1, o1) :=
    if negb (shard_payload_size e =? tx_shard t) then
      let '(e, o) := enc_flush e (push_budget m) now in
      (enc_apply_tuning e (tx_shard t) (tx_flush_std t) (tx_flush_agg t), o)
    else (enc_apply_tuning e (tx_shard t) (tx_flush_std t) (tx_flush_agg t), Buffered) in
  let '(e2, o2) := update_ratio_with_flush e1 (push_ds m) (push_ps m) (push_budget m) now in
  let '(e3, o3) := push_output e2 (push_pkt m) (push_budget m) now in
  enc_inv e3 /\ exists a b c, carries o1 a /\ carries o2 b /\ carries o3 c /\
  originals e ++ [push_pkt m] ≡ₚ a ++ b ++ c ++ originals e3.
Proof.
  intros Hi Hs [Hd Hp]. set (r1 := if negb _ then _ else _).
  assert (H1' : enc_inv r1.1 /\ exists a, carries r1.2 a /\ originals e = a ++ originals r1.1).
  { unfold r1. destruct (negb _).
    - pose proof (flush_advances e (push_budget m) now Hi) as (Hi' & _ & a & Hc & _ & Heq & _).
      destruct (enc_flush e (push_budget m) now) as [e' o]. cbn [fst snd] in *.
      destruct (retune_inv e' (tx_shard t) (tx_flush_std t) (tx_flush_agg t) Hi' Hs) as [Hi'' Ho]. split; [done|].
      exists a. split; [done|]. rewrite Ho, <- Heq by constructor. by rewrite app_nil_r.
    - destruct (retune_inv e (tx_shard t) (tx_flush_std t) (tx_flush_agg t) Hi Hs) as [Hi'' Ho]. cbn [fst snd].
      split; [done|]. exists []. split; [constructor|]. by rewrite Ho. }
  destruct r1 as [e1 o1]. cbn [fst snd] in H1'. destruct H1' as (Hi1 & a & Ca & Ea).
  pose proof (update_ratio_advances e1 (push_ds m) (push_ps m) (push_budget m) now Hi1 Hd Hp) as H2'.
  destruct (update_ratio_with_flush _ _ _ _ _) as [e2 o2]. destruct H2' as [(Hi2 & _ & b & Cb & _ & Eb & _) _].
  pose proof (push_spec e2 (push_pkt m) (push_budget m) now Hi2) as H3'.
  destruct (push_output _ _ _ _) as [e3 o3]. cbn [fst snd] in H3'. destruct H3' as (Hi3 & _ & c & Cc & Ec & _).
  split; [done|]. exists a, b, c. split_and!; try done. rewrite Ea, <- !app_assoc. apply Permutation_app_head.
  specialize (Eb (Forall_nil_2 _)). rewrite app_nil_r in Eb. rewrite Eb, <- app_assoc. by apply Permutation_app_head.
Qed.
Definition pushed_to (d : SocketAddr) (m : FecTxPush) : list bytes :=
  if bool_decide (push_dest m = d) then [push_pkt m] else [].

Lemma handle_push_spec w st m salt now d :
  worker_inv st -> push_ok m ->
  let '(st', es) := handle_push w st m salt now in
  worker_inv st' /\ conserves st d (pushed_to d m) st' es.
Proof.
  intros [He Ht] Hok. unfold handle_push. wk_simpl. destruct (encode_enabled st); cbn [negb].
  2: { split; [done|]. unfold pushed_to. case_bool_decide as Ed.
       - exists [push_pkt m]. subst d. rewrite to_dest_own by (by repeat constructor).
         split; [by apply emitted_one; constructor|]. by rewrite Permutation_app_comm.
       - exists []. rewrite (to_dest_other d (push_dest m)) by (done || by repeat constructor).
         split; [apply emitted_nil|]. by rewrite app_nil_r. }
  set (enc := default _ (encoders st !! push_dest m)).
  assert (Henc : enc_inv enc /\ originals enc = buffered st (push_dest m)).
  { unfold enc, buffered. destruct (encoders st !! push_dest m) as [e|] eqn:E; cbn [default].
    - split; [by apply (He (push_dest m))|done].
    - split; [|done]. destruct Hok. by apply with_flush_inv. }
  destruct Henc as [Hi Ho]. pose proof (push_steps enc m (tuning st) now Hi Ht Hok) as Hst.
  destruct (if negb _ then _ else _) as [e1 o1]. destruct (update_ratio_with_flush _ _ _ _ _) as [e2 o2].
  destruct (push_output _ _ _ _) as [e3 o3]. destruct Hst as (Hi3 & a & b & c & Ca & Cb & Cc & Hperm).
  match goal with |- worker_inv ?s /\ _ => set (st' := s) end. split; [split; [by apply map_Forall_insert_2|done]|].
  unfold conserves, pushed_to. case_bool_decide as Ed.
  - subst d. rewrite to_dest_own by (rewrite !Forall_app; split_and!; apply dispatch_dest).
    exists (a ++ b ++ c). split; [by repeat apply emitted_app; apply dispatch_emitted|].
    unfold buffered at 2. unfold st'. wk_simpl. rewrite lookup_insert_eq, <- Ho, Hperm, <- !app_assoc. done.
  - rewrite (to_dest_other d (push_dest m)) by (done || (rewrite !Forall_app; split_and!; apply dispatch_dest)).
    exists []. split; [apply emitted_nil|]. unfold buffered, st'. wk_simpl. by rewrite lookup_insert_ne, app_nil_r.
Qed.

(** Tunings within the largest shard, and no removal of the destination. *)
Definition control_ok (d : SocketAddr) (cmd : FecTxControl) : Prop :=
  match cmd with
  | Retune shard _ _ _ => shard <= FEC_SHARD_PAYLOAD_SIZE
  | RemovePeer d' => d' <> d
  | _ => True
  end.

Lemma handle_control_spec w st cmd now d :
  worker_inv st -> control_ok d cmd ->
  let '(st', es, stop) := handle_control w st cmd now in
  worker_inv st' /\ conserves st d [] st' es /\ (stop = true -> encoders st' = ∅).
Proof.
  intros Hi Hok. pose proof (flush_all_spec w st now d Hi) as Hf. destruct Hi as [He Ht].
  destruct cmd as [|shard fs fa sc|b|d'| |]; cbn [handle_control]; try destruct (flush_all w st now) as [st' es];
    try (destruct Hf as ([He' Ht'] & Hemp & Htun & Hcons)).
  - done.
  - by split_and!.
  - split; [done|]. split; [by apply conserves_same|done].
  - split; [split; [by apply map_Forall_delete|done]|]. split; [|done]. apply conserves_same.
    unfold buffered. wk_simpl. by rewrite lookup_delete_ne.
  - by split_and!.
  - done.
Qed.

Lemma run_controls_spec cmds st d :
  worker_inv st -> Forall (fun c => control_ok d c.1.2) cmds ->
  let '(st', es, stop) := run_controls st cmds in
  worker_inv st' /\ conserves st d [] st' es /\ (stop = true -> encoders st' = ∅).
Proof.
  intros Hi Hok. revert st Hi. induction Hok as [|[[w cmd] now] cmds Hc _ IH]; intros st Hi; cbn [run_controls].
  - split; [done|]. split; [by apply conserves_same|done].
  - pose proof (handle_control_spec w st cmd now d Hi Hc) as Hs. destruct (handle_control _ _ _ _) as [[st1 es1] stop1].
    destruct Hs as (Hi1 & Hc1 & Hs1). destruct stop1; [done|]. specialize (IH st1 Hi1).
    destruct (run_controls st1 cmds) as [[st2 es2] stop2]. destruct IH as (Hi2 & Hc2 & Hs2).
    split; [done|]. split; [|done]. by apply (conserves_trans _ _ _ _ [] []) with (1 := Hc1).
Qed.

Definition turn_ok (d : SocketAddr) (t : Turn) : Prop :=
  Forall (fun c => control_ok d c.1.2) (tn_controls t) /\ Forall (fun c => control_ok d c.1.2) (tn_controls' t) /\
  match tn_data t with Some (_, m, _, _) => push_ok m | None => True end.

Definition turn_pushed (d : SocketAddr) (t : Turn) : list bytes :=
  match tn_data t with Some (_, m, _, _) => pushed_to d m | None => [] end.

Lemma turn_spec st t d :
  worker_inv st -> turn_ok d t ->
  let '(st', es, stop) := fec_tx_turn st t in
  worker_inv st' /\ conserves st d (if stop then [] else turn_pushed d t) st' es /\ (stop = true -> encoders st' = ∅).
Proof.
  intros Hi (Hc & Hc' & Hd). unfold fec_tx_turn, turn_pushed.
  pose proof (run_controls_spec (tn_controls t) st d Hi Hc) as H1'. destruct (run_controls st (tn_controls t)) as [[st1 es1] stop1].
  destruct H1' as (Hi1 & C1 & S1). destruct stop1; [done|]. destruct (tn_flush t) as [[w req] now].
  set (r2 := if req =? 0 then _ else _).
  assert (H2' : worker_inv r2.1 /\ conserves st1 d [] r2.1 r2.2).
  { unfold r2. destruct (req =? 0); [split; [done|by apply conserves_same]|].
    pose proof (flush_due_spec w st1 (req =? 2) now d Hi1) as Hf. destruct (flush_due _ _ _ _). naive_solver. }
  destruct r2 as [st2 es2]. cbn [fst snd] in H2'. destruct H2' as [Hi2 C2].
  pose proof (conserves_trans _ _ _ _ [] [] _ _ C1 C2) as C12.
  destruct (tn_data t) as [[[[w2 m] salt] now2]|]; [|done].
  pose proof (run_controls_spec (tn_controls' t) st2 d Hi2 Hc') as H3'. destruct (run_controls st2 _) as [[st3 es3] stop3].
  destruct H3' as (Hi3 & C3 & S3). pose proof (conserves_trans _ _ _ _ [] [] _ _ C12 C3) as C123.
  rewrite <- app_assoc in C123. destruct stop3; [done|].
  pose proof (handle_push_spec w2 st3 m salt now2 d Hi3 Hd) as H4'. destruct (handle_push _ _ _ _ _) as [st4 es4].
  destruct H4' as [Hi4 C4]. split; [done|]. split; [|done].
  pose proof (conserves_trans _ _ _ _ [] _ _ _ C123 C4) as C. rewrite <- !app_assoc in C. exact C.
Qed.

(** Turns until the worker stops; the packets of the turns that ran to their end. *)
Fixpoint fec_tx_run (d : SocketAddr) (st : WorkerState) (ts : list Turn)
  : WorkerState * list FecTxEmit * list bytes * bool :=
  match ts with
  | [] => (st, [], [], false)
  | t :: ts =>
      let '(st, es, stop) := fec_tx_turn st t in
      if stop then (st, es, [], true)
      else
        let '(st, es', pkts, stop) := fec_tx_run d st ts in
        (st, es ++ es', turn_pushed d t ++ pkts, stop)
  end.

Lemma run_spec ts st d :
  worker_inv st -> Forall (turn_ok d) ts ->
  let '(st', es, pkts, stop) := fec_tx_run d st ts in
  worker_inv st' /\ conserves st d pkts st' es /\ (stop = true -> encoders st' = ∅).
Proof.
  intros Hi Hok. revert st Hi. induction Hok as [|t ts Ht _ IH]; intros st Hi; cbn [fec_tx_run].
  - split; [done|]. split; [by apply conserves_same|done].
  - pose proof (turn_spec st t d Hi Ht) as Hs. destruct (fec_tx_turn st t) as [[st1 es1] stop1].
    destruct Hs as (Hi1 & C1 & S1). destruct stop1; [done|]. specialize (IH st1 Hi1).
    destruct (fec_tx_run d st1 ts) as [[[st2 es2] pkts] stop2]. destruct IH as (Hi2 & C2 & S2).
    split; [done|]. split; [by eapply conserves_trans|done].
Qed.

End Conservation.

