(* ===== verification/FecRatio.v ===== *)
(** * Choice of the FEC ratio (src/net/fec.rs, [fec_send] of src/net/engine.rs)

    How much parity a destination gets: from its wire loss, with hysteresis, held back while the
    path is congested, stepped down after congestion, and not changed too often.  A ratio is the
    pair of data and parity shard counts; [(0, 0)] is off. *)

From S2P Require Import Prelude Float.

Definition adaptive_fec_ratio (loss_ewma : f64) : Z * Z :=
  if f_lt loss_ewma (f64_lit 2 100) then (0, 0)
  else if f_lt loss_ewma (f64_lit 5 100) then (10, 1)
  else if f_lt loss_ewma (f64_lit 1 10) then (7, 1)
  else if f_lt loss_ewma (f64_lit 15 100) then (5, 1)
  else (4, 2).

Definition ratio_on (r : Z * Z) : bool := (0 <? r.1) && (0 <? r.2).

Definition adaptive_fec_ratio_hyst_tuned (loss_ewma : f64) (prev : option (Z * Z)) (off_below on_above : f64) : Z * Z :=
  let was_on := match prev with Some r => ratio_on r | None => false end in
  if was_on then
    if f_lt loss_ewma off_below then (0, 0)
    else adaptive_fec_ratio (f_max loss_ewma (f64_add off_below (f64_lit 1 1000)))
  else if f_lt loss_ewma on_above then (0, 0)
  else adaptive_fec_ratio loss_ewma.

(** The sum of the two [u8] wraps. *)
Definition fec_frac (r : Z * Z) : f64 := f64_div (f64_of_Z r.2) (f64_of_Z (wrap 8 (r.1 + r.2))).

Definition f_abs (x : f64) : f64 := SFabs x.
Definition EPS : f64 := f64_lit 1 1000000000.

Definition fec_ratio_would_increase_parity (prev : option (Z * Z)) (proposed : Z * Z) : bool :=
  if negb (ratio_on proposed) then false
  else
    match prev with
    | None => true
    | Some prev =>
        if negb (ratio_on prev) then true
        else
          let prev_frac := fec_frac prev in
          let prop_frac := fec_frac proposed in
          f_lt (f64_add prev_frac EPS) prop_frac ||
          (f_lt (f_abs (f64_sub prop_frac prev_frac)) EPS && (prev.2 <? proposed.2))
    end.

Definition FEC_RATIO_LADDER : list (Z * Z) := [(4, 2); (5, 1); (7, 1); (10, 1)].

Definition fec_parity_frac (r : Z * Z) : f64 :=
  if (r.1 =? 0) || (r.2 =? 0) then f64_of_Z 0 else fec_frac r.

Definition fec_delay_is_congestive (queuing_delay_ms : f64) (target_queue_delay_ms : Z) (threshold : f64) : bool :=
  f_lt threshold (f64_div queuing_delay_ms (f64_of_Z (Z.max target_queue_delay_ms 1))).

(** The entry after [prev] on the ladder, when [prev] is on it. *)
Fixpoint ladder_next (prev : Z * Z) (l : list (Z * Z)) : option (Z * Z) :=
  match l with
  | [] => None
  | r :: l' => if bool_decide (r = prev) then Some (default (0, 0) (head l')) else ladder_next prev l'
  end.

Definition fec_ratio_step_down (prev : Z * Z) : Z * Z :=
  if (prev.1 =? 0) || (prev.2 =? 0) then (0, 0)
  else
    match ladder_next prev FEC_RATIO_LADDER with
    | Some r => r
    | None =>
        let bound := f64_sub (fec_parity_frac prev) EPS in
        default (0, 0) (List.find (fun r => f_lt (fec_parity_frac r) bound) FEC_RATIO_LADDER)
    end.

Definition fec_ratio_is_strictly_lower (a b : Z * Z) : bool :=
  if negb (ratio_on a) then ratio_on b
  else if negb (ratio_on b) then false
  else
    let fa := fec_parity_frac a in
    let fb := fec_parity_frac b in
    f_lt fa (f64_sub fb EPS) || (f_lt (f_abs (f64_sub fa fb)) EPS && (a.2 <? b.2)).

Definition apply_fec_loss_classifier (proposed : Z * Z) (ratio_last : option (Z * Z)) (enabled : bool)
    (queuing_delay_ms : f64) (target : Z) (threshold : f64) : bool * (Z * Z) :=
  if negb enabled then (false, proposed)
  else if negb (fec_delay_is_congestive queuing_delay_ms target threshold) then (false, proposed)
  else if negb (fec_ratio_would_increase_parity ratio_last proposed) then (false, proposed)
  else (true, default (0, 0) ratio_last).

Definition apply_fec_recovery_stepdown (proposed : Z * Z) (ratio_last : option (Z * Z)) (enabled : bool)
    (queuing_delay_ms : f64) (target : Z) (threshold : f64) (last_congestive_at : option Instant)
    (now : Instant) (recency : Duration) : bool * (Z * Z) :=
  if negb enabled || (recency =? 0) then (false, proposed)
  else
    match ratio_last with
    | None => (false, proposed)
    | Some prev =>
        if (prev.1 =? 0) || (prev.2 =? 0) then (false, proposed)
        else if fec_delay_is_congestive queuing_delay_ms target threshold then (false, proposed)
        else
          match last_congestive_at with
          | None => (false, proposed)
          | Some at_ =>
              if duration_since now at_ >? recency then (false, proposed)
              else if fec_ratio_is_strictly_lower proposed prev then (false, proposed)
              else
                let stepped := fec_ratio_step_down prev in
                if bool_decide (stepped = prev) then (false, proposed) else (true, stepped)
          end
    end.

(** ** Per-destination choice *)

Record PeerFecSendState := mkFecSend {
  ratio_last : option (Z * Z);
  ratio_last_change : option Instant;
  last_congestive_at : option Instant
}.
#[export] Instance eta_PeerFecSendState : Settable PeerFecSendState :=
  fun r => mkFecSend (ratio_last r) (ratio_last_change r) (last_congestive_at r).

Ltac fs_simpl := cbn [setter ratio_last ratio_last_change last_congestive_at] in *.

Record RatioConfig := mkRatioConfig {
  fec_forced_ratio : option (Z * Z);
  fec_adaptive_off_below : f64;
  fec_adaptive_on_above : f64;
  loss_classifier_enabled : bool;
  target_queue_delay_ms : Z;
  congestion_loss_threshold : f64;
  fec_recovery_recency_ms : Z
}.

Definition hold_window (prev next : Z * Z) : Duration :=
  let off_to_on := bool_decide (prev = (0, 0)) && ratio_on next in
  let on_to_off := bool_decide (next = (0, 0)) && ratio_on prev in
  if off_to_on || on_to_off then from_millis 2000 else from_millis 250.

Definition set_ratio (st : PeerFecSendState) (r : Z * Z) (now : Instant) : PeerFecSendState :=
  st <| ratio_last := Some r |> <| ratio_last_change := Some now |>.

(** The ratio for the next packet. *)
Definition choose_ratio (c : RatioConfig) (st : PeerFecSendState) (loss_ewma queuing_delay_ms : f64) (now : Instant)
  : PeerFecSendState * (Z * Z) :=
  let proposed :=
    match fec_forced_ratio c with
    | Some r => r
    | None => adaptive_fec_ratio_hyst_tuned loss_ewma (ratio_last st) (fec_adaptive_off_below c) (fec_adaptive_on_above c)
    end in
  let after_hold :=
    match fec_forced_ratio c with
    | Some _ => proposed
    | None => (apply_fec_loss_classifier proposed (ratio_last st) (loss_classifier_enabled c) queuing_delay_ms
                 (target_queue_delay_ms c) (congestion_loss_threshold c)).2
    end in
  let st :=
    if loss_classifier_enabled c &&
       fec_delay_is_congestive queuing_delay_ms (target_queue_delay_ms c) (congestion_loss_threshold c)
    then st <| last_congestive_at := Some now |> else st in
  let next :=
    match fec_forced_ratio c with
    | Some _ => after_hold
    | None => (apply_fec_recovery_stepdown after_hold (ratio_last st) (loss_classifier_enabled c) queuing_delay_ms
                 (target_queue_delay_ms c) (congestion_loss_threshold c) (last_congestive_at st) now
                 (from_millis (fec_recovery_recency_ms c))).2
    end in
  match fec_forced_ratio c with
  | Some _ => (set_ratio st next now, next)
  | None =>
      match ratio_last st with
      | None => (set_ratio st next now, next)
      | Some prev =>
          if bool_decide (prev = next) then (st, next)
          else
            let hold := match ratio_last_change st with
                        | Some t => duration_since now t <? hold_window prev next
                        | None => false
                        end in
            if hold then (st, prev) else (set_ratio st next now, next)
      end
  end.

(** ** Properties *)

(** Off, or one of the four adaptive ratios. *)
Definition adaptive (r : Z * Z) : Prop := r ∈ (0, 0) :: FEC_RATIO_LADDER.

Lemma adaptive_fec_ratio_adaptive x : adaptive (adaptive_fec_ratio x).
Proof. unfold adaptive_fec_ratio, adaptive, FEC_RATIO_LADDER. repeat case_match; set_solver. Qed.

Lemma hyst_adaptive loss prev off on : adaptive (adaptive_fec_ratio_hyst_tuned loss prev off on).
Proof.
  assert (Hz : adaptive (0, 0)) by (unfold adaptive; set_solver).
  unfold adaptive_fec_ratio_hyst_tuned. repeat case_match; try done; apply adaptive_fec_ratio_adaptive.
Qed.

(** A fact about adaptive ratios is checked on the five of them. *)
Lemma adaptive_forall (f : Z * Z -> bool) :
  forallb f ((0, 0) :: FEC_RATIO_LADDER) = true -> forall r, adaptive r -> f r = true.
Proof. intros Hf r Hr. rewrite forallb_forall in Hf. by apply Hf, list_elem_of_In. Qed.

Lemma step_down_adaptive r : adaptive r -> adaptive (fec_ratio_step_down r).
Proof.
  intros Hr. apply (adaptive_forall (fun r => bool_decide (adaptive (fec_ratio_step_down r)))) in Hr; [|by vm_compute].
  by apply bool_decide_eq_true in Hr.
Qed.

Lemma keep_not_increase r : adaptive r -> fec_ratio_would_increase_parity (Some r) r = false.
Proof.
  intros Hr. apply negb_true_iff. revert r Hr. apply adaptive_forall. by vm_compute.
Qed.

Definition last_adaptive (st : PeerFecSendState) : Prop := forall r, ratio_last st = Some r -> adaptive r.

Lemma classifier_cases proposed last enabled qd target thr :
  let r := (apply_fec_loss_classifier proposed last enabled qd target thr).2 in
  (r = proposed \/ r = default (0, 0) last) /\
  (enabled = true -> fec_delay_is_congestive qd target thr = true ->
   r = default (0, 0) last \/ fec_ratio_would_increase_parity last r = false).
Proof.
  unfold apply_fec_loss_classifier. destruct enabled; cbn [negb]; [|by split; [left|]].
  destruct (fec_delay_is_congestive _ _ _); cbn [negb]; [|by split; [left|]].
  destruct (fec_ratio_would_increase_parity last proposed) eqn:E; cbn [negb snd]; split; auto.
Qed.

Lemma stepdown_cases proposed last enabled qd target thr at_ now recency :
  let r := (apply_fec_recovery_stepdown proposed last enabled qd target thr at_ now recency).2 in
  r = proposed \/
  exists prev, last = Some prev /\ r = fec_ratio_step_down prev /\ enabled = true /\
               fec_delay_is_congestive qd target thr = false.
Proof.
  unfold apply_fec_recovery_stepdown. destruct enabled; cbn [negb orb]; [|by left].
  destruct (recency =? 0); [by left|]. destruct last as [prev|]; [|by left]. destruct (_ || _); [by left|].
  destruct (fec_delay_is_congestive _ _ _); [by left|]. destruct at_ as [t|]; [|by left].
  destruct (_ >? _); [by left|]. destruct (fec_ratio_is_strictly_lower _ _); [by left|].
  case_bool_decide; [by left|]. right. by exists prev.
Qed.

(** The adaptive choice for a destination stays on the ladder; while the path is congested (and the
    classifier is on) it never raises parity over the last ratio; and once a ratio was applied it is
    replaced no sooner than 250 ms after the change before, 2 s when FEC is switched on or off. *)
Theorem ratio_choice_spec (c : RatioConfig) (st : PeerFecSendState) (loss qd : f64) (now : Instant) :
  fec_forced_ratio c = None -> last_adaptive st ->
  let '(st', r) := choose_ratio c st loss qd now in
  adaptive r /\ last_adaptive st' /\
  (loss_classifier_enabled c = true ->
   fec_delay_is_congestive qd (target_queue_delay_ms c) (congestion_loss_threshold c) = true ->
   fec_ratio_would_increase_parity (ratio_last st) r = false) /\
  (forall prev t, ratio_last st = Some prev -> ratio_last_change st = Some t -> r <> prev ->
   duration_since now t >= hold_window prev r /\ ratio_last st' = Some r /\ ratio_last_change st' = Some now).
Proof.
  intros Hf Hl. unfold choose_ratio. rewrite Hf.
  set (proposed := adaptive_fec_ratio_hyst_tuned _ _ _ _).
  assert (Hp : adaptive proposed) by apply hyst_adaptive.
  destruct (classifier_cases proposed (ratio_last st) (loss_classifier_enabled c) qd (target_queue_delay_ms c)
              (congestion_loss_threshold c)) as [Hcl Hcong].
  set (after_hold := (apply_fec_loss_classifier _ _ _ _ _ _).2) in *.
  assert (Hz : adaptive (0, 0)) by (unfold adaptive; set_solver).
  assert (Ha : adaptive after_hold).
  { destruct Hcl as [->| ->]; [done|]. destruct (ratio_last st) eqn:E; [by apply Hl|done]. }
  set (st1 := if _ && _ then _ else st).
  assert (E1 : ratio_last st1 = ratio_last st /\ ratio_last_change st1 = ratio_last_change st)
    by (unfold st1; by destruct (_ && _)).
  destruct E1 as [E1 E2]. rewrite E1, E2.
  pose proof (stepdown_cases after_hold (ratio_last st) (loss_classifier_enabled c) qd (target_queue_delay_ms c)
    (congestion_loss_threshold c) (last_congestive_at st1) now (from_millis (fec_recovery_recency_ms c))) as Hst.
  set (next := (apply_fec_recovery_stepdown _ _ _ _ _ _ _ _ _).2) in *. cbn zeta in Hst.
  assert (Hna : adaptive next).
  { destruct Hst as [->|(prev & Hprev & -> & _)]; [done|]. by apply step_down_adaptive, Hl. }
  assert (Hkeep : fec_ratio_would_increase_parity (ratio_last st) (default (0, 0) (ratio_last st)) = false)
    by (destruct (ratio_last st) as [r|] eqn:E; [by apply keep_not_increase, Hl|done]).
  assert (Hnc : loss_classifier_enabled c = true ->
    fec_delay_is_congestive qd (target_queue_delay_ms c) (congestion_loss_threshold c) = true ->
    fec_ratio_would_increase_parity (ratio_last st) next = false).
  { intros He Hc. destruct Hst as [->|(prev & _ & _ & _ & Hno)]; [|congruence].
    destruct (Hcong He Hc) as [->|]; done. }
  clearbody next. destruct (ratio_last st) as [prev|] eqn:El; [|split; [done|split; [by intros ? [= <-]|done]]].
  case_bool_decide as Eq.
  { subst next. split; [done|]. split; [unfold last_adaptive; rewrite E1; by intros ? [= <-]|]. split; [done|].
    intros ? t [= <-]. done. }
  destruct (ratio_last_change st) as [t|] eqn:Et.
  - destruct (_ <? _) eqn:Eh.
    + split; [by apply Hl|]. split; [unfold last_adaptive; rewrite E1; intros ? [= <-]; by apply Hl|]. split; [done|].
      intros ? ? [= <-]. done.
    + split; [done|]. split; [by intros ? [= <-]|]. split; [done|]. intros ? ? [= <-] [= <-] _. breflect. split; [lia|done].
  - split; [done|]. split; [by intros ? [= <-]|]. split; [done|]. by intros ? ? _ ?.
Qed.

Definition sample_ratio_config : RatioConfig :=
  mkRatioConfig None (f64_lit 1 100) (f64_lit 3 100) true 30 (f64_lit 7 10) 1200.

(** Five percent loss, no congestion: FEC is switched on. *)
Lemma ratio_choice_spec_witness :
  let st := mkFecSend (Some (0, 0)) (Some 0) None in
  let '(st', r) := choose_ratio sample_ratio_config st (f64_lit 5 100) (f64_of_Z 1) (from_secs 3) in
  r = (7, 1) /\ adaptive r.
Proof.
  assert (Hl : last_adaptive (mkFecSend (Some (0, 0)) (Some 0) None)).
  { intros ? [= <-]. unfold adaptive. set_solver. }
  pose proof (ratio_choice_spec sample_ratio_config (mkFecSend (Some (0, 0)) (Some 0) None) (f64_lit 5 100) (f64_of_Z 1)
                (from_secs 3) eq_refl Hl) as Hw.
  assert (E : (choose_ratio sample_ratio_config (mkFecSend (Some (0, 0)) (Some 0) None) (f64_lit 5 100) (f64_of_Z 1)
                 (from_secs 3)).2 = (7, 1)) by (by vm_compute).
  cbv zeta. destruct (choose_ratio _ _ _ _ _) as [st' r]. destruct Hw as [Ha _]. by split.
Defined.

(** Every pair of counts that fits a group. *)
Definition all_ratios : list (Z * Z) :=
  d ← seqZ 1 63; p ← seqZ 1 (64 - d); [(d, p)].

Lemma all_ratios_elem d p : 1 <= d -> 1 <= p -> d + p <= 64 -> (d, p) ∈ all_ratios.
Proof.
  intros. unfold all_ratios. apply list_elem_of_bind. exists d. split; [|apply elem_of_seqZ; lia].
  apply list_elem_of_bind. exists p. split; [by apply list_elem_of_singleton|apply elem_of_seqZ; lia].
Qed.

(** A step down lowers the parity burden of every usable ratio, also of a forced one that is not
    on the ladder, and ends at off. *)
Theorem step_down_lowers (d p : Z) :
  1 <= d -> 1 <= p -> d + p <= 64 ->
  fec_ratio_is_strictly_lower (fec_ratio_step_down (d, p)) (d, p) = true /\
  fec_ratio_would_increase_parity (Some (d, p)) (fec_ratio_step_down (d, p)) = false.
Proof.
  intros Hd Hp Hs. pose proof (all_ratios_elem d p Hd Hp Hs) as Hin.
  assert (Hall : forallb (fun r => fec_ratio_is_strictly_lower (fec_ratio_step_down r) r &&
    negb (fec_ratio_would_increase_parity (Some r) (fec_ratio_step_down r))) all_ratios = true) by (by vm_compute).
  rewrite forallb_forall in Hall. apply list_elem_of_In, Hall in Hin. breflect. done.
Qed.

Lemma step_down_lowers_witness : fec_ratio_is_strictly_lower (fec_ratio_step_down (4, 2)) (4, 2) = true.
Proof. apply (step_down_lowers 4 2); lia. Defined.
