(* ===== verification/Pmtud.v ===== *)
(** * Path MTU discovery (src/pmtud.rs)

    Per peer, a search keeps the largest size known to get through ([last_good]) and the least size
    known not to ([first_bad]); probes are sent between them, acknowledged by the peer or timed out.
    The phases are those of the source; [PathMtuDiscovery] holds the peers, the configuration and
    the least [last_good] of all peers.  Sizes are whole IP packets.

    The theorems: the window is well formed in every reachable state; no search ever believes in a
    size the path does not carry, so that the sizes handed to the data plane fit every path; on a
    path that loses only what is too large the window always contains the path MTU, and a search
    that closes it has found the MTU up to the resolution. *)

From S2P Require Import Prelude Float Packet SizeLoss.

Definition DEFAULT_MTU : Z := 1220.
Definition MIN_MTU : Z := 576.
Definition MAX_MTU : Z := 1500.
Definition FIRST_BAD_SENTINEL : Z := MAX_MTU + 1.
Definition MIN_ADAPTER_PAYLOAD_MTU : Z := 280.
Definition REVALIDATE_HINT_COOLDOWN : Duration := from_secs 5.
Definition EARLY_WAKE_COOLDOWN : Duration := from_secs 10.
Definition ANOMALY_REARM_CAP : Duration := from_secs 5.
Definition ADAPTIVE_TIMEOUT_CAP : Duration := from_secs 5.

(** [Ipv4Addr::is_private]: 10/8, 172.16/12, 192.168/16. *)
Definition is_rfc1918_private_ip (ip : IpAddr) : bool :=
  match ip with
  | V4 a => (a / 2 ^ 24 =? 10) || (a / 2 ^ 20 =? 172 * 16 + 1) || (a / 2 ^ 16 =? 192 * 256 + 168)
  | V6 _ => false
  end.

Inductive Phase := Plateau | Raise | Binary | Revalidate | Recheck | DownSearch | Frozen.
#[export] Instance Phase_eq_dec : EqDecision Phase.
Proof. solve_decision. Defined.

Definition is_searching (p : Phase) : bool :=
  match p with Plateau | Frozen => false | _ => true end.

Record Inflight := mkInflight { if_probe_id : Z; if_size : Z; if_deadline : Instant; confirms_left : Z }.
Record GraceProbe := mkGrace { gr_probe_id : Z; gr_size : Z; gr_search_gen : Z; gr_deadline : Instant }.

Record PeerState := mkPeer {
  last_good : Z;
  first_bad : Z;
  stable : Z;
  phase : Phase;
  step : Z;
  inflight : option Inflight;
  search_gen : Z;
  probes_used : Z;
  consecutive_lower_campaigns : Z;
  next_raise_at : Instant;
  down_from_stable : option Z;
  last_revalidate_hint_at : option Instant;
  last_early_wake_at : option Instant;
  grace : option GraceProbe;
  downsearch_got_ack : bool;
  rtt_ms : f64;
  p_large_alive : bool;
  ever_acked : bool
}.
#[export] Instance eta_PeerState : Settable PeerState :=
  fun r => mkPeer (last_good r) (first_bad r) (stable r) (phase r) (step r) (inflight r) (search_gen r)
             (probes_used r) (consecutive_lower_campaigns r) (next_raise_at r) (down_from_stable r)
             (last_revalidate_hint_at r) (last_early_wake_at r) (grace r) (downsearch_got_ack r)
             (rtt_ms r) (p_large_alive r) (ever_acked r).

Definition new_peer (now : Instant) (raise_period : Duration) (raise_step : Z) : PeerState :=
  mkPeer DEFAULT_MTU FIRST_BAD_SENTINEL DEFAULT_MTU Plateau raise_step None 1 0 0 (now + raise_period)
    None None None None false (f64_of_Z (-1)) false false.

Definition window_closed (p : PeerState) (epsilon : Z) : bool :=
  sat_sub (first_bad p) (last_good p) <=? epsilon.

Definition next_gen (p : PeerState) : PeerState := p <| search_gen := wrap 32 (search_gen p + 1) |>.

Definition abort_inflight (p : PeerState) : PeerState :=
  next_gen (p <| inflight := None |> <| grace := None |>).

Record ProbeIntent := mkIntent { pi_peer : SocketAddr; pi_size : Z; pi_probe_id : Z; pi_search_gen : Z }.

Record PmtudEventCounts := mkEvents {
  probe_timeouts : Z;
  revalidate_fail_events : Z;
  recheck_recovered_events : Z;
  softdown_events : Z;
  probe_anomaly_events : Z;
  late_ack_events : Z;
  early_wake_events : Z
}.
#[export] Instance eta_PmtudEventCounts : Settable PmtudEventCounts :=
  fun r => mkEvents (probe_timeouts r) (revalidate_fail_events r) (recheck_recovered_events r)
             (softdown_events r) (probe_anomaly_events r) (late_ack_events r) (early_wake_events r).
Definition no_events : PmtudEventCounts := mkEvents 0 0 0 0 0 0 0.
Definition inc (n : Z) : Z := sat_add U64_MAX n 1.

Record PeerTickInput := mkTickInput { ti_addr : SocketAddr; ti_health : SizeHealth; ti_rtt_ms : f64 }.

Record PathMtuDiscovery := mkPmtud {
  peers : gmap SocketAddr PeerState;
  min_path_mtu : Z;
  pinned : option Z;
  probe_id_counter : Z;
  rr_cursor : Z;
  probe_timeout : Duration;
  confirm_count : Z;
  resolve_epsilon : Z;
  raise_step : Z;
  max_probes_per_search : Z;
  max_concurrent_peers : Z;
  stable_downgrade_batches : Z;
  raise_period : Duration
}.
#[export] Instance eta_PathMtuDiscovery : Settable PathMtuDiscovery :=
  fun r => mkPmtud (peers r) (min_path_mtu r) (pinned r) (probe_id_counter r) (rr_cursor r)
             (probe_timeout r) (confirm_count r) (resolve_epsilon r) (raise_step r)
             (max_probes_per_search r) (max_concurrent_peers r) (stable_downgrade_batches r) (raise_period r).

Ltac mtu_simpl :=
  cbn [setter last_good first_bad stable phase step inflight search_gen probes_used
       consecutive_lower_campaigns next_raise_at down_from_stable last_revalidate_hint_at
       last_early_wake_at grace downsearch_got_ack rtt_ms p_large_alive ever_acked
       peers min_path_mtu pinned probe_id_counter rr_cursor probe_timeout confirm_count
       resolve_epsilon raise_step max_probes_per_search max_concurrent_peers
       stable_downgrade_batches raise_period if_probe_id if_size if_deadline confirms_left
       gr_probe_id gr_size gr_search_gen gr_deadline fst snd] in *.

Record PmtudTuning := mkPmtudTuning {
  t_probe_timeout_ms : Z; t_confirm_count : Z; t_resolve_epsilon : Z; t_raise_step : Z;
  t_max_probes_per_search : Z; t_max_concurrent_peers : Z; t_stable_downgrade_batches : Z
}.

Definition new_pmtud : PathMtuDiscovery :=
  mkPmtud ∅ DEFAULT_MTU None 0 0 (from_millis 500) 3 4 32 64 4 4 (from_secs 60).

Definition clamp_size (sz : Z) : Z := clamp MIN_MTU MAX_MTU sz.

(** Each peer's clock reading is the time of the operation. *)
Definition apply_tuning (d : PathMtuDiscovery) (t : PmtudTuning) (now : Instant) : PathMtuDiscovery :=
  let d := d <| probe_timeout := from_millis (t_probe_timeout_ms t) |> <| confirm_count := t_confirm_count t |>
             <| resolve_epsilon := t_resolve_epsilon t |> <| raise_step := t_raise_step t |>
             <| max_probes_per_search := t_max_probes_per_search t |>
             <| max_concurrent_peers := t_max_concurrent_peers t |>
             <| stable_downgrade_batches := t_stable_downgrade_batches t |> in
  match pinned d with
  | Some _ => d
  | None =>
      d <| peers := (fun p =>
             let p := abort_inflight p <| step := raise_step d |> <| probes_used := 0 |> in
             if is_searching (phase p) then p <| phase := Plateau |> <| next_raise_at := now + raise_period d |>
             else p) <$> peers d |>
  end.

Definition set_raise_period (d : PathMtuDiscovery) (secs : Z) : PathMtuDiscovery :=
  d <| raise_period := from_secs (Z.max secs 1) |>.

Definition one_past (m : Z) : Z := Z.min (m + 1) FIRST_BAD_SENTINEL.

Definition set_pinned (d : PathMtuDiscovery) (path_mtu : option Z) (now : Instant) : PathMtuDiscovery :=
  match path_mtu with
  | Some m =>
      let m := clamp_size m in
      let d := d <| pinned := Some m |> <| min_path_mtu := m |> in
      d <| peers := (fun p =>
             abort_inflight p <| last_good := m |> <| stable := m |> <| first_bad := one_past m |>
               <| phase := Frozen |> <| probes_used := 0 |> <| next_raise_at := now + raise_period d |>
               <| down_from_stable := None |> <| downsearch_got_ack := false |>) <$> peers d |>
  | None =>
      let d := d <| pinned := None |> <| min_path_mtu := DEFAULT_MTU |> in
      d <| peers := (fun _ => new_peer now (raise_period d) (raise_step d)) <$> peers d |>
  end.

Definition path_mtu_from_adapter (adapter_mtu enc_overhead : Z) : Z :=
  clamp MIN_MTU MAX_MTU (clamp MIN_MTU MAX_MTU adapter_mtu + UNDERLAY_IPV4_UDP_OVERHEAD + enc_overhead).

(** The least [last_good], by folding over the map; the order does not matter for a minimum. *)
Definition min_last_good (_ : SocketAddr) (p : PeerState) (m : option Z) : option Z :=
  Some (match m with Some x => Z.min (last_good p) x | None => last_good p end).

Definition recalc_min (d : PathMtuDiscovery) : PathMtuDiscovery :=
  match pinned d with
  | Some m => d <| min_path_mtu := m |>
  | None => d <| min_path_mtu := default DEFAULT_MTU (map_fold min_last_good None (peers d)) |>
  end.

Definition remove_peer (d : PathMtuDiscovery) (a : SocketAddr) : PathMtuDiscovery :=
  match peers d !! a with
  | Some _ => recalc_min (d <| peers := delete a (peers d) |>)
  | None => d
  end.

Definition udp_payload_budget (d : PathMtuDiscovery) (a : SocketAddr) : Z :=
  sat_sub (match peers d !! a with Some p => last_good p | None => min_path_mtu d end) UNDERLAY_IPV4_UDP_OVERHEAD.

Definition suggested_adapter_mtu (d : PathMtuDiscovery) (enc_overhead : Z) : Z :=
  clamp MIN_ADAPTER_PAYLOAD_MTU MAX_MTU (sat_sub (min_path_mtu d) (UNDERLAY_IPV4_UDP_OVERHEAD + enc_overhead)).

Definition seed_plateau_at (d : PathMtuDiscovery) (a : SocketAddr) (mtu : Z) (now : Instant) : PathMtuDiscovery :=
  let st := default (new_peer now (raise_period d) (raise_step d)) (peers d !! a) in
  let m := clamp_size mtu in
  let st := st <| last_good := m |> <| stable := m |> <| first_bad := one_past m |> <| phase := Plateau |>
               <| next_raise_at := now |> <| inflight := None |> <| grace := None |> <| probes_used := 0 |> in
  recalc_min (d <| peers := <[a := st]> (peers d) |>).

(** The cooldown of a hint, and whether the peer can be woken. *)
Definition hint_cooling (last : option Instant) (cooldown : Duration) (now : Instant) : bool :=
  match last with Some prev => duration_since now prev <? cooldown | None => false end.

Definition request_revalidate (d : PathMtuDiscovery) (a : SocketAddr) (now : Instant) : PathMtuDiscovery * bool :=
  match pinned d, peers d !! a with
  | None, Some st =>
      if hint_cooling (last_revalidate_hint_at st) REVALIDATE_HINT_COOLDOWN now then (d, false)
      else if is_searching (phase st) then (d, false)
      else (d <| peers := <[a := st <| next_raise_at := now |> <| last_revalidate_hint_at := Some now |>]> (peers d) |>, true)
  | _, _ => (d, false)
  end.

Definition request_early_wake (d : PathMtuDiscovery) (a : SocketAddr) (now : Instant) : PathMtuDiscovery * bool :=
  match pinned d, peers d !! a with
  | None, Some st =>
      if hint_cooling (last_early_wake_at st) EARLY_WAKE_COOLDOWN now then (d, false)
      else if is_searching (phase st) then (d, false)
      else (d <| peers := <[a := st <| next_raise_at := now |> <| last_early_wake_at := Some now |>]> (peers d) |>, true)
  | _, _ => (d, false)
  end.

(** The earliest of the deadlines of one peer and [next]. *)
Definition peer_deadline (now : Instant) (_ : SocketAddr) (p : PeerState) (next : Instant) : Instant :=
  let next := match inflight p with Some i => Z.min next (if_deadline i) | None => next end in
  let next := match grace p with Some g => Z.min next (gr_deadline g) | None => next end in
  if is_searching (phase p) then Z.min next now else Z.min next (next_raise_at p).

(** Both branches of the source's final test return this value. *)
Definition next_deadline (d : PathMtuDiscovery) (now : Instant) : Instant :=
  map_fold (peer_deadline now) (now + raise_period d) (peers d).

Definition needs_fast_tick (d : PathMtuDiscovery) : bool :=
  existsb (fun kv : SocketAddr * PeerState =>
    bool_decide (is_Some (inflight kv.2)) || bool_decide (is_Some (grace kv.2)) || is_searching (phase kv.2) ||
    bool_decide (phase kv.2 = Frozen /\ inflight kv.2 = None)) (map_to_list (peers d)).

(** ** Steps of one peer *)

Definition next_probe_id (d : PathMtuDiscovery) : PathMtuDiscovery * Z :=
  let n := wrap 32 (probe_id_counter d + 1) in (d <| probe_id_counter := n |>, n).

Definition put (d : PathMtuDiscovery) (a : SocketAddr) (p : PeerState) : PathMtuDiscovery :=
  d <| peers := <[a := p]> (peers d) |>.

Definition ensure_peer (d : PathMtuDiscovery) (a : SocketAddr) (now : Instant) : PathMtuDiscovery :=
  match peers d !! a with
  | Some _ => d
  | None =>
      let st := new_peer now (raise_period d) (raise_step d) in
      put d a (match pinned d with
               | Some m => st <| last_good := m |> <| stable := m |> <| first_bad := one_past m |> <| phase := Frozen |>
               | None => st
               end)
  end.

Definition timeout_for_peer (d : PathMtuDiscovery) (p : PeerState) : Duration :=
  let floor := probe_timeout d in
  if f_lt (rtt_ms p) (f64_of_Z 0) then floor
  else
    let adaptive_ms := f_round_to_uint U64_MAX (f64_mul (f64_of_Z 4) (rtt_ms p)) in
    from_millis (Z.min (Z.max adaptive_ms (as_millis floor)) (as_millis ADAPTIVE_TIMEOUT_CAP)).

Definition raise_target (p : PeerState) : option Z :=
  if last_good p >=? MAX_MTU then None
  else
    let hi := Z.min (sat_sub (first_bad p) 1) MAX_MTU in
    if hi <=? last_good p then None
    else
      let t := Z.min (wrap 64 (last_good p + step p)) hi in
      if t >? last_good p then Some t else None.

Definition binary_target (p : PeerState) : option Z :=
  let lo := last_good p in
  let hi := first_bad p in
  if hi <=? lo + 1 then None
  else
    let mid := lo + (hi - lo) / 2 in
    if (mid >? lo) && (mid <? hi) then Some (clamp_size mid) else None.

Definition enter_frozen (p : PeerState) (now : Instant) (period : Duration) : PeerState :=
  p <| inflight := None |> <| grace := None |> <| phase := Frozen |> <| next_raise_at := now + period |>
    <| probes_used := 0 |>.

Definition enter_plateau (p : PeerState) (now : Instant) (period : Duration) (rstep batches : Z) : PeerState :=
  let p := p <| inflight := None |> <| grace := None |> <| phase := Plateau |> <| next_raise_at := now + period |>
             <| probes_used := 0 |> <| step := rstep |> in
  match down_from_stable p with
  | None => p
  | Some from =>
      let p := p <| down_from_stable := None |> in
      if last_good p <? from then
        let p := p <| consecutive_lower_campaigns := sat_add U8_MAX (consecutive_lower_campaigns p) 1 |> in
        if consecutive_lower_campaigns p >=? batches
        then p <| stable := last_good p |> <| consecutive_lower_campaigns := 0 |> else p
      else p <| consecutive_lower_campaigns := 0 |>
  end.

Definition finish_downsearch_plateau (p : PeerState) (now : Instant) (period : Duration) (rstep batches : Z) : PeerState :=
  let p := if downsearch_got_ack p then p else p <| first_bad := FIRST_BAD_SENTINEL |> in
  enter_plateau p now period rstep batches.

Definition maybe_budget_freeze (p : PeerState) (now : Instant) (period : Duration) (max_probes : Z) : PeerState * bool :=
  if bool_decide (phase p = Recheck) then (p, false)
  else if probes_used p >=? max_probes then (enter_frozen p now period, true) else (p, false).

Definition begin_probe (p : PeerState) (probe_id size : Z) (deadline : Instant) (confirms : Z) : PeerState :=
  p <| grace := None |> <| inflight := Some (mkInflight probe_id (clamp_size size) deadline confirms) |>
    <| probes_used := sat_add U32_MAX (probes_used p) 1 |>.

Definition soft_down_last_good (p : PeerState) : Z :=
  if last_good p <? stable p then Z.max MIN_MTU (last_good p / 2) else Z.max MIN_MTU (stable p / 2).

Definition soft_down_peer (d : PathMtuDiscovery) (a : SocketAddr) (p : PeerState) (now : Instant) : PeerState :=
  let new_lg := soft_down_last_good p in
  let new_lg := if is_rfc1918_private_ip (sa_ip a) && negb (ever_acked p) then Z.max new_lg DEFAULT_MTU else new_lg in
  let p := p <| first_bad := Z.max (stable p) (new_lg + 1) |> <| last_good := new_lg |>
             <| down_from_stable := Some (stable p) |> <| downsearch_got_ack := false |> <| phase := DownSearch |>
             <| probes_used := 0 |> <| step := raise_step d |> in
  let p := next_gen p <| inflight := None |> <| grace := None |> in
  if window_closed p (resolve_epsilon d)
  then finish_downsearch_plateau p now (raise_period d) (raise_step d) (stable_downgrade_batches d) else p.

Definition apply_soft_down (d : PathMtuDiscovery) (a : SocketAddr) (now : Instant) (ev : PmtudEventCounts)
  : PathMtuDiscovery * PmtudEventCounts :=
  match peers d !! a with
  | None => (d, ev)
  | Some p =>
      (recalc_min (put d a (soft_down_peer d a p now)), ev <| softdown_events := inc (softdown_events ev) |>)
  end.

Definition heal_peer (rstep : Z) (now : Instant) (p : PeerState) : PeerState :=
  next_gen (p <| last_good := DEFAULT_MTU |> <| stable := DEFAULT_MTU |> <| first_bad := FIRST_BAD_SENTINEL |>
    <| inflight := None |> <| grace := None |>)
    <| phase := Plateau |> <| next_raise_at := now |> <| probes_used := 0 |> <| step := rstep |>
    <| down_from_stable := None |> <| downsearch_got_ack := false |> <| consecutive_lower_campaigns := 0 |>.

Definition needs_heal (a : SocketAddr) (p : PeerState) : bool :=
  is_rfc1918_private_ip (sa_ip a) && negb (ever_acked p) && (last_good p <? DEFAULT_MTU).

Definition heal_unacked_private_floor (d : PathMtuDiscovery) (now : Instant) : PathMtuDiscovery :=
  let healed := existsb (fun kv : SocketAddr * PeerState => needs_heal kv.1 kv.2) (map_to_list (peers d)) in
  let d := d <| peers := map_imap (fun a p => Some (if needs_heal a p then heal_peer (raise_step d) now p else p)) (peers d) |> in
  if healed then recalc_min d else d.

Definition anomaly_peer (d : PathMtuDiscovery) (p : PeerState) (now : Instant) : PeerState :=
  p <| inflight := None |> <| grace := None |> <| phase := Plateau |> <| probes_used := 0 |> <| step := raise_step d |>
    <| next_raise_at := now + Z.min (raise_period d) ANOMALY_REARM_CAP |>.

Definition apply_anomaly (d : PathMtuDiscovery) (a : SocketAddr) (now : Instant) (ev : PmtudEventCounts)
  : PathMtuDiscovery * PmtudEventCounts :=
  match peers d !! a with
  | None => (d, ev)
  | Some p => (put d a (anomaly_peer d p now), ev <| probe_anomaly_events := inc (probe_anomaly_events ev) |>)
  end.

Definition recheck_peer (p : PeerState) : PeerState :=
  next_gen (p <| inflight := None |> <| grace := None |> <| phase := Recheck |> <| probes_used := 0 |>).

Definition enter_recheck (d : PathMtuDiscovery) (a : SocketAddr) (ev : PmtudEventCounts)
  : PathMtuDiscovery * PmtudEventCounts :=
  match peers d !! a with
  | None => (d, ev)
  | Some p => (put d a (recheck_peer p), ev <| revalidate_fail_events := inc (revalidate_fail_events ev) |>)
  end.

(** The window after a size failed: close the search, or go on unless the budget is used up. *)
Definition close_or_freeze (d : PathMtuDiscovery) (p : PeerState) (now : Instant) : PeerState :=
  if window_closed p (resolve_epsilon d) then
    if bool_decide (phase p = DownSearch)
    then finish_downsearch_plateau p now (raise_period d) (raise_step d) (stable_downgrade_batches d)
    else enter_plateau p now (raise_period d) (raise_step d) (stable_downgrade_batches d)
  else (maybe_budget_freeze p now (raise_period d) (max_probes_per_search d)).1.

Definition apply_timeout_confirmed_fail (d : PathMtuDiscovery) (a : SocketAddr) (size : Z) (now : Instant)
    (ev : PmtudEventCounts) : PathMtuDiscovery * PmtudEventCounts :=
  match peers d !! a with
  | None => (d, ev)
  | Some p =>
      let sz := clamp_size size in
      match phase p with
      | Raise =>
          (put d a (close_or_freeze d (p <| inflight := None |> <| first_bad := sz |> <| step := raise_step d |>
                                         <| phase := Binary |>) now), ev)
      | Binary | DownSearch =>
          (put d a (close_or_freeze d (p <| inflight := None |> <| first_bad := Z.min sz (first_bad p) |>) now), ev)
      | Revalidate => if p_large_alive p then apply_anomaly d a now ev else enter_recheck d a ev
      | Recheck => apply_soft_down d a now ev
      | Plateau | Frozen => (d, ev)
      end
  end.

(** The size the next probe of the peer has, or the state it moves to instead. *)
Definition probe_size (d : PathMtuDiscovery) (p : PeerState) (now : Instant) : option Z + PeerState :=
  match phase p with
  | Raise => inl (raise_target p)
  | Binary | DownSearch =>
      if window_closed p (resolve_epsilon d) then
        inr (if bool_decide (phase p = DownSearch)
             then finish_downsearch_plateau p now (raise_period d) (raise_step d) (stable_downgrade_batches d)
             else enter_plateau p now (raise_period d) (raise_step d) (stable_downgrade_batches d))
      else inl (binary_target p)
  | Revalidate | Recheck => inl (Some (clamp_size (stable p)))
  | Plateau | Frozen => inl None
  end.

Definition busy (p : PeerState) : bool := bool_decide (is_Some (inflight p)) || bool_decide (is_Some (grace p)).

Definition issue_probe (d : PathMtuDiscovery) (a : SocketAddr) (now : Instant) : PathMtuDiscovery * option ProbeIntent :=
  match peers d !! a with
  | None => (d, None)
  | Some p =>
      let timeout := timeout_for_peer d p in
      if busy p then (d, None)
      else
        let '(p, frozen) := maybe_budget_freeze p now (raise_period d) (max_probes_per_search d) in
        if frozen then (put d a p, None)
        else
          match probe_size d p now with
          | inr p => (put d a p, None)
          | inl None => (d, None)
          | inl (Some size) =>
              let '(d, id) := next_probe_id d in
              (put d a (begin_probe p id size (now + timeout) (confirm_count d)),
               Some (mkIntent a size id (search_gen p)))
          end
  end.

Definition on_timeout (d : PathMtuDiscovery) (a : SocketAddr) (now : Instant) (ev : PmtudEventCounts)
  : PathMtuDiscovery * PmtudEventCounts * option ProbeIntent :=
  match peers d !! a with
  | None => (d, ev, None)
  | Some p =>
      let timeout := timeout_for_peer d p in
      match inflight p with
      | None => (d, ev, None)
      | Some inf =>
          let p := p <| inflight := None |> in
          let ev := ev <| probe_timeouts := inc (probe_timeouts ev) |> in
          if confirms_left inf >? 1 then
            let p := if bool_decide (phase p = Recheck) then p
                     else p <| probes_used := sat_add U32_MAX (probes_used p) 1 |> in
            if negb (bool_decide (phase p = Recheck)) && (probes_used p >=? max_probes_per_search d)
            then (put d a (enter_frozen p now (raise_period d)), ev, None)
            else
              let '(d, id) := next_probe_id d in
              (put d a (p <| inflight := Some (mkInflight id (if_size inf) (now + timeout) (confirms_left inf - 1)) |>),
               ev, Some (mkIntent a (if_size inf) id (search_gen p)))
          else if bool_decide (phase p = Revalidate) || bool_decide (phase p = Recheck) then
            (put d a (p <| grace := Some (mkGrace (if_probe_id inf) (if_size inf) (search_gen p) (now + timeout)) |>), ev, None)
          else
            let '(d, ev) := apply_timeout_confirmed_fail (put d a p) a (if_size inf) now ev in (d, ev, None)
      end
  end.

Definition note_input (now : Instant) (d : PathMtuDiscovery) (i : PeerTickInput) : PathMtuDiscovery :=
  let d := ensure_peer d (ti_addr i) now in
  match peers d !! ti_addr i with
  | None => d
  | Some st =>
      put d (ti_addr i) (st <| rtt_ms := ti_rtt_ms i |>
                            <| p_large_alive := warm (ti_health i) && large_alive (ti_health i) |>)
  end.

Definition grace_expired (now : Instant) (p : PeerState) : bool :=
  match grace p with Some g => gr_deadline g <=? now | None => false end.

Definition expire_grace (now : Instant) (st : PathMtuDiscovery * PmtudEventCounts) (a : SocketAddr)
  : PathMtuDiscovery * PmtudEventCounts :=
  let '(d, ev) := st in
  let size := match peers d !! a with
              | Some p => match grace p with Some g => gr_size g | None => MIN_MTU end
              | None => MIN_MTU
              end in
  let d := match peers d !! a with Some p => put d a (p <| grace := None |>) | None => d end in
  apply_timeout_confirmed_fail d a size now (ev <| probe_timeouts := inc (probe_timeouts ev) |>).

Definition timed_out (now : Instant) (p : PeerState) : bool :=
  match inflight p with Some i => (if_deadline i <=? now) && negb (if_probe_id i =? 0) | None => false end.

Definition expire_probe (now : Instant) (st : PathMtuDiscovery * PmtudEventCounts * list ProbeIntent) (a : SocketAddr)
  : PathMtuDiscovery * PmtudEventCounts * list ProbeIntent :=
  let '(d, ev, intents) := st in
  let '(d, ev, o) := on_timeout d a now ev in
  (d, ev, match o with Some i => intents ++ [i] | None => intents end).

(** Plateau and Frozen peers whose time has come start a search. *)
Definition start_search (rstep : Z) (now : Instant) (p : PeerState) : PeerState :=
  if negb (is_searching (phase p)) && (next_raise_at p <=? now) then
    let p' := next_gen (p <| probes_used := 0 |> <| step := rstep |>) in
    let p' := if bool_decide (phase p = Frozen) then p' <| next_raise_at := now |> else p' in
    p' <| phase := if bool_decide (is_Some (raise_target p')) then Raise else Revalidate |>
  else p.

Definition start_one (now : Instant) (d : PathMtuDiscovery) (a : SocketAddr) : PathMtuDiscovery :=
  match peers d !! a with
  | Some p => if busy p then d else put d a (start_search (raise_step d) now p)
  | None => d
  end.

Definition wants_probe (p : PeerState) : bool :=
  if busy p then false
  else
    match phase p with
    | Raise => bool_decide (is_Some (raise_target p))
    | Binary | DownSearch => bool_decide (is_Some (binary_target p))
    | Revalidate | Recheck => true
    | Plateau | Frozen => false
    end.

(** Probes in round-robin order from the cursor, until [cap] were issued. *)
Fixpoint issue_round (now : Instant) (d : PathMtuDiscovery) (order : list SocketAddr) (cap issued : Z)
    (intents : list ProbeIntent) : PathMtuDiscovery * Z * list ProbeIntent :=
  match order with
  | [] => (d, issued, intents)
  | a :: order =>
      if issued >=? cap then (d, issued, intents)
      else
        let '(d, o) := issue_probe d a now in
        match o with
        | Some i => issue_round now d order cap (issued + 1) (intents ++ [i])
        | None => issue_round now d order cap issued intents
        end
  end.

Section Iteration.
Context `{HashIter}.

(** The peers, in the order of the map, for which [f] holds. *)
Definition peers_where (f : PeerState -> bool) (d : PathMtuDiscovery) : list SocketAddr :=
  (filter (fun kv : SocketAddr * PeerState => f kv.2 = true) (hm_iter (peers d))).*1.

Definition drop_stale (d : PathMtuDiscovery) (active : list SocketAddr) : PathMtuDiscovery :=
  let kept := retain (fun a _ => bool_decide (a ∈ active)) (peers d) in
  if (size kept <? size (peers d))%nat then recalc_min (d <| peers := kept |>) else d.

Definition on_tick (d : PathMtuDiscovery) (now : Instant) (inputs : list PeerTickInput)
  : PathMtuDiscovery * list ProbeIntent * PmtudEventCounts :=
  match pinned d with
  | Some _ => (d, [], no_events)
  | None =>
      let eps := ti_addr <$> inputs in
      let d := drop_stale (heal_unacked_private_floor d now) eps in
      let d := foldl (note_input now) d inputs in
      let '(d, ev) := foldl (expire_grace now) (d, no_events) (peers_where (grace_expired now) d) in
      let '(d, ev, intents) := foldl (expire_probe now) (d, ev, []) (peers_where (timed_out now) d) in
      let d := foldl (start_one now) d eps in
      let want := filter (fun a => match peers d !! a with Some p => wants_probe p | None => false end = true) eps in
      match want with
      | [] => (d, intents, ev)
      | _ =>
          let n := len want in
          let cap := Z.min (sat_sub (max_concurrent_peers d) (len intents)) n in
          let d := if rr_cursor d >=? n then d <| rr_cursor := 0 |> else d in
          let k := Z.to_nat (rr_cursor d) in
          let '(d, issued, intents) := issue_round now d (drop k want ++ take k want) cap 0 intents in
          (d <| rr_cursor := wrap 64 (rr_cursor d + Z.max issued 1) |>, intents, ev)
      end
  end.

(** ** Acknowledgements *)

Definition inflight_matches (p : PeerState) (id gen sz : Z) : bool :=
  match inflight p with
  | Some i => (search_gen p =? gen) && negb (if_probe_id i =? 0) && (if_probe_id i =? id) && (if_size i =? sz)
  | None => false
  end.

Definition grace_matches (p : PeerState) (id gen sz : Z) (now : Instant) : bool :=
  match inflight p, grace p with
  | None, Some g => (gr_probe_id g =? id) && (gr_search_gen g =? gen) && (gr_size g =? sz) && (now <=? gr_deadline g)
  | _, _ => false
  end.

(** The peer an acknowledgement is for: the address itself, or the only peer of the same IP whose
    outstanding probe it answers. *)
Definition resolve_peer (d : PathMtuDiscovery) (from : SocketAddr) (id gen sz : Z) (now : Instant) : option SocketAddr :=
  match peers d !! from with
  | Some _ => Some from
  | None =>
      match filter (fun kv : SocketAddr * PeerState =>
              sa_ip kv.1 = sa_ip from /\ inflight_matches kv.2 id gen sz || grace_matches kv.2 id gen sz now = true)
              (hm_iter (peers d)) with
      | [(a, _)] => Some a
      | _ => None
      end
  end.

Definition raise_stable (p : PeerState) : PeerState :=
  if last_good p >? stable p then p <| stable := last_good p |> <| consecutive_lower_campaigns := 0 |> else p.

(** The peer after its probe of size [sz] was acknowledged. *)
Definition acked_peer (d : PathMtuDiscovery) (p : PeerState) (sz : Z) (now : Instant) : PeerState :=
  let plateau p := enter_plateau p now (raise_period d) (raise_step d) (stable_downgrade_batches d) in
  match phase p with
  | Raise =>
      let p := raise_stable (p <| last_good := sz |>) in
      let p := p <| step := Z.max (sat_mul U64_MAX (step p) 2) (raise_step d) |> in
      match raise_target p with
      | Some _ => p
      | None => plateau (if last_good p >=? MAX_MTU then p <| first_bad := FIRST_BAD_SENTINEL |> else p)
      end
  | Binary =>
      let p := raise_stable (p <| last_good := Z.max sz (last_good p) |>) in
      if window_closed p (resolve_epsilon d) then plateau p else p
  | Revalidate | Recheck => plateau p
  | DownSearch =>
      let p := p <| last_good := Z.max sz (last_good p) |> <| downsearch_got_ack := true |> in
      if window_closed p (resolve_epsilon d)
      then finish_downsearch_plateau p now (raise_period d) (raise_step d) (stable_downgrade_batches d) else p
  | Plateau | Frozen => p
  end.

(** Accepted, the path minimum changed, events. *)
Definition on_ack (d : PathMtuDiscovery) (from : SocketAddr) (sz0 id gen : Z) (now : Instant)
  : PathMtuDiscovery * (bool * bool * PmtudEventCounts) :=
  let refused := (d, (false, false, no_events)) in
  match pinned d with
  | Some _ => refused
  | None =>
      let sz := clamp_size sz0 in
      match resolve_peer d from id gen sz now with
      | None => refused
      | Some a =>
          match peers d !! a with
          | None => refused
          | Some p =>
              match inflight p with
              | None =>
                  if grace_matches p id gen sz now then
                    let p' := enter_plateau (p <| grace := None |> <| ever_acked := true |>) now (raise_period d)
                                (raise_step d) (stable_downgrade_batches d) in
                    (recalc_min (put d a p'),
                     (true, false, no_events <| late_ack_events := 1 |>
                        <| recheck_recovered_events := if bool_decide (phase p = Recheck) then 1 else 0 |>))
                  else refused
              | Some _ =>
                  if inflight_matches p id gen sz then
                    let old_min := min_path_mtu d in
                    let p0 := p <| inflight := None |> <| grace := None |> <| ever_acked := true |> in
                    let d := recalc_min (put d a (acked_peer d p0 sz now)) in
                    (d, (true, negb (min_path_mtu d =? old_min),
                         no_events <| recheck_recovered_events := if bool_decide (phase p = Recheck) then 1 else 0 |>))
                  else refused
              end
          end
      end
  end.

Definition on_send_hard_fail (d : PathMtuDiscovery) (a : SocketAddr) (id : Z) (now : Instant)
  : PathMtuDiscovery * PmtudEventCounts :=
  match pinned d, peers d !! a with
  | None, Some p =>
      match inflight p with
      | None => (d, no_events)
      | Some inf =>
          if negb (if_probe_id inf =? id) || (if_probe_id inf =? 0) then (d, no_events)
          else
            match phase p with
            | Revalidate | Recheck =>
                let ev := if bool_decide (phase p = Revalidate) then no_events <| revalidate_fail_events := 1 |> else no_events in
                apply_soft_down (put d a (p <| inflight := None |> <| grace := None |>)) a now ev
            | _ => apply_timeout_confirmed_fail d a (if_size inf) now no_events
            end
      end
  | _, _ => (d, no_events)
  end.

End Iteration.

(** ** What the search believes

    [X] is the path MTU of the peer, capped at the largest probe.  [B] says that the path loses
    nothing that fits: then the window also stays above it. *)

Definition between (p : PeerState) : bool :=
  match phase p with Raise | Binary | DownSearch => true | _ => false end.
Definition at_stable (p : PeerState) : bool :=
  match phase p with Revalidate | Recheck => true | _ => false end.

Definition peer_ok (X : Z) (B : bool) (p : PeerState) : Prop :=
  MIN_MTU <= last_good p <= X /\ last_good p < first_bad p <= FIRST_BAD_SENTINEL /\
  MIN_MTU <= stable p <= X /\ (B = true -> X < first_bad p) /\
  (forall i, inflight p = Some i -> MIN_MTU <= if_size i <= MAX_MTU /\
     (between p = true -> last_good p < if_size i < first_bad p) /\ (at_stable p = true -> if_size i = stable p)) /\
  (forall g, grace p = Some g -> at_stable p = true /\ gr_size g = stable p) /\
  (is_searching (phase p) = false -> inflight p = None /\ grace p = None).

Section Peer.
Context (X : Z) (B : bool) (HX : DEFAULT_MTU <= X <= MAX_MTU).

Lemma sizes : MIN_MTU = 576 /\ DEFAULT_MTU = 1220 /\ MAX_MTU = 1500 /\ FIRST_BAD_SENTINEL = 1501.
Proof. done. Qed.

Ltac sz := pose proof sizes as (?Emin & ?Edef & ?Emax & ?Esen).

(** A peer with nothing outstanding needs only its window. *)
Lemma idle_ok p :
  MIN_MTU <= last_good p <= X -> last_good p < first_bad p <= FIRST_BAD_SENTINEL -> MIN_MTU <= stable p <= X ->
  (B = true -> X < first_bad p) -> inflight p = None -> grace p = None -> peer_ok X B p.
Proof. intros H1 H2 H3 H4 Hi Hg. unfold peer_ok. rewrite Hi, Hg. by split_and!; try lia. Qed.

Lemma new_peer_ok now period rstep : peer_ok X B (new_peer now period rstep).
Proof. sz. apply idle_ok; try done; unfold new_peer; mtu_simpl; lia. Qed.

Lemma ok_window p : peer_ok X B p ->
  MIN_MTU <= last_good p <= X /\ last_good p < first_bad p <= FIRST_BAD_SENTINEL /\ MIN_MTU <= stable p <= X /\
  (B = true -> X < first_bad p).
Proof. unfold peer_ok. tauto. Qed.

Lemma enter_frozen_ok p now period : peer_ok X B p -> peer_ok X B (enter_frozen p now period).
Proof. intros (H1 & H2 & H3 & H4)%ok_window. by apply idle_ok. Qed.

(** Only the window matters for a peer that goes to rest. *)
Lemma plateau_ok p now period rstep batches :
  MIN_MTU <= last_good p <= X -> last_good p < first_bad p <= FIRST_BAD_SENTINEL -> MIN_MTU <= stable p <= X ->
  (B = true -> X < first_bad p) -> peer_ok X B (enter_plateau p now period rstep batches).
Proof.
  intros H1 H2 H3 H4. unfold enter_plateau. mtu_simpl.
  destruct (down_from_stable p) as [from|]; [|by apply idle_ok]. destruct (_ <? _); [|by apply idle_ok].
  destruct (_ >=? _); by apply idle_ok.
Qed.

Lemma finish_down_ok p now period rstep batches :
  MIN_MTU <= last_good p <= X -> last_good p < first_bad p <= FIRST_BAD_SENTINEL -> MIN_MTU <= stable p <= X ->
  (B = true -> X < first_bad p) -> peer_ok X B (finish_downsearch_plateau p now period rstep batches).
Proof.
  intros H1 H2 H3 H4. sz. unfold finish_downsearch_plateau. destruct (downsearch_got_ack p); apply plateau_ok; try done;
    mtu_simpl; lia.
Qed.

Lemma clamp_size_range s : MIN_MTU <= clamp_size s <= MAX_MTU.
Proof. apply clamp_bounds. sz. lia. Qed.

Lemma clamp_size_id s : MIN_MTU <= s <= MAX_MTU -> clamp_size s = s.
Proof. apply clamp_id. Qed.

Lemma budget_freeze_ok p now period max : peer_ok X B p -> peer_ok X B (maybe_budget_freeze p now period max).1.
Proof.
  intros Hp. unfold maybe_budget_freeze. case_bool_decide; [done|]. destruct (_ >=? _); [by apply enter_frozen_ok|done].
Qed.

Lemma close_or_freeze_ok d p now : peer_ok X B p -> peer_ok X B (close_or_freeze d p now).
Proof.
  intros Hp. pose proof Hp as (H1 & H2 & H3 & H4)%ok_window. unfold close_or_freeze. destruct (window_closed _ _).
  - case_bool_decide; [by apply finish_down_ok|by apply plateau_ok].
  - by apply budget_freeze_ok.
Qed.

Lemma soft_down_ok d a p now :
  MIN_MTU <= last_good p <= X -> MIN_MTU <= stable p <= X -> B = false -> peer_ok X B (soft_down_peer d a p now).
Proof.
  intros H1 H3 HB. sz. unfold soft_down_peer. set (lg := if _ && _ then _ else _).
  assert (Hlg : MIN_MTU <= lg <= X).
  { unfold lg, soft_down_last_good. destruct (_ <? _), (_ && _); Z.to_euclidean_division_equations; lia. }
  clearbody lg. destruct (window_closed _ _).
  - apply finish_down_ok; mtu_simpl; unfold next_gen; mtu_simpl; try lia; intros; congruence.
  - apply idle_ok; unfold next_gen; mtu_simpl; try done; try lia; intros; congruence.
Qed.

Lemma heal_ok rstep now p : peer_ok X B (heal_peer rstep now p).
Proof. sz. apply idle_ok; try done; unfold heal_peer, next_gen; mtu_simpl; lia. Qed.

Lemma window_kept p p' :
  peer_ok X B p -> last_good p' = last_good p -> first_bad p' = first_bad p -> stable p' = stable p ->
  inflight p' = None -> grace p' = None -> peer_ok X B p'.
Proof.
  intros (H1 & H2 & H3 & H4)%ok_window E1 E2 E3 E4 E5. apply idle_ok; rewrite ?E1, ?E2, ?E3; done.
Qed.
Lemma raise_target_spec p t :
  0 <= last_good p -> raise_target p = Some t -> last_good p < t /\ t < first_bad p /\ t <= MAX_MTU.
Proof.
  intros H0. unfold raise_target. destruct (_ >=? _); [done|]. destruct (_ <=? _) eqn:E1; [done|].
  destruct (_ >? _) eqn:E2; [|done]. intros [= <-]. rewrite Z.gtb_ltb in E2. breflect. unfold sat_sub in *. lia.
Qed.

Lemma binary_target_spec p t :
  MIN_MTU <= last_good p -> first_bad p <= FIRST_BAD_SENTINEL -> binary_target p = Some t ->
  last_good p < t < first_bad p /\ MIN_MTU <= t <= MAX_MTU.
Proof.
  intros Hl Hf. sz. unfold binary_target. destruct (_ <=? _); [done|]. destruct (_ && _) eqn:E; [|done].
  rewrite Z.gtb_ltb in E. breflect. intros [= <-]. rewrite clamp_size_id; lia.
Qed.

(** A probe that is sent stays inside the window, or checks the stable size. *)
Lemma begin_probe_ok d p now id deadline confirms size :
  peer_ok X B p -> probe_size d p now = inl (Some size) ->
  peer_ok X B (begin_probe p id size deadline confirms).
Proof.
  intros Hp Hs. sz. pose proof Hp as (H1 & H2 & H3 & H4)%ok_window.
  assert (Hsz : MIN_MTU <= size <= MAX_MTU /\ (between p = true -> last_good p < size < first_bad p) /\
                (at_stable p = true -> size = stable p) /\ is_searching (phase p) = true).
  { unfold probe_size in Hs. unfold between, at_stable. destruct (phase p) eqn:Ep; try done.
    - injection Hs as Hs. apply raise_target_spec in Hs; [|lia]. split_and!; (done || lia).
    - destruct (window_closed _ _); [done|]. injection Hs as Hs. apply binary_target_spec in Hs; [|lia..].
      split_and!; (done || lia).
    - injection Hs as <-. rewrite clamp_size_id by lia. split_and!; (done || lia).
    - injection Hs as <-. rewrite clamp_size_id by lia. split_and!; (done || lia).
    - destruct (window_closed _ _); [done|]. injection Hs as Hs. apply binary_target_spec in Hs; [|lia..].
      split_and!; (done || lia). }
  destruct Hsz as (S1 & S2 & S3 & S4). unfold peer_ok, begin_probe, between, at_stable in *. mtu_simpl.
  split; [done|]. split; [done|]. split; [done|]. split; [done|]. split; [|split; [done|]].
  - intros i [= <-]. mtu_simpl. by rewrite clamp_size_id.
  - by rewrite S4.
Qed.

Lemma probe_size_inr_ok d p now p' : peer_ok X B p -> probe_size d p now = inr p' -> peer_ok X B p'.
Proof.
  intros (H1 & H2 & H3 & H4)%ok_window Hs. unfold probe_size in Hs. destruct (phase p) eqn:Ep; try discriminate Hs.
  all: destruct (window_closed _ _); [|discriminate Hs]; apply (inj inr) in Hs; subst p'.
  - rewrite bool_decide_eq_false_2 by congruence. by apply plateau_ok.
  - rewrite bool_decide_eq_true_2 by congruence. by apply finish_down_ok.
Qed.

Lemma raise_stable_ok p :
  MIN_MTU <= last_good p <= X -> MIN_MTU <= stable p <= X ->
  let p' := raise_stable p in
  last_good p' = last_good p /\ first_bad p' = first_bad p /\ MIN_MTU <= stable p' <= X /\
  inflight p' = inflight p /\ grace p' = grace p /\ phase p' = phase p.
Proof. intros H1 H2. unfold raise_stable. destruct (_ >? _); mtu_simpl; split_and!; (done || lia). Qed.

(** An acknowledged probe. *)
Lemma acked_ok d p sz0 now :
  peer_ok X B p -> inflight p = None -> grace p = None ->
  (between p = true -> last_good p < sz0 < first_bad p) -> MIN_MTU <= sz0 <= X ->
  peer_ok X B (acked_peer d p sz0 now).
Proof.
  intros Hp Hi Hg Hb Hs. sz. pose proof Hp as (H1 & H2 & H3 & H4)%ok_window.
  unfold acked_peer, between in *. destruct (phase p) eqn:Ep.
  - done.
  - destruct (raise_stable_ok (p <| last_good := sz0 |>)) as (R1 & R2 & R3 & R4 & R5 & R6); [done|done|].
    set (q := raise_stable _) in *. clearbody q. mtu_simpl. specialize (Hb eq_refl). rewrite Hi in R4. rewrite Hg in R5.
    destruct (raise_target _); [apply idle_ok; mtu_simpl; rewrite ?R1, ?R2; done || lia|].
    destruct (_ >=? _); apply plateau_ok; mtu_simpl; rewrite ?R1, ?R2; done || lia.
  - destruct (raise_stable_ok (p <| last_good := Z.max sz0 (last_good p) |>)) as (R1 & R2 & R3 & R4 & R5 & R6); [mtu_simpl; lia|done|].
    set (q := raise_stable _) in *. clearbody q. mtu_simpl. specialize (Hb eq_refl). rewrite Hi in R4. rewrite Hg in R5.
    destruct (window_closed _ _); [apply plateau_ok|apply idle_ok]; rewrite ?R1, ?R2; done || lia.
  - by apply plateau_ok.
  - by apply plateau_ok.
  - specialize (Hb eq_refl). destruct (window_closed _ _); [apply finish_down_ok|apply idle_ok]; mtu_simpl; try done; lia.
  - done.
Qed.

(** A size that failed inside the window. *)
Lemma failed_ok d p s now (Hbt : between p = true) :
  peer_ok X B p -> last_good p < s < first_bad p -> (B = true -> X < s) ->
  peer_ok X B (close_or_freeze d (p <| inflight := None |> <| first_bad := Z.min s (first_bad p) |>) now) /\
  forall rstep, peer_ok X B (close_or_freeze d (p <| inflight := None |> <| first_bad := s |> <| step := rstep |> <| phase := Binary |>) now).
Proof.
  intros Hp Hs HB. sz. pose proof Hp as (H1 & H2 & H3 & H4)%ok_window.
  assert (Hg : grace p = None).
  { destruct Hp as (_ & _ & _ & _ & _ & Hg & _). destruct (grace p) as [g|]; [|done]. destruct (Hg g eq_refl) as [Ha _].
    unfold at_stable, between in *. by destruct (phase p). }
  split; [|intros rstep]; apply close_or_freeze_ok, idle_ok; mtu_simpl; try done; try lia;
    intros E; specialize (HB E); specialize (H4 E); lia.
Qed.
End Peer.

(** ** All peers

    [M] gives the path MTU towards an address; an acknowledgement and a loss are about the path, not
    about the port. *)

Definition cap (M : IpAddr -> Z) (a : SocketAddr) : Z := Z.min (M (sa_ip a)) MAX_MTU.

Definition peers_ok (M : IpAddr -> Z) (B : bool) (d : PathMtuDiscovery) : Prop :=
  forall a p, peers d !! a = Some p -> peer_ok (cap M a) B p.

(** What is given up on at [now] was too large for its path. *)
Definition loss_ok (M : IpAddr -> Z) (now : Instant) (a : SocketAddr) (p : PeerState) : Prop :=
  (forall i, inflight p = Some i -> if_deadline i <= now -> M (sa_ip a) < if_size i) /\
  (forall g, grace p = Some g -> gr_deadline g <= now -> M (sa_ip a) < gr_size g).

Definition losses_ok (M : IpAddr -> Z) (now : Instant) (d : PathMtuDiscovery) : Prop :=
  forall a p, peers d !! a = Some p -> loss_ok M now a p.

Section Peers.
Context (M : IpAddr -> Z) (B : bool) (HM : forall ip, DEFAULT_MTU <= M ip).

Lemma cap_range a : DEFAULT_MTU <= cap M a <= MAX_MTU.
Proof. unfold cap. pose proof (HM (sa_ip a)). pose proof sizes. lia. Qed.

Lemma peers_recalc d : peers (recalc_min d) = peers d.
Proof. unfold recalc_min. by destruct (pinned d). Qed.

Lemma recalc_ok d : peers_ok M B d -> peers_ok M B (recalc_min d).
Proof. unfold peers_ok. by rewrite peers_recalc. Qed.

Lemma put_ok d a p : peers_ok M B d -> peer_ok (cap M a) B p -> peers_ok M B (put d a p).
Proof.
  intros Hd Hp b q. unfold put. mtu_simpl. rewrite lookup_insert_Some. intros [[<- <-]|[_ Hq]]; [done|by apply Hd].
Qed.

Lemma lookup_put d a p : peers (put d a p) !! a = Some p.
Proof. apply lookup_insert_eq. Qed.

Lemma lookup_put_ne d a b p : a <> b -> peers (put d a p) !! b = peers d !! b.
Proof. apply lookup_insert_ne. Qed.

(** Nothing but these fields matters. *)
Lemma peer_ok_ext X p p' :
  last_good p' = last_good p -> first_bad p' = first_bad p -> stable p' = stable p -> phase p' = phase p ->
  inflight p' = inflight p -> grace p' = grace p -> peer_ok X B p -> peer_ok X B p'.
Proof. unfold peer_ok, between, at_stable. by intros -> -> -> -> -> ->. Qed.

Lemma recheck_ok a p : peer_ok (cap M a) B p -> peer_ok (cap M a) B (recheck_peer p).
Proof. intros Hp. by apply (window_kept _ _ (cap_range a) p). Qed.

Lemma anomaly_ok a d p now : peer_ok (cap M a) B p -> peer_ok (cap M a) B (anomaly_peer d p now).
Proof. intros Hp. by apply (window_kept _ _ (cap_range a) p). Qed.

Lemma apply_soft_down_ok d a now ev :
  peers_ok M B d -> B = false -> peers_ok M B (apply_soft_down d a now ev).1.
Proof.
  intros Hd HB. unfold apply_soft_down. destruct (peers d !! a) as [p|] eqn:Hp; [|done]. cbn [fst].
  apply recalc_ok, put_ok; [done|]. destruct (ok_window _ _ (cap_range a) _ (Hd a p Hp)) as (? & ? & ? & ?).
  by apply soft_down_ok; [apply cap_range|..].
Qed.

(** A size that is given up on: what the peer's phase makes of it. *)
Lemma timeout_fail_ok d a p size now ev :
  peers_ok M B d -> peers d !! a = Some p ->
  (between p = true -> last_good p < size < first_bad p /\ (B = true -> cap M a < size)) ->
  (at_stable p = true -> B = false) ->
  peers_ok M B (apply_timeout_confirmed_fail d a size now ev).1.
Proof.
  intros Hd Ha Hb Hs. unfold apply_timeout_confirmed_fail. rewrite Ha. pose proof (Hd a p Ha) as Hp.
  pose proof (ok_window _ _ (cap_range a) _ Hp) as (W1 & W2 & W3 & W4). pose proof (cap_range a) as HX. pose proof sizes as (S1 & S2 & S3 & S4).
  assert (Hc : between p = true -> clamp_size size = size).
  { intros E. destruct (Hb E) as [? _]. apply clamp_size_id. lia. }
  destruct (phase p) eqn:Ep; cbn [fst].
  - done.
  - assert (E : between p = true) by (unfold between; by rewrite Ep). destruct (Hb E) as [? ?]. rewrite (Hc E).
    apply put_ok; [done|]. by apply failed_ok.
  - assert (E : between p = true) by (unfold between; by rewrite Ep). destruct (Hb E) as [? ?]. rewrite (Hc E).
    apply put_ok; [done|]. by apply failed_ok.
  - destruct (p_large_alive p); [unfold apply_anomaly|unfold enter_recheck]; rewrite Ha; cbn [fst];
      (apply put_ok; [done|]); [by apply anomaly_ok|by apply recheck_ok].
  - apply apply_soft_down_ok; [done|]. apply Hs. unfold at_stable. by rewrite Ep.
  - assert (E : between p = true) by (unfold between; by rewrite Ep). destruct (Hb E) as [? ?]. rewrite (Hc E).
    apply put_ok; [done|]. by apply failed_ok.
  - done.
Qed.

Lemma ok_inflight X p i : peer_ok X B p -> inflight p = Some i ->
  MIN_MTU <= if_size i <= MAX_MTU /\ (between p = true -> last_good p < if_size i < first_bad p) /\
  (at_stable p = true -> if_size i = stable p) /\ is_searching (phase p) = true.
Proof.
  intros (_ & _ & _ & _ & Hi & _ & Hn) E. destruct (Hi i E) as (? & ? & ?). split; [done|]. split; [done|]. split; [done|].
  destruct (is_searching (phase p)); [done|]. destruct (Hn eq_refl). congruence.
Qed.

Lemma ok_grace X p g : peer_ok X B p -> grace p = Some g -> at_stable p = true /\ gr_size g = stable p.
Proof. intros (_ & _ & _ & _ & _ & Hg & _) E. by apply Hg. Qed.

(** A lost check of the stable size is a loss of something that fits. *)
Lemma stable_lost a p s :
  peer_ok (cap M a) B p -> s = stable p -> (B = true -> M (sa_ip a) < s) -> B = false.
Proof.
  intros Hp -> Hl. destruct (ok_window _ _ (cap_range a) _ Hp) as (_ & _ & H3 & _). destruct B; [|done].
  specialize (Hl eq_refl). unfold cap in H3. lia.
Qed.

(** Only the peer itself changes. *)
Lemma soft_down_idle d a p now :
  inflight (soft_down_peer d a p now) = None /\ grace (soft_down_peer d a p now) = None.
Proof.
  unfold soft_down_peer. destruct (window_closed _ _); [|done]. unfold finish_downsearch_plateau, enter_plateau.
  repeat case_match; done.
Qed.

Lemma timeout_fail_frame d a p size now ev :
  peers d !! a = Some p -> exists p',
  peers (apply_timeout_confirmed_fail d a size now ev).1 = <[a := p']> (peers d) /\
  (at_stable p = true -> inflight p' = None /\ grace p' = None).
Proof.
  intros Ha. unfold apply_timeout_confirmed_fail, apply_anomaly, enter_recheck, apply_soft_down, at_stable. rewrite Ha.
  destruct (phase p); try destruct (p_large_alive p); cbn [fst]; rewrite ?peers_recalc;
    first [exists p; split; [by rewrite insert_id|discriminate]
          |eexists; split; [reflexivity|]; (discriminate || (intros _; apply soft_down_idle || done))].
Qed.

Lemma idle_loss_ok now a p : inflight p = None -> grace p = None -> loss_ok M now a p.
Proof. intros Hi Hg. unfold loss_ok. by rewrite Hi, Hg. Qed.

Definition tick_inv (now : Instant) (d : PathMtuDiscovery) : Prop :=
  peers_ok M B d /\ (B = true -> losses_ok M now d).

(** Changing one peer. *)
Lemma tick_inv_insert now d d' a p' :
  tick_inv now d -> peers d' = <[a := p']> (peers d) -> peer_ok (cap M a) B p' ->
  (B = true -> loss_ok M now a p') -> tick_inv now d'.
Proof.
  intros [H1 H2] E Hp Hl. split.
  - intros b q. rewrite E, lookup_insert_Some. intros [[<- <-]|[_ Hq]]; [done|by apply H1].
  - intros HB b q. rewrite E, lookup_insert_Some. intros [[<- <-]|[_ Hq]]; [by apply Hl|by apply (H2 HB)].
Qed.

Lemma expire_grace_ok now d ev a :
  tick_inv now d -> (forall p, peers d !! a = Some p -> grace_expired now p = true) ->
  tick_inv now (expire_grace now (d, ev) a).1 /\
  forall b, a <> b -> peers (expire_grace now (d, ev) a).1 !! b = peers d !! b.
Proof.
  intros Hd Hx. unfold expire_grace. destruct (peers d !! a) as [p|] eqn:Ha.
  2: { unfold apply_timeout_confirmed_fail. by rewrite Ha. }
  specialize (Hx p eq_refl). unfold grace_expired in Hx. destruct (grace p) as [g|] eqn:Hg; [|done].
  apply Z.leb_le in Hx. pose proof (proj1 Hd a p Ha) as Hp. destruct (ok_grace _ _ _ Hp Hg) as [Hst Hgs].
  assert (HB : B = false).
  { apply (stable_lost a p (gr_size g)); [done|done|]. intros E. by apply (proj2 (proj2 Hd E a p Ha) g). }
  set (p0 := p <| grace := None |>).
  assert (Hp0 : peer_ok (cap M a) B p0).
  { destruct Hp as (A1 & A2 & A3 & A4 & A5 & _ & A7).
    refine (conj A1 (conj A2 (conj A3 (conj A4 (conj A5 (conj _ _)))))); [discriminate|].
    intros E. split; [apply (A7 E)|done]. }
  edestruct (timeout_fail_frame (put d a p0) a p0 (gr_size g) now) as (p' & E & Hi); [apply lookup_put|].
  pose proof (Hi Hst) as [Hi1 Hi2]. unfold put in E at 2. mtu_simpl. rewrite insert_insert_eq in E.
  split; [|intros b Hb; rewrite E; by apply lookup_insert_ne].
  apply (tick_inv_insert now d _ a p'); [done|exact E| |intros _; by apply idle_loss_ok].
  eapply (timeout_fail_ok (put d a p0) a p0); [apply put_ok; [apply Hd|done]|apply lookup_put|..].
  - unfold between, at_stable in *. mtu_simpl. by destruct (phase p).
  - done.
  - rewrite E. apply lookup_insert_eq.
Qed.

(** The same probe again, under another id. *)
Lemma reprobe_ok X p i id t n :
  peer_ok X B p -> inflight p = Some i ->
  forall used, peer_ok X B (p <| probes_used := used |> <| inflight := Some (mkInflight id (if_size i) t n) |>).
Proof.
  intros Hp Hi used. destruct (ok_inflight _ _ _ Hp Hi) as (S1 & S2 & S3 & S4).
  destruct Hp as (A1 & A2 & A3 & A4 & A5 & A6 & A7).
  refine (conj A1 (conj A2 (conj A3 (conj A4 (conj _ (conj A6 _)))))); [by intros ? [= <-]|].
  intros E. mtu_simpl. congruence.
Qed.

Lemma set_grace_ok X p i id gen t :
  peer_ok X B p -> inflight p = Some i -> at_stable p = true ->
  peer_ok X B (p <| inflight := None |> <| grace := Some (mkGrace id (if_size i) gen t) |>).
Proof.
  intros Hp Hi Hs. destruct (ok_inflight _ _ _ Hp Hi) as (S1 & S2 & S3 & S4).
  destruct Hp as (A1 & A2 & A3 & A4 & A5 & A6 & A7).
  refine (conj A1 (conj A2 (conj A3 (conj A4 (conj _ (conj _ _)))))); [discriminate| |].
  - intros g [= <-]. split; [exact Hs|by apply S3].
  - intros E. mtu_simpl. congruence.
Qed.

Lemma clear_inflight_ok X p : peer_ok X B p -> peer_ok X B (p <| inflight := None |>).
Proof.
  intros (A1 & A2 & A3 & A4 & A5 & A6 & A7).
  refine (conj A1 (conj A2 (conj A3 (conj A4 (conj _ (conj A6 _)))))); [discriminate|].
  intros E. split; [done|apply (A7 E)].
Qed.

Lemma at_stable_phase p :
  bool_decide (phase p = Revalidate) || bool_decide (phase p = Recheck) = at_stable p.
Proof. unfold at_stable. by destruct (phase p). Qed.

Lemma on_timeout_ok now d ev a :
  peers_ok M B d ->
  (forall p, peers d !! a = Some p -> timed_out now p = true /\ (B = true -> loss_ok M now a p)) ->
  peers_ok M B (on_timeout d a now ev).1.1 /\
  forall b, a <> b -> peers (on_timeout d a now ev).1.1 !! b = peers d !! b.
Proof.
  intros Hd Hx. unfold on_timeout. destruct (peers d !! a) as [p|] eqn:Ha; [|done]. destruct (Hx p eq_refl) as [Ht Hl].
  destruct (inflight p) as [i|] eqn:Hi; [|done]. pose proof (Hd a p Ha) as Hp.
  unfold timed_out in Ht. rewrite Hi in Ht. apply andb_prop in Ht as [Ht _]. apply Z.leb_le in Ht.
  destruct (ok_inflight _ _ _ Hp Hi) as (S1 & S2 & S3 & S4).
  destruct (confirms_left i >? 1).
  { set (q := if bool_decide _ then _ else _). assert (exists u, q = p <| inflight := None |> <| probes_used := u |>) as [u Eq].
    { unfold q. destruct (bool_decide _); [by exists (probes_used p); destruct p|by eexists]. }
    rewrite Eq. clear q Eq. destruct (_ && _); cbn [fst]; (split; [apply put_ok; [done|]|intros b Hb; by apply lookup_insert_ne]).
    - apply enter_frozen_ok; [apply cap_range|]. by apply (peer_ok_ext _ (p <| inflight := None |>)), clear_inflight_ok.
    - eapply peer_ok_ext; [..|apply (reprobe_ok _ p i); done]; try done. }
  rewrite at_stable_phase. change (at_stable (p <| inflight := None |>)) with (at_stable p). destruct (at_stable p) eqn:Es.
  { cbn [fst]. split; [apply put_ok; [done|]; by apply set_grace_ok|intros b Hb; by apply lookup_insert_ne]. }
  set (p0 := p <| inflight := None |>).
  set (ev1 := ev <| probe_timeouts := inc (probe_timeouts ev) |>).
  destruct (timeout_fail_frame (put d a p0) a p0 (if_size i) now ev1) as (p' & E & _); [apply lookup_put|].
  pose proof (timeout_fail_ok (put d a p0) a p0 (if_size i) now ev1) as H.
  unfold put in E at 2. mtu_simpl. rewrite insert_insert_eq in E.
  destruct (apply_timeout_confirmed_fail _ _ _ _ _) as [d' ev'] eqn:Ed. cbn [fst] in *.
  split; [|intros b Hb; rewrite E; by apply lookup_insert_ne].
  apply H.
  - apply put_ok; [done|by apply clear_inflight_ok].
  - apply lookup_put.
  - intros Eb. split; [by apply S2|]. intros HB. destruct (Hl HB) as [Hl1 _]. specialize (Hl1 i Hi Ht). unfold cap. lia.
  - intros E'. unfold p0 in E'. unfold at_stable in Es, E'. mtu_simpl. congruence.
Qed.

Lemma heal_inv now d : tick_inv now d -> tick_inv now (heal_unacked_private_floor d now).
Proof.
  intros [H1 H2]. unfold heal_unacked_private_floor.
  set (d' := d <| peers := _ |>). assert (tick_inv now d') as [H3 H4].
  { assert (Hl : forall a p, peers d' !! a = Some p -> exists q, peers d !! a = Some q /\
                  p = if needs_heal a q then heal_peer (raise_step d) now q else q).
    { intros a p. unfold d'. mtu_simpl. rewrite map_lookup_imap. destruct (peers d !! a) as [q|]; [|done].
      intros [= <-]. by eexists. }
    split; [|intros HB]; intros a p (q & Hq & ->)%Hl; destruct (needs_heal a q).
    - apply heal_ok, cap_range.
    - by apply H1.
    - by apply idle_loss_ok.
    - by apply (H2 HB). }
  destruct (existsb _ _); [|done]. unfold tick_inv, peers_ok, losses_ok. rewrite peers_recalc. done.
Qed.

Lemma pinned_recalc d : pinned (recalc_min d) = pinned d.
Proof. unfold recalc_min. by destruct (pinned d) eqn:E. Qed.

Lemma pinned_heal d now : pinned (heal_unacked_private_floor d now) = pinned d.
Proof. unfold heal_unacked_private_floor. destruct (existsb _ _); [by rewrite pinned_recalc|done]. Qed.

Lemma ensure_peer_inv now d a :
  pinned d = None -> tick_inv now d -> tick_inv now (ensure_peer d a now) /\ pinned (ensure_peer d a now) = None.
Proof.
  intros Hn Hd. unfold ensure_peer. destruct (peers d !! a) as [p|] eqn:Ha; [done|]. rewrite Hn. split; [|done].
  by eapply tick_inv_insert; [done|reflexivity|apply new_peer_ok, cap_range|intros _; apply idle_loss_ok].
Qed.

Lemma note_input_inv now d i :
  pinned d = None /\ tick_inv now d -> pinned (note_input now d i) = None /\ tick_inv now (note_input now d i).
Proof.
  intros [Hn Hd]. unfold note_input. destruct (ensure_peer_inv now d (ti_addr i) Hn Hd) as [He Hn'].
  destruct (peers _ !! _) as [p|] eqn:Hp; [|done]. split; [done|]. destruct He as [H1 H2].
  eapply tick_inv_insert; [by split|reflexivity| |].
  - by apply (peer_ok_ext _ p), H1.
  - intros HB. exact (H2 HB _ p Hp).
Qed.

Lemma expire_graces_inv now l : NoDup l -> forall d ev,
  tick_inv now d -> (forall a p, a ∈ l -> peers d !! a = Some p -> grace_expired now p = true) ->
  tick_inv now (foldl (expire_grace now) (d, ev) l).1.
Proof.
  induction 1 as [|a l Hni _ IH]; intros d ev Hd Hx; [done|]. cbn [foldl].
  destruct (expire_grace_ok now d ev a Hd) as [H1 H2]; [intros p; apply Hx; by left|].
  destruct (expire_grace now (d, ev) a) as [d' ev']. cbn [fst] in *. apply IH; [done|].
  intros b p Hb. rewrite H2 by (intros ->; done). apply Hx. by right.
Qed.

Lemma expire_probes_ok now l : NoDup l -> forall d ev out,
  peers_ok M B d ->
  (forall a p, a ∈ l -> peers d !! a = Some p -> timed_out now p = true /\ (B = true -> loss_ok M now a p)) ->
  peers_ok M B (foldl (expire_probe now) (d, ev, out) l).1.1.
Proof.
  induction 1 as [|a l Hni _ IH]; intros d ev out Hd Hx; [done|]. cbn [foldl]. unfold expire_probe at 2.
  destruct (on_timeout_ok now d ev a Hd) as [H1 H2]; [intros p; apply Hx; by left|].
  destruct (on_timeout d a now ev) as [[d' ev'] o]. cbn [fst] in *. apply IH; [done|].
  intros b p Hb. rewrite H2 by (intros ->; done). apply Hx. by right.
Qed.

Lemma not_busy p : busy p = false -> inflight p = None /\ grace p = None.
Proof. unfold busy. rewrite orb_false_iff, !bool_decide_eq_false, !eq_None_not_Some. done. Qed.

Lemma start_one_ok now d a : peers_ok M B d -> peers_ok M B (start_one now d a).
Proof.
  intros Hd. unfold start_one. destruct (peers d !! a) as [p|] eqn:Hp; [|done]. destruct (busy p) eqn:Hb; [done|].
  apply not_busy in Hb as [Hi Hg]. apply put_ok; [done|]. unfold start_search. destruct (_ && _); [|by apply Hd].
  apply (window_kept _ _ (cap_range a) p); [by apply Hd|..]; by destruct (bool_decide (phase p = Frozen)).
Qed.

Lemma issue_probe_ok now d a : peers_ok M B d -> peers_ok M B (issue_probe d a now).1.
Proof.
  intros Hd. unfold issue_probe. destruct (peers d !! a) as [p|] eqn:Hp; [|done]. destruct (busy p); [done|].
  pose proof (budget_freeze_ok _ _ (cap_range a) p now (raise_period d) (max_probes_per_search d) (Hd a p Hp)) as Hf.
  destruct (maybe_budget_freeze _ _ _ _) as [q frozen]. cbn [fst] in Hf. destruct frozen; [by apply put_ok|].
  destruct (probe_size d q now) as [[size|]|q'] eqn:Hs; [|done|].
  - cbn [fst next_probe_id]. apply put_ok; [done|]. by eapply begin_probe_ok; [apply cap_range|..].
  - cbn [fst]. apply put_ok; [done|]. by eapply probe_size_inr_ok; [apply cap_range|..].
Qed.

Lemma issue_round_ok now order : forall d c n out,
  peers_ok M B d -> peers_ok M B (issue_round now d order c n out).1.1.
Proof.
  induction order as [|a order IH]; intros d c n out Hd; [done|]. cbn [issue_round]. destruct (n >=? c); [done|].
  pose proof (issue_probe_ok now d a Hd). destruct (issue_probe d a now) as [d' [i|]]; by apply IH.
Qed.

Section Tick.
Context `{HashIter}.

Lemma peers_where_spec f d a : a ∈ peers_where f d <-> exists p, peers d !! a = Some p /\ f p = true.
Proof.
  unfold peers_where. rewrite list_elem_of_fmap. split.
  - intros ([b p] & -> & [Hf Hin]%list_elem_of_filter). exists p. by rewrite <- hm_iter_elem.
  - intros (p & Hp & Hf). exists (a, p). split; [done|]. apply list_elem_of_filter. by rewrite hm_iter_elem.
Qed.

Lemma peers_where_NoDup f d : NoDup (peers_where f d).
Proof.
  unfold peers_where. pose proof (hm_iter_NoDup_fst (peers d)) as Hnd. induction (hm_iter (peers d)) as [|kv l IH]; [done|].
  apply NoDup_cons in Hnd as [Hni Hnd]. rewrite filter_cons. case_decide; [|by apply IH].
  apply NoDup_cons. split; [|by apply IH]. intros ([k v] & E & Hin%list_elem_of_filter)%list_elem_of_fmap.
  apply Hni, list_elem_of_fmap. exists (k, v). by destruct Hin.
Qed.

Lemma drop_stale_inv now d l : tick_inv now d -> tick_inv now (drop_stale d l).
Proof.
  intros [H1 H2]. unfold drop_stale. case_match; [|done]. unfold tick_inv, peers_ok, losses_ok. rewrite peers_recalc.
  mtu_simpl. split; [|intros HB]; intros a p [Hp _]%lookup_retain; [by apply H1|by apply (H2 HB)].
Qed.

Lemma on_tick_ok now d inputs :
  peers_ok M B d -> (B = true -> losses_ok M now d) -> peers_ok M B (on_tick d now inputs).1.1.
Proof.
  intros Hd Hl. unfold on_tick. destruct (pinned d) eqn:Hn; [done|]. set (eps := ti_addr <$> inputs).
  assert (H0 : pinned (drop_stale (heal_unacked_private_floor d now) eps) = None /\
               tick_inv now (drop_stale (heal_unacked_private_floor d now) eps)).
  { split; [|by apply drop_stale_inv, heal_inv]. unfold drop_stale. case_match; rewrite ?pinned_recalc; cbn [pinned setter];
      by rewrite pinned_heal. }
  generalize dependent (drop_stale (heal_unacked_private_floor d now) eps). intros d1 H1.
  assert (H2 : pinned (foldl (note_input now) d1 inputs) = None /\ tick_inv now (foldl (note_input now) d1 inputs)).
  { apply (foldl_inv (fun d => pinned d = None /\ tick_inv now d)); [done|]. intros; by apply note_input_inv. }
  destruct H2 as [_ H2]. generalize dependent (foldl (note_input now) d1 inputs). intros d2 H2.
  pose proof (expire_graces_inv now _ (peers_where_NoDup (grace_expired now) d2) d2 no_events H2) as H3.
  destruct (foldl (expire_grace now) _ _) as [d3 ev]. cbn [fst] in H3. destruct H3 as [H3 H3'].
  { intros a p (q & Hq & E)%peers_where_spec Hp. by simplify_eq. }
  pose proof (expire_probes_ok now _ (peers_where_NoDup (timed_out now) d3) d3 ev [] H3) as H4.
  destruct (foldl (expire_probe now) _ _) as [[d4 ev'] intents]. cbn [fst] in H4. specialize (H4 ltac:(
    intros a p (q & Hq & E)%peers_where_spec Hp; simplify_eq; split; [done|]; intros HB; by apply (H3' HB))).
  assert (H5 : peers_ok M B (foldl (start_one now) d4 eps)).
  { apply (foldl_inv (peers_ok M B)); [done|]. intros; by apply start_one_ok. }
  generalize dependent (foldl (start_one now) d4 eps). intros d5 H5. destruct (filter _ eps) as [|w want] eqn:Ew; [done|].
  set (d6 := if _ >=? _ then _ else _). assert (H6 : peers_ok M B d6) by (unfold d6; by destruct (_ >=? _)).
  match goal with |- context [issue_round now d6 ?o ?c ?n ?i] => pose proof (issue_round_ok now o d6 c n i H6) as H7;
    destruct (issue_round now d6 o c n i) as [[d7 issued] out] end. exact H7.
Qed.

Lemma inflight_matches_spec p id gen sz :
  inflight_matches p id gen sz = true -> exists i, inflight p = Some i /\ if_size i = sz.
Proof.
  unfold inflight_matches. destruct (inflight p) as [i|]; [|done]. intros E. exists i. breflect. split; [done|lia].
Qed.

Lemma resolve_peer_ip d from id gen sz now a : resolve_peer d from id gen sz now = Some a -> sa_ip a = sa_ip from.
Proof.
  unfold resolve_peer. destruct (peers d !! from); [by intros [= ->]|].
  destruct (filter _ _) as [|[b q] [|? ?]] eqn:E; [done| |done]. intros [= ->].
  assert ((a, q) ∈ [(a, q)]) as Hin by by left. rewrite <- E in Hin. apply list_elem_of_filter in Hin as [[? _] _]. done.
Qed.

Lemma on_ack_ok d from sz id gen now :
  peers_ok M B d -> sz <= M (sa_ip from) -> peers_ok M B (on_ack d from sz id gen now).1.
Proof.
  intros Hd Hsz. unfold on_ack. destruct (pinned d); [done|]. destruct (resolve_peer _ _ _ _ _ _) as [a|] eqn:Ha; [|done].
  apply resolve_peer_ip in Ha. destruct (peers d !! a) as [p|] eqn:Hp; [|done]. pose proof (Hd a p Hp) as Hok.
  destruct (ok_window _ _ (cap_range a) _ Hok) as (W1 & W2 & W3 & W4).
  destruct (inflight p) as [i|] eqn:Hi.
  - destruct (inflight_matches _ _ _ _) eqn:Hm; [|done]. apply inflight_matches_spec in Hm as (i' & Hi' & Es). simplify_eq.
    cbn [fst]. apply recalc_ok, put_ok; [done|]. destruct (ok_inflight _ _ _ Hok Hi) as (S1 & S2 & S3 & S4).
    apply acked_ok; [apply cap_range|by apply (window_kept _ _ (cap_range a) p)|done|done|rewrite <- Es; exact S2|].
    pose proof sizes as (Q1 & Q2 & Q3 & Q4). pose proof (HM (sa_ip from)). unfold cap. rewrite Ha.
    unfold clamp_size, clamp. destruct (Z.ltb_spec sz MIN_MTU), (Z.ltb_spec MAX_MTU sz); lia.
  - destruct (grace_matches _ _ _ _ _); [|done]. cbn [fst]. apply recalc_ok, put_ok; [done|].
    by apply plateau_ok.
Qed.

Lemma on_send_hard_fail_ok d a id now :
  peers_ok M B d ->
  (B = true -> forall p i, peers d !! a = Some p -> inflight p = Some i -> if_probe_id i = id -> M (sa_ip a) < if_size i) ->
  peers_ok M B (on_send_hard_fail d a id now).1.
Proof.
  intros Hd Hl. unfold on_send_hard_fail. destruct (pinned d); [done|]. destruct (peers d !! a) as [p|] eqn:Hp; [|done].
  destruct (inflight p) as [i|] eqn:Hi; [|done]. destruct (_ || _) eqn:Eid; [done|]. apply orb_false_iff in Eid as [Eid _].
  apply negb_false_iff, Z.eqb_eq in Eid. pose proof (Hd a p Hp) as Hok.
  destruct (ok_inflight _ _ _ Hok Hi) as (S1 & S2 & S3 & S4).
  assert (Hs : at_stable p = true -> B = false).
  { intros E. apply (stable_lost a p (if_size i)); [done|by apply S3|]. intros HB. by apply (Hl HB p i). }
  assert (Hf : at_stable p = false -> peers_ok M B (apply_timeout_confirmed_fail d a (if_size i) now no_events).1).
  { intros E. eapply timeout_fail_ok; [done|done| |done]. intros Eb. split; [by apply S2|]. intros HB.
    pose proof (Hl HB p i eq_refl Hi Eid). unfold cap. lia. }
  assert (Hd' : peers_ok M B (put d a (p <| inflight := None |> <| grace := None |>))).
  { apply put_ok; [done|]. by apply (window_kept _ _ (cap_range a) p). }
  unfold at_stable in Hs, Hf. destruct (phase p); try (by apply Hf); apply apply_soft_down_ok; auto.
Qed.
End Tick.
End Peers.

(** ** Runs *)

Inductive MtuEvent :=
| EvTick (now : Instant) (inputs : list PeerTickInput)
| EvAck (from : SocketAddr) (sz id gen : Z) (now : Instant)
| EvHardFail (a : SocketAddr) (id : Z) (now : Instant)
| EvRemove (a : SocketAddr)
| EvTuning (t : PmtudTuning) (now : Instant)
| EvPeriod (secs : Z)
| EvRevalidate (a : SocketAddr) (now : Instant)
| EvEarlyWake (a : SocketAddr) (now : Instant)
| EvPin (m : option Z) (now : Instant).

(** The path tells the truth: what is acknowledged fits it; with [B], what is given up on does not.
    A pin is the operator's promise that the size fits everywhere. *)
Definition event_ok (M : IpAddr -> Z) (B : bool) (d : PathMtuDiscovery) (e : MtuEvent) : Prop :=
  match e with
  | EvTick now _ => B = true -> losses_ok M now d
  | EvAck from sz _ _ _ => sz <= M (sa_ip from)
  | EvHardFail a id _ =>
      B = true -> forall p i, peers d !! a = Some p -> inflight p = Some i -> if_probe_id i = id -> M (sa_ip a) < if_size i
  | EvPin (Some m) _ => B = false /\ forall ip, clamp_size m <= M ip
  | _ => True
  end.

Section Runs.
Context `{HashIter}.

Definition mtu_step (d : PathMtuDiscovery) (e : MtuEvent) : PathMtuDiscovery :=
  match e with
  | EvTick now inputs => (on_tick d now inputs).1.1
  | EvAck from sz id gen now => (on_ack d from sz id gen now).1
  | EvHardFail a id now => (on_send_hard_fail d a id now).1
  | EvRemove a => remove_peer d a
  | EvTuning t now => apply_tuning d t now
  | EvPeriod secs => set_raise_period d secs
  | EvRevalidate a now => (request_revalidate d a now).1
  | EvEarlyWake a now => (request_early_wake d a now).1
  | EvPin m now => set_pinned d m now
  end.

Inductive mtu_reaches (M : IpAddr -> Z) (B : bool) : PathMtuDiscovery -> Prop :=
| mtu_reaches_new : mtu_reaches M B new_pmtud
| mtu_reaches_step d e : mtu_reaches M B d -> event_ok M B d e -> mtu_reaches M B (mtu_step d e).

Context (M : IpAddr -> Z) (B : bool) (HM : forall ip, DEFAULT_MTU <= M ip).

Lemma abort_ok a p : peer_ok (cap M a) B p -> peer_ok (cap M a) B (abort_inflight p).
Proof. intros Hp. by apply (window_kept _ _ (cap_range M HM a) p). Qed.

Lemma apply_tuning_ok d t now : peers_ok M B d -> peers_ok M B (apply_tuning d t now).
Proof.
  intros Hd. unfold apply_tuning. mtu_simpl. destruct (pinned d); [done|]. intros a p. mtu_simpl.
  rewrite lookup_fmap. destruct (peers d !! a) as [q|] eqn:Hq; [|done]. intros [= <-].
  pose proof (abort_ok a q (Hd a q Hq)) as Hp. apply (window_kept _ _ (cap_range M HM a) _ _ Hp); by destruct (is_searching _).
Qed.

Lemma set_pinned_ok d m now : event_ok M B d (EvPin m now) -> peers_ok M B (set_pinned d m now).
Proof.
  intros He. unfold set_pinned. destruct m as [m|]; intros a p; mtu_simpl; rewrite lookup_fmap;
    (destruct (peers d !! a) as [q|]; [|done]); intros [= <-]; [|apply new_peer_ok, cap_range, HM].
  destruct He as [HB Hm]. pose proof (clamp_size_range m) as Hc. specialize (Hm (sa_ip a)). pose proof sizes as (S1 & S2 & S3 & S4).
  apply idle_ok; try done; unfold abort_inflight, next_gen, one_past, cap; mtu_simpl; try lia. congruence.
Qed.

Lemma touch_ok d a p p' : peers_ok M B d -> peers d !! a = Some p ->
  (last_good p', first_bad p', stable p', phase p', inflight p', grace p') =
  (last_good p, first_bad p, stable p, phase p, inflight p, grace p) ->
  peers_ok M B (put d a p').
Proof. intros Hd Hp [= E1 E2 E3 E4 E5 E6]. apply put_ok; [done|]. eapply peer_ok_ext; [..|by apply Hd]; done. Qed.

Lemma request_revalidate_ok d a now : peers_ok M B d -> peers_ok M B (request_revalidate d a now).1.
Proof.
  intros Hd. unfold request_revalidate. destruct (pinned d); [done|]. destruct (peers d !! a) as [p|] eqn:Hp; [|done].
  destruct (hint_cooling _ _ _); [done|]. destruct (is_searching _); [done|]. by eapply touch_ok.
Qed.

Lemma request_early_wake_ok d a now : peers_ok M B d -> peers_ok M B (request_early_wake d a now).1.
Proof.
  intros Hd. unfold request_early_wake. destruct (pinned d); [done|]. destruct (peers d !! a) as [p|] eqn:Hp; [|done].
  destruct (hint_cooling _ _ _); [done|]. destruct (is_searching _); [done|]. by eapply touch_ok.
Qed.

Lemma remove_peer_ok d a : peers_ok M B d -> peers_ok M B (remove_peer d a).
Proof.
  intros Hd. unfold remove_peer. destruct (peers d !! a) as [q|]; [|done]. apply recalc_ok. intros b p. mtu_simpl.
  rewrite lookup_delete_Some. intros [_ Hp]. by apply Hd.
Qed.

Lemma mtu_reaches_ok d : mtu_reaches M B d -> peers_ok M B d.
Proof.
  induction 1 as [|d e _ IH He]; [intros a p; unfold new_pmtud; cbn [peers]; by rewrite lookup_empty|]. destruct e; cbn [mtu_step].
  - by apply on_tick_ok.
  - by apply on_ack_ok.
  - by apply on_send_hard_fail_ok.
  - by apply remove_peer_ok.
  - by apply apply_tuning_ok.
  - done.
  - by apply request_revalidate_ok.
  - by apply request_early_wake_ok.
  - by apply set_pinned_ok in He.
Qed.
End Runs.

(** ** The theorems *)


(** A concrete run: the peer appears, its raise starts after a minute, the first probe of 1252 bytes
    is acknowledged. *)
Module Run.
Definition peer : SocketAddr := mkAddr (V4 (203 * 2 ^ 24 + 113 * 2 ^ 8 + 7)) 40000.
Definition quiet : PeerTickInput := mkTickInput peer default_health (f64_of_Z (-1)).
Definition path (_ : IpAddr) : Z := 1300.
Definition events : list MtuEvent :=
  [EvTick 0 [quiet]; EvTick (from_secs 60) [quiet]; EvAck peer 1252 1 2 (from_secs 60)].
Definition state (n : nat) : PathMtuDiscovery := foldl (mtu_step (H := canonical_iter)) new_pmtud (take n events).
Definition at_peer (n : nat) : PeerState := default (new_peer 0 0 0) (peers (state n) !! peer).

(** With nothing outstanding there is nothing to lose. *)
Lemma idle_losses M now d :
  forallb (fun kv : SocketAddr * PeerState => negb (busy kv.2)) (map_to_list (peers d)) = true -> losses_ok M now d.
Proof.
  rewrite forallb_forall. intros H a p Hp. apply elem_of_map_to_list, list_elem_of_In, H in Hp. cbn [snd] in Hp.
  apply negb_true_iff, not_busy in Hp as [Hi Hg]. by apply idle_loss_ok.
Qed.

Lemma reached2 B : mtu_reaches (H := canonical_iter) path B (state 2).
Proof.
  apply (mtu_reaches_step (H := canonical_iter) path B (state 1) (EvTick (from_secs 60) [quiet])).
  - apply (mtu_reaches_step (H := canonical_iter) path B (state 0) (EvTick 0 [quiet])); [apply mtu_reaches_new|].
    intros _. apply idle_losses. reflexivity.
  - intros _. apply idle_losses. vm_compute. reflexivity.
Qed.

Lemma reached B : mtu_reaches (H := canonical_iter) path B (state 3).
Proof.
  apply (mtu_reaches_step (H := canonical_iter) path B (state 2) (EvAck peer 1252 1 2 (from_secs 60))); [apply reached2|done].
Qed.
End Run.


(** On a path that loses only what is too large, the path MTU always lies in the window of the
    search, and where the window is closed up to the resolution it is found up to the resolution. *)
Theorem pmtud_window_sound `{HashIter} M d a p :
  (forall ip, DEFAULT_MTU <= M ip) -> mtu_reaches M true d -> peers d !! a = Some p ->
  last_good p <= cap M a < first_bad p /\
  (window_closed p (resolve_epsilon d) = true -> cap M a - last_good p < resolve_epsilon d).
Proof.
  intros HM Hr Hp. pose proof (mtu_reaches_ok M true HM d Hr a p Hp) as Hok.
  destruct (ok_window _ _ (cap_range M HM a) _ Hok) as (W1 & W2 & W3 & W4). specialize (W4 eq_refl).
  split; [lia|]. unfold window_closed, sat_sub. intros E%Z.leb_le. lia.
Qed.

Lemma pmtud_window_sound_witness :
  last_good (Run.at_peer 3) <= cap Run.path Run.peer < first_bad (Run.at_peer 3) /\
  (window_closed (Run.at_peer 3) (resolve_epsilon (Run.state 3)) = true ->
   cap Run.path Run.peer - last_good (Run.at_peer 3) < resolve_epsilon (Run.state 3)).
Proof.
  apply (@pmtud_window_sound canonical_iter Run.path (Run.state 3) Run.peer (Run.at_peer 3)).
  - done.
  - apply Run.reached.
  - vm_compute. reflexivity.
Defined.

(** ** The search ends

    One round of a search: a probe is issued and either acknowledged or refused.  Any answers, also
    contradictory ones, end it: a raise doubles its step, a bisection halves its window. *)

Definition probe_round `{HashIter} (a : SocketAddr) (d : PathMtuDiscovery) (answer : bool * Instant) : PathMtuDiscovery :=
  let '(acked, now) := answer in
  match issue_probe d a now with
  | (d, Some i) =>
      if acked then (on_ack d a (pi_size i) (pi_probe_id i) (pi_search_gen i) now).1
      else (on_send_hard_fail d a (pi_probe_id i) now).1
  | (d, None) => d
  end.

(** [n] more rounds are enough. *)
Definition rank (n : nat) (p : PeerState) : Prop :=
  match phase p with
  | Raise => exists k, n = (k + 12)%nat /\ (k <= 11)%nat /\ 1 <= step p <= 2 ^ 50 * 2 ^ (12 - Z.of_nat k) /\
                       MAX_MTU - last_good p < step p * 2 ^ Z.of_nat k /\ is_Some (raise_target p)
  | Binary | DownSearch => exists k, n = S k /\ first_bad p - last_good p <= 2 ^ Z.of_nat k
  | _ => True
  end.

Definition target (p : PeerState) : option Z :=
  match phase p with Raise => raise_target p | _ => binary_target p end.

Definition resting (p : PeerState) : Prop := is_searching (phase p) = false.

Lemma plateau_resting p now period rstep b : resting (enter_plateau p now period rstep b).
Proof. unfold resting, enter_plateau. mtu_simpl. repeat case_match; done. Qed.

Lemma finish_resting p now period rstep b : resting (finish_downsearch_plateau p now period rstep b).
Proof. apply plateau_resting. Qed.

Lemma close_or_freeze_spec d p now :
  resting (close_or_freeze d p now) \/ close_or_freeze d p now = p /\ window_closed p (resolve_epsilon d) = false.
Proof.
  unfold close_or_freeze. destruct (window_closed _ _).
  - left. destruct (bool_decide _); [apply finish_resting|apply plateau_resting].
  - unfold maybe_budget_freeze. destruct (bool_decide _); [by right|]. destruct (_ >=? _); [by left|by right].
Qed.

Lemma binary_target_eq p t : binary_target p = Some t -> MIN_MTU <= last_good p -> first_bad p <= FIRST_BAD_SENTINEL ->
  t = last_good p + (first_bad p - last_good p) / 2.
Proof.
  unfold binary_target. destruct (_ <=? _); [done|]. destruct (_ && _) eqn:E; [|done]. intros [= <-] H1 H2.
  rewrite Z.gtb_ltb in E. breflect. pose proof sizes. apply clamp_size_id. lia.
Qed.

(** The halves of a window that can be bisected. *)
Lemma halved n w : 1 < w -> w <= 2 ^ Z.of_nat n ->
  exists k, n = S k /\ w / 2 <= 2 ^ Z.of_nat k /\ w - w / 2 <= 2 ^ Z.of_nat k.
Proof.
  intros H1 H2. destruct n as [|n]; [change (2 ^ Z.of_nat 0) with 1 in H2; lia|]. exists n. split; [done|].
  rewrite Nat2Z.inj_succ, Z.pow_succ_r in H2 by lia. Z.to_euclidean_division_equations. lia.
Qed.

Lemma binary_target_wide p t : binary_target p = Some t -> 1 < first_bad p - last_good p.
Proof. unfold binary_target. destruct (Z.leb_spec (first_bad p) (last_good p + 1)); [done|]. lia. Qed.

Lemma raise_target_eq p t : raise_target p = Some t -> 0 <= last_good p <= MAX_MTU -> 1 <= step p <= 2 ^ 62 ->
  1 <= first_bad p ->
  t = Z.min (last_good p + step p) (Z.min (first_bad p - 1) MAX_MTU) /\ last_good p < Z.min (first_bad p - 1) MAX_MTU.
Proof.
  unfold raise_target, sat_sub. destruct (_ >=? _); [done|]. destruct (_ <=? _) eqn:E1; [done|].
  destruct (_ >? _); [|done]. intros [= <-] H1 H2 H3. pose proof sizes. breflect.
  rewrite wrap_small by (unfold in_u; lia). lia.
Qed.

(** A raise that was acknowledged and can go on has doubled its step and used up one doubling. *)
Lemma raise_rank d lg s k fb st :
  MIN_MTU <= lg <= MAX_MTU -> 1 <= s <= 2 ^ 50 * 2 ^ (12 - Z.of_nat k) -> (k <= 11)%nat ->
  MAX_MTU - lg < s * 2 ^ Z.of_nat k -> Z.min (lg + s) (Z.min (fb - 1) MAX_MTU) < Z.min (fb - 1) MAX_MTU ->
  1 <= raise_step d <= 2 ^ 50 -> st = Z.max (sat_mul U64_MAX s 2) (raise_step d) ->
  exists k', k = S k' /\ 1 <= st <= 2 ^ 50 * 2 ^ (12 - Z.of_nat k') /\ MAX_MTU - (lg + s) < st * 2 ^ Z.of_nat k'.
Proof.
  intros H1 H2 Hk H3 H4 H5 ->. destruct k as [|k]; [rewrite Z.mul_1_r in H3; lia|]. exists k. split; [done|].
  assert (HE : 2 ^ (12 - Z.of_nat k) = 2 * 2 ^ (12 - Z.of_nat (S k))).
  { replace (12 - Z.of_nat k) with (Z.succ (12 - Z.of_nat (S k))) by lia. apply Z.pow_succ_r. lia. }
  assert (HE1 : 2 ^ (12 - Z.of_nat (S k)) <= 2 ^ 12) by (apply Z.pow_le_mono_r; lia).
  assert (HE0 : 0 < 2 ^ (12 - Z.of_nat (S k))) by (apply Z.pow_pos_nonneg; lia).
  assert (HP : 0 < 2 ^ Z.of_nat k) by (apply Z.pow_pos_nonneg; lia).
  rewrite Nat2Z.inj_succ, Z.pow_succ_r in H3 by lia. unfold sat_mul, U64_MAX.
  rewrite (Z.min_r _ (s * 2)) by lia. rewrite HE. split; [lia|]. nia.
Qed.

Lemma acked_rank X B d p t now n :
  peer_ok X B p -> X <= MAX_MTU -> between p = true -> target p = Some t -> rank (S n) p ->
  1 <= raise_step d <= 2 ^ 50 ->
  resting (acked_peer d p t now) \/ rank n (acked_peer d p t now) /\ between (acked_peer d p t now) = true.
Proof.
  intros Hok HX Hb Ht Hr Hs. pose proof sizes as (S1 & S2 & S3 & S4). destruct Hok as (W1 & W2 & _).
  unfold acked_peer, target, between, rank in *. destruct (phase p) eqn:Ep; try done.
  - destruct Hr as (k & En & Hk & H1 & H2 & _).
    set (q := raise_stable _ <| step := _ |>). destruct (raise_target q) as [t'|] eqn:Eq; [|left; apply plateau_resting].
    right. assert (Eph : phase q = Raise) by (unfold q, raise_stable; destruct (_ >? _); done). rewrite Eph. split; [|done].
    assert (Elg : last_good q = t) by (unfold q, raise_stable; by destruct (_ >? _)).
    assert (Efb : first_bad q = first_bad p) by (unfold q, raise_stable; by destruct (_ >? _)).
    assert (Est : step q = Z.max (sat_mul U64_MAX (step p) 2) (raise_step d)) by (unfold q, raise_stable; by destruct (_ >? _)).
    clearbody q.
    assert (H50 : step p <= 2 ^ 62).
    { assert (2 ^ (12 - Z.of_nat k) <= 2 ^ 12) by (apply Z.pow_le_mono_r; lia). lia. }
    apply raise_target_eq in Ht as [Ht Hlt]; [|lia..].
    assert (Hq : last_good q < Z.min (first_bad p - 1) MAX_MTU).
    { rewrite <- Efb. apply raise_target_spec in Eq; lia. }
    destruct (raise_rank d (last_good p) (step p) k (first_bad p) (step q)) as (k' & -> & R1 & R2); try done; try lia.
    exists k'. rewrite Eq. split; [lia|]. split; [lia|]. split; [done|]. split; [|done]. lia.
  - pose proof (binary_target_wide p t Ht). apply binary_target_eq in Ht; [|lia..]. destruct Hr as (k & [= <-] & Hw).
    destruct (halved n (first_bad p - last_good p)) as (k & -> & A1 & A2); [done..|].
    destruct (window_closed _ _); [left; apply plateau_resting|right].
    assert (0 <= (first_bad p - last_good p) / 2) by (apply Z.div_pos; lia).
    unfold raise_stable. destruct (_ >? _); mtu_simpl; rewrite Ep; (split; [exists k; split; [done|lia]|done]).
  - pose proof (binary_target_wide p t Ht). apply binary_target_eq in Ht; [|lia..]. destruct Hr as (k & [= <-] & Hw).
    destruct (halved n (first_bad p - last_good p)) as (k & -> & A1 & A2); [done..|].
    destruct (window_closed _ _); [left; apply finish_resting|right].
    assert (0 <= (first_bad p - last_good p) / 2) by (apply Z.div_pos; lia). mtu_simpl. rewrite Ep. split; [exists k; split; [done|lia]|done].
Qed.

Lemma failed_rank X B d a p t now ev n :
  peer_ok X B p -> between p = true -> target p = Some t -> rank (S n) p -> peers d !! a = Some p ->
  exists p', peers (apply_timeout_confirmed_fail d a t now ev).1 = <[a := p']> (peers d) /\
    (resting p' \/ rank n p' /\ between p' = true /\ inflight p' = None).
Proof.
  intros Hok Hb Ht Hr Ha. pose proof sizes as (S1 & S2 & S3 & S4). destruct Hok as (W1 & W2 & _).
  unfold apply_timeout_confirmed_fail, target, between, rank in *. rewrite Ha. destruct (phase p) eqn:Ep; try done.
  - destruct Hr as (k & En & Hk & _). apply raise_target_spec in Ht as (T1 & T2 & T3); [|lia].
    rewrite clamp_size_id by lia. cbn [fst]. eexists. split; [reflexivity|].
    match goal with |- resting (close_or_freeze d ?q now) \/ _ => destruct (close_or_freeze_spec d q now) as [?|[-> _]] end; [by left|].
    right. mtu_simpl. split; [|done]. exists (n - 1)%nat. split; [lia|].
    assert (2 ^ 10 <= 2 ^ Z.of_nat (n - 1)) by (apply Z.pow_le_mono_r; lia). lia.
  - pose proof (binary_target_wide p t Ht). apply binary_target_spec in Ht as T; [|lia..].
    apply binary_target_eq in Ht; [|lia..]. destruct Hr as (k & [= <-] & Hw).
    destruct (halved n (first_bad p - last_good p)) as (k & -> & A1 & A2); [done..|].
    rewrite clamp_size_id by lia. cbn [fst]. eexists. split; [reflexivity|].
    match goal with |- resting (close_or_freeze d ?q now) \/ _ => destruct (close_or_freeze_spec d q now) as [?|[-> _]] end; [by left|].
    right. mtu_simpl. rewrite Ep. split; [exists k; split; [done|lia]|done].
  - pose proof (binary_target_wide p t Ht). apply binary_target_spec in Ht as T; [|lia..].
    apply binary_target_eq in Ht; [|lia..]. destruct Hr as (k & [= <-] & Hw).
    destruct (halved n (first_bad p - last_good p)) as (k & -> & A1 & A2); [done..|].
    rewrite clamp_size_id by lia. cbn [fst]. eexists. split; [reflexivity|].
    match goal with |- resting (close_or_freeze d ?q now) \/ _ => destruct (close_or_freeze_spec d q now) as [?|[-> _]] end; [by left|].
    right. mtu_simpl. rewrite Ep. split; [exists k; split; [done|lia]|done].
Qed.

Lemma next_target d p now n :
  peer_ok MAX_MTU false p -> between p = true -> rank n p -> 1 <= resolve_epsilon d ->
  (exists t, target p = Some t /\ probe_size d p now = inl (Some t)) \/
  (exists p', probe_size d p now = inr p' /\ resting p').
Proof.
  intros (W1 & W2 & _) Hb Hr He. unfold target, probe_size, between, rank in *. destruct (phase p) eqn:Ep; try done.
  - destruct Hr as (k & _ & _ & _ & _ & [t Ht]). left. exists t. by rewrite Ht.
  - destruct (window_closed _ _) eqn:Ew; [right; eexists; split; [reflexivity|]; apply plateau_resting|left].
    unfold window_closed, sat_sub in Ew. apply Z.leb_gt in Ew. unfold binary_target.
    rewrite (proj2 (Z.leb_gt _ _)), (proj2 (Z.gtb_lt _ _)), (proj2 (Z.ltb_lt _ _)) by (Z.to_euclidean_division_equations; lia).
    by eexists.
  - destruct (window_closed _ _) eqn:Ew; [right; eexists; split; [reflexivity|]; apply finish_resting|left].
    unfold window_closed, sat_sub in Ew. apply Z.leb_gt in Ew. unfold binary_target.
    rewrite (proj2 (Z.leb_gt _ _)), (proj2 (Z.gtb_lt _ _)), (proj2 (Z.ltb_lt _ _)) by (Z.to_euclidean_division_equations; lia).
    by eexists.
Qed.

(** No size the search tries is ruled out. *)
Definition any_path (_ : IpAddr) : Z := MAX_MTU.

Lemma any_path_ok ip : DEFAULT_MTU <= any_path ip.
Proof. done. Qed.

Lemma target_range p t : peer_ok MAX_MTU false p -> target p = Some t -> MIN_MTU <= t <= MAX_MTU.
Proof.
  intros (W1 & W2 & _) Ht. pose proof sizes. unfold target in Ht.
  destruct (phase p); try (apply binary_target_spec in Ht; lia). apply raise_target_spec in Ht; lia.
Qed.

Section Rounds.
Context `{HashIter} (a : SocketAddr).

Definition round_inv (n : nat) (d : PathMtuDiscovery) : Prop :=
  peers_ok any_path false d /\ pinned d = None /\ 1 <= resolve_epsilon d /\ 1 <= raise_step d <= 2 ^ 50 /\
  (0 <= probe_id_counter d /\ probe_id_counter d + Z.of_nat n < 2 ^ 32) /\
  exists p, peers d !! a = Some p /\ (resting p \/ rank n p /\ between p = true /\ busy p = false).

(** What a round leaves alone. *)
Definition same_config (d d' : PathMtuDiscovery) : Prop :=
  pinned d' = pinned d /\ resolve_epsilon d' = resolve_epsilon d /\ raise_step d' = raise_step d /\
  probe_id_counter d <= probe_id_counter d' <= probe_id_counter d + 1.

Lemma same_config_recalc d : same_config d (recalc_min d).
Proof. unfold same_config, recalc_min. destruct (pinned d) eqn:E; mtu_simpl; rewrite ?E; (split; [done|]); repeat split; lia. Qed.

Lemma round_inv_next n d d' p' :
  round_inv (S n) d -> same_config d d' -> peers_ok any_path false d' -> peers d' !! a = Some p' ->
  (resting p' \/ rank n p' /\ between p' = true /\ busy p' = false) -> round_inv n d'.
Proof.
  intros (H1 & H2 & H3 & H4 & H5 & _) (E1 & E2 & E3 & E4) Hok Hp Hc. unfold round_inv. rewrite E1, E2, E3.
  split; [done|]. split; [done|]. split; [done|]. split; [done|]. split; [lia|]. by exists p'.
Qed.

Lemma not_between_resting p : between p = false -> at_stable p = false -> resting p.
Proof. unfold between, at_stable, resting. by destruct (phase p). Qed.

(** A peer at rest is left at rest. *)
Lemma issue_resting d p now : peers d !! a = Some p -> resting p ->
  exists d', issue_probe d a now = (d', None) /\ same_config d d' /\ exists p', peers d' !! a = Some p' /\ resting p'.
Proof.
  intros Hp Hr. unfold issue_probe. rewrite Hp.
  assert (Hc : same_config d d) by (unfold same_config; repeat split; lia).
  destruct (busy p); [by eexists; split; [done|]; split; [done|]; exists p|].
  unfold maybe_budget_freeze. destruct (bool_decide _) eqn:Eb.
  { apply bool_decide_eq_true in Eb. unfold resting in Hr. by rewrite Eb in Hr. }
  destruct (_ >=? _).
  - eexists. split; [done|]. split; [exact Hc|]. eexists. split; [apply lookup_put|done].
  - unfold resting in Hr. unfold probe_size. destruct (phase p) eqn:Ep; try done;
      (eexists; split; [done|]; split; [done|]; exists p; split; [done|]; unfold resting; by rewrite Ep).
Qed.

(** A peer that searches is probed, or its search ends. *)
Lemma issue_between n d p now :
  round_inv (S n) d -> peers d !! a = Some p -> rank (S n) p -> between p = true -> busy p = false ->
  (exists d', issue_probe d a now = (d', None) /\ same_config d d' /\ exists p', peers d' !! a = Some p' /\ resting p') \/
  (exists t c, target p = Some t /\ 0 < probe_id_counter d + 1 < 2 ^ 32 /\
     issue_probe d a now =
       (put (d <| probe_id_counter := probe_id_counter d + 1 |>) a
          (begin_probe p (probe_id_counter d + 1) t (now + timeout_for_peer d p) c),
        Some (mkIntent a t (probe_id_counter d + 1) (search_gen p)))).
Proof.
  intros (Hok & Hn & He & Hs & Hc & _) Hp Hr Hb Hbu. unfold issue_probe. rewrite Hp, Hbu.
  assert (Hcf : same_config d d) by (unfold same_config; repeat split; lia).
  unfold maybe_budget_freeze. destruct (bool_decide _) eqn:Eb.
  { apply bool_decide_eq_true in Eb. unfold between in Hb. by rewrite Eb in Hb. }
  destruct (_ >=? _).
  { left. eexists. split; [done|]. split; [exact Hcf|]. eexists. split; [apply lookup_put|done]. }
  destruct (next_target d p now (S n)) as [(t & Ht & ->)|(p' & -> & Hr')]; [exact (Hok a p Hp)|done..| |].
  - right. exists t, (confirm_count d). split; [done|]. split; [lia|]. unfold next_probe_id. mtu_simpl.
    by rewrite wrap_small by (unfold in_u; lia).
  - left. eexists. split; [done|]. split; [exact Hcf|]. exists p'. split; [apply lookup_put|done].
Qed.

(** An acknowledgement or a refusal leaves nothing outstanding. *)
Lemma idle_not_busy p : inflight p = None -> grace p = None -> busy p = false.
Proof. unfold busy. by intros -> ->. Qed.

Lemma plateau_idle p now period rstep b : busy (enter_plateau p now period rstep b) = false.
Proof. unfold enter_plateau. mtu_simpl. repeat case_match; by apply idle_not_busy. Qed.

Lemma finish_idle p now period rstep b : busy (finish_downsearch_plateau p now period rstep b) = false.
Proof. apply plateau_idle. Qed.

Lemma raise_stable_idle p : inflight (raise_stable p) = inflight p /\ grace (raise_stable p) = grace p.
Proof. unfold raise_stable. by destruct (_ >? _). Qed.

Lemma acked_idle d p t now : inflight p = None -> grace p = None -> busy (acked_peer d p t now) = false.
Proof.
  intros Hi Hg. unfold acked_peer. destruct (phase p); try apply plateau_idle; try by apply idle_not_busy.
  - destruct (raise_target _); [|apply plateau_idle].
    destruct (raise_stable_idle (p <| last_good := t |>)) as [E1 E2]. apply idle_not_busy; [by etrans; [apply E1|]|by etrans; [apply E2|]].
  - destruct (window_closed _ _); [apply plateau_idle|].
    destruct (raise_stable_idle (p <| last_good := Z.max t (last_good p) |>)) as [E1 E2].
    apply idle_not_busy; [by rewrite E1|by rewrite E2].
  - destruct (window_closed _ _); [apply finish_idle|by apply idle_not_busy].
Qed.

Lemma between_idle X B p : peer_ok X B p -> between p = true -> inflight p = None -> busy p = false.
Proof.
  intros Hp Hb Hi. unfold busy. rewrite Hi. destruct (grace p) as [g|] eqn:Hg; [|done].
  destruct (ok_grace B X p g Hp Hg) as [Hs _]. unfold between, at_stable in *. by destruct (phase p).
Qed.

(** The state in which the probe of size [t] is outstanding. *)
Section Answered.
Context (d : PathMtuDiscovery) (p : PeerState) (t c dl now : Z) (n : nat).
Context (Hinv : round_inv (S n) d) (Hp : peers d !! a = Some p) (Hr : rank (S n) p) (Hb : between p = true).
Context (Ht : target p = Some t) (Hid : 0 < probe_id_counter d + 1 < 2 ^ 32).
Let id := probe_id_counter d + 1.
Let q := begin_probe p id t dl c.
Let d1 := put (d <| probe_id_counter := id |>) a q.
Context (Hd1 : peers_ok any_path false d1).

Lemma answered_config d2 : same_config d1 d2 -> probe_id_counter d2 = probe_id_counter d1 -> same_config d d2.
Proof.
  intros (Q1 & Q2 & Q3 & Q4) Q5. unfold same_config. rewrite Q1, Q2, Q3, Q5. unfold d1, put. mtu_simpl.
  repeat split; unfold id; lia.
Qed.

Lemma answered_range : MIN_MTU <= t <= MAX_MTU.
Proof. destruct Hinv as (Hok & _). exact (target_range p t (Hok a p Hp) Ht). Qed.

Lemma answered_id : (id =? 0) = false.
Proof. apply Z.eqb_neq. unfold id. lia. Qed.

Lemma counter_recalc e : probe_id_counter (recalc_min e) = probe_id_counter e.
Proof. unfold recalc_min. by destruct (pinned e). Qed.

Lemma ack_round : round_inv n (on_ack d1 a t id (search_gen p) now).1.
Proof.
  pose proof Hinv as (Hok & Hn & He & Hs & _). pose proof answered_range as Hrange.
  pose proof (on_ack_ok any_path false any_path_ok d1 a t id (search_gen p) now Hd1) as Hack.
  specialize (Hack ltac:(unfold any_path; lia)). revert Hack.
  assert (Hq : peers d1 !! a = Some q) by apply lookup_put.
  unfold on_ack. change (pinned d1) with (pinned d). rewrite Hn. unfold resolve_peer. rewrite Hq, clamp_size_id by done.
  rewrite Hq. change (inflight q) with (Some (mkInflight id (clamp_size t) dl c)).
  assert (Em : inflight_matches q id (search_gen p) t = true).
  { unfold inflight_matches, q, begin_probe. mtu_simpl. rewrite clamp_size_id by done. by rewrite !Z.eqb_refl, answered_id. }
  rewrite Em. cbn [fst]. intros Hack.
  set (p0 := q <| inflight := None |> <| grace := None |> <| ever_acked := true |>) in *.
  eapply round_inv_next; [done| |exact Hack|rewrite peers_recalc; apply lookup_put|].
  - apply answered_config; [|exact (counter_recalc (put d1 a (acked_peer d1 p0 t now)))]. exact (same_config_recalc (put d1 a (acked_peer d1 p0 t now))).
  - destruct (acked_rank MAX_MTU false d1 p0 t now n) as [Hrest|[Hrk Hbt]]; try done; [|by left|right].
    + apply (window_kept _ false (cap_range any_path any_path_ok a) p); [exact (Hok a p Hp)|done..].
    + split; [done|]. split; [done|]. by apply acked_idle.
Qed.

Lemma fail_round : round_inv n (on_send_hard_fail d1 a id now).1.
Proof.
  pose proof Hinv as (Hok & Hn & He & Hs & _). pose proof answered_range as Hrange.
  pose proof (on_send_hard_fail_ok any_path false any_path_ok d1 a id now Hd1) as Hf. specialize (Hf ltac:(done)). revert Hf.
  assert (Hq : peers d1 !! a = Some q) by apply lookup_put.
  unfold on_send_hard_fail. change (pinned d1) with (pinned d). rewrite Hn, Hq.
  change (inflight q) with (Some (mkInflight id (clamp_size t) dl c)). mtu_simpl. rewrite Z.eqb_refl, answered_id. cbn [negb orb].
  rewrite clamp_size_id by done. change (phase q) with (phase p).
  destruct (failed_rank MAX_MTU false d1 a q t now no_events n) as (p' & E & Hc); [exact (Hd1 a q Hq)|done..|].
  assert (Hcf : same_config d1 (apply_timeout_confirmed_fail d1 a t now no_events).1 /\
    probe_id_counter (apply_timeout_confirmed_fail d1 a t now no_events).1 = probe_id_counter d1).
  { unfold apply_timeout_confirmed_fail. rewrite Hq. change (phase q) with (phase p). unfold between in Hb.
    destruct (phase p); try done; (split; [|done]); unfold same_config; cbn [fst put pinned resolve_epsilon raise_step probe_id_counter setter]; repeat split; lia. }
  destruct Hcf as [Hcf Hct].
  enough (Hfin : peers_ok any_path false (apply_timeout_confirmed_fail d1 a t now no_events).1 ->
    round_inv n (apply_timeout_confirmed_fail d1 a t now no_events).1).
  { unfold between in Hb. destruct (phase p); done. }
  intros Hf. eapply round_inv_next; [done|by apply answered_config|done|rewrite E; apply lookup_insert_eq|].
  destruct Hc as [?|(Hrk & Hbt & Hi)]; [by left|right]. split; [done|]. split; [done|].
  eapply (between_idle MAX_MTU false); [|done..]. apply (Hf a p'). rewrite E. apply lookup_insert_eq.
Qed.
End Answered.

Lemma probe_round_inv n d x : round_inv (S n) d -> round_inv n (probe_round a d x).
Proof.
  intros Hinv. destruct x as [acked now]. pose proof Hinv as (Hok & Hn & He & Hs & Hc & p & Hp & Hcase). unfold probe_round.
  pose proof (issue_probe_ok any_path false any_path_ok now d a Hok) as H1.
  destruct Hcase as [Hrest|(Hr & Hb & Hbu)].
  - destruct (issue_resting d p now Hp Hrest) as (d' & E & Hcf & p' & Hp' & Hr'). rewrite E in *.
    eapply round_inv_next; [done..|by left].
  - destruct (issue_between n d p now Hinv Hp Hr Hb Hbu) as [(d' & E & Hcf & p' & Hp' & Hr')|(t & c & Ht & Hid & E)]; rewrite E in *.
    + eapply round_inv_next; [done..|by left].
    + cbn [fst pi_size pi_probe_id pi_search_gen] in *. destruct acked; [by apply ack_round|by apply fail_round].
Qed.

Lemma rounds_inv l : forall d, round_inv (length l) d -> round_inv 0 (foldl (probe_round a) d l).
Proof.
  induction l as [|x l IH]; intros d Hd; [done|]. cbn [foldl]. apply IH. by apply probe_round_inv.
Qed.
End Rounds.

Lemma peer_ok_mono X Y B p : X <= Y -> peer_ok X B p -> peer_ok Y false p.
Proof.
  intros HXY (W1 & W2 & W3 & _ & W). split; [lia|]. split; [done|]. split; [lia|]. by split.
Qed.

(** C11. A search ends, whatever the probes are answered: a raise that starts, or a bisection in any
    reachable window, is over after at most 23 answered probes, and the peer is at rest. *)
Theorem search_ends `{HashIter} M B d a p answers :
  (forall ip, DEFAULT_MTU <= M ip) -> mtu_reaches M B d -> peers d !! a = Some p ->
  pinned d = None -> 1 <= resolve_epsilon d -> 1 <= raise_step d <= 2 ^ 50 ->
  0 <= probe_id_counter d < 2 ^ 32 - 23 ->
  between p = true -> busy p = false -> (phase p = Raise -> step p = raise_step d /\ is_Some (raise_target p)) ->
  length answers = 23%nat ->
  exists p', peers (foldl (probe_round a) d answers) !! a = Some p' /\ is_searching (phase p') = false.
Proof.
  intros HM Hr Hp Hn He Hs Hc Hb Hbu Hst Hl.
  assert (Hok : peers_ok any_path false d).
  { intros b q Hq. apply (peer_ok_mono (cap M b) _ B); [unfold cap, any_path; lia|]. by apply (mtu_reaches_ok M B HM d Hr). }
  assert (Hinv : round_inv a (length answers) d).
  { rewrite Hl. split; [done|]. split; [done|]. split; [done|]. split; [done|]. split; [lia|]. exists p. split; [done|]. right.
    split; [|done]. destruct (Hok a p Hp) as (W1 & W2 & _). pose proof sizes. unfold between, rank in *.
    destruct (phase p) eqn:Ep; try done; [|by exists 22%nat; split; [done|]; lia..].
    destruct (Hst eq_refl) as [E1 E2]. exists 11%nat. rewrite E1. split_and!; try done; lia. }
  apply rounds_inv in Hinv as (_ & _ & _ & _ & _ & q & Hq & Hcase). exists q. split; [done|].
  destruct Hcase as [?|(Hrk & Hbt & _)]; [done|]. unfold rank, between in *.
  destruct (phase q); try done; [destruct Hrk as (k & ? & _); lia|by destruct Hrk as (k & ? & _)..].
Qed.

(** The bisection after the raise's first probe was refused. *)
Definition refused : PathMtuDiscovery :=
  mtu_step (H := canonical_iter) (Run.state 2) (EvHardFail Run.peer 1 (from_secs 60)).

Lemma refused_reached : mtu_reaches (H := canonical_iter) Run.path false refused.
Proof.
  refine (mtu_reaches_step _ _ (Run.state 2) (EvHardFail Run.peer 1 (from_secs 60)) _ _).
  - apply Run.reached2.
  - intros E. discriminate E.
Qed.

Lemma search_ends_witness :
  exists p', peers (foldl (probe_round (H := canonical_iter) Run.peer) refused (replicate 23 (true, from_secs 61))) !! Run.peer
             = Some p' /\ is_searching (phase p') = false.
Proof.
  apply (@search_ends canonical_iter Run.path false refused Run.peer
           (default (new_peer 0 0 0) (peers refused !! Run.peer))).
  - done.
  - exact refused_reached.
  - vm_compute. reflexivity.
  - reflexivity.
  - by vm_compute.
  - by vm_compute.
  - by vm_compute.
  - vm_compute. reflexivity.
  - vm_compute. reflexivity.
  - by vm_compute.
  - reflexivity.
Defined.

(** ** One peer, driven by the clock

    The default configuration against a path that carries packets of up to [m] bytes: each tick's
    probe is acknowledged after a millisecond if it fits, and times out if it does not. *)

Module Drive.

#[local] Existing Instance canonical_iter.
Import Run.

Fixpoint drive (fuel : nat) (m : Z) (d : PathMtuDiscovery) (now : Instant) : PathMtuDiscovery :=
  match fuel with
  | O => d
  | S fuel =>
      match on_tick d now [quiet] with
      | (d, [i], _) =>
          if pi_size i <=? m
          then drive fuel m (on_ack d peer (pi_size i) (pi_probe_id i) (pi_search_gen i) (now + from_millis 1)).1 (now + from_millis 1)
          else drive fuel m d (now + from_millis 500)
      | (d, _, _) => d
      end
  end.

Definition found (m : Z) : option PeerState :=
  peers (drive 60 m (on_tick new_pmtud 0 [quiet]).1.1 (from_secs 60)) !! peer.

(** At rest, within four bytes. *)
Definition good (m : Z) (o : option PeerState) : bool :=
  match o with
  | Some p => bool_decide (phase p = Plateau) && (last_good p <=? m) && (m <? last_good p + 4)
  | None => false
  end.

Lemma good_spec m o : good m o = true -> exists p, o = Some p /\ phase p = Plateau /\ last_good p <= m < last_good p + 4.
Proof.
  unfold good. destruct o as [p|]; [|done]. rewrite !andb_true_iff, bool_decide_eq_true. intros [[H1 H2] H3].
  exists p. split; [done|]. split; [done|]. lia.
Qed.

Lemma finds_all : forallb (fun m => good m (found m)) (map Z.of_nat (seq 1220 281)) = true.
Proof. vm_compute. reflexivity. Qed.

Lemma finds_spec m : 1220 <= m <= 1500 -> good m (found m) = true.
Proof.
  intros Hm. pose proof finds_all as H. rewrite forallb_forall in H. apply (H m), in_map_iff. exists (Z.to_nat m).
  split; [lia|]. apply in_seq. lia.
Qed.

Lemma drive_reaches m fuel : m <= MAX_MTU -> forall d now,
  mtu_reaches any_path false d -> mtu_reaches any_path false (drive fuel m d now).
Proof.
  intros Hm. induction fuel as [|fuel IH]; intros d now Hd; [done|]. cbn [drive].
  assert (Ht : mtu_reaches any_path false (on_tick d now [quiet]).1.1).
  { by apply (mtu_reaches_step _ _ d (EvTick now [quiet])). }
  destruct (on_tick d now [quiet]) as [[d1 [|i [|? ?]]] ev]; try exact Ht.
  destruct (pi_size i <=? m) eqn:E; [|by apply IH]. apply IH.
  apply (mtu_reaches_step _ _ d1 (EvAck peer (pi_size i) (pi_probe_id i) (pi_search_gen i) (now + from_millis 1))); [done|].
  cbn [event_ok]. unfold any_path. lia.
Qed.

Definition second : SocketAddr := mkAddr (V4 (198 * 2 ^ 24 + 51 * 2 ^ 16 + 9)) 40000.
Definition joined : PeerTickInput := mkTickInput second default_health (f64_of_Z (-1)).

(** The first peer has found a path of 1500 bytes; then a second one joins. *)
Definition first_seen : PathMtuDiscovery := mtu_step new_pmtud (EvTick 0 [quiet]).
Definition alone : PathMtuDiscovery := drive 60 1500 first_seen (from_secs 60).
Definition both : PathMtuDiscovery := mtu_step alone (EvTick (from_secs 61) [quiet; joined]).

Lemma both_reachable : mtu_reaches any_path false both.
Proof.
  refine (mtu_reaches_step _ _ alone (EvTick (from_secs 61) [quiet; joined]) _ _); [|intros E; discriminate E].
  apply drive_reaches; [discriminate|].
  refine (mtu_reaches_step _ _ new_pmtud (EvTick 0 [quiet]) _ _); [apply mtu_reaches_new|intros E; discriminate E].
Qed.
End Drive.

(** C12. Driven by the clock with the default configuration, one peer's search ends on a plateau within
    four bytes of the path MTU, for every path MTU from 1220 to 1500: the ticks, the probes, their
    acknowledgements and the three timeouts of each probe that is too large are all taken by the real
    operations. *)
Theorem default_search_finds_mtu m :
  1220 <= m <= 1500 ->
  exists p, Drive.found m = Some p /\ phase p = Plateau /\ last_good p <= m < last_good p + 4.
Proof.
  intros Hm. exact (Drive.good_spec m _ (Drive.finds_spec m Hm)).
Qed.

Lemma default_search_finds_mtu_witness :
  exists p, Drive.found 1404 = Some p /\ phase p = Plateau /\ last_good p <= 1404 < last_good p + 4.
Proof. apply (default_search_finds_mtu 1404). lia. Defined.

(** A peer that joins is not counted in the path minimum: there is a reachable state in which a
    known peer's size is below the minimum over all peers, so that the MTU suggested for the adapter
    (and the size of FEC shards, which are taken from the same minimum) exceeds what that peer's path
    is known to carry. *)
Theorem joined_peer_not_in_minimum :
  exists d a p, mtu_reaches (H := canonical_iter) any_path false d /\ peers d !! a = Some p /\
    last_good p < min_path_mtu d /\
    last_good p < suggested_adapter_mtu d 22 + (UNDERLAY_IPV4_UDP_OVERHEAD + 22).
Proof.
  exists Drive.both, Drive.second, (default (new_peer 0 0 0) (peers Drive.both !! Drive.second)).
  split; [apply Drive.both_reachable|]. split; [by vm_compute|]. split; by vm_compute.
Qed.
