(* ===== verification/Tuning.v ===== *)
(** * Tuning knobs (src/advanced_tuning.rs)

    The knobs a configuration file can set, their defaults, and [clamp], which every configuration
    goes through before the components use it.  The fields keep their names, prefixed by the group
    they belong to.  [f64::clamp] panics on an empty or undefined range, so a clamp whose bounds are
    themselves knobs returns an option: [None] is the panic.

    The theorems: what every clamped configuration guarantees to the other components, that the
    defaults are already clamped, and exactly which configurations make the clamp panic. *)

From S2P Require Import Prelude Float Packet Reliable Fec Pmtud.

(** ** The groups *)

Record FailoverTuning := mkFailover {
  fo_d2r_quality_min : Z; fo_d2r_loss_max : f64; fo_d2r_jitter_max : f64;
  fo_r2d_quality_min : Z; fo_r2d_success_min : Z; fo_hold_down_secs : Z
}.
#[export] Instance eta_FailoverTuning : Settable FailoverTuning :=
  fun r => mkFailover (fo_d2r_quality_min r) (fo_d2r_loss_max r) (fo_d2r_jitter_max r)
             (fo_r2d_quality_min r) (fo_r2d_success_min r) (fo_hold_down_secs r).

Definition D2R_LOSS_MAX : f64 := f64_lit 12 100.
Definition default_failover : FailoverTuning := mkFailover 35 D2R_LOSS_MAX (f64_of_Z 50) 50 3 2.

Record TimerTuning := mkTimers {
  tm_keepalive_secs : Z; tm_msyn_secs : Z; tm_pmtud_tick_ms : Z; tm_pmtud_raise_secs : Z;
  tm_ping_watchdog_ms : Z; tm_stale_tick_secs : Z; tm_stale_mark_secs : Z; tm_stale_evict_secs : Z
}.
#[export] Instance eta_TimerTuning : Settable TimerTuning :=
  fun r => mkTimers (tm_keepalive_secs r) (tm_msyn_secs r) (tm_pmtud_tick_ms r) (tm_pmtud_raise_secs r)
             (tm_ping_watchdog_ms r) (tm_stale_tick_secs r) (tm_stale_mark_secs r) (tm_stale_evict_secs r).
Definition default_timers : TimerTuning := mkTimers 5 15 50 60 100 30 35 45.

Definition default_reliable : ReliableTuning := mkRTuning 75 400 256 1 1500.
#[export] Instance eta_ReliableTuning : Settable ReliableTuning :=
  fun r => mkRTuning (t_rto_min_ms r) (t_rto_max_ms r) (t_max_pending r) (t_retries_left r) (t_send_scratch_bytes r).

Record BufferReuseTuning := mkBuffers {
  br_encrypt_scratch_bytes : Z; br_control_scratch_bytes : Z; br_plain_data_scratch_bytes : Z;
  br_decrypt_scratch_bytes : Z; br_fec_frame_scratch_bytes : Z
}.
Definition default_buffers : BufferReuseTuning :=
  mkBuffers 2048 512 2048 2048 (FEC_COMPACT_HEADER_LEN + FEC_SHARD_PAYLOAD_SIZE).

Definition clamp_buffers (b : BufferReuseTuning) : BufferReuseTuning :=
  mkBuffers (clamp 64 1048576 (br_encrypt_scratch_bytes b)) (clamp 32 131072 (br_control_scratch_bytes b))
    (clamp 64 1048576 (br_plain_data_scratch_bytes b)) (clamp 64 1048576 (br_decrypt_scratch_bytes b))
    (clamp 64 1048576 (br_fec_frame_scratch_bytes b)).

Record FecTuning := mkFecTuning {
  fe_shard_payload_size : Z; fe_flush_ms : Z; fe_flush_aggressive_ms : Z;
  fe_adaptive_off_below : f64; fe_adaptive_on_above : f64; fe_max_total_shards : Z
}.
#[export] Instance eta_FecTuning : Settable FecTuning :=
  fun r => mkFecTuning (fe_shard_payload_size r) (fe_flush_ms r) (fe_flush_aggressive_ms r)
             (fe_adaptive_off_below r) (fe_adaptive_on_above r) (fe_max_total_shards r).
Definition default_fec : FecTuning := mkFecTuning 1024 2 1 (f64_lit 25 1000) (f64_lit 5 100) 16.

Record RoutingEwmaTuning := mkEwma {
  ew_rtt_old : f64; ew_rtt_new : f64; ew_jitter_old : f64; ew_jitter_new : f64;
  ew_loss_decay : f64; ew_loss_success_delta : f64; ew_loss_fail_bump : f64;
  ew_bw_old : f64; ew_bw_new : f64; ew_quality_initial : Z;
  ew_quality_loss_scale : f64; ew_quality_loss_penalty_cap : f64;
  ew_quality_jitter_div : f64; ew_quality_jitter_penalty_cap : f64; ew_rtt_score_clamp_ms : Z
}.
Definition default_ewma : RoutingEwmaTuning :=
  mkEwma (f64_lit 8 10) (f64_lit 2 10) (f64_lit 8 10) (f64_lit 2 10)
    (f64_lit 85 100) (f64_lit 1 100) (f64_lit 5 100) (f64_lit 85 100) (f64_lit 15 100) 50
    (f64_of_Z 60) (f64_of_Z 40) (f64_of_Z 3) (f64_of_Z 30) 500.

Definition f0 : f64 := f64_of_Z 0.
Definition f1 : f64 := f64_of_Z 1.
Definition fhalf : f64 := f64_lit 1 2.

(** Two weights, brought to sum to one. *)
Definition renormalize_pair (old new : f64) : f64 * f64 :=
  let old := f_clamp f0 f1 old in
  let new := f_clamp f0 f1 new in
  let sum := f64_add old new in
  if f_lt f0 sum then (f64_div old sum, f64_div new sum) else (fhalf, fhalf).

Definition clamp_ewma (e : RoutingEwmaTuning) : RoutingEwmaTuning :=
  let '(ro, rn) := renormalize_pair (ew_rtt_old e) (ew_rtt_new e) in
  let '(jo, jn) := renormalize_pair (ew_jitter_old e) (ew_jitter_new e) in
  let '(bo, bn) := renormalize_pair (ew_bw_old e) (ew_bw_new e) in
  mkEwma ro rn jo jn
    (f_clamp fhalf (f64_lit 999 1000) (ew_loss_decay e))
    (f_clamp f0 (f64_lit 1 10) (ew_loss_success_delta e))
    (f_clamp f0 fhalf (ew_loss_fail_bump e))
    bo bn (clamp 0 100 (ew_quality_initial e))
    (f_clamp f0 (f64_of_Z 200) (ew_quality_loss_scale e))
    (f_clamp f0 (f64_of_Z 100) (ew_quality_loss_penalty_cap e))
    (f_clamp f1 (f64_of_Z 30) (ew_quality_jitter_div e))
    (f_clamp f0 (f64_of_Z 100) (ew_quality_jitter_penalty_cap e))
    (clamp 50 2000 (ew_rtt_score_clamp_ms e)).

Record EngineLimitsTuning := mkLimits {
  el_max_direct_retry_per_tick : Z; el_max_pending_heal_probes : Z; el_max_pending_stun_queries : Z;
  el_max_cc_probes_per_tick : Z; el_max_secondary_retry_per_tick : Z; el_stun_cache_ttl_secs : Z;
  el_msyn_body_max : Z; el_msyn_shard_budget_bytes : Z; el_heal_cooldown_ms : Z;
  el_probe_miss_fail_threshold : Z
}.
Definition default_limits : EngineLimitsTuning := mkLimits 8 96 8 32 4 30 524288 1200 1000 8.

Definition clamp_limits (l : EngineLimitsTuning) : EngineLimitsTuning :=
  let body := clamp 4096 524288 (el_msyn_body_max l) in
  let shard_hi := Z.min 4096 body in
  mkLimits (clamp 1 256 (el_max_direct_retry_per_tick l)) (clamp 1 1024 (el_max_pending_heal_probes l))
    (clamp 1 64 (el_max_pending_stun_queries l)) (clamp 1 256 (el_max_cc_probes_per_tick l))
    (clamp 1 256 (el_max_secondary_retry_per_tick l)) (clamp 1 600 (el_stun_cache_ttl_secs l))
    body (clamp 512 shard_hi (el_msyn_shard_budget_bytes l)) (clamp 50 60000 (el_heal_cooldown_ms l))
    (clamp 3 64 (el_probe_miss_fail_threshold l)).

Record HolePunchTuning := mkPunch {
  hp_stage1_packets : Z; hp_stage1_gap_ms : Z; hp_stage1_observe_ms : Z; hp_stage2_observe_secs : Z;
  hp_stage2_pps : Z; hp_stage3_pps : Z; hp_stage3_max_secs : Z; hp_stage3_batch_gap_ms : Z;
  hp_max_expanded_targets : Z; hp_wide_min_width : Z; hp_wide_max_width : Z;
  hp_random_port_min : Z; hp_random_port_max : Z
}.
Definition default_punch : HolePunchTuning := mkPunch 3 50 500 1 128 64 10 500 512 32 256 1024 65535.

Definition clamp_punch (p : HolePunchTuning) : HolePunchTuning :=
  let wmin := Z.min (Z.max (hp_wide_min_width p) 1) 2048 in
  let wmax := Z.min (Z.max (hp_wide_max_width p) 1) 2048 in
  let wmax := if wmax <? wmin then wmin else wmax in
  let pmin := if hp_random_port_min p =? 0 then 1 else hp_random_port_min p in
  let pmax := if hp_random_port_max p =? 0 then 1 else hp_random_port_max p in
  let '(pmin, pmax) := if pmin >? pmax then (pmax, pmin) else (pmin, pmax) in
  mkPunch (clamp 1 16 (hp_stage1_packets p)) (clamp 1 1000 (hp_stage1_gap_ms p))
    (Z.min (hp_stage1_observe_ms p) 10000) (Z.min (hp_stage2_observe_secs p) 30)
    (clamp 1 2000 (hp_stage2_pps p)) (clamp 1 2000 (hp_stage3_pps p)) (clamp 1 120 (hp_stage3_max_secs p))
    (Z.min (hp_stage3_batch_gap_ms p) 5000) (clamp 32 2048 (hp_max_expanded_targets p)) wmin wmax pmin pmax.

Record CongestionTuning := mkCongestion {
  cg_rtt_base_tracking : bool; cg_loss_classifier_enabled : bool; cg_target_queue_delay_ms : Z;
  cg_congestion_loss_threshold : f64; cg_base_rtt_window_secs : Z; cg_base_rtt_stale_windows : Z;
  cg_owd_clock_jump_reject_ms : Z; cg_owd_rtt_consistency_ms : Z; cg_owd_prefer_after_samples : Z;
  cg_probe_interval_ms : Z; cg_fec_recovery_recency_ms : Z; cg_enabled : bool; cg_gain : f64;
  cg_hol_escape_ms : Z; cg_initial_rate_bps : f64; cg_additive_increase_bps : f64;
  cg_min_decrease_factor : f64; cg_rate_smoothing_alpha : f64; cg_min_rate_bps : f64; cg_max_rate_bps : f64;
  cg_loss_multiplicative_decrease : f64; cg_burst_cap_bytes : Z; cg_delivery_rate_window_ms : Z;
  cg_delivery_rate_ewma_alpha : f64; cg_delivery_anchor_factor : f64; cg_delivery_decouple_ratio : f64
}.
#[export] Instance eta_CongestionTuning : Settable CongestionTuning :=
  fun r => mkCongestion (cg_rtt_base_tracking r) (cg_loss_classifier_enabled r) (cg_target_queue_delay_ms r)
    (cg_congestion_loss_threshold r) (cg_base_rtt_window_secs r) (cg_base_rtt_stale_windows r)
    (cg_owd_clock_jump_reject_ms r) (cg_owd_rtt_consistency_ms r) (cg_owd_prefer_after_samples r)
    (cg_probe_interval_ms r) (cg_fec_recovery_recency_ms r) (cg_enabled r) (cg_gain r)
    (cg_hol_escape_ms r) (cg_initial_rate_bps r) (cg_additive_increase_bps r)
    (cg_min_decrease_factor r) (cg_rate_smoothing_alpha r) (cg_min_rate_bps r) (cg_max_rate_bps r)
    (cg_loss_multiplicative_decrease r) (cg_burst_cap_bytes r) (cg_delivery_rate_window_ms r)
    (cg_delivery_rate_ewma_alpha r) (cg_delivery_anchor_factor r) (cg_delivery_decouple_ratio r).

Definition default_congestion : CongestionTuning :=
  mkCongestion true true 20 (f64_lit 7 10) 4 3 30000 5000 8 40 1200 true (f64_lit 1 10) 8
    (f64_of_Z 4000000) (f64_of_Z 32000) (f64_lit 9 10) (f64_lit 9 10) (f64_of_Z 1500000) (f64_of_Z 25000000)
    (f64_lit 9 10) 24000 750 (f64_lit 25 100) (f64_lit 95 100) (f64_lit 15 10).

(** [f64::MAX]. *)
Definition F64_MAX : f64 := S754_finite false 9007199254740991 971.

(** [x.clamp(lo, hi)], which panics unless [lo <= hi]. *)
Definition f_clamp_checked (lo hi x : f64) : option f64 :=
  if f_le lo hi then Some (f_clamp lo hi x) else None.

Definition RATE_CEILING : f64 := f64_of_Z 50000000.

Definition clamp_rate_knobs (c : CongestionTuning) : option CongestionTuning :=
  let c := c <| cg_gain := f_clamp (f64_lit 1 10) (f64_of_Z 4) (cg_gain c) |>
             <| cg_hol_escape_ms := clamp 4 100 (cg_hol_escape_ms c) |>
             <| cg_min_decrease_factor := f_clamp (f64_lit 1 10) (f64_lit 9 10) (cg_min_decrease_factor c) |>
             <| cg_additive_increase_bps := f_clamp (f64_of_Z 4000) (f64_of_Z 1000000) (cg_additive_increase_bps c) |>
             <| cg_rate_smoothing_alpha := f_clamp f0 (f64_lit 95 100) (cg_rate_smoothing_alpha c) |>
             <| cg_min_rate_bps := f_clamp (f64_of_Z 1000) F64_MAX (cg_min_rate_bps c) |> in
  max_rate ← f_clamp_checked (cg_min_rate_bps c) RATE_CEILING (cg_max_rate_bps c);
  let c := c <| cg_max_rate_bps := max_rate |>
             <| cg_loss_multiplicative_decrease := f_clamp (f64_lit 3 10) (f64_lit 9 10) (cg_loss_multiplicative_decrease c) |>
             <| cg_burst_cap_bytes := clamp 512 (256 * 1024) (cg_burst_cap_bytes c) |> in
  initial ← f_clamp_checked (cg_min_rate_bps c) (cg_max_rate_bps c) (cg_initial_rate_bps c);
  Some (c <| cg_initial_rate_bps := initial |>
          <| cg_delivery_rate_window_ms := clamp 100 5000 (cg_delivery_rate_window_ms c) |>
          <| cg_delivery_rate_ewma_alpha := f_clamp (f64_lit 5 100) f1 (cg_delivery_rate_ewma_alpha c) |>
          <| cg_delivery_anchor_factor := f_clamp fhalf (f64_lit 99 100) (cg_delivery_anchor_factor c) |>
          <| cg_delivery_decouple_ratio := f_clamp (f64_lit 105 100) (f64_of_Z 3) (cg_delivery_decouple_ratio c) |>).

Definition cc_probe_timer_period_ms (probe_interval_ms : Z) : Z :=
  if probe_interval_ms =? 0 then 3600000 else clamp 20 1000 probe_interval_ms.

Definition default_pmtud : PmtudTuning := mkPmtudTuning 500 3 4 32 64 4 4.

Record AdvancedTuning := mkAdvanced {
  at_failover : FailoverTuning; at_timers : TimerTuning; at_reliable : ReliableTuning; at_fec : FecTuning;
  at_congestion : CongestionTuning; at_pmtud : PmtudTuning; at_routing_ewma : RoutingEwmaTuning;
  at_engine_limits : EngineLimitsTuning; at_hole_punch : HolePunchTuning; at_buffers : BufferReuseTuning
}.

Definition default_advanced : AdvancedTuning :=
  mkAdvanced default_failover default_timers default_reliable default_fec default_congestion default_pmtud
    default_ewma default_limits default_punch default_buffers.

(** ** [AdvancedTuning::clamp], group by group *)

Definition clamp_failover (f : FailoverTuning) : FailoverTuning :=
  let f := f <| fo_d2r_loss_max := f_clamp f0 f1 (fo_d2r_loss_max f) |>
             <| fo_d2r_jitter_max := f_max (fo_d2r_jitter_max f) f0 |>
             <| fo_d2r_quality_min := clamp 0 100 (fo_d2r_quality_min f) |>
             <| fo_r2d_quality_min := clamp 0 100 (fo_r2d_quality_min f) |> in
  let f := if fo_r2d_quality_min f <? fo_d2r_quality_min f
           then f <| fo_r2d_quality_min := fo_d2r_quality_min f |> else f in
  f <| fo_r2d_success_min := Z.max (fo_r2d_success_min f) 1 |> <| fo_hold_down_secs := Z.max (fo_hold_down_secs f) 0 |>.

Definition clamp_timers (t : TimerTuning) : TimerTuning :=
  let t := mkTimers (Z.max (tm_keepalive_secs t) 1) (Z.max (tm_msyn_secs t) 1) (clamp 10 1000 (tm_pmtud_tick_ms t))
             (Z.max (tm_pmtud_raise_secs t) 1) (Z.max (tm_ping_watchdog_ms t) 10) (Z.max (tm_stale_tick_secs t) 1)
             (Z.max (tm_stale_mark_secs t) 1) (Z.max (tm_stale_evict_secs t) 1) in
  let t := if tm_stale_mark_secs t <=? tm_stale_tick_secs t
           then t <| tm_stale_mark_secs := wrap 64 (tm_stale_tick_secs t + 1) |> else t in
  if tm_stale_evict_secs t <=? tm_stale_mark_secs t
  then t <| tm_stale_evict_secs := wrap 64 (tm_stale_mark_secs t + 1) |> else t.

Definition clamp_reliable (r : ReliableTuning) : ReliableTuning :=
  let lo := Z.max (t_rto_min_ms r) 5 in
  mkRTuning lo (Z.max (t_rto_max_ms r) lo) (Z.max (t_max_pending r) 16) (Z.min (t_retries_left r) 8)
    (clamp 64 1048576 (t_send_scratch_bytes r)).

Definition clamp_fec (f : FecTuning) : FecTuning :=
  let f := f <| fe_shard_payload_size := clamp FEC_SHARD_PAYLOAD_MIN FEC_SHARD_PAYLOAD_SIZE (fe_shard_payload_size f) |>
             <| fe_flush_ms := Z.max (fe_flush_ms f) 1 |> <| fe_flush_aggressive_ms := Z.max (fe_flush_aggressive_ms f) 1 |>
             <| fe_adaptive_off_below := f_clamp f0 fhalf (fe_adaptive_off_below f) |>
             <| fe_adaptive_on_above := f_clamp f0 fhalf (fe_adaptive_on_above f) |> in
  let f := if f_lt (fe_adaptive_on_above f) (fe_adaptive_off_below f)
           then f <| fe_adaptive_on_above := fe_adaptive_off_below f |> else f in
  f <| fe_max_total_shards := clamp 2 FEC_MAX_TOTAL_SHARDS (fe_max_total_shards f) |>.

(** All of the congestion group but its rates. *)
Definition clamp_windows (c : CongestionTuning) : CongestionTuning :=
  let c := c <| cg_target_queue_delay_ms := clamp 10 150 (cg_target_queue_delay_ms c) |>
             <| cg_congestion_loss_threshold := f_clamp (f64_lit 3 10) (f64_lit 95 100) (cg_congestion_loss_threshold c) |>
             <| cg_base_rtt_window_secs := clamp 1 60 (cg_base_rtt_window_secs c) |>
             <| cg_base_rtt_stale_windows := clamp 1 10 (cg_base_rtt_stale_windows c) |>
             <| cg_owd_clock_jump_reject_ms := clamp 1000 600000 (cg_owd_clock_jump_reject_ms c) |>
             <| cg_owd_rtt_consistency_ms := clamp 500 120000 (cg_owd_rtt_consistency_ms c) |>
             <| cg_owd_prefer_after_samples := clamp 1 64 (cg_owd_prefer_after_samples c) |> in
  let c := if cg_probe_interval_ms c =? 0 then c
           else c <| cg_probe_interval_ms := clamp 20 1000 (cg_probe_interval_ms c) |> in
  let c := if cg_fec_recovery_recency_ms c =? 0 then c
           else c <| cg_fec_recovery_recency_ms := clamp 100 60000 (cg_fec_recovery_recency_ms c) |> in
  c <| cg_gain := f_clamp (f64_lit 1 10) (f64_of_Z 4) (cg_gain c) |>.

Definition clamp_congestion (c : CongestionTuning) : option CongestionTuning := clamp_rate_knobs (clamp_windows c).

Definition clamp_pmtud (p : PmtudTuning) : PmtudTuning :=
  mkPmtudTuning (clamp 50 10000 (t_probe_timeout_ms p)) (clamp 1 8 (t_confirm_count p)) (clamp 1 8 (t_resolve_epsilon p))
    (clamp 1 512 (t_raise_step p)) (clamp 8 256 (t_max_probes_per_search p)) (clamp 1 64 (t_max_concurrent_peers p))
    (Z.max (t_stable_downgrade_batches p) 1).

(** [AdvancedTuning::clamp]; [None] is the panic of [f64::clamp]. *)
Definition clamp_advanced (t : AdvancedTuning) : option AdvancedTuning :=
  congestion ← clamp_congestion (at_congestion t);
  Some (mkAdvanced (clamp_failover (at_failover t)) (clamp_timers (at_timers t)) (clamp_reliable (at_reliable t))
          (clamp_fec (at_fec t)) congestion (clamp_pmtud (at_pmtud t)) (clamp_ewma (at_routing_ewma t))
          (clamp_limits (at_engine_limits t)) (clamp_punch (at_hole_punch t)) (clamp_buffers (at_buffers t))).

(** ** What the clamp establishes *)

Definition failover_ok (f : FailoverTuning) : Prop :=
  0 <= fo_d2r_quality_min f <= fo_r2d_quality_min f /\ fo_r2d_quality_min f <= 100 /\ 1 <= fo_r2d_success_min f.
Definition timers_ok (t : TimerTuning) : Prop :=
  1 <= tm_stale_tick_secs t < tm_stale_mark_secs t /\ tm_stale_mark_secs t < tm_stale_evict_secs t /\
  1 <= tm_keepalive_secs t /\ 1 <= tm_msyn_secs t /\ 10 <= tm_pmtud_tick_ms t <= 1000 /\ 1 <= tm_pmtud_raise_secs t.
Definition reliable_ok (r : ReliableTuning) : Prop :=
  5 <= t_rto_min_ms r <= t_rto_max_ms r /\ 16 <= t_max_pending r /\ t_retries_left r <= 8.
Definition fec_ok (f : FecTuning) : Prop :=
  FEC_SHARD_PAYLOAD_MIN <= fe_shard_payload_size f <= FEC_SHARD_PAYLOAD_SIZE /\
  2 <= fe_max_total_shards f <= FEC_MAX_TOTAL_SHARDS /\ 1 <= fe_flush_ms f /\ 1 <= fe_flush_aggressive_ms f /\
  f_lt (fe_adaptive_on_above f) (fe_adaptive_off_below f) = false.
Definition congestion_ok (c : CongestionTuning) : Prop :=
  f_le (cg_min_rate_bps c) (cg_max_rate_bps c) = true /\ f_le (cg_max_rate_bps c) RATE_CEILING = true /\
  f_le (f64_of_Z 1000) (cg_min_rate_bps c) = true /\
  (f_is_nan (cg_initial_rate_bps c) = false ->
   f_le (cg_min_rate_bps c) (cg_initial_rate_bps c) = true /\ f_le (cg_initial_rate_bps c) (cg_max_rate_bps c) = true) /\
  10 <= cg_target_queue_delay_ms c <= 150 /\ 1 <= cg_base_rtt_window_secs c <= 60 /\
  1 <= cg_base_rtt_stale_windows c <= 10 /\ 1 <= cg_owd_prefer_after_samples c <= 64 /\ 4 <= cg_hol_escape_ms c <= 100 /\
  512 <= cg_burst_cap_bytes c <= 262144.
Definition pmtud_ok (p : PmtudTuning) : Prop :=
  1 <= t_resolve_epsilon p <= 8 /\ 1 <= t_raise_step p <= 512 /\ 1 <= t_confirm_count p <= 8 /\
  8 <= t_max_probes_per_search p <= 256 /\ 1 <= t_max_concurrent_peers p <= 64 /\ 1 <= t_stable_downgrade_batches p.
Definition limits_ok (l : EngineLimitsTuning) : Prop :=
  512 <= el_msyn_shard_budget_bytes l <= 4096 /\ 4096 <= el_msyn_body_max l <= 524288 /\
  3 <= el_probe_miss_fail_threshold l <= 64 /\ 1 <= el_max_pending_stun_queries l <= 64.
Definition punch_ok (p : HolePunchTuning) : Prop :=
  1 <= hp_random_port_min p <= hp_random_port_max p /\ 1 <= hp_wide_min_width p <= hp_wide_max_width p /\
  hp_wide_max_width p <= 2048 /\ 1 <= hp_stage2_pps p <= 2000 /\ 1 <= hp_stage3_pps p <= 2000 /\
  32 <= hp_max_expanded_targets p <= 2048.
Definition ewma_ok (e : RoutingEwmaTuning) : Prop :=
  0 <= ew_quality_initial e <= 100 /\ 50 <= ew_rtt_score_clamp_ms e <= 2000.

Definition tuning_ok (t : AdvancedTuning) : Prop :=
  failover_ok (at_failover t) /\ timers_ok (at_timers t) /\ reliable_ok (at_reliable t) /\ fec_ok (at_fec t) /\
  congestion_ok (at_congestion t) /\ pmtud_ok (at_pmtud t) /\ limits_ok (at_engine_limits t) /\
  punch_ok (at_hole_punch t) /\ ewma_ok (at_routing_ewma t).

(** Unsigned fields are not negative; the file format's integers have 63 bits. *)
Definition file_range (t : AdvancedTuning) : Prop :=
  (0 <= tm_stale_tick_secs (at_timers t) < 2 ^ 63 /\ 0 <= tm_stale_mark_secs (at_timers t) < 2 ^ 63 /\
   0 <= tm_stale_evict_secs (at_timers t) < 2 ^ 63) /\
  0 <= hp_random_port_min (at_hole_punch t) /\ 0 <= hp_random_port_max (at_hole_punch t).

(** Every clamp of the goal with constant bounds, as its range. *)
Ltac clamps :=
  repeat match goal with
  | |- context [clamp ?lo ?hi ?x] =>
      let c := fresh "c" in let H := fresh "Hc" in
      assert (H : lo <= clamp lo hi x <= hi) by (apply clamp_bounds; unfold FEC_SHARD_PAYLOAD_MIN, FEC_SHARD_PAYLOAD_SIZE, FEC_MAX_TOTAL_SHARDS; lia);
      set (c := clamp lo hi x) in *; clearbody c
  end.

Lemma clamp_failover_ok f : failover_ok (clamp_failover f).
Proof.
  unfold clamp_failover, failover_ok. cbn [setter fo_r2d_quality_min fo_d2r_quality_min]. clamps.
  bsplit; cbn [setter fo_r2d_quality_min fo_d2r_quality_min fo_r2d_success_min]; lia.
Qed.

Lemma clamp_timers_ok t :
  0 <= tm_stale_tick_secs t < 2 ^ 63 -> 0 <= tm_stale_mark_secs t < 2 ^ 63 -> 0 <= tm_stale_evict_secs t < 2 ^ 63 ->
  timers_ok (clamp_timers t).
Proof.
  intros H1 H2 H3. unfold clamp_timers, timers_ok. cbn [setter tm_stale_mark_secs tm_stale_tick_secs tm_stale_evict_secs]. clamps.
  rewrite !wrap_small by (unfold in_u; bsplit; cbn [setter tm_stale_mark_secs]; rewrite ?wrap_small by (unfold in_u; lia); lia).
  bsplit; cbn [setter tm_keepalive_secs tm_msyn_secs tm_pmtud_tick_ms tm_pmtud_raise_secs tm_stale_mark_secs tm_stale_tick_secs tm_stale_evict_secs] in *;
    rewrite ?wrap_small in * by (unfold in_u; lia); lia.
Qed.

Lemma clamp_reliable_ok r : reliable_ok (clamp_reliable r).
Proof. unfold clamp_reliable, reliable_ok. cbn [t_rto_min_ms t_rto_max_ms t_max_pending t_retries_left]. lia. Qed.

Lemma f_lt_irrefl x : f_lt x x = false.
Proof.
  destruct (f_lt x x) eqn:E; [|done]. pose proof E as (Hn & _ & _)%f_lt_key. pose proof (f_le_refl x Hn) as (_ & _ & H)%f_le_lt.
  congruence.
Qed.

Lemma f_lt_antisym x y : f_lt x y = true -> f_lt y x = false.
Proof. intros H%f_lt_le. by apply f_le_lt in H as (_ & _ & ?). Qed.

Lemma clamp_fec_ok f : fec_ok (clamp_fec f).
Proof.
  unfold clamp_fec, fec_ok.
  cbn [setter fe_shard_payload_size fe_flush_ms fe_flush_aggressive_ms fe_adaptive_off_below fe_adaptive_on_above fe_max_total_shards].
  clamps. unfold FEC_SHARD_PAYLOAD_MIN, FEC_SHARD_PAYLOAD_SIZE, FEC_MAX_TOTAL_SHARDS in *.
  destruct (f_lt _ _) eqn:E;
    cbn [setter fe_shard_payload_size fe_flush_ms fe_flush_aggressive_ms fe_adaptive_off_below fe_adaptive_on_above fe_max_total_shards].
  - split_and!; try lia. apply f_lt_irrefl.
  - split_and!; try lia. done.
Qed.

Lemma clamp_pmtud_ok p : pmtud_ok (clamp_pmtud p).
Proof.
  unfold clamp_pmtud, pmtud_ok.
  cbn [t_resolve_epsilon t_raise_step t_confirm_count t_max_probes_per_search t_max_concurrent_peers t_stable_downgrade_batches].
  clamps. lia.
Qed.

Lemma clamp_limits_ok l : limits_ok (clamp_limits l).
Proof.
  unfold clamp_limits, limits_ok.
  cbn [el_msyn_shard_budget_bytes el_msyn_body_max el_probe_miss_fail_threshold el_max_pending_stun_queries].
  assert (4096 <= clamp 4096 524288 (el_msyn_body_max l)) by (apply clamp_bounds; lia). rewrite Z.min_l by done. clamps. lia.
Qed.

Lemma clamp_punch_ok p : 0 <= hp_random_port_min p -> 0 <= hp_random_port_max p -> punch_ok (clamp_punch p).
Proof.
  intros H1 H2. unfold clamp_punch, punch_ok. clamps. bsplit;
    cbn [hp_random_port_min hp_random_port_max hp_wide_min_width hp_wide_max_width hp_stage2_pps hp_stage3_pps hp_max_expanded_targets]; lia.
Qed.

Lemma clamp_ewma_ok e : ewma_ok (clamp_ewma e).
Proof.
  unfold clamp_ewma, ewma_ok. destruct (renormalize_pair _ _) as [ro rn]. destruct (renormalize_pair _ _) as [jo jn].
  destruct (renormalize_pair _ _) as [bo bn]. cbn [ew_quality_initial ew_rtt_score_clamp_ms]. clamps. lia.
Qed.

Lemma f_clamp_nan lo hi x : f_is_nan x = true -> f_clamp lo hi x = x.
Proof. destruct x; try done. intros _. unfold f_clamp, f_lt, SFltb. by destruct lo, hi. Qed.

Lemma f_clamp_not_nan lo hi x :
  f_is_nan lo = false -> f_is_nan hi = false -> f_is_nan x = false -> f_is_nan (f_clamp lo hi x) = false.
Proof. unfold f_clamp. intros. destruct (f_lt x lo), (f_lt hi _); done. Qed.

Lemma f_clamp_checked_Some lo hi x y :
  f_clamp_checked lo hi x = Some y -> f_le lo hi = true /\ y = f_clamp lo hi x /\
  (f_is_nan x = false -> f_le lo y = true /\ f_le y hi = true).
Proof.
  unfold f_clamp_checked. destruct (f_le lo hi) eqn:E; [|done]. intros [= <-]. split; [done|]. split; [done|].
  intros Hx. pose proof E as (? & ? & _)%f_le_lt. by apply f_clamp_bounds.
Qed.

Ltac cg_simpl :=
  cbn [setter cg_rtt_base_tracking cg_loss_classifier_enabled cg_target_queue_delay_ms cg_congestion_loss_threshold
       cg_base_rtt_window_secs cg_base_rtt_stale_windows cg_owd_clock_jump_reject_ms cg_owd_rtt_consistency_ms
       cg_owd_prefer_after_samples cg_probe_interval_ms cg_fec_recovery_recency_ms cg_enabled cg_gain cg_hol_escape_ms
       cg_initial_rate_bps cg_additive_increase_bps cg_min_decrease_factor cg_rate_smoothing_alpha cg_min_rate_bps
       cg_max_rate_bps cg_loss_multiplicative_decrease cg_burst_cap_bytes cg_delivery_rate_window_ms
       cg_delivery_rate_ewma_alpha cg_delivery_anchor_factor cg_delivery_decouple_ratio] in *.

Definition MIN_RATE_FLOOR : f64 := f64_of_Z 1000.

(** What the rates of a clamped configuration are. *)
Lemma clamp_rate_knobs_Some c c' :
  clamp_rate_knobs c = Some c' ->
  let lo := f_clamp MIN_RATE_FLOOR F64_MAX (cg_min_rate_bps c) in
  exists hi ini, f_clamp_checked lo RATE_CEILING (cg_max_rate_bps c) = Some hi /\
    f_clamp_checked lo hi (cg_initial_rate_bps c) = Some ini /\
    cg_min_rate_bps c' = lo /\ cg_max_rate_bps c' = hi /\ cg_initial_rate_bps c' = ini /\
    cg_target_queue_delay_ms c' = cg_target_queue_delay_ms c /\ cg_base_rtt_window_secs c' = cg_base_rtt_window_secs c /\
    cg_base_rtt_stale_windows c' = cg_base_rtt_stale_windows c /\
    cg_owd_prefer_after_samples c' = cg_owd_prefer_after_samples c /\ 4 <= cg_hol_escape_ms c' <= 100 /\
    512 <= cg_burst_cap_bytes c' <= 262144.
Proof.
  intros H lo. unfold clamp_rate_knobs in H. cg_simpl. fold MIN_RATE_FLOOR in H. fold lo in H.
  destruct (f_clamp_checked lo RATE_CEILING _) as [hi|] eqn:E1; [|done]. cbn [mbind option_bind] in H. cg_simpl.
  destruct (f_clamp_checked lo hi _) as [ini|] eqn:E2; [|done]. cbn [mbind option_bind] in H. injection H as <-. cg_simpl.
  exists hi, ini. repeat (split; [done|]). split; apply clamp_bounds; lia.
Qed.

Lemma clamp_rate_knobs_None c :
  let lo := f_clamp MIN_RATE_FLOOR F64_MAX (cg_min_rate_bps c) in
  clamp_rate_knobs c = None <->
  match f_clamp_checked lo RATE_CEILING (cg_max_rate_bps c) with
  | None => True
  | Some hi => f_clamp_checked lo hi (cg_initial_rate_bps c) = None
  end.
Proof.
  intros lo. unfold clamp_rate_knobs. cg_simpl. fold MIN_RATE_FLOOR. fold lo.
  destruct (f_clamp_checked lo RATE_CEILING _) as [hi|]; [|done]. cbn [mbind option_bind]. cg_simpl.
  destruct (f_clamp_checked lo hi _) as [ini|]; cbn [mbind option_bind]; [|done]. split; intros E; discriminate E.
Qed.

Lemma clamp_windows_spec c :
  cg_min_rate_bps (clamp_windows c) = cg_min_rate_bps c /\ cg_max_rate_bps (clamp_windows c) = cg_max_rate_bps c /\
  cg_initial_rate_bps (clamp_windows c) = cg_initial_rate_bps c /\
  10 <= cg_target_queue_delay_ms (clamp_windows c) <= 150 /\ 1 <= cg_base_rtt_window_secs (clamp_windows c) <= 60 /\
  1 <= cg_base_rtt_stale_windows (clamp_windows c) <= 10 /\ 1 <= cg_owd_prefer_after_samples (clamp_windows c) <= 64.
Proof.
  unfold clamp_windows. cg_simpl. clamps. destruct (_ =? 0); cg_simpl; (destruct (_ =? 0); cg_simpl; split_and!; try done; lia).
Qed.

(** The checks of a range whose ends are knobs succeed exactly on these numbers. *)
Lemma clamp_checked_iff lo hi x :
  f_clamp_checked lo hi x = None <-> f_is_nan lo = true \/ f_is_nan hi = true \/ f_lt hi lo = true.
Proof.
  unfold f_clamp_checked. destruct (f_le lo hi) eqn:E.
  - apply f_le_lt in E as (H1 & H2 & H3). rewrite H1, H2, H3. naive_solver.
  - split; [|done]. intros _. destruct (f_is_nan lo) eqn:H1; [by left|]. destruct (f_is_nan hi) eqn:H2; [by right; left|].
    right; right. destruct (f_lt hi lo) eqn:H3; [done|]. assert (f_le lo hi = true) by (by apply f_le_lt). congruence.
Qed.

Lemma clamp_congestion_ok c c' : clamp_congestion c = Some c' -> congestion_ok c'.
Proof.
  unfold clamp_congestion. intros H. destruct (clamp_windows_spec c) as (E1 & E2 & E3 & W).
  apply clamp_rate_knobs_Some in H as (hi & ini & C1 & C2 & F1 & F2 & F3 & R1 & R2 & R3 & R4 & R5).
  rewrite E1 in *. rewrite E2 in *. rewrite E3 in *. unfold congestion_ok. rewrite F1, F2, F3, R1, R2, R3, R4.
  apply f_clamp_checked_Some in C1 as (L1 & Ehi & B1). apply f_clamp_checked_Some in C2 as (L2 & Eini & B2).
  pose proof L1 as (Nlo & _ & _)%f_le_lt. pose proof L2 as (_ & Nhi & _)%f_le_lt.
  assert (Nm : f_is_nan (cg_min_rate_bps c) = false).
  { destruct (f_is_nan (cg_min_rate_bps c)) eqn:E; [|done]. rewrite f_clamp_nan in Nlo; congruence. }
  assert (Nx : f_is_nan (cg_max_rate_bps c) = false).
  { destruct (f_is_nan (cg_max_rate_bps c)) eqn:E; [|done]. rewrite Ehi, f_clamp_nan in Nhi; congruence. }
  split; [done|]. split; [by apply B1|]. split; [by apply f_clamp_bounds|].
  split; [|destruct W as (W1 & W2 & W3 & W4), R5 as [R5 R6]; tauto].
  intros Ni. apply B2. destruct (f_is_nan (cg_initial_rate_bps c)) eqn:E; [|done]. rewrite Eini, f_clamp_nan in Ni; congruence.
Qed.

Lemma clamp_advanced_Some t t' :
  clamp_advanced t = Some t' -> clamp_congestion (at_congestion t) = Some (at_congestion t') /\
  at_failover t' = clamp_failover (at_failover t) /\ at_timers t' = clamp_timers (at_timers t) /\
  at_reliable t' = clamp_reliable (at_reliable t) /\ at_fec t' = clamp_fec (at_fec t) /\
  at_pmtud t' = clamp_pmtud (at_pmtud t) /\ at_engine_limits t' = clamp_limits (at_engine_limits t) /\
  at_hole_punch t' = clamp_punch (at_hole_punch t) /\ at_routing_ewma t' = clamp_ewma (at_routing_ewma t).
Proof.
  unfold clamp_advanced. destruct (clamp_congestion (at_congestion t)) as [c|]; [|done]. cbn [mbind option_bind].
  destruct t' as [f1 f2 f3 f4 f5 f6 f7 f8 f9 f10]. intros [= -> -> -> -> -> -> -> -> -> _]. repeat split.
Qed.

(** Every configuration that is read from a file and clamped has the ranges and orders the components
    rely on: failover thresholds ordered (no flapping between relay and direct), staleness marked
    before it evicts, retransmission bounds ordered, shards within the wire format, the rates ordered
    and the probe search's steps positive. *)
Theorem clamped_tuning_ok t t' : file_range t -> clamp_advanced t = Some t' -> tuning_ok t'.
Proof.
  intros [(H1 & H2 & H3) [H4 H5]] H. apply clamp_advanced_Some in H as (Hc & E1 & E2 & E3 & E4 & E5 & E6 & E7 & E8).
  unfold tuning_ok. rewrite E1, E2, E3, E4, E5, E6, E7, E8.
  split; [apply clamp_failover_ok|]. split; [by apply clamp_timers_ok|]. split; [apply clamp_reliable_ok|].
  split; [apply clamp_fec_ok|]. split; [by eapply clamp_congestion_ok|]. split; [apply clamp_pmtud_ok|].
  split; [apply clamp_limits_ok|]. split; [by apply clamp_punch_ok|]. apply clamp_ewma_ok.
Qed.

(** The defaults are already clamped. *)
Lemma default_clamped : clamp_advanced default_advanced = Some default_advanced.
Proof. vm_compute. reflexivity. Qed.

Lemma clamped_tuning_ok_witness : tuning_ok default_advanced.
Proof.
  apply (clamped_tuning_ok default_advanced).
  - vm_compute. intuition discriminate.
  - exact default_clamped.
Defined.

Lemma f_lt_clamp_floor x : f_is_nan x = false -> f_lt RATE_CEILING (f_clamp MIN_RATE_FLOOR F64_MAX x) = f_lt RATE_CEILING x.
Proof.
  intros Hx. unfold f_clamp. destruct (f_lt x MIN_RATE_FLOOR) eqn:E1.
  - change (f_lt F64_MAX MIN_RATE_FLOOR) with false. cbv match. change (f_lt RATE_CEILING MIN_RATE_FLOOR) with false.
    symmetry. destruct (f_lt RATE_CEILING x) eqn:E2; [|done].
    pose proof (f_lt_le_absurd x MIN_RATE_FLOOR RATE_CEILING E1 (f_lt_le _ _ E2)) as E. by vm_compute in E.
  - destruct (f_lt F64_MAX x) eqn:E2; [|done]. change (f_lt RATE_CEILING F64_MAX) with true. symmetry.
    by apply (f_lt_le_absurd F64_MAX x RATE_CEILING E2).
Qed.

(** The clamp panics on exactly these configurations: a least rate that is above 50000000 or not a
    number, or a greatest rate that is not a number.  Every other value of every knob is accepted. *)
Theorem clamp_panics_iff t :
  clamp_advanced t = None <->
  f_is_nan (cg_min_rate_bps (at_congestion t)) = true \/ f_lt RATE_CEILING (cg_min_rate_bps (at_congestion t)) = true \/
  f_is_nan (cg_max_rate_bps (at_congestion t)) = true.
Proof.
  set (c := at_congestion t). destruct (clamp_windows_spec c) as (E1 & E2 & E3 & _).
  assert (Hc : clamp_advanced t = None <-> clamp_congestion c = None).
  { unfold clamp_advanced. fold c. by destruct (clamp_congestion c). }
  rewrite Hc. clear Hc. unfold clamp_congestion. rewrite clamp_rate_knobs_None, E1, E2, E3.
  set (lo := f_clamp MIN_RATE_FLOOR F64_MAX (cg_min_rate_bps c)).
  destruct (f_is_nan (cg_min_rate_bps c)) eqn:Nm.
  { assert (Hlo : f_is_nan lo = true) by (unfold lo; by rewrite f_clamp_nan).
    pose proof (proj2 (clamp_checked_iff lo RATE_CEILING (cg_max_rate_bps c)) (or_introl Hlo)) as ->. split; [by left|done]. }
  assert (Nlo : f_is_nan lo = false) by (unfold lo; by apply f_clamp_not_nan).
  rewrite <- (f_lt_clamp_floor (cg_min_rate_bps c)) by done. fold lo.
  destruct (f_clamp_checked lo RATE_CEILING (cg_max_rate_bps c)) as [hi|] eqn:C1.
  2: { apply clamp_checked_iff in C1 as [?|[?|?]]; [congruence|done|]. split; [by right; left|done]. }
  apply f_clamp_checked_Some in C1 as (L1 & -> & B1). pose proof L1 as (_ & _ & ->)%f_le_lt.
  destruct (f_is_nan (cg_max_rate_bps c)) eqn:Nx.
  - rewrite (f_clamp_nan lo RATE_CEILING) by done.
    pose proof (proj2 (clamp_checked_iff lo (cg_max_rate_bps c) (cg_initial_rate_bps c)) (or_intror (or_introl Nx))) as ->. split; [by right; right|done].
  - destruct (B1 eq_refl) as [B2 _]. unfold f_clamp_checked. rewrite B2.
    split; [intros E; discriminate E|intros [E|[E|E]]; discriminate E].
Qed.
