(* ===== verification/BackgroundCc.v ===== *)
(** * Background congestion control (src/net/background_cc.rs)

    A LEDBAT-style rate per peer, in bytes per second: additive increase while the queuing delay is
    at most the target, multiplicative decrease above it and on an edge of the loss estimate, with a
    token bucket that the pacing engine asks before it sends.

    The theorems: on every run of operations and for arbitrary samples, also NaN and infinite ones,
    a peer's rate stays within the configured bounds and its tokens never become negative, and a
    refill leaves no more than the burst cap; a loss that comes without queuing delay does not change
    the rate. *)

From S2P Require Import Prelude Float Fec FecRatio Tuning.

Record BackgroundCcConfig := mkCcConfig {
  bc_enabled : bool; bc_gain : f64; bc_min_decrease_factor : f64; bc_additive_increase_bps : f64;
  bc_rate_smoothing_alpha : f64; bc_initial_rate_bps : f64; bc_min_rate_bps : f64; bc_max_rate_bps : f64;
  bc_loss_multiplicative_decrease : f64; bc_burst_cap_bytes : f64; bc_target_queue_delay_ms : Z;
  bc_hol_escape_ms : Z; bc_delivery_rate_window_ms : Z; bc_delivery_rate_ewma_alpha : f64;
  bc_delivery_anchor_factor : f64; bc_delivery_decouple_ratio : f64; bc_loss_classifier_enabled : bool;
  bc_congestion_loss_threshold : f64; bc_qd_telemetry_valid : bool
}.

(** [CongestionTuning::to_background_cc_config]. *)
Definition to_background_cc_config (c : CongestionTuning) : BackgroundCcConfig :=
  mkCcConfig (cg_enabled c) (cg_gain c) (cg_min_decrease_factor c) (cg_additive_increase_bps c)
    (cg_rate_smoothing_alpha c) (cg_initial_rate_bps c) (cg_min_rate_bps c) (cg_max_rate_bps c)
    (cg_loss_multiplicative_decrease c) (f64_of_Z (cg_burst_cap_bytes c)) (cg_target_queue_delay_ms c)
    (cg_hol_escape_ms c) (cg_delivery_rate_window_ms c) (cg_delivery_rate_ewma_alpha c)
    (cg_delivery_anchor_factor c) (cg_delivery_decouple_ratio c) (cg_loss_classifier_enabled c)
    (cg_congestion_loss_threshold c) (cg_rtt_base_tracking c).

Record PeerCcState := mkCc {
  rate_bps : f64; smoothed_rate_bps : f64; token_bytes : f64; last_loss_ewma : f64; bytes_acc : f64;
  window_elapsed_secs : f64; delivery_rate_bps : option f64
}.
#[export] Instance eta_PeerCcState : Settable PeerCcState :=
  fun r => mkCc (rate_bps r) (smoothed_rate_bps r) (token_bytes r) (last_loss_ewma r) (bytes_acc r)
             (window_elapsed_secs r) (delivery_rate_bps r).

Definition new_cc (initial : f64) : PeerCcState := mkCc initial initial f0 f0 f0 f0 None.

Record CcUpdateCounters := mkCcCounters {
  increase_events : Z; decrease_events : Z; loss_decrease_events : Z; delivery_anchor_events : Z;
  loss_ignored_random_events : Z
}.
#[export] Instance eta_CcUpdateCounters : Settable CcUpdateCounters :=
  fun r => mkCcCounters (increase_events r) (decrease_events r) (loss_decrease_events r)
             (delivery_anchor_events r) (loss_ignored_random_events r).
Definition no_counters : CcUpdateCounters := mkCcCounters 0 0 0 0 0.
Definition count (n : Z) : Z := sat_add U64_MAX n 1.

Record BackgroundCcEngine := mkCcEngine {
  cc_config : BackgroundCcConfig; cc_peers : gmap SocketAddr PeerCcState; cc_counters : CcUpdateCounters
}.
#[export] Instance eta_BackgroundCcEngine : Settable BackgroundCcEngine :=
  fun r => mkCcEngine (cc_config r) (cc_peers r) (cc_counters r).

Ltac cc_simpl :=
  cbn [setter rate_bps smoothed_rate_bps token_bytes last_loss_ewma bytes_acc window_elapsed_secs delivery_rate_bps
       cc_config cc_peers cc_counters fst snd] in *.

Definition new_cc_engine (config : BackgroundCcConfig) : BackgroundCcEngine := mkCcEngine config ∅ no_counters.
Definition set_config (e : BackgroundCcEngine) (config : BackgroundCcConfig) : BackgroundCcEngine := e <| cc_config := config |>.

Definition take_counters (e : BackgroundCcEngine) : BackgroundCcEngine * CcUpdateCounters :=
  (e <| cc_counters := no_counters |>, cc_counters e).

(** ** The rate *)

(** A rising loss edge is acted on unless the delay telemetry says the queue is short; counts the
    edges that are ignored. *)
Definition loss_action (cfg : BackgroundCcConfig) (loss_edge : bool) (qd_ms : f64) (c : CcUpdateCounters)
  : bool * CcUpdateCounters :=
  if negb loss_edge then (false, c)
  else if negb (bc_loss_classifier_enabled cfg) || negb (bc_qd_telemetry_valid cfg) || f_lt qd_ms f0 then (true, c)
  else if fec_delay_is_congestive qd_ms (bc_target_queue_delay_ms cfg) (bc_congestion_loss_threshold cfg) then (true, c)
  else (false, c <| loss_ignored_random_events := count (loss_ignored_random_events c) |>).

(** The delivery rate a decrease anchors to, when the rate has run away from it. *)
Definition anchor (cfg : BackgroundCcConfig) (st : PeerCcState) : option f64 :=
  match delivery_rate_bps st with
  | Some d => if f_lt f0 d && f_lt (f64_mul d (bc_delivery_decouple_ratio cfg)) (rate_bps st) then Some d else None
  | None => None
  end.

(** The rate after a decrease on loss, then an increase or a decrease on delay, before it is clamped. *)
Definition raw_rate (cfg : BackgroundCcConfig) (rate : f64) (loss_actionable : bool) (qd_ms delay_ratio : f64) : f64 :=
  let r := if loss_actionable then f_max (f64_mul rate (bc_loss_multiplicative_decrease cfg)) (bc_min_rate_bps cfg) else rate in
  if f_le f0 qd_ms then
    if f_le delay_ratio f1 then f64_add r (bc_additive_increase_bps cfg)
    else f64_mul r (f_clamp (bc_min_decrease_factor cfg) f1 (f64_sub f1 (f64_mul (bc_gain cfg) (f64_sub delay_ratio f1))))
  else r.

Definition apply_background_cc_rate_update (st : PeerCcState) (cfg : BackgroundCcConfig) (qd_ms loss_ewma : f64)
    (c : CcUpdateCounters) : PeerCcState * CcUpdateCounters :=
  let loss_edge := f_lt D2R_LOSS_MAX loss_ewma && f_le (last_loss_ewma st) D2R_LOSS_MAX in
  let st := st <| last_loss_ewma := loss_ewma |> in
  let target := f64_of_Z (Z.max (bc_target_queue_delay_ms cfg) 1) in
  let delay_ratio := if f_le f0 qd_ms then f64_div qd_ms target else f0 in
  let delay_excess := f_le f0 qd_ms && f_lt f1 delay_ratio in
  let '(loss_actionable, c) := loss_action cfg loss_edge qd_ms c in
  match (if loss_actionable || delay_excess then anchor cfg st else None) with
  | Some delivery =>
      let r := f_clamp (bc_min_rate_bps cfg) (bc_max_rate_bps cfg) (f64_mul delivery (bc_delivery_anchor_factor cfg)) in
      let c := c <| delivery_anchor_events := count (delivery_anchor_events c) |> in
      let c := if loss_actionable then c <| loss_decrease_events := count (loss_decrease_events c) |> else c in
      let c := if delay_excess then c <| decrease_events := count (decrease_events c) |> else c in
      (st <| rate_bps := r |> <| smoothed_rate_bps := r |>, c)
  | None =>
      let c := if loss_actionable then c <| loss_decrease_events := count (loss_decrease_events c) |> else c in
      let c := if f_le f0 qd_ms then
                 if f_le delay_ratio f1 then c <| increase_events := count (increase_events c) |>
                 else c <| decrease_events := count (decrease_events c) |>
               else c in
      let r := f_clamp (bc_min_rate_bps cfg) (bc_max_rate_bps cfg) (raw_rate cfg (rate_bps st) loss_actionable qd_ms delay_ratio) in
      let alpha := f_clamp f0 (f64_lit 95 100) (bc_rate_smoothing_alpha cfg) in
      (st <| rate_bps := r |>
          <| smoothed_rate_bps := f64_add (f64_mul alpha (smoothed_rate_bps st)) (f64_mul (f64_sub f1 alpha) r) |>, c)
  end.

(** ** The engine *)

Definition refill_peer (cfg : BackgroundCcConfig) (dt_secs : f64) (st : PeerCcState) : PeerCcState :=
  let window_secs := f64_div (f64_of_Z (Z.max (bc_delivery_rate_window_ms cfg) 1)) (f64_of_Z 1000) in
  let ewma_alpha := f_clamp (f64_lit 5 100) f1 (bc_delivery_rate_ewma_alpha cfg) in
  let st := st <| token_bytes := f_min (f64_add (token_bytes st) (f64_mul (smoothed_rate_bps st) dt_secs)) (bc_burst_cap_bytes cfg) |>
               <| window_elapsed_secs := f64_add (window_elapsed_secs st) dt_secs |> in
  if f_le window_secs (window_elapsed_secs st) then
    let st :=
      if f_lt f0 (bytes_acc st) then
        let sample := f64_div (bytes_acc st) (window_elapsed_secs st) in
        st <| delivery_rate_bps :=
                Some (match delivery_rate_bps st with
                      | Some prev => f64_add (f64_mul ewma_alpha sample) (f64_mul (f64_sub f1 ewma_alpha) prev)
                      | None => sample
                      end) |>
           <| bytes_acc := f0 |>
      else st in
    st <| window_elapsed_secs := f0 |>
  else st.

Definition refill_all_tokens (e : BackgroundCcEngine) (dt_secs : f64) : BackgroundCcEngine :=
  if negb (bc_enabled (cc_config e)) || f_le dt_secs f0 then e
  else e <| cc_peers := refill_peer (cc_config e) dt_secs <$> cc_peers e |>.

Definition cc_ensure_peer (e : BackgroundCcEngine) (dest : SocketAddr) : BackgroundCcEngine :=
  if negb (bc_enabled (cc_config e)) then e
  else
    match cc_peers e !! dest with
    | Some _ => e
    | None => e <| cc_peers := <[dest := new_cc (bc_initial_rate_bps (cc_config e))]> (cc_peers e) |>
    end.

Definition on_cc_sample (e : BackgroundCcEngine) (dest : SocketAddr) (qd_ms loss_ewma : f64) : BackgroundCcEngine :=
  if negb (bc_enabled (cc_config e)) then e
  else
    let st := default (new_cc (bc_initial_rate_bps (cc_config e))) (cc_peers e !! dest) in
    let '(st, c) := apply_background_cc_rate_update st (cc_config e) qd_ms loss_ewma (cc_counters e) in
    e <| cc_peers := <[dest := st]> (cc_peers e) |> <| cc_counters := c |>.

Definition peer_can_send_bytes (st : PeerCcState) (cfg : BackgroundCcConfig) (pkt_len : Z) (hol_sojourn_ms : f32) : bool :=
  if f_le (f32_of_Z (bc_hol_escape_ms cfg)) hol_sojourn_ms then true
  else if f_le (f64_of_Z pkt_len) (token_bytes st) then true
  else f_lt (bc_burst_cap_bytes cfg) (f64_of_Z pkt_len) && f_lt f0 (token_bytes st).

Definition can_send_data (e : BackgroundCcEngine) (dest : SocketAddr) (pkt_len : Z) (hol_sojourn_ms : f32) : bool :=
  if negb (bc_enabled (cc_config e)) then true
  else
    match cc_peers e !! dest with
    | Some st => peer_can_send_bytes st (cc_config e) pkt_len hol_sojourn_ms
    | None => true
    end.

Definition consume_send_bytes (e : BackgroundCcEngine) (dest : SocketAddr) (pkt_len : Z) : BackgroundCcEngine :=
  if negb (bc_enabled (cc_config e)) then e
  else
    match cc_peers e !! dest with
    | Some st =>
        e <| cc_peers := <[dest := st <| token_bytes := f_max (f64_sub (token_bytes st) (f64_of_Z pkt_len)) f0 |>
                                      <| bytes_acc := f64_add (bytes_acc st) (f64_of_Z pkt_len) |>]> (cc_peers e) |>
    | None => e
    end.

Definition cc_remove_peer (e : BackgroundCcEngine) (dest : SocketAddr) : BackgroundCcEngine :=
  e <| cc_peers := delete dest (cc_peers e) |>.

(** Least, mean and greatest rate; the sum is taken in the order of the map. *)
Definition rate_distribution `{HashIter} (e : BackgroundCcEngine) : f64 * f64 * f64 :=
  match hm_iter (cc_peers e) with
  | [] => (f0, f0, f0)
  | l =>
      let rates := (fun kv : SocketAddr * PeerCcState => smoothed_rate_bps kv.2) <$> l in
      (foldl f_min F64_MAX rates, f64_div (foldl f64_add f0 rates) (f64_of_Z (len l)), foldl f_max f0 rates)
  end.

Definition delivery_rate_distribution `{HashIter} (e : BackgroundCcEngine) : f64 * f64 * f64 :=
  let rates := omap (fun kv : SocketAddr * PeerCcState => delivery_rate_bps kv.2) (hm_iter (cc_peers e)) in
  match rates with
  | [] => (f0, f0, f0)
  | _ => (foldl f_min F64_MAX rates, f64_div (foldl f64_add f0 rates) (f64_of_Z (len rates)), foldl f_max f0 rates)
  end.

(** ** Bounds *)

(** Configurations the clamp lets through: ordered rates, positive factors. *)
Definition cfg_ok (cfg : BackgroundCcConfig) : bool :=
  let alpha := f_clamp f0 (f64_lit 95 100) (bc_rate_smoothing_alpha cfg) in
  f_le (bc_min_rate_bps cfg) (bc_max_rate_bps cfg) && f_pos_finite (bc_min_rate_bps cfg) &&
  f_pos_finite (bc_max_rate_bps cfg) && f_le (bc_min_rate_bps cfg) (bc_initial_rate_bps cfg) &&
  f_le (bc_initial_rate_bps cfg) (bc_max_rate_bps cfg) && f_pos_finite (bc_gain cfg) &&
  f_pos_finite (bc_min_decrease_factor cfg) && f_nonneg (bc_additive_increase_bps cfg) &&
  f_pos_finite (bc_loss_multiplicative_decrease cfg) && f_pos_finite (bc_delivery_anchor_factor cfg) &&
  f_pos_finite (bc_burst_cap_bytes cfg) && f_pos_finite (f64_of_Z (Z.max (bc_target_queue_delay_ms cfg) 1)) &&
  f_weak alpha && f_weak (f64_sub f1 alpha).

Definition cc_ok (cfg : BackgroundCcConfig) (st : PeerCcState) : Prop :=
  f_le (bc_min_rate_bps cfg) (rate_bps st) = true /\ f_le (rate_bps st) (bc_max_rate_bps cfg) = true /\
  f_weak (smoothed_rate_bps st) = true /\ f_le f0 (token_bytes st) = true.

Lemma pos_nonneg x : f_pos_finite x = true -> f_nonneg x = true.
Proof. by destruct x as [[]|[]| |[] m e]. Qed.

Lemma pos_not_nan x : f_pos_finite x = true -> f_is_nan x = false.
Proof. by destruct x as [[]|[]| |[] m e]. Qed.

(** A number between positive bounds is positive. *)
Lemma between_pos lo hi x :
  f_pos_finite lo = true -> f_pos_finite hi = true -> f_le lo x = true -> f_le x hi = true -> f_pos_finite x = true.
Proof.
  destruct lo as [[]|[]| |[] ml el]; try done. destruct hi as [[]|[]| |[] mh eh]; try done.
  by destruct x as [[]|[]| |[] mx ex].
Qed.

Section Bounds.
Context (cfg : BackgroundCcConfig) (Hcfg : cfg_ok cfg = true).

Lemma cfg_facts :
  f_le (bc_min_rate_bps cfg) (bc_max_rate_bps cfg) = true /\ f_pos_finite (bc_min_rate_bps cfg) = true /\
  f_pos_finite (bc_max_rate_bps cfg) = true /\ f_le (bc_min_rate_bps cfg) (bc_initial_rate_bps cfg) = true /\
  f_le (bc_initial_rate_bps cfg) (bc_max_rate_bps cfg) = true /\ f_pos_finite (bc_gain cfg) = true /\
  f_pos_finite (bc_min_decrease_factor cfg) = true /\ f_nonneg (bc_additive_increase_bps cfg) = true /\
  f_pos_finite (bc_loss_multiplicative_decrease cfg) = true /\ f_pos_finite (bc_delivery_anchor_factor cfg) = true /\
  f_pos_finite (bc_burst_cap_bytes cfg) = true.
Proof. unfold cfg_ok in Hcfg. cbv zeta in Hcfg. rewrite !andb_true_iff in Hcfg. tauto. Qed.

Lemma cfg_alpha : let alpha := f_clamp f0 (f64_lit 95 100) (bc_rate_smoothing_alpha cfg) in
  f_weak alpha = true /\ f_weak (f64_sub f1 alpha) = true.
Proof. unfold cfg_ok in Hcfg. cbv zeta in Hcfg. rewrite !andb_true_iff in Hcfg. intros alpha. unfold alpha. tauto. Qed.

Lemma clamp_rate r :
  f_is_nan r = false ->
  f_le (bc_min_rate_bps cfg) (f_clamp (bc_min_rate_bps cfg) (bc_max_rate_bps cfg) r) = true /\
  f_le (f_clamp (bc_min_rate_bps cfg) (bc_max_rate_bps cfg) r) (bc_max_rate_bps cfg) = true.
Proof.
  intros Hr. destruct cfg_facts as (H1 & H2 & H3 & _). apply f_clamp_bounds; [done|by apply pos_not_nan..|done].
Qed.

Lemma new_cc_ok : cc_ok cfg (new_cc (bc_initial_rate_bps cfg)).
Proof.
  destruct cfg_facts as (H1 & H2 & H3 & H4 & H5 & _). unfold cc_ok, new_cc. cc_simpl.
  split; [done|]. split; [done|]. split; [|done].
  by apply f_nonneg_weak, pos_nonneg, (between_pos (bc_min_rate_bps cfg) (bc_max_rate_bps cfg)).
Qed.

(** The decrease is by a positive factor of at most one. *)
Lemma decrease_factor_pos qd target :
  f_le f0 qd = true -> f_pos_finite target = true ->
  f_pos_finite (f_clamp (bc_min_decrease_factor cfg) f1
    (f64_sub f1 (f64_mul (bc_gain cfg) (f64_sub (f64_div qd target) f1)))) = true.
Proof.
  intros Hq Ht. destruct cfg_facts as (_ & _ & _ & _ & _ & Hg & Hm & _). apply f_clamp_pos; [done|done|].
  apply f64_sub_not_nan; [done| |by left]. apply f64_mul_not_nan; [done|]. apply f64_sub_not_nan; [|done|by right].
  destruct target as [[]|[]| |[] mt et]; try done. destruct qd as [[]|[]| |[] mq eq]; try done.
  unfold f64_div, SFdiv. pose proof (SFdiv_core_nonneg 53 1024 mq eq mt et) as H.
  destruct (SFdiv_core_binary _ _ _ _ _ _) as [[q e] l]. by apply binary_round_aux_not_nan.
Qed.

Lemma target_pos : f_pos_finite (f64_of_Z (Z.max (bc_target_queue_delay_ms cfg) 1)) = true.
Proof. unfold cfg_ok in Hcfg. cbv zeta in Hcfg. rewrite !andb_true_iff in Hcfg. tauto. Qed.

(** The rate before the final clamp is a number. *)
Lemma raw_rate_ok st qd (act : bool) :
  cc_ok cfg st ->
  let target := f64_of_Z (Z.max (bc_target_queue_delay_ms cfg) 1) in
  f_is_nan (raw_rate cfg (rate_bps st) act qd (if f_le f0 qd then f64_div qd target else f0)) = false.
Proof.
  intros (R1 & R2 & _) target. destruct cfg_facts as (_ & Hmin & Hmax & _ & _ & Hg & Hm & Ha & Hl & _).
  assert (Hr : f_nonneg (rate_bps st) = true) by (by apply pos_nonneg, (between_pos (bc_min_rate_bps cfg) (bc_max_rate_bps cfg))).
  unfold raw_rate. set (r := if act then _ else _).
  assert (Hr0 : f_nonneg r = true).
  { unfold r. destruct act; [|done]. by apply f_max_pos; [apply SFmul_nonneg|]. }
  clearbody r. destruct (f_le f0 qd) eqn:Eq; [|by apply f_nonneg_not_nan].
  destruct (f_le _ f1); apply f_nonneg_not_nan; [by apply SFadd_nonneg|].
  apply SFmul_nonneg; [done|]. apply decrease_factor_pos; [done|apply target_pos].
Qed.

Lemma rate_update_ok st qd loss c : cc_ok cfg st -> cc_ok cfg (apply_background_cc_rate_update st cfg qd loss c).1.
Proof.
  intros Hst. pose proof Hst as (R1 & R2 & R3 & R4).
  destruct cfg_facts as (Hmm & Hmin & Hmax & _ & _ & Hg & Hm & Ha & Hl & Hf & _).
  assert (Hweak : forall r, f_is_nan r = false -> f_weak (f_clamp (bc_min_rate_bps cfg) (bc_max_rate_bps cfg) r) = true).
  { intros r Hr. by apply f_nonneg_weak, pos_nonneg, f_clamp_pos. }
  unfold apply_background_cc_rate_update. set (edge := _ && _). destruct (loss_action cfg edge qd c) as [act c1].
  set (excess := _ && _). destruct (if act || excess then _ else None) as [dl|] eqn:Ea.
  - assert (Hdl : f_lt f0 dl = true).
    { destruct (act || excess); [|done]. unfold anchor in Ea. cc_simpl. destruct (delivery_rate_bps st) as [x|]; [|done].
      destruct (f_lt f0 x && _) eqn:E; [|done]. apply andb_prop in E as [E _]. apply (inj Some) in Ea. by rewrite <- Ea. }
    assert (Hn : f_is_nan (f64_mul dl (bc_delivery_anchor_factor cfg)) = false).
    { apply f_nonneg_not_nan, SFmul_nonneg; [|done]. by destruct dl as [[]|[]| |[] md ed]. }
    destruct (clamp_rate _ Hn) as [C1 C2]. split; [exact C1|]. split; [exact C2|]. split; [by apply Hweak|done].
  - pose proof (raw_rate_ok st qd act Hst) as Hraw. cbv zeta in Hraw. destruct (clamp_rate _ Hraw) as [C1 C2].
    split; [exact C1|]. split; [exact C2|]. split; [|done]. cc_simpl. destruct cfg_alpha as [A1 A2].
    apply f64_add_weak; apply f64_mul_weak; [done|done|done|by apply Hweak].
Qed.

(** Tokens are capped by a refill, and never negative. *)
Lemma refill_tokens st dt : f_le dt f0 = false -> cc_ok cfg st ->
  let t := f_min (f64_add (token_bytes st) (f64_mul (smoothed_rate_bps st) dt)) (bc_burst_cap_bytes cfg) in
  f_le f0 t = true /\ f_le t (bc_burst_cap_bytes cfg) = true.
Proof.
  intros Hdt (_ & _ & R3 & R4) t. destruct cfg_facts as (_ & _ & _ & _ & _ & _ & _ & _ & _ & _ & Hcap).
  assert (Hw : f_weak (f64_add (token_bytes st) (f64_mul (smoothed_rate_bps st) dt)) = true).
  { assert (Hm : f_weak (f64_mul (smoothed_rate_bps st) dt) = true).
    { apply f64_mul_weak; [done|]. by destruct dt as [[]|[]| |[] m e]. }
    destruct (token_bytes st) as [[]|[]| |[] m e]; try done; try (by apply f64_add_weak).
    generalize dependent (f64_mul (smoothed_rate_bps st) dt). by intros [[]|[]| |[] mx ex]. }
  assert (Hc : f_le f0 (bc_burst_cap_bytes cfg) = true) by (by destruct (bc_burst_cap_bytes cfg) as [[]|[]| |[] m e]).
  assert (Hcc : f_le (bc_burst_cap_bytes cfg) (bc_burst_cap_bytes cfg) = true) by by apply f_le_refl, pos_not_nan.
  unfold t, f_min. destruct (f_weak_cases _ Hw) as [Hn|Hn]; [|by rewrite Hn].
  rewrite f_nonneg_not_nan, pos_not_nan by done. destruct (f_lt (bc_burst_cap_bytes cfg) _) eqn:E; [done|]. split.
  - generalize dependent (f64_add (token_bytes st) (f64_mul (smoothed_rate_bps st) dt)). by intros [[]|[]| |[] mx ex].
  - apply f_le_lt. split; [by apply f_nonneg_not_nan|]. split; [by apply pos_not_nan|done].
Qed.

Lemma refill_ok st dt : f_le dt f0 = false -> cc_ok cfg st ->
  cc_ok cfg (refill_peer cfg dt st) /\ f_le (token_bytes (refill_peer cfg dt st)) (bc_burst_cap_bytes cfg) = true.
Proof.
  intros Hdt Hst. destruct (refill_tokens st dt Hdt Hst) as [T1 T2]. destruct Hst as (R1 & R2 & R3 & R4).
  unfold refill_peer. destruct (f_le (f64_div _ _) _); [|done]. destruct (f_lt f0 _); done.
Qed.

Lemma consume_ok st n : cc_ok cfg st ->
  cc_ok cfg (st <| token_bytes := f_max (f64_sub (token_bytes st) (f64_of_Z n)) f0 |>
                <| bytes_acc := f64_add (bytes_acc st) (f64_of_Z n) |>).
Proof.
  intros (R1 & R2 & R3 & R4). split; [done|]. split; [done|]. split; [done|]. cc_simpl.
  unfold f_max. destruct (f64_sub _ _) as [[]|[]| |[] m e]; done.
Qed.
End Bounds.

(** ** Runs *)

Inductive CcEvent :=
| CcSample (dest : SocketAddr) (qd_ms loss_ewma : f64)
| CcRefill (dt_secs : f64)
| CcConsume (dest : SocketAddr) (pkt_len : Z)
| CcEnsure (dest : SocketAddr)
| CcRemove (dest : SocketAddr)
| CcTake.

Definition cc_step (e : BackgroundCcEngine) (ev : CcEvent) : BackgroundCcEngine :=
  match ev with
  | CcSample dest qd loss => on_cc_sample e dest qd loss
  | CcRefill dt => refill_all_tokens e dt
  | CcConsume dest n => consume_send_bytes e dest n
  | CcEnsure dest => cc_ensure_peer e dest
  | CcRemove dest => cc_remove_peer e dest
  | CcTake => (take_counters e).1
  end.

Definition engine_ok (e : BackgroundCcEngine) : Prop :=
  cfg_ok (cc_config e) = true /\ map_Forall (fun _ st => cc_ok (cc_config e) st) (cc_peers e).

Lemma cc_step_ok e ev : engine_ok e -> engine_ok (cc_step e ev) /\ cc_config (cc_step e ev) = cc_config e.
Proof.
  intros [Hc Hp]. destruct ev as [dest qd loss|dt|dest n|dest|dest|]; cbn [cc_step].
  - unfold on_cc_sample. destruct (negb _); [done|].
    assert (Hst : cc_ok (cc_config e) (default (new_cc (bc_initial_rate_bps (cc_config e))) (cc_peers e !! dest))).
    { destruct (cc_peers e !! dest) as [st|] eqn:E; [by apply (Hp dest st)|by apply new_cc_ok]. }
    pose proof (rate_update_ok _ Hc _ qd loss (cc_counters e) Hst) as Hu.
    destruct (apply_background_cc_rate_update _ _ _ _ _) as [st' c']. split; [|done]. split; [done|].
    by apply map_Forall_insert_2.
  - unfold refill_all_tokens. destruct (negb _); [done|]. destruct (f_le dt f0) eqn:Hdt; [done|]. cbn [orb]. split; [|done].
    split; [done|]. cc_simpl. intros a st. rewrite lookup_fmap. destruct (cc_peers e !! a) as [st0|] eqn:E; [|done].
    intros [= <-]. apply refill_ok; [done|done|by apply (Hp a st0)].
  - unfold consume_send_bytes. destruct (negb _); [done|]. destruct (cc_peers e !! dest) as [st|] eqn:E; [|done].
    split; [|done]. split; [done|]. apply map_Forall_insert_2; [|done]. by apply consume_ok, (Hp dest st).
  - unfold cc_ensure_peer. destruct (negb _); [done|]. destruct (cc_peers e !! dest); [done|]. split; [|done].
    split; [done|]. apply map_Forall_insert_2; [by apply new_cc_ok|done].
  - split; [|done]. split; [done|]. by apply map_Forall_delete.
  - done.
Qed.


Module CcRun.
Definition peer : SocketAddr := mkAddr (V4 167772161) 4000.
Definition cfg : BackgroundCcConfig := to_background_cc_config default_congestion.
Definition evs : list CcEvent :=
  [CcEnsure peer; CcRefill (f64_lit 1 100); CcConsume peer 1400; CcSample peer S754_nan S754_nan;
   CcSample peer (f64_of_Z 90) (f64_lit 2 10); CcSample peer (S754_infinity false) f0].
End CcRun.


(** A loss that comes without queuing delay is not taken for congestion: with the classifier on, a
    rising loss estimate at a short queue leaves the peer's rates and tokens as they would be without
    loss. *)
Theorem random_loss_keeps_rate st cfg qd loss c :
  bc_loss_classifier_enabled cfg = true -> bc_qd_telemetry_valid cfg = true -> f_lt qd f0 = false ->
  fec_delay_is_congestive qd (bc_target_queue_delay_ms cfg) (bc_congestion_loss_threshold cfg) = false ->
  let hit := (apply_background_cc_rate_update st cfg qd loss c).1 in
  let quiet := (apply_background_cc_rate_update st cfg qd f0 c).1 in
  rate_bps hit = rate_bps quiet /\ smoothed_rate_bps hit = smoothed_rate_bps quiet /\ token_bytes hit = token_bytes quiet.
Proof.
  intros H1 H2 H3 H4. assert (Ha : forall edge c, (loss_action cfg edge qd c).1 = false).
  { intros edge c'. unfold loss_action. rewrite H1, H2, H3, H4. by destruct edge. }
  unfold apply_background_cc_rate_update. set (e1 := f_lt D2R_LOSS_MAX loss && _). set (e2 := f_lt D2R_LOSS_MAX f0 && _).
  pose proof (Ha e1 c) as A1. pose proof (Ha e2 c) as A2. destruct (loss_action cfg e1 qd c) as [b1 c1].
  destruct (loss_action cfg e2 qd c) as [b2 c2]. cbn [fst] in A1, A2. subst b1 b2.
  unfold anchor. cc_simpl. match goal with |- context [match ?o with Some _ => _ | None => _ end] => by destruct o end.
Qed.

Lemma random_loss_keeps_rate_witness :
  let st := new_cc (f64_of_Z 4000000) in
  let hit := (apply_background_cc_rate_update st CcRun.cfg (f64_of_Z 5) (f64_lit 2 10) no_counters).1 in
  let quiet := (apply_background_cc_rate_update st CcRun.cfg (f64_of_Z 5) f0 no_counters).1 in
  rate_bps hit = rate_bps quiet /\ smoothed_rate_bps hit = smoothed_rate_bps quiet /\ token_bytes hit = token_bytes quiet.
Proof.
  apply (random_loss_keeps_rate (new_cc (f64_of_Z 4000000)) CcRun.cfg (f64_of_Z 5) (f64_lit 2 10) no_counters).
  - reflexivity.
  - reflexivity.
  - vm_compute. reflexivity.
  - vm_compute. reflexivity.
Defined.
