(* ===== verification/Paths.v ===== *)
(** * Paths to a peer (src/routing.rs: PathCandidate, PathSet)

    Up to three ways to reach a peer, in fixed slots: direct, through a relay, and the address seen by
    a STUN server.  A path has a score from its round-trip time, loss and bandwidth; the active path
    is changed with hysteresis.  Scores are IEEE doubles.

    The theorems: a set keeps its direct slot and its active slot filled; a sample changes the active
    path only to the best usable one, at once when it is far better or the active one is all but dead,
    and otherwise only after the same path has led for three seconds. *)

From S2P Require Import Prelude Float Tuning.

Inductive PathKind := Direct | HubRelay | IceSrflx.
#[export] Instance PathKind_eq_dec : EqDecision PathKind.
Proof. solve_decision. Defined.

Record PathCandidate := mkPath {
  pc_kind : PathKind; pc_endpoint : SocketAddr; pc_smoothed_rtt_ms : f64; pc_loss_ewma : f64;
  pc_bandwidth_ewma_kbps : f64; pc_last_probed : Instant; pc_active : bool; pc_consecutive_failures : Z
}.
#[export] Instance eta_PathCandidate : Settable PathCandidate :=
  fun r => mkPath (pc_kind r) (pc_endpoint r) (pc_smoothed_rtt_ms r) (pc_loss_ewma r) (pc_bandwidth_ewma_kbps r)
             (pc_last_probed r) (pc_active r) (pc_consecutive_failures r).

Definition new_path (kind : PathKind) (endpoint : SocketAddr) (active : bool) (now : Instant) : PathCandidate :=
  mkPath kind endpoint (f64_of_Z (-1)) f0 f0 now active 0.

Definition score_core (p : PathCandidate) : f64 :=
  let rtt_norm := if f_lt (pc_smoothed_rtt_ms p) f0 then fhalf
                  else f_min (f64_div (pc_smoothed_rtt_ms p) (f64_of_Z 400)) f1 in
  let loss := f_min (pc_loss_ewma p) f1 in
  f64_add (f64_mul (f64_lit 7 10) (f64_sub f1 rtt_norm)) (f64_mul (f64_lit 3 10) (f64_sub f1 loss)).

Definition score_advanced (p : PathCandidate) : f64 :=
  let bw := if f_lt f0 (pc_bandwidth_ewma_kbps p)
            then f_min (f64_div (pc_bandwidth_ewma_kbps p) (f64_of_Z 50000)) f1 else f64_lit 3 10 in
  f64_add (f64_mul (f64_lit 4 10) (score_core p)) (f64_mul (f64_lit 6 10) bw).

Definition is_usable (p : PathCandidate) : bool := pc_active p && (pc_consecutive_failures p <? 5).

Definition path_note_rtt (p : PathCandidate) (rtt_ms : f64) (w : RoutingEwmaTuning) (now : Instant) : PathCandidate :=
  p <| pc_smoothed_rtt_ms :=
         if f_lt (pc_smoothed_rtt_ms p) f0 then rtt_ms
         else f64_add (f64_mul (ew_rtt_old w) (pc_smoothed_rtt_ms p)) (f64_mul (ew_rtt_new w) rtt_ms) |>
    <| pc_loss_ewma := f_max (f64_sub (f64_mul (pc_loss_ewma p) (ew_loss_decay w)) (ew_loss_success_delta w)) f0 |>
    <| pc_last_probed := now |> <| pc_consecutive_failures := 0 |> <| pc_active := true |>.

Definition path_note_failure (p : PathCandidate) (w : RoutingEwmaTuning) : PathCandidate :=
  p <| pc_loss_ewma := f_min (f64_add (f64_mul (pc_loss_ewma p) (ew_loss_decay w)) (ew_loss_fail_bump w)) f1 |>
    <| pc_consecutive_failures := sat_add U8_MAX (pc_consecutive_failures p) 1 |>.

Definition path_note_bandwidth (p : PathCandidate) (nbytes elapsed_ms : Z) (w : RoutingEwmaTuning) : PathCandidate :=
  if elapsed_ms =? 0 then p
  else
    let kbps := f64_div (f64_mul (f64_of_Z nbytes) (f64_of_Z 8)) (f64_of_Z elapsed_ms) in
    p <| pc_bandwidth_ewma_kbps :=
           if f_le (pc_bandwidth_ewma_kbps p) f0 then kbps
           else f64_add (f64_mul (ew_bw_old w) (pc_bandwidth_ewma_kbps p)) (f64_mul (ew_bw_new w) kbps) |>.

Definition SWITCH_SCORE_GAP : f64 := f64_lit 15 100.
Definition SWITCH_CONFIRMING_TIME : Duration := from_secs 3.
Definition FORCED_SWITCH_SCORE_GAP : f64 := f64_lit 40 100.
Definition CRISIS_SCORE_THRESHOLD : f64 := f64_lit 1 10.

(** The three slots are the elements of the array [paths]. *)
Record PathSet := mkPathSet {
  ps_direct : option PathCandidate; ps_relay : option PathCandidate; ps_srflx : option PathCandidate;
  ps_active_idx : Z; ps_last_secondary_probe : Instant;
  ps_switch_candidate_idx : option Z; ps_switch_candidate_since : option Instant
}.
#[export] Instance eta_PathSet : Settable PathSet :=
  fun r => mkPathSet (ps_direct r) (ps_relay r) (ps_srflx r) (ps_active_idx r) (ps_last_secondary_probe r)
             (ps_switch_candidate_idx r) (ps_switch_candidate_since r).

Ltac ps_simpl :=
  cbn [setter pc_kind pc_endpoint pc_smoothed_rtt_ms pc_loss_ewma pc_bandwidth_ewma_kbps pc_last_probed pc_active
       pc_consecutive_failures ps_direct ps_relay ps_srflx ps_active_idx ps_last_secondary_probe
       ps_switch_candidate_idx ps_switch_candidate_since] in *.

(** [paths.get(i)] flattened, and [paths.iter().enumerate()] of the filled slots. *)
Definition path_at (ps : PathSet) (i : Z) : option PathCandidate :=
  if i =? 0 then ps_direct ps else if i =? 1 then ps_relay ps else if i =? 2 then ps_srflx ps else None.

Definition indexed_paths (ps : PathSet) : list (Z * PathCandidate) :=
  omap (fun i => (fun p => (i, p)) <$> path_at ps i) [0; 1; 2].
Definition paths_of (ps : PathSet) : list PathCandidate := (indexed_paths ps).*2.

Definition path_score (p : PathCandidate) (advanced : bool) : f64 := if advanced then score_advanced p else score_core p.

Definition new_path_set (direct_ep : SocketAddr) (now : Instant) : PathSet :=
  mkPathSet (Some (new_path Direct direct_ep true now)) None None 0 now None None.

Definition set_direct (ps : PathSet) (endpoint : SocketAddr) (now : Instant) : PathSet :=
  ps <| ps_direct := Some (match ps_direct ps with
                           | Some direct => direct <| pc_endpoint := endpoint |>
                           | None => new_path Direct endpoint true now
                           end) |>.

Definition set_relay (ps : PathSet) (endpoint : SocketAddr) (now : Instant) : PathSet :=
  ps <| ps_relay := Some (new_path HubRelay endpoint true now) |>.

Definition set_srflx (ps : PathSet) (endpoint : SocketAddr) (now : Instant) : PathSet :=
  ps <| ps_srflx := Some (new_path IceSrflx endpoint false now) |>.

(** [max_by(|a, b| sa.partial_cmp(sb).unwrap_or(Equal))]: the last of the elements none after which
    is not smaller. *)
Definition best_of (advanced : bool) (acc : option (Z * PathCandidate)) (x : Z * PathCandidate) : option (Z * PathCandidate) :=
  match acc with
  | None => Some x
  | Some a => if f_lt (path_score x.2 advanced) (path_score a.2 advanced) then Some a else Some x
  end.

Definition best_path (ps : PathSet) (advanced : bool) : option (Z * PathCandidate) :=
  foldl (best_of advanced) None (filter (fun x : Z * PathCandidate => is_usable x.2 = true) (indexed_paths ps)).

Definition no_candidate (ps : PathSet) : PathSet :=
  ps <| ps_switch_candidate_idx := None |> <| ps_switch_candidate_since := None |>.

(** Slot 1 is emptied. *)
Definition clear_relay_slot (ps : PathSet) : PathSet :=
  no_candidate (ps <| ps_relay := None |> <| ps_active_idx := if ps_active_idx ps =? 1 then 0 else ps_active_idx ps |>).

Definition current_score (ps : PathSet) (advanced : bool) : f64 :=
  match path_at ps (ps_active_idx ps) with
  | Some p => if is_usable p then path_score p advanced else f0
  | None => f0
  end.

Definition reselect_active (ps : PathSet) (advanced : bool) (now : Instant) : PathSet :=
  let current := current_score ps advanced in
  match best_path ps advanced with
  | None => ps
  | Some (best_idx, best) =>
      if best_idx =? ps_active_idx ps then no_candidate ps
      else
        let gap := f64_sub (path_score best advanced) current in
        if f_le FORCED_SWITCH_SCORE_GAP gap || f_lt current CRISIS_SCORE_THRESHOLD
        then no_candidate (ps <| ps_active_idx := best_idx |>)
        else if f_le SWITCH_SCORE_GAP gap then
          if bool_decide (ps_switch_candidate_idx ps = Some best_idx) then
            let since := default now (ps_switch_candidate_since ps) in
            if SWITCH_CONFIRMING_TIME <=? duration_since now since
            then no_candidate (ps <| ps_active_idx := best_idx |>) else ps
          else ps <| ps_switch_candidate_idx := Some best_idx |> <| ps_switch_candidate_since := Some now |>
        else no_candidate ps
  end.

Definition active_endpoint_kind (ps : PathSet) : option (SocketAddr * PathKind) :=
  (fun p => (pc_endpoint p, pc_kind p)) <$> path_at ps (ps_active_idx ps).

Definition race_push (out : list SocketAddr) (p : PathCandidate) : list SocketAddr :=
  if (3 <=? length out)%nat then out
  else if 5 <=? pc_consecutive_failures p then out
  else if bool_decide (pc_endpoint p ∈ out) then out else out ++ [pc_endpoint p].

Definition control_race_endpoints (ps : PathSet) : list SocketAddr :=
  let out := match active_endpoint_kind ps with
             | Some (ep, _) =>
                 if existsb (fun p => bool_decide (pc_endpoint p = ep) && (pc_consecutive_failures p <? 5)) (paths_of ps)
                 then [ep] else []
             | None => []
             end in
  foldl race_push out (paths_of ps).

(** The first path to [ep] is updated. *)
Definition on_first (ps : PathSet) (ep : SocketAddr) (f : PathCandidate -> PathCandidate) : PathSet :=
  let hit (o : option PathCandidate) := match o with Some p => bool_decide (pc_endpoint p = ep) | None => false end in
  if hit (ps_direct ps) then ps <| ps_direct := f <$> ps_direct ps |>
  else if hit (ps_relay ps) then ps <| ps_relay := f <$> ps_relay ps |>
  else if hit (ps_srflx ps) then ps <| ps_srflx := f <$> ps_srflx ps |>
  else ps.

Definition note_rtt_for_endpoint (ps : PathSet) (ep : SocketAddr) (rtt_ms : f64) (w : RoutingEwmaTuning) (now : Instant) : PathSet :=
  on_first ps ep (fun p => path_note_rtt p rtt_ms w now).
Definition note_failure_for_endpoint (ps : PathSet) (ep : SocketAddr) (w : RoutingEwmaTuning) : PathSet :=
  on_first ps ep (fun p => path_note_failure p w).
Definition note_bandwidth_for_endpoint (ps : PathSet) (ep : SocketAddr) (nbytes elapsed_ms : Z) (w : RoutingEwmaTuning) : PathSet :=
  on_first ps ep (fun p => path_note_bandwidth p nbytes elapsed_ms w).

(** ** Well-formed sets *)

(** The direct slot holds the route's endpoint, and the active slot is filled. *)
Definition set_ok (ep : SocketAddr) (ps : PathSet) : Prop :=
  (exists d, ps_direct ps = Some d /\ pc_endpoint d = ep) /\ is_Some (path_at ps (ps_active_idx ps)).

Lemma new_path_set_ok ep now : set_ok ep (new_path_set ep now).
Proof. split; by eexists. Qed.

Lemma indexed_paths_spec ps i p : (i, p) ∈ indexed_paths ps <-> path_at ps i = Some p.
Proof.
  unfold indexed_paths. rewrite list_elem_of_omap. split.
  - intros (j & Hj & E). destruct (path_at ps j) eqn:Ej; [|done]. simpl in E. by simplify_eq.
  - intros E. exists i. rewrite E. split; [|done]. unfold path_at in E.
    destruct (Z.eqb_spec i 0); [subst; set_solver|]. destruct (Z.eqb_spec i 1); [subst; set_solver|].
    destruct (Z.eqb_spec i 2); [subst; set_solver|done].
Qed.

Lemma best_of_elem advanced l : forall acc x, foldl (best_of advanced) acc l = Some x -> x ∈ l \/ acc = Some x.
Proof.
  induction l as [|y l IH]; intros acc x; [by right|]. cbn [foldl]. intros H. destruct (IH _ _ H) as [Hx|Hx]; [left; by right|].
  unfold best_of in Hx. destruct acc as [a|]; [destruct (f_lt _ _)|]; simplify_eq; [by right|left; by left..].
Qed.

Lemma best_path_usable ps advanced i p : best_path ps advanced = Some (i, p) -> path_at ps i = Some p /\ is_usable p = true.
Proof.
  unfold best_path. intros H. destruct (best_of_elem _ _ _ _ H) as [Hx|Hx]; [|done].
  apply list_elem_of_filter in Hx as [Hu Hi]. split; [by apply indexed_paths_spec|done].
Qed.

Lemma reselect_ok ep ps advanced now : set_ok ep ps -> set_ok ep (reselect_active ps advanced now).
Proof.
  intros [Hd Ha]. unfold reselect_active. destruct (best_path ps advanced) as [[i p]|] eqn:Eb; [|done].
  apply best_path_usable in Eb as [Hi _]. cbv zeta. assert (Hsw : set_ok ep (no_candidate (ps <| ps_active_idx := i |>))) by (split; [exact Hd|by exists p]).
  assert (Hno : set_ok ep (no_candidate ps)) by (split; [exact Hd|exact Ha]).
  destruct (i =? ps_active_idx ps); [exact Hno|]. destruct (f_le FORCED_SWITCH_SCORE_GAP _ || _); [exact Hsw|].
  destruct (f_le SWITCH_SCORE_GAP _); [|exact Hno]. case_bool_decide; [|split; [exact Hd|exact Ha]].
  destruct (SWITCH_CONFIRMING_TIME <=? _); [exact Hsw|split; [exact Hd|exact Ha]].
Qed.

Lemma on_first_at ps e f i :
  path_at (on_first ps e f) i = path_at ps i \/ path_at (on_first ps e f) i = f <$> path_at ps i.
Proof.
  unfold on_first. set (h1 := match ps_direct ps with Some _ => _ | None => _ end).
  set (h2 := match ps_relay ps with Some _ => _ | None => _ end). set (h3 := match ps_srflx ps with Some _ => _ | None => _ end).
  unfold path_at. destruct h1, h2, h3; ps_simpl; destruct (i =? 0), (i =? 1), (i =? 2); auto.
Qed.

Lemma on_first_idx ps e f : ps_active_idx (on_first ps e f) = ps_active_idx ps.
Proof. unfold on_first. by repeat case_match. Qed.

Lemma on_first_ok ep ps e f : (forall p, pc_endpoint (f p) = pc_endpoint p) -> set_ok ep ps -> set_ok ep (on_first ps e f).
Proof.
  intros Hf [(d & Hd & Hep) Ha]. split.
  - change (ps_direct (on_first ps e f)) with (path_at (on_first ps e f) 0).
    destruct (on_first_at ps e f 0) as [->| ->]; cbn [path_at Z.eqb]; rewrite Hd; eexists; (split; [reflexivity|]); by rewrite ?Hf.
  - rewrite on_first_idx. destruct (on_first_at ps e f (ps_active_idx ps)) as [->| ->]; [done|by apply fmap_is_Some].
Qed.

Lemma path_note_rtt_ep p r w now : pc_endpoint (path_note_rtt p r w now) = pc_endpoint p.
Proof. done. Qed.
Lemma path_note_failure_ep p w : pc_endpoint (path_note_failure p w) = pc_endpoint p.
Proof. done. Qed.
Lemma path_note_bandwidth_ep p n e w : pc_endpoint (path_note_bandwidth p n e w) = pc_endpoint p.
Proof. unfold path_note_bandwidth. by destruct (e =? 0). Qed.

Lemma set_direct_ok ep ep' ps now : set_ok ep ps -> set_ok ep' (set_direct ps ep' now).
Proof.
  intros [(d & Hd & Hep) Ha]. unfold set_direct. rewrite Hd. split; [by eexists|].
  unfold path_at in *. ps_simpl. repeat case_match; done.
Qed.

Lemma set_relay_ok ep r ps now : set_ok ep ps -> set_ok ep (set_relay ps r now).
Proof. intros [Hd Ha]. split; [done|]. unfold path_at, set_relay in *. ps_simpl. repeat case_match; done. Qed.

(** The endpoints of a set. *)
Definition endpoints_of (ps : PathSet) : list SocketAddr := pc_endpoint <$> paths_of ps.

Lemma paths_of_spec ps p : p ∈ paths_of ps <-> ps_direct ps = Some p \/ ps_relay ps = Some p \/ ps_srflx ps = Some p.
Proof.
  unfold paths_of, indexed_paths. cbn [omap list_omap path_at Z.eqb Pos.eqb].
  destruct (ps_direct ps), (ps_relay ps), (ps_srflx ps); simpl; set_solver.
Qed.

Lemma endpoints_of_on_first ps e f : (forall p, pc_endpoint (f p) = pc_endpoint p) -> endpoints_of (on_first ps e f) = endpoints_of ps.
Proof.
  intros Hf. unfold on_first, endpoints_of, paths_of, indexed_paths. destruct ps as [d r s act lp ci cs]. ps_simpl.
  destruct d, r, s; repeat case_bool_decide; cbn [omap list_omap path_at Z.eqb Pos.eqb]; ps_simpl; simpl; by rewrite ?Hf.
Qed.

Lemma endpoints_of_reselect ps advanced now : endpoints_of (reselect_active ps advanced now) = endpoints_of ps.
Proof. unfold reselect_active. repeat case_match; done. Qed.

Lemma clear_relay_slot_ok ep ps : set_ok ep ps -> set_ok ep (clear_relay_slot ps).
Proof.
  intros [(d & Hd & Hep) Ha]. split; [by exists d|]. unfold clear_relay_slot, no_candidate, path_at in *. ps_simpl.
  destruct (Z.eqb_spec (ps_active_idx ps) 1) as [E|E]; [by rewrite Hd|].
  destruct (ps_active_idx ps =? 0); [done|]. destruct (Z.eqb_spec (ps_active_idx ps) 1); done.
Qed.

(** ** Hysteresis

    The life of a set: samples, each followed by a choice of the active path, and changes of the slots. *)

Inductive PathEvent :=
  | ERtt (ep : SocketAddr) (rtt_ms : f64) (advanced : bool)
  | EFail (ep : SocketAddr) (advanced : bool)
  | EBandwidth (ep : SocketAddr) (nbytes elapsed_ms : Z) (advanced : bool)
  | EDirect (ep : SocketAddr)
  | ERelay (ep : SocketAddr)
  | EClearRelay.

(** The set after the event, and what the choice saw, if one is made. *)
Definition path_step (w : RoutingEwmaTuning) (ps : PathSet) (x : PathEvent * Instant) : PathSet * option (PathSet * bool * Instant) :=
  let now := x.2 in
  let choose (ps : PathSet) (adv : bool) := (reselect_active ps adv now, Some (ps, adv, now)) in
  match x.1 with
  | ERtt ep r adv => choose (note_rtt_for_endpoint ps ep r w now) adv
  | EFail ep adv => choose (note_failure_for_endpoint ps ep w) adv
  | EBandwidth ep n ms adv => choose (note_bandwidth_for_endpoint ps ep n ms w) adv
  | EDirect ep => (set_direct ps ep now, None)
  | ERelay ep => (set_relay ps ep now, None)
  | EClearRelay => (clear_relay_slot ps, None)
  end.

(** The set after a run, and the choices that were made, oldest first. *)
Definition path_run (w : RoutingEwmaTuning) (ps : PathSet) (l : list (PathEvent * Instant)) : PathSet * list (PathSet * bool * Instant) :=
  foldl (fun acc x => let '(ps', c) := path_step w acc.1 x in (ps', acc.2 ++ option_list c)) (ps, []) l.

(** The choice found slot [i] best, other than the active one, and better by the gap. *)
Definition leads (i : Z) (c : PathSet * bool * Instant) : Prop :=
  let '(ps, adv, _) := c in
  exists p, best_path ps adv = Some (i, p) /\ i <> ps_active_idx ps /\
    f_le SWITCH_SCORE_GAP (f64_sub (path_score p adv) (current_score ps adv)) = true.

(** A switch is at once when the lead is large or the active path is all but dead. *)
Definition urgent (i : Z) (c : PathSet * bool * Instant) : Prop :=
  let '(ps, adv, _) := c in
  exists p, best_path ps adv = Some (i, p) /\
    (f_le FORCED_SWITCH_SCORE_GAP (f64_sub (path_score p adv) (current_score ps adv)) = true \/
     f_lt (current_score ps adv) CRISIS_SCORE_THRESHOLD = true).

(** A choice that does not end a candidacy: [i] leads, or no path at all is usable. *)
Definition still_leads (i : Z) (c : PathSet * bool * Instant) : Prop := leads i c \/ best_path c.1.1 c.1.2 = None.

(** The candidate led when it was noted, and no choice since has ended its candidacy. *)
Definition candidate_led (ps : PathSet) (cs : list (PathSet * bool * Instant)) : Prop :=
  forall i, ps_switch_candidate_idx ps = Some i ->
    exists before c after, cs = before ++ c :: after /\ ps_switch_candidate_since ps = Some c.2 /\ leads i c /\ Forall (still_leads i) after.

Lemma no_candidate_led ps cs : candidate_led (no_candidate ps) cs.
Proof. intros i Hi. discriminate Hi. Qed.

Lemma candidate_led_same ps ps' cs :
  ps_switch_candidate_idx ps' = ps_switch_candidate_idx ps -> ps_switch_candidate_since ps' = ps_switch_candidate_since ps ->
  candidate_led ps cs -> candidate_led ps' cs.
Proof. unfold candidate_led. intros -> ->. done. Qed.

Lemma candidate_led_snoc ps cs c :
  (forall i, ps_switch_candidate_idx ps = Some i -> still_leads i c) -> candidate_led ps cs -> candidate_led ps (cs ++ [c]).
Proof.
  intros Hl Hc i Hi. destruct (Hc i Hi) as (b & d & a & -> & Hs & Hd & Hf). exists b, d, (a ++ [c]).
  split; [by rewrite <- app_assoc|]. split; [done|]. split; [done|]. apply Forall_app. split; [done|].
  apply Forall_singleton. by apply Hl.
Qed.

(** The switch to [i] was made at once, or after [i] led for the whole confirming time. *)
Definition switch_justified (i : Z) (cs : list (PathSet * bool * Instant)) (c : PathSet * bool * Instant) : Prop :=
  urgent i c \/
  exists before c0 after, cs = before ++ c0 :: after /\ SWITCH_CONFIRMING_TIME <= duration_since c.2 c0.2 /\
    leads i c0 /\ Forall (still_leads i) after /\ leads i c.

Lemma reselect_step ps adv now cs :
  candidate_led ps cs ->
  candidate_led (reselect_active ps adv now) (cs ++ [(ps, adv, now)]) /\
  (ps_active_idx (reselect_active ps adv now) <> ps_active_idx ps ->
   switch_justified (ps_active_idx (reselect_active ps adv now)) cs (ps, adv, now)).
Proof.
  intros Hc. unfold reselect_active. destruct (best_path ps adv) as [[i p]|] eqn:Eb.
  2:{ split; [|by intros []]. apply candidate_led_snoc; [|done]. intros j _. by right. }
  cbv zeta. destruct (Z.eqb_spec i (ps_active_idx ps)) as [E|Hne]; [split; [apply no_candidate_led|by intros []]|].
  destruct (f_le FORCED_SWITCH_SCORE_GAP _ || _) eqn:Eu.
  { split; [apply no_candidate_led|]. intros _. left. exists p. split; [done|]. by apply orb_true_iff. }
  destruct (f_le SWITCH_SCORE_GAP _) eqn:Eg; [|split; [apply no_candidate_led|by intros []]].
  assert (Hlead : leads i (ps, adv, now)) by exact (ex_intro _ p (conj Eb (conj Hne Eg))).
  case_bool_decide as Hi.
  - destruct (Hc i Hi) as (b & d & a & Ecs & Hs & Hd & Hf). rewrite Hs. cbn [default]. unfold id.
    destruct (Z.leb_spec SWITCH_CONFIRMING_TIME (duration_since now d.2)) as [Ht|Ht].
    + split; [apply no_candidate_led|]. intros _. right. exists b, d, a.
      exact (conj Ecs (conj Ht (conj Hd (conj Hf Hlead)))).
    + split; [|by intros []]. apply candidate_led_snoc; [|done]. intros j Hj. left. congruence.
  - split; [|by intros []]. intros j Hj. ps_simpl. apply (inj Some) in Hj as <-. exists cs, (ps, adv, now), [].
    exact (conj eq_refl (conj eq_refl (conj Hlead (Forall_nil_2 _)))).
Qed.

(** The samples do not touch the candidate. *)
Lemma on_first_candidate ps ep f :
  ps_switch_candidate_idx (on_first ps ep f) = ps_switch_candidate_idx ps /\
  ps_switch_candidate_since (on_first ps ep f) = ps_switch_candidate_since ps.
Proof. unfold on_first. by repeat case_match. Qed.

Lemma path_step_led w ps x cs : candidate_led ps cs ->
  candidate_led (path_step w ps x).1 (cs ++ option_list (path_step w ps x).2) /\
  (forall c, (path_step w ps x).2 = Some c ->
     ps_active_idx c.1.1 = ps_active_idx ps /\
     (ps_active_idx (path_step w ps x).1 <> ps_active_idx ps -> switch_justified (ps_active_idx (path_step w ps x).1) cs c)).
Proof.
  intros Hc. destruct x as [ev now]. unfold path_step. cbn [fst snd].
  assert (Hs : forall ep f adv, candidate_led (reselect_active (on_first ps ep f) adv now) (cs ++ [(on_first ps ep f, adv, now)]) /\
    (forall c, Some (on_first ps ep f, adv, now) = Some c -> ps_active_idx c.1.1 = ps_active_idx ps /\
       (ps_active_idx (reselect_active (on_first ps ep f) adv now) <> ps_active_idx ps ->
        switch_justified (ps_active_idx (reselect_active (on_first ps ep f) adv now)) cs c))).
  { intros ep f adv. destruct (on_first_candidate ps ep f) as [H1 H2].
    destruct (reselect_step (on_first ps ep f) adv now cs) as [R1 R2]; [by apply (candidate_led_same ps)|].
    split; [done|]. intros c <-%(inj Some). cbn [fst]. rewrite on_first_idx in R2 |- *. done. }
  destruct ev; cbn [fst snd option_list]; rewrite ?app_nil_r; try apply Hs;
    (split; [|intros c E; discriminate E]); [by apply (candidate_led_same ps)..|apply no_candidate_led].
Qed.

Lemma path_run_snoc w ps l x :
  path_run w ps (l ++ [x]) =
  ((path_step w (path_run w ps l).1 x).1, (path_run w ps l).2 ++ option_list (path_step w (path_run w ps l).1 x).2).
Proof. unfold path_run. rewrite foldl_app. cbn [foldl]. by destruct (path_step w _ x). Qed.

Lemma path_run_led w ep t0 l : candidate_led (path_run w (new_path_set ep t0) l).1 (path_run w (new_path_set ep t0) l).2.
Proof.
  induction l as [|x l IH] using rev_ind; [intros i E; discriminate E|]. rewrite path_run_snoc. cbn [fst snd].
  by apply path_step_led.
Qed.

(** The active path of a peer does not flap.  Whenever a sample changes it, either the change was
    urgent (a lead of 0.40, or an active path scoring under 0.1), or the new path led by 0.15 when it
    became the candidate, at least three seconds ago, leads still, and in every choice between led or
    found no usable path at all. *)
Theorem path_switch_justified w ep t0 l x c :
  let ps := (path_run w (new_path_set ep t0) l).1 in
  let ps' := (path_step w ps x).1 in
  (path_step w ps x).2 = Some c -> ps_active_idx ps' <> ps_active_idx ps ->
  switch_justified (ps_active_idx ps') (path_run w (new_path_set ep t0) l).2 c.
Proof. intros ps ps' Hc. by apply (path_step_led w ps x _ (path_run_led w ep t0 l)). Qed.

(** A relay that is better by less than the urgent gap takes over after three seconds. *)
Definition slow_direct : list (PathEvent * Instant) :=
  let d := mkAddr (V4 1) 1 in let r := mkAddr (V4 2) 2 in
  [(ERtt d (f64_of_Z 150) false, 0); (ERelay r, 1); (ERtt r (f64_of_Z 10) false, from_secs 1); (ERtt r (f64_of_Z 10) false, from_secs 2)].

Lemma path_switch_justified_witness :
  let d := mkAddr (V4 1) 1 in let r := mkAddr (V4 2) 2 in
  let run := path_run default_ewma (new_path_set d 0) slow_direct in
  let x := (ERtt r (f64_of_Z 10) false, from_secs 4) in
  ps_active_idx run.1 = 0 /\ ps_active_idx (path_step default_ewma run.1 x).1 = 1 /\
  exists c, switch_justified (ps_active_idx (path_step default_ewma run.1 x).1) run.2 c.
Proof.
  intros d r run x. split; [vm_compute; reflexivity|]. split; [vm_compute; reflexivity|].
  eexists. apply (path_switch_justified default_ewma d 0 slow_direct x); [reflexivity|].
  vm_compute. intros E. discriminate E.
Defined.
