(* ===== verification/Routing.v ===== *)
(** * The routing table (src/routing.rs)

    Per virtual address a route with its endpoint, its quality estimates and its paths, and four
    indexes into the table: by endpoint, by secondary endpoint, by node and by numeric address.
    Removed addresses leave tombstones.  Every operation takes the reading of the clock it makes.

    The theorems: in every reachable table the indexes point to routes that have the indexed key, the
    numeric index is exact, so that the lookup by number is the lookup by text; a removed address is
    never in the table; every route has a well-formed set of paths; the quality figures stay in their
    ranges; a relay hop is a usable third party, and the choice does not depend on the order in which
    the hash map is iterated. *)

From S2P Require Import Prelude Text Float Tuning Paths.

Definition TOMBSTONE_TTL : Duration := from_secs 300.
Definition TOMBSTONE_MIN_RETENTION : Duration := from_secs 600.
Definition TOMBSTONE_PRUNE_INTERVAL : Duration := from_secs 60.

Inductive RouteState := Candidate | Active | Degraded | Stale.
#[export] Instance RouteState_eq_dec : EqDecision RouteState.
Proof. solve_decision. Defined.

Record RouteEntry := mkRoute {
  re_endpoint : SocketAddr; re_node_id : string; re_state : RouteState; re_last_seen : Instant;
  re_smoothed_rtt_ms : f64; re_jitter_ms : f64; re_last_rtt_ms : Z; re_loss_ewma : f64;
  re_quality_score : Z; re_success_streak : Z; re_fail_streak : Z; re_hold_down_until : option Instant;
  re_last_modified_revision : Z; re_path_set : option PathSet; re_rx_bytes : Z; re_rx_bw_calc_at : Instant;
  re_dual_write_until : option Instant; re_dual_write_old_ep : option SocketAddr; re_dual_write_old_kind : option PathKind;
  re_rtt_base_ms : f64; re_rtt_base_window_min : f64; re_rtt_base_window_start : Instant; re_rtt_base_stale_count : Z;
  re_queuing_delay_ms : f64;
  re_owd_base_ms : option f64; re_owd_base_window_min : f64; re_owd_base_window_start : Instant;
  re_owd_base_stale_count : Z; re_fwd_queuing_delay_ms : f64; re_owd_rtt_residual_ewma : option f64;
  re_owd_samples_since_cold : Z
}.
#[export] Instance eta_RouteEntry : Settable RouteEntry :=
  fun r => mkRoute (re_endpoint r) (re_node_id r) (re_state r) (re_last_seen r)
    (re_smoothed_rtt_ms r) (re_jitter_ms r) (re_last_rtt_ms r) (re_loss_ewma r)
    (re_quality_score r) (re_success_streak r) (re_fail_streak r) (re_hold_down_until r)
    (re_last_modified_revision r) (re_path_set r) (re_rx_bytes r) (re_rx_bw_calc_at r)
    (re_dual_write_until r) (re_dual_write_old_ep r) (re_dual_write_old_kind r)
    (re_rtt_base_ms r) (re_rtt_base_window_min r) (re_rtt_base_window_start r) (re_rtt_base_stale_count r)
    (re_queuing_delay_ms r) (re_owd_base_ms r) (re_owd_base_window_min r) (re_owd_base_window_start r)
    (re_owd_base_stale_count r) (re_fwd_queuing_delay_ms r) (re_owd_rtt_residual_ewma r) (re_owd_samples_since_cold r).

Definition F_INF : f64 := S754_infinity false.
Definition f_neg1 : f64 := f64_of_Z (-1).

Definition new_entry (ep : SocketAddr) (quality_initial : Z) (now : Instant) : RouteEntry :=
  mkRoute ep "" Candidate now f_neg1 f0 (-1) f0 quality_initial 0 0 None 0 (Some (new_path_set ep now)) 0 now
    None None None f_neg1 F_INF now 0 f0 None F_INF now 0 f0 None 0.

Record RelayPathSnapshot := mkSnap {
  sn_state : RouteState; sn_quality_score : Z; sn_loss_ewma : f64; sn_jitter_ms : f64; sn_success_streak : Z;
  sn_hold_down_until : option Instant
}.
Definition from_entry (e : RouteEntry) : RelayPathSnapshot :=
  mkSnap (re_state e) (re_quality_score e) (re_loss_ewma e) (re_jitter_ms e) (re_success_streak e) (re_hold_down_until e).

Record RoutingTable := mkTable {
  rt_table : gmap string RouteEntry; rt_ep_to_vip : gmap SocketAddr string; rt_path_ep_to_vip : gmap SocketAddr string;
  rt_node_to_vip : gmap string string; rt_vip_u32_to_vip : gmap Z string; rt_revision : Z;
  rt_tombstones : gmap string (Z * Instant); rt_last_tombstone_prune : Instant;
  rt_failover : FailoverTuning; rt_congestion : CongestionTuning; rt_routing_ewma : RoutingEwmaTuning
}.
#[export] Instance eta_RoutingTable : Settable RoutingTable :=
  fun r => mkTable (rt_table r) (rt_ep_to_vip r) (rt_path_ep_to_vip r) (rt_node_to_vip r) (rt_vip_u32_to_vip r)
             (rt_revision r) (rt_tombstones r) (rt_last_tombstone_prune r) (rt_failover r) (rt_congestion r) (rt_routing_ewma r).

Ltac rt_simpl :=
  cbn [setter rt_table rt_ep_to_vip rt_path_ep_to_vip rt_node_to_vip rt_vip_u32_to_vip rt_revision rt_tombstones
       rt_last_tombstone_prune rt_failover rt_congestion rt_routing_ewma fst snd
       re_endpoint re_node_id re_state re_last_seen re_smoothed_rtt_ms re_jitter_ms re_last_rtt_ms re_loss_ewma
       re_quality_score re_success_streak re_fail_streak re_hold_down_until re_last_modified_revision re_path_set
       re_rx_bytes re_rx_bw_calc_at re_dual_write_until re_dual_write_old_ep re_dual_write_old_kind] in *.

Definition new_table (now : Instant) : RoutingTable :=
  mkTable ∅ ∅ ∅ ∅ ∅ 0 ∅ now default_failover default_congestion default_ewma.

Definition ipv4_to_u32 (ip : string) : option Z := parse_ipv4 (str_bytes ip).

Definition same_subnet (a b : Z) (prefix : Z) : bool :=
  let p := Z.min prefix 32 in
  if p =? 0 then true
  else let mask := wrap 32 (Z.shiftl U32_MAX (32 - p)) in Z.land a mask =? Z.land b mask.

(** [if let Some(e) = self.table.get_mut(vip)]. *)
Definition with_entry (t : RoutingTable) (vip : string) (f : RouteEntry -> RouteEntry) : RoutingTable :=
  match rt_table t !! vip with
  | Some e => t <| rt_table := <[vip := f e]> (rt_table t) |>
  | None => t
  end.

(** ** Indexes *)

Definition clear_path_ep_index_for_vip (t : RoutingTable) (vip : string) : RoutingTable :=
  t <| rt_path_ep_to_vip := retain (fun _ v => negb (bool_decide (v = vip))) (rt_path_ep_to_vip t) |>.

Definition index_path (primary : SocketAddr) (vip : string) (m : gmap SocketAddr string) (p : PathCandidate) : gmap SocketAddr string :=
  if bool_decide (pc_endpoint p = primary) then m else <[pc_endpoint p := vip]> m.

Definition rebuild_path_ep_index_for_vip (t : RoutingTable) (vip : string) : RoutingTable :=
  let t := clear_path_ep_index_for_vip t vip in
  match rt_table t !! vip with
  | None => t
  | Some e =>
      match re_path_set e with
      | None => t
      | Some ps => t <| rt_path_ep_to_vip := foldl (index_path (re_endpoint e) vip) (rt_path_ep_to_vip t) (paths_of ps) |>
      end
  end.

Definition prune_tombstones (t : RoutingTable) (retain_vips : gset string) (now : Instant) : RoutingTable :=
  t <| rt_tombstones := retain (fun vip tomb =>
         if bool_decide (vip ∈ retain_vips) then true
         else let age := duration_since now tomb.2 in (age <? TOMBSTONE_MIN_RETENTION) || (age <? TOMBSTONE_TTL))
         (rt_tombstones t) |>
    <| rt_last_tombstone_prune := now |>.

Definition rt_remove (t : RoutingTable) (vip : string) (now : Instant) : RoutingTable :=
  let t := clear_path_ep_index_for_vip t vip in
  let t := match rt_table t !! vip with
           | None => t
           | Some e =>
               let t := t <| rt_table := delete vip (rt_table t) |> in
               let t := if bool_decide (rt_ep_to_vip t !! re_endpoint e = Some vip)
                        then t <| rt_ep_to_vip := delete (re_endpoint e) (rt_ep_to_vip t) |> else t in
               if bool_decide (re_node_id e = EmptyString) then t
               else t <| rt_node_to_vip := delete (re_node_id e) (rt_node_to_vip t) |>
           end in
  let t := match ipv4_to_u32 vip with
           | Some u => t <| rt_vip_u32_to_vip := delete u (rt_vip_u32_to_vip t) |>
           | None => t
           end in
  let rev := wrap 64 (rt_revision t + 1) in
  t <| rt_revision := rev |> <| rt_tombstones := <[vip := (rev, now)]> (rt_tombstones t) |>.

(** What to do with an endpoint that is already indexed under another address. *)
Inductive AliasAction := AliasReject | AliasRemove | AliasUnindex.

Definition alias_action (prev_node : string) (prev_state : RouteState) (incoming_node : string) : AliasAction :=
  let is_empty (s : string) := bool_decide (s = EmptyString) in
  let conflicting := negb (is_empty prev_node) && negb (is_empty incoming_node) && negb (bool_decide (prev_node = incoming_node)) in
  let ambiguous := negb (is_empty prev_node) && is_empty incoming_node in
  let allow_rebind := ambiguous && (bool_decide (prev_state = Stale) || bool_decide (prev_state = Degraded)) in
  if conflicting || (ambiguous && negb allow_rebind) then AliasReject
  else if negb (is_empty incoming_node) && bool_decide (prev_node = incoming_node) then AliasRemove
  else if is_empty prev_node && negb (is_empty incoming_node) then AliasRemove
  else AliasUnindex.

(** [None]: the update is refused. *)
Definition resolve_alias (t : RoutingTable) (vip : string) (ep : SocketAddr) (node_id : option string) (now : Instant)
  : option RoutingTable :=
  match rt_ep_to_vip t !! ep with
  | None => Some t
  | Some prev_vip =>
      if bool_decide (prev_vip = vip) then Some t
      else
        let prev := rt_table t !! prev_vip in
        let prev_node := match prev with Some e => re_node_id e | None => EmptyString end in
        let prev_state := match prev with Some e => re_state e | None => Candidate end in
        match alias_action prev_node prev_state (default EmptyString node_id) with
        | AliasReject => None
        | AliasRemove => Some (rt_remove t prev_vip now)
        | AliasUnindex => Some (t <| rt_ep_to_vip := delete ep (rt_ep_to_vip t) |>)
        end
  end.

(** The entry that is stored for [vip]. *)
Definition updated_entry (t : RoutingTable) (vip : string) (ep : SocketAddr) (node_id : option string) (now : Instant) : RouteEntry :=
  let e := default (new_entry ep (ew_quality_initial (rt_routing_ewma t)) now) (rt_table t !! vip) in
  let e := e <| re_endpoint := ep |>
             <| re_path_set := Some (match re_path_set e with
                                     | Some ps => set_direct ps ep now
                                     | None => new_path_set ep now
                                     end) |>
             <| re_last_seen := now |> in
  match node_id with Some node => e <| re_node_id := node |> | None => e end.

Definition rt_store (t : RoutingTable) (vip : string) (ep : SocketAddr) (node_id : option string) (now : Instant) : RoutingTable :=
  let old := rt_table t !! vip in
  let e := updated_entry t vip ep node_id now in
  let effective := if bool_decide (re_node_id e = EmptyString) then None else Some (re_node_id e) in
  let ep_changed := match old with Some o => negb (bool_decide (re_endpoint o = ep)) | None => true end in
  let node_changed := match node_id, old with
                      | Some n, Some o => negb (bool_decide (re_node_id o = n))
                      | Some _, None => true
                      | None, _ => false
                      end in
  let is_new := match old with None => true | Some _ => false end in
  let t := t <| rt_table := <[vip := e]> (rt_table t) |> in
  let t := match old with
           | None => t
           | Some o =>
               let t := t <| rt_ep_to_vip := delete (re_endpoint o) (rt_ep_to_vip t) |> in
               if negb (bool_decide (re_node_id o = EmptyString)) && negb (bool_decide (effective = Some (re_node_id o)))
               then t <| rt_node_to_vip := delete (re_node_id o) (rt_node_to_vip t) |> else t
           end in
  let t := t <| rt_ep_to_vip := <[ep := vip]> (rt_ep_to_vip t) |> in
  let t := match effective with Some n => t <| rt_node_to_vip := <[n := vip]> (rt_node_to_vip t) |> | None => t end in
  let t := match ipv4_to_u32 vip with
           | Some u => t <| rt_vip_u32_to_vip := <[u := vip]> (rt_vip_u32_to_vip t) |>
           | None => t
           end in
  let t := t <| rt_tombstones := delete vip (rt_tombstones t) |> in
  let t := if is_new || ep_changed || node_changed then
             let rev := wrap 64 (rt_revision t + 1) in
             with_entry (t <| rt_revision := rev |>) vip (fun e => e <| re_last_modified_revision := rev |>)
           else t in
  rebuild_path_ep_index_for_vip t vip.

Definition rt_update (t : RoutingTable) (vip : string) (ep : SocketAddr) (node_id : option string) (now : Instant) : RoutingTable :=
  let t := if TOMBSTONE_PRUNE_INTERVAL <=? duration_since now (rt_last_tombstone_prune t) then prune_tombstones t ∅ now else t in
  match resolve_alias t vip ep node_id now with
  | None => t
  | Some t => rt_store t vip ep node_id now
  end.

(** ** Lookups *)

Definition rt_lookup (t : RoutingTable) (vip : string) : option SocketAddr := re_endpoint <$> rt_table t !! vip.
Definition last_seen_for_vip (t : RoutingTable) (vip : string) : option Instant := re_last_seen <$> rt_table t !! vip.
Definition tracks_endpoint (t : RoutingTable) (a : SocketAddr) : bool := bool_decide (is_Some (rt_ep_to_vip t !! a)).
Definition lookup_by_vip_u32 (t : RoutingTable) (u : Z) : option SocketAddr := vip ← rt_vip_u32_to_vip t !! u; rt_lookup t vip.
Definition lookup_vip_by_u32 (t : RoutingTable) (u : Z) : option string := rt_vip_u32_to_vip t !! u.
Definition relay_snapshot_by_u32 (t : RoutingTable) (u : Z) : option RelayPathSnapshot :=
  vip ← rt_vip_u32_to_vip t !! u; from_entry <$> rt_table t !! vip.
Definition lookup_ep_by_node (t : RoutingTable) (node : string) : option SocketAddr :=
  vip ← rt_node_to_vip t !! node; rt_lookup t vip.

Definition is_endpoint_stale (t : RoutingTable) (ep : SocketAddr) : bool :=
  match rt_ep_to_vip t !! ep with
  | Some vip => match rt_table t !! vip with Some e => bool_decide (re_state e = Stale) | None => false end
  | None => false
  end.

Definition vip_for_data_endpoint (t : RoutingTable) (ep : SocketAddr) (ignore_relay_ep : option SocketAddr) : option string :=
  if bool_decide (ignore_relay_ep = Some ep) then None
  else match rt_ep_to_vip t !! ep with Some v => Some v | None => rt_path_ep_to_vip t !! ep end.

(** ** Liveness *)

Definition apply_last_seen_batch (t : RoutingTable) (batch : list (SocketAddr * Instant)) : RoutingTable :=
  foldl (fun t x => match rt_ep_to_vip t !! x.1 with
                    | Some vip => with_entry t vip (fun e => e <| re_last_seen := x.2 |>)
                    | None => t
                    end) t batch.

Definition promote_stale_if_needed (t : RoutingTable) (ep : SocketAddr) (now : Instant) : RoutingTable * option string :=
  match rt_ep_to_vip t !! ep with
  | None => (t, None)
  | Some vip =>
      match rt_table t !! vip with
      | None => (t, None)
      | Some e =>
          if bool_decide (re_state e = Stale)
          then (with_entry t vip (fun e => e <| re_last_seen := now |> <| re_state := Candidate |>), Some vip)
          else (t, None)
      end
  end.

Definition touch_endpoint (t : RoutingTable) (ep : SocketAddr) (now : Instant) : RoutingTable * option string :=
  match rt_ep_to_vip t !! ep with
  | None => (t, None)
  | Some vip => promote_stale_if_needed (with_entry t vip (fun e => e <| re_last_seen := now |>)) ep now
  end.

Definition mark_stale_if_idle (t : RoutingTable) (idle_threshold : Duration) (now : Instant) : RoutingTable :=
  t <| rt_table := (fun e => if (idle_threshold <? duration_since now (re_last_seen e)) && negb (bool_decide (re_state e = Stale))
                             then e <| re_state := Stale |> else e) <$> rt_table t |>.

Definition note_relay_fallback (t : RoutingTable) (vip : string) (now : Instant) : RoutingTable :=
  with_entry t vip (fun e =>
    let hold_active := match re_hold_down_until e with Some u => now <? u | None => false end in
    if hold_active then e else e <| re_hold_down_until := Some (now + from_secs (fo_hold_down_secs (rt_failover t))) |>).

Definition begin_transition (t : RoutingTable) (vip : string) (old_ep : SocketAddr) (old_kind : PathKind) (window : Duration)
    (now : Instant) : RoutingTable :=
  with_entry t vip (fun e =>
    let active := match re_dual_write_until e with Some u => now <? u | None => false end in
    if active then e
    else e <| re_dual_write_until := Some (now + window) |> <| re_dual_write_old_ep := Some old_ep |>
           <| re_dual_write_old_kind := Some old_kind |>).

Definition transition_state (t : RoutingTable) (vip : string) (now : Instant) : option (SocketAddr * PathKind) :=
  e ← rt_table t !! vip;
  until ← re_dual_write_until e;
  if until <=? now then None
  else ep ← re_dual_write_old_ep e; kind ← re_dual_write_old_kind e; Some (ep, kind).

Definition end_transition (t : RoutingTable) (vip : string) : RoutingTable :=
  with_entry t vip (fun e => e <| re_dual_write_until := None |> <| re_dual_write_old_ep := None |> <| re_dual_write_old_kind := None |>).

(** ** Relay paths *)

Definition clear_relay_path (t : RoutingTable) (vip : string) : RoutingTable :=
  let t := with_entry t vip (fun e =>
    e <| re_path_set := clear_relay_slot <$> re_path_set e |>) in
  rebuild_path_ep_index_for_vip t vip.

Definition stamp_relay_hop (t : RoutingTable) (dest_vip : string) (hop : SocketAddr) (now : Instant) : RoutingTable :=
  match rt_table t !! dest_vip with
  | None => t
  | Some _ =>
      let t := with_entry t dest_vip (fun e =>
        e <| re_path_set := Some (set_relay (default (new_path_set (re_endpoint e) now) (re_path_set e)) hop now) |>) in
      rebuild_path_ep_index_for_vip t dest_vip
  end.

(** ** Quality *)

(** [x as i32]. *)
Definition f_to_i32 (x : f64) : Z :=
  match x with
  | S754_nan | S754_zero _ => 0
  | S754_infinity s => if s then - 2 ^ 31 else 2 ^ 31 - 1
  | S754_finite s m e => clamp (- 2 ^ 31) (2 ^ 31 - 1) (if s then - trunc_mag m e else trunc_mag m e)
  end.

Definition should_relay_snap (s : RelayPathSnapshot) (fo : FailoverTuning) : bool :=
  (sn_quality_score s <? fo_d2r_quality_min fo) || bool_decide (sn_state s = Degraded) || bool_decide (sn_state s = Stale) ||
  f_lt (fo_d2r_loss_max fo) (sn_loss_ewma s) || f_lt (fo_d2r_jitter_max fo) (sn_jitter_ms s).
Definition should_relay (e : RouteEntry) (fo : FailoverTuning) : bool := should_relay_snap (from_entry e) fo.

Definition can_return_to_direct_snap (s : RelayPathSnapshot) (now : Instant) (fo : FailoverTuning) : bool :=
  (fo_r2d_quality_min fo <=? sn_quality_score s) && (fo_r2d_success_min fo <=? sn_success_streak s) &&
  match sn_hold_down_until s with Some u => u <=? now | None => true end.
Definition can_return_to_direct (e : RouteEntry) (now : Instant) (fo : FailoverTuning) : bool :=
  can_return_to_direct_snap (from_entry e) now fo.

(** The least round-trip time over windows; a window whose minimum lies above the base counts as
    stale, and enough stale windows in a row raise the base. *)
Definition close_rtt_window (e : RouteEntry) (now : Instant) (cg : CongestionTuning) : RouteEntry :=
  let window_min := re_rtt_base_window_min e in
  let e := if f_lt window_min (re_rtt_base_ms e) then e <| re_rtt_base_ms := window_min |> <| re_rtt_base_stale_count := 0 |>
           else if f_lt (re_rtt_base_ms e) window_min then
             let n := sat_add U8_MAX (re_rtt_base_stale_count e) 1 in
             if cg_base_rtt_stale_windows cg <=? n then e <| re_rtt_base_ms := window_min |> <| re_rtt_base_stale_count := 0 |>
             else e <| re_rtt_base_stale_count := n |>
           else e <| re_rtt_base_stale_count := 0 |> in
  e <| re_rtt_base_window_min := F_INF |> <| re_rtt_base_window_start := now |>.

Definition update_rtt_base_on_sample (e : RouteEntry) (sample : f64) (now : Instant) (cg : CongestionTuning) : RouteEntry :=
  if negb (cg_rtt_base_tracking cg) then e
  else if f_lt (re_rtt_base_ms e) f0 then
    e <| re_rtt_base_ms := sample |> <| re_rtt_base_window_min := sample |> <| re_rtt_base_window_start := now |>
      <| re_queuing_delay_ms := f_max (f64_sub (re_smoothed_rtt_ms e) sample) f0 |>
  else
    let e := e <| re_rtt_base_window_min := f_min (re_rtt_base_window_min e) sample |> in
    let e := if from_secs (cg_base_rtt_window_secs cg) <=? duration_since now (re_rtt_base_window_start e)
             then close_rtt_window e now cg else e in
    if f_le f0 (re_smoothed_rtt_ms e) && f_le f0 (re_rtt_base_ms e)
    then e <| re_queuing_delay_ms := f_max (f64_sub (re_smoothed_rtt_ms e) (re_rtt_base_ms e)) f0 |> else e.

Definition penalty (x cap : f64) : Z := f_to_i32 (f_min x cap).

Definition apply_rtt_sample (e : RouteEntry) (rtt_ms : Z) (fo : FailoverTuning) (cg : CongestionTuning) (w : RoutingEwmaTuning)
    (now : Instant) : RouteEntry :=
  let rtt := f64_of_Z rtt_ms in
  let delta := SFabs (f64_sub rtt (re_smoothed_rtt_ms e)) in
  let e := e <| re_jitter_ms := f64_add (f64_mul (ew_jitter_old w) (re_jitter_ms e)) (f64_mul (ew_jitter_new w) delta) |>
             <| re_smoothed_rtt_ms := f64_add (f64_mul (ew_rtt_old w) (re_smoothed_rtt_ms e)) (f64_mul (ew_rtt_new w) rtt) |> in
  let e := update_rtt_base_on_sample e rtt now cg in
  let e := e <| re_loss_ewma := f_max (f64_sub (f64_mul (re_loss_ewma e) (ew_loss_decay w)) (ew_loss_success_delta w)) f0 |> in
  let bounded := swrap 32 (clamp 0 (ew_rtt_score_clamp_ms w) rtt_ms) in
  let jitter_penalty := penalty (f64_div (re_jitter_ms e) (ew_quality_jitter_div w)) (ew_quality_jitter_penalty_cap w) in
  let loss_penalty := penalty (f64_mul (re_loss_ewma e) (ew_quality_loss_scale w)) (ew_quality_loss_penalty_cap w) in
  let e := e <| re_quality_score := Z.max (swrap 32 (100 - Z.quot bounded 5 - jitter_penalty - loss_penalty)) 0 |>
             <| re_success_streak := Z.min (re_success_streak e + 1) 100 |> <| re_fail_streak := Z.max (re_fail_streak e - 1) 0 |> in
  let e := if (2 <=? re_success_streak e) && (fo_d2r_quality_min fo <=? re_quality_score e) then e <| re_state := Active |>
           else if re_quality_score e <? fo_d2r_quality_min fo then e <| re_state := Degraded |> else e in
  if (fo_r2d_quality_min fo <=? re_quality_score e) && (swrap 32 (fo_r2d_success_min fo * 2) <=? re_success_streak e)
  then e <| re_hold_down_until := None |> else e.

(** The first sample of a route is its average. *)
Definition first_sample (e : RouteEntry) (rtt_ms : Z) : RouteEntry :=
  let e := if f_lt (re_smoothed_rtt_ms e) f0 then e <| re_smoothed_rtt_ms := f64_of_Z rtt_ms |> <| re_jitter_ms := f0 |> else e in
  e <| re_last_rtt_ms := rtt_ms |>.

Definition is_active_path (e : RouteEntry) (from : SocketAddr) : bool :=
  match re_path_set e with
  | Some ps => match active_endpoint_kind ps with Some (ep, _) => bool_decide (ep = from) | None => true end
  | None => true
  end.

Definition note_rtt_entry (fo : FailoverTuning) (cg : CongestionTuning) (w : RoutingEwmaTuning) (from : SocketAddr) (rtt_ms : Z)
    (now : Instant) (e : RouteEntry) : RouteEntry :=
  let active := is_active_path e from in
  let e := e <| re_last_seen := now |> in
  let e := if active then apply_rtt_sample (first_sample e rtt_ms) rtt_ms fo cg w now else e in
  e <| re_path_set := (fun ps => reselect_active (note_rtt_for_endpoint ps from (f64_of_Z rtt_ms) w now) false now) <$> re_path_set e |>.

Definition note_rtt (t : RoutingTable) (from : SocketAddr) (rtt_ms : Z) (ignore : option SocketAddr) (now : Instant)
  : RoutingTable * bool :=
  match vip_for_data_endpoint t from ignore with
  | None => (t, false)
  | Some vip =>
      match rt_table t !! vip with
      | None => (t, false)
      | Some e =>
          (with_entry t vip (note_rtt_entry (rt_failover t) (rt_congestion t) (rt_routing_ewma t) from rtt_ms now), is_active_path e from)
      end
  end.

(** ** One-way delay *)

Inductive OwdSampleOutcome := Ignored | Applied | Rejected.
Definition OWD_RTT_RESIDUAL_EWMA_ALPHA : f64 := f64_lit 125 1000.

Definition reset_owd_base_cold (e : RouteEntry) (now : Instant) : RouteEntry :=
  e <| re_owd_base_ms := None |> <| re_owd_base_window_min := F_INF |> <| re_owd_base_window_start := now |>
    <| re_owd_base_stale_count := 0 |> <| re_fwd_queuing_delay_ms := f0 |> <| re_owd_rtt_residual_ewma := None |>
    <| re_owd_samples_since_cold := 0 |>.

Definition owd_resid (owd rtt : f64) : f64 := f64_sub (f64_mul (f64_of_Z 2) owd) rtt.

Definition note_owd_applied_residual (e : RouteEntry) (owd rtt : f64) : RouteEntry :=
  let resid := owd_resid owd rtt in
  e <| re_owd_rtt_residual_ewma := Some (match re_owd_rtt_residual_ewma e with
         | Some ewma => f64_add (f64_mul (f64_sub f1 OWD_RTT_RESIDUAL_EWMA_ALPHA) ewma) (f64_mul OWD_RTT_RESIDUAL_EWMA_ALPHA resid)
         | None => resid
         end) |>
    <| re_owd_samples_since_cold := sat_add U8_MAX (re_owd_samples_since_cold e) 1 |>.

Definition close_owd_window (e : RouteEntry) (base : f64) (now : Instant) (cg : CongestionTuning) : RouteEntry * f64 :=
  let window_min := re_owd_base_window_min e in
  let '(e, base) :=
    if f_lt window_min base then (e <| re_owd_base_ms := Some window_min |> <| re_owd_base_stale_count := 0 |>, window_min)
    else if f_lt base window_min then
      let n := sat_add U8_MAX (re_owd_base_stale_count e) 1 in
      if cg_base_rtt_stale_windows cg <=? n then (e <| re_owd_base_ms := Some window_min |> <| re_owd_base_stale_count := 0 |>, window_min)
      else (e <| re_owd_base_stale_count := n |>, base)
    else (e <| re_owd_base_stale_count := 0 |>, base) in
  (e <| re_owd_base_window_min := F_INF |> <| re_owd_base_window_start := now |>, base).

Definition update_owd_base_on_sample (e : RouteEntry) (owd rtt : f64) (now : Instant) (cg : CongestionTuning)
  : RouteEntry * OwdSampleOutcome :=
  if negb (cg_rtt_base_tracking cg) then (e, Ignored)
  else if match re_owd_base_ms e with
          | Some base => f_lt (f64_of_Z (cg_owd_clock_jump_reject_ms cg)) (SFabs (f64_sub owd base))
          | None => false
          end then (reset_owd_base_cold e now, Rejected)
  else if match re_owd_rtt_residual_ewma e with
          | Some ewma => f_lt (f64_of_Z (cg_owd_rtt_consistency_ms cg)) (SFabs (f64_sub (owd_resid owd rtt) ewma))
          | None => false
          end then (reset_owd_base_cold e now, Rejected)
  else
    match re_owd_base_ms e with
    | None =>
        let e := e <| re_owd_base_ms := Some owd |> <| re_owd_base_window_min := owd |> <| re_owd_base_window_start := now |>
                   <| re_owd_base_stale_count := 0 |> <| re_fwd_queuing_delay_ms := f0 |> in
        (note_owd_applied_residual e owd rtt, Applied)
    | Some base =>
        let e := e <| re_owd_base_window_min := f_min (re_owd_base_window_min e) owd |> in
        let '(e, base) := if from_secs (cg_base_rtt_window_secs cg) <=? duration_since now (re_owd_base_window_start e)
                          then close_owd_window e base now cg else (e, base) in
        let e := e <| re_fwd_queuing_delay_ms := f_max (f64_sub owd base) f0 |> in
        (note_owd_applied_residual e owd rtt, Applied)
    end.

Definition note_fwd_owd (t : RoutingTable) (from : SocketAddr) (owd rtt : f64) (ignore : option SocketAddr) (now : Instant)
  : RoutingTable * OwdSampleOutcome :=
  match vip_for_data_endpoint t from ignore with
  | None => (t, Ignored)
  | Some vip =>
      match rt_table t !! vip with
      | None => (t, Ignored)
      | Some e =>
          if negb (is_active_path e from) then (t, Ignored)
          else
            let '(e, o) := update_owd_base_on_sample e owd rtt now (rt_congestion t) in
            (t <| rt_table := <[vip := e]> (rt_table t) |>, o)
      end
  end.

Definition effective_queuing_delay_ms (e : RouteEntry) (prefer_after : Z) : f64 :=
  let warm := bool_decide (is_Some (re_owd_base_ms e)) in
  if warm && (prefer_after <=? re_owd_samples_since_cold e) then re_fwd_queuing_delay_ms e
  else if f_le f0 (re_rtt_base_ms e) then re_queuing_delay_ms e
  else if warm then re_fwd_queuing_delay_ms e
  else f_neg1.

(** ** Failures and traffic *)

Definition note_fail_entry (w : RoutingEwmaTuning) (from : SocketAddr) (now : Instant) (e : RouteEntry) : RouteEntry :=
  let e := e <| re_fail_streak := Z.min (re_fail_streak e + 1) 100 |> <| re_success_streak := Z.max (re_success_streak e - 1) 0 |>
             <| re_loss_ewma := f_min (f64_add (f64_mul (re_loss_ewma e) (ew_loss_decay w)) (ew_loss_fail_bump w)) f1 |> in
  let loss_penalty := penalty (f64_mul (re_loss_ewma e) (ew_quality_loss_scale w)) (ew_quality_loss_penalty_cap w) in
  let e := e <| re_quality_score := Z.max (swrap 32 (re_quality_score e - loss_penalty)) 0 |> in
  let e := if 3 <=? re_fail_streak e then e <| re_state := Degraded |> else e in
  let e := if 6 <=? re_fail_streak e then e <| re_state := Stale |> else e in
  e <| re_path_set := (fun ps => reselect_active (note_failure_for_endpoint ps from w) false now) <$> re_path_set e |>.

(** The address, and whether it needs healing. *)
Definition note_fail (t : RoutingTable) (from : SocketAddr) (ignore : option SocketAddr) (now : Instant)
  : RoutingTable * (option string * bool) :=
  match vip_for_data_endpoint t from ignore with
  | None => (t, (None, false))
  | Some vip =>
      match rt_table t !! vip with
      | None => (t, (None, false))
      | Some e =>
          let e := note_fail_entry (rt_routing_ewma t) from now e in
          (t <| rt_table := <[vip := e]> (rt_table t) |>, (Some vip, 3 <=? re_fail_streak e))
      end
  end.

Definition note_bytes_entry (w : RoutingEwmaTuning) (path_ep : SocketAddr) (nbytes : Z) (advanced : bool) (now : Instant)
    (e : RouteEntry) : RouteEntry :=
  let e := e <| re_rx_bytes := sat_add U64_MAX (re_rx_bytes e) nbytes |> in
  let elapsed_ms := as_millis (duration_since now (re_rx_bw_calc_at e)) in
  if 500 <=? elapsed_ms then
    e <| re_path_set := (fun ps =>
           reselect_active (note_bandwidth_for_endpoint ps path_ep (re_rx_bytes e) elapsed_ms w) advanced now) <$> re_path_set e |>
      <| re_rx_bytes := 0 |> <| re_rx_bw_calc_at := now |>
  else e.

Definition note_bytes_received_for_vip (t : RoutingTable) (vip : string) (path_ep : SocketAddr) (nbytes : Z) (advanced : bool)
    (now : Instant) : RoutingTable :=
  with_entry t vip (note_bytes_entry (rt_routing_ewma t) path_ep nbytes advanced now).

Definition note_bytes_received (t : RoutingTable) (from : SocketAddr) (nbytes : Z) (advanced : bool) (ignore : option SocketAddr)
    (now : Instant) : RoutingTable :=
  match vip_for_data_endpoint t from ignore with
  | None => t
  | Some vip => note_bytes_received_for_vip t vip from nbytes advanced now
  end.

Definition note_bytes_received_for_vip_u32 (t : RoutingTable) (u nbytes : Z) (advanced : bool) (now : Instant) : RoutingTable :=
  match lookup_vip_by_u32 t u with
  | None => t
  | Some vip =>
      match rt_table t !! vip with
      | None => t
      | Some e => note_bytes_received_for_vip t vip (re_endpoint e) nbytes advanced now
      end
  end.

Definition note_bytes_received_batch (t : RoutingTable) (batch : list (SocketAddr * Z)) (advanced : bool) (ignore : option SocketAddr)
    (now : Instant) : RoutingTable :=
  foldl (fun t x => note_bytes_received t x.1 x.2 advanced ignore now) t batch.

Definition control_race_endpoints_for_endpoint (t : RoutingTable) (ep : SocketAddr) (ignore : option SocketAddr) : list SocketAddr :=
  match vip_for_data_endpoint t ep ignore with
  | None => [ep]
  | Some vip =>
      match rt_table t !! vip with
      | None => [ep]
      | Some e =>
          match re_path_set e with
          | Some ps => match control_race_endpoints ps with [] => [re_endpoint e] | raced => raced end
          | None => [re_endpoint e]
          end
      end
  end.

(** ** Relay hops *)

Inductive RelaySelection := Hop (ep : SocketAddr) | NoHop.

Definition hop_usable (t : RoutingTable) (ep : SocketAddr) (dest_vip : option string) (my_vip : string) (exclude : option SocketAddr) : bool :=
  if bool_decide (exclude = Some ep) then false
  else
    match rt_ep_to_vip t !! ep with
    | None => false
    | Some hop_vip =>
        if bool_decide (hop_vip = my_vip) then false
        else if match dest_vip with
                | Some dest => bool_decide (hop_vip = dest) ||
                               match rt_table t !! dest with Some e => bool_decide (re_endpoint e = ep) | None => false end
                | None => false
                end then false
        else
          match rt_table t !! hop_vip with
          | None => false
          | Some e => if 3 <=? re_fail_streak e then false else negb (should_relay e (rt_failover t))
          end
    end.

Definition sticky_relay_hop (t : RoutingTable) (dest_vip : string) : option SocketAddr :=
  e ← rt_table t !! dest_vip; ps ← re_path_set e; relay ← ps_relay ps; Some (pc_endpoint relay).

Definition rtt_sort (e : RouteEntry) : f64 := if f_lt (re_smoothed_rtt_ms e) f0 then F_INF else re_smoothed_rtt_ms e.

(** Whether [(vip, e)] replaces the best hop so far. *)
Definition hop_better (vip : string) (e : RouteEntry) (best : string * RouteEntry) : bool :=
  (re_quality_score best.2 <? re_quality_score e) ||
  ((re_quality_score e =? re_quality_score best.2) &&
   (f_lt (rtt_sort e) (rtt_sort best.2) || (f_eq (rtt_sort e) (rtt_sort best.2) && str_lt vip best.1))).

Definition hop_candidate (t : RoutingTable) (dest_vip : option string) (my_vip : string) (exclude : option SocketAddr)
    (x : string * RouteEntry) : bool :=
  negb (bool_decide (x.1 = my_vip)) && negb (bool_decide (dest_vip = Some x.1)) &&
  hop_usable t (re_endpoint x.2) dest_vip my_vip exclude.

Definition better_hop (best : option (string * RouteEntry)) (x : string * RouteEntry) : option (string * RouteEntry) :=
  match best with
  | None => Some x
  | Some b => if hop_better x.1 x.2 b then Some x else Some b
  end.

Section Iteration.
Context `{HashIter}.

Definition best_usable_peer_hop (t : RoutingTable) (dest_vip : option string) (my_vip : string) (exclude : option SocketAddr)
  : option SocketAddr :=
  (fun b : string * RouteEntry => re_endpoint b.2) <$>
  foldl better_hop None (filter (fun x => hop_candidate t dest_vip my_vip exclude x = true) (hm_iter (rt_table t))).

Definition select_relay_endpoint (t : RoutingTable) (dest_vip my_vip : string) (exclude : option SocketAddr) : RelaySelection :=
  match sticky_relay_hop t dest_vip with
  | Some sticky =>
      if hop_usable t sticky (Some dest_vip) my_vip exclude then Hop sticky
      else match best_usable_peer_hop t (Some dest_vip) my_vip exclude with Some ep => Hop ep | None => NoHop end
  | None => match best_usable_peer_hop t (Some dest_vip) my_vip exclude with Some ep => Hop ep | None => NoHop end
  end.

Definition select_broadcast_relay_hop (t : RoutingTable) (my_vip : string) (exclude : option SocketAddr) : RelaySelection :=
  match best_usable_peer_hop t None my_vip exclude with Some ep => Hop ep | None => NoHop end.

Definition drain_step (now : Instant) (st : RoutingTable * list (string * SocketAddr * string)) (vip : string)
  : RoutingTable * list (string * SocketAddr * string) :=
  let '(t, removed) := st in
  match rt_table t !! vip with
  | None => (t, removed)
  | Some e => (rt_remove t vip now, removed ++ [(vip, re_endpoint e, re_node_id e)])
  end.

Definition drain_vips_outside_subnet (t : RoutingTable) (my_vip : string) (prefix : Z) (now : Instant)
  : RoutingTable * list (string * SocketAddr * string) :=
  match ipv4_to_u32 my_vip with
  | None => (t, [])
  | Some anchor =>
      let outside (vip : string) := match ipv4_to_u32 vip with Some ip => negb (same_subnet anchor ip prefix) | None => true end in
      foldl (drain_step now) (t, []) (filter (fun vip => outside vip = true) (hm_iter (rt_table t)).*1)
  end.

Definition evict_old_stale (t : RoutingTable) (stale_age : Duration) (now : Instant) : RoutingTable :=
  foldl (fun t vip => rt_remove t vip now) t
    (filter (fun x : string * RouteEntry =>
       bool_decide (re_state x.2 = Stale) && (stale_age <? duration_since now (re_last_seen x.2)) = true) (hm_iter (rt_table t))).*1.

Definition endpoints_where (f : RouteEntry -> bool) (t : RoutingTable) : list SocketAddr :=
  (fun x : string * RouteEntry => re_endpoint x.2) <$> filter (fun x : string * RouteEntry => f x.2 = true) (hm_iter (rt_table t)).
Definition all_endpoints_except (t : RoutingTable) (exclude : SocketAddr) : list SocketAddr :=
  endpoints_where (fun e => negb (bool_decide (re_endpoint e = exclude))) t.
Definition all_endpoints (t : RoutingTable) : list SocketAddr := endpoints_where (fun _ => true) t.
Definition all_active_endpoints (t : RoutingTable) : list SocketAddr := endpoints_where (fun e => bool_decide (re_state e = Active)) t.
Definition endpoints_excluding_stale (t : RoutingTable) : list SocketAddr :=
  endpoints_where (fun e => negb (bool_decide (re_state e = Stale))) t.
Definition push_endpoints_excluding_stale (t : RoutingTable) (out : list SocketAddr) : list SocketAddr :=
  [] ++ endpoints_excluding_stale t.
Definition snapshot (t : RoutingTable) : list (string * RouteEntry) := hm_iter (rt_table t).
Definition snapshot_for_retry (t : RoutingTable) : list (SocketAddr * RouteState) :=
  (fun x : string * RouteEntry => (re_endpoint x.2, re_state x.2)) <$> hm_iter (rt_table t).
Definition sync_snapshot (t : RoutingTable) : list (string * SocketAddr * string * RouteState * Z) :=
  (fun x : string * RouteEntry => (x.1, re_endpoint x.2, re_node_id x.2, re_state x.2, re_last_modified_revision x.2)) <$>
  hm_iter (rt_table t).
Definition count_under_relay_path (t : RoutingTable) (now : Instant) : Z :=
  len (endpoints_where (fun e => should_relay e (rt_failover t) || negb (can_return_to_direct e now (rt_failover t))) t).
End Iteration.

(** [heal_note_rtt]: what the engine does to the table when a healing probe of [vip] is answered. *)
Definition heal_note_rtt (t : RoutingTable) (vip : string) (ep : SocketAddr) (rtt_ms : Z) (advanced : bool) (now : Instant) : RoutingTable :=
  if bool_decide (vip_for_data_endpoint t ep None = Some vip) then
    with_entry t vip (fun e =>
      e <| re_path_set := (fun ps => reselect_active
             (note_rtt_for_endpoint ps ep (f64_of_Z (Z.max rtt_ms 1)) (rt_routing_ewma t) now) advanced now) <$> re_path_set e |>)
  else t.

(** ** The invariant *)

Definition ep_ok (tb : gmap string RouteEntry) (m : gmap SocketAddr string) : Prop :=
  forall ep v, m !! ep = Some v -> exists e, tb !! v = Some e /\ re_endpoint e = ep.
Definition node_ok (tb : gmap string RouteEntry) (m : gmap string string) : Prop :=
  forall n v, m !! n = Some v -> n <> EmptyString /\ exists e, tb !! v = Some e /\ re_node_id e = n.
Definition u32_ok (tb : gmap string RouteEntry) (m : gmap Z string) : Prop :=
  forall u v, m !! u = Some v <-> is_Some (tb !! v) /\ ipv4_to_u32 v = Some u.
Definition has_path (e : RouteEntry) (ep : SocketAddr) : Prop :=
  exists ps, re_path_set e = Some ps /\ ep ∈ endpoints_of ps.
(** The index of secondary endpoints, except what it says of [skip]. *)
Definition path_ok (skip : option string) (tb : gmap string RouteEntry) (m : gmap SocketAddr string) : Prop :=
  forall ep v, m !! ep = Some v -> skip <> Some v -> exists e, tb !! v = Some e /\ has_path e ep /\ ep <> re_endpoint e.
Definition tomb_ok (tb : gmap string RouteEntry) (m : gmap string (Z * Instant)) : Prop :=
  forall v, is_Some (tb !! v) -> m !! v = None.
Definition entry_ok (e : RouteEntry) : Prop :=
  (exists ps, re_path_set e = Some ps /\ set_ok (re_endpoint e) ps) /\
  0 <= re_success_streak e <= 100 /\ 0 <= re_fail_streak e <= 100 /\ 0 <= re_quality_score e.

Record table_ok_but (skip : option string) (t : RoutingTable) : Prop := mkTableOk {
  ok_ep : ep_ok (rt_table t) (rt_ep_to_vip t);
  ok_path : path_ok skip (rt_table t) (rt_path_ep_to_vip t);
  ok_node : node_ok (rt_table t) (rt_node_to_vip t);
  ok_u32 : u32_ok (rt_table t) (rt_vip_u32_to_vip t);
  ok_tomb : tomb_ok (rt_table t) (rt_tombstones t);
  ok_entries : map_Forall (fun _ => entry_ok) (rt_table t);
  ok_initial : 0 <= ew_quality_initial (rt_routing_ewma t)
}.
Definition table_ok (t : RoutingTable) : Prop := table_ok_but None t.

Lemma new_table_ok now : table_ok (new_table now).
Proof.
  unfold new_table. split; rt_simpl.
  - intros ep v H. by rewrite lookup_empty in H.
  - intros ep v H. by rewrite lookup_empty in H.
  - intros n v H. by rewrite lookup_empty in H.
  - intros u v. rewrite !lookup_empty. split; [done|]. intros [[e H] _]. done.
  - intros v [e H]. by rewrite lookup_empty in H.
  - apply map_Forall_empty.
  - vm_compute. intros E. discriminate E.
Qed.

Lemma ipv4_to_u32_inj a b u : ipv4_to_u32 a = Some u -> ipv4_to_u32 b = Some u -> a = b.
Proof.
  unfold ipv4_to_u32. intros Ha Hb. pose proof (parse_ipv4_inj _ _ _ Ha Hb) as E.
  by rewrite <- (bytes_str_bytes a), <- (bytes_str_bytes b), E.
Qed.

(** *** Operations that keep the keys of the entries *)

Definition keeps (e e' : RouteEntry) : Prop :=
  re_endpoint e' = re_endpoint e /\ re_node_id e' = re_node_id e /\
  endpoints_of <$> re_path_set e' = endpoints_of <$> re_path_set e /\ (entry_ok e -> entry_ok e').

Lemma keeps_has_path e e' ep : keeps e e' -> has_path e ep -> has_path e' ep.
Proof.
  intros (_ & _ & H & _) (ps & E & Hp). rewrite E in H. destruct (re_path_set e') as [ps'|] eqn:E'; [|done].
  apply (inj Some) in H. exists ps'. by rewrite H.
Qed.

(** A new table of entries over the same keys. *)
Lemma same_keys_ok skip t tb :
  table_ok_but skip t -> (forall v e, rt_table t !! v = Some e -> exists e', tb !! v = Some e' /\ keeps e e') ->
  (forall v, is_Some (tb !! v) -> is_Some (rt_table t !! v)) ->
  table_ok_but skip (t <| rt_table := tb |>).
Proof.
  intros [He Hp Hn Hu Ht Hf Hi] Hto Hfrom. split; rt_simpl; [..|done].
  - intros ep v H. destruct (He _ _ H) as (e & E & <-). destruct (Hto _ _ E) as (e' & E' & K & _). eauto.
  - intros ep v H Hs. destruct (Hp _ _ H Hs) as (e & E & P & Q). destruct (Hto _ _ E) as (e' & E' & K).
    exists e'. split; [done|]. split; [by eapply keeps_has_path|]. by rewrite (proj1 K).
  - intros n v H. destruct (Hn _ _ H) as (N & e & E & <-). split; [done|].
    destruct (Hto _ _ E) as (e' & E' & _ & K & _). eauto.
  - intros u v. rewrite (Hu u v). split; (intros [Hs Hv]; split; [|done]); [|by apply Hfrom].
    destruct Hs as [e E]. destruct (Hto _ _ E) as (e' & E' & _). by eexists.
  - intros v H. by apply Ht, Hfrom.
  - intros v e' E'. destruct (Hfrom v) as [e E]; [by eexists|]. destruct (Hto _ _ E) as (e'' & E'' & _ & _ & _ & K).
    rewrite E' in E''. apply (inj Some) in E'' as <-. by apply K, (Hf v).
Qed.

Lemma with_entry_ok skip t vip f :
  (forall e, keeps e (f e)) -> table_ok_but skip t -> table_ok_but skip (with_entry t vip f).
Proof.
  intros Hk H. unfold with_entry. destruct (rt_table t !! vip) as [e|] eqn:E; [|done]. apply same_keys_ok; [done|..].
  - intros v e' E'. destruct (decide (v = vip)) as [->|Hne].
    + rewrite lookup_insert_eq. rewrite E in E'. apply (inj Some) in E' as <-. eauto.
    + rewrite lookup_insert_ne by done. exists e'. split; [done|]. by split.
  - intros v. destruct (decide (v = vip)) as [->|Hne]; [by rewrite E|]. by rewrite lookup_insert_ne.
Qed.

(** *** Rebuilding the index of secondary endpoints *)

Lemma index_paths_lookup primary vip l : forall m ep v,
  foldl (index_path primary vip) m l !! ep = Some v ->
  m !! ep = Some v \/ (v = vip /\ ep <> primary /\ ep ∈ pc_endpoint <$> l).
Proof.
  induction l as [|p l IH]; intros m ep v H; [by left|]. cbn [foldl] in H. destruct (IH _ _ _ H) as [Hm|(-> & Hne & Hin)].
  - unfold index_path in Hm. case_bool_decide as Hp; [by left|]. apply lookup_insert_Some in Hm as [[<- <-]|[_ Hm]]; [|by left].
    right. split; [done|]. split; [done|]. cbn. by left.
  - right. split; [done|]. split; [done|]. cbn. by right.
Qed.

Lemma clear_path_ok t vip : table_ok_but (Some vip) t -> table_ok (clear_path_ep_index_for_vip t vip).
Proof.
  intros [He Hp Hn Hu Ht Hf Hi]. split; try done. unfold clear_path_ep_index_for_vip. rt_simpl.
  intros ep v [H Hv]%lookup_retain _. apply Hp; [done|]. intros E. apply (inj Some) in E as ->. by rewrite bool_decide_true in Hv.
Qed.

Lemma table_ok_weaken t skip : table_ok t -> table_ok_but skip t.
Proof. intros [He Hp Hn Hu Ht Hf Hi]. split; try done. intros ep v H _. by apply Hp. Qed.

Lemma rebuild_ok t vip : table_ok_but (Some vip) t -> table_ok (rebuild_path_ep_index_for_vip t vip).
Proof.
  intros H%clear_path_ok. unfold rebuild_path_ep_index_for_vip. set (t' := clear_path_ep_index_for_vip t vip) in *.
  clearbody t'. destruct (rt_table t' !! vip) as [e|] eqn:E; [|done]. destruct (re_path_set e) as [ps|] eqn:Ep; [|done].
  destruct H as [He Hp Hn Hu Ht Hf Hi]. split; rt_simpl; try done.
  intros ep v H _. apply index_paths_lookup in H as [H|(-> & Hne & Hin)]; [by apply Hp|].
  exists e. split; [done|]. split; [by exists ps|done].
Qed.

(** *** Removal *)

Section DeleteEntry.
Context (tb : gmap string RouteEntry) (vip : string).

Lemma delete_is_Some v : is_Some (delete vip tb !! v) <-> is_Some (tb !! v) /\ v <> vip.
Proof. rewrite lookup_delete_is_Some. naive_solver. Qed.

Lemma delete_u32 m : u32_ok tb m ->
  u32_ok (delete vip tb) (match ipv4_to_u32 vip with Some u => delete u m | None => m end).
Proof.
  intros Hu u v. rewrite delete_is_Some. destruct (ipv4_to_u32 vip) as [u'|] eqn:Eu.
  - rewrite lookup_delete_Some, (Hu u v). split; [|intros [[Hs Hne] Hv]; split; [|done]; intros ->].
    + intros (Hne & Hs & Hv). split; [|done]. split; [done|]. intros ->. congruence.
    + by apply Hne, (ipv4_to_u32_inj v vip u).
  - rewrite (Hu u v). split; [|naive_solver]. intros [Hs Hv]. split; [|done]. split; [done|]. intros ->. congruence.
Qed.

Lemma delete_tomb m r : tomb_ok tb m -> tomb_ok (delete vip tb) (<[vip := r]> m).
Proof. intros Ht v [Hs Hne]%delete_is_Some. rewrite lookup_insert_ne by done. by apply Ht. Qed.

Lemma delete_path m : (forall ep, m !! ep <> Some vip) -> path_ok None tb m -> path_ok None (delete vip tb) m.
Proof.
  intros Hnv Hp ep v Hv _. destruct (Hp _ _ Hv) as (e & E & H); [done|]. exists e.
  rewrite lookup_delete_ne; [done|]. intros <-. by apply (Hnv ep).
Qed.

Lemma delete_ep m e : tb !! vip = Some e -> ep_ok tb m ->
  ep_ok (delete vip tb) (if bool_decide (m !! re_endpoint e = Some vip) then delete (re_endpoint e) m else m).
Proof.
  intros E He ep v Hv. assert (m !! ep = Some v /\ v <> vip) as [Hv' Hne].
  { case_bool_decide as Hb; [apply lookup_delete_Some in Hv as [Hne Hv]|]; (split; [done|]); intros ->;
      destruct (He _ _ Hv) as (? & ? & ?); congruence. }
  destruct (He _ _ Hv') as (e' & Ee & Hee). exists e'. by rewrite lookup_delete_ne by done.
Qed.

Lemma delete_node m e : tb !! vip = Some e -> node_ok tb m ->
  node_ok (delete vip tb) (if bool_decide (re_node_id e = EmptyString) then m else delete (re_node_id e) m).
Proof.
  intros E Hn n v Hv. assert (m !! n = Some v /\ v <> vip) as [Hv' Hne].
  { case_bool_decide as Hb; [|apply lookup_delete_Some in Hv as [Hne Hv]]; (split; [done|]); intros ->;
      destruct (Hn _ _ Hv) as (? & ? & ? & ?); congruence. }
  destruct (Hn _ _ Hv') as (Hem & e' & Ee & Hee). split; [done|]. exists e'. by rewrite lookup_delete_ne by done.
Qed.
End DeleteEntry.

Lemma remove_ok t vip now : table_ok t -> table_ok (rt_remove t vip now).
Proof.
  intros H. apply (table_ok_weaken _ (Some vip)), clear_path_ok in H as Hc. unfold rt_remove.
  assert (Hnv : forall ep, rt_path_ep_to_vip (clear_path_ep_index_for_vip t vip) !! ep <> Some vip).
  { intros ep [_ Hv]%lookup_retain. by rewrite bool_decide_true in Hv. }
  set (c := clear_path_ep_index_for_vip t vip) in *. clearbody c. clear H. destruct Hc as [He Hp Hn Hu Ht Hf Hi].
  pose proof (delete_u32 _ vip _ Hu) as Hu'. pose proof (delete_path _ vip _ Hnv Hp) as Hp'.
  pose proof (fun r => delete_tomb _ vip _ r Ht) as Ht'.
  destruct (rt_table c !! vip) as [e|] eqn:E.
  - pose proof (delete_ep _ vip _ e E He) as He'. pose proof (delete_node _ vip _ e E Hn) as Hn'.
    destruct (bool_decide (rt_ep_to_vip c !! re_endpoint e = Some vip)) eqn:B1,
      (bool_decide (re_node_id e = EmptyString)) eqn:B2; rt_simpl; rewrite ?B1; rt_simpl;
      destruct (ipv4_to_u32 vip); split; rt_simpl; try done; by apply map_Forall_delete.
  - rewrite delete_id in Hu', Hp', Ht' by done. destruct (ipv4_to_u32 vip); split; rt_simpl; done.
Qed.

(** *** Storing a route *)

Lemma updated_entry_fields t vip ep node now :
  let e := updated_entry t vip ep node now in
  re_endpoint e = ep /\
  re_node_id e = match node with Some n => n | None => match rt_table t !! vip with Some o => re_node_id o | None => EmptyString end end.
Proof. unfold updated_entry. destruct node, (rt_table t !! vip); done. Qed.

Lemma updated_entry_ok t vip ep node now : table_ok t -> entry_ok (updated_entry t vip ep node now).
Proof.
  intros H. set (e0 := default (new_entry ep (ew_quality_initial (rt_routing_ewma t)) now) (rt_table t !! vip)).
  assert (He : entry_ok e0).
  { subst e0. destruct (rt_table t !! vip) as [o|] eqn:E; [apply (ok_entries _ _ H vip o E)|]. cbn [default].
    split; [eexists; split; [reflexivity|apply new_path_set_ok]|]. pose proof (ok_initial _ _ H). cbn. lia. }
  unfold updated_entry. fold e0. clearbody e0. destruct He as [(ps & Ep & Hs) Hr]. rewrite Ep.
  destruct node; (split; [|done]); eexists; (split; [reflexivity|]); by eapply set_direct_ok.
Qed.

Section StoreEntry.
Context (tb : gmap string RouteEntry) (vip : string) (e : RouteEntry).

Lemma store_ep m : ep_ok tb m ->
  ep_ok (<[vip := e]> tb) (<[re_endpoint e := vip]> (match tb !! vip with Some o => delete (re_endpoint o) m | None => m end)).
Proof.
  intros He ep v [[<- <-]|[Hne Hv]]%lookup_insert_Some; [exists e; by rewrite lookup_insert_eq|].
  assert (m !! ep = Some v /\ v <> vip) as [Hv' Hvip].
  { destruct (tb !! vip) as [o|] eqn:E; [apply lookup_delete_Some in Hv as [? Hv]|]; (split; [done|]); intros ->;
      destruct (He _ _ Hv) as (? & ? & ?); congruence. }
  destruct (He _ _ Hv') as (e' & Ee & Hee). exists e'. by rewrite lookup_insert_ne by done.
Qed.

Lemma store_node m : node_ok tb m ->
  let eff := if bool_decide (re_node_id e = EmptyString) then None else Some (re_node_id e) in
  let m' := match tb !! vip with
            | Some o => if negb (bool_decide (re_node_id o = EmptyString)) && negb (bool_decide (eff = Some (re_node_id o)))
                        then delete (re_node_id o) m else m
            | None => m
            end in
  node_ok (<[vip := e]> tb) (match eff with Some n => <[n := vip]> m' | None => m' end).
Proof.
  intros Hn eff m' n v Hv.
  assert (Hm : m' !! n = Some v -> eff <> Some n -> m !! n = Some v /\ v <> vip).
  { subst m'. intros Hm Heff. assert (m !! n = Some v) as Hm'.
    { destruct (tb !! vip); [|done]. destruct (_ && _); [by apply lookup_delete_Some in Hm as [_ ?]|done]. }
    split; [done|]. intros ->. destruct (Hn _ _ Hm') as (Hem & o & Eo & Ho). rewrite Eo in Hm.
    rewrite Ho, (bool_decide_false (n = _)), (bool_decide_false (eff = _)) in Hm by done. cbn in Hm.
    by rewrite lookup_delete_eq in Hm. }
  assert (Hkeep : m !! n = Some v -> v <> vip -> n <> EmptyString /\ exists e', <[vip := e]> tb !! v = Some e' /\ re_node_id e' = n).
  { intros Hv' Hne. destruct (Hn _ _ Hv') as (Hem & e' & Ee & Hee). split; [done|]. exists e'. by rewrite lookup_insert_ne by done. }
  subst eff. case_bool_decide as Hb.
  - destruct (Hm Hv) as [H1 H2]; [done|]. by apply Hkeep.
  - apply lookup_insert_Some in Hv as [[<- <-]|[Hne Hv]].
    + split; [done|]. exists e. by rewrite lookup_insert_eq.
    + destruct (Hm Hv) as [H1 H2]; [congruence|]. by apply Hkeep.
Qed.

Lemma store_is_Some v : is_Some (<[vip := e]> tb !! v) <-> v = vip \/ is_Some (tb !! v).
Proof. rewrite lookup_insert_is_Some. destruct (decide (v = vip)); naive_solver. Qed.

Lemma store_u32 m : u32_ok tb m ->
  u32_ok (<[vip := e]> tb) (match ipv4_to_u32 vip with Some u => <[u := vip]> m | None => m end).
Proof.
  intros Hu u v. rewrite store_is_Some. destruct (ipv4_to_u32 vip) as [u'|] eqn:Eu.
  - rewrite lookup_insert_Some, (Hu u v). split; [naive_solver|]. intros [Hs Hv].
    destruct (decide (u' = u)) as [->|Hne]; [left; split; [done|by eapply ipv4_to_u32_inj]|].
    right. split; [done|]. destruct Hs as [->|Hs]; [congruence|done].
  - rewrite (Hu u v). split; [naive_solver|]. intros [[->|Hs] Hv]; [congruence|done].
Qed.

Lemma store_tomb m : tomb_ok tb m -> tomb_ok (<[vip := e]> tb) (delete vip m).
Proof.
  intros Ht v [->|Hs]%store_is_Some; [by rewrite lookup_delete_eq|]. apply lookup_delete_None. right. by apply Ht.
Qed.

Lemma store_path m : path_ok None tb m -> path_ok (Some vip) (<[vip := e]> tb) m.
Proof.
  intros Hp ep v Hv Hne. destruct (Hp _ _ Hv) as (e' & Ee & H); [done|]. exists e'. rewrite lookup_insert_ne by congruence. done.
Qed.
End StoreEntry.

(** Restamping the revision of a stored entry. *)
Lemma restamp_ok skip t vip rev :
  table_ok_but skip t ->
  table_ok_but skip (with_entry (t <| rt_revision := rev |>) vip (fun e => e <| re_last_modified_revision := rev |>)).
Proof. intros H. apply with_entry_ok; [done|]. by destruct H. Qed.

Lemma store_ok t vip ep node now : table_ok t -> table_ok (rt_store t vip ep node now).
Proof.
  intros H. pose proof (updated_entry_ok t vip ep node now H) as Hok.
  destruct (updated_entry_fields t vip ep node now) as [Hep _].
  unfold rt_store. set (e := updated_entry t vip ep node now) in *. clearbody e. subst ep.
  destruct H as [He Hp Hn Hu Ht Hf Hi].
  pose proof (store_ep _ vip e _ He) as He'. pose proof (store_node _ vip e _ Hn) as Hn'.
  pose proof (store_u32 _ vip e _ Hu) as Hu'. pose proof (store_tomb _ vip e _ Ht) as Ht'.
  pose proof (store_path _ vip e _ Hp) as Hp'. cbv zeta in Hn'. cbv zeta.
  apply rebuild_ok. match goal with |- table_ok_but _ (if ?b then _ else _) => destruct b end; [apply restamp_ok|];
    destruct (rt_table t !! vip) as [o|]; try destruct (negb _ && negb _);
    destruct (bool_decide (re_node_id e = EmptyString)); destruct (ipv4_to_u32 vip);
    split; rt_simpl; try done; by apply map_Forall_insert_2.
Qed.

Lemma prune_ok t keep now : table_ok t -> table_ok (prune_tombstones t keep now).
Proof.
  intros [He Hp Hn Hu Ht Hf Hi]. split; try done. unfold prune_tombstones. rt_simpl. intros v Hv.
  apply lookup_retain_None. left. by apply Ht.
Qed.

Lemma resolve_alias_ok t vip ep node now t' : table_ok t -> resolve_alias t vip ep node now = Some t' -> table_ok t'.
Proof.
  intros H. unfold resolve_alias. destruct (rt_ep_to_vip t !! ep) as [prev|]; [|by intros ->%(inj Some)].
  case_bool_decide; [by intros <-%(inj Some)|]. destruct (alias_action _ _ _); [done|..]; intros <-%(inj Some).
  - by apply remove_ok.
  - destruct H as [He Hp Hn Hu Ht Hf Hi]. split; try done. intros ep' v. rt_simpl. intros [_ Hv]%lookup_delete_Some. by apply He.
Qed.

Lemma update_ok t vip ep node now : table_ok t -> table_ok (rt_update t vip ep node now).
Proof.
  intros H. unfold rt_update. cbv zeta. destruct (TOMBSTONE_PRUNE_INTERVAL <=? _); [apply (prune_ok _ ∅ now) in H|];
    (destruct (resolve_alias _ vip ep node now) as [t'|] eqn:E; [|done]); by eapply store_ok, resolve_alias_ok.
Qed.

(** *** What the other operations do to an entry *)

(** Changes to the measurements only. *)
Lemma keeps_paths e e' f :
  re_endpoint e' = re_endpoint e -> re_node_id e' = re_node_id e -> re_path_set e' = f <$> re_path_set e ->
  (forall ps, endpoints_of (f ps) = endpoints_of ps) -> (forall ep ps, set_ok ep ps -> set_ok ep (f ps)) ->
  (entry_ok e -> 0 <= re_success_streak e' <= 100 /\ 0 <= re_fail_streak e' <= 100 /\ 0 <= re_quality_score e') ->
  keeps e e'.
Proof.
  intros H1 H2 H3 Hf Hs Hr. split; [done|]. split; [done|]. split.
  - rewrite H3. destruct (re_path_set e) as [ps|]; [exact (f_equal Some (Hf ps))|done].
  - intros He. split; [|by apply Hr]. destruct He as [(ps & Ep & Hps) _]. exists (f ps). rewrite H3, Ep, H1. split; [done|by apply Hs].
Qed.

Lemma keeps_same e e' :
  re_endpoint e' = re_endpoint e -> re_node_id e' = re_node_id e -> re_path_set e' = re_path_set e ->
  (entry_ok e -> 0 <= re_success_streak e' <= 100 /\ 0 <= re_fail_streak e' <= 100 /\ 0 <= re_quality_score e') -> keeps e e'.
Proof.
  intros H1 H2 H3 H4. apply (keeps_paths e e' id); try done. rewrite H3. by destruct (re_path_set e).
Qed.

Lemma keeps_refl e : keeps e e.
Proof. by split. Qed.
Lemma keeps_trans a b c : keeps a b -> keeps b c -> keeps a c.
Proof.
  intros (A1 & A2 & A3 & A4) (B1 & B2 & B3 & B4). split; [congruence|]. split; [congruence|]. split; [congruence|]. auto.
Qed.

Ltac keeps_ranges := intros (_ & ? & ? & ?); rt_simpl; lia.
Ltac keeps_fields := apply keeps_same; [done..|keeps_ranges].

Lemma update_rtt_base_keeps e r now cg : keeps e (update_rtt_base_on_sample e r now cg).
Proof.
  unfold update_rtt_base_on_sample, close_rtt_window. repeat case_match; keeps_fields.
Qed.

Lemma apply_rtt_sample_keeps e r fo cg w now : keeps e (apply_rtt_sample e r fo cg w now).
Proof.
  unfold apply_rtt_sample. cbv zeta.
  match goal with |- context [update_rtt_base_on_sample ?a ?b ?c ?d] =>
    pose proof (update_rtt_base_keeps a b c d) as Hk; set (e1 := update_rtt_base_on_sample a b c d) in * end.
  clearbody e1. eapply keeps_trans; [apply keeps_same with (e' := e <| re_jitter_ms := f0 |>); [done..|keeps_ranges]|].
  refine (keeps_trans _ e1 _ _ _).
  - destruct Hk as (K1 & K2 & K3 & K4). split; [done|]. split; [done|]. split; [done|]. exact K4.
  - repeat case_match; keeps_fields.
Qed.

Lemma sampled_paths_keeps e e' g adv now :
  re_endpoint e' = re_endpoint e -> re_node_id e' = re_node_id e ->
  re_path_set e' = (fun ps => reselect_active (g ps) adv now) <$> re_path_set e ->
  (forall ps, endpoints_of (g ps) = endpoints_of ps) -> (forall ep ps, set_ok ep ps -> set_ok ep (g ps)) ->
  (entry_ok e -> 0 <= re_success_streak e' <= 100 /\ 0 <= re_fail_streak e' <= 100 /\ 0 <= re_quality_score e') ->
  keeps e e'.
Proof.
  intros H1 H2 H3 Hg Hs Hr. apply (keeps_paths e e' _ H1 H2 H3); [|intros; by apply reselect_ok, Hs|done].
  intros ps. by rewrite endpoints_of_reselect.
Qed.

Lemma first_sample_keeps e r : keeps e (first_sample e r).
Proof. unfold first_sample. destruct (f_lt _ _); keeps_fields. Qed.

Lemma note_rtt_entry_keeps fo cg w from r now e : keeps e (note_rtt_entry fo cg w from r now e).
Proof.
  unfold note_rtt_entry. cbv zeta.
  set (e1 := if is_active_path e from then _ else _).
  assert (K : keeps e e1).
  { subst e1. destruct (is_active_path e from); [|keeps_fields].
    refine (keeps_trans _ (e <| re_last_seen := now |>) _ _ _); [keeps_fields|].
    eapply keeps_trans; [apply first_sample_keeps|apply apply_rtt_sample_keeps]. }
  clearbody e1. apply (keeps_trans _ _ _ K).
  apply (sampled_paths_keeps _ _ (fun ps => note_rtt_for_endpoint ps from (f64_of_Z r) w now) false now); try done.
  - intros ps. by apply endpoints_of_on_first.
  - intros ep ps. by apply on_first_ok.
  - intros (_ & ? & ? & ?). rt_simpl. lia.
Qed.

Lemma note_fail_entry_keeps w from now e : keeps e (note_fail_entry w from now e).
Proof.
  unfold note_fail_entry. cbv zeta.
  apply (sampled_paths_keeps _ _ (fun ps => note_failure_for_endpoint ps from w) false now).
  - by repeat case_match.
  - by repeat case_match.
  - by repeat case_match.
  - intros ps. by apply endpoints_of_on_first.
  - intros ep ps. by apply on_first_ok.
  - intros (_ & ? & ? & ?). repeat case_match; rt_simpl; lia.
Qed.

Lemma note_bytes_entry_keeps w ep n adv now e : keeps e (note_bytes_entry w ep n adv now e).
Proof.
  unfold note_bytes_entry. cbv zeta. destruct (500 <=? _); [|keeps_fields].
  eapply (sampled_paths_keeps _ _ (fun ps => note_bandwidth_for_endpoint ps ep _ _ w) adv now); try done.
  - intros ps. apply endpoints_of_on_first. intros p. apply path_note_bandwidth_ep.
  - intros ep' ps. apply on_first_ok. intros p. apply path_note_bandwidth_ep.
  - intros (_ & ? & ? & ?). rt_simpl. lia.
Qed.

Lemma reset_owd_keeps e now : keeps e (reset_owd_base_cold e now).
Proof. unfold reset_owd_base_cold. keeps_fields. Qed.
Lemma note_owd_keeps e owd rtt : keeps e (note_owd_applied_residual e owd rtt).
Proof. unfold note_owd_applied_residual. keeps_fields. Qed.
Lemma close_owd_keeps e base now cg : keeps e (close_owd_window e base now cg).1.
Proof.
  unfold close_owd_window. cbv zeta.
  destruct (f_lt (re_owd_base_window_min e) base); [keeps_fields|]. destruct (f_lt base (re_owd_base_window_min e)); [|keeps_fields].
  destruct (cg_base_rtt_stale_windows cg <=? _); keeps_fields.
Qed.

Lemma update_owd_keeps e owd rtt now cg : keeps e (update_owd_base_on_sample e owd rtt now cg).1.
Proof.
  unfold update_owd_base_on_sample. destruct (negb (cg_rtt_base_tracking cg)); [apply keeps_refl|].
  match goal with |- context [if ?b then (reset_owd_base_cold _ _, _) else _] => destruct b end; [apply reset_owd_keeps|].
  match goal with |- context [if ?b then (reset_owd_base_cold _ _, _) else _] => destruct b end; [apply reset_owd_keeps|].
  destruct (re_owd_base_ms e) as [base|]; cbv zeta; cbn [fst]; [|refine (keeps_trans _ _ _ _ (note_owd_keeps _ _ _)); keeps_fields].
  set (e1 := e <| re_owd_base_window_min := _ |>). assert (K1 : keeps e e1) by (unfold e1; keeps_fields). clearbody e1.
  match goal with |- context [if ?b then close_owd_window _ _ _ _ else _] => destruct b end.
  - pose proof (close_owd_keeps e1 base now cg) as K2. destruct (close_owd_window e1 base now cg) as [e2 b2]. cbn [fst] in K2 |- *.
    apply (keeps_trans _ _ _ K1), (keeps_trans _ _ _ K2). refine (keeps_trans _ _ _ _ (note_owd_keeps _ _ _)). keeps_fields.
  - apply (keeps_trans _ _ _ K1). refine (keeps_trans _ _ _ _ (note_owd_keeps _ _ _)). keeps_fields.
Qed.

(** *** Every operation *)

Inductive RtOp :=
  | OUpdate (vip : string) (ep : SocketAddr) (node : option string)
  | ORemove (vip : string)
  | OPrune (keep : gset string)
  | OSeen (batch : list (SocketAddr * Instant))
  | OTouch (ep : SocketAddr)
  | OIdle (threshold : Duration)
  | OEvict (age : Duration)
  | ODrain (my_vip : string) (prefix : Z)
  | OFallback (vip : string)
  | OBegin (vip : string) (ep : SocketAddr) (kind : PathKind) (window : Duration)
  | OEnd (vip : string)
  | OClearRelay (vip : string)
  | OStamp (vip : string) (hop : SocketAddr)
  | ORtt (from : SocketAddr) (rtt_ms : Z) (ignore : option SocketAddr)
  | OOwd (from : SocketAddr) (owd rtt : f64) (ignore : option SocketAddr)
  | OFail (from : SocketAddr) (ignore : option SocketAddr)
  | OBytes (batch : list (SocketAddr * Z)) (advanced : bool) (ignore : option SocketAddr)
  | OBytesU32 (u n : Z) (advanced : bool)
  | OHeal (vip : string) (ep : SocketAddr) (rtt_ms : Z) (advanced : bool)
  | OTune (fo : FailoverTuning) (cg : CongestionTuning) (w : RoutingEwmaTuning).

Section Runs.
Context `{HashIter}.

Definition rt_step (t : RoutingTable) (x : RtOp * Instant) : RoutingTable :=
  let now := x.2 in
  match x.1 with
  | OUpdate vip ep node => rt_update t vip ep node now
  | ORemove vip => rt_remove t vip now
  | OPrune keep => prune_tombstones t keep now
  | OSeen batch => apply_last_seen_batch t batch
  | OTouch ep => (touch_endpoint t ep now).1
  | OIdle d => mark_stale_if_idle t d now
  | OEvict d => evict_old_stale t d now
  | ODrain my p => (drain_vips_outside_subnet t my p now).1
  | OFallback vip => note_relay_fallback t vip now
  | OBegin vip ep k win => begin_transition t vip ep k win now
  | OEnd vip => end_transition t vip
  | OClearRelay vip => clear_relay_path t vip
  | OStamp vip hop => stamp_relay_hop t vip hop now
  | ORtt from r ig => (note_rtt t from r ig now).1
  | OOwd from owd r ig => (note_fwd_owd t from owd r ig now).1
  | OFail from ig => (note_fail t from ig now).1
  | OBytes b adv ig => note_bytes_received_batch t b adv ig now
  | OBytesU32 u n adv => note_bytes_received_for_vip_u32 t u n adv now
  | OHeal vip ep r adv => heal_note_rtt t vip ep r adv now
  | OTune fo cg w => t <| rt_failover := fo |> <| rt_congestion := cg |> <| rt_routing_ewma := w |>
  end.

(** New weights come from a clamped configuration. *)
Definition op_ok (x : RtOp * Instant) : Prop := match x.1 with OTune _ _ w => ewma_ok w | _ => True end.

Definition rt_run (t : RoutingTable) (l : list (RtOp * Instant)) : RoutingTable := foldl rt_step t l.

(** An operation on the entry of one address. *)
Lemma set_entry_ok t vip e e' : table_ok t -> rt_table t !! vip = Some e -> keeps e e' ->
  table_ok (t <| rt_table := <[vip := e']> (rt_table t) |>).
Proof.
  intros Ht E K. apply same_keys_ok; [done|..].
  - intros v x Ex. destruct (decide (v = vip)) as [->|Hne].
    + rewrite lookup_insert_eq. rewrite E in Ex. apply (inj Some) in Ex as <-. eauto.
    + rewrite lookup_insert_ne by done. exists x. split; [done|apply keeps_refl].
  - intros v. destruct (decide (v = vip)) as [->|Hne]; [by rewrite E|]. by rewrite lookup_insert_ne.
Qed.

Lemma evict_ok t d now : table_ok t -> table_ok (evict_old_stale t d now).
Proof. intros Ht. unfold evict_old_stale. apply foldl_inv; [done|]. intros s v Hs. by apply remove_ok. Qed.

Lemma drain_ok t my p now : table_ok t -> table_ok (drain_vips_outside_subnet t my p now).1.
Proof.
  intros Ht. unfold drain_vips_outside_subnet. destruct (ipv4_to_u32 my) as [anchor|]; [|done].
  apply (foldl_inv (fun st => table_ok st.1)); [done|]. intros [s r] v Hs. unfold drain_step.
  destruct (rt_table s !! v); [by apply remove_ok|done].
Qed.

Lemma idle_table_ok t d now : table_ok t -> table_ok (mark_stale_if_idle t d now).
Proof.
  intros Ht. apply same_keys_ok; [done|..].
  - intros v e E. rewrite lookup_fmap, E. eexists. split; [reflexivity|]. destruct (_ && _); [keeps_fields|apply keeps_refl].
  - intros v. by rewrite lookup_fmap, fmap_is_Some.
Qed.

Lemma touch_table_ok t ep now : table_ok t -> table_ok (touch_endpoint t ep now).1.
Proof.
  intros Ht. unfold touch_endpoint. destruct (rt_ep_to_vip t !! ep) as [vip|]; [|done].
  assert (Ht' : table_ok (with_entry t vip (fun e => e <| re_last_seen := now |>))) by (apply with_entry_ok; [intros e; keeps_fields|done]).
  set (t' := with_entry _ _ _) in *. clearbody t'. unfold promote_stale_if_needed.
  repeat case_match; try done. apply with_entry_ok; [intros e; keeps_fields|done].
Qed.

(** Changing the paths of one entry and rebuilding their index. *)
Lemma repath_ok t vip f :
  (forall ep e, entry_ok e -> re_endpoint e = ep ->
     re_endpoint (f e) = ep /\ re_node_id (f e) = re_node_id e /\ entry_ok (f e)) ->
  table_ok t -> table_ok (rebuild_path_ep_index_for_vip (with_entry t vip f) vip).
Proof.
  intros Hf Ht. apply rebuild_ok. unfold with_entry. destruct (rt_table t !! vip) as [e|] eqn:E; [|by apply table_ok_weaken].
  destruct Ht as [He Hp Hn Hu Htm Hfa Hi]. destruct (Hf (re_endpoint e) e) as (F1 & F2 & F3); [by apply (Hfa vip)|done|].
  split; rt_simpl; [..|done].
  - intros ep v Hv. destruct (He _ _ Hv) as (x & Ex & Hx). destruct (decide (v = vip)) as [->|Hne].
    + exists (f e). rewrite lookup_insert_eq. split; [done|congruence].
    + exists x. by rewrite lookup_insert_ne.
  - by apply store_path.
  - intros n v Hv. destruct (Hn _ _ Hv) as (Hem & x & Ex & Hx). split; [done|]. destruct (decide (v = vip)) as [->|Hne].
    + exists (f e). rewrite lookup_insert_eq. split; [done|congruence].
    + exists x. by rewrite lookup_insert_ne.
  - intros u v. rewrite store_is_Some, (Hu u v). split; [naive_solver|]. intros [[->|Hs] Hv]; [|done]. split; [by eexists|done].
  - intros v [->|Hs]%store_is_Some; apply Htm; [by eexists|done].
  - by apply map_Forall_insert_2.
Qed.

Lemma clear_relay_ok t vip : table_ok t -> table_ok (clear_relay_path t vip).
Proof.
  apply repath_ok. intros ep e [(ps & Ep & Hs) Hr] <-. split; [done|]. split; [done|]. split; [|done].
  exists (clear_relay_slot ps). rt_simpl. rewrite Ep. split; [done|]. by apply clear_relay_slot_ok.
Qed.

Lemma stamp_ok t vip hop now : table_ok t -> table_ok (stamp_relay_hop t vip hop now).
Proof.
  intros Ht. unfold stamp_relay_hop. destruct (rt_table t !! vip); [|done]. revert Ht.
  apply repath_ok. intros ep e [(ps & Ep & Hs) Hr] <-. split; [done|]. split; [done|]. split; [|done].
  eexists. rt_simpl. rewrite Ep. split; [reflexivity|]. by apply set_relay_ok.
Qed.

Lemma rtt_ok t from r ig now : table_ok t -> table_ok (note_rtt t from r ig now).1.
Proof.
  intros Ht. unfold note_rtt. destruct (vip_for_data_endpoint _ _ _) as [v|]; [|done]. destruct (rt_table t !! v); [|done].
  apply with_entry_ok; [intros e; apply note_rtt_entry_keeps|done].
Qed.

Lemma owd_ok t from owd r ig now : table_ok t -> table_ok (note_fwd_owd t from owd r ig now).1.
Proof.
  intros Ht. unfold note_fwd_owd. destruct (vip_for_data_endpoint _ _ _) as [v|]; [|done].
  destruct (rt_table t !! v) as [e|] eqn:E; [|done]. destruct (negb _); [done|].
  pose proof (update_owd_keeps e owd r now (rt_congestion t)) as K. destruct (update_owd_base_on_sample _ _ _ _ _) as [e' o].
  by apply (set_entry_ok t v e).
Qed.

Lemma fail_ok t from ig now : table_ok t -> table_ok (note_fail t from ig now).1.
Proof.
  intros Ht. unfold note_fail. destruct (vip_for_data_endpoint _ _ _) as [v|]; [|done].
  destruct (rt_table t !! v) as [e|] eqn:E; [|done]. apply (set_entry_ok t v e); [done..|apply note_fail_entry_keeps].
Qed.

Lemma bytes_vip_ok t vip ep n adv now : table_ok t -> table_ok (note_bytes_received_for_vip t vip ep n adv now).
Proof. apply with_entry_ok. intros e. apply note_bytes_entry_keeps. Qed.

Lemma heal_table_ok t vip ep r adv now : table_ok t -> table_ok (heal_note_rtt t vip ep r adv now).
Proof.
  intros Ht. unfold heal_note_rtt. case_bool_decide; [|done]. apply with_entry_ok; [|done]. intros e.
  apply (sampled_paths_keeps _ _ (fun ps => note_rtt_for_endpoint ps ep (f64_of_Z (Z.max r 1)) (rt_routing_ewma t) now) adv now); try done.
  - intros ps. by apply endpoints_of_on_first.
  - intros ep' ps. by apply on_first_ok.
  - intros (_ & ? & ? & ?). rt_simpl. lia.
Qed.

Lemma step_ok t x : op_ok x -> table_ok t -> table_ok (rt_step t x).
Proof.
  destruct x as [op now]. unfold rt_step, op_ok. cbn [fst snd]. intros Hop Ht. destruct op.
  - by apply update_ok.
  - by apply remove_ok.
  - by apply prune_ok.
  - unfold apply_last_seen_batch. apply foldl_inv; [done|]. intros s x Hs. destruct (rt_ep_to_vip s !! x.1); [|done]. apply with_entry_ok; [intros e; keeps_fields|done].
  - by apply touch_table_ok.
  - by apply idle_table_ok.
  - by apply evict_ok.
  - by apply drain_ok.
  - apply with_entry_ok; [|done]. intros e. cbv zeta. repeat case_match; try apply keeps_refl; keeps_fields.
  - apply with_entry_ok; [|done]. intros e. cbv zeta. repeat case_match; try apply keeps_refl; keeps_fields.
  - apply with_entry_ok; [intros e; keeps_fields|done].
  - by apply clear_relay_ok.
  - by apply stamp_ok.
  - by apply rtt_ok.
  - by apply owd_ok.
  - by apply fail_ok.
  - unfold note_bytes_received_batch. apply foldl_inv; [done|]. intros s x Hs. unfold note_bytes_received. destruct (vip_for_data_endpoint _ _ _); [|done]. by apply bytes_vip_ok.
  - unfold note_bytes_received_for_vip_u32. repeat case_match; try done. by apply bytes_vip_ok.
  - by apply heal_table_ok.
  - destruct Ht as [He Hp Hn Hu Htm Hf Hi]. split; rt_simpl; try done. apply Hop.
Qed.

Lemma run_ok t l : Forall op_ok l -> table_ok t -> table_ok (rt_run t l).
Proof. revert t. induction l as [|x l IH]; intros t Hl Ht; [done|]. apply Forall_cons in Hl as [Hx Hl]. by apply IH, step_ok. Qed.
End Runs.

(** ** Relay choice *)

Definition rtt_defined (e : RouteEntry) : Prop := f_is_nan (re_smoothed_rtt_ms e) = false.

Lemma rtt_sort_defined e : rtt_defined e -> f_is_nan (rtt_sort e) = false.
Proof. unfold rtt_sort. by destruct (f_lt _ _). Qed.

Lemma f_eq_key x y : f_is_nan x = false -> f_is_nan y = false -> (f_eq x y = true) <-> (f_key x = f_key y).
Proof.
  unfold f_eq, SFeqb. destruct x as [[]|[]| |[] mx ex], y as [[]|[]| |[] my ey]; simpl; try done; intros _ _;
    (destruct (Z.compare_spec ex ey) as [->|?|?]; [|split; [done|intros [= ? ?]; lia]..]);
    change (Pos.compare_cont Eq mx my) with (Pos.compare mx my);
    destruct (Pos.compare_spec mx my) as [->|?|?]; simpl; split; try done; intros [= ?]; lia.
Qed.

(** The order of the choice: quality, then round-trip time, then address. *)
Definition hop_before (x y : string * RouteEntry) : Prop :=
  re_quality_score y.2 < re_quality_score x.2 \/
  (re_quality_score x.2 = re_quality_score y.2 /\
   (key_lt (f_key (rtt_sort x.2)) (f_key (rtt_sort y.2)) \/
    (f_key (rtt_sort x.2) = f_key (rtt_sort y.2) /\ str_lt x.1 y.1 = true))).

Lemma hop_better_before x y : rtt_defined x.2 -> rtt_defined y.2 -> (hop_better x.1 x.2 y = true) <-> hop_before x y.
Proof.
  intros Hx%rtt_sort_defined Hy%rtt_sort_defined. unfold hop_better, hop_before.
  rewrite orb_true_iff, andb_true_iff, orb_true_iff, andb_true_iff, Z.ltb_lt, Z.eqb_eq, (f_eq_key _ _ Hx Hy), f_lt_key. naive_solver.
Qed.

Lemma key_lt_trans a b c : key_lt a b -> key_lt b c -> key_lt a c.
Proof. unfold key_lt. lia. Qed.
Lemma key_lt_total a b : key_lt a b \/ a = b \/ key_lt b a.
Proof.
  destruct a as [[a1 a2] a3], b as [[b1 b2] b3]. unfold key_lt. cbn [fst snd].
  destruct (Z.lt_total a1 b1) as [?|[->|?]]; [lia| |lia]. destruct (Z.lt_total a2 b2) as [?|[->|?]]; [lia| |lia].
  destruct (Z.lt_total a3 b3) as [?|[->|?]]; [lia|auto|lia].
Qed.

Lemma hop_before_trans x y z : hop_before x y -> hop_before y z -> hop_before x z.
Proof.
  unfold hop_before. intros [H1|[E1 H1]] [H2|[E2 H2]]; [left; lia..|]. right. split; [lia|].
  destruct H1 as [K1|[K1 S1]], H2 as [K2|[K2 S2]]; [left; by eapply key_lt_trans|left; congruence|left; congruence|].
  right. split; [congruence|by eapply str_lt_trans].
Qed.

Lemma hop_before_total x y : x.1 <> y.1 -> hop_before x y \/ hop_before y x.
Proof.
  intros Hne. unfold hop_before. destruct (Z.lt_total (re_quality_score x.2) (re_quality_score y.2)) as [?|[E|?]]; [auto| |auto].
  destruct (key_lt_total (f_key (rtt_sort x.2)) (f_key (rtt_sort y.2))) as [?|[K|?]]; [left|..|right]; auto.
  destruct (str_lt_trichotomy x.1 y.1) as [?|[?|?]]; [left|done|right]; auto.
Qed.

Lemma hop_before_irrefl x : ~ hop_before x x.
Proof. unfold hop_before, key_lt. rewrite str_lt_irrefl. intros [?|[_ [?|[_ ?]]]]; [lia|lia|done]. Qed.

Lemma hop_before_cotrans x y z : hop_before x z -> hop_before x y \/ hop_before y z.
Proof.
  intros H. destruct (decide (x.1 = y.1 /\ re_quality_score x.2 = re_quality_score y.2 /\ f_key (rtt_sort x.2) = f_key (rtt_sort y.2)))
    as [(E1 & E2 & E3)|Hne].
  - right. unfold hop_before in *. by rewrite <- E1, <- E2, <- E3.
  - assert (hop_before x y \/ hop_before y x) as [?|Hyx]; [|by left|right; by eapply hop_before_trans].
    destruct (decide (x.1 = y.1)) as [E|E]; [|by apply hop_before_total]. unfold hop_before.
    destruct (Z.lt_total (re_quality_score x.2) (re_quality_score y.2)) as [?|[Q|?]]; [auto| |auto].
    destruct (key_lt_total (f_key (rtt_sort x.2)) (f_key (rtt_sort y.2))) as [?|[K|?]]; [auto|naive_solver|auto].
Qed.

Lemma better_hop_spec acc y a :
  rtt_defined y.2 -> (forall c, acc = Some c -> rtt_defined c.2) -> better_hop acc y = Some a ->
  (a = y \/ acc = Some a) /\ rtt_defined a.2 /\ ~ hop_before y a /\ (forall c, acc = Some c -> ~ hop_before c a).
Proof.
  intros Hy Hc. unfold better_hop. destruct acc as [c|].
  2:{ intros <-%(inj Some). split; [by left|]. split; [done|]. split; [apply hop_before_irrefl|]. intros c E. discriminate E. }
  specialize (Hc c eq_refl). pose proof (hop_better_before y c Hy Hc) as Hb.
  destruct (hop_better y.1 y.2 c); intros <-%(inj Some).
  - split; [by left|]. split; [done|]. split; [apply hop_before_irrefl|]. intros d <-%(inj Some) H.
    apply (hop_before_irrefl c), (hop_before_trans _ y); [done|by apply Hb].
  - split; [by right|]. split; [done|]. split; [by intros H%Hb|]. intros d <-%(inj Some). apply hop_before_irrefl.
Qed.

Lemma better_hop_best l : forall acc b, Forall (fun x : string * RouteEntry => rtt_defined x.2) l ->
  (forall a, acc = Some a -> rtt_defined a.2) -> foldl better_hop acc l = Some b ->
  (b ∈ l \/ acc = Some b) /\ (forall x, x ∈ l \/ acc = Some x -> ~ hop_before x b).
Proof.
  induction l as [|y l IH]; intros acc b Hl Ha H; cbn [foldl] in H.
  - split; [by right|]. intros x [Hx|Hx]; [by apply not_elem_of_nil in Hx|].
    rewrite H in Hx. apply (inj Some) in Hx as <-. apply hop_before_irrefl.
  - apply Forall_cons in Hl as [Hy Hl]. destruct (better_hop acc y) as [a|] eqn:Ea.
    + destruct (better_hop_spec _ _ _ Hy Ha Ea) as (Hin & Hd & Hya & Hca).
      destruct (IH (Some a) b Hl) as [Hb Hall]; [by intros d <-%(inj Some)|done|]. split.
      * destruct Hb as [Hb|Hb]; [left; by right|]. apply (inj Some) in Hb as <-. destruct Hin as [->|Hin]; [left; by left|by right].
      * pose proof (Hall a (or_intror eq_refl)) as Hab. intros x [[->|Hx]%elem_of_cons|Hx] Hxb; [|by apply (Hall x); [left|]|];
          (destruct (hop_before_cotrans _ a _ Hxb); [|done]); [done|by eapply Hca].
    + unfold better_hop in Ea. destruct acc as [c|]; [destruct (hop_better _ _ _)|]; discriminate Ea.
Qed.

Lemma better_hop_elem l : forall acc b, foldl better_hop acc l = Some b -> b ∈ l \/ acc = Some b.
Proof.
  induction l as [|y l IH]; intros acc b H; [by right|]. cbn [foldl] in H. destruct (IH _ _ H) as [Hi|Hi]; [left; by right|].
  unfold better_hop in Hi. destruct acc as [c|]; [destruct (hop_better _ _ _)|]; apply (inj Some) in Hi as <-; [left; by left|by right|left; by left].
Qed.

Lemma better_hop_none l : forall acc, foldl better_hop acc l = None -> l = [] /\ acc = None.
Proof.
  induction l as [|y l IH]; intros acc H; [done|]. cbn [foldl] in H. destruct (IH _ H) as [_ E]. unfold better_hop in E.
  destruct acc as [c|]; [destruct (hop_better _ _ _)|]; discriminate E.
Qed.

Lemma hop_usable_sound t ep dest my ex : hop_usable t ep (Some dest) my ex = true ->
  exists v e, rt_ep_to_vip t !! ep = Some v /\ rt_table t !! v = Some e /\ v <> my /\ v <> dest /\ ex <> Some ep /\
    rt_lookup t dest <> Some ep /\ re_fail_streak e < 3 /\ should_relay e (rt_failover t) = false.
Proof.
  unfold hop_usable, rt_lookup. case_bool_decide as Hex; [done|]. destruct (rt_ep_to_vip t !! ep) as [v|] eqn:Ev; [|done].
  case_bool_decide as Hmy; [done|]. case_bool_decide as Hd; [done|]. cbn [orb].
  destruct (match rt_table t !! dest with Some e => _ | None => _ end) eqn:Edest; [done|].
  destruct (rt_table t !! v) as [e|] eqn:Et; [|done]. destruct (Z.leb_spec 3 (re_fail_streak e)); [done|]. intros Hs%negb_true_iff.
  exists v, e. split; [done|]. split; [done|]. split; [done|]. split; [done|]. split; [done|]. split; [|done].
  intros Hl. destruct (rt_table t !! dest) as [ed|]; [|done]. apply (inj Some) in Hl. by rewrite bool_decide_true in Edest.
Qed.

Section Choice.
Context `{HashIter}.

Lemma best_hop_sound t dest my ex ep : best_usable_peer_hop t dest my ex = Some ep -> hop_usable t ep dest my ex = true.
Proof.
  unfold best_usable_peer_hop. intros ([v e] & Hf & ->)%fmap_Some_1.
  destruct (better_hop_elem _ _ _ Hf) as [Hin|Hin]; [|discriminate Hin].
  apply list_elem_of_filter in Hin as [Hc _]. by apply andb_true_iff in Hc as [_ Hc].
Qed.

Lemma best_hop_none t dest my ex : best_usable_peer_hop t dest my ex = None ->
  forall v e, rt_table t !! v = Some e -> hop_candidate t dest my ex (v, e) = false.
Proof.
  unfold best_usable_peer_hop. intros Hn%fmap_None v e E. destruct (better_hop_none _ _ Hn) as [Hnil _].
  destruct (hop_candidate t dest my ex (v, e)) eqn:Hc; [|done]. exfalso.
  assert (Hin : (v, e) ∈ filter (fun x => hop_candidate t dest my ex x = true) (hm_iter (rt_table t))).
  { apply list_elem_of_filter. split; [done|]. by apply hm_iter_elem. }
  rewrite Hnil in Hin. by apply not_elem_of_nil in Hin.
Qed.
End Choice.

Lemma best_hop_order_free (I1 I2 : HashIter) t dest my ex :
  map_Forall (fun _ => rtt_defined) (rt_table t) ->
  @best_usable_peer_hop I1 t dest my ex = @best_usable_peer_hop I2 t dest my ex.
Proof.
  intros Hd. unfold best_usable_peer_hop. set (P := fun x => hop_candidate t dest my ex x = true).
  assert (HF : forall I : HashIter, Forall (fun x : string * RouteEntry => rtt_defined x.2) (filter P (@hm_iter I _ _ _ _ (rt_table t)))).
  { intros I. apply Forall_forall. intros [v e] [_ Hx%hm_iter_elem]%list_elem_of_filter. exact (Hd v e Hx). }
  assert (HE : forall (I J : HashIter) x, x ∈ filter P (@hm_iter I _ _ _ _ (rt_table t)) -> x ∈ filter P (@hm_iter J _ _ _ _ (rt_table t))).
  { intros I J [v e] [Hx Hy%hm_iter_elem]%list_elem_of_filter. apply list_elem_of_filter. split; [done|]. by apply hm_iter_elem. }
  assert (Hnone : forall a : string * RouteEntry, None = Some a -> rtt_defined a.2) by (intros a Ha; discriminate Ha).
  f_equal. destruct (foldl better_hop None (filter P (@hm_iter I1 _ _ _ _ (rt_table t)))) as [b1|] eqn:E1,
    (foldl better_hop None (filter P (@hm_iter I2 _ _ _ _ (rt_table t)))) as [b2|] eqn:E2; [|..|done].
  - destruct (better_hop_best _ _ _ (HF I1) Hnone E1) as [[B1|B1] A1]; [|done].
    destruct (better_hop_best _ _ _ (HF I2) Hnone E2) as [[B2|B2] A2]; [|done].
    destruct (decide (b1.1 = b2.1)) as [E|E].
    + destruct b1 as [v1 e1], b2 as [v2 e2]. cbn in E. subst v2.
      apply list_elem_of_filter in B1 as [_ B1%hm_iter_elem]. apply list_elem_of_filter in B2 as [_ B2%hm_iter_elem]. congruence.
    + exfalso. destruct (hop_before_total _ _ E) as [Hb|Hb]; [by apply (A2 b1); [left; apply (HE I1)|]|by apply (A1 b2); [left; apply (HE I2)|]].
  - exfalso. destruct (better_hop_none _ _ E2) as [Hn _]. destruct (better_hop_best _ _ _ (HF I1) Hnone E1) as [[B|B] _]; [|done].
    apply (HE I1 I2) in B. rewrite Hn in B. by apply not_elem_of_nil in B.
  - exfalso. destruct (better_hop_none _ _ E1) as [Hn _]. destruct (better_hop_best _ _ _ (HF I2) Hnone E2) as [[B|B] _]; [|done].
    apply (HE I2 I1) in B. rewrite Hn in B. by apply not_elem_of_nil in B.
Qed.

(** ** The theorems *)

(** C13. In every table the operations can build, each index points to a route that has the indexed
    key: the endpoint index to a route with that endpoint, the secondary index to a route with a path
    to that endpoint which is not its primary one, the node index to a route of that node, and the
    numeric index to exactly the routes whose address parses to the number.  No address is at once in
    the table and tombstoned, every route has its direct path at its endpoint and a filled active slot,
    and the streaks stay in 0..100. *)
Theorem routing_indexes_sound `{HashIter} l t0 : Forall op_ok l -> table_ok (rt_run (new_table t0) l).
Proof. intros Hl. apply run_ok; [done|apply new_table_ok]. Qed.

(** C14. The data path looks routes up by the numeric address.  This is the lookup by text: for every
    32-bit number, of the endpoint and of the relay snapshot, in every reachable table. *)
Theorem numeric_lookup_exact `{HashIter} l t0 u :
  Forall op_ok l -> in_u 32 u ->
  let t := rt_run (new_table t0) l in
  let vip := bytes_str (fmt_ipv4 u) in
  lookup_by_vip_u32 t u = rt_lookup t vip /\ relay_snapshot_by_u32 t u = from_entry <$> rt_table t !! vip.
Proof.
  intros Hl Hu t vip. assert (Ht : table_ok t) by (apply run_ok; [done|apply new_table_ok]). clearbody t.
  assert (Hv : ipv4_to_u32 vip = Some u).
  { unfold ipv4_to_u32, vip. rewrite str_bytes_str; [by apply fmt_ipv4_parse|]. apply fmt_ipv4_bytes. }
  unfold lookup_by_vip_u32, relay_snapshot_by_u32, rt_lookup. destruct (rt_vip_u32_to_vip t !! u) as [v|] eqn:E.
  - apply (ok_u32 _ _ Ht) in E as [_ E]. by rewrite (ipv4_to_u32_inj _ _ _ E Hv).
  - destruct (rt_table t !! vip) as [e|] eqn:Et; [|done]. exfalso.
    assert (rt_vip_u32_to_vip t !! u = Some vip) by (apply (ok_u32 _ _ Ht); split; [by eexists|done]). congruence.
Qed.

(** C15. A relay hop chosen for a destination is a third party: a known route with that endpoint, neither
    this node nor the destination nor the destination's endpoint nor the excluded one, which is not
    failing and does not itself need a relay.  When no hop is returned, no route qualifies. *)
Theorem relay_selection_correct `{HashIter} l t0 dest my ex :
  Forall op_ok l ->
  let t := rt_run (new_table t0) l in
  match select_relay_endpoint t dest my ex with
  | Hop ep => exists v e, rt_table t !! v = Some e /\ re_endpoint e = ep /\ v <> my /\ v <> dest /\ ex <> Some ep /\
      rt_lookup t dest <> Some ep /\ re_fail_streak e < 3 /\ should_relay e (rt_failover t) = false
  | NoHop => forall v e, rt_table t !! v = Some e -> hop_candidate t (Some dest) my ex (v, e) = false
  end.
Proof.
  intros Hl t. assert (Ht : table_ok t) by (apply run_ok; [done|apply new_table_ok]). clearbody t.
  assert (Hsound : forall ep, hop_usable t ep (Some dest) my ex = true -> exists v e, rt_table t !! v = Some e /\ re_endpoint e = ep /\
    v <> my /\ v <> dest /\ ex <> Some ep /\ rt_lookup t dest <> Some ep /\ re_fail_streak e < 3 /\ should_relay e (rt_failover t) = false).
  { intros ep (v & e & Hv & He & Hr)%hop_usable_sound. exists v, e. split; [done|]. split; [|done].
    destruct (ok_ep _ _ Ht _ _ Hv) as (e' & E' & <-). congruence. }
  unfold select_relay_endpoint. destruct (sticky_relay_hop t dest) as [s|];
    [destruct (hop_usable t s (Some dest) my ex) eqn:Es; [by apply Hsound|]|];
    (destruct (best_usable_peer_hop t (Some dest) my ex) as [ep|] eqn:Eb; [by apply Hsound, best_hop_sound|by apply best_hop_none]).
Qed.

(** The chosen hop does not depend on the iteration order of the hash map, as long as no smoothed
    round-trip time is NaN: equal quality is decided by round-trip time and then by address. *)
Theorem relay_choice_order_free (I1 I2 : HashIter) t dest my ex :
  map_Forall (fun _ => rtt_defined) (rt_table t) ->
  @select_relay_endpoint I1 t dest my ex = @select_relay_endpoint I2 t dest my ex /\
  @select_broadcast_relay_hop I1 t my ex = @select_broadcast_relay_hop I2 t my ex.
Proof.
  intros Hd. unfold select_relay_endpoint, select_broadcast_relay_hop.
  by rewrite (best_hop_order_free I1 I2 t (Some dest) my ex Hd), (best_hop_order_free I1 I2 t None my ex Hd).
Qed.

(** ** Runs *)

Module Run.
Definition ep_x : SocketAddr := mkAddr (V4 3232235777) 4000.
Definition ep_y : SocketAddr := mkAddr (V4 3232235778) 4000.
Definition ep_z : SocketAddr := mkAddr (V4 3232235779) 4000.
Definition at_s (n : Z) : Instant := from_secs n.

(** Three peers, one of them measured. *)
Definition peers : list (RtOp * Instant) :=
  [(OUpdate "10.0.0.2" ep_x (Some "a"%string), at_s 1); (OUpdate "10.0.0.3" ep_y (Some "b"%string), at_s 2);
   (OUpdate "10.0.0.4" ep_z (Some "c"%string), at_s 3); (ORtt ep_y 20 None, at_s 4); (ORtt ep_y 30 None, at_s 5);
   (OStamp "10.0.0.2" ep_z, at_s 6); (OClearRelay "10.0.0.2", at_s 7)].

Lemma peers_ok : Forall op_ok peers.
Proof. by repeat constructor. Qed.

(** The hash map iterated backwards. *)
Definition reversed_iter : HashIter :=
  {| hm_iter := fun K V _ _ m => reverse (map_to_list m);
     hm_iter_perm := fun K V _ _ m => reverse_Permutation (map_to_list m) |}.
End Run.

Lemma routing_indexes_sound_witness :
  table_ok (@rt_run canonical_iter (new_table 0) Run.peers) /\
  len (snapshot (H := canonical_iter) (@rt_run canonical_iter (new_table 0) Run.peers)) = 3.
Proof. split; [apply (@routing_indexes_sound canonical_iter Run.peers 0 Run.peers_ok)|vm_compute; reflexivity]. Defined.

Lemma numeric_lookup_exact_witness :
  lookup_by_vip_u32 (@rt_run canonical_iter (new_table 0) Run.peers) 167772163 = Some Run.ep_y /\
  rt_lookup (@rt_run canonical_iter (new_table 0) Run.peers) (bytes_str (fmt_ipv4 167772163)) = Some Run.ep_y.
Proof.
  assert (Hu : in_u 32 167772163) by (unfold in_u; lia).
  rewrite <- (proj1 (@numeric_lookup_exact canonical_iter Run.peers 0 167772163 Run.peers_ok Hu)).
  split; vm_compute; reflexivity.
Defined.

Lemma relay_selection_correct_witness :
  let t := @rt_run canonical_iter (new_table 0) Run.peers in
  @select_relay_endpoint canonical_iter t "10.0.0.2" "10.0.0.9" None = Hop Run.ep_y /\
  exists v e, rt_table t !! v = Some e /\ re_endpoint e = Run.ep_y /\ v <> "10.0.0.9"%string /\ v <> "10.0.0.2"%string.
Proof.
  intros t. assert (E : @select_relay_endpoint canonical_iter t "10.0.0.2" "10.0.0.9" None = Hop Run.ep_y) by (vm_compute; reflexivity).
  split; [exact E|]. pose proof (@relay_selection_correct canonical_iter Run.peers 0 "10.0.0.2" "10.0.0.9" None Run.peers_ok) as W.
  cbv zeta in W. fold t in W. rewrite E in W. destruct W as (v & e & H1 & H2 & H3 & H4 & _). exists v, e. auto.
Defined.

Lemma peers_rtt_defined : map_Forall (fun _ => rtt_defined) (rt_table (@rt_run canonical_iter (new_table 0) Run.peers)).
Proof.
  apply map_Forall_to_list. unfold rtt_defined. vm_compute. repeat constructor.
Qed.

Lemma relay_choice_order_free_witness :
  let t := @rt_run canonical_iter (new_table 0) Run.peers in
  @select_relay_endpoint canonical_iter t "10.0.0.2" "10.0.0.9" None =
  @select_relay_endpoint Run.reversed_iter t "10.0.0.2" "10.0.0.9" None.
Proof.
  intros t. exact (proj1 (relay_choice_order_free canonical_iter Run.reversed_iter t "10.0.0.2" "10.0.0.9" None peers_rtt_defined)).
Defined.

(** ** Index entries that are lost *)

(** A node that takes a new address is indexed under it; when its old route is then removed, the
    node's index entry goes with it, although it points to the new route, which stays in the table. *)
Theorem node_index_lost :
  let t := @rt_run canonical_iter (new_table 0)
             [(OUpdate "10.0.0.2" Run.ep_x (Some "n"%string), 1); (OUpdate "10.0.0.3" Run.ep_y (Some "n"%string), 2)] in
  let t' := rt_remove t "10.0.0.2" 3 in
  lookup_ep_by_node t "n" = Some Run.ep_y /\ re_node_id <$> rt_table t' !! "10.0.0.3"%string = Some "n"%string /\
  rt_lookup t' "10.0.0.3" = Some Run.ep_y /\ lookup_ep_by_node t' "n" = None.
Proof. vm_compute. repeat split. Qed.

(** An endpoint that moved from a stale route to another address is indexed there; when the old
    address then gets a new endpoint, the entry is deleted, and the endpoint of a live route is unknown. *)
Theorem endpoint_index_lost :
  let t := @rt_run canonical_iter (new_table 0)
             [(OUpdate "10.0.0.2" Run.ep_x (Some "a"%string), 1); (OIdle 10, 100); (OUpdate "10.0.0.3" Run.ep_x None, 101)] in
  let t' := rt_update t "10.0.0.2" Run.ep_y (Some "a"%string) 102 in
  tracks_endpoint t Run.ep_x = true /\ rt_lookup t' "10.0.0.3" = Some Run.ep_x /\ tracks_endpoint t' Run.ep_x = false.
Proof. vm_compute. repeat split. Qed.

(** The 300 s lifetime never decides: a tombstone is pruned exactly when it is 600 s old. *)
Lemma tombstone_retention t keep now vip r made :
  rt_tombstones t !! vip = Some (r, made) -> (vip ∉ keep) ->
  is_Some (rt_tombstones (prune_tombstones t keep now) !! vip) <-> duration_since now made < TOMBSTONE_MIN_RETENTION.
Proof.
  intros E Hk. unfold prune_tombstones. rt_simpl. split.
  - intros [x [Hx Hv]%lookup_retain]. rewrite E in Hx. apply (inj Some) in Hx as <-. rewrite bool_decide_false in Hv by done.
    cbn [snd] in Hv. unfold TOMBSTONE_MIN_RETENTION, TOMBSTONE_TTL, from_secs in *. lia.
  - intros Hlt. exists (r, made). apply lookup_retain. split; [done|]. rewrite bool_decide_false by done. cbn [snd].
    apply orb_true_iff. left. by apply Z.ltb_lt.
Qed.
