(* ===== verification/PacingCfg.v ===== *)
(** * Pacing configuration (src/net/pacing_defaults.rs, the configuration types of src/net/pacing.rs)

    The effective values of the pacing knobs, the adaptive-drain (APD), shedding and pacing
    configurations and how they are sanitised.  Watermarks and sojourn times are IEEE singles.
    [f32::clamp] panics when its bounds are not ordered, which is [None].

    The theorems: the split of the queue leaves room for both classes, and a base burst above 200 makes
    the start of the engine panic. *)

From S2P Require Import Prelude Float Tuning BackgroundCc.

(** ** Conversions between the precisions *)

Definition f32_to_f64 (x : f32) : f64 :=
  match x with S754_finite s m e => binary_round 53 1024 s m e | _ => x end.
Definition f64_to_f32 (x : f64) : f32 :=
  match x with S754_finite s m e => binary_round 24 128 s m e | _ => x end.

Definition g0 : f32 := f32_of_Z 0.
Definition g1 : f32 := f32_of_Z 1.
Definition F32_EPSILON : f32 := S754_finite false 8388608 (-46).

(** ** Effective values *)

Definition PACE_TICK_US_MAX : Z := 1000000.
Definition MIN_PACE_TICK_US : Z := 1.
Definition PACE_RESERVED_BYTES_PER_TICK_MAX : Z := 8192.
Definition DRR_SMALL_PACKET_THRESHOLD_MIN : Z := 64.
Definition DRR_SMALL_PACKET_THRESHOLD_MAX : Z := 512.
Definition DRR_SMALL_BULK_FORCE_AFTER : Z := 8.
Definition DRR_BULK_HOL_FORCE_MS : Z := 8.
Definition MIN_DRR_QUANTUM : Z := 1500.

Inductive PaceRateMode := Pps | Bytes.
#[export] Instance PaceRateMode_eq_dec : EqDecision PaceRateMode.
Proof. solve_decision. Defined.

(** [v as u64] when positive, the default otherwise. *)
Definition positive_or (v d : Z) : Z := if 0 <? v then v else d.

Definition effective_pace_tick_us (v : Z) : Z := Z.max (Z.min (positive_or v 350) PACE_TICK_US_MAX) MIN_PACE_TICK_US.
Definition effective_pace_target_pps (v : Z) : Z := clamp 100 200000 (positive_or v 8000).
Definition effective_pace_target_bps (v pps : Z) : Z :=
  if 0 <? v then v else sat_mul U64_MAX (effective_pace_target_pps pps) 1300.
Definition effective_base_max_burst (v : Z) : Z := clamp 1 1024 (positive_or v 3).
Definition effective_pace_budget_cap_packets (v : f64) : f64 :=
  f_clamp f1 (f64_of_Z 4096) (if f_lt f0 v then v else f64_of_Z 64).
Definition effective_pace_max_queue_packets (v : Z) : Z := clamp 1 8192 (positive_or v 250).
Definition effective_tun_inject_queue_packets (v : Z) : Z := clamp 1 8192 (positive_or v 512).
Definition effective_tun_from_adapter_queue_packets (v : Z) : Z := clamp 1 8192 (positive_or v 256).
Definition effective_reserved_bytes_per_tick (v : Z) : Z := Z.min v PACE_RESERVED_BYTES_PER_TICK_MAX.
Definition effective_drr_small_packet_threshold_bytes (v : Z) : Z :=
  clamp DRR_SMALL_PACKET_THRESHOLD_MIN DRR_SMALL_PACKET_THRESHOLD_MAX (if v =? 0 then 420 else v).
Definition finite_positive (v : f64) : bool := f_finite v && f_lt f0 v.
Definition effective_drr_rtt_scale_min (v : f64) : f32 :=
  f64_to_f32 (f_clamp (f64_lit 1 10) f1 (if finite_positive v then v else fhalf)).
Definition effective_drr_rtt_scale_max (v : f64) : f32 :=
  f64_to_f32 (f_clamp f1 (f64_of_Z 4) (if finite_positive v then v else f64_lit 25 10)).
Definition effective_shed_max_sojourn_ms (v : Z) : Z := if v =? 0 then 30 else clamp 2 500 v.
Definition effective_shed_min_fill (v : f32) : f32 :=
  if f_finite v then f_clamp (f32_lit 1 10) (f32_lit 95 100) v else f32_lit 1 10.
Definition effective_shed_max_per_tick (v : Z) : Z := if v =? 0 then 2 else clamp 1 64 v.

(** ** Adaptive precision drain *)

Inductive ApdPhase := Cooldown | Alert | Drain.
#[export] Instance ApdPhase_eq_dec : EqDecision ApdPhase.
Proof. solve_decision. Defined.

Record ApdConfig := mkApdConfig {
  ac_enabled : bool; ac_high_watermark : f32; ac_low_watermark : f32; ac_ramp_max_burst : Z; ac_drain_max_burst : Z;
  ac_spinloop_budget_ms : Z; ac_drain_tick_us : Z; ac_confirm_ticks : Z; ac_cooldown_ms : Z; ac_drain_freeze_drr : bool;
  ac_sojourn_enabled : bool; ac_max_sojourn_ms : f32; ac_target_sojourn_ms : f32; ac_require_cc_headroom : bool
}.
#[export] Instance eta_ApdConfig : Settable ApdConfig :=
  fun r => mkApdConfig (ac_enabled r) (ac_high_watermark r) (ac_low_watermark r) (ac_ramp_max_burst r) (ac_drain_max_burst r)
    (ac_spinloop_budget_ms r) (ac_drain_tick_us r) (ac_confirm_ticks r) (ac_cooldown_ms r) (ac_drain_freeze_drr r)
    (ac_sojourn_enabled r) (ac_max_sojourn_ms r) (ac_target_sojourn_ms r) (ac_require_cc_headroom r).
#[export] Instance ApdConfig_eq_dec : EqDecision ApdConfig.
Proof. solve_decision. Defined.

Definition default_apd : ApdConfig :=
  mkApdConfig true (f32_lit 30 100) (f32_lit 2 100) 6 3 8 80 3 2 true true (f32_of_Z 10) (f32_of_Z 2) true.

Definition APD_WM_GAP : f32 := f32_lit 1 10.
Definition APD_WM_EPS : f32 := f32_lit 1 1000000.

Definition apd_is_cap_mode (c : ApdConfig) : bool :=
  f_lt (SFabs (f32_sub (ac_high_watermark c) (ac_low_watermark c))) APD_WM_EPS.

Definition enforce_watermark_pair (low_wm high_wm : f32) : option (f32 * f32) :=
  let low := f_clamp (f32_lit 1 100) (f32_lit 80 100) low_wm in
  if f_lt (SFabs (f32_sub high_wm low)) APD_WM_EPS
  then let cap := f_clamp (f32_lit 20 100) (f32_lit 95 100) low in Some (cap, cap)
  else
    let floor := f_max (f_max (f32_lit 20 100) low) (f32_add low APD_WM_GAP) in
    high ← f_clamp_checked floor (f32_lit 95 100) (f_max (f_max high_wm low) floor);
    Some (low, high).

(** The sojourn times: in range, and the target below the maximum. *)
Definition clamp_sojourns (c : ApdConfig) : ApdConfig :=
  let c := c <| ac_max_sojourn_ms := f_clamp (f32_of_Z 2) (f32_of_Z 500) (ac_max_sojourn_ms c) |>
             <| ac_target_sojourn_ms := f_clamp g1 (f32_of_Z 200) (ac_target_sojourn_ms c) |> in
  let gap := f32_of_Z 2 in
  if f_lt (ac_max_sojourn_ms c) (f32_add (ac_target_sojourn_ms c) gap)
  then c <| ac_target_sojourn_ms := f_max (f32_sub (ac_max_sojourn_ms c) gap) g1 |> else c.

Definition clamp_to_user_ranges (c : ApdConfig) (base_tick_us base_burst_per_tick : Z) : option ApdConfig :=
  let c := c <| ac_low_watermark := f_clamp (f32_lit 1 100) (f32_lit 80 100) (ac_low_watermark c) |> in
  c ← (if apd_is_cap_mode c then
         let cap := f_clamp (f32_lit 1 100) (f32_lit 80 100) (f_clamp (f32_lit 20 100) (f32_lit 95 100) (ac_low_watermark c)) in
         Some (c <| ac_low_watermark := cap |> <| ac_high_watermark := cap |>)
       else
         '(l, h) ← enforce_watermark_pair (ac_low_watermark c) (ac_high_watermark c);
         Some (c <| ac_low_watermark := l |> <| ac_high_watermark := h |>));
  let floor := Z.max base_burst_per_tick 1 in
  if 200 <? floor then None
  else
    let c := c <| ac_ramp_max_burst := clamp floor 200 (ac_ramp_max_burst c) |> in
    let c := c <| ac_drain_max_burst := clamp 1 (Z.max (ac_ramp_max_burst c) 1) (ac_drain_max_burst c) |>
               <| ac_spinloop_budget_ms := clamp 0 100 (ac_spinloop_budget_ms c) |>
               <| ac_drain_tick_us := Z.min (ac_drain_tick_us c) (Z.max base_tick_us 1) |>
               <| ac_confirm_ticks := clamp 0 10 (ac_confirm_ticks c) |>
               <| ac_cooldown_ms := clamp 0 500 (ac_cooldown_ms c) |> in
    Some (clamp_sojourns c).

Definition apd_sanitize (c : ApdConfig) : option ApdConfig :=
  let c := c <| ac_low_watermark := f_clamp g0 g1 (ac_low_watermark c) |>
             <| ac_high_watermark := f_clamp g0 g1 (ac_high_watermark c) |> in
  c ← (if apd_is_cap_mode c then
         let cap := f_clamp (f32_lit 20 100) (f32_lit 95 100) (f_max (ac_low_watermark c) (ac_high_watermark c)) in
         Some (c <| ac_low_watermark := cap |> <| ac_high_watermark := cap |>)
       else
         let c := if f_lt (ac_high_watermark c) (f32_add (ac_low_watermark c) APD_WM_GAP)
                  then c <| ac_high_watermark := f32_add (ac_low_watermark c) APD_WM_GAP |> else c in
         let c := c <| ac_high_watermark := f_clamp (f32_lit 20 100) g1 (ac_high_watermark c) |> in
         low ← f_clamp_checked g0 (f32_sub (ac_high_watermark c) APD_WM_GAP) (ac_low_watermark c);
         Some (c <| ac_low_watermark := low |>));
  let c := c <| ac_ramp_max_burst := Z.max (ac_ramp_max_burst c) 1 |> in
  Some (clamp_sojourns (c <| ac_drain_max_burst := Z.min (Z.max (ac_drain_max_burst c) 1) (ac_ramp_max_burst c) |>)).

(** [x.round() as u64] of a single. *)
Definition f32_round_u64 (x : f32) : Z := f_round_to_uint U64_MAX x.

Definition apd_ramp_target_burst (fill : f32) (base max_burst : Z) (c : ApdConfig) : Z :=
  let max_burst := Z.max max_burst base in
  if apd_is_cap_mode c then (if f_lt (ac_high_watermark c) fill then max_burst else base)
  else if f_le fill (ac_low_watermark c) then base
  else
    let range := f_max (f32_sub (ac_high_watermark c) (ac_low_watermark c)) F32_EPSILON in
    let t := f_clamp g0 g1 (f32_div (f32_sub fill (ac_low_watermark c)) range) in
    let burst := f32_add (f32_of_Z base) (f32_mul t (f32_sub (f32_of_Z max_burst) (f32_of_Z base))) in
    f_to_uint U64_MAX (f_max (f32_of_Z (f32_round_u64 burst)) (f32_of_Z base)).

(** ** Shedding *)

Record ShedConfig := mkShed { sh_enabled : bool; sh_max_sojourn_ms : f32; sh_min_fill : f32; sh_max_per_tick : Z }.
#[export] Instance eta_ShedConfig : Settable ShedConfig :=
  fun r => mkShed (sh_enabled r) (sh_max_sojourn_ms r) (sh_min_fill r) (sh_max_per_tick r).
Definition default_shed : ShedConfig := mkShed true (f32_of_Z 30) (f32_lit 1 10) 2.

Definition shed_sanitize (s : ShedConfig) (apd : ApdConfig) : ShedConfig :=
  let s := mkShed (sh_enabled s) (f_clamp (f32_of_Z 2) (f32_of_Z 500) (sh_max_sojourn_ms s))
             (f_clamp (f32_lit 1 10) (f32_lit 95 100) (sh_min_fill s)) (clamp 1 64 (sh_max_per_tick s)) in
  if sh_enabled s && ac_enabled apd && ac_sojourn_enabled apd
  then s <| sh_max_sojourn_ms := f_max (sh_max_sojourn_ms s) (ac_max_sojourn_ms apd) |> else s.

(** ** From the network configuration *)

(** The fields of [NetworkConfig] that are read here. *)
Record NetPacing := mkNetPacing {
  np_pace_tick_us : Z; np_base_max_burst : Z; np_apd : ApdConfig; np_shed : ShedConfig
}.

Definition apd_config_from_network (n : NetPacing) : option ApdConfig :=
  apd ← clamp_to_user_ranges (np_apd n) (effective_pace_tick_us (np_pace_tick_us n)) (effective_base_max_burst (np_base_max_burst n));
  apd_sanitize apd.

Definition shed_config_from_network (n : NetPacing) : option ShedConfig :=
  apd ← apd_config_from_network n;
  Some (shed_sanitize (np_shed n) apd).

(** ** The pacing configuration *)

Definition queue_split_limits (total : Z) : Z * Z :=
  let total := Z.max total 2 in
  let data := Z.max (total * 2 / 3) 1 in
  let data := if 64 <=? total then Z.max data 32 else data in
  let data := if total <=? data then Z.max (sat_sub total 1) 1 else data in
  (data, Z.max (sat_sub total data) 1).

Record PacingConfig := mkPacing {
  pa_tick_us : Z; pa_target_pps : Z; pa_base_max_burst : Z; pa_budget_cap_packets : f64; pa_max_queue_packets : Z;
  pa_max_data_queue_packets : Z; pa_max_control_queue_packets : Z; pa_max_retransmit_queue_packets : Z;
  pa_drr_quantum : Z; pa_drr_enabled : bool; pa_drr_small_packet_priority : bool; pa_drr_small_packet_threshold_bytes : Z;
  pa_drr_rtt_aware : bool; pa_drr_rtt_scale_min : f32; pa_drr_rtt_scale_max : f32;
  pa_min_control_reserved_bytes_per_tick : Z; pa_min_retransmit_reserved_bytes_per_tick : Z; pa_max_tick_work_us : Z;
  pa_apd : ApdConfig; pa_shed : ShedConfig; pa_background_cc : BackgroundCcConfig; pa_pace_rate_mode : PaceRateMode;
  pa_target_bps : Z
}.
#[export] Instance eta_PacingConfig : Settable PacingConfig :=
  fun r => mkPacing (pa_tick_us r) (pa_target_pps r) (pa_base_max_burst r) (pa_budget_cap_packets r) (pa_max_queue_packets r)
    (pa_max_data_queue_packets r) (pa_max_control_queue_packets r) (pa_max_retransmit_queue_packets r)
    (pa_drr_quantum r) (pa_drr_enabled r) (pa_drr_small_packet_priority r) (pa_drr_small_packet_threshold_bytes r)
    (pa_drr_rtt_aware r) (pa_drr_rtt_scale_min r) (pa_drr_rtt_scale_max r)
    (pa_min_control_reserved_bytes_per_tick r) (pa_min_retransmit_reserved_bytes_per_tick r) (pa_max_tick_work_us r)
    (pa_apd r) (pa_shed r) (pa_background_cc r) (pa_pace_rate_mode r) (pa_target_bps r).

Definition default_pacing (cc : BackgroundCcConfig) : PacingConfig :=
  let '(d, c) := queue_split_limits 250 in
  mkPacing 350 8000 3 (f64_of_Z 64) 250 d c (Z.max (c / 3) 4) 1500 true true 420 true
    (effective_drr_rtt_scale_min fhalf) (effective_drr_rtt_scale_max (f64_lit 25 10)) 256 256 150
    default_apd default_shed cc Bytes 1000000.

Definition refresh_queue_splits (c : PacingConfig) : PacingConfig :=
  let '(d, k) := queue_split_limits (pa_max_queue_packets c) in
  c <| pa_max_data_queue_packets := d |> <| pa_max_control_queue_packets := k |>
    <| pa_max_retransmit_queue_packets := Z.max (k / 3) 4 |>.

Definition pacing_sanitize (c : PacingConfig) : option PacingConfig :=
  let c := c <| pa_drr_quantum := Z.max (pa_drr_quantum c) MIN_DRR_QUANTUM |>
             <| pa_drr_small_packet_threshold_bytes := clamp DRR_SMALL_PACKET_THRESHOLD_MIN DRR_SMALL_PACKET_THRESHOLD_MAX
                                                         (pa_drr_small_packet_threshold_bytes c) |>
             <| pa_drr_rtt_scale_min := effective_drr_rtt_scale_min (f32_to_f64 (pa_drr_rtt_scale_min c)) |>
             <| pa_drr_rtt_scale_max := effective_drr_rtt_scale_max (f32_to_f64 (pa_drr_rtt_scale_max c)) |> in
  let c := if f_lt (pa_drr_rtt_scale_max c) (pa_drr_rtt_scale_min c)
           then c <| pa_drr_rtt_scale_min := pa_drr_rtt_scale_max c |> else c in
  let c := c <| pa_min_control_reserved_bytes_per_tick := Z.min (pa_min_control_reserved_bytes_per_tick c) PACE_RESERVED_BYTES_PER_TICK_MAX |>
             <| pa_min_retransmit_reserved_bytes_per_tick := Z.min (pa_min_retransmit_reserved_bytes_per_tick c) PACE_RESERVED_BYTES_PER_TICK_MAX |> in
  let c := refresh_queue_splits c in
  apd ← apd_sanitize (pa_apd c);
  Some (c <| pa_apd := apd |> <| pa_shed := shed_sanitize (pa_shed c) apd |>).

(** ** What sanitising establishes *)

(** The two classes share the queue: for any total of at least 2 the data and control limits are
    both positive and add up to it, and from 64 packets on a whole FEC group of 32 fits. *)
Theorem queue_split_exact total :
  2 <= total ->
  let '(d, c) := queue_split_limits total in 1 <= d /\ 1 <= c /\ d + c = total /\ (64 <= total -> 32 <= d).
Proof.
  intros Ht. unfold queue_split_limits, sat_sub. rewrite (Z.max_l total 2) by lia.
  assert (0 <= total * 2 / 3 < total) by (split; [apply Z.div_pos; lia|apply Z.div_lt_upper_bound; lia]).
  destruct (Z.leb_spec 64 total), (Z.leb_spec total (Z.max (total * 2 / 3) 1)); try lia;
    try (destruct (Z.leb_spec total (Z.max (Z.max (total * 2 / 3) 1) 32)); lia).
Qed.

Lemma queue_split_exact_witness : let '(d, c) := queue_split_limits 250 in 1 <= d /\ 1 <= c /\ d + c = 250 /\ (64 <= 250 -> 32 <= d).
Proof. apply (queue_split_exact 250). lia. Defined.

(** A base burst above 200 packets per tick, which the effective value admits up to 1024, makes the
    engine's startup panic: the ramp ceiling is clamped between the base burst and 200. *)
Theorem large_base_burst_panics n :
  200 < effective_base_max_burst (np_base_max_burst n) ->
  apd_config_from_network n = None /\ shed_config_from_network n = None.
Proof.
  intros Hb. assert (E : apd_config_from_network n = None); [|by unfold shed_config_from_network; rewrite E].
  unfold apd_config_from_network, clamp_to_user_ranges. cbv zeta.
  match goal with |- context [mbind _ (if ?b then Some ?x else ?y)] => destruct (if b then Some x else y) as [c|] end; [|done].
  cbn [mbind option_bind]. destruct (Z.ltb_spec 200 (Z.max (effective_base_max_burst (np_base_max_burst n)) 1)); [done|lia].
Qed.

Lemma large_base_burst_panics_witness :
  apd_config_from_network (mkNetPacing 350 201 default_apd default_shed) = None /\
  apd_config_from_network (mkNetPacing 350 200 default_apd default_shed) <> None.
Proof.
  split; [exact (proj1 (large_base_burst_panics (mkNetPacing 350 201 default_apd default_shed) eq_refl))|].
  vm_compute. intros E. discriminate E.
Defined.
