(* ===== verification/Pacing.v ===== *)
(** * The pacing engine (src/net/pacing.rs)

    Packets wait in a control queue, a retransmit queue and two lanes per peer, and are sent in ticks
    under a token budget, by deficit round robin over the peers, with control interleaved, stale bulk
    shed, and an adaptive drain when the queues fill up.

    A tick reads the clock and tries to send many times.  The readings and the outcomes of the
    attempts are the [Env] of the tick: two sequences, of which a [Tk] counts how much is used.  The
    per-peer map keeps the order of insertion ([indexmap]) and is a list of pairs with distinct keys.

    This file holds the definitions; PacingLedger has the books of each operation, PacingWorker and
    PacingFair the theorems. *)

From S2P Require Import Prelude Float Tuning BackgroundCc PacingCfg.

Record QueuedPacket := mkQP { qp_pkt : bytes; qp_dest : SocketAddr; qp_at : Instant }.
Record QueuedData := mkQD { qd_pkt : bytes; qd_at : Instant }.

Record PeerDataQueue := mkPQ {
  pq_small : list QueuedData; pq_bulk : list QueuedData; pq_deficit : Z; pq_consecutive_small_pops : Z;
  pq_rtt_ms : f32; pq_queuing_delay_ms : f32
}.
#[export] Instance eta_PeerDataQueue : Settable PeerDataQueue :=
  fun r => mkPQ (pq_small r) (pq_bulk r) (pq_deficit r) (pq_consecutive_small_pops r) (pq_rtt_ms r) (pq_queuing_delay_ms r).

Inductive PeerPopKind := SmallPriority | Bulk | BulkForced.

(** ** The queue of a peer *)

Definition g_neg1 : f32 := f32_of_Z (-1).
Definition new_peer_queue : PeerDataQueue := mkPQ [] [] 0 0 g_neg1 g_neg1.

Definition is_small_packet (pkt_len : Z) (priority_on : bool) (threshold : Z) : bool := priority_on && (pkt_len <? threshold).

Definition pq_len (q : PeerDataQueue) : Z := len (pq_small q) + len (pq_bulk q).
Definition pq_is_empty (q : PeerDataQueue) : bool := bool_decide (pq_small q = []) && bool_decide (pq_bulk q = []).

Definition drop_oldest_for_capacity (q : PeerDataQueue) : PeerDataQueue :=
  match pq_bulk q with
  | _ :: bulk => q <| pq_bulk := bulk |>
  | [] => q <| pq_small := drop 1 (pq_small q) |>
  end.

Definition push_back_classified (q : PeerDataQueue) (e : QueuedData) (priority_on : bool) (threshold : Z) : PeerDataQueue :=
  if is_small_packet (len (qd_pkt e)) priority_on threshold
  then q <| pq_small := pq_small q ++ [e] |> else q <| pq_bulk := pq_bulk q ++ [e] |>.

Definition pq_push (q : PeerDataQueue) (pkt : bytes) (max_depth : Z) (priority_on : bool) (threshold : Z) (now : Instant)
  : PeerDataQueue * bool :=
  let entry := mkQD pkt now in
  if max_depth <=? pq_len q
  then (push_back_classified (drop_oldest_for_capacity q) entry priority_on threshold, false)
  else (push_back_classified q entry priority_on threshold, true).

Definition push_front_requeue (q : PeerDataQueue) (e : QueuedData) (priority_on : bool) (threshold : Z) : PeerDataQueue :=
  if is_small_packet (len (qd_pkt e)) priority_on threshold
  then q <| pq_small := e :: pq_small q |> else q <| pq_bulk := e :: pq_bulk q |>.

Definition pop_small (q : PeerDataQueue) : PeerDataQueue * option QueuedData :=
  (q <| pq_small := drop 1 (pq_small q) |>, head (pq_small q)).
Definition pop_bulk_front (q : PeerDataQueue) : PeerDataQueue * option QueuedData :=
  (q <| pq_bulk := drop 1 (pq_bulk q) |>, head (pq_bulk q)).

Definition small_is_older (q : PeerDataQueue) : bool :=
  match pq_small q, pq_bulk q with
  | s :: _, b :: _ => qd_at s <=? qd_at b
  | _ :: _, [] => true
  | [], _ => false
  end.

Definition pop_fifo_by_age (q : PeerDataQueue) : PeerDataQueue * option QueuedData :=
  if small_is_older q then pop_small q else pop_bulk_front q.

Definition sojourn_ms (now at_ : Instant) : f32 := f32_mul (as_secs_f32 (duration_since now at_)) (f32_of_Z 1000).
Definition front_sojourn_ms (l : list QueuedData) (now : Instant) : f32 :=
  match l with e :: _ => sojourn_ms now (qd_at e) | [] => g0 end.
Definition bulk_hol_sojourn_ms (q : PeerDataQueue) (now : Instant) : f32 := front_sojourn_ms (pq_bulk q) now.
Definition bulk_front_sojourn_ms (q : PeerDataQueue) (now : Instant) : option f32 :=
  (fun e => sojourn_ms now (qd_at e)) <$> head (pq_bulk q).
Definition hol_sojourn_ms (q : PeerDataQueue) (now : Instant) : f32 :=
  f_max (front_sojourn_ms (pq_small q) now) (bulk_hol_sojourn_ms q now).

Definition should_force_bulk (q : PeerDataQueue) (now : Instant) : bool :=
  if bool_decide (pq_bulk q = []) then false
  else (DRR_SMALL_BULK_FORCE_AFTER <=? pq_consecutive_small_pops q) ||
       f_le (f32_of_Z DRR_BULK_HOL_FORCE_MS) (bulk_hol_sojourn_ms q now).

Definition tagged (k : PeerPopKind) (r : PeerDataQueue * option QueuedData) : PeerDataQueue * option (QueuedData * PeerPopKind) :=
  (r.1, (fun e => (e, k)) <$> r.2).

Definition pop_data (q : PeerDataQueue) (priority_on : bool) (now : Instant) : PeerDataQueue * option (QueuedData * PeerPopKind) :=
  if pq_is_empty q then (q, None)
  else if negb priority_on then tagged Bulk (pop_fifo_by_age q)
  else if should_force_bulk q now then tagged BulkForced (pop_bulk_front (q <| pq_consecutive_small_pops := 0 |>))
  else if negb (bool_decide (pq_small q = []))
  then tagged SmallPriority (pop_small (q <| pq_consecutive_small_pops := sat_add U8_MAX (pq_consecutive_small_pops q) 1 |>))
  else tagged Bulk (pop_bulk_front (q <| pq_consecutive_small_pops := 0 |>)).

Definition head_len (l : list QueuedData) : Z := match l with e :: _ => len (qd_pkt e) | [] => 0 end.

Definition front_len (q : PeerDataQueue) (priority_on : bool) (now : Instant) : Z :=
  if pq_is_empty q then 0
  else if negb priority_on then (if small_is_older q then head_len (pq_small q) else head_len (pq_bulk q))
  else if should_force_bulk q now then head_len (pq_bulk q)
  else match pq_small q with p :: _ => len (qd_pkt p) | [] => head_len (pq_bulk q) end.

(** ** The engine *)

Record ApdState := mkApdState {
  ap_phase : ApdPhase; ap_confirm_counter : Z; ap_drain_entered_at : option Instant; ap_cooldown_until : option Instant;
  ap_cfg : ApdConfig; ap_drain_episodes : Z; ap_drain_ms_total : Z; ap_packets_drained : Z; ap_drain_budget_hits : Z;
  ap_last_pure_spin : bool; ap_last_tick_us : Z; ap_ramp_burst : Z; ap_last_fill_ratio : f32; ap_last_effective_burst : Z;
  ap_ramp_active_ticks : Z; ap_ramp_pinned_ticks : Z; ap_drain_arm_fill : Z; ap_drain_arm_sojourn : Z;
  ap_last_max_sojourn_ms : Z; ap_cc_headroom_suppressions : Z
}.
#[export] Instance eta_ApdState : Settable ApdState :=
  fun r => mkApdState (ap_phase r) (ap_confirm_counter r) (ap_drain_entered_at r) (ap_cooldown_until r)
    (ap_cfg r) (ap_drain_episodes r) (ap_drain_ms_total r) (ap_packets_drained r) (ap_drain_budget_hits r)
    (ap_last_pure_spin r) (ap_last_tick_us r) (ap_ramp_burst r) (ap_last_fill_ratio r) (ap_last_effective_burst r)
    (ap_ramp_active_ticks r) (ap_ramp_pinned_ticks r) (ap_drain_arm_fill r) (ap_drain_arm_sojourn r)
    (ap_last_max_sojourn_ms r) (ap_cc_headroom_suppressions r).

Definition new_apd_state (c : ApdConfig) : ApdState :=
  mkApdState Cooldown 0 None None c 0 0 0 0 false 0 0 g0 0 0 0 0 0 0 0.

Record PacingEngine := mkPE {
  pe_config : PacingConfig; pe_control_q : list QueuedPacket; pe_retransmit_q : list QueuedPacket;
  pe_peer_queues : list (SocketAddr * PeerDataQueue); pe_non_empty_peers : Z; pe_queued_packets_total : Z; pe_tick_seq : Z;
  pe_budget : f64; pe_last_tick : Instant; pe_dropped_packets : Z; pe_dropped_data : Z; pe_dropped_control_normal : Z;
  pe_dropped_control_retransmit : Z; pe_consecutive_errors : Z; pe_interleave_counter : Z; pe_drr_cursor : Z;
  pe_apd : ApdState; pe_reserved_ctrl_sends : Z; pe_reserved_rtx_sends : Z; pe_drr_small_priority_pops : Z;
  pe_drr_bulk_force_pops : Z; pe_shed_sojourn : Z; pe_cached_rtt_ref_ms : f32; pe_drr_rtt_scale_applied : Z;
  pe_cc_rate_limited_events : Z; pe_background_cc : BackgroundCcEngine
}.
#[export] Instance eta_PacingEngine : Settable PacingEngine :=
  fun r => mkPE (pe_config r) (pe_control_q r) (pe_retransmit_q r) (pe_peer_queues r) (pe_non_empty_peers r)
    (pe_queued_packets_total r) (pe_tick_seq r) (pe_budget r) (pe_last_tick r) (pe_dropped_packets r) (pe_dropped_data r)
    (pe_dropped_control_normal r) (pe_dropped_control_retransmit r) (pe_consecutive_errors r) (pe_interleave_counter r)
    (pe_drr_cursor r) (pe_apd r) (pe_reserved_ctrl_sends r) (pe_reserved_rtx_sends r) (pe_drr_small_priority_pops r)
    (pe_drr_bulk_force_pops r) (pe_shed_sojourn r) (pe_cached_rtt_ref_ms r) (pe_drr_rtt_scale_applied r)
    (pe_cc_rate_limited_events r) (pe_background_cc r).

Definition new_pacing (cc : BackgroundCcConfig) (now : Instant) : PacingEngine :=
  mkPE (default_pacing cc) [] [] [] 0 0 0 f0 now 0 0 0 0 0 0 0 (new_apd_state default_apd) 0 0 0 0 0 g_neg1 0 0 (new_cc_engine cc).

Definition bump (n : Z) : Z := sat_add U64_MAX n 1.

(** [peer_queues.entry(dest).or_insert_with(new)], the entry updated by [f]. *)
Fixpoint im_upsert (m : list (SocketAddr * PeerDataQueue)) (dest : SocketAddr) (f : PeerDataQueue -> PeerDataQueue)
  : list (SocketAddr * PeerDataQueue) :=
  match m with
  | [] => [(dest, f new_peer_queue)]
  | (d, q) :: m => if bool_decide (d = dest) then (d, f q) :: m else (d, q) :: im_upsert m dest f
  end.
Fixpoint im_get (m : list (SocketAddr * PeerDataQueue)) (dest : SocketAddr) : option PeerDataQueue :=
  match m with
  | [] => None
  | (d, q) :: m => if bool_decide (d = dest) then Some q else im_get m dest
  end.
Fixpoint im_index_of (m : list (SocketAddr * PeerDataQueue)) (dest : SocketAddr) : option nat :=
  match m with
  | [] => None
  | (d, _) :: m => if bool_decide (d = dest) then Some O else S <$> im_index_of m dest
  end.

Definition lane_on (e : PacingEngine) : bool := pa_drr_small_packet_priority (pe_config e).
Definition lane_threshold (e : PacingEngine) : Z := pa_drr_small_packet_threshold_bytes (pe_config e).

Definition budget_cap_value (e : PacingEngine) : f64 :=
  match pa_pace_rate_mode (pe_config e) with
  | Pps => pa_budget_cap_packets (pe_config e)
  | Bytes => f64_mul (pa_budget_cap_packets (pe_config e)) (f64_of_Z 1300)
  end.
Definition budget_has_room (e : PacingEngine) : bool :=
  match pa_pace_rate_mode (pe_config e) with
  | Pps => f_le f1 (pe_budget e)
  | Bytes => f_le (f64_of_Z 64) (pe_budget e)
  end.
Definition budget_consume (e : PacingEngine) (pkt_len : Z) : PacingEngine :=
  let cost := match pa_pace_rate_mode (pe_config e) with Pps => f1 | Bytes => f64_of_Z pkt_len end in
  e <| pe_budget := f64_sub (pe_budget e) cost |>.

Definition set_background_cc_config (e : PacingEngine) (cc : BackgroundCcConfig) : PacingEngine :=
  e <| pe_config := pe_config e <| pa_background_cc := cc |> |> <| pe_background_cc := set_config (pe_background_cc e) cc |>.
Definition pacing_cc_sample (e : PacingEngine) (dest : SocketAddr) (qd loss : f64) : PacingEngine :=
  e <| pe_background_cc := on_cc_sample (pe_background_cc e) dest qd loss |>.
Definition remove_cc_peer (e : PacingEngine) (dest : SocketAddr) : PacingEngine :=
  e <| pe_background_cc := cc_remove_peer (pe_background_cc e) dest |>.
Definition background_cc_can_send (e : PacingEngine) (dest : SocketAddr) (flen : Z) (hol : f32) : bool :=
  if flen =? 0 then true else can_send_data (pe_background_cc e) dest flen hol.
Definition record_background_cc_rate_limit (e : PacingEngine) : PacingEngine :=
  e <| pe_cc_rate_limited_events := bump (pe_cc_rate_limited_events e) |>.

Definition apply_peer_qd_hint (q : PeerDataQueue) (qd : option f32) : PeerDataQueue :=
  match qd with Some v => if f_le g0 v then q <| pq_queuing_delay_ms := v |> else q | None => q end.
Definition apply_peer_rtt_hint (q : PeerDataQueue) (rtt : option f32) : PeerDataQueue :=
  match rtt with Some v => if f_lt g0 v then q <| pq_rtt_ms := v |> else q | None => q end.

(** [sort_by(partial_cmp)] is a stable insertion into an ordered list. *)
Fixpoint insert_f32 (x : f32) (l : list f32) : list f32 :=
  match l with
  | [] => [x]
  | y :: l => if f_lt x y then x :: y :: l else y :: insert_f32 x l
  end.
Definition median_positive_rtt (samples : list f32) : f32 :=
  match foldl (fun l x => insert_f32 x l) [] (filter (fun v => f_lt g0 v = true) samples) with
  | [] => g_neg1
  | sorted =>
      let mid := Nat.div (length sorted) 2 in
      if Nat.odd (length sorted) then nth mid sorted g0
      else f32_mul (f32_add (nth (mid - 1) sorted g0) (nth mid sorted g0)) (f32_lit 1 2)
  end.
Definition refresh_drr_rtt_ref (e : PacingEngine) : PacingEngine :=
  if negb (pa_drr_rtt_aware (pe_config e)) || negb (pa_drr_enabled (pe_config e)) then e <| pe_cached_rtt_ref_ms := g_neg1 |>
  else e <| pe_cached_rtt_ref_ms := median_positive_rtt
              (pq_rtt_ms <$> filter (fun q => pq_is_empty q = false) (pe_peer_queues e).*2) |>.

Definition record_peer_pop_kind (e : PacingEngine) (k : PeerPopKind) : PacingEngine :=
  match k with
  | SmallPriority => e <| pe_drr_small_priority_pops := bump (pe_drr_small_priority_pops e) |>
  | BulkForced => e <| pe_drr_bulk_force_pops := bump (pe_drr_bulk_force_pops e) |>
  | Bulk => e
  end.

(** ** Enqueueing *)

Definition data_cap (e : PacingEngine) : Z := Z.max (pa_max_data_queue_packets (pe_config e)) 1.

(** The queue the packets go to, with the hints applied. *)
Definition hinted_queue (e : PacingEngine) (dest : SocketAddr) (rtt qd : option f32) : PeerDataQueue :=
  apply_peer_qd_hint (apply_peer_rtt_hint (default new_peer_queue (im_get (pe_peer_queues e) dest)) rtt) qd.

Definition put_queue (e : PacingEngine) (dest : SocketAddr) (q : PeerDataQueue) : PacingEngine :=
  e <| pe_peer_queues := im_upsert (pe_peer_queues e) dest (fun _ => q) |>
    <| pe_background_cc := cc_ensure_peer (pe_background_cc e) dest |>.

Definition count_non_empty (was_empty : bool) (q : PeerDataQueue) (n : Z) : Z :=
  if was_empty && negb (pq_is_empty q) then sat_add U64_MAX n 1 else n.

Definition enqueue_peer_with_hints (e : PacingEngine) (pkt : bytes) (dest : SocketAddr) (rtt qd : option f32) (now : Instant)
  : PacingEngine * bool :=
  let q := hinted_queue e dest rtt qd in
  let '(q', kept) := pq_push q pkt (data_cap e) (lane_on e) (lane_threshold e) now in
  let e := put_queue e dest q' in
  let e := e <| pe_non_empty_peers := count_non_empty (pq_is_empty q) q' (pe_non_empty_peers e) |> in
  if kept then (e <| pe_queued_packets_total := sat_add U64_MAX (pe_queued_packets_total e) 1 |>, true)
  else (e <| pe_dropped_packets := bump (pe_dropped_packets e) |> <| pe_dropped_data := bump (pe_dropped_data e) |>, false).

Definition enqueue_peer (e : PacingEngine) (pkt : bytes) (dest : SocketAddr) (now : Instant) : PacingEngine * bool :=
  enqueue_peer_with_hints e pkt dest None None now.

(** One clock reading per packet. *)
Definition try_enqueue_peer_batch (e : PacingEngine) (dest : SocketAddr) (pkts : list (bytes * Instant)) (rtt qd : option f32)
  : PacingEngine * bool :=
  if bool_decide (pkts = []) then (e, true)
  else
    let q := hinted_queue e dest rtt qd in
    if data_cap e <? pq_len q + len pkts then (put_queue e dest q, false)
    else
      let q' := foldl (fun q x => push_back_classified q (mkQD x.1 x.2) (lane_on e) (lane_threshold e)) q pkts in
      let e := put_queue e dest q' in
      (e <| pe_non_empty_peers := count_non_empty (pq_is_empty q) q' (pe_non_empty_peers e) |>
         <| pe_queued_packets_total := sat_add U64_MAX (pe_queued_packets_total e) (len pkts) |>, true).

Definition peer_data_queue_len (e : PacingEngine) (dest : SocketAddr) : Z :=
  match im_get (pe_peer_queues e) dest with Some q => pq_len q | None => 0 end.
Definition peer_data_lens_snapshot (e : PacingEngine) : list (SocketAddr * Z) :=
  (fun x : SocketAddr * PeerDataQueue => (x.1, pq_len x.2)) <$> pe_peer_queues e.

Definition pacing_remove_peer (e : PacingEngine) (dest : SocketAddr) : PacingEngine :=
  let e :=
    match im_index_of (pe_peer_queues e) dest with
    | None => e
    | Some idx =>
        let n := match pe_peer_queues e !! idx with Some x => pq_len x.2 | None => 0 end in
        let e := if 0 <? n
                 then e <| pe_non_empty_peers := sat_sub (pe_non_empty_peers e) 1 |>
                        <| pe_queued_packets_total := sat_sub (pe_queued_packets_total e) n |>
                 else e in
        let e := e <| pe_peer_queues := delete idx (pe_peer_queues e) |> in
        let e := if (0 <? pe_drr_cursor e) && (Z.of_nat idx <? pe_drr_cursor e)
                 then e <| pe_drr_cursor := pe_drr_cursor e - 1 |> else e in
        if bool_decide (pe_peer_queues e = []) then e <| pe_drr_cursor := 0 |>
        else e <| pe_drr_cursor := pe_drr_cursor e mod len (pe_peer_queues e) |>
    end in
  e <| pe_background_cc := cc_remove_peer (pe_background_cc e) dest |>.

(** [while q.len() >= cap { q.pop_front() }]: how many are evicted. *)
Definition evicted (q : list QueuedPacket) (cap : Z) : nat := Z.to_nat (len q + 1 - cap).

Definition enqueue_retransmit (e : PacingEngine) (pkt : bytes) (dest : SocketAddr) (now : Instant) : PacingEngine * bool :=
  let n := evicted (pe_retransmit_q e) (Z.max (pa_max_retransmit_queue_packets (pe_config e)) 1) in
  let times (f : Z -> Z) (x : Z) := Nat.iter n f x in
  (e <| pe_retransmit_q := drop n (pe_retransmit_q e) ++ [mkQP pkt dest now] |>
     <| pe_queued_packets_total := sat_add U64_MAX (times (fun x => sat_sub x 1) (pe_queued_packets_total e)) 1 |>
     <| pe_dropped_packets := times bump (pe_dropped_packets e) |>
     <| pe_dropped_control_retransmit := times bump (pe_dropped_control_retransmit e) |>, negb (n =? 0)%nat).

Definition enqueue_control (e : PacingEngine) (pkt : bytes) (dest : SocketAddr) (now : Instant) : PacingEngine * bool :=
  let n := evicted (pe_control_q e) (Z.max (pa_max_control_queue_packets (pe_config e)) 1) in
  let times (f : Z -> Z) (x : Z) := Nat.iter n f x in
  (e <| pe_interleave_counter := if bool_decide (pe_control_q e = []) then 3 else pe_interleave_counter e |>
     <| pe_control_q := drop n (pe_control_q e) ++ [mkQP pkt dest now] |>
     <| pe_queued_packets_total := sat_add U64_MAX (times (fun x => sat_sub x 1) (pe_queued_packets_total e)) 1 |>
     <| pe_dropped_packets := times bump (pe_dropped_packets e) |>
     <| pe_dropped_control_normal := times bump (pe_dropped_control_normal e) |>, negb (n =? 0)%nat).

Definition pacing_enqueue (e : PacingEngine) (pkt : bytes) (dest : SocketAddr) (is_control : bool) (now : Instant) : PacingEngine * bool :=
  if is_control then ((enqueue_control e pkt dest now).1, true) else enqueue_peer e pkt dest now.

(** ** Fill *)

Definition queue_capacity (e : PacingEngine) : Z :=
  Z.max (pe_non_empty_peers e) 1 * pa_max_data_queue_packets (pe_config e) + pa_max_control_queue_packets (pe_config e) +
  pa_max_retransmit_queue_packets (pe_config e).
Definition queue_fill_ratio (e : PacingEngine) : f32 :=
  f_clamp g0 g1 (f32_div (f32_of_Z (pe_queued_packets_total e)) (f32_of_Z (Z.max (queue_capacity e) 1))).

Record PacingQueueSnapshot := mkQSnap {
  qs_data_queued : Z; qs_control_queued : Z; qs_retransmit_queued : Z; qs_queue_capacity : Z; qs_fill_ratio : f32
}.
Definition queue_snapshot (e : PacingEngine) : PacingQueueSnapshot :=
  let c := len (pe_control_q e) in
  let r := len (pe_retransmit_q e) in
  mkQSnap (sat_sub (pe_queued_packets_total e) (sat_add U64_MAX c r)) c r (queue_capacity e) (queue_fill_ratio e).

(** ** The environment of a tick *)

Inductive SendOutcome := SendOk | WouldBlock | SendErr.
Record Env := mkEnv { env_clock : nat -> Instant; env_send : nat -> SendOutcome }.

(** The engine, how many clock readings and send attempts were made, and what was sent. *)
Record Tk := mkTk { tk_e : PacingEngine; tk_reads : nat; tk_tries : nat; tk_sent : list (bytes * SocketAddr) }.
#[export] Instance eta_Tk : Settable Tk := fun r => mkTk (tk_e r) (tk_reads r) (tk_tries r) (tk_sent r).

Definition on_e (t : Tk) (f : PacingEngine -> PacingEngine) : Tk := t <| tk_e := f (tk_e t) |>.

Inductive TickResult := Progress (sent : Z) | SocketDead (last_failed_dest : option SocketAddr).

Section Tick.
Context (env : Env).

(** [Instant::now()]. *)
Definition read_clock (t : Tk) : Instant * Tk := (env_clock env (tk_reads t), t <| tk_reads := S (tk_reads t) |>).

(** *** Adaptive drain *)

Definition on_apd (e : PacingEngine) (f : ApdState -> ApdState) : PacingEngine := e <| pe_apd := f (pe_apd e) |>.

Definition apd_decay_ramp_burst_only (s : ApdState) (fill : f32) (base : Z) : ApdState :=
  let r := if ap_ramp_burst s =? 0 then base else ap_ramp_burst s in
  s <| ap_ramp_burst := Z.max (sat_sub r 1) base |> <| ap_last_fill_ratio := fill |>.

Definition apd_update_ramp_burst (s : ApdState) (fill : f32) (base : Z) (c : ApdConfig) (ceiling : Z) : ApdState :=
  let max_burst := Z.max ceiling base in
  let target := apd_ramp_target_burst fill base max_burst c in
  let r := if ap_ramp_burst s =? 0 then base else ap_ramp_burst s in
  let r := if f_lt (f32_add (ap_last_fill_ratio s) F32_EPSILON) fill then target else Z.max (sat_sub r 1) target in
  s <| ap_ramp_burst := r |> <| ap_last_fill_ratio := fill |>
    <| ap_ramp_active_ticks := if base <? r then bump (ap_ramp_active_ticks s) else ap_ramp_active_ticks s |>
    <| ap_ramp_pinned_ticks := if max_burst <=? r then bump (ap_ramp_pinned_ticks s) else ap_ramp_pinned_ticks s |>.

Definition apd_ramp_pinned (s : ApdState) (base ceiling : Z) : bool := Z.max ceiling base <=? ap_ramp_burst s.

(** The ramp of a tick that does not drain, and the burst it allows. *)
Definition apd_ramp (s : ApdState) (suppress : bool) (fill : f32) (base : Z) (c : ApdConfig) (ceiling : Z) : ApdState :=
  if suppress then apd_decay_ramp_burst_only s fill base <| ap_cc_headroom_suppressions := bump (ap_cc_headroom_suppressions s) |>
  else apd_update_ramp_burst s fill base c ceiling.
Definition apd_relaxed (s : ApdState) (base : Z) : ApdState * (Z * bool) :=
  let burst := Z.max (ap_ramp_burst s) base in
  (s <| ap_last_pure_spin := false |> <| ap_last_tick_us := 0 |> <| ap_last_effective_burst := burst |>, (burst, false)).
Definition apd_draining (s : ApdState) (c : ApdConfig) (drain_burst : Z) : ApdState * (Z * bool) :=
  (s <| ap_last_pure_spin := true |> <| ap_last_tick_us := ac_drain_tick_us c |> <| ap_last_effective_burst := drain_burst |>,
   (drain_burst, ac_drain_freeze_drr c)).

Definition apd_exit_drain_to_cooldown (s : ApdState) (base : Z) (now elapsed_at : Instant) (budget_hit : bool) : ApdState * (Z * bool) :=
  let s := if budget_hit then s <| ap_drain_budget_hits := bump (ap_drain_budget_hits s) |> else s in
  let s := match ap_drain_entered_at s with
           | Some entered => s <| ap_drain_ms_total := sat_add U64_MAX (ap_drain_ms_total s) (as_millis (duration_since elapsed_at entered)) |>
           | None => s
           end in
  apd_relaxed (s <| ap_phase := Cooldown |> <| ap_cooldown_until := Some (now + from_millis (ac_cooldown_ms (ap_cfg s))) |>
                 <| ap_drain_entered_at := None |> <| ap_confirm_counter := 0 |>) base.

(** [at1] and [at2] are the readings of [elapsed()] in the drain phase. *)
Definition apd_step (s : ApdState) (base : Z) (fill : f32) (now : Instant) (hol : f32) (any_cc : bool) (at1 at2 : Instant)
  : ApdState * (Z * bool) :=
  let c := ap_cfg s in
  let ceiling := Z.max (ac_ramp_max_burst c) base in
  let drain_burst := clamp 1 ceiling (ac_drain_max_burst c) in
  let suppress := ac_require_cc_headroom c && negb any_cc in
  match ap_phase s with
  | Cooldown =>
      let done := match ap_cooldown_until s with Some u => u <=? now | None => true end in
      let s := if done then s <| ap_phase := Alert |> <| ap_confirm_counter := 0 |> <| ap_cooldown_until := None |> else s in
      apd_relaxed (apd_ramp s suppress fill base c ceiling) base
  | Alert =>
      let s := apd_ramp s suppress fill base c ceiling in
      let fill_arm := apd_ramp_pinned s base ceiling && f_lt (ac_high_watermark c) fill in
      let sojourn_arm := ac_sojourn_enabled c && f_lt (ac_max_sojourn_ms c) hol in
      if (fill_arm || sojourn_arm) && negb suppress then
        let s := if ac_confirm_ticks c =? 0 then s else s <| ap_confirm_counter := sat_add U32_MAX (ap_confirm_counter s) 1 |> in
        if (ac_confirm_ticks c =? 0) || (ac_confirm_ticks c <=? ap_confirm_counter s) then
          let s := if sojourn_arm then s <| ap_drain_arm_sojourn := bump (ap_drain_arm_sojourn s) |>
                   else s <| ap_drain_arm_fill := bump (ap_drain_arm_fill s) |> in
          apd_draining (s <| ap_phase := Drain |> <| ap_drain_entered_at := Some now |>
                          <| ap_drain_episodes := bump (ap_drain_episodes s) |>) c drain_burst
        else apd_relaxed s base
      else
        let s := if 0 <? ac_confirm_ticks c then s <| ap_confirm_counter := sat_sub (ap_confirm_counter s) 1 |> else s in
        apd_relaxed s base
  | Drain =>
      if suppress then
        apd_exit_drain_to_cooldown (s <| ap_cc_headroom_suppressions := bump (ap_cc_headroom_suppressions s) |>) base now at1 false
      else
        let exhausted := (0 <? ac_spinloop_budget_ms c) &&
                         match ap_drain_entered_at s with
                         | Some t => from_millis (ac_spinloop_budget_ms c) <=? duration_since at1 t
                         | None => false
                         end in
        let fill_exit := f_lt fill (ac_low_watermark c) in
        let sojourn_exit := negb (ac_sojourn_enabled c) || f_lt hol (ac_target_sojourn_ms c) in
        if exhausted || (fill_exit && sojourn_exit) then apd_exit_drain_to_cooldown s base now at2 exhausted
        else apd_draining s c drain_burst
  end.

(** The oldest head of a queue, and whether some peer may send. *)
Definition scan_peer (e : PacingEngine) (cc_needed : bool) (now : Instant) (acc : f32 * bool * Z) (x : SocketAddr * PeerDataQueue)
  : f32 * bool * Z :=
  let '(max_ms, any_cc, scanned) := acc in
  let hol := hol_sojourn_ms x.2 now in
  let max_ms := f_max max_ms hol in
  if negb cc_needed || any_cc || pq_is_empty x.2 then (max_ms, any_cc, scanned)
  else (max_ms, background_cc_can_send e x.1 (front_len x.2 (lane_on e) now) hol, sat_add U64_MAX scanned 1).

Definition apd_pressure_scan (e : PacingEngine) (now : Instant) : f32 * bool :=
  let head_ms (m : f32) (q : list QueuedPacket) := match q with p :: _ => f_max m (sojourn_ms now (qp_at p)) | [] => m end in
  let max_ms := head_ms (head_ms g0 (pe_control_q e)) (pe_retransmit_q e) in
  let cc_needed := ac_require_cc_headroom (ap_cfg (pe_apd e)) && bc_enabled (pa_background_cc (pe_config e)) in
  let '(max_ms, any_cc, scanned) := foldl (scan_peer e cc_needed now) (max_ms, negb cc_needed, 0) (pe_peer_queues e) in
  (max_ms, if cc_needed && negb any_cc then scanned =? 0 else any_cc).

(** *** Shedding *)

Definition pop_bulk_at (e : PacingEngine) (idx : nat) : PacingEngine :=
  match pe_peer_queues e !! idx with
  | None => e
  | Some (d, q) =>
      let q' := (pop_bulk_front q).1 in
      let e := e <| pe_peer_queues := <[idx := (d, q')]> (pe_peer_queues e) |> in
      if pq_is_empty q' then e <| pe_non_empty_peers := sat_sub (pe_non_empty_peers e) 1 |> else e
  end.

Fixpoint shed_loop (fuel : nat) (t : Tk) (n : nat) (dropped : Z) (now deadline : Instant) : Tk :=
  match fuel with
  | O => t
  | S fuel =>
      let c := pa_shed (pe_config (tk_e t)) in
      if sh_max_per_tick c <=? dropped then t
      else
        let '(cl, t) := read_clock t in
        if deadline <=? cl then t
        else
          let idx := Z.to_nat (pe_drr_cursor (tk_e t) mod Z.of_nat n) in
          let t := on_e t (fun e => e <| pe_drr_cursor := wrap 64 (pe_drr_cursor e + 1) |>) in
          let stale := match pe_peer_queues (tk_e t) !! idx with
                       | Some (_, q) => match bulk_front_sojourn_ms q now with
                                        | Some s => f_lt (sh_max_sojourn_ms c) s
                                        | None => false
                                        end
                       | None => false
                       end in
          if stale then
            let t := on_e t (fun e => pop_bulk_at e idx) in
            let t := on_e t (fun e => e <| pe_queued_packets_total := sat_sub (pe_queued_packets_total e) 1 |>
                                        <| pe_shed_sojourn := bump (pe_shed_sojourn e) |>
                                        <| pe_dropped_packets := bump (pe_dropped_packets e) |>) in
            shed_loop fuel t n (sat_add U32_MAX dropped 1) now deadline
          else shed_loop fuel t n dropped now deadline
  end.

Definition shed_stale_bulk_rr (t : Tk) (now deadline : Instant) : Tk :=
  let c := pa_shed (pe_config (tk_e t)) in
  if negb (sh_enabled c) || (pe_non_empty_peers (tk_e t) =? 0) || f_lt (queue_fill_ratio (tk_e t)) (sh_min_fill c) then t
  else let n := length (pe_peer_queues (tk_e t)) in shed_loop n t n 0 now deadline.

(** *** Sending *)

Definition try_send (t : Tk) (pkt : bytes) (dest : SocketAddr) : SendOutcome * Tk :=
  let r := env_send env (tk_tries t) in
  let t := t <| tk_tries := S (tk_tries t) |> in
  (r, match r with SendOk => t <| tk_sent := tk_sent t ++ [(pkt, dest)] |> | _ => t end).

Definition dequeued (e : PacingEngine) : PacingEngine := e <| pe_queued_packets_total := sat_sub (pe_queued_packets_total e) 1 |>.
Definition requeued (e : PacingEngine) : PacingEngine := e <| pe_queued_packets_total := sat_add U64_MAX (pe_queued_packets_total e) 1 |>.
Definition push_control_front (e : PacingEngine) (q : QueuedPacket) : PacingEngine := e <| pe_control_q := q :: pe_control_q e |>.
Definition push_retransmit_front (e : PacingEngine) (q : QueuedPacket) : PacingEngine := e <| pe_retransmit_q := q :: pe_retransmit_q e |>.

(** What a failed attempt makes of the tick, the packet put back. *)
Definition send_failed (t : Tk) (r : SendOutcome) (dest : SocketAddr) : Tk * option TickResult :=
  match r with
  | SendErr =>
      let t := on_e t (fun e => e <| pe_consecutive_errors := sat_add U32_MAX (pe_consecutive_errors e) 1 |>) in
      (t, Some (if 5 <=? pe_consecutive_errors (tk_e t) then SocketDead (Some dest) else Progress (len (tk_sent t))))
  | _ => (t, None)
  end.

Definition try_send_queued_packet (t : Tk) (q : QueuedPacket) (retransmit : bool) : Tk * result unit (option TickResult) :=
  let '(r, t) := try_send t (qp_pkt q) (qp_dest q) in
  match r with
  | SendOk => (on_e t (fun e => budget_consume (e <| pe_consecutive_errors := 0 |>) (len (qp_pkt q))), Ok tt)
  | _ =>
      let t := on_e t (fun e => requeued (if retransmit then push_retransmit_front e q else push_control_front e q)) in
      let '(t, res) := send_failed t r (qp_dest q) in (t, Err res)
  end.

Inductive NextPacket := Control (q : QueuedPacket) | Data (pkt : bytes) (dest : SocketAddr) (enqueued_at : Instant).
Definition next_pkt (i : NextPacket) : bytes := match i with Control q => qp_pkt q | Data p _ _ => p end.
Definition next_dest (i : NextPacket) : SocketAddr := match i with Control q => qp_dest q | Data _ d _ => d end.

Definition requeue_data_at_front (e : PacingEngine) (dest : SocketAddr) (pkt : bytes) (at_ : Instant) : PacingEngine :=
  let was_empty := pq_is_empty (default new_peer_queue (im_get (pe_peer_queues e) dest)) in
  let e := e <| pe_peer_queues := im_upsert (pe_peer_queues e) dest
                   (fun q => push_front_requeue q (mkQD pkt at_) (lane_on e) (lane_threshold e)) |> in
  if was_empty then e <| pe_non_empty_peers := sat_add U64_MAX (pe_non_empty_peers e) 1 |> else e.

Definition put_back (e : PacingEngine) (i : NextPacket) : PacingEngine :=
  match i with Control q => push_control_front e q | Data p d a => requeue_data_at_front e d p a end.

Definition try_send_next_packet (t : Tk) (i : NextPacket) (count_apd_drain : bool) : Tk * result unit (option TickResult) :=
  let '(r, t) := try_send t (next_pkt i) (next_dest i) in
  match r with
  | SendOk =>
      let t := on_e t (fun e => budget_consume (e <| pe_consecutive_errors := 0 |>) (len (next_pkt i))) in
      let t := match i with
               | Data p d _ => on_e t (fun e => e <| pe_background_cc := consume_send_bytes (pe_background_cc e) d (len p) |>)
               | Control _ => t
               end in
      (if count_apd_drain && ac_enabled (ap_cfg (pe_apd (tk_e t))) && bool_decide (ap_phase (pe_apd (tk_e t)) = Drain)
       then on_e t (fun e => on_apd e (fun s => s <| ap_packets_drained := bump (ap_packets_drained s) |>)) else t, Ok tt)
  | _ =>
      let t := on_e t (fun e => requeued (put_back e i)) in
      let '(t, res) := send_failed t r (next_dest i) in (t, Err res)
  end.

(** *** The reserved prefix *)

Definition reserved_may_send (pkt_len remaining phase_initial : Z) : bool :=
  if remaining =? 0 then false else if remaining =? phase_initial then true else pkt_len <=? remaining.
Definition reserved_consume (remaining phase_initial pkt_len : Z) : Z :=
  if (remaining =? phase_initial) && (remaining <? pkt_len) then 0 else sat_sub remaining pkt_len.

(** The two phases differ in their queue and their counter. *)
Definition phase_queue (retransmit : bool) (e : PacingEngine) : list QueuedPacket :=
  if retransmit then pe_retransmit_q e else pe_control_q e.
Definition phase_pop (retransmit : bool) (e : PacingEngine) : PacingEngine :=
  dequeued (if retransmit then e <| pe_retransmit_q := drop 1 (pe_retransmit_q e) |> else e <| pe_control_q := drop 1 (pe_control_q e) |>).
Definition phase_count (retransmit : bool) (e : PacingEngine) : PacingEngine :=
  if retransmit then e <| pe_reserved_rtx_sends := bump (pe_reserved_rtx_sends e) |>
  else e <| pe_reserved_ctrl_sends := bump (pe_reserved_ctrl_sends e) |>.

(** Every pass that goes on takes a packet off the queue, so the length of the queue bounds the passes. *)
Fixpoint reserved_loop (fuel : nat) (retransmit : bool) (deadline : Instant) (initial remaining : Z) (t : Tk) : Tk * option TickResult :=
  match fuel with
  | O => (t, None)
  | S fuel =>
      if remaining <=? 0 then (t, None)
      else
        let '(cl, t) := read_clock t in
        if (deadline <=? cl) || negb (budget_has_room (tk_e t)) then (t, None)
        else
          match phase_queue retransmit (tk_e t) with
          | [] => (t, None)
          | q :: _ =>
              let pkt_len := len (qp_pkt q) in
              if (pkt_len =? 0) || negb (reserved_may_send pkt_len remaining initial) then (t, None)
              else
                let '(t, res) := try_send_queued_packet (on_e t (phase_pop retransmit)) q retransmit in
                match res with
                | Ok _ => reserved_loop fuel retransmit deadline initial (reserved_consume remaining initial pkt_len)
                            (on_e t (phase_count retransmit))
                | Err (Some tr) => (t, Some tr)
                | Err None => (t, Some (Progress (len (tk_sent t))))
                end
          end
  end.
Definition reserved_phase (retransmit : bool) (deadline : Instant) (initial : Z) (t : Tk) : Tk * option TickResult :=
  reserved_loop (S (length (phase_queue retransmit (tk_e t)))) retransmit deadline initial initial t.

Definition drain_reserved_prefix (deadline : Instant) (t : Tk) : Tk * option TickResult :=
  let rtx := pa_min_retransmit_reserved_bytes_per_tick (pe_config (tk_e t)) in
  let ctrl := pa_min_control_reserved_bytes_per_tick (pe_config (tk_e t)) in
  if (rtx =? 0) && (ctrl =? 0) then (t, None)
  else
    match reserved_phase true deadline rtx t with
    | (t, Some tr) => (t, Some tr)
    | (t, None) => reserved_phase false deadline ctrl t
    end.

(** *** Taking the next packet *)

Definition pop_control_for_send (e : PacingEngine) : PacingEngine * option NextPacket :=
  match pe_control_q e with
  | q :: l => (dequeued (e <| pe_control_q := l |>), Some (Control q))
  | [] => (e, None)
  end.
Definition pop_retransmit_for_send (e : PacingEngine) : PacingEngine * option NextPacket :=
  match pe_retransmit_q e with
  | q :: l => (dequeued (e <| pe_retransmit_q := l |>), Some (Control q))
  | [] => (e, None)
  end.

Definition lift_pop (t : Tk) (f : PacingEngine -> PacingEngine * option NextPacket) : Tk * option NextPacket :=
  let '(e, r) := f (tk_e t) in (t <| tk_e := e |>, r).

Definition try_pop_control_interleaved (t : Tk) : Tk * option NextPacket :=
  let e := tk_e t in
  let pressure := Z.max (pa_max_control_queue_packets (pe_config e)) 1 <=? sat_mul U64_MAX (len (pe_control_q e)) 2 in
  let '(aging, t) := match pe_control_q e with
                     | q :: _ => let '(cl, t) := read_clock t in (from_millis 8 <=? duration_since cl (qp_at q), t)
                     | [] => (false, t)
                     end in
  let divisor := if pressure || aging then 2 else 4 in
  let t := on_e t (fun e => e <| pe_interleave_counter := wrap 8 (pe_interleave_counter e + 1) |>) in
  if pe_interleave_counter (tk_e t) mod divisor =? 0 then lift_pop t pop_control_for_send else (t, None).

(** The queue at [idx] gives up its next packet. *)
Definition pop_at (e : PacingEngine) (idx : nat) (now : Instant) : PacingEngine * option NextPacket :=
  match pe_peer_queues e !! idx with
  | None => (e, None)
  | Some (d, q) =>
      let '(q', r) := pop_data q (lane_on e) now in
      let e := e <| pe_peer_queues := <[idx := (d, q')]> (pe_peer_queues e) |> in
      match r with
      | None => (e, None)
      | Some (entry, kind) =>
          let e := dequeued (record_peer_pop_kind e kind) in
          (if pq_is_empty q' then e <| pe_non_empty_peers := sat_sub (pe_non_empty_peers e) 1 |> else e,
           Some (Data (qd_pkt entry) d (qd_at entry)))
      end
  end.
Definition gated_pop_at (e : PacingEngine) (idx : nat) (now : Instant) : PacingEngine * option NextPacket :=
  match pe_peer_queues e !! idx with
  | None => (e, None)
  | Some (d, q) =>
      let flen := front_len q (lane_on e) now in
      if (0 <? flen) && negb (background_cc_can_send e d flen (hol_sojourn_ms q now))
      then (record_background_cc_rate_limit e, None) else pop_at e idx now
  end.

(** [self.drr_cursor % n], the cursor moved on. *)
Definition next_index (e : PacingEngine) (n : nat) : nat * PacingEngine :=
  (Z.to_nat (pe_drr_cursor e mod Z.of_nat n), e <| pe_drr_cursor := wrap 64 (pe_drr_cursor e + 1) |>).

Fixpoint rr_loop (fuel n : nat) (now : Instant) (e : PacingEngine) : PacingEngine * option NextPacket :=
  match fuel with
  | O => pop_control_for_send e
  | S fuel =>
      let '(idx, e) := next_index e n in
      match gated_pop_at e idx now with
      | (e, Some p) => (e, Some p)
      | (e, None) => rr_loop fuel n now e
      end
  end.

Fixpoint fifo_loop (idxs : list nat) (now : Instant) (e : PacingEngine) : PacingEngine * option NextPacket :=
  match idxs with
  | [] => pop_control_for_send e
  | idx :: idxs =>
      match gated_pop_at e idx now with
      | (e, Some p) => (e, Some p)
      | (e, None) => fifo_loop idxs now e
      end
  end.

Definition scaled_drr_quantum (base : Z) (peer_rtt_ms rtt_ref_ms : f32) (aware : bool) (scale_min scale_max : f32) : Z :=
  let base := Z.max base 1 in
  if negb aware || f_le rtt_ref_ms g0 || f_le peer_rtt_ms g0 then Z.max base MIN_DRR_QUANTUM
  else
    let scale := f_clamp scale_min scale_max (f32_div peer_rtt_ms rtt_ref_ms) in
    Z.max (f32_round_u64 (f32_mul (f32_of_Z base) scale)) MIN_DRR_QUANTUM.

(** A visit of deficit round robin: the credited queue, the length of its next packet, and whether its quantum was scaled. *)
Definition drr_credit (e : PacingEngine) (q : PeerDataQueue) (now : Instant) : PeerDataQueue * Z * bool :=
  let c := pe_config e in
  let base := Z.max (pa_drr_quantum c) 1 in
  let ref := pe_cached_rtt_ref_ms e in
  let quantum := scaled_drr_quantum base (pq_rtt_ms q) ref (pa_drr_rtt_aware c) (pa_drr_rtt_scale_min c) (pa_drr_rtt_scale_max c) in
  let hit := pa_drr_rtt_aware c && f_lt g0 ref && f_lt g0 (pq_rtt_ms q) && negb (quantum =? Z.max base MIN_DRR_QUANTUM) in
  let deficit := sat_add U64_MAX (pq_deficit q) quantum in
  let flen := front_len q (lane_on e) now in
  (q <| pq_deficit := Z.min deficit (Z.max (sat_mul U64_MAX quantum 4) flen) |>, flen, hit).

Definition set_queue (e : PacingEngine) (idx : nat) (d : SocketAddr) (q : PeerDataQueue) : PacingEngine :=
  e <| pe_peer_queues := <[idx := (d, q)]> (pe_peer_queues e) |>.

Definition drr_visit (e : PacingEngine) (idx : nat) (now : Instant) : PacingEngine * bool * option NextPacket :=
  match pe_peer_queues e !! idx with
  | None => (e, false, None)
  | Some (d, q) =>
      if pq_is_empty q then (set_queue e idx d (q <| pq_deficit := 0 |>), false, None)
      else
        let '(q, flen, hit) := drr_credit e q now in
        let e := set_queue e idx d q in
        if (flen =? 0) || (pq_deficit q <? flen) then (e, hit, None)
        else if negb (background_cc_can_send e d flen (hol_sojourn_ms q now)) then (record_background_cc_rate_limit e, hit, None)
        else let '(e, r) := pop_at (set_queue e idx d (q <| pq_deficit := pq_deficit q - flen |>)) idx now in (e, hit, r)
  end.

Fixpoint drr_loop (fuel n : nat) (now : Instant) (hits : Z) (e : PacingEngine) : PacingEngine * option NextPacket :=
  match fuel with
  | O => pop_control_for_send (e <| pe_drr_rtt_scale_applied := sat_add U64_MAX (pe_drr_rtt_scale_applied e) hits |>)
  | S fuel =>
      let '(idx, e) := next_index e n in
      let '(e, hit, r) := drr_visit e idx now in
      match r with
      | Some p => (e, Some p)
      | None => drr_loop fuel n now (if hit then sat_add U64_MAX hits 1 else hits) e
      end
  end.

(** [pop_next], once the retransmit queue and the interleaved control packet have been passed over. *)
Definition pop_data_next (t : Tk) : Tk * option NextPacket :=
  let e := tk_e t in
  let n := length (pe_peer_queues e) in
  if negb (pa_drr_enabled (pe_config e)) then
    let '(now, t) := read_clock t in lift_pop t (fifo_loop (seq 0 n) now)
  else if (n =? 0)%nat || (pe_non_empty_peers e =? 0) then lift_pop t pop_control_for_send
  else let '(now, t) := read_clock t in lift_pop t (drr_loop (n * 2) n now 0).

(** The same in drain mode: round robin without deficits. *)
Definition pop_data_frozen (t : Tk) : Tk * option NextPacket :=
  let '(now, t) := read_clock t in
  let n := length (pe_peer_queues (tk_e t)) in lift_pop t (rr_loop n n now).

Definition or_pop (r : Tk * option NextPacket) (f : Tk -> Tk * option NextPacket) : Tk * option NextPacket :=
  match r with (t, Some p) => (t, Some p) | (t, None) => f t end.

Definition pop_next (t : Tk) : Tk * option NextPacket :=
  or_pop (or_pop (lift_pop t pop_retransmit_for_send) try_pop_control_interleaved) pop_data_next.
Definition pop_next_apd (freeze_drr : bool) (t : Tk) : Tk * option NextPacket :=
  if negb freeze_drr then pop_next t
  else or_pop (or_pop (lift_pop t pop_retransmit_for_send) try_pop_control_interleaved) pop_data_frozen.

(** *** The tick *)

Definition refill (e : PacingEngine) (now : Instant) : PacingEngine :=
  let elapsed := as_secs_f64 (duration_since now (pe_last_tick e)) in
  let rate := match pa_pace_rate_mode (pe_config e) with Pps => pa_target_pps (pe_config e) | Bytes => pa_target_bps (pe_config e) end in
  let budget := f64_add (pe_budget e) (f64_mul elapsed (f64_of_Z rate)) in
  let e := e <| pe_last_tick := now |> <| pe_budget := f_min budget (budget_cap_value e) |>
             <| pe_background_cc := refill_all_tokens (pe_background_cc e) elapsed |>
             <| pe_tick_seq := wrap 64 (pe_tick_seq e + 1) |> in
  if pe_tick_seq e mod 32 =? 0 then refresh_drr_rtt_ref e else e.

(** The readings of [elapsed()] in the drain phase are drawn here, used or not. *)
Definition tick_decision (t : Tk) (now : Instant) : Tk * (Z * bool) :=
  let e := tk_e t in
  if ac_enabled (ap_cfg (pe_apd e)) then
    let '(hol, any_cc) := apd_pressure_scan e now in
    let '(at1, t) := read_clock t in
    let '(at2, t) := read_clock t in
    let '(s, decision) := apd_step (pe_apd e <| ap_last_max_sojourn_ms := f32_round_u64 hol |>)
                            (pa_base_max_burst (pe_config e)) (queue_fill_ratio e) now hol any_cc at1 at2 in
    (on_e t (fun e => e <| pe_apd := s |>), decision)
  else (t, (pa_base_max_burst (pe_config e), false)).

Fixpoint burst_loop (burst : nat) (freeze_drr : bool) (deadline : Instant) (t : Tk) : Tk * TickResult :=
  match burst with
  | O => (t, Progress (len (tk_sent t)))
  | S burst =>
      let '(cl, t) := read_clock t in
      if (deadline <=? cl) || negb (budget_has_room (tk_e t)) then (t, Progress (len (tk_sent t)))
      else
        match pop_next_apd freeze_drr t with
        | (t, None) => (t, Progress (len (tk_sent t)))
        | (t, Some item) =>
            let '(t, res) := try_send_next_packet t item true in
            match res with
            | Ok _ => burst_loop burst freeze_drr deadline t
            | Err (Some tr) => (t, tr)
            | Err None => (t, Progress (len (tk_sent t)))
            end
        end
  end.

Definition tick_with (e : PacingEngine) : Tk * TickResult :=
  let '(now, t) := read_clock (mkTk e 0 0 []) in
  let deadline := now + from_micros (Z.max (pa_max_tick_work_us (pe_config e)) 100) in
  let t := on_e t (fun e => refill e now) in
  let '(t, (burst, freeze_drr)) := tick_decision t now in
  let t := shed_stale_bulk_rr t now deadline in
  match drain_reserved_prefix deadline t with
  | (t, Some tr) => (t, tr)
  | (t, None) => burst_loop (Z.to_nat burst) freeze_drr deadline t
  end.

End Tick.

(** ** Reconfiguration and resets *)

Definition apd_cfg_eq (a b : ApdConfig) : bool :=
  eqb (ac_enabled a) (ac_enabled b) && f_eq (ac_high_watermark a) (ac_high_watermark b) &&
  f_eq (ac_low_watermark a) (ac_low_watermark b) && (ac_ramp_max_burst a =? ac_ramp_max_burst b) &&
  (ac_drain_max_burst a =? ac_drain_max_burst b) && (ac_spinloop_budget_ms a =? ac_spinloop_budget_ms b) &&
  (ac_drain_tick_us a =? ac_drain_tick_us b) && (ac_confirm_ticks a =? ac_confirm_ticks b) &&
  (ac_cooldown_ms a =? ac_cooldown_ms b) && eqb (ac_drain_freeze_drr a) (ac_drain_freeze_drr b) &&
  eqb (ac_sojourn_enabled a) (ac_sojourn_enabled b) && f_eq (ac_max_sojourn_ms a) (ac_max_sojourn_ms b) &&
  f_eq (ac_target_sojourn_ms a) (ac_target_sojourn_ms b) && eqb (ac_require_cc_headroom a) (ac_require_cc_headroom b).

Definition reset_apd_runtime_state (e : PacingEngine) : PacingEngine :=
  on_apd e (fun s => s <| ap_phase := Cooldown |> <| ap_confirm_counter := 0 |> <| ap_drain_entered_at := None |>
                       <| ap_cooldown_until := None |> <| ap_ramp_burst := pa_base_max_burst (pe_config e) |>
                       <| ap_last_fill_ratio := g0 |>).

(** [None] when sanitising the configuration panics. *)
Definition pacing_set_config (e : PacingEngine) (cfg : PacingConfig) (now : Instant) : option PacingEngine :=
  cfg ← pacing_sanitize cfg;
  let changed := negb (apd_cfg_eq (ap_cfg (pe_apd e)) (pa_apd cfg)) in
  let e := on_apd e (fun s => s <| ap_cfg := pa_apd cfg |> <| ap_last_pure_spin := false |> <| ap_last_tick_us := 0 |>) in
  let e := e <| pe_background_cc := set_config (pe_background_cc e) (pa_background_cc cfg) |> in
  let e := if changed then reset_apd_runtime_state e else e in
  Some (e <| pe_config := cfg |> <| pe_last_tick := now |> <| pe_budget := f_min (pe_budget e) (pa_budget_cap_packets cfg) |>
          <| pe_consecutive_errors := 0 |>
          <| pe_non_empty_peers := len (filter (fun x => pq_is_empty x.2 = false) (pe_peer_queues e)) |>).

Definition apd_counters_zero (s : ApdState) : ApdState :=
  s <| ap_drain_episodes := 0 |> <| ap_drain_ms_total := 0 |> <| ap_packets_drained := 0 |> <| ap_drain_budget_hits := 0 |>
    <| ap_ramp_active_ticks := 0 |> <| ap_ramp_pinned_ticks := 0 |> <| ap_drain_arm_fill := 0 |> <| ap_drain_arm_sojourn := 0 |>
    <| ap_last_max_sojourn_ms := 0 |> <| ap_cc_headroom_suppressions := 0 |>.

Definition pacing_counters_zero (e : PacingEngine) : PacingEngine :=
  e <| pe_dropped_packets := 0 |> <| pe_dropped_data := 0 |> <| pe_dropped_control_normal := 0 |>
    <| pe_dropped_control_retransmit := 0 |> <| pe_shed_sojourn := 0 |> <| pe_drr_small_priority_pops := 0 |>
    <| pe_drr_bulk_force_pops := 0 |> <| pe_drr_rtt_scale_applied := 0 |> <| pe_cc_rate_limited_events := 0 |>
    <| pe_apd := apd_counters_zero (pe_apd e) |>.

Definition reset_session_runtime (e : PacingEngine) (now : Instant) : PacingEngine :=
  let e := pacing_counters_zero e in
  let e := e <| pe_control_q := [] |> <| pe_retransmit_q := [] |> <| pe_peer_queues := [] |> <| pe_non_empty_peers := 0 |>
             <| pe_queued_packets_total := 0 |> <| pe_tick_seq := 0 |> <| pe_budget := f0 |> <| pe_consecutive_errors := 0 |>
             <| pe_interleave_counter := 0 |> <| pe_drr_cursor := 0 |> <| pe_reserved_ctrl_sends := 0 |>
             <| pe_reserved_rtx_sends := 0 |> <| pe_cached_rtt_ref_ms := g_neg1 |>
             <| pe_background_cc := new_cc_engine (pa_background_cc (pe_config e)) |> in
  let e := reset_apd_runtime_state e in
  on_apd e (fun s => s <| ap_last_pure_spin := false |> <| ap_last_tick_us := 0 |>
                       <| ap_last_effective_burst := pa_base_max_burst (pe_config e) |>) <| pe_last_tick := now |>.

Definition reset_observability_counters (e : PacingEngine) : PacingEngine :=
  pacing_counters_zero e <| pe_background_cc := (take_counters (pe_background_cc e)).1 |>.
