(* ===== verification/PacingLedger.v ===== *)
(** * The books of the pacing engine (src/net/pacing.rs)

    [queued e] lists every packet the engine holds, and [pacing_ok e] says that its counters agree with
    it.  A [ledger] relates the engine before and after an operation: what came in is, up to order, what
    went out, what was dropped and what is still held, and every drop was counted.  Each operation of
    [Pacing] has its ledger here; the theorems are in PacingWorker and PacingFair. *)

From S2P Require Import Prelude Float Tuning BackgroundCc PacingCfg Pacing.

Abbreviation Pkt := (bytes * SocketAddr)%type (only parsing).

Definition of_ctrl (l : list QueuedPacket) : list Pkt := (fun p => (qp_pkt p, qp_dest p)) <$> l.
Definition of_peer (d : SocketAddr) (q : PeerDataQueue) : list Pkt := (fun p => (qd_pkt p, d)) <$> (pq_small q ++ pq_bulk q).
Fixpoint peer_items (m : list (SocketAddr * PeerDataQueue)) : list Pkt :=
  match m with [] => [] | (d, q) :: m => of_peer d q ++ peer_items m end.
Definition queued (e : PacingEngine) : list Pkt :=
  of_ctrl (pe_control_q e) ++ of_ctrl (pe_retransmit_q e) ++ peer_items (pe_peer_queues e).

(** 1 for a queue with a packet, 0 for an empty one. *)
Definition nz (q : PeerDataQueue) : Z := if pq_is_empty q then 0 else 1.
Fixpoint busy (m : list (SocketAddr * PeerDataQueue)) : Z := match m with [] => 0 | (_, q) :: m => nz q + busy m end.

Record pacing_ok (e : PacingEngine) : Prop := {
  ok_keys : NoDup (pe_peer_queues e).*1;
  ok_total : pe_queued_packets_total e = len (queued e);
  ok_busy : pe_non_empty_peers e = busy (pe_peer_queues e);
  ok_fits : len (queued e) <= U64_MAX;
  ok_drops : 0 <= pe_dropped_packets e <= U64_MAX
}.

Definition ledger (e e' : PacingEngine) (out drops inn : list Pkt) : Prop :=
  pacing_ok e -> len inn + len (queued e) <= U64_MAX ->
  pacing_ok e' /\ out ++ drops ++ queued e' ≡ₚ inn ++ queued e /\
  pe_dropped_packets e' = sat_add U64_MAX (pe_dropped_packets e) (len drops).

(** ** Lists of queues *)

Lemma nz_range q : 0 <= nz q <= 1.
Proof. unfold nz. destruct (pq_is_empty q); lia. Qed.

Lemma pq_is_empty_spec q : pq_is_empty q = true <-> pq_small q ++ pq_bulk q = [].
Proof. unfold pq_is_empty. rewrite andb_true_iff, !bool_decide_eq_true, app_nil. done. Qed.

Lemma len_of_peer d q : len (of_peer d q) = pq_len q.
Proof. unfold of_peer, pq_len, len. rewrite length_fmap, length_app. lia. Qed.

Lemma nz_le_len q : nz q <= pq_len q.
Proof.
  unfold nz. destruct (pq_is_empty q) eqn:E; [unfold pq_len, len; lia|].
  assert (H : pq_small q ++ pq_bulk q <> []) by (intros X; apply pq_is_empty_spec in X; rewrite X in E; done).
  unfold pq_len, len. rewrite <- Nat2Z.inj_add, <- length_app. destruct (pq_small q ++ pq_bulk q); [done|cbn; lia].
Qed.

Lemma nz_0_items d q : nz q = 0 -> of_peer d q = [].
Proof.
  unfold nz, of_peer. destruct (pq_is_empty q) eqn:E; [|lia]. intros _. apply pq_is_empty_spec in E. by rewrite E.
Qed.

Lemma peer_items_app m1 m2 : peer_items (m1 ++ m2) = peer_items m1 ++ peer_items m2.
Proof. induction m1 as [|[d q] m1 IH]; cbn; [done|]. by rewrite IH, app_assoc. Qed.
Lemma busy_app m1 m2 : busy (m1 ++ m2) = busy m1 + busy m2.
Proof. induction m1 as [|[d q] m1 IH]; cbn; lia. Qed.
Lemma busy_range m : 0 <= busy m <= len (peer_items m).
Proof.
  induction m as [|[d q] m IH]; cbn; [done|]. unfold len in *. rewrite length_app, Nat2Z.inj_add.
  pose proof (nz_range q). pose proof (nz_le_len q). pose proof (len_of_peer d q). unfold len in *. lia.
Qed.
Lemma busy_count m : busy m = len (filter (fun x : SocketAddr * PeerDataQueue => pq_is_empty x.2 = false) m).
Proof.
  induction m as [|[d q] m IH]; [done|]. cbn [busy]. unfold nz. destruct (pq_is_empty q) eqn:E.
  - rewrite filter_cons_False by (cbn; rewrite E; intros X; discriminate X). lia.
  - rewrite filter_cons_True by done. unfold len in *. cbn [length]. lia.
Qed.

(** [m'] is [m] with the queue [q] of [d] replaced by [q']. *)
Definition swaps (d : SocketAddr) (q q' : PeerDataQueue) (m m' : list (SocketAddr * PeerDataQueue)) : Prop :=
  NoDup m.*1 -> NoDup m'.*1 /\ of_peer d q ++ peer_items m' ≡ₚ of_peer d q' ++ peer_items m /\ busy m' = busy m - nz q + nz q'.

Lemma swaps_middle d q q' l1 l2 : swaps d q q' (l1 ++ (d, q) :: l2) (l1 ++ (d, q') :: l2).
Proof.
  intros N. rewrite !fmap_app in *. cbn [fmap list_fmap fst] in *. split; [done|].
  rewrite !peer_items_app, !busy_app. cbn [peer_items busy]. split; [|lia].
  rewrite !(Permutation_app_comm (peer_items l1)), <- !app_assoc. apply Permutation_app_swap_app.
Qed.

Lemma swaps_insert m idx d q q' : m !! idx = Some (d, q) -> swaps d q q' m (<[idx := (d, q')]> m).
Proof.
  intros L. assert (idx < length m)%nat by (by eapply lookup_lt_Some).
  rewrite insert_take_drop by done. pattern m at 1. rewrite <- (take_drop_middle m idx _ L). apply swaps_middle.
Qed.

Lemma im_get_notin m d : im_get m d = None <-> d ∉ m.*1.
Proof.
  induction m as [|[a q] m IH]; cbn; [set_solver|]. case_bool_decide; [subst; split; [done|set_solver]|].
  rewrite IH, not_elem_of_cons. naive_solver.
Qed.

Lemma im_upsert_split m d f :
  (exists l1 l2 q, m = l1 ++ (d, q) :: l2 /\ im_get m d = Some q /\ im_upsert m d f = l1 ++ (d, f q) :: l2) \/
  (im_get m d = None /\ im_upsert m d f = m ++ [(d, f new_peer_queue)]).
Proof.
  induction m as [|[a q] m IH]; cbn; [by right|]. case_bool_decide as E.
  - subst. left. exists [], m, q. done.
  - destruct IH as [(l1&l2&q0&->&G&U)|[G U]]; [left|right].
    + exists ((a, q) :: l1), l2, q0. rewrite U. done.
    + rewrite U. done.
Qed.

Lemma swaps_upsert m d f :
  let q := default new_peer_queue (im_get m d) in swaps d q (f q) m (im_upsert m d f).
Proof.
  cbv zeta. destruct (im_upsert_split m d f) as [(l1&l2&q&->&G&U)|[G U]]; rewrite G, U; cbn [default].
  - apply swaps_middle.
  - intros N. apply im_get_notin in G. rewrite fmap_app, peer_items_app, busy_app. cbn. repeat split.
    + apply NoDup_app. split_and!; [done|set_solver|apply NoDup_singleton].
    + rewrite app_nil_r. apply Permutation_app_comm.
    + lia.
Qed.

Lemma im_upsert_ext m d f g :
  f (default new_peer_queue (im_get m d)) = g (default new_peer_queue (im_get m d)) -> im_upsert m d f = im_upsert m d g.
Proof.
  induction m as [|[a q] m IH]; cbn; [by intros ->|]. case_bool_decide; cbn; [by intros ->|]. intros E. by rewrite IH.
Qed.

(** ** What the books depend on *)

Definition strip (x : SocketAddr * PeerDataQueue) : SocketAddr * (list QueuedData * list QueuedData) :=
  (x.1, (pq_small x.2, pq_bulk x.2)).
Definition books (e : PacingEngine) :=
  (pe_control_q e, pe_retransmit_q e, strip <$> pe_peer_queues e,
   (pe_non_empty_peers e, pe_queued_packets_total e, pe_dropped_packets e)).

Lemma strip_items m m' : strip <$> m = strip <$> m' -> peer_items m = peer_items m' /\ busy m = busy m' /\ m.*1 = m'.*1.
Proof.
  revert m'. induction m as [|[d q] m IH]; intros [|[d' q'] m'] E; [done|discriminate E|discriminate E|].
  injection E as -> Es Eb E. destruct (IH _ E) as (A & B & C). cbn. rewrite A, B, C. repeat split.
  - by unfold of_peer; rewrite Es, Eb.
  - unfold nz, pq_is_empty. by rewrite Es, Eb.
Qed.

Lemma books_eq e e' :
  books e = books e' -> queued e = queued e' /\ busy (pe_peer_queues e) = busy (pe_peer_queues e') /\ (pacing_ok e -> pacing_ok e').
Proof.
  intros E. injection E as Ec Er Ep En Et Ed. destruct (strip_items _ _ Ep) as (A & B & C).
  assert (Q : queued e = queued e') by (unfold queued; by rewrite Ec, Er, A).
  split_and!; [done|done|]. intros [K T U F D]. split.
  - by rewrite <- C.
  - by rewrite <- Et, T, Q.
  - by rewrite <- En, U, B.
  - by rewrite <- Q.
  - by rewrite <- Ed.
Qed.

Lemma len_perm {A} (l k : list A) : l ≡ₚ k -> len l = len k.
Proof. intros P. unfold len. by rewrite (Permutation_length P). Qed.

Lemma sat_add_0 d : 0 <= d <= U64_MAX -> sat_add U64_MAX d 0 = d.
Proof. unfold sat_add. lia. Qed.

Lemma ledger_same e e' : books e = books e' -> ledger e e' [] [] [].
Proof.
  intros E Ok _. destruct (books_eq _ _ E) as (Q & _ & K). split_and!; [by apply K|by rewrite Q|].
  injection E as _ _ _ _ _ <-. cbn. symmetry. apply sat_add_0, Ok.
Qed.

(** Ledgers add up when nothing comes in. *)
Lemma ledger_trans e1 e2 e3 o1 o2 d1 d2 :
  ledger e1 e2 o1 d1 [] -> ledger e2 e3 o2 d2 [] -> ledger e1 e3 (o1 ++ o2) (d1 ++ d2) [].
Proof.
  intros L1 L2 Ok F. destruct (L1 Ok F) as (Ok2 & P1 & D1). cbn in P1.
  destruct (L2 Ok2) as (Ok3 & P2 & D2); [pose proof (ok_fits _ Ok2); unfold len in *; cbn [length]; lia|]. cbn in P2.
  split_and!; [done| |].
  - cbn. rewrite <- P1, <- P2. solve_Permutation.
  - rewrite D2, D1, len_app. pose proof (ok_drops _ Ok). unfold sat_add, len in *. lia.
Qed.

Lemma ledger_after e1 e2 e3 o d : books e1 = books e2 -> ledger e2 e3 o d [] -> ledger e1 e3 o d [].
Proof. intros E L. exact (ledger_trans _ _ _ [] o [] d (ledger_same _ _ E) L). Qed.
Lemma ledger_before e1 e2 e3 o d : ledger e1 e2 o d [] -> books e2 = books e3 -> ledger e1 e3 o d [].
Proof.
  intros L E. pose proof (ledger_trans _ _ _ _ _ _ _ L (ledger_same _ _ E)) as H. by rewrite !app_nil_r in H.
Qed.

(** What is left to show of an operation when the order of the packets is known. *)
Lemma ledger_intro e e' out drops inn :
  (pacing_ok e -> len inn + len (queued e) <= U64_MAX ->
   NoDup (pe_peer_queues e').*1 /\ out ++ drops ++ queued e' ≡ₚ inn ++ queued e /\
   pe_queued_packets_total e' = len inn + len (queued e) - len out - len drops /\
   pe_non_empty_peers e' = busy (pe_peer_queues e') /\
   pe_dropped_packets e' = sat_add U64_MAX (pe_dropped_packets e) (len drops)) ->
  ledger e e' out drops inn.
Proof.
  intros H Ok F. destruct (H Ok F) as (K & P & T & B & D). pose proof (len_perm _ _ P) as L. rewrite !len_app in L.
  assert (0 <= len out /\ 0 <= len drops) by (unfold len; lia).
  split_and!; [split|done|done]; [done| |done| |].
  - lia.
  - lia.
  - rewrite D. pose proof (ok_drops _ Ok). unfold sat_add. lia.
Qed.

(** ** Taking packets *)

Lemma items_nonempty q : pq_is_empty q = false -> nz q = 1.
Proof. unfold nz. by intros ->. Qed.

Lemma pop_fifo_by_age_items q :
  pq_is_empty q = false ->
  exists p, (pop_fifo_by_age q).2 = Some p /\
            pq_small q ++ pq_bulk q ≡ₚ p :: pq_small (pop_fifo_by_age q).1 ++ pq_bulk (pop_fifo_by_age q).1.
Proof.
  unfold pop_fifo_by_age, small_is_older, pq_is_empty, pop_small, pop_bulk_front.
  destruct q as [[|s sm] [|b bk] df cn r qd]; cbn; intros E; try discriminate E.
  - exists b. done.
  - exists s. done.
  - destruct (qd_at s <=? qd_at b); cbn; [exists s|exists b]; split; try done. solve_Permutation.
Qed.

Lemma should_force_bulk_has q now : should_force_bulk q now = true -> pq_bulk q <> [].
Proof. unfold should_force_bulk. case_bool_decide; [intros E; discriminate E|done]. Qed.

Lemma pop_data_items q on now :
  match pop_data q on now with
  | (q', Some (p, _)) => pq_is_empty q = false /\ pq_small q ++ pq_bulk q ≡ₚ p :: pq_small q' ++ pq_bulk q'
  | (q', None) => pq_is_empty q = true /\ q' = q
  end.
Proof.
  unfold pop_data. destruct (pq_is_empty q) eqn:Em; [done|]. destruct on; cbn [negb].
  2: { destruct (pop_fifo_by_age_items q Em) as (p & A & B). unfold tagged. rewrite A. cbn. done. }
  destruct (should_force_bulk q now) eqn:Fb.
  - apply should_force_bulk_has in Fb. unfold tagged, pop_bulk_front. destruct q as [sm [|b bk] df cn r qd]; cbn in *; [done|].
    split; [done|]. solve_Permutation.
  - case_bool_decide as Es; cbn [negb]; unfold tagged, pop_bulk_front, pop_small.
    + destruct q as [sm [|b bk] df cn r qd]; cbn in *; subst sm; [discriminate Em|done].
    + destruct q as [[|s sm] bk df cn r qd]; cbn in *; [done|]. done.
Qed.

Definition item (i : NextPacket) : Pkt := (next_pkt i, next_dest i).
Definition popped (r : option NextPacket) : list Pkt := match r with Some i => [item i] | None => [] end.

Lemma pop_control_ledger e : ledger e (pop_control_for_send e).1 (popped (pop_control_for_send e).2) [] [].
Proof.
  unfold pop_control_for_send. destruct (pe_control_q e) as [|q l] eqn:E; [by apply ledger_same|].
  apply ledger_intro. intros Ok F. destruct Ok as [K T B Fit D]. cbn. unfold queued in *. rewrite E in *. cbn in *.
  split_and!; [done|done| |done|by rewrite sat_add_0].
  unfold len in *. rewrite T. cbn [length] in *. unfold sat_sub. lia.
Qed.

Lemma pop_retransmit_ledger e : ledger e (pop_retransmit_for_send e).1 (popped (pop_retransmit_for_send e).2) [] [].
Proof.
  unfold pop_retransmit_for_send. destruct (pe_retransmit_q e) as [|q l] eqn:E; [by apply ledger_same|].
  apply ledger_intro. intros Ok F. destruct Ok as [K T B Fit D]. cbn. unfold queued in *. rewrite E in *. cbn in *.
  split_and!; [done|solve_Permutation| |done|by rewrite sat_add_0].
  unfold len in *. rewrite T. rewrite !length_app in *. cbn [length] in *. unfold sat_sub. lia.
Qed.

(** A peer's queue loses [p], and with it perhaps its last packet. *)
Lemma swap_pop_ledger e e' idx d q q' p out drops :
  pe_peer_queues e !! idx = Some (d, q) ->
  pq_is_empty q = false ->
  pq_small q ++ pq_bulk q ≡ₚ p :: pq_small q' ++ pq_bulk q' ->
  out ++ drops = [(qd_pkt p, d)] ->
  pe_control_q e' = pe_control_q e -> pe_retransmit_q e' = pe_retransmit_q e ->
  pe_peer_queues e' = <[idx := (d, q')]> (pe_peer_queues e) ->
  pe_queued_packets_total e' = sat_sub (pe_queued_packets_total e) 1 ->
  pe_non_empty_peers e' = (if pq_is_empty q' then sat_sub (pe_non_empty_peers e) 1 else pe_non_empty_peers e) ->
  (0 <= pe_dropped_packets e <= U64_MAX -> pe_dropped_packets e' = sat_add U64_MAX (pe_dropped_packets e) (len drops)) ->
  ledger e e' out drops [].
Proof.
  intros L Em It Od Ec Er Ep Et En Ed. apply ledger_intro. intros Ok F.
  destruct (swaps_insert _ _ _ _ q' L (ok_keys _ Ok)) as (K & P & B). rewrite <- Ep in *.
  assert (Pi : of_peer d q ≡ₚ [(qd_pkt p, d)] ++ of_peer d q') by (unfold of_peer; rewrite It; done).
  assert (Pp : peer_items (pe_peer_queues e) ≡ₚ [(qd_pkt p, d)] ++ peer_items (pe_peer_queues e')).
  { apply (Permutation_app_inv_l (of_peer d q')). rewrite <- P, Pi. solve_Permutation. }
  pose proof (len_perm _ _ Pp) as Lp. assert (Lo : len out + len drops = 1) by (rewrite <- len_app, Od; done).
  assert (Q : len (queued e) >= 1) by (unfold queued; rewrite !len_app, Lp, len_app; unfold len; cbn [length]; lia).
  split_and!; [done| | | |by apply Ed, Ok].
  - rewrite app_assoc, Od. unfold queued. rewrite Ec, Er, Pp. solve_Permutation.
  - rewrite Et, (ok_total _ Ok). unfold sat_sub. change (len (@nil Pkt)) with 0. lia.
  - rewrite En, (ok_busy _ Ok). rewrite (items_nonempty _ Em) in B. pose proof (busy_range (pe_peer_queues e')). unfold nz, sat_sub in *. destruct (pq_is_empty q'); lia.
Qed.

Lemma books_set_queue e idx d q q' :
  pe_peer_queues e !! idx = Some (d, q) -> pq_small q' = pq_small q -> pq_bulk q' = pq_bulk q -> books e = books (set_queue e idx d q').
Proof.
  intros L Es Eb. unfold books, set_queue. cbn. rewrite list_fmap_insert. do 2 f_equal.
  rewrite list_insert_id; [done|]. rewrite list_lookup_fmap, L. cbn. unfold strip. cbn. by rewrite Es, Eb.
Qed.

Lemma pop_at_ledger e idx now : ledger e (pop_at e idx now).1 (popped (pop_at e idx now).2) [] [].
Proof.
  unfold pop_at. destruct (pe_peer_queues e !! idx) as [[d q]|] eqn:L; [|by apply ledger_same].
  pose proof (pop_data_items q (lane_on e) now) as H. destruct (pop_data q (lane_on e) now) as [q' [[p k]|]].
  - destruct H as [Em It]. cbn.
    apply (swap_pop_ledger _ _ idx d q q' p); [done|done|done|done|..];
      [destruct k, (pq_is_empty q'); reflexivity..|intros D; rewrite sat_add_0 by done; destruct k, (pq_is_empty q'); reflexivity].
  - destruct H as [_ ->]. apply ledger_same. by apply (books_set_queue _ _ _ q).
Qed.

Definition pops (e : PacingEngine) (r : PacingEngine * option NextPacket) : Prop := ledger e r.1 (popped r.2) [] [].

Lemma pops_none e e' : books e = books e' -> pops e (e', None).
Proof. apply ledger_same. Qed.
Lemma pops_after e e1 r : books e = books e1 -> pops e1 r -> pops e r.
Proof. apply ledger_after. Qed.

(** Passing over a source of packets that had none. *)
Lemma pops_pass e e1 r : pops e (e1, None) -> pops e1 r -> pops e r.
Proof. intros A B. exact (ledger_trans _ _ _ _ _ _ _ A B). Qed.

Create HintDb pacing.
#[export] Hint Resolve pop_control_ledger pop_retransmit_ledger pop_at_ledger pops_none : pacing.

Lemma gated_pop_at_pops e idx now : pops e (gated_pop_at e idx now).
Proof.
  unfold gated_pop_at. destruct (pe_peer_queues e !! idx) as [[d q]|]; [|by apply pops_none].
  destruct (_ && _); [by apply pops_none|apply pop_at_ledger].
Qed.

Lemma rr_loop_pops fuel n now e : pops e (rr_loop fuel n now e).
Proof.
  revert e. induction fuel as [|fuel IH]; intros e; cbn [rr_loop]; [apply pop_control_ledger|].
  unfold next_index. set (e1 := e <| pe_drr_cursor := _ |>). apply (pops_after _ e1); [done|].
  pose proof (gated_pop_at_pops e1 (Z.to_nat (pe_drr_cursor e mod Z.of_nat n)) now) as H.
  destruct (gated_pop_at _ _ _) as [e2 [p|]]; [done|]. by apply (pops_pass _ e2).
Qed.

Lemma fifo_loop_pops idxs now e : pops e (fifo_loop idxs now e).
Proof.
  revert e. induction idxs as [|idx idxs IH]; intros e; cbn [fifo_loop]; [apply pop_control_ledger|].
  pose proof (gated_pop_at_pops e idx now) as H.
  destruct (gated_pop_at _ _ _) as [e2 [p|]]; [done|]. by apply (pops_pass _ e2).
Qed.

Lemma drr_visit_pops e idx now : pops e ((drr_visit e idx now).1.1, (drr_visit e idx now).2).
Proof.
  unfold drr_visit. destruct (pe_peer_queues e !! idx) as [[d q]|] eqn:L; [|by apply pops_none].
  destruct (pq_is_empty q); [by apply pops_none, (books_set_queue _ _ _ q)|].
  unfold drr_credit. cbv zeta. set (q1 := q <| pq_deficit := _ |>). set (e1 := set_queue e idx d q1).
  assert (B1 : books e = books e1) by (by apply (books_set_queue _ _ _ q)).
  assert (L1 : pe_peer_queues e1 !! idx = Some (d, q1)).
  { unfold e1, set_queue. cbn. apply list_lookup_insert_eq. by eapply lookup_lt_Some. }
  destruct (_ || _); [by apply pops_none|]. destruct (negb _); [by apply pops_none|].
  match goal with |- context [pop_at ?x ?i ?n] => pose proof (pop_at_ledger x i n) as H; destruct (pop_at x i n) as [e3 r] end.
  apply (pops_after _ e1); [done|]. eapply pops_after; [|exact H]. by apply (books_set_queue _ _ _ q1).
Qed.

Lemma drr_loop_pops fuel n now hits e : pops e (drr_loop fuel n now hits e).
Proof.
  revert e hits. induction fuel as [|fuel IH]; intros e hits; cbn [drr_loop].
  - eapply pops_after; [|apply pop_control_ledger]. done.
  - unfold next_index. set (e1 := e <| pe_drr_cursor := _ |>). apply (pops_after _ e1); [done|].
    pose proof (drr_visit_pops e1 (Z.to_nat (pe_drr_cursor e mod Z.of_nat n)) now) as H.
    destruct (drr_visit _ _ _) as [[e2 hit] [p|]]; [done|]. by apply (pops_pass _ e2).
Qed.

(** ** Ticks *)

Definition tpops (t : Tk) (r : Tk * option NextPacket) : Prop := tk_sent r.1 = tk_sent t /\ pops (tk_e t) (tk_e r.1, r.2).
Definition tledger (t t' : Tk) : Prop :=
  exists s drops, tk_sent t' = tk_sent t ++ s /\ ledger (tk_e t) (tk_e t') s drops [].

Lemma lift_pop_tpops t f : (forall e, pops e (f e)) -> tpops t (lift_pop t f).
Proof. intros H. unfold lift_pop. pose proof (H (tk_e t)) as P. destruct (f (tk_e t)) as [e r]. done. Qed.

Lemma tpops_same t t' : tk_sent t' = tk_sent t -> books (tk_e t) = books (tk_e t') -> tpops t (t', None).
Proof. intros S B. split; [done|]. by apply pops_none. Qed.
Lemma tpops_after t t1 r : tk_sent t1 = tk_sent t -> books (tk_e t) = books (tk_e t1) -> tpops t1 r -> tpops t r.
Proof. intros S B [S1 P]. split; [by rewrite S1|]. by apply (pops_after _ (tk_e t1)). Qed.

Lemma or_pop_tpops t r f : tpops t r -> (forall t1, tpops t1 (f t1)) -> tpops t (or_pop r f).
Proof.
  intros [S P] F. destruct r as [t1 [p|]]; cbn in *; [done|]. destruct (F t1) as [S2 P2].
  split; [by rewrite S2|]. by apply (pops_pass _ (tk_e t1)).
Qed.

Section Env.
Context (env : Env).

Lemma try_pop_control_tpops t : tpops t (try_pop_control_interleaved env t).
Proof.
  unfold try_pop_control_interleaved.
  assert (H : forall a t1, tk_sent t1 = tk_sent t -> tk_e t1 = tk_e t ->
    tpops t (let t2 := on_e t1 (fun e => e <| pe_interleave_counter := wrap 8 (pe_interleave_counter e + 1) |>) in
             if pe_interleave_counter (tk_e t2) mod a =? 0 then lift_pop t2 pop_control_for_send else (t2, None))).
  { intros a t1 S E. cbv zeta. set (t2 := on_e t1 _). apply (tpops_after _ t2); [done|unfold t2; cbn; by rewrite E|].
    destruct (_ =? 0); [apply lift_pop_tpops, pop_control_ledger|by apply tpops_same]. }
  unfold read_clock. cbv zeta. destruct (pe_control_q (tk_e t)).
  - exact (H _ t eq_refl eq_refl).
  - exact (H _ (mkTk (tk_e t) (S (tk_reads t)) (tk_tries t) (tk_sent t)) eq_refl eq_refl).
Qed.

Lemma pop_data_next_tpops t : tpops t (pop_data_next env t).
Proof.
  unfold pop_data_next, read_clock. cbv zeta. set (t1 := t <| tk_reads := _ |>).
  destruct (negb _); [|destruct (_ || _)].
  - apply (tpops_after _ t1); [done|done|]. apply lift_pop_tpops. intros e. apply fifo_loop_pops.
  - apply lift_pop_tpops, pop_control_ledger.
  - apply (tpops_after _ t1); [done|done|]. apply lift_pop_tpops. intros e. apply drr_loop_pops.
Qed.

Lemma pop_data_frozen_tpops t : tpops t (pop_data_frozen env t).
Proof.
  unfold pop_data_frozen, read_clock. set (t1 := t <| tk_reads := _ |>). cbv zeta.
  apply (tpops_after _ t1); [done|done|]. apply lift_pop_tpops. intros e. apply rr_loop_pops.
Qed.

Lemma pop_next_apd_tpops freeze t : tpops t (pop_next_apd env freeze t).
Proof.
  assert (H : forall f, (forall t, tpops t (f t)) ->
    tpops t (or_pop (or_pop (lift_pop t pop_retransmit_for_send) (try_pop_control_interleaved env)) f)).
  { intros f F. apply or_pop_tpops; [apply or_pop_tpops|done]; [|apply try_pop_control_tpops].
    apply lift_pop_tpops, pop_retransmit_ledger. }
  unfold pop_next_apd, pop_next. destruct (negb freeze); apply H; [apply pop_data_next_tpops|apply pop_data_frozen_tpops].
Qed.

(** *** Putting a packet back *)

Lemma books_ok_total e e' : books e = books e' -> pacing_ok e -> pacing_ok e'.
Proof. intros B. apply (books_eq _ _ B). Qed.

(** A packet pushed onto the control or the retransmit queue and counted. *)
Lemma push_queue_ledger e e' (q : QueuedPacket) :
  queued e' ≡ₚ (qp_pkt q, qp_dest q) :: queued e ->
  pe_peer_queues e' = pe_peer_queues e -> pe_non_empty_peers e' = pe_non_empty_peers e ->
  pe_queued_packets_total e' = pe_queued_packets_total e -> pe_dropped_packets e' = pe_dropped_packets e ->
  ledger e (requeued e') [] [] [(qp_pkt q, qp_dest q)].
Proof.
  intros P Ep En Et Ed. apply ledger_intro. intros Ok F. cbn. split_and!.
  - rewrite Ep. apply Ok.
  - done.
  - rewrite Et, (ok_total _ Ok). unfold sat_add, len in *. cbn [length] in *. lia.
  - rewrite En, Ep. apply Ok.
  - rewrite Ed. symmetry. apply sat_add_0, Ok.
Qed.

Lemma phase_put_back_ledger e (retransmit : bool) q :
  ledger e (requeued (if retransmit then push_retransmit_front e q else push_control_front e q)) [] [] [(qp_pkt q, qp_dest q)].
Proof.
  destruct retransmit; apply push_queue_ledger; try done. unfold queued. cbn. solve_Permutation.
Qed.

(** A peer's queue gains [new] and loses [drops]. *)
Lemma upsert_ledger e e' d f new drops :
  let q := default new_peer_queue (im_get (pe_peer_queues e) d) in
  drops ++ of_peer d (f q) ≡ₚ new ++ of_peer d q ->
  pe_control_q e' = pe_control_q e -> pe_retransmit_q e' = pe_retransmit_q e ->
  pe_peer_queues e' = im_upsert (pe_peer_queues e) d f ->
  (0 <= pe_queued_packets_total e -> pe_queued_packets_total e + len new <= U64_MAX ->
   pe_queued_packets_total e' = pe_queued_packets_total e + len new - len drops) ->
  (0 <= pe_non_empty_peers e -> pe_non_empty_peers e + nz (f q) - nz q <= U64_MAX ->
   pe_non_empty_peers e' = pe_non_empty_peers e + nz (f q) - nz q) ->
  (0 <= pe_dropped_packets e <= U64_MAX -> pe_dropped_packets e' = sat_add U64_MAX (pe_dropped_packets e) (len drops)) ->
  ledger e e' [] drops new.
Proof.
  intros q It Ec Er Ep Et En Ed. apply ledger_intro. intros Ok F.
  destruct (swaps_upsert (pe_peer_queues e) d f (ok_keys _ Ok)) as (K & P & B). fold q in P, B. rewrite <- Ep in *.
  assert (Pp : drops ++ peer_items (pe_peer_queues e') ≡ₚ new ++ peer_items (pe_peer_queues e)).
  { apply (Permutation_app_inv_l (of_peer d q)). rewrite !app_assoc, (Permutation_app_comm (of_peer d q) drops), <- app_assoc, P.
    rewrite app_assoc, It. solve_Permutation. }
  assert (Q : drops ++ queued e' ≡ₚ new ++ queued e).
  { unfold queued. rewrite Ec, Er. transitivity (of_ctrl (pe_control_q e) ++ of_ctrl (pe_retransmit_q e) ++ drops ++ peer_items (pe_peer_queues e'));
      [solve_Permutation|]. rewrite Pp. solve_Permutation. }
  pose proof (busy_range (pe_peer_queues e')). pose proof (busy_range (pe_peer_queues e)).
  assert (Fp : len (peer_items (pe_peer_queues e')) <= U64_MAX).
  { pose proof (len_perm _ _ Pp) as L. unfold queued in F. rewrite !len_app in *. unfold len in *. lia. }
  assert (Nn : 0 <= len (queued e)) by (unfold len; lia).
  split_and!; [done|done| | |by apply Ed, Ok].
  - rewrite Et, (ok_total _ Ok); [|rewrite (ok_total _ Ok); lia..]. change (len (@nil Pkt)) with 0. lia.
  - rewrite En; rewrite (ok_busy _ Ok); lia.
Qed.

Lemma push_front_items d q p on thr : of_peer d (push_front_requeue q p on thr) ≡ₚ (qd_pkt p, d) :: of_peer d q.
Proof.
  unfold push_front_requeue, of_peer. destruct (is_small_packet _ _ _); cbn; [done|]. rewrite !fmap_app. cbn. solve_Permutation.
Qed.
Lemma push_back_items d q p on thr : of_peer d (push_back_classified q p on thr) ≡ₚ (qd_pkt p, d) :: of_peer d q.
Proof.
  unfold push_back_classified, of_peer. destruct (is_small_packet _ _ _); cbn; rewrite !fmap_app; cbn; solve_Permutation.
Qed.
Lemma push_front_nonempty q p on thr : pq_is_empty (push_front_requeue q p on thr) = false.
Proof.
  unfold push_front_requeue, pq_is_empty. destruct (is_small_packet _ _ _); cbn; [done|]. by rewrite andb_false_r.
Qed.

Lemma put_back_ledger e i : ledger e (requeued (put_back e i)) [] [] [item i].
Proof.
  destruct i as [q|p d at_]; [apply (phase_put_back_ledger e false)|].
  apply (upsert_ledger e _ d (fun q => push_front_requeue q (mkQD p at_) (lane_on e) (lane_threshold e)));
    cbn; unfold requeue_data_at_front; try (destruct (pq_is_empty _); done).
  - by rewrite push_front_items.
  - intros A B. destruct (pq_is_empty _); cbn; unfold sat_add, len in *; cbn [length] in *; lia.
  - unfold nz. rewrite push_front_nonempty. destruct (pq_is_empty _); cbn; unfold sat_add; lia.
  - intros D. rewrite sat_add_0 by done. by destruct (pq_is_empty _).
Qed.

(** *** Attempts *)

Lemma ledger_books_r e e1 e2 o d i : ledger e e1 o d i -> books e1 = books e2 -> ledger e e2 o d i.
Proof.
  intros L B Ok F. destruct (L Ok F) as (Ok1 & P & D). destruct (books_eq _ _ B) as (Q & _ & K).
  split_and!; [by apply K|by rewrite <- Q|]. injection B as _ _ _ _ _ <-. done.
Qed.

(** An attempt to send [x]: it was sent, or it is back in a queue. *)
Definition attempts (x : Pkt) (t t' : Tk) : Prop :=
  (tk_sent t' = tk_sent t ++ [x] /\ books (tk_e t) = books (tk_e t')) \/
  (tk_sent t' = tk_sent t /\ ledger (tk_e t) (tk_e t') [] [] [x]).

Lemma attempt_after_pop x t t1 t2 :
  tk_sent t1 = tk_sent t -> ledger (tk_e t) (tk_e t1) [x] [] [] -> attempts x t1 t2 -> tledger t t2.
Proof.
  intros S L [[S2 B]|[S2 L2]].
  - exists [x], []. split; [by rewrite S2, S|]. by apply (ledger_before _ (tk_e t1)).
  - exists [], []. split; [by rewrite S2, S, app_nil_r|]. intros Ok F. destruct (L Ok F) as (Ok1 & P & D). cbn in P.
    destruct (L2 Ok1) as (Ok2 & P2 & D2).
    { rewrite <- len_app. cbn [app]. rewrite (len_perm _ _ P). apply Ok. }
    split_and!; [done| |].
    + cbn in *. by rewrite P2.
    + rewrite D2, D. pose proof (ok_drops _ Ok). unfold sat_add, len. cbn. lia.
Qed.

Lemma send_failed_books t r dest : books (tk_e t) = books (tk_e (send_failed t r dest).1) /\ tk_sent (send_failed t r dest).1 = tk_sent t.
Proof. destruct r; split; reflexivity. Qed.

Lemma failed_attempt x t r dest e1 :
  ledger (tk_e t) e1 [] [] [x] -> attempts x t (send_failed (t <| tk_tries := S (tk_tries t) |> <| tk_e := e1 |>) r dest).1.
Proof.
  intros L. right. set (t1 := t <| tk_tries := _ |> <| tk_e := _ |>). destruct (send_failed_books t1 r dest) as [B ->].
  split; [done|]. by apply (ledger_books_r _ e1).
Qed.

Lemma try_send_queued_attempts t q retransmit :
  attempts (qp_pkt q, qp_dest q) t (try_send_queued_packet env t q retransmit).1.
Proof.
  unfold try_send_queued_packet, try_send. cbv zeta. pose proof (phase_put_back_ledger (tk_e t) retransmit q) as L.
  destruct (env_send env (tk_tries t)) eqn:R; [by left| |].
  - exact (failed_attempt _ t WouldBlock (qp_dest q) _ L).
  - exact (failed_attempt _ t SendErr (qp_dest q) _ L).
Qed.

Lemma try_send_next_attempts t i drain : attempts (item i) t (try_send_next_packet env t i drain).1.
Proof.
  unfold try_send_next_packet, try_send. cbv zeta. pose proof (put_back_ledger (tk_e t) i) as L.
  destruct (env_send env (tk_tries t)) eqn:R.
  - left. destruct i, (_ && _); split; reflexivity.
  - exact (failed_attempt _ t WouldBlock (next_dest i) _ L).
  - exact (failed_attempt _ t SendErr (next_dest i) _ L).
Qed.

(** *** The loops *)

Lemma tledger_same t t' : tk_sent t' = tk_sent t -> books (tk_e t) = books (tk_e t') -> tledger t t'.
Proof. intros S B. exists [], []. split; [by rewrite S, app_nil_r|]. by apply ledger_same. Qed.
Lemma tledger_trans t1 t2 t3 : tledger t1 t2 -> tledger t2 t3 -> tledger t1 t3.
Proof.
  intros (s1 & d1 & S1 & L1) (s2 & d2 & S2 & L2). exists (s1 ++ s2), (d1 ++ d2).
  split; [by rewrite S2, S1, app_assoc|]. by apply (ledger_trans _ (tk_e t2)).
Qed.
Lemma tledger_after t1 t2 t3 : tk_sent t2 = tk_sent t1 -> books (tk_e t1) = books (tk_e t2) -> tledger t2 t3 -> tledger t1 t3.
Proof. intros S B. by apply tledger_trans, tledger_same. Qed.

Lemma phase_pop_ledger retransmit e q l :
  phase_queue retransmit e = q :: l -> ledger e (phase_pop retransmit e) [(qp_pkt q, qp_dest q)] [] [].
Proof.
  destruct retransmit; cbn [phase_queue]; intros E; unfold phase_pop; rewrite E.
  - pose proof (pop_retransmit_ledger e) as H. unfold pop_retransmit_for_send in H. rewrite E in *. exact H.
  - pose proof (pop_control_ledger e) as H. unfold pop_control_for_send in H. rewrite E in *. exact H.
Qed.

Lemma reserved_loop_tledger fuel retransmit deadline initial remaining t :
  tledger t (reserved_loop env fuel retransmit deadline initial remaining t).1.
Proof.
  revert remaining t. induction fuel as [|fuel IH]; intros remaining t; cbn [reserved_loop]; [by apply tledger_same|].
  destruct (remaining <=? 0); [by apply tledger_same|]. unfold read_clock. set (t1 := t <| tk_reads := _ |>).
  apply (tledger_after _ t1); [done|done|]. cbv iota beta.
  destruct (_ || _); [by apply tledger_same|]. destruct (phase_queue retransmit (tk_e t1)) as [|q l] eqn:E; [by apply tledger_same|].
  destruct (_ || _); [by apply tledger_same|]. set (t2 := on_e t1 (phase_pop retransmit)).
  pose proof (attempt_after_pop _ t1 t2 _ eq_refl (phase_pop_ledger _ _ _ _ E) (try_send_queued_attempts t2 q retransmit)) as H.
  destruct (try_send_queued_packet env t2 q retransmit) as [t3 [[]|[tr|]]]; cbn [fst] in *; [|done|done].
  apply (tledger_trans _ t3); [done|]. set (t4 := on_e t3 (phase_count retransmit)).
  apply (tledger_after _ t4); [done|by destruct retransmit|]. apply IH.
Qed.

Lemma drain_reserved_tledger deadline t : tledger t (drain_reserved_prefix env deadline t).1.
Proof.
  unfold drain_reserved_prefix, reserved_phase. cbv zeta. destruct (_ && _); [by apply tledger_same|].
  match goal with |- context [reserved_loop env ?a ?b ?c ?d ?f ?g] => pose proof (reserved_loop_tledger a b c d f g) as H end.
  destruct (reserved_loop env _ true _ _ _ _) as [t1 [tr|]]; cbn [fst] in *; [done|].
  apply (tledger_trans _ t1); [done|]. apply reserved_loop_tledger.
Qed.

Lemma burst_loop_tledger burst freeze deadline t : tledger t (burst_loop env burst freeze deadline t).1.
Proof.
  revert t. induction burst as [|burst IH]; intros t; cbn [burst_loop]; [by apply tledger_same|].
  unfold read_clock. set (t1 := t <| tk_reads := _ |>). cbv iota beta. apply (tledger_after _ t1); [done|done|].
  destruct (_ || _); [by apply tledger_same|]. destruct (pop_next_apd_tpops freeze t1) as [S P].
  destruct (pop_next_apd env freeze t1) as [t2 [i|]]; cbn [fst snd] in *.
  - pose proof (attempt_after_pop _ t1 t2 _ S P (try_send_next_attempts t2 i true)) as H.
    destruct (try_send_next_packet env t2 i true) as [t3 [[]|[tr|]]]; cbn [fst] in *; [|done|done].
    apply (tledger_trans _ t3); [done|]. apply IH.
  - exists [], []. split; [by rewrite S, app_nil_r|]. exact P.
Qed.

(** *** Shedding *)

Lemma shed_pop_ledger e idx d q p l :
  pe_peer_queues e !! idx = Some (d, q) -> pq_bulk q = p :: l ->
  ledger e (pop_bulk_at e idx <| pe_queued_packets_total := sat_sub (pe_queued_packets_total (pop_bulk_at e idx)) 1 |>
              <| pe_shed_sojourn := bump (pe_shed_sojourn (pop_bulk_at e idx)) |>
              <| pe_dropped_packets := bump (pe_dropped_packets (pop_bulk_at e idx)) |>) [] [(qd_pkt p, d)] [].
Proof.
  intros L Bk. unfold pop_bulk_at. rewrite L. cbn [pop_bulk_front fst].
  set (q' := q <| pq_bulk := drop 1 (pq_bulk q) |>).
  apply (swap_pop_ledger _ _ idx d q q' p); [done| | |done|..]; try (destruct (pq_is_empty q'); reflexivity).
  - unfold pq_is_empty. rewrite Bk, andb_false_r. done.
  - cbn. rewrite Bk. cbn. solve_Permutation.
Qed.

Lemma shed_loop_tledger fuel t n dropped now deadline : tledger t (shed_loop env fuel t n dropped now deadline).
Proof.
  revert t dropped. induction fuel as [|fuel IH]; intros t dropped; cbn [shed_loop]; [by apply tledger_same|].
  destruct (_ <=? dropped); [by apply tledger_same|]. unfold read_clock. set (t1 := t <| tk_reads := _ |>). cbv iota beta.
  apply (tledger_after _ t1); [done|done|]. destruct (deadline <=? _); [by apply tledger_same|].
  set (idx := Z.to_nat _). set (t2 := on_e t1 _). apply (tledger_after _ t2); [done|done|].
  destruct (pe_peer_queues (tk_e t2) !! idx) as [[d q]|] eqn:L; [|apply IH].
  unfold bulk_front_sojourn_ms. destruct (pq_bulk q) as [|p l] eqn:Bk; cbn [head fmap option_fmap option_map]; [apply IH|].
  destruct (f_lt _ _); [|apply IH]. eapply tledger_trans; [|apply IH].
  exists [], [(qd_pkt p, d)]. split; [by rewrite app_nil_r|]. exact (shed_pop_ledger _ _ _ _ _ _ L Bk).
Qed.

Lemma refill_books e now : books e = books (refill e now).
Proof.
  unfold refill. cbv zeta. destruct (_ =? 0); [|reflexivity]. unfold refresh_drr_rtt_ref. destruct (_ || _); reflexivity.
Qed.

Lemma tick_decision_same t now :
  tk_sent (tick_decision env t now).1 = tk_sent t /\ books (tk_e t) = books (tk_e (tick_decision env t now).1).
Proof.
  unfold tick_decision, read_clock. cbv zeta. destruct (ac_enabled _); [|done].
  destruct (apd_pressure_scan _ _) as [hol any_cc]. destruct (apd_step _ _ _ _ _ _ _ _) as [s dec]. done.
Qed.

Lemma tick_ledger e : exists drops, ledger e (tk_e (tick_with env e).1) (tk_sent (tick_with env e).1) drops [].
Proof.
  assert (H : tledger (mkTk e 0 0 []) (tick_with env e).1); [|destruct H as (s & d & -> & L); by exists d].
  unfold tick_with, read_clock. cbv iota beta zeta. set (t1 := on_e _ _).
  apply (tledger_after _ t1); [done|apply refill_books|].
  destruct (tick_decision_same t1 (env_clock env 0)) as [S B].
  destruct (tick_decision _ _ _) as [t2 [burst freeze]]. cbn [fst] in *. apply (tledger_after _ t2); [done|done|].
  set (deadline := _ + _). assert (Sh : tledger t2 (shed_stale_bulk_rr env t2 (env_clock env 0) deadline)).
  { unfold shed_stale_bulk_rr. destruct (_ || _); [by apply tledger_same|apply shed_loop_tledger]. }
  apply (tledger_trans _ _ _ Sh). pose proof (drain_reserved_tledger deadline (shed_stale_bulk_rr env t2 (env_clock env 0) deadline)) as Dr.
  destruct (drain_reserved_prefix _ _ _) as [t3 [tr|]]; cbn [fst] in *; [done|].
  apply (tledger_trans _ _ _ Dr), burst_loop_tledger.
Qed.

End Env.

(** ** Enqueueing *)

Lemma hinted_items d e dest rtt qd :
  of_peer d (hinted_queue e dest rtt qd) = of_peer d (default new_peer_queue (im_get (pe_peer_queues e) dest)) /\
  pq_is_empty (hinted_queue e dest rtt qd) = pq_is_empty (default new_peer_queue (im_get (pe_peer_queues e) dest)).
Proof.
  unfold hinted_queue, apply_peer_qd_hint, apply_peer_rtt_hint. set (q := default _ _).
  destruct rtt as [v|], qd as [w|]; try destruct (f_lt g0 v); try destruct (f_le g0 w); done.
Qed.

Lemma drop_oldest_items d q :
  1 <= pq_len q -> exists p, p :: of_peer d (drop_oldest_for_capacity q) ≡ₚ of_peer d q.
Proof.
  unfold pq_len, drop_oldest_for_capacity, of_peer, len. destruct q as [sm [|b bk] df cn r qd]; cbn; intros L.
  - destruct sm as [|s sm]; [cbn in L; lia|]. by exists (qd_pkt s, d).
  - exists (qd_pkt b, d). rewrite !fmap_app. cbn. solve_Permutation.
Qed.

Lemma push_back_nonempty q p on thr : pq_is_empty (push_back_classified q p on thr) = false.
Proof.
  destruct (pq_is_empty _) eqn:E; [|done]. exfalso. pose proof (push_back_items (mkAddr (V4 0) 0) q p on thr) as P.
  pose proof (nz_0_items (mkAddr (V4 0) 0) (push_back_classified q p on thr)) as N. unfold nz in N. rewrite E in N.
  rewrite (N eq_refl) in P. by apply Permutation_nil_cons in P.
Qed.

Lemma count_non_empty_nz q q' n :
  0 <= n -> n + nz q' - nz q <= U64_MAX -> (pq_is_empty q = false -> pq_is_empty q' = false) ->
  count_non_empty (pq_is_empty q) q' n = n + nz q' - nz q.
Proof.
  unfold count_non_empty, nz. destruct (pq_is_empty q), (pq_is_empty q'); cbn; unfold sat_add; intros A B C;
    first [lia | discriminate (C eq_refl)].
Qed.

Lemma nz_eq q q' : pq_is_empty q = pq_is_empty q' -> nz q = nz q'.
Proof. unfold nz. by intros ->. Qed.

Lemma enqueue_peer_ledger e pkt dest rtt qd now :
  exists drops, ledger e (enqueue_peer_with_hints e pkt dest rtt qd now).1 [] drops [(pkt, dest)].
Proof.
  unfold enqueue_peer_with_hints, pq_push. cbv zeta. set (q := hinted_queue e dest rtt qd).
  destruct (hinted_items dest e dest rtt qd) as [Hi He]. fold q in Hi, He.
  destruct (Z.leb_spec (data_cap e) (pq_len q)) as [Full|Room].
  - destruct (drop_oldest_items dest q) as [p P]; [unfold data_cap in Full; lia|]. exists [p].
    set (q' := push_back_classified _ _ _ _).
    assert (Ne : pq_is_empty q = false).
    { destruct (pq_is_empty q) eqn:E; [|done]. pose proof (nz_0_items dest q) as N. unfold nz in N. rewrite E in N.
      rewrite (N eq_refl) in P. symmetry in P. by apply Permutation_nil_cons in P. }
    apply (upsert_ledger e _ dest (fun _ => q')); [|done|done|done|..]; cbn [fst].
    + unfold q'. rewrite push_back_items, <- Hi. cbn. rewrite Permutation_swap, P. done.
    + intros A B. cbn. unfold len. cbn. lia.
    + intros A B. cbn. rewrite <- (nz_eq _ _ He) in *. apply count_non_empty_nz; [done|done|]. intros _. apply push_back_nonempty.
    + intros D. cbn. unfold bump, len. cbn. done.
  - exists []. set (q' := push_back_classified _ _ _ _).
    apply (upsert_ledger e _ dest (fun _ => q')); [|done|done|done|..]; cbn [fst].
    + unfold q'. rewrite push_back_items, <- Hi. done.
    + intros A B. cbn. unfold sat_add, len in *. cbn [length] in *. lia.
    + intros A B. cbn. rewrite <- (nz_eq _ _ He) in *. apply count_non_empty_nz; [done|done|]. intros _. apply push_back_nonempty.
    + intros D. cbn. by rewrite sat_add_0.
Qed.

Lemma push_all_items d on thr pkts q :
  of_peer d (foldl (fun q (x : bytes * Instant) => push_back_classified q (mkQD x.1 x.2) on thr) q pkts) ≡ₚ
  ((fun x => (x.1, d)) <$> pkts) ++ of_peer d q.
Proof.
  revert q. induction pkts as [|x pkts IH]; intros q; [done|]. cbn [foldl]. rewrite IH, push_back_items. cbn. solve_Permutation.
Qed.

(** What a batch brings in: everything or nothing. *)
Definition batch_in (ok : bool) (dest : SocketAddr) (pkts : list (bytes * Instant)) : list Pkt :=
  if ok then (fun x => (x.1, dest)) <$> pkts else [].

Lemma put_queue_hinted_ledger e dest rtt qd : ledger e (put_queue e dest (hinted_queue e dest rtt qd)) [] [] [].
Proof.
  destruct (hinted_items dest e dest rtt qd) as [Hi He].
  apply (upsert_ledger e _ dest (fun _ => hinted_queue e dest rtt qd)); [by rewrite Hi|done|done|done|..]; cbn.
  - intros A B. unfold len. cbn. lia.
  - rewrite (nz_eq _ _ He). lia.
  - intros D. by rewrite sat_add_0.
Qed.

Lemma enqueue_batch_ledger e dest pkts rtt qd :
  let r := try_enqueue_peer_batch e dest pkts rtt qd in ledger e r.1 [] [] (batch_in r.2 dest pkts).
Proof.
  unfold try_enqueue_peer_batch. cbv zeta. case_bool_decide as Ep; [subst; by apply ledger_same|].
  set (q := hinted_queue e dest rtt qd). destruct (hinted_items dest e dest rtt qd) as [Hi He]. fold q in Hi, He.
  destruct (_ <? _); [apply put_queue_hinted_ledger|]. cbn [fst snd batch_in]. set (q' := foldl _ _ _).
  assert (P : of_peer dest q' ≡ₚ ((fun x => (x.1, dest)) <$> pkts) ++ of_peer dest q) by apply push_all_items.
  assert (Ll : len ((fun x : bytes * Instant => (x.1, dest)) <$> pkts) = len pkts) by (unfold len; by rewrite length_fmap).
  assert (Ne : pq_is_empty q' = false).
  { destruct (pq_is_empty q') eqn:E; [|done]. pose proof (nz_0_items dest q') as N. unfold nz in N. rewrite E in N.
    rewrite (N eq_refl) in P. apply Permutation_nil in P. apply app_nil in P as [P _]. by apply fmap_nil_inv in P. }
  apply (upsert_ledger e _ dest (fun _ => q')); [|done|done|done|..].
  - cbn [app]. by rewrite P, Hi.
  - rewrite Ll. intros A B. cbn. change (len (@nil Pkt)) with 0. unfold sat_add. lia.
  - intros A B. cbn. rewrite <- (nz_eq _ _ He) in *. by apply count_non_empty_nz.
  - intros D. cbn. by rewrite sat_add_0.
Qed.

Lemma iter_sub n x : Z.of_nat n <= x -> Nat.iter n (fun x => sat_sub x 1) x = x - Z.of_nat n.
Proof.
  induction n as [|n IH]; intros H; [cbn; lia|]. change (Nat.iter (S n) ?f x) with (f (Nat.iter n f x)). cbv beta.
  rewrite IH by lia. unfold sat_sub. lia.
Qed.
Lemma iter_bump n x : 0 <= x <= U64_MAX -> Nat.iter n bump x = sat_add U64_MAX x (Z.of_nat n).
Proof.
  intros R. induction n as [|n IH]; [symmetry; by apply sat_add_0|]. change (Nat.iter (S n) bump x) with (bump (Nat.iter n bump x)).
  rewrite IH. unfold bump, sat_add. lia.
Qed.

(** A queue that evicts its oldest packets to make room. *)
Lemma evicting_ledger e e' q l (n : nat) (p : QueuedPacket) :
  (n <= length l)%nat -> queued e ≡ₚ of_ctrl l ++ q -> queued e' ≡ₚ of_ctrl (drop n l ++ [p]) ++ q ->
  pe_peer_queues e' = pe_peer_queues e -> pe_non_empty_peers e' = pe_non_empty_peers e ->
  pe_queued_packets_total e' = sat_add U64_MAX (Nat.iter n (fun x => sat_sub x 1) (pe_queued_packets_total e)) 1 ->
  pe_dropped_packets e' = Nat.iter n bump (pe_dropped_packets e) ->
  ledger e e' [] (of_ctrl (take n l)) [(qp_pkt p, qp_dest p)].
Proof.
  intros Hn Q Q' Ep En Et Ed. apply ledger_intro. intros Ok F.
  assert (Lt : len (of_ctrl (take n l)) = Z.of_nat n) by (unfold len, of_ctrl; rewrite length_fmap, length_take; lia).
  assert (Lq : Z.of_nat n <= len (queued e)).
  { rewrite (len_perm _ _ Q), len_app. unfold of_ctrl, len. rewrite length_fmap. lia. }
  split_and!.
  - rewrite Ep. apply Ok.
  - cbn [app]. rewrite Q', Q. rewrite <- (take_drop n l) at 3. unfold of_ctrl. rewrite !fmap_app. cbn. solve_Permutation.
  - rewrite Et, (ok_total _ Ok), iter_sub by done. rewrite Lt. unfold len in *. cbn [length] in *. unfold sat_add. lia.
  - rewrite En, Ep. apply Ok.
  - rewrite Ed, Lt. apply iter_bump, Ok.
Qed.

Lemma evicted_le q cap : 1 <= cap -> (evicted q cap <= length q)%nat.
Proof. unfold evicted, len. lia. Qed.

Lemma enqueue_control_ledger e pkt dest now :
  exists drops, ledger e (enqueue_control e pkt dest now).1 [] drops [(pkt, dest)].
Proof.
  eexists. apply (evicting_ledger e _ (of_ctrl (pe_retransmit_q e) ++ peer_items (pe_peer_queues e)) (pe_control_q e)
                    (evicted (pe_control_q e) (Z.max (pa_max_control_queue_packets (pe_config e)) 1)) (mkQP pkt dest now));
    [apply evicted_le; lia|done|done|done|done|done|done].
Qed.

Lemma enqueue_retransmit_ledger e pkt dest now :
  exists drops, ledger e (enqueue_retransmit e pkt dest now).1 [] drops [(pkt, dest)].
Proof.
  eexists. apply (evicting_ledger e _ (of_ctrl (pe_control_q e) ++ peer_items (pe_peer_queues e)) (pe_retransmit_q e)
                    (evicted (pe_retransmit_q e) (Z.max (pa_max_retransmit_queue_packets (pe_config e)) 1)) (mkQP pkt dest now));
    [apply evicted_le; lia| | |done|done|done|done]; unfold queued; cbn; solve_Permutation.
Qed.

(** ** Removal and reconfiguration *)

Lemma im_index_lookup m d idx : im_index_of m d = Some idx -> exists q, m !! idx = Some (d, q).
Proof.
  revert idx. induction m as [|[a q] m IH]; intros idx; cbn; [intros E; discriminate E|]. case_bool_decide as Ea.
  - intros [= <-]. subst. by exists q.
  - intros E. apply fmap_Some_1 in E as (i & Hi & ->). exact (IH i Hi).
Qed.

Lemma delete_books m idx d q :
  m !! idx = Some (d, q) -> NoDup m.*1 ->
  NoDup (delete idx m).*1 /\ peer_items m ≡ₚ of_peer d q ++ peer_items (delete idx m) /\ busy m = nz q + busy (delete idx m).
Proof.
  intros L. rewrite delete_take_drop. pose proof (take_drop_middle m idx _ L) as M.
  generalize dependent (drop (S idx) m). intros l2. generalize dependent (take idx m). intros l1 <-.
  rewrite !fmap_app. cbn [fmap list_fmap fst]. rewrite !peer_items_app, !busy_app. cbn [peer_items busy].
  intros N. split_and!; [|solve_Permutation|lia]. apply NoDup_app in N as (A & B & C). apply NoDup_cons in C as [C1 C2].
  apply NoDup_app. split_and!; [done|set_solver|done].
Qed.

Lemma remove_peer_ledger e dest : exists gone, ledger e (pacing_remove_peer e dest) gone [] [].
Proof.
  unfold pacing_remove_peer. destruct (im_index_of (pe_peer_queues e) dest) as [idx|] eqn:I; [|exists []; by apply ledger_same].
  destruct (im_index_lookup _ _ _ I) as [q L]. rewrite L. cbn [snd]. exists (of_peer dest q).
  set (e1 := if 0 <? pq_len q then _ else _).
  assert (H : ledger e (e1 <| pe_peer_queues := delete idx (pe_peer_queues e1) |>) (of_peer dest q) [] []).
  { apply ledger_intro. intros Ok F. destruct (delete_books _ _ _ _ L (ok_keys _ Ok)) as (K & P & B).
    assert (Ep : pe_peer_queues e1 = pe_peer_queues e) by (unfold e1; by destruct (0 <? _)).
    assert (Lp : pq_len q <= len (queued e)).
    { unfold queued. rewrite !len_app, (len_perm _ _ P), len_app, len_of_peer. unfold len. lia. }
    pose proof (busy_range (delete idx (pe_peer_queues e))). pose proof (nz_le_len q). pose proof (nz_range q).
    cbn. rewrite Ep. change (len (@nil Pkt)) with 0. rewrite len_of_peer. split_and!; [done| | | |].
    - unfold queued. cbn. rewrite P. unfold e1. destruct (0 <? _); cbn; solve_Permutation.
    - unfold e1. destruct (Z.ltb_spec 0 (pq_len q)); cbn; rewrite (ok_total _ Ok); unfold sat_sub, pq_len, len in *; lia.
    - assert (Nz : 0 < pq_len q -> nz q = 1).
      { intros Pos. unfold nz. destruct (pq_is_empty q) eqn:E; [|done]. rewrite <- (len_of_peer dest), (nz_0_items dest q) in Pos;
          [unfold len in Pos; cbn in Pos; lia|unfold nz; by rewrite E]. }
      unfold e1. destruct (Z.ltb_spec 0 (pq_len q)) as [Pos|]; cbn; rewrite (ok_busy _ Ok); unfold sat_sub; [rewrite (Nz Pos) in B|]; lia.
    - unfold e1. rewrite sat_add_0 by apply Ok. by destruct (0 <? _). }
  eapply ledger_before; [exact H|]. cbn. destruct (_ && _); cbn; case_bool_decide; reflexivity.
Qed.

Lemma set_config_ledger e cfg now e' : pacing_set_config e cfg now = Some e' -> ledger e e' [] [] [].
Proof.
  unfold pacing_set_config. destruct (pacing_sanitize cfg) as [c|]; cbn [mbind option_bind]; [|intros E; discriminate E].
  intros E. apply (inj Some) in E. subst e'.
  match goal with |- context [if ?b then reset_apd_runtime_state _ else _] => set (changed := b) end.
  apply ledger_intro. intros [K T B F D] _.
  destruct changed; cbn; (split_and!; [done|done|change (len (@nil Pkt)) with 0; rewrite T; unfold queued; cbn; lia
    |symmetry; apply busy_count|by rewrite sat_add_0]).
Qed.
