(* ===== verification/PacingFair.v ===== *)
(** * Scheduling and failures of the pacing engine (src/net/pacing.rs)

    What a peer, a lane and the socket can count on: [small_lane_bounded], the small lane passes waiting
    bulk at most eight times in a row; [pop_next_work_conserving], a peer whose next packet fits one
    quantum and may be sent keeps the scheduler from idling; [tick_attempts_exact], how a tick's attempts,
    its result and the error count hang together; and what happens to a retransmission whose send fails. *)

From S2P Require Import Prelude Float Tuning BackgroundCc PacingCfg Pacing PacingLedger.

(** ** The lanes of a peer *)

Inductive QueueOp :=
  | QPush (pkt : bytes) (max_depth : Z) (priority_on : bool) (threshold : Z) (now : Instant)
  | QRequeue (entry : QueuedData) (priority_on : bool) (threshold : Z)
  | QPop (priority_on : bool) (now : Instant)
  | QShed
  | QHint (rtt qd : option f32).

(** How often in a row the small lane was served while bulk was waiting. *)
Definition streak_after (q : PeerDataQueue) (k : PeerPopKind) (streak : Z) : Z :=
  match k with
  | SmallPriority => if bool_decide (pq_bulk q = []) then 0 else streak + 1
  | Bulk | BulkForced => 0
  end.

Definition queue_step (s : PeerDataQueue * Z) (op : QueueOp) : PeerDataQueue * Z :=
  let '(q, streak) := s in
  match op with
  | QPush pkt depth on thr now => ((pq_push q pkt depth on thr now).1, streak)
  | QRequeue e on thr => (push_front_requeue q e on thr, streak)
  | QPop on now => let '(q', r) := pop_data q on now in (q', match r with Some (_, k) => streak_after q k streak | None => streak end)
  | QShed => ((pop_bulk_front q).1, streak)
  | QHint rtt qd => (apply_peer_qd_hint (apply_peer_rtt_hint q rtt) qd, streak)
  end.

Definition streak_ok (s : PeerDataQueue * Z) : Prop :=
  0 <= s.2 <= pq_consecutive_small_pops s.1 /\ s.2 <= DRR_SMALL_BULK_FORCE_AFTER /\ pq_consecutive_small_pops s.1 <= U8_MAX.

Lemma streak_ok_same q q' streak :
  pq_consecutive_small_pops q' = pq_consecutive_small_pops q -> streak_ok (q, streak) -> streak_ok (q', streak).
Proof. unfold streak_ok. cbn. by intros ->. Qed.

Lemma pop_fifo_count q : pq_consecutive_small_pops (pop_fifo_by_age q).1 = pq_consecutive_small_pops q.
Proof. unfold pop_fifo_by_age. by destruct (small_is_older q). Qed.

Lemma streak_ok_zero q streak : streak_ok (q, streak) -> forall q' n, pq_consecutive_small_pops q' = n -> 0 <= n <= U8_MAX -> streak_ok (q', 0).
Proof. unfold streak_ok. cbn. intros _ q' n -> R. unfold DRR_SMALL_BULK_FORCE_AFTER. lia. Qed.

Lemma queue_pop_streak q streak on now : streak_ok (q, streak) -> streak_ok (queue_step (q, streak) (QPop on now)).
Proof.
  intros Ok. pose proof (streak_ok_zero _ _ Ok) as Zr. assert (R : 0 <= pq_consecutive_small_pops q <= U8_MAX) by (unfold streak_ok in Ok; cbn in Ok; lia).
  assert (R0 : 0 <= 0 <= U8_MAX) by (unfold U8_MAX; lia).
  cbn [queue_step]. unfold pop_data. destruct (pq_is_empty q) eqn:Em; [done|]. destruct on; cbn [negb].
  2: { pose proof (pop_fifo_count q) as C. destruct (pop_fifo_by_age_items q Em) as (p & E & _).
       destruct (pop_fifo_by_age q) as [q' r]. cbn in *. subst r. cbn. by apply (Zr _ _ C). }
  destruct (should_force_bulk q now) eqn:Fb.
  { apply should_force_bulk_has in Fb. unfold tagged, pop_bulk_front. destruct (pq_bulk q) as [|b bk] eqn:Eb; [done|]. cbn. rewrite Eb. cbn.
    by apply (Zr _ 0). }
  unfold tagged, pop_bulk_front, pop_small. case_bool_decide as Es; cbn [negb].
  - destruct q as [sm [|b bk] df cn r qd]; cbn in *; subst sm; [discriminate Em|]. by apply (Zr _ 0).
  - destruct q as [[|s0 sm] bk df cn r qd]; cbn in *; [done|]. unfold should_force_bulk in Fb. cbn in Fb.
    case_bool_decide as Ebk; unfold streak_ok in *; cbn in *; unfold sat_add, U8_MAX, DRR_SMALL_BULK_FORCE_AFTER in *; [lia|].
    apply orb_false_iff in Fb as [Fb _]. apply Z.leb_gt in Fb. lia.
Qed.

Lemma queue_step_streak s op : streak_ok s -> streak_ok (queue_step s op).
Proof.
  destruct s as [q streak]. intros Ok. destruct op as [pkt depth on thr now|e on thr|on now| |rtt qd]; cbn [queue_step].
  - apply (streak_ok_same q); [|done]. unfold pq_push, push_back_classified, drop_oldest_for_capacity.
    destruct (depth <=? pq_len q), (is_small_packet _ _ _), (pq_bulk q); done.
  - apply (streak_ok_same q); [|done]. unfold push_front_requeue. by destruct (is_small_packet _ _ _).
  - by apply queue_pop_streak.
  - by apply (streak_ok_same q).
  - apply (streak_ok_same q); [|done]. unfold apply_peer_qd_hint, apply_peer_rtt_hint.
    destruct rtt as [v|], qd as [x|]; try destruct (f_lt g0 v); try destruct (f_le g0 x); done.
Qed.

(** Small packets cannot starve bulk: in any history of a peer's queue, whatever is pushed, put back,
    shed and popped at whatever times, the small lane is served at most eight times in a row while a bulk
    packet is waiting. *)
Theorem small_lane_bounded ops : (foldl queue_step (new_peer_queue, 0) ops).2 <= DRR_SMALL_BULK_FORCE_AFTER.
Proof.
  assert (Ok : streak_ok (foldl queue_step (new_peer_queue, 0) ops)).
  { apply foldl_inv; [|apply queue_step_streak]. unfold streak_ok. cbn. unfold DRR_SMALL_BULK_FORCE_AFTER, U8_MAX. lia. }
  apply Ok.
Qed.

(** ** Deficit round robin *)

(** What the head of a queue costs and whether it may go. *)
Record ready (e : PacingEngine) (now : Instant) (idx : nat) (d : SocketAddr) (q : PeerDataQueue) : Prop := {
  rd_at : pe_peer_queues e !! idx = Some (d, q);
  rd_len : 0 < front_len q (lane_on e) now <= MIN_DRR_QUANTUM;
  rd_cc : background_cc_can_send e d (front_len q (lane_on e) now) (hol_sojourn_ms q now) = true;
  rd_deficit : 0 <= pq_deficit q
}.

Lemma ready_nonempty e now idx d q : ready e now idx d q -> pq_is_empty q = false.
Proof. intros [_ L _ _]. unfold front_len in L. destruct (pq_is_empty q); [lia|done]. Qed.

Lemma scaled_drr_quantum_min base peer ref aware lo hi : MIN_DRR_QUANTUM <= scaled_drr_quantum base peer ref aware lo hi.
Proof. unfold scaled_drr_quantum. destruct (_ || _); lia. Qed.

Lemma pop_at_pops e idx now d q :
  pe_peer_queues e !! idx = Some (d, q) -> pq_is_empty q = false -> (pop_at e idx now).2 <> None.
Proof.
  intros L Em. unfold pop_at. rewrite L. pose proof (pop_data_items q (lane_on e) now) as H.
  destruct (pop_data q (lane_on e) now) as [q' [[p k]|]]; [intros X; discriminate X|]. destruct H as [H _]. by rewrite H in Em.
Qed.

Lemma drr_visit_ready e now idx d q : ready e now idx d q -> (drr_visit e idx now).2 <> None.
Proof.
  intros Rd. pose proof (ready_nonempty _ _ _ _ _ Rd) as Em. destruct Rd as [L Ln Cc Df]. unfold drr_visit. rewrite L, Em.
  unfold drr_credit. cbv zeta. set (quantum := scaled_drr_quantum _ _ _ _ _ _).
  assert (Q : MIN_DRR_QUANTUM <= quantum) by apply scaled_drr_quantum_min. set (flen := front_len q (lane_on e) now) in *.
  set (q1 := q <| pq_deficit := _ |>).
  assert (D1 : flen <= pq_deficit q1).
  { unfold q1. cbn. unfold sat_add, sat_mul, MIN_DRR_QUANTUM, U64_MAX in *. lia. }
  destruct (Z.eqb_spec flen 0); [lia|]. destruct (Z.ltb_spec (pq_deficit q1) flen); [lia|]. cbn [orb].
  assert (Hol : hol_sojourn_ms q1 now = hol_sojourn_ms q now) by done. rewrite Hol.
  assert (Cc1 : background_cc_can_send (set_queue e idx d q1) d flen (hol_sojourn_ms q now) = true) by exact Cc. rewrite Cc1. cbn [negb].
  match goal with |- context [pop_at ?x idx now] => pose proof (pop_at_pops x idx now d (q1 <| pq_deficit := pq_deficit q1 - flen |>)) as P;
    destruct (pop_at x idx now) as [e3 r] end.
  apply P; [|done]. unfold set_queue. cbn. rewrite list_insert_insert_eq. apply list_lookup_insert_eq. by eapply lookup_lt_Some.
Qed.

(** A visit elsewhere that sends nothing leaves the queue as it was. *)
Lemma drr_visit_other e now idx idx' :
  idx <> idx' -> (drr_visit e idx now).2 = None ->
  let e' := (drr_visit e idx now).1.1 in
  pe_peer_queues e' !! idx' = pe_peer_queues e !! idx' /\ pe_config e' = pe_config e /\ pe_background_cc e' = pe_background_cc e /\
  pe_drr_cursor e' = pe_drr_cursor e /\ length (pe_peer_queues e') = length (pe_peer_queues e).
Proof.
  intros Ne. unfold drr_visit. destruct (pe_peer_queues e !! idx) as [[d q]|] eqn:L; [|done].
  assert (S : forall q', pe_peer_queues (set_queue e idx d q') !! idx' = pe_peer_queues e !! idx' /\
    length (pe_peer_queues (set_queue e idx d q')) = length (pe_peer_queues e)).
  { intros q'. unfold set_queue. cbn. rewrite list_lookup_insert_ne by done. by rewrite length_insert. }
  destruct (pq_is_empty q) eqn:Em; [intros _; cbn -[set_queue]; destruct (S (q <| pq_deficit := 0 |>)); done|].
  unfold drr_credit. cbv zeta. set (q1 := q <| pq_deficit := _ |>). destruct (S q1) as [S1 S2].
  destruct (_ || _); [done|]. destruct (negb _); [done|].
  match goal with |- context [pop_at ?x idx now] => pose proof (pop_at_pops x idx now d (q1 <| pq_deficit := pq_deficit q1 - front_len q (lane_on e) now |>)) as P;
    destruct (pop_at x idx now) as [e3 r] end.
  cbn [fst snd] in *. intros ->. exfalso. apply P; [|done|done]. unfold set_queue. cbn. rewrite list_insert_insert_eq.
  apply list_lookup_insert_eq. by eapply lookup_lt_Some.
Qed.

Lemma drr_loop_serves dist fuel n now hits e idx d q :
  (dist < fuel)%nat -> (idx < n)%nat -> 0 <= pe_drr_cursor e -> pe_drr_cursor e + Z.of_nat dist < 2 ^ 64 ->
  (pe_drr_cursor e + Z.of_nat dist) mod Z.of_nat n = Z.of_nat idx ->
  ready e now idx d q -> (drr_loop fuel n now hits e).2 <> None.
Proof.
  revert fuel hits e. induction dist as [|dist IH]; intros [|fuel] hits e Hf Hn Hc Hw Hm Rd; try lia; cbn [drr_loop next_index].
  all: set (e1 := e <| pe_drr_cursor := _ |>); assert (Rd1 : ready e1 now idx d q) by (destruct Rd; by split).
  - assert (Ei : Z.to_nat (pe_drr_cursor e mod Z.of_nat n) = idx) by (rewrite Z.add_0_r in Hm; rewrite Hm; lia). rewrite Ei.
    pose proof (drr_visit_ready _ _ _ _ _ Rd1) as V. destruct (drr_visit e1 idx now) as [[e2 hit] [p|]]; [intros X; discriminate X|done].
  - set (j := Z.to_nat (pe_drr_cursor e mod Z.of_nat n)). destruct (decide (j = idx)) as [->|Ne].
    { pose proof (drr_visit_ready _ _ _ _ _ Rd1) as V. destruct (drr_visit e1 idx now) as [[e2 hit] [p|]]; [intros X; discriminate X|done]. }
    pose proof (drr_visit_other e1 now j idx Ne) as V. cbv zeta in V. destruct (drr_visit e1 j now) as [[e2 hit] [p|]]; [intros X; discriminate X|].
    cbn [fst snd] in V. destruct (V eq_refl) as (Vq & Vc & Vb & Vd & _).
    assert (Cu : pe_drr_cursor e2 = pe_drr_cursor e + 1).
    { rewrite Vd. unfold e1. cbn. unfold wrap. apply Z.mod_small. lia. }
    apply IH; [lia|done|lia|lia| |].
    + rewrite Cu. rewrite <- Hm. f_equal. lia.
    + destruct Rd1 as [R1 R2 R3 R4].
      assert (Ln : lane_on e2 = lane_on e1) by (unfold lane_on; by rewrite Vc).
      split; [by rewrite Vq|by rewrite Ln|rewrite Ln; unfold background_cc_can_send in *; by rewrite Vb|done].
Qed.

(** From any cursor every index is reached within one round. *)
Lemma round_reaches c n idx : (idx < n)%nat -> exists dist, (dist < n)%nat /\ (c + Z.of_nat dist) mod Z.of_nat n = Z.of_nat idx.
Proof.
  intros Hn. exists (Z.to_nat ((Z.of_nat idx - c) mod Z.of_nat n)).
  assert (B : 0 <= (Z.of_nat idx - c) mod Z.of_nat n < Z.of_nat n) by (apply Z.mod_pos_bound; lia). split; [lia|].
  rewrite Z2Nat.id by lia. rewrite Zplus_mod_idemp_r. replace (c + (Z.of_nat idx - c)) with (Z.of_nat idx) by lia.
  apply Z.mod_small. lia.
Qed.

Lemma pop_data_next_serves env t idx d q :
  pa_drr_enabled (pe_config (tk_e t)) = true -> pe_non_empty_peers (tk_e t) <> 0 ->
  0 <= pe_drr_cursor (tk_e t) -> pe_drr_cursor (tk_e t) + len (pe_peer_queues (tk_e t)) < 2 ^ 64 ->
  ready (tk_e t) (env_clock env (tk_reads t)) idx d q -> (pop_data_next env t).2 <> None.
Proof.
  intros Drr Ne C0 C1 Rd. pose proof (rd_at _ _ _ _ _ Rd) as L. unfold pop_data_next. cbv zeta. rewrite Drr. cbn [negb].
  assert (Hi : (idx < length (pe_peer_queues (tk_e t)))%nat) by (by eapply lookup_lt_Some).
  destruct (Nat.eqb_spec (length (pe_peer_queues (tk_e t))) 0); [lia|]. destruct (Z.eqb_spec (pe_non_empty_peers (tk_e t)) 0); [done|].
  cbn [orb]. destruct (round_reaches (pe_drr_cursor (tk_e t)) _ _ Hi) as (dist & Hd & Hm).
  unfold read_clock, lift_pop. change (tk_e (t <| tk_reads := _ |>)) with (tk_e t).
  pose proof (drr_loop_serves dist (length (pe_peer_queues (tk_e t)) * 2) (length (pe_peer_queues (tk_e t)))
                (env_clock env (tk_reads t)) 0 (tk_e t) idx d q) as Sv.
  destruct (drr_loop _ _ _ _ _) as [e3 r3]. apply Sv; unfold len in *; try lia. done.
Qed.

(** C18. The scheduler does not idle: with deficit round robin on, if some peer's next packet is no longer
    than the least quantum and congestion control lets it go, taking the next packet yields a packet,
    wherever the cursor stands and whatever the other queues and deficits are. *)
Theorem pop_next_work_conserving env t idx d q :
  let e := tk_e t in
  let now := env_clock env (match pe_control_q e with [] => tk_reads t | _ => S (tk_reads t) end) in
  pa_drr_enabled (pe_config e) = true -> pe_non_empty_peers e <> 0 ->
  0 <= pe_drr_cursor e -> pe_drr_cursor e + len (pe_peer_queues e) < 2 ^ 64 ->
  ready e now idx d q ->
  (pop_next env t).2 <> None.
Proof.
  cbv zeta. intros Drr Ne C0 C1 Rd. unfold pop_next, lift_pop, pop_retransmit_for_send.
  destruct (pe_retransmit_q (tk_e t)) as [|r rl]; cbn [or_pop]; [|intros X; discriminate X].
  unfold try_pop_control_interleaved, read_clock. cbv zeta. change (tk_e (t <| tk_e := tk_e t |>)) with (tk_e t).
  assert (Sm : forall t1, pe_config (tk_e t1) = pe_config (tk_e t) -> pe_peer_queues (tk_e t1) = pe_peer_queues (tk_e t) ->
    pe_background_cc (tk_e t1) = pe_background_cc (tk_e t) -> pe_drr_cursor (tk_e t1) = pe_drr_cursor (tk_e t) ->
    pe_non_empty_peers (tk_e t1) = pe_non_empty_peers (tk_e t) ->
    tk_reads t1 = match pe_control_q (tk_e t) with [] => tk_reads t | _ => S (tk_reads t) end -> (pop_data_next env t1).2 <> None).
  { intros t1 Ec Eq Eb Ed En Er. apply (pop_data_next_serves env t1 idx d q); rewrite ?Ec, ?Eq, ?Ed, ?En, ?Er; try done.
    assert (Ln : lane_on (tk_e t1) = lane_on (tk_e t)) by (unfold lane_on; by rewrite Ec).
    destruct Rd as [R1 R2 R3 R4]. split; [by rewrite Eq|by rewrite Ln|rewrite Ln; unfold background_cc_can_send in *; by rewrite Eb|done]. }
  destruct (pe_control_q (tk_e t)) as [|c cl] eqn:Ec; rewrite ?Ec in Sm.
  - match goal with |- context [if ?b =? 0 then _ else _] => destruct (b =? 0) end; cbn [or_pop].
    + unfold lift_pop, pop_control_for_send. cbn -[pop_data_next]. rewrite Ec. by eapply Sm.
    + by eapply Sm.
  - match goal with |- context [if ?b =? 0 then _ else _] => destruct (b =? 0) end; cbn [or_pop]; [|by eapply Sm].
    unfold lift_pop, pop_control_for_send. cbn -[pop_data_next]. rewrite Ec. intros X. discriminate X.
Qed.

(** ** Attempts and errors *)

Definition calm (e e' : PacingEngine) : Prop := pe_consecutive_errors e' = pe_consecutive_errors e.

Lemma pop_control_calm e : calm e (pop_control_for_send e).1.
Proof. unfold pop_control_for_send. by destruct (pe_control_q e). Qed.
Lemma pop_retransmit_calm e : calm e (pop_retransmit_for_send e).1.
Proof. unfold pop_retransmit_for_send. by destruct (pe_retransmit_q e). Qed.
Lemma pop_at_calm e idx now : calm e (pop_at e idx now).1.
Proof.
  unfold pop_at. destruct (pe_peer_queues e !! idx) as [[d q]|]; [|done].
  destruct (pop_data q (lane_on e) now) as [q' [[p []]|]]; [destruct (pq_is_empty q'); done..|done].
Qed.
Lemma gated_pop_at_calm e idx now : calm e (gated_pop_at e idx now).1.
Proof.
  unfold gated_pop_at. destruct (pe_peer_queues e !! idx) as [[d q]|]; [|done]. destruct (_ && _); [done|apply pop_at_calm].
Qed.
Lemma rr_loop_calm fuel n now e : calm e (rr_loop fuel n now e).1.
Proof.
  revert e. induction fuel as [|fuel IH]; intros e; cbn [rr_loop next_index]; [apply pop_control_calm|].
  set (e1 := e <| pe_drr_cursor := _ |>). match goal with |- context [gated_pop_at e1 ?i now] => pose proof (gated_pop_at_calm e1 i now) as C;
    destruct (gated_pop_at e1 i now) as [e2 [p|]] end; [done|]. unfold calm in *. rewrite IH. exact C.
Qed.
Lemma fifo_loop_calm idxs now e : calm e (fifo_loop idxs now e).1.
Proof.
  revert e. induction idxs as [|i idxs IH]; intros e; cbn [fifo_loop]; [apply pop_control_calm|].
  pose proof (gated_pop_at_calm e i now) as C. destruct (gated_pop_at e i now) as [e2 [p|]]; [done|]. unfold calm in *. rewrite IH. exact C.
Qed.
Lemma drr_visit_calm e idx now : calm e (drr_visit e idx now).1.1.
Proof.
  unfold drr_visit. destruct (pe_peer_queues e !! idx) as [[d q]|]; [|done]. destruct (pq_is_empty q); [done|].
  unfold drr_credit. cbv zeta. destruct (_ || _); [done|]. destruct (negb _); [done|].
  match goal with |- context [pop_at ?x idx now] => pose proof (pop_at_calm x idx now) as C; destruct (pop_at x idx now) as [e3 r] end. exact C.
Qed.
Lemma drr_loop_calm fuel n now hits e : calm e (drr_loop fuel n now hits e).1.
Proof.
  revert hits e. induction fuel as [|fuel IH]; intros hits e; cbn [drr_loop next_index].
  - match goal with |- calm e (pop_control_for_send ?x).1 => pose proof (pop_control_calm x) as C end. exact C.
  - set (e1 := e <| pe_drr_cursor := _ |>). match goal with |- context [drr_visit e1 ?i now] => pose proof (drr_visit_calm e1 i now) as C;
      destruct (drr_visit e1 i now) as [[e2 hit] [p|]] end; [done|]. unfold calm in *. rewrite IH. exact C.
Qed.

Section Attempts.
Context (env : Env) (old : Z).

(** Every attempt so far succeeded. *)
Definition going (t : Tk) : Prop :=
  tk_tries t = length (tk_sent t) /\ (forall j, (j < tk_tries t)%nat -> env_send env j = SendOk) /\
  pe_consecutive_errors (tk_e t) = if (tk_tries t =? 0)%nat then old else 0.

(** The last attempt failed and ended the tick. *)
Definition ended (t : Tk) (res : TickResult) : Prop :=
  exists k, tk_tries t = S k /\ length (tk_sent t) = k /\ (forall j, (j < k)%nat -> env_send env j = SendOk) /\
  let base := if (k =? 0)%nat then old else 0 in
  match env_send env k with
  | SendOk => False
  | WouldBlock => pe_consecutive_errors (tk_e t) = base /\ res = Progress (Z.of_nat k)
  | SendErr => pe_consecutive_errors (tk_e t) = sat_add U32_MAX base 1 /\
               exists d, res = if 5 <=? pe_consecutive_errors (tk_e t) then SocketDead (Some d) else Progress (Z.of_nat k)
  end.

Definition tick_outcome (r : Tk * TickResult) : Prop := (going r.1 /\ r.2 = Progress (len (tk_sent r.1))) \/ ended r.1 r.2.

Lemma going_same t t' :
  tk_tries t' = tk_tries t -> tk_sent t' = tk_sent t -> calm (tk_e t) (tk_e t') -> going t -> going t'.
Proof. unfold going, calm. intros -> -> ->. done. Qed.

Lemma going_sent t t' x :
  env_send env (tk_tries t) = SendOk -> tk_tries t' = S (tk_tries t) -> tk_sent t' = tk_sent t ++ [x] ->
  pe_consecutive_errors (tk_e t') = 0 -> going t -> going t'.
Proof.
  intros So Et Es Ee (A & B & C). unfold going. rewrite Et, Es, Ee, length_app. cbn. split_and!; [lia| |done].
  intros j Hj. destruct (decide (j = tk_tries t)) as [->|]; [done|]. apply B. lia.
Qed.

(** What a failed attempt leaves, as the result of the tick. *)
Lemma send_failed_ended t e1 dest :
  going t -> calm (tk_e t) e1 -> env_send env (tk_tries t) <> SendOk ->
  let r := send_failed (t <| tk_tries := S (tk_tries t) |> <| tk_e := e1 |>) (env_send env (tk_tries t)) dest in
  ended r.1 (match r.2 with Some tr => tr | None => Progress (len (tk_sent r.1)) end).
Proof.
  intros (A & B & C) Ca Ns. unfold send_failed. destruct (env_send env (tk_tries t)) eqn:R; [done| |]; cbn.
  - exists (tk_tries t). rewrite R. cbn. unfold calm in Ca. rewrite Ca, C. unfold len. rewrite <- A. done.
  - exists (tk_tries t). rewrite R. cbn. unfold calm in Ca. rewrite Ca, C. unfold len. rewrite <- A. split_and!; try done. by exists dest.
Qed.

Lemma try_send_next_going t i drain :
  going t ->
  let r := try_send_next_packet env t i drain in
  match r.2 with
  | Ok _ => going r.1
  | Err (Some tr) => ended r.1 tr
  | Err None => ended r.1 (Progress (len (tk_sent r.1)))
  end.
Proof.
  intros G. unfold try_send_next_packet, try_send. cbv zeta.
  assert (Ca : calm (tk_e t) (requeued (put_back (tk_e t) i))).
  { destruct i as [q|p d a]; [done|]. unfold put_back, requeue_data_at_front. cbv zeta. destruct (pq_is_empty _); done. }
  pose proof (send_failed_ended t _ (next_dest i) G Ca) as F. cbv zeta in F. destruct (env_send env (tk_tries t)) eqn:R.
  - cbn [snd fst]. destruct i as [q|p d a], (_ && _); by eapply (going_sent t).
  - exact (F ltac:(intros X; discriminate X)).
  - exact (F ltac:(intros X; discriminate X)).
Qed.

Lemma try_send_queued_going t q rtx :
  going t ->
  let r := try_send_queued_packet env t q rtx in
  match r.2 with
  | Ok _ => going r.1
  | Err (Some tr) => ended r.1 tr
  | Err None => ended r.1 (Progress (len (tk_sent r.1)))
  end.
Proof.
  intros G. unfold try_send_queued_packet, try_send. cbv zeta.
  assert (Ca : calm (tk_e t) (requeued (if rtx then push_retransmit_front (tk_e t) q else push_control_front (tk_e t) q))) by (by destruct rtx).
  pose proof (send_failed_ended t _ (qp_dest q) G Ca) as F. cbv zeta in F. destruct (env_send env (tk_tries t)) eqn:R.
  - cbn [snd fst]. by eapply (going_sent t).
  - exact (F ltac:(intros X; discriminate X)).
  - exact (F ltac:(intros X; discriminate X)).
Qed.

(** A step of the tick that may end it. *)
Definition phase_outcome (r : Tk * option TickResult) : Prop :=
  match r.2 with None => going r.1 | Some tr => ended r.1 tr end.

Lemma reserved_loop_outcome fuel rtx deadline initial remaining t :
  going t -> phase_outcome (reserved_loop env fuel rtx deadline initial remaining t).
Proof.
  revert remaining t. induction fuel as [|fuel IH]; intros remaining t G; cbn [reserved_loop]; [done|].
  destruct (remaining <=? 0); [done|]. unfold read_clock. set (t1 := t <| tk_reads := _ |>). cbv iota beta.
  assert (G1 : going t1) by (by apply (going_same t)).
  destruct (_ || _); [done|]. destruct (phase_queue rtx (tk_e t1)) as [|q l]; [done|]. destruct (_ || _); [done|].
  assert (G2 : going (on_e t1 (phase_pop rtx))) by (apply (going_same t1); [done|done|by destruct rtx|done]).
  pose proof (try_send_queued_going _ q rtx G2) as S. cbv zeta in S.
  destruct (try_send_queued_packet env (on_e t1 (phase_pop rtx)) q rtx) as [t3 [[]|[tr|]]]; cbn [fst snd] in S; [|exact S|exact S].
  apply IH. apply (going_same t3); [done|done|by destruct rtx|done].
Qed.

Lemma drain_reserved_outcome deadline t : going t -> phase_outcome (drain_reserved_prefix env deadline t).
Proof.
  intros G. unfold drain_reserved_prefix, reserved_phase. cbv zeta. destruct (_ && _); [done|].
  match goal with |- context [reserved_loop env ?a true ?c ?d ?f ?g] => pose proof (reserved_loop_outcome a true c d f g G) as O;
    destruct (reserved_loop env a true c d f g) as [t1 [tr|]] end; [exact O|]. by apply reserved_loop_outcome.
Qed.

Lemma shed_loop_going fuel t n dropped now deadline : going t -> going (shed_loop env fuel t n dropped now deadline).
Proof.
  revert t dropped. induction fuel as [|fuel IH]; intros t dropped G; cbn [shed_loop]; [done|].
  destruct (_ <=? dropped); [done|]. unfold read_clock. set (t1 := t <| tk_reads := _ |>). cbv iota beta.
  assert (G1 : going t1) by (by apply (going_same t)). destruct (deadline <=? _); [done|].
  set (idx := Z.to_nat _). set (t2 := on_e t1 _). assert (G2 : going t2) by (by apply (going_same t1)).
  match goal with |- context [if ?b then _ else _] => destruct b end; apply IH; [|done].
  apply (going_same t2); [done|done| |done]. unfold calm, pop_bulk_at. cbn.
  destruct (pe_peer_queues (tk_e t) !! idx) as [[d q]|]; [|done]. by destruct (pq_is_empty _).
Qed.

Lemma lift_pop_going t f : (forall e, calm e (f e).1) -> going t -> going (lift_pop t f).1.
Proof.
  intros Hf G. unfold lift_pop. pose proof (Hf (tk_e t)) as C. destruct (f (tk_e t)) as [e r]. by apply (going_same t).
Qed.
Lemma or_pop_going r f : going r.1 -> (forall t, going t -> going (f t).1) -> going (or_pop r f).1.
Proof. destruct r as [t [p|]]; cbn; auto. Qed.

Lemma pop_next_apd_going freeze t : going t -> going (pop_next_apd env freeze t).1.
Proof.
  intros G. assert (Ct : forall t, going t -> going (try_pop_control_interleaved env t).1).
  { intros t0 G0. unfold try_pop_control_interleaved, read_clock. cbv zeta.
    destruct (pe_control_q (tk_e t0)); (match goal with |- context [if ?b =? 0 then _ else _] => destruct (b =? 0) end);
      try (apply lift_pop_going; [apply pop_control_calm|]); by apply (going_same t0). }
  assert (H : forall f, (forall t, going t -> going (f t).1) ->
    going (or_pop (or_pop (lift_pop t pop_retransmit_for_send) (try_pop_control_interleaved env)) f).1).
  { intros f F. apply or_pop_going; [|done]. apply or_pop_going; [|done]. apply lift_pop_going; [apply pop_retransmit_calm|done]. }
  unfold pop_next_apd, pop_next. destruct (negb freeze); apply H; intros t0 G0.
  - unfold pop_data_next, read_clock. cbv zeta. assert (G1 : going (t0 <| tk_reads := S (tk_reads t0) |>)) by (by apply (going_same t0)).
    destruct (negb _); [|destruct (_ || _)]; (apply lift_pop_going; [|done]); auto using fifo_loop_calm, drr_loop_calm, pop_control_calm.
  - unfold pop_data_frozen, read_clock. apply lift_pop_going; [|by apply (going_same t0)]. intros e. apply rr_loop_calm.
Qed.

Lemma burst_loop_outcome burst freeze deadline t : going t -> tick_outcome (burst_loop env burst freeze deadline t).
Proof.
  revert t. induction burst as [|burst IH]; intros t G; cbn [burst_loop]; [by left|].
  unfold read_clock. set (t1 := t <| tk_reads := _ |>). cbv iota beta. assert (G1 : going t1) by (by apply (going_same t)).
  destruct (_ || _); [by left|]. pose proof (pop_next_apd_going freeze t1 G1) as G2.
  destruct (pop_next_apd env freeze t1) as [t2 [i|]]; cbn [fst] in *; [|by left].
  pose proof (try_send_next_going t2 i true G2) as S. cbv zeta in S.
  destruct (try_send_next_packet env t2 i true) as [t3 [[]|[tr|]]]; cbn [fst snd] in S; [by apply IH|by right|by right].
Qed.

Lemma refill_calm e now : calm e (refill e now).
Proof. unfold refill. cbv zeta. destruct (_ =? 0); [|done]. unfold refresh_drr_rtt_ref. by destruct (_ || _). Qed.

Lemma tick_decision_going t now : going t -> going (tick_decision env t now).1.
Proof.
  intros G. unfold tick_decision, read_clock. cbv zeta. destruct (ac_enabled _); [|done].
  destruct (apd_pressure_scan _ _) as [hol any_cc]. destruct (apd_step _ _ _ _ _ _ _ _) as [s dec]. by apply (going_same t).
Qed.

End Attempts.

Lemma tick_with_outcome env e : tick_outcome env (pe_consecutive_errors e) (tick_with env e).
Proof.
  assert (G : going env (pe_consecutive_errors e) (mkTk e 0 0 [])).
  { unfold going. cbn. split_and!; [done|intros j Hj; lia|done]. }
  unfold tick_with, read_clock. cbv iota beta zeta. set (t1 := on_e _ _).
  assert (G1 : going env (pe_consecutive_errors e) t1) by (apply (going_same _ _ (mkTk e 0 0 [])); [done|done|apply refill_calm|done]).
  pose proof (tick_decision_going _ _ t1 (env_clock env 0) G1) as G2. destruct (tick_decision _ _ _) as [t2 [burst freeze]]. cbn [fst] in G2.
  set (deadline := _ + _).
  assert (G3 : going env (pe_consecutive_errors e) (shed_stale_bulk_rr env t2 (env_clock env 0) deadline)).
  { unfold shed_stale_bulk_rr. destruct (_ || _); [done|by apply shed_loop_going]. }
  pose proof (drain_reserved_outcome _ _ deadline _ G3) as O. destruct (drain_reserved_prefix _ _ _) as [t3 [tr|]]; [by right|].
  by apply burst_loop_outcome.
Qed.

(** A tick stops at its first failed attempt, and its result follows from the outcomes alone.  Either
    every attempt succeeded and the result counts them, or all but the last did: a full socket gives the
    number sent; a hard error raises the count of consecutive errors, which any success in the tick had
    cleared, and the fifth in a row is reported as a dead socket.  So a dead socket is only reported by a
    tick that sent nothing, after at least four errors before it. *)
Theorem tick_attempts_exact env e :
  tick_outcome env (pe_consecutive_errors e) (tick_with env e) /\
  (forall d, (tick_with env e).2 = SocketDead d -> tk_sent (tick_with env e).1 = [] /\ 4 <= pe_consecutive_errors e).
Proof.
  pose proof (tick_with_outcome env e) as O. split; [done|]. intros d E.
  destruct O as [[_ O]|(k & T & S & _ & O)]; [rewrite O in E; discriminate E|]. cbv zeta in O.
  destruct (env_send env k); [done|destruct O as [_ O]; rewrite O in E; discriminate E|]. destruct O as (C & d' & R). rewrite R in E.
  destruct (Z.leb_spec 5 (pe_consecutive_errors (tk_e (tick_with env e).1))); [|discriminate E].
  destruct k as [|k]; cbn [Nat.eqb] in C; [|unfold sat_add, U32_MAX in C; lia]. split; [by apply nil_length_inv|]. unfold sat_add, U32_MAX in C. lia.
Qed.

(** A retransmission taken by the scheduler whose send fails is not put back where it was: it goes to
    the front of the control queue, past that queue's limit, and has lost its priority over control and
    data.  (Only the reserved prefix of a tick puts retransmissions back into their own queue.) *)
Theorem failed_retransmit_demoted env t q rest :
  pe_retransmit_q (tk_e t) = q :: rest -> env_send env (tk_tries t) <> SendOk ->
  exists t1 i, pop_next env t = (t1, Some i) /\
    let e' := tk_e (try_send_next_packet env t1 i true).1 in
    pe_retransmit_q e' = rest /\ pe_control_q e' = q :: pe_control_q (tk_e t).
Proof.
  intros Eq Ns. unfold pop_next, lift_pop, pop_retransmit_for_send. rewrite Eq. cbn [or_pop].
  eexists _, _. split; [reflexivity|]. unfold try_send_next_packet, try_send. cbn.
  destruct (env_send env (tk_tries t)); [done|split; reflexivity..].
Qed.

(** An engine under default settings with two retransmissions, one control packet and a peer's data waiting. *)
Module FairRun.
Definition peer : SocketAddr := mkAddr (V4 167772161) 4000.
Definition e0 : PacingEngine := new_pacing (to_background_cc_config default_congestion) 0.
Definition e1 : PacingEngine := (enqueue_peer e0 (repeat 1 300) peer 0).1.
Definition e2 : PacingEngine := (enqueue_retransmit (enqueue_retransmit e1 [2; 2] peer 0).1 [3; 3] peer 0).1.
Definition env : Env := mkEnv (fun _ => from_millis 20) (fun k => match k with O => WouldBlock | _ => SendOk end).
Definition q : PeerDataQueue := match pe_peer_queues e1 with (_, q) :: _ => q | [] => new_peer_queue end.
End FairRun.

Lemma failed_retransmit_demoted_witness :
  exists t1 i, pop_next FairRun.env (mkTk FairRun.e2 0 0 []) = (t1, Some i) /\
    let e' := tk_e (try_send_next_packet FairRun.env t1 i true).1 in
    pe_retransmit_q e' = [mkQP [3; 3] FairRun.peer 0] /\ pe_control_q e' = [mkQP [2; 2] FairRun.peer 0].
Proof.
  apply (failed_retransmit_demoted FairRun.env (mkTk FairRun.e2 0 0 []) (mkQP [2; 2] FairRun.peer 0) [mkQP [3; 3] FairRun.peer 0]).
  - vm_compute. reflexivity.
  - vm_compute. intros E. discriminate E.
Defined.

Lemma pop_next_work_conserving_witness : (pop_next FairRun.env (mkTk FairRun.e1 0 0 [])).2 <> None.
Proof.
  apply (pop_next_work_conserving FairRun.env (mkTk FairRun.e1 0 0 []) 0 FairRun.peer FairRun.q).
  - vm_compute. reflexivity.
  - vm_compute. intros E. discriminate E.
  - vm_compute. intros E. discriminate E.
  - vm_compute. reflexivity.
  - split.
    + vm_compute. reflexivity.
    + vm_compute. split; [reflexivity|intros E; discriminate E].
    + vm_compute. reflexivity.
    + vm_compute. intros E. discriminate E.
Defined.
