(* ===== verification/PacingWorker.v ===== *)
(** * The pacing worker (src/net/pacing_worker.rs, src/net/outbound_udp.rs)

    One thread owns the pacing engine.  It takes commands and clock ticks in the order they arrive,
    publishes observations, and notes every successful send for the keepalive logic, first in a local
    cache that is merged into the shared [OutboundUdpClock].  The mutex of the shared clock is the order
    of the events; its poisoning is not modelled, since no holder of the lock panics.

    A run of the worker is a list of events.  [Log] records what the run was given and what it did:
    [worker_counters_exact] and [worker_conserves] show that the engine's counters are exact and that no
    packet is lost uncounted, duplicated or invented; [keepalive_skip_sound] that a keepalive is only
    skipped for a destination a packet was really sent to within the interval. *)

From S2P Require Import Prelude Float Tuning BackgroundCc PacingCfg Pacing PacingLedger.

(** ** Last outbound send per destination *)

Record OutboundUdpClock := mkOutbound { ou_map : gmap SocketAddr Instant; ou_note_total : Z }.
#[export] Instance eta_OutboundUdpClock : Settable OutboundUdpClock := fun r => mkOutbound (ou_map r) (ou_note_total r).

Definition new_outbound : OutboundUdpClock := mkOutbound ∅ 0.
Definition ou_note (c : OutboundUdpClock) (dest : SocketAddr) (now : Instant) : OutboundUdpClock :=
  c <| ou_map := <[dest := now]> (ou_map c) |> <| ou_note_total := wrap 64 (ou_note_total c + 1) |>.

Definition merge_note (m : gmap SocketAddr Instant) (n : SocketAddr * Instant) : gmap SocketAddr Instant :=
  match m !! n.1 with
  | Some prev => if n.2 <=? prev then m else <[n.1 := n.2]> m
  | None => <[n.1 := n.2]> m
  end.
Definition merge_notes `{HashIter} (c : OutboundUdpClock) (notes : gmap SocketAddr Instant) : OutboundUdpClock :=
  c <| ou_map := foldl merge_note (ou_map c) (hm_iter notes) |>.
Definition account_notes (c : OutboundUdpClock) (n : Z) : OutboundUdpClock :=
  if 0 <? n then c <| ou_note_total := wrap 64 (ou_note_total c + n) |> else c.
Definition ou_last (c : OutboundUdpClock) (dest : SocketAddr) : option Instant := ou_map c !! dest.
Definition needs_refresh (c : OutboundUdpClock) (dest : SocketAddr) (now : Instant) (keepalive : Duration) : bool :=
  match ou_last c dest with
  | None => true
  | Some last => keepalive <=? duration_since now last
  end.
Definition ou_clear (c : OutboundUdpClock) : OutboundUdpClock := c <| ou_map := ∅ |>.
Definition ou_remove (c : OutboundUdpClock) (dest : SocketAddr) : OutboundUdpClock := c <| ou_map := delete dest (ou_map c) |>.
Definition retain_only (c : OutboundUdpClock) (keep : gset SocketAddr) : OutboundUdpClock :=
  c <| ou_map := retain (fun addr _ => bool_decide (addr ∈ keep)) (ou_map c) |>.

(** ** Observations *)

Record PacingObs := mkObs {
  ob_queue : PacingQueueSnapshot; ob_peer_data_lens : gmap SocketAddr Z; ob_apd_phase : ApdPhase; ob_apd_pure_spin : bool;
  ob_apd_tick_us : Z; ob_apd_episodes : Z; ob_apd_ms_total : Z; ob_apd_pkts_drained : Z; ob_apd_budget_hits : Z;
  ob_apd_ramp_active : Z; ob_apd_ramp_pinned : Z; ob_apd_last_burst : Z; ob_apd_arm_fill : Z; ob_apd_arm_sojourn : Z;
  ob_apd_max_sojourn : Z; ob_apd_cc_headroom_suppressions : Z; ob_dropped_packets : Z; ob_dropped_data : Z; ob_shed_sojourn : Z;
  ob_dropped_control_normal : Z; ob_dropped_control_retransmit : Z; ob_cc_rate_limited_events : Z;
  ob_drr_small_priority_pops : Z; ob_drr_bulk_force_pops : Z; ob_drr_rtt_scale_applied : Z;
  ob_cc_bps : f64 * f64 * f64; ob_cc_delivery_bps : f64 * f64 * f64; ob_cc_counters : CcUpdateCounters;
  ob_drr_rtt_aware : bool; ob_drr_enabled : bool; ob_max_data_queue_packets : Z; ob_tick_us : Z; ob_config : PacingConfig
}.

Definition from_engine `{HashIter} (p : PacingEngine) : PacingObs :=
  let s := pe_apd p in
  let c := pe_config p in
  mkObs (queue_snapshot p) (foldl (fun m x => <[x.1 := x.2]> m) ∅ (peer_data_lens_snapshot p))
    (ap_phase s) (ap_last_pure_spin s) (ap_last_tick_us s) (ap_drain_episodes s) (ap_drain_ms_total s) (ap_packets_drained s)
    (ap_drain_budget_hits s) (ap_ramp_active_ticks s) (ap_ramp_pinned_ticks s) (ap_last_effective_burst s)
    (ap_drain_arm_fill s) (ap_drain_arm_sojourn s) (ap_last_max_sojourn_ms s) (ap_cc_headroom_suppressions s)
    (pe_dropped_packets p) (pe_dropped_data p) (pe_shed_sojourn p) (pe_dropped_control_normal p)
    (pe_dropped_control_retransmit p) (pe_cc_rate_limited_events p) (pe_drr_small_priority_pops p) (pe_drr_bulk_force_pops p)
    (pe_drr_rtt_scale_applied p) (rate_distribution (pe_background_cc p)) (delivery_rate_distribution (pe_background_cc p))
    (cc_counters (pe_background_cc p)) (pa_drr_rtt_aware c) (pa_drr_enabled c) (pa_max_data_queue_packets c) (pa_tick_us c) c.

Definition obs_peer_data_queue_len (o : PacingObs) (dest : SocketAddr) : Z := default 0 (ob_peer_data_lens o !! dest).

(** ** Commands *)

Inductive PacingCommand :=
  | EnqueueData (pkt : bytes) (dest : SocketAddr) (rtt_hint qd_hint : option f32)
  | TryEnqueuePeerBatch (dest : SocketAddr) (pkts : list bytes) (rtt_hint qd_hint : option f32)
  | EnqueueControl (pkt : bytes) (dest : SocketAddr)
  | EnqueueRetransmit (pkt : bytes) (dest : SocketAddr)
  | RemovePeer (dest : SocketAddr)
  | OnCcSample (dest : SocketAddr) (qd_ms loss_ewma : f64)
  | SetConfig (cfg : PacingConfig)
  | SetDrrEnabled (enabled : bool)
  | SetBackgroundCc (config : BackgroundCcConfig)
  | ResetSession
  | ResetObservabilityCounters
  | Stop.

Inductive OutboundLocalAction := ActNone | ActRemove (dest : SocketAddr) | ActClearAll.
Definition OUTBOUND_LOCAL_FLUSH : Duration := from_secs 1.

(** Each packet with the reading of the clock it is queued at. *)
Definition timed (clk : nat -> Instant) (pkts : list bytes) : list (bytes * Instant) := imap (fun i p => (p, clk i)) pkts.

(** The engine, the flags [(stop, needs_obs_publish, action)] and the reply to a batch; [None] is a panic. *)
Definition handle_command (p : PacingEngine) (cmd : PacingCommand) (clk : nat -> Instant)
  : option (PacingEngine * (bool * bool * OutboundLocalAction) * option bool) :=
  match cmd with
  | EnqueueData pkt dest rtt qd => Some ((enqueue_peer_with_hints p pkt dest rtt qd (clk 0%nat)).1, (false, false, ActNone), None)
  | TryEnqueuePeerBatch dest pkts rtt qd =>
      let '(p, ok) := try_enqueue_peer_batch p dest (timed clk pkts) rtt qd in Some (p, (false, false, ActNone), Some ok)
  | EnqueueControl pkt dest => Some ((enqueue_control p pkt dest (clk 0%nat)).1, (false, false, ActNone), None)
  | EnqueueRetransmit pkt dest => Some ((enqueue_retransmit p pkt dest (clk 0%nat)).1, (false, false, ActNone), None)
  | RemovePeer dest => Some (pacing_remove_peer p dest, (false, true, ActRemove dest), None)
  | OnCcSample dest qd loss => Some (pacing_cc_sample p dest qd loss, (false, false, ActNone), None)
  | SetConfig cfg => p ← pacing_set_config p cfg (clk 0%nat); Some (p, (false, true, ActNone), None)
  | SetDrrEnabled b => Some (p <| pe_config := pe_config p <| pa_drr_enabled := b |> |>, (false, true, ActNone), None)
  | SetBackgroundCc cc => Some (set_background_cc_config p cc, (false, true, ActNone), None)
  | ResetSession => Some (reset_session_runtime p (clk 0%nat), (false, true, ActClearAll), None)
  | ResetObservabilityCounters => Some (reset_observability_counters p, (false, true, ActNone), None)
  | Stop => Some (p, (true, false, ActNone), None)
  end.

(** ** The worker *)

Inductive PacingEvent := TickDone (sent : Z) (tick_duration_us : Z) (socket_dead : option (option SocketAddr)).

Record Worker := mkWorker {
  wk_pacing : PacingEngine; wk_local : gmap SocketAddr Instant; wk_pending : Z; wk_last_flush : Instant; wk_tick_seq : Z;
  wk_shared : OutboundUdpClock; wk_obs : PacingObs; wk_pure_spin : bool; wk_apd_tick_us : Z; wk_events : list PacingEvent;
  wk_replies : list bool; wk_stopped : bool
}.
#[export] Instance eta_Worker : Settable Worker :=
  fun r => mkWorker (wk_pacing r) (wk_local r) (wk_pending r) (wk_last_flush r) (wk_tick_seq r) (wk_shared r) (wk_obs r)
             (wk_pure_spin r) (wk_apd_tick_us r) (wk_events r) (wk_replies r) (wk_stopped r).

Definition apply_outbound_local_action (local : gmap SocketAddr Instant) (a : OutboundLocalAction) : gmap SocketAddr Instant :=
  match a with ActNone => local | ActRemove dest => delete dest local | ActClearAll => ∅ end.

Section Worker.
Context `{HashIter}.

Definition publish_obs (w : Worker) : Worker := w <| wk_obs := from_engine (wk_pacing w) |>.
Definition publish_apd (w : Worker) : Worker :=
  w <| wk_apd_tick_us := ap_last_tick_us (pe_apd (wk_pacing w)) |> <| wk_pure_spin := ap_last_pure_spin (pe_apd (wk_pacing w)) |>.

Definition flush_outbound_local (w : Worker) (now : Instant) : Worker :=
  let shared := if bool_decide (wk_local w = ∅) then wk_shared w else merge_notes (wk_shared w) (wk_local w) in
  w <| wk_shared := account_notes shared (wk_pending w) |> <| wk_pending := if 0 <? wk_pending w then 0 else wk_pending w |>
    <| wk_last_flush := now |>.

Definition start_worker (initial : PacingEngine) (shared : OutboundUdpClock) (now : Instant) : Worker :=
  mkWorker initial ∅ 0 now 0 shared (from_engine initial) false 0 [] [] false.

(** The arm of the loop that took a command. *)
Definition worker_command (w : Worker) (cmd : PacingCommand) (clk : nat -> Instant) (flush_at : Instant) : option Worker :=
  '(p, (stop, need_obs, act), reply) ← handle_command (wk_pacing w) cmd clk;
  let w := w <| wk_pacing := p |> <| wk_local := apply_outbound_local_action (wk_local w) act |>
             <| wk_replies := match reply with Some ok => wk_replies w ++ [ok] | None => wk_replies w end |> in
  let w := if need_obs : bool then publish_obs w else w in
  Some (if stop : bool then publish_obs (flush_outbound_local w flush_at) <| wk_stopped := true |> else w).

(** One successful send noted: the local cache, whether a destination was new, and the count. *)
Definition note_send (acc : gmap SocketAddr Instant * bool * Z) (n : SocketAddr * Instant) : gmap SocketAddr Instant * bool * Z :=
  let '(local, noted_new, notes) := acc in
  (<[n.1 := n.2]> local, noted_new || bool_decide (local !! n.1 = None), sat_add U64_MAX notes 1).

(** The destinations of a tick's sends with the readings taken after each. *)
Definition tick_notes (note_clk : nat -> Instant) (sent : list (bytes * SocketAddr)) : list (SocketAddr * Instant) :=
  imap (fun i x => (x.2, note_clk i)) sent.

(** The arm that took a tick. *)
Definition worker_tick (w : Worker) (env : Env) (started : Instant) (note_clk : nat -> Instant) (flush_at ended : Instant) : Worker :=
  let '(t, res) := tick_with env (wk_pacing w) in
  let '(local, noted_new, notes) := foldl note_send (wk_local w, false, 0) (tick_notes note_clk (tk_sent t)) in
  let w := w <| wk_pacing := tk_e t |> <| wk_local := local |> <| wk_pending := sat_add U64_MAX (wk_pending w) notes |> in
  let w := if noted_new || (OUTBOUND_LOCAL_FLUSH <=? duration_since started (wk_last_flush w))
           then flush_outbound_local w flush_at else w in
  let w := publish_apd w in
  let w := w <| wk_tick_seq := wrap 64 (wk_tick_seq w + 1) |> in
  let w := if wk_tick_seq w mod 8 =? 0 then publish_obs w else w in
  let '(sent, dead) := match res with Progress n => (n, None) | SocketDead d => (0, Some d) end in
  w <| wk_events := wk_events w ++ [TickDone sent (as_micros (duration_since ended started)) dead] |>.

(** *** Runs

    The worker ends at a [Stop] command, when the stop flag is seen with no command left, or when a channel
    is closed.  The shared clock is also written by the engine, which notes its own sends and forgets peers. *)

Inductive WorkerEv :=
  | Cmd (cmd : PacingCommand) (clk : nat -> Instant) (flush_at : Instant)
  | TickEv (env : Env) (started : Instant) (note_clk : nat -> Instant) (flush_at ended : Instant)
  | StopFlag (flush_at : Instant)
  | Closed
  | EngineNote (dest : SocketAddr) (now : Instant)
  | EngineForget (dest : SocketAddr)
  | EngineClear
  | EngineRetain (keep : gset SocketAddr).

Record Log := mkLog { lg_in : list (bytes * SocketAddr); lg_out : list (bytes * SocketAddr); lg_notes : list (SocketAddr * Instant) }.
Definition no_log : Log := mkLog [] [] [].
Definition log_app (a b : Log) : Log := mkLog (lg_in a ++ lg_in b) (lg_out a ++ lg_out b) (lg_notes a ++ lg_notes b).

(** The packets a command hands over. *)
Definition accepted (p : PacingEngine) (cmd : PacingCommand) (clk : nat -> Instant) : list (bytes * SocketAddr) :=
  match cmd with
  | EnqueueData pkt dest _ _ | EnqueueControl pkt dest | EnqueueRetransmit pkt dest => [(pkt, dest)]
  | TryEnqueuePeerBatch dest pkts rtt qd =>
      batch_in (try_enqueue_peer_batch p dest (timed clk pkts) rtt qd).2 dest (timed clk pkts)
  | _ => []
  end.

Definition worker_step (w : Worker) (ev : WorkerEv) : option (Worker * Log) :=
  match ev with
  | Cmd cmd clk flush_at =>
      if wk_stopped w then Some (w, no_log)
      else w' ← worker_command w cmd clk flush_at; Some (w', mkLog (accepted (wk_pacing w) cmd clk) [] [])
  | TickEv env started note_clk flush_at ended =>
      if wk_stopped w then Some (w, no_log)
      else let sent := tk_sent (tick_with env (wk_pacing w)).1 in
           Some (worker_tick w env started note_clk flush_at ended, mkLog [] sent (tick_notes note_clk sent))
  | StopFlag flush_at =>
      Some (if wk_stopped w then w else publish_obs (flush_outbound_local w flush_at) <| wk_stopped := true |>, no_log)
  | Closed => Some (w <| wk_stopped := true |>, no_log)
  | EngineNote dest now => Some (w <| wk_shared := ou_note (wk_shared w) dest now |>, mkLog [] [] [(dest, now)])
  | EngineForget dest => Some (w <| wk_shared := ou_remove (wk_shared w) dest |>, no_log)
  | EngineClear => Some (w <| wk_shared := ou_clear (wk_shared w) |>, no_log)
  | EngineRetain keep => Some (w <| wk_shared := retain_only (wk_shared w) keep |>, no_log)
  end.

Fixpoint worker_run (w : Worker) (evs : list WorkerEv) : option (Worker * Log) :=
  match evs with
  | [] => Some (w, no_log)
  | ev :: evs => '(w, l) ← worker_step w ev; '(w, k) ← worker_run w evs; Some (w, log_app l k)
  end.

(** Events that discard packets or zero the counters on purpose. *)
Definition discards (ev : WorkerEv) : bool :=
  match ev with
  | Cmd (RemovePeer _) _ _ | Cmd ResetSession _ _ | Cmd ResetObservabilityCounters _ _ => true
  | _ => false
  end.

(** ** Counters and conservation *)

(** What an event does to the books. *)
Definition balances (disc : bool) (p p' : PacingEngine) (inn out : list (bytes * SocketAddr)) : Prop :=
  pacing_ok p -> len inn + len (queued p) <= U64_MAX ->
  pacing_ok p' /\ exists lost, out ++ lost ++ queued p' ≡ₚ inn ++ queued p /\
                            (disc = false -> pe_dropped_packets p' = sat_add U64_MAX (pe_dropped_packets p) (len lost)).

Lemma ledger_balances disc p p' out drops inn : ledger p p' out drops inn -> balances disc p p' inn out.
Proof. intros L Ok F. destruct (L Ok F) as (Ok' & P & D). split; [done|]. by exists drops. Qed.

Lemma same_balances disc p p' : books p = books p' -> balances disc p p' [] [].
Proof. intros B. by eapply ledger_balances, ledger_same. Qed.

Lemma counters_zero_ok p p' :
  pe_control_q p' = pe_control_q p -> pe_retransmit_q p' = pe_retransmit_q p -> pe_peer_queues p' = pe_peer_queues p ->
  pe_non_empty_peers p' = pe_non_empty_peers p -> pe_queued_packets_total p' = pe_queued_packets_total p ->
  pe_dropped_packets p' = 0 -> balances true p p' [] [].
Proof.
  intros Ec Er Ep En Et Ed [K T B F D] _. assert (Q : queued p' = queued p) by (unfold queued; by rewrite Ec, Er, Ep). split.
  - split; rewrite ?Q, ?Ep, ?En, ?Et, ?Ed; done.
  - exists []. rewrite Q. split; [done|intros E; discriminate E].
Qed.

Lemma reset_session_balances p now : balances true p (reset_session_runtime p now) [] [].
Proof.
  intros Ok F. split; [split; cbn; try done; apply NoDup_nil_2|]. exists (queued p). split; [|intros E; discriminate E].
  cbn. by rewrite app_nil_r.
Qed.

Lemma handle_command_balances p cmd clk flush p' fl r :
  handle_command p cmd clk = Some (p', fl, r) -> balances (discards (Cmd cmd clk flush)) p p' (accepted p cmd clk) [].
Proof.
  destruct cmd as [pkt dest rtt qd|dest pkts rtt qd|pkt dest|pkt dest|dest|dest qd loss|cfg|b|cc| | |]; cbn [handle_command accepted];
    intros E; try (apply (inj Some) in E; inversion E; subst p'; clear E).
  - destruct (enqueue_peer_ledger p pkt dest rtt qd (clk 0%nat)) as [d L]. by eapply ledger_balances.
  - pose proof (enqueue_batch_ledger p dest (timed clk pkts) rtt qd) as L. cbv zeta in L.
    destruct (try_enqueue_peer_batch _ _ _ _ _) as [p1 ok]. apply (inj Some) in E. inversion E. subst p1. by eapply ledger_balances.
  - destruct (enqueue_control_ledger p pkt dest (clk 0%nat)) as [d L]. by eapply ledger_balances.
  - destruct (enqueue_retransmit_ledger p pkt dest (clk 0%nat)) as [d L]. by eapply ledger_balances.
  - intros Ok F. destruct (remove_peer_ledger p dest) as [gone L]. destruct (L Ok F) as (Ok' & P & _). split; [done|].
    exists gone. split; [done|intros X; discriminate X].
  - by apply same_balances.
  - destruct (pacing_set_config p cfg (clk 0%nat)) as [p1|] eqn:C; [|discriminate E].
    apply (inj Some) in E. inversion E. subst p1. eapply ledger_balances. by eapply set_config_ledger.
  - by apply same_balances.
  - by apply same_balances.
  - apply reset_session_balances.
  - by apply counters_zero_ok.
  - by apply same_balances.
Qed.

Lemma flush_pacing w now : wk_pacing (flush_outbound_local w now) = wk_pacing w.
Proof. done. Qed.

Lemma worker_tick_pacing w env a b c d : wk_pacing (worker_tick w env a b c d) = tk_e (tick_with env (wk_pacing w)).1.
Proof.
  unfold worker_tick. destruct (tick_with env (wk_pacing w)) as [t res]. destruct (foldl _ _ _) as [[local new] notes].
  destruct res; cbn [fst]; destruct (_ || _); cbn; destruct (_ =? 0); reflexivity.
Qed.

Lemma worker_step_balances w ev w' l :
  worker_step w ev = Some (w', l) -> balances (discards ev) (wk_pacing w) (wk_pacing w') (lg_in l) (lg_out l).
Proof.
  destruct ev as [cmd clk fl|env a b c d|fl| |dest now|dest| |keep]; cbn [worker_step]; intros E;
    try (apply (inj Some) in E; inversion E; subst w' l; clear E; cbn [lg_in lg_out no_log]).
  - destruct (wk_stopped w); [apply (inj Some) in E; inversion E; by apply same_balances|].
    unfold worker_command in E. destruct (handle_command (wk_pacing w) cmd clk) as [[[p [[st ob] act]] r]|] eqn:Hc; [|discriminate E].
    cbn [mbind option_bind] in E. apply (inj Some) in E. inversion E. subst w' l. cbn [lg_in lg_out].
    pose proof (handle_command_balances _ _ _ fl _ _ _ Hc) as B. destruct st, ob; exact B.
  - destruct (wk_stopped w); (apply (inj Some) in E; inversion E; subst w' l; cbn [lg_in lg_out no_log]); [by apply same_balances|].
    rewrite worker_tick_pacing. destruct (tick_ledger env (wk_pacing w)) as [dr L]. by eapply ledger_balances.
  - destruct (wk_stopped w); by apply same_balances.
  - by apply same_balances.
  - by apply same_balances.
  - by apply same_balances.
  - by apply same_balances.
  - by apply same_balances.
Qed.

Lemma worker_run_balances evs w w' l :
  worker_run w evs = Some (w', l) -> balances (existsb discards evs) (wk_pacing w) (wk_pacing w') (lg_in l) (lg_out l).
Proof.
  revert w w' l. induction evs as [|ev evs IH]; intros w w' l; cbn [worker_run].
  { intros E. apply (inj Some) in E. inversion E. by apply same_balances. }
  destruct (worker_step w ev) as [[w1 l1]|] eqn:S1; cbn [mbind option_bind]; [|intros E; discriminate E].
  destruct (worker_run w1 evs) as [[w2 l2]|] eqn:R; cbn [mbind option_bind]; intros E; [|discriminate E].
  apply (inj Some) in E. inversion E. subst w' l. cbn [log_app lg_in lg_out existsb].
  intros Ok F. rewrite len_app in F. destruct (worker_step_balances _ _ _ _ S1 Ok) as (Ok1 & k1 & P1 & D1); [unfold len in *; lia|].
  pose proof (len_perm _ _ P1) as L1. rewrite !len_app in L1.
  destruct (IH _ _ _ R Ok1) as (Ok2 & k2 & P2 & D2); [unfold len in *; lia|].
  split; [done|]. exists (k1 ++ k2). split.
  - transitivity (lg_out l1 ++ k1 ++ lg_out l2 ++ k2 ++ queued (wk_pacing w2)); [solve_Permutation|]. rewrite P2.
    transitivity (lg_in l2 ++ lg_out l1 ++ k1 ++ queued (wk_pacing w1)); [solve_Permutation|]. rewrite P1. solve_Permutation.
  - intros N. apply orb_false_iff in N as [N1 N2]. rewrite (D2 N2), (D1 N1), len_app. pose proof (ok_drops _ Ok).
    unfold sat_add, len in *. lia.
Qed.

Lemma new_pacing_ok cc now : pacing_ok (new_pacing cc now).
Proof. split; cbn; try done. apply NoDup_nil_2. Qed.

End Worker.

(** Whatever the worker is told to do, and whatever the clock reads and the socket answers, the
    engine's counters are exact, as long as fewer than 2^64 packets were handed over: the depths it
    publishes are the numbers of packets in the data, control and retransmit queues, and it counts as
    non-empty exactly the peers with a packet waiting. *)
Theorem worker_counters_exact (H : HashIter) cc t0 shared evs w l :
  worker_run (start_worker (new_pacing cc t0) shared t0) evs = Some (w, l) ->
  len (lg_in l) <= U64_MAX ->
  let p := wk_pacing w in
  qs_data_queued (queue_snapshot p) = len (peer_items (pe_peer_queues p)) /\
  qs_control_queued (queue_snapshot p) = len (pe_control_q p) /\
  qs_retransmit_queued (queue_snapshot p) = len (pe_retransmit_q p) /\
  pe_queued_packets_total p = len (queued p) /\
  pe_non_empty_peers p = len (filter (fun x : SocketAddr * PeerDataQueue => pq_is_empty x.2 = false) (pe_peer_queues p)).
Proof.
  intros R F p. destruct (worker_run_balances _ _ _ _ R) as [Ok _]; [apply new_pacing_ok|cbn; unfold len in *; cbn; lia|].
  fold p in Ok. split_and!; [|done|done|apply Ok|rewrite (ok_busy _ Ok); apply busy_count].
  cbn. rewrite (ok_total _ Ok). pose proof (ok_fits _ Ok) as Fit. unfold queued in *. rewrite !len_app in *.
  unfold of_ctrl, len in *. rewrite !length_fmap in *. unfold sat_sub, sat_add. lia.
Qed.


(** ** Outbound notes *)

Section Notes.
Context `{HashIter}.

(** Every instant remembered is that of a noted send, and every note is counted. *)
Record notes_ok (w : Worker) (notes : list (SocketAddr * Instant)) : Prop := {
  no_local : forall d t, wk_local w !! d = Some t -> (d, t) ∈ notes;
  no_shared : forall d t, ou_map (wk_shared w) !! d = Some t -> (d, t) ∈ notes;
  no_count : len notes <= U64_MAX -> ou_note_total (wk_shared w) + wk_pending w = len notes;
  no_pos : 0 <= wk_pending w /\ 0 <= ou_note_total (wk_shared w)
}.

Lemma merge_note_from m n d t : merge_note m n !! d = Some t -> m !! d = Some t \/ n = (d, t).
Proof.
  destruct n as [k v]. unfold merge_note. cbn. destruct (m !! k) as [prev|]; [destruct (v <=? prev); [by left|]|];
    rewrite lookup_insert_Some; intros [[-> ->]|[_ L]]; auto.
Qed.
Lemma merge_notes_from l m d t : foldl merge_note m l !! d = Some t -> m !! d = Some t \/ (d, t) ∈ l.
Proof.
  revert m. induction l as [|n l IH]; intros m L; [by left|]. cbn [foldl] in L. rewrite elem_of_cons.
  destruct (IH _ L) as [L1|]; [|by auto]. apply merge_note_from in L1 as [|E]; [by left|]. subst. auto.
Qed.

Lemma note_sends_local l local new n d t :
  (foldl note_send (local, new, n) l).1.1 !! d = Some t -> local !! d = Some t \/ (d, t) ∈ l.
Proof.
  revert local new n. induction l as [|[k v] l IH]; intros local new n L; [by left|]. cbn [foldl note_send] in L. rewrite elem_of_cons.
  destruct (IH _ _ _ L) as [L1|]; [|by auto]. cbn in L1. apply lookup_insert_Some in L1 as [[-> ->]|[_ L1]]; auto.
Qed.
Lemma note_sends_count l local new n :
  0 <= n -> n + len l <= U64_MAX -> (foldl note_send (local, new, n) l).2 = n + len l.
Proof.
  revert local new n. induction l as [|[k v] l IH]; intros local new n Hn F; unfold len in *; cbn [length] in *.
  - cbn. lia.
  - cbn [foldl note_send]. unfold sat_add. rewrite IH; lia.
Qed.
Lemma note_sends_nonneg l local new n : 0 <= n -> 0 <= (foldl note_send (local, new, n) l).2.
Proof.
  revert local new n. induction l as [|[k v] l IH]; intros local new n Hn; [done|]. cbn [foldl note_send].
  apply IH. unfold sat_add, U64_MAX. lia.
Qed.

Lemma wrap64_small n : 0 <= n <= U64_MAX -> wrap 64 n = n.
Proof. intros. apply wrap_small. unfold in_u, U64_MAX in *. lia. Qed.
Lemma wrap_nonneg n : 0 <= wrap 64 n.
Proof. unfold wrap. apply Z.mod_pos_bound. lia. Qed.

Lemma account_notes_total c n : 0 <= n -> ou_note_total (account_notes c n) = ou_note_total c \/ ou_note_total (account_notes c n) = wrap 64 (ou_note_total c + n).
Proof. intros. unfold account_notes. destruct (0 <? n); auto. Qed.

Lemma flush_notes w now notes : notes_ok w notes -> notes_ok (flush_outbound_local w now) notes.
Proof.
  intros [Lo Sh Co [P1 P2]].
  assert (Sm : forall c, ou_map (account_notes c (wk_pending w)) = ou_map c) by (intros c; unfold account_notes; by destruct (0 <? _)).
  assert (Tm : forall c, ou_note_total c = ou_note_total (wk_shared w) ->
    ou_note_total (account_notes c (wk_pending w)) = if 0 <? wk_pending w then wrap 64 (ou_note_total (wk_shared w) + wk_pending w) else ou_note_total (wk_shared w)).
  { intros c E. unfold account_notes. destruct (0 <? _); cbn; by rewrite E. }
  assert (Tc : ou_note_total (if bool_decide (wk_local w = ∅) then wk_shared w else merge_notes (wk_shared w) (wk_local w)) = ou_note_total (wk_shared w))
    by (by destruct (bool_decide _)).
  split.
  - exact Lo.
  - intros d t. cbn. rewrite Sm. case_bool_decide; [apply Sh|]. cbn. intros L. apply merge_notes_from in L as [L|L]; [by apply Sh|].
    apply hm_iter_elem in L. by apply Lo.
  - intros F. specialize (Co F). cbn. rewrite (Tm _ Tc). destruct (Z.ltb_spec 0 (wk_pending w)); [|lia].
    rewrite wrap64_small; lia.
  - cbn. rewrite (Tm _ Tc). destruct (Z.ltb_spec 0 (wk_pending w)); split; try lia. apply wrap_nonneg.
Qed.

Lemma notes_ok_eq w w' notes :
  wk_local w' = wk_local w -> wk_shared w' = wk_shared w -> wk_pending w' = wk_pending w -> notes_ok w notes -> notes_ok w' notes.
Proof. intros El Es Ep [Lo Sh Co Po]. split; rewrite ?El, ?Es, ?Ep; done. Qed.

Lemma worker_command_notes w cmd clk fl w' notes :
  worker_command w cmd clk fl = Some w' -> notes_ok w notes -> notes_ok w' notes.
Proof.
  unfold worker_command. destruct (handle_command _ _ _) as [[[p [[st ob] act]] r]|]; [|intros E; discriminate E].
  cbn [mbind option_bind]. intros E Ok. apply (inj Some) in E. subst w'.
  set (w1 := w <| wk_pacing := p |> <| wk_local := _ |> <| wk_replies := _ |>).
  assert (Ok1 : notes_ok w1 notes).
  { destruct Ok as [Lo Sh Co Po]. split; [|done|done|done]. intros d t. cbn. destruct act as [|x|]; cbn; [apply Lo| |].
    - rewrite lookup_delete_Some. intros [_ L]. by apply Lo.
    - rewrite lookup_empty. intros E. discriminate E. }
  assert (Ok2 : notes_ok (if ob then publish_obs w1 else w1) notes) by (destruct ob; [by apply (notes_ok_eq w1)|done]).
  destruct st; [|by destruct ob].
  apply (notes_ok_eq (flush_outbound_local (if ob then publish_obs w1 else w1) fl)); try done. by apply flush_notes.
Qed.

Lemma worker_tick_notes w env a clk c d notes :
  notes_ok w notes -> notes_ok (worker_tick w env a clk c d) (notes ++ tick_notes clk (tk_sent (tick_with env (wk_pacing w)).1)).
Proof.
  intros [Lo Sh Co [P1 P2]]. unfold worker_tick. destruct (tick_with env (wk_pacing w)) as [t res]. cbn [fst].
  set (new := tick_notes clk (tk_sent t)).
  pose proof (note_sends_local new (wk_local w) false 0) as Nl. pose proof (note_sends_count new (wk_local w) false 0) as Nc.
  pose proof (note_sends_nonneg new (wk_local w) false 0) as Nn.
  destruct (foldl note_send (wk_local w, false, 0) new) as [[local fresh] n]. cbn [fst snd] in *.
  set (w1 := w <| wk_pacing := tk_e t |> <| wk_local := local |> <| wk_pending := _ |>).
  assert (Ok1 : notes_ok w1 (notes ++ new)).
  { split; cbn.
    - intros x y L. rewrite elem_of_app. destruct (Nl _ _ L); auto.
    - intros x y L. rewrite elem_of_app. auto.
    - rewrite len_app. intros F. assert (0 <= len notes /\ 0 <= len new) by (unfold len; lia). unfold sat_add. rewrite Nc by lia. lia.
    - specialize (Nn ltac:(lia)). unfold sat_add, U64_MAX. lia. }
  set (w2 := if _ || _ then flush_outbound_local w1 c else w1).
  assert (Ok2 : notes_ok w2 (notes ++ new)) by (unfold w2; destruct (_ || _); [by apply flush_notes|done]).
  destruct res; apply (notes_ok_eq w2); try done; destruct (_ =? 0); done.
Qed.

Lemma worker_step_notes w ev w' l notes :
  worker_step w ev = Some (w', l) -> notes_ok w notes -> notes_ok w' (notes ++ lg_notes l).
Proof.
  assert (Nil : forall w0, notes_ok w0 notes -> notes_ok w0 (notes ++ lg_notes no_log)) by (intros w0; cbn; by rewrite app_nil_r).
  destruct ev as [cmd clk fl|env a b c d|fl| |dest now|dest| |keep]; cbn [worker_step]; intros E Ok.
  - destruct (wk_stopped w); [apply (inj Some) in E; inversion E; subst; auto|].
    destruct (worker_command w cmd clk fl) as [w1|] eqn:C; [|discriminate E]. cbn [mbind option_bind] in E.
    apply (inj Some) in E. inversion E. subst w' l. cbn. rewrite app_nil_r. by eapply worker_command_notes.
  - destruct (wk_stopped w); apply (inj Some) in E; inversion E; subst w' l; [auto|]. cbn [lg_notes]. by apply worker_tick_notes.
  - apply (inj Some) in E. inversion E. subst w' l. apply Nil. destruct (wk_stopped w); [done|].
    apply (notes_ok_eq (flush_outbound_local w fl)); try done. by apply flush_notes.
  - apply (inj Some) in E. inversion E. subst w' l. apply Nil. by apply (notes_ok_eq w).
  - apply (inj Some) in E. inversion E. subst w' l. destruct Ok as [Lo Sh Co [P1 P2]]. split; cbn.
    + intros x y L. rewrite elem_of_app. auto.
    + intros x y L. rewrite elem_of_app, list_elem_of_singleton. apply lookup_insert_Some in L as [[-> ->]|[_ L]]; auto.
    + rewrite len_app. change (len [(dest, now)]) with 1. intros F. assert (0 <= len notes) by (unfold len; lia).
      rewrite wrap64_small; lia.
    + split; [done|apply wrap_nonneg].
  - apply (inj Some) in E. inversion E. subst w' l. apply Nil. destruct Ok as [Lo Sh Co Po]. split; [done| |done|done].
    intros x y. cbn. rewrite lookup_delete_Some. intros [_ L]. by apply Sh.
  - apply (inj Some) in E. inversion E. subst w' l. apply Nil. destruct Ok as [Lo Sh Co Po]. split; [done| |done|done].
    intros x y. cbn. rewrite lookup_empty. intros X. discriminate X.
  - apply (inj Some) in E. inversion E. subst w' l. apply Nil. destruct Ok as [Lo Sh Co Po]. split; [done| |done|done].
    intros x y L. apply lookup_retain in L as [L _]. by apply Sh.
Qed.

Lemma worker_run_notes evs w w' l notes :
  worker_run w evs = Some (w', l) -> notes_ok w notes -> notes_ok w' (notes ++ lg_notes l).
Proof.
  revert w w' l notes. induction evs as [|ev evs IH]; intros w w' l notes; cbn [worker_run].
  { intros E Ok. apply (inj Some) in E. inversion E. subst. cbn. by rewrite app_nil_r. }
  destruct (worker_step w ev) as [[w1 l1]|] eqn:S1; cbn [mbind option_bind]; [|intros E; discriminate E].
  destruct (worker_run w1 evs) as [[w2 l2]|] eqn:R; cbn [mbind option_bind]; intros E Ok; [|discriminate E].
  apply (inj Some) in E. inversion E. subst w' l. cbn [log_app lg_notes]. rewrite app_assoc.
  eapply IH; [exact R|]. by eapply worker_step_notes.
Qed.

Lemma start_notes p t0 : notes_ok (start_worker p new_outbound t0) [].
Proof. split; cbn; try done; intros d t; rewrite lookup_empty; intros E; discriminate E. Qed.

End Notes.

(** A keepalive is skipped only for a destination that was sent to: if [needs_refresh] says no, a
    packet to that destination really left the socket, less than the keepalive interval ago, whatever
    commands, ticks, flushes and removals came between.  Notes are never lost from the count either. *)
Theorem keepalive_skip_sound (H : HashIter) p t0 evs w l dest now keepalive :
  worker_run (start_worker p new_outbound t0) evs = Some (w, l) ->
  (needs_refresh (wk_shared w) dest now keepalive = false ->
   exists t, (dest, t) ∈ lg_notes l /\ duration_since now t < keepalive) /\
  (len (lg_notes l) <= U64_MAX -> ou_note_total (wk_shared w) + wk_pending w = len (lg_notes l)).
Proof.
  intros R. pose proof (worker_run_notes _ _ _ _ _ R (start_notes p t0)) as [Lo Sh Co Po]. cbn [app] in *. split; [|done].
  unfold needs_refresh, ou_last. destruct (ou_map (wk_shared w) !! dest) as [t|] eqn:L; [|intros E; discriminate E].
  intros E. exists t. split; [by apply Sh|]. by apply Z.leb_gt in E.
Qed.

(** A run: two data packets and a control packet are queued and two ticks fire 20 ms apart, the first
    meeting a full socket on its second attempt; then a retransmission is queued and the worker is stopped. *)
Module WorkerRun.
Definition peer : SocketAddr := mkAddr (V4 167772161) 4000.
Definition start : Worker :=
  @start_worker canonical_iter (new_pacing (to_background_cc_config default_congestion) 0) new_outbound 0.
Definition clk (t : Instant) : nat -> Instant := fun _ => t.
Definition env (t : Instant) (full_at : nat) : Env := mkEnv (clk t) (fun k => if (k =? full_at)%nat then WouldBlock else SendOk).
Definition evs : list WorkerEv :=
  [Cmd (EnqueueData (repeat 7 900) peer None None) (clk 1000) 0;
   Cmd (EnqueueData (repeat 8 100) peer (Some (f32_of_Z 20)) None) (clk 2000) 0;
   Cmd (EnqueueControl (repeat 9 40) peer) (clk 3000) 0;
   TickEv (env (from_millis 20) 1) (from_millis 20) (clk (from_millis 20)) (from_millis 20) (from_millis 20);
   TickEv (env (from_millis 40) 9) (from_millis 40) (clk (from_millis 40)) (from_millis 40) (from_millis 40);
   Cmd (EnqueueRetransmit (repeat 6 60) peer) (clk (from_millis 40)) 0;
   Cmd Stop (clk 0) (from_millis 41)].
Definition res : option (Worker * Log) := @worker_run canonical_iter start evs.
Definition w : Worker := match res with Some (w, _) => w | None => start end.
Definition l : Log := match res with Some (_, l) => l | None => no_log end.
End WorkerRun.

Lemma worker_counters_exact_witness :
  len (lg_out WorkerRun.l) = 3 /\ let p := wk_pacing WorkerRun.w in
  qs_data_queued (queue_snapshot p) = len (peer_items (pe_peer_queues p)) /\
  qs_control_queued (queue_snapshot p) = len (pe_control_q p) /\
  qs_retransmit_queued (queue_snapshot p) = len (pe_retransmit_q p) /\
  pe_queued_packets_total p = len (queued p) /\
  pe_non_empty_peers p = len (filter (fun x : SocketAddr * PeerDataQueue => pq_is_empty x.2 = false) (pe_peer_queues p)).
Proof.
  split; [vm_compute; reflexivity|].
  apply (worker_counters_exact canonical_iter (to_background_cc_config default_congestion) 0 new_outbound WorkerRun.evs WorkerRun.w WorkerRun.l).
  - vm_compute. reflexivity.
  - vm_compute. intros E. discriminate E.
Defined.


Lemma keepalive_skip_sound_witness :
  needs_refresh (wk_shared WorkerRun.w) WorkerRun.peer (from_secs 1) (from_secs 5) = false /\
  (needs_refresh (wk_shared WorkerRun.w) WorkerRun.peer (from_secs 1) (from_secs 5) = false ->
   exists t, (WorkerRun.peer, t) ∈ lg_notes WorkerRun.l /\ duration_since (from_secs 1) t < from_secs 5) /\
  (len (lg_notes WorkerRun.l) <= U64_MAX ->
   ou_note_total (wk_shared WorkerRun.w) + wk_pending WorkerRun.w = len (lg_notes WorkerRun.l)).
Proof.
  split; [vm_compute; reflexivity|].
  apply (keepalive_skip_sound canonical_iter (new_pacing (to_background_cc_config default_congestion) 0) 0 WorkerRun.evs).
  vm_compute. reflexivity.
Defined.
