(* ===== verification/Tracker.v ===== *)
(** * BitTorrent trackers (src/nat/tracker.rs)

    The datagrams of UDP trackers, the request and response of HTTP trackers, the bencode reader and the
    URLs of trackers.  Text is a list of bytes; a [Result] whose error is only logged is an option.  The
    TCP exchange itself is not modelled, its request and the splitting of its response are.

    A response is built here as a tracker builds it, and [tracker_peers_roundtrip] shows that both readers
    get its peers back.  [bencode_roundtrip] shows that the bencode reader inverts bencode, and
    [bencode_depth_unbounded] that its recursion is as deep as the sender likes. *)

From S2P Require Import Prelude Text.
From Stdlib Require Import Ascii String.
#[local] Open Scope Z_scope.

(** ** Datagrams *)

Definition CONNECT_MAGIC : Z := 4497486125440.
Definition ACTION_CONNECT : Z := 0.
Definition ACTION_ANNOUNCE : Z := 1.
Definition ANNOUNCE_HEADER_LEN : nat := 20.
Definition COMPACT_PEER_LEN : nat := 6.
Definition MAX_PEERS_PER_RESPONSE : Z := 512.
Definition MAX_HTTP_ANNOUNCE_BODY : Z := 128 * 1024.

(** [buf[a..b]]. *)
Definition sub (a b : nat) (l : bytes) : bytes := take (b - a) (drop a l).

Definition build_connect_request (txn : bytes) : bytes := be_bytes 8 CONNECT_MAGIC ++ be_bytes 4 ACTION_CONNECT ++ txn.

Definition parse_connect_response (buf txn : bytes) : option Z :=
  if len buf <? 16 then None
  else if negb (be_val (sub 0 4 buf) =? ACTION_CONNECT) then None
  else if negb (bool_decide (sub 4 8 buf = txn)) then None
  else Some (be_val (sub 8 16 buf)).

(** Downloaded, left, uploaded, event, address and key are zero. *)
Definition build_announce_request (connection_id : Z) (txn info_hash peer_id : bytes) (port num_want : Z) : bytes :=
  be_bytes 8 connection_id ++ be_bytes 4 ACTION_ANNOUNCE ++ txn ++ info_hash ++ peer_id ++ repeat 0 36 ++
  be_bytes 4 num_want ++ be_bytes 2 port.

(** [chunks_exact(6)], over a list whose length is a multiple of 6. *)
Fixpoint compact_peers (n : nat) (l : bytes) : list SocketAddr :=
  match n with
  | O => []
  | S n =>
      let rest := compact_peers n (drop COMPACT_PEER_LEN l) in
      let port := be_val (sub 4 6 l) in
      if port =? 0 then rest else mkAddr (V4 (be_val (sub 0 4 l))) port :: rest
  end.

Definition parse_compact_peers (l : bytes) : option (list SocketAddr) :=
  if negb (len l mod 6 =? 0) then None
  else if MAX_PEERS_PER_RESPONSE <? len l / 6 then None
  else Some (compact_peers (Z.to_nat (len l / 6)) l).

Definition parse_announce_response (buf txn : bytes) : option (Z * list SocketAddr) :=
  if len buf <? Z.of_nat ANNOUNCE_HEADER_LEN then None
  else if negb (be_val (sub 0 4 buf) =? ACTION_ANNOUNCE) then None
  else if negb (bool_decide (sub 4 8 buf = txn)) then None
  else peers ← parse_compact_peers (drop ANNOUNCE_HEADER_LEN buf); Some (be_val (sub 8 12 buf), peers).

(** ** URLs *)

Inductive TrackerScheme := Udp | Http | Https.
#[export] Instance TrackerScheme_eq_dec : EqDecision TrackerScheme.
Proof. solve_decision. Defined.
Record TrackerEndpoint := mkTracker { te_scheme : TrackerScheme; te_host : bytes; te_port : Z; te_path : bytes }.

(** [s.split_once(c)] and [s.rsplit_once(c)]. *)
Fixpoint split_once (c : Z) (l : bytes) : option (bytes * bytes) :=
  match l with
  | [] => None
  | b :: l => if b =? c then Some ([], l) else '(x, y) ← split_once c l; Some (b :: x, y)
  end.
Definition rsplit_once (c : Z) (l : bytes) : option (bytes * bytes) :=
  '(y, x) ← split_once c (rev l); Some (rev x, rev y).

Definition parse_scheme (url : bytes) : option (TrackerScheme * bytes) :=
  match strip_prefix (str_bytes "udp://") url with
  | Some r => Some (Udp, r)
  | None =>
      match strip_prefix (str_bytes "http://") url with
      | Some r => Some (Http, r)
      | None => r ← strip_prefix (str_bytes "https://") url; Some (Https, r)
      end
  end.

Definition parse_authority (scheme : TrackerScheme) (authority : bytes) : option (bytes * Z) :=
  match rsplit_once 58 authority with
  | Some (h, p) =>
      port ← parse_uint 65535 p;
      if bool_decide (h = []) || (port =? 0) then None else Some (h, port)
  | None => match scheme with Http => Some (authority, 80) | Https => Some (authority, 443) | Udp => None end
  end.

Definition parse_tracker_endpoint (url : bytes) : option TrackerEndpoint :=
  '(scheme, rest) ← parse_scheme url;
  let '(authority, path_raw) := default (rest, []) (split_once 47 rest) in
  if bool_decide (authority = []) then None
  else if bool_decide (head authority = Some 91) then None
  else
    '(host, port) ← parse_authority scheme authority;
    let path := if bool_decide (path_raw = []) then str_bytes "/announce"
                else 47 :: match split_once 63 path_raw with Some (p, _) => p | None => path_raw end in
    Some (mkTracker scheme host port path).

Definition parse_tracker_url (url : bytes) : option (bytes * Z) :=
  ep ← parse_tracker_endpoint url;
  match te_scheme ep with Udp => Some (te_host ep, te_port ep) | _ => None end.

(** ** Requests over HTTP *)

Definition unreserved (b : Z) : bool :=
  ((65 <=? b) && (b <=? 90)) || ((97 <=? b) && (b <=? 122)) || ((48 <=? b) && (b <=? 57)) ||
  (b =? 45) || (b =? 95) || (b =? 46) || (b =? 126).
Definition hex_upper (d : Z) : Z := if d <? 10 then 48 + d else 55 + d.
Definition percent_encode_bytes (l : bytes) : bytes :=
  mbind (fun b => if unreserved b then [b] else [37; hex_upper (b / 16); hex_upper (b mod 16)]) l.

(** [format!] of a signed integer. *)
Definition fmt_int (n : Z) : bytes := if n <? 0 then 45 :: fmt_dec (- n) else fmt_dec n.

Definition build_http_announce_request_target (path info_hash peer_id : bytes) (port num_want : Z) : bytes :=
  (if bool_decide (path = []) then str_bytes "/announce" else path) ++ str_bytes "?info_hash=" ++ percent_encode_bytes info_hash ++
  str_bytes "&peer_id=" ++ percent_encode_bytes peer_id ++ str_bytes "&port=" ++ fmt_dec port ++
  str_bytes "&uploaded=0&downloaded=0&left=0&compact=1&numwant=" ++ fmt_int num_want.

Definition peer_id_from_room_and_node (room_id node_id : bytes) : bytes :=
  imap (fun i b => match node_id !! i with Some n => Z.lxor b n | None => b end) room_id.

(** ** Bencode *)

#[warnings="-register-all"]
Inductive BVal := BInt (n : Z) | BBytes (b : bytes) | BList (l : list BVal) | BDict (l : list (bytes * BVal)).

(** A value and the rest of the input, an error, or a recursion deeper than allowed. *)
Inductive Parsed (A : Type) := PVal (v : A) (rest : bytes) | PErr | PDeep.
Arguments PVal {A} v rest.
Arguments PErr {A}.
Arguments PDeep {A}.

(** [s.parse::<i64>()]. *)
Definition parse_i64 (l : bytes) : option Z :=
  match l with
  | [] => None
  | b :: r =>
      if b =? 45 then match r with [] => None | _ => Z.opp <$> parse_digits (2 ^ 63) 0 r end
      else parse_uint (2 ^ 63 - 1) l
  end.

Section Loops.
Context (parse : bytes -> Parsed BVal).

(** The items up to the closing [e]; every item takes a byte, so the length is fuel enough. *)
Fixpoint parse_items (fuel : nat) (l : bytes) : Parsed (list BVal) :=
  match fuel, l with
  | O, _ | _, [] => PErr
  | S fuel, b :: r =>
      if b =? 101 then PVal [] r
      else match parse l with
           | PVal v rest =>
               match parse_items fuel rest with
               | PVal vs rest => PVal (v :: vs) rest
               | PErr => PErr
               | PDeep => PDeep
               end
           | PErr => PErr
           | PDeep => PDeep
           end
  end.

Fixpoint parse_entries (fuel : nat) (l : bytes) : Parsed (list (bytes * BVal)) :=
  match fuel, l with
  | O, _ | _, [] => PErr
  | S fuel, b :: r =>
      if b =? 101 then PVal [] r
      else match parse l with
           | PVal (BBytes k) rest =>
               match parse rest with
               | PVal v rest =>
                   match parse_entries fuel rest with
                   | PVal es rest => PVal ((k, v) :: es) rest
                   | PErr => PErr
                   | PDeep => PDeep
                   end
               | PErr => PErr
               | PDeep => PDeep
               end
           | PVal _ _ | PErr => PErr
           | PDeep => PDeep
           end
  end.
End Loops.

(** [depth] is the number of nested calls allowed. *)
Fixpoint parse_bencode (depth : nat) (l : bytes) : Parsed BVal :=
  match depth with
  | O => PDeep
  | S depth =>
      match l with
      | [] => PErr
      | b :: r =>
          if b =? 105 then
            match split_once 101 r with
            | Some (ds, rest) => match parse_i64 ds with Some n => PVal (BInt n) rest | None => PErr end
            | None => PErr
            end
          else if b =? 108 then
            match parse_items (parse_bencode depth) (S (List.length r)) r with
            | PVal vs rest => PVal (BList vs) rest
            | PErr => PErr
            | PDeep => PDeep
            end
          else if b =? 100 then
            match parse_entries (parse_bencode depth) (S (List.length r)) r with
            | PVal es rest => PVal (BDict es) rest
            | PErr => PErr
            | PDeep => PDeep
            end
          else if is_digit b then
            match split_once 58 l with
            | Some (ds, rest) =>
                match parse_uint U64_MAX ds with
                | Some n => if len rest <? n then PErr else PVal (BBytes (take (Z.to_nat n) rest)) (drop (Z.to_nat n) rest)
                | None => PErr
                end
            | None => PErr
            end
          else PErr
      end
  end.

(** The interval and the peers of the entries, in their order. *)
Fixpoint read_entries (es : list (bytes * BVal)) (interval : option Z) (peers : option bytes) : option (option Z * option bytes) :=
  match es with
  | [] => Some (interval, peers)
  | (k, v) :: es =>
      if bool_decide (k = str_bytes "interval") || bool_decide (k = str_bytes "min interval") then
        match v with
        | BInt n => read_entries es (if bool_decide (interval = None) || bool_decide (k = str_bytes "interval") then Some n else interval) peers
        | _ => read_entries es interval peers
        end
      else if bool_decide (k = str_bytes "peers") then
        match v with BBytes b => read_entries es interval (Some b) | _ => None end
      else read_entries es interval peers
  end.

Definition parse_http_announce_body (body : bytes) : option (Z * list SocketAddr) :=
  match parse_bencode (S (List.length body)) body with
  | PVal (BDict entries) _ =>
      if existsb (fun e : bytes * BVal => bool_decide (e.1 = str_bytes "failure reason")) entries then None
      else
        '(interval, peers) ← read_entries entries None None;
        n ← interval;
        if negb ((0 <=? n) && (n <=? U32_MAX)) then None
        else ps ← parse_compact_peers (default [] peers); Some (n, ps)
  | _ => None
  end.

(** The position of the first blank line. *)
Fixpoint split_head (l : bytes) : option (bytes * bytes) :=
  match strip_prefix [13; 10; 13; 10] l with
  | Some body => Some ([], body)
  | None => match l with [] => None | b :: l => '(h, body) ← split_head l; Some (b :: h, body) end
  end.
Definition strip_cr (l : bytes) : bytes := match rev l with b :: r => if b =? 13 then rev r else l | [] => l end.

Definition split_http_body (raw : bytes) : option bytes :=
  '(headers, body) ← split_head raw;
  let status_line := strip_cr (default [] (head (split_on 10 headers))) in
  c ← split_on 32 status_line !! 1%nat;
  code ← parse_uint 65535 c;
  if negb ((200 <=? code) && (code <? 300)) then None
  else if MAX_HTTP_ANNOUNCE_BODY <? len body then None
  else Some body.

(** ** What a tracker sends *)

Fixpoint bencode (v : BVal) : bytes :=
  match v with
  | BInt n => 105 :: fmt_int n ++ [101]
  | BBytes b => fmt_dec (len b) ++ 58 :: b
  | BList l => 108 :: List.concat (map bencode l) ++ [101]
  | BDict l => 100 :: List.concat (map (fun kv : bytes * BVal => (fmt_dec (len kv.1) ++ 58 :: kv.1) ++ bencode kv.2) l) ++ [101]
  end.

(** Numbers of 64 bits, strings with a 64-bit length. *)
Fixpoint bval_ok (v : BVal) : bool :=
  match v with
  | BInt n => (- 2 ^ 63 <=? n) && (n <? 2 ^ 63)
  | BBytes b => len b <=? U64_MAX
  | BList l => forallb bval_ok l
  | BDict l => forallb (fun kv : bytes * BVal => (len kv.1 <=? U64_MAX) && bval_ok kv.2) l
  end.

Fixpoint bdepth (v : BVal) : nat :=
  match v with
  | BInt _ | BBytes _ => 1
  | BList l => S (foldr (fun v => Nat.max (bdepth v)) 1%nat l)
  | BDict l => S (foldr (fun kv : bytes * BVal => Nat.max (bdepth kv.2)) 1%nat l)
  end.

Section BValInd.
Context (P : BVal -> Prop).
Context (Hint : forall n, P (BInt n)) (Hbytes : forall b, P (BBytes b)).
Context (Hlist : forall l, Forall P l -> P (BList l)) (Hdict : forall l, Forall (fun kv : bytes * BVal => P kv.2) l -> P (BDict l)).

Fixpoint BVal_nested_ind (v : BVal) : P v :=
  match v with
  | BInt n => Hint n
  | BBytes b => Hbytes b
  | BList l => Hlist l ((fix go l : Forall P l := match l with [] => List.Forall_nil _ | v :: l => List.Forall_cons _ _ _ (BVal_nested_ind v) (go l) end) l)
  | BDict l =>
      Hdict l ((fix go l : Forall (fun kv : bytes * BVal => P kv.2) l :=
                  match l with [] => List.Forall_nil _ | kv :: l => List.Forall_cons _ _ _ (BVal_nested_ind kv.2) (go l) end) l)
  end.
End BValInd.

Lemma split_once_sep c l r : Forall (fun b => b <> c) l -> split_once c (l ++ c :: r) = Some (l, r).
Proof.
  induction 1 as [|b l Hb _ IH]; cbn; [by rewrite Z.eqb_refl|]. rewrite (proj2 (Z.eqb_neq _ _) Hb), IH. done.
Qed.

Lemma fmt_dec_cons n : 0 <= n -> exists b r, fmt_dec n = b :: r /\ 48 <= b <= 57.
Proof.
  intros Hn. pose proof (fmt_dec_digits n Hn) as D. destruct (fmt_dec n) as [|b r] eqn:E.
  - exfalso. unfold fmt_dec in E. apply (f_equal (@rev Z)) in E. rewrite rev_involutive in E. cbn in E. destruct (n <? 10); discriminate E.
  - exists b, r. split; [done|]. by apply Forall_cons in D as [D _].
Qed.

Lemma fmt_dec_sep c n : 0 <= n -> 57 < c \/ c < 48 -> Forall (fun b => b <> c) (fmt_dec n).
Proof. intros Hn Hc. eapply Forall_impl; [by apply fmt_dec_digits|]. cbn. lia. Qed.

Lemma parse_i64_fmt n : - 2 ^ 63 <= n < 2 ^ 63 -> parse_i64 (fmt_int n) = Some n.
Proof.
  intros R. unfold fmt_int, parse_i64. destruct (Z.ltb_spec n 0) as [Neg|Pos].
  - cbn [Z.eqb]. destruct (fmt_dec_cons (- n)) as (b & r & E & D); [lia|]. rewrite E, <- E.
    pose proof (parse_uint_fmt_dec (2 ^ 63) (- n)) as P. unfold parse_uint in P. rewrite E in *.
    destruct (Z.eqb_spec b 43); [lia|]. rewrite P by (unfold U64_MAX; lia). cbn. f_equal. lia.
  - destruct (fmt_dec_cons n) as (b & r & E & D); [lia|]. rewrite E, <- E. destruct (Z.eqb_spec b 45); [lia|].
    apply parse_uint_fmt_dec; unfold U64_MAX; lia.
Qed.

Lemma fmt_int_sep n : Forall (fun b => b <> 101) (fmt_int n).
Proof. unfold fmt_int. destruct (Z.ltb_spec n 0); [constructor; [lia|]|]; apply fmt_dec_sep; lia. Qed.

Lemma parse_string depth b rest :
  len b <= U64_MAX -> parse_bencode (S depth) ((fmt_dec (len b) ++ 58 :: b) ++ rest) = PVal (BBytes b) rest.
Proof.
  intros L. assert (N : 0 <= len b) by apply len_nonneg. rewrite <- app_assoc. cbn [app].
  destruct (fmt_dec_cons (len b) N) as (d & r & E & D). cbn [parse_bencode].
  rewrite E. cbn [app]. destruct (Z.eqb_spec d 105); [lia|]. destruct (Z.eqb_spec d 108); [lia|]. destruct (Z.eqb_spec d 100); [lia|].
  replace (is_digit d) with true by (unfold is_digit; lia). change (d :: r ++ 58 :: b ++ rest) with ((d :: r) ++ 58 :: b ++ rest). rewrite <- E.
  rewrite split_once_sep by (apply fmt_dec_sep; lia). rewrite parse_uint_fmt_dec by (unfold U64_MAX in *; lia).
  rewrite len_app. destruct (Z.ltb_spec (len b + len rest) (len b)); [pose proof (len_nonneg rest); lia|].
  unfold len. rewrite Nat2Z.id, take_app_length, drop_app_length. done.
Qed.

Lemma bencode_cons v : exists b r, bencode v = b :: r /\ b <> 101.
Proof.
  destruct v as [n|b|l|l]; cbn [bencode]; try (eexists _, _; split; [reflexivity|lia]).
  destruct (fmt_dec_cons (len b)) as (d & r & E & D); [apply len_nonneg|]. rewrite E. eexists _, _. split; [reflexivity|lia].
Qed.

Lemma entry_cons (kv : bytes * BVal) t :
  exists b r, ((fmt_dec (len kv.1) ++ 58 :: kv.1) ++ bencode kv.2) ++ t = b :: r /\ b <> 101.
Proof.
  destruct (fmt_dec_cons (len kv.1)) as (d & r & E & D); [apply len_nonneg|]. rewrite E. eexists _, _. split; [reflexivity|lia].
Qed.

Lemma parse_items_bencode p l fuel rest :
  Forall (fun v => forall rest, p (bencode v ++ rest) = PVal v rest) l -> (List.length l < fuel)%nat ->
  parse_items p fuel (List.concat (map bencode l) ++ 101 :: rest) = PVal l rest.
Proof.
  intros H. revert fuel. induction H as [|v l Hv _ IH]; intros [|fuel] F; cbn in F; try lia; [done|].
  cbn [map List.concat]. rewrite <- app_assoc. destruct (bencode_cons v) as (b & r & E & Nb). cbn [parse_items].
  rewrite E. cbn [app]. rewrite (proj2 (Z.eqb_neq _ _) Nb), (app_comm_cons r _ b), <- E, Hv, IH by lia. done.
Qed.

Lemma parse_entries_bencode p l fuel rest :
  Forall (fun kv : bytes * BVal => (forall rest, p ((fmt_dec (len kv.1) ++ 58 :: kv.1) ++ rest) = PVal (BBytes kv.1) rest) /\
                                 forall rest, p (bencode kv.2 ++ rest) = PVal kv.2 rest) l ->
  (List.length l < fuel)%nat ->
  parse_entries p fuel (List.concat (map (fun kv : bytes * BVal => (fmt_dec (len kv.1) ++ 58 :: kv.1) ++ bencode kv.2) l) ++ 101 :: rest) = PVal l rest.
Proof.
  intros H. revert fuel. induction H as [|[k v] l [Hk Hv] _ IH]; intros [|fuel] F; cbn in F; try lia; [done|].
  cbn [map List.concat fst snd] in *. rewrite <- !app_assoc in *. rewrite (app_assoc (fmt_dec (len k))).
  set (tail := bencode v ++ _). destruct (fmt_dec_cons (len k)) as (d & r & E & D); [apply len_nonneg|]. cbn [parse_entries].
  rewrite E. cbn [app]. destruct (Z.eqb_spec d 101); [lia|].
  replace (d :: (r ++ 58 :: k) ++ tail) with ((fmt_dec (len k) ++ 58 :: k) ++ tail) by (by rewrite E).
  rewrite Hk. unfold tail. rewrite Hv, IH by lia. done.
Qed.

Lemma concat_length {A} (f : A -> bytes) l : (forall x, f x <> []) -> (List.length l <= List.length (List.concat (map f l)))%nat.
Proof.
  intros H. induction l as [|x l IH]; [done|]. cbn. rewrite length_app. specialize (H x). destruct (f x); [done|]. cbn. lia.
Qed.

Lemma parse_bencode_bencode v depth rest :
  bval_ok v = true -> (bdepth v <= depth)%nat -> parse_bencode depth (bencode v ++ rest) = PVal v rest.
Proof.
  revert depth rest. induction v as [n|b|l IH|l IH] using BVal_nested_ind; intros [|depth] rest Ok De; cbn [bdepth] in De; try lia.
  - cbn [bencode bval_ok] in *. cbn [app parse_bencode]. rewrite Z.eqb_refl, <- app_assoc. cbn [app].
    rewrite split_once_sep by apply fmt_int_sep. rewrite parse_i64_fmt by lia. done.
  - cbn [bval_ok] in Ok. apply parse_string. lia.
  - cbn [bencode bval_ok] in *. cbn [app parse_bencode Z.eqb]. rewrite <- app_assoc. cbn [app].
    rewrite parse_items_bencode; [done| |].
    + rewrite forallb_forall in Ok. apply Forall_forall. intros v Hv rest'. apply list_elem_of_In in Hv as Hi.
      rewrite Forall_forall in IH. apply IH; [done|by apply Ok|]. clear -De Hv.
      induction Hv as [v l|v w l Hv IH]; cbn in De; [lia|]. apply IH. lia.
    + assert (List.length l <= List.length (List.concat (map bencode l)))%nat by (apply concat_length; intros x; destruct (bencode_cons x) as (? & ? & -> & _); done).
      rewrite length_app. cbn. lia.
  - cbn [bencode bval_ok] in *. cbn [app parse_bencode Z.eqb]. rewrite <- app_assoc. cbn [app].
    rewrite parse_entries_bencode; [done| |].
    + rewrite forallb_forall in Ok. apply Forall_forall. intros kv Hv. apply list_elem_of_In in Hv as Hi. specialize (Ok _ Hi).
      apply andb_true_iff in Ok as [Ok1 Ok2]. rewrite Forall_forall in IH.
      assert (De' : (bdepth kv.2 <= depth)%nat /\ (1 <= depth)%nat).
      { clear -De Hv. induction Hv as [v l|v w l Hv IH]; cbn in De; [|apply IH; lia]. split; [lia|]. destruct (bdepth v.2) eqn:E; [|lia].
        destruct v as [? [| | |]]; discriminate E. }
      split; intros rest'; [|apply IH; [done|done|lia]]. destruct depth; [lia|]. apply parse_string. lia.
    + match goal with |- context [List.concat (map ?f l)] => assert (List.length l <= List.length (List.concat (map f l)))%nat end.
      { apply concat_length. intros x. destruct (entry_cons x []) as (? & ? & E & _). rewrite app_nil_r in E. rewrite E. done. }
      rewrite length_app. cbn [List.length]. lia.
Qed.

(** *** The reader always ends *)

Definition shorter {A} (r : Parsed A) (l : bytes) : Prop :=
  match r with PVal _ rest => (List.length rest < List.length l)%nat | _ => True end.

Lemma split_once_shorter c l x y : split_once c l = Some (x, y) -> (List.length y < List.length l)%nat.
Proof.
  revert x. induction l as [|b l IH]; intros x; cbn; [intros E; discriminate E|].
  destruct (b =? c); [intros [= <- <-]; lia|]. destruct (split_once c l) as [[x' y']|]; cbn; [|intros E; discriminate E].
  intros [= <- <-]. specialize (IH x' eq_refl). lia.
Qed.

Section LoopFacts.
Context (p : bytes -> Parsed BVal).
Context (Hs : forall l, shorter (p l) l).

Lemma parse_items_shorter fuel l : shorter (parse_items p fuel l) l.
Proof.
  revert l. induction fuel as [|fuel IH]; intros [|b l]; cbn [parse_items]; try done. destruct (b =? 101); [cbn; lia|].
  pose proof (Hs (b :: l)) as S. destruct (p (b :: l)) as [v rest| |]; [|done|done]. cbn in S.
  specialize (IH rest). destruct (parse_items p fuel rest) as [vs rest'| |]; [|done|done]. cbn in *. lia.
Qed.
Lemma parse_entries_shorter fuel l : shorter (parse_entries p fuel l) l.
Proof.
  revert l. induction fuel as [|fuel IH]; intros [|b l]; cbn [parse_entries]; try done. destruct (b =? 101); [cbn; lia|].
  pose proof (Hs (b :: l)) as S. destruct (p (b :: l)) as [v rest| |]; [|done|done]. destruct v as [|k| |]; try done. cbn in S.
  pose proof (Hs rest) as S2. destruct (p rest) as [v2 rest2| |]; [|done|done]. cbn in S2.
  specialize (IH rest2). destruct (parse_entries p fuel rest2) as [vs rest'| |]; [|done|done]. cbn in *. lia.
Qed.

Context (m : nat) (Hd : forall l, (List.length l <= m)%nat -> p l <> PDeep).
Lemma parse_items_not_deep fuel l : (List.length l <= m)%nat -> parse_items p fuel l <> PDeep.
Proof.
  revert l. induction fuel as [|fuel IH]; intros [|b l] L; cbn [parse_items]; try done. destruct (b =? 101); [done|].
  pose proof (Hs (b :: l)) as S. pose proof (Hd _ L) as D. destruct (p (b :: l)) as [v rest| |]; [|done|done]. cbn in S, L.
  specialize (IH rest ltac:(lia)). by destruct (parse_items p fuel rest).
Qed.
Lemma parse_entries_not_deep fuel l : (List.length l <= m)%nat -> parse_entries p fuel l <> PDeep.
Proof.
  revert l. induction fuel as [|fuel IH]; intros [|b l] L; cbn [parse_entries]; try done. destruct (b =? 101); [done|].
  pose proof (Hs (b :: l)) as S. pose proof (Hd _ L) as D. destruct (p (b :: l)) as [v rest| |]; [|done|done]. destruct v as [|k| |]; try done. cbn in S, L.
  pose proof (Hs rest) as S2. pose proof (Hd rest ltac:(lia)) as D2. destruct (p rest) as [v2 rest2| |]; [|done|done]. cbn in S2.
  specialize (IH rest2 ltac:(lia)). by destruct (parse_entries p fuel rest2).
Qed.
End LoopFacts.

Lemma parse_bencode_shorter depth l : shorter (parse_bencode depth l) l.
Proof.
  revert l. induction depth as [|depth IH]; intros [|b l]; cbn [parse_bencode]; try done.
  destruct (b =? 105); [|destruct (b =? 108); [|destruct (b =? 100); [|destruct (is_digit b); [|done]]]].
  - destruct (split_once 101 l) as [[ds rest]|] eqn:E; [|done]. apply split_once_shorter in E. destruct (parse_i64 ds); cbn; [lia|done].
  - pose proof (parse_items_shorter _ IH (S (List.length l)) l) as H. destruct (parse_items _ _ _); cbn in *; [lia|done|done].
  - pose proof (parse_entries_shorter _ IH (S (List.length l)) l) as H. destruct (parse_entries _ _ _); cbn in *; [lia|done|done].
  - destruct (split_once 58 (b :: l)) as [[ds rest]|] eqn:E; [|done]. apply split_once_shorter in E. destruct (parse_uint U64_MAX ds); [|done].
    destruct (_ <? _); cbn; [done|]. rewrite length_drop. cbn in E. lia.
Qed.

Lemma parse_bencode_not_deep depth l : (List.length l < depth)%nat -> parse_bencode depth l <> PDeep.
Proof.
  revert l. induction depth as [|depth IH]; intros [|b l] L; cbn [parse_bencode]; cbn in L; try lia; [done|].
  assert (Hd : forall k, (List.length k <= List.length l)%nat -> parse_bencode depth k <> PDeep) by (intros k Hk; apply IH; lia).
  destruct (b =? 105); [|destruct (b =? 108); [|destruct (b =? 100); [|destruct (is_digit b); [|done]]]].
  - destruct (split_once 101 l) as [[ds rest]|]; [|done]. by destruct (parse_i64 ds).
  - pose proof (parse_items_not_deep _ (parse_bencode_shorter depth) _ Hd (S (List.length l)) l ltac:(lia)). by destruct (parse_items _ _ _).
  - pose proof (parse_entries_not_deep _ (parse_bencode_shorter depth) _ Hd (S (List.length l)) l ltac:(lia)). by destruct (parse_entries _ _ _).
  - destruct (split_once 58 (b :: l)) as [[ds rest]|]; [|done]. destruct (parse_uint U64_MAX ds); [|done]. by destruct (_ <? _).
Qed.

(** The bencode reader ends on every input without nesting deeper than its length, and gives back
    every value with 64-bit numbers whose encoding the input starts with, leaving the rest. *)
Theorem bencode_roundtrip :
  (forall l, parse_bencode (S (List.length l)) l <> PDeep) /\
  (forall v depth rest, bval_ok v = true -> (bdepth v <= depth)%nat -> parse_bencode depth (bencode v ++ rest) = PVal v rest).
Proof.
  split; [intros l; apply parse_bencode_not_deep; lia|]. intros v depth rest. apply parse_bencode_bencode.
Qed.

(** A list whose first item fails, fails in the same way. *)
Lemma nested_step d r res :
  parse_bencode d (108 :: r) = res -> res = PDeep \/ res = PErr -> parse_bencode (S d) (108 :: 108 :: r) = res.
Proof.
  intros E R.
  change (parse_bencode (S d) (108 :: 108 :: r)) with
    (match parse_items (parse_bencode d) (S (List.length (108 :: r))) (108 :: r) with PVal vs rest => PVal (BList vs) rest | PErr => PErr | PDeep => PDeep end).
  cbn [parse_items List.length]. change (108 =? 101) with false. cbv iota. rewrite E. by destruct R as [->| ->].
Qed.

(** The depth of the reader's recursion is the sender's choice: a body of [n + 1] opening brackets
    makes it nest [n + 1] calls before it fails, and a body may have 131072 bytes. *)
Theorem bencode_depth_unbounded n :
  parse_bencode n (repeat 108 (S n)) = PDeep /\ parse_bencode (S n) (repeat 108 (S n)) = PErr.
Proof.
  induction n as [|n [A B]]; [done|]. cbn [repeat] in *. split; apply nested_step; auto.
Qed.

(** *** Responses *)

Definition encode_compact (ps : list (Z * Z)) : bytes := mbind (fun p : Z * Z => be_bytes 4 p.1 ++ be_bytes 2 p.2) ps.
Definition peer_ok (p : Z * Z) : bool := (0 <=? p.1) && (p.1 <? 2 ^ 32) && (0 <=? p.2) && (p.2 <? 2 ^ 16).
(** The peers with a usable port. *)
Definition usable (ps : list (Z * Z)) : list SocketAddr :=
  omap (fun p : Z * Z => if p.2 =? 0 then None else Some (mkAddr (V4 p.1) p.2)) ps.

Definition encode_announce_response (interval leechers seeders : Z) (txn : bytes) (ps : list (Z * Z)) : bytes :=
  be_bytes 4 ACTION_ANNOUNCE ++ txn ++ be_bytes 4 interval ++ be_bytes 4 leechers ++ be_bytes 4 seeders ++ encode_compact ps.
Definition http_announce_body (interval : Z) (ps : list (Z * Z)) : bytes :=
  bencode (BDict [(str_bytes "interval", BInt interval); (str_bytes "peers", BBytes (encode_compact ps))]).

Lemma be_val_small n z : 0 <= z < 2 ^ (8 * Z.of_nat n) -> be_val (be_bytes n z) = z.
Proof. intros R. rewrite be_val_be_bytes. by apply Z.mod_small. Qed.

Lemma compact_peers_encode ps rest :
  forallb peer_ok ps = true -> compact_peers (List.length ps) (encode_compact ps ++ rest) = usable ps.
Proof.
  induction ps as [|[ip port] ps IH]; [done|]. cbn [forallb List.length compact_peers]. intros Ok. apply andb_true_iff in Ok as [Ok1 Ok2].
  unfold encode_compact. cbn [mbind list_bind fst snd]. fold (encode_compact ps). rewrite <- !app_assoc. unfold peer_ok in Ok1. cbn [fst snd] in Ok1.
  assert (D : drop COMPACT_PEER_LEN (be_bytes 4 ip ++ be_bytes 2 port ++ encode_compact ps ++ rest) = encode_compact ps ++ rest).
  { rewrite app_assoc. apply drop_app_length'. by rewrite length_app, !length_be_bytes. }
  assert (P : be_val (sub 4 6 (be_bytes 4 ip ++ be_bytes 2 port ++ encode_compact ps ++ rest)) = port).
  { unfold sub. rewrite be_bytes_app_drop, be_bytes_app_take. apply be_val_small. cbn. lia. }
  assert (I : be_val (sub 0 4 (be_bytes 4 ip ++ be_bytes 2 port ++ encode_compact ps ++ rest)) = ip).
  { unfold sub. rewrite drop_0, be_bytes_app_take. apply be_val_small. cbn. lia. }
  rewrite D, P, I, IH by done. cbn [usable omap list_omap snd fst]. by destruct (port =? 0).
Qed.

Lemma encode_compact_len ps : len (encode_compact ps) = 6 * len ps.
Proof.
  induction ps as [|p ps IH]; [done|]. unfold encode_compact in *. cbn [mbind list_bind]. rewrite !len_app, IH, len_cons.
  unfold len. rewrite !length_be_bytes. lia.
Qed.

Lemma parse_compact_encode ps :
  forallb peer_ok ps = true -> len ps <= MAX_PEERS_PER_RESPONSE -> parse_compact_peers (encode_compact ps) = Some (usable ps).
Proof.
  intros Ok L. unfold parse_compact_peers. rewrite encode_compact_len. rewrite (Z.mul_comm 6), Z.mod_mul, Z.div_mul by lia. cbn [Z.eqb negb].
  destruct (Z.ltb_spec MAX_PEERS_PER_RESPONSE (len ps)); [lia|]. unfold len at 1. rewrite Nat2Z.id.
  rewrite <- (app_nil_r (encode_compact ps)). by rewrite compact_peers_encode.
Qed.

Lemma parse_announce_encode interval leechers seeders txn ps :
  0 <= interval < 2 ^ 32 -> List.length txn = 4%nat -> forallb peer_ok ps = true -> len ps <= MAX_PEERS_PER_RESPONSE ->
  parse_announce_response (encode_announce_response interval leechers seeders txn ps) txn = Some (interval, usable ps).
Proof.
  intros Ri Lt Ok L. unfold parse_announce_response, encode_announce_response. rewrite !len_app. unfold len at 1 2 3 4 5. rewrite !length_be_bytes, Lt.
  pose proof (len_nonneg (encode_compact ps)). destruct (Z.ltb_spec (Z.of_nat 4 + (Z.of_nat 4 + (Z.of_nat 4 + (Z.of_nat 4 + (Z.of_nat 4 + len (encode_compact ps)))))) (Z.of_nat ANNOUNCE_HEADER_LEN));
    [unfold ANNOUNCE_HEADER_LEN in *; lia|].
  unfold sub. rewrite drop_0. cbn [Nat.sub]. rewrite be_bytes_app_take, be_val_small by (cbn; unfold ACTION_ANNOUNCE; lia). rewrite Z.eqb_refl. cbn [negb].
  rewrite be_bytes_app_drop, take_app_length' by done. rewrite bool_decide_true by done. cbn [negb].
  assert (D : forall k l, drop ANNOUNCE_HEADER_LEN (be_bytes 4 ACTION_ANNOUNCE ++ txn ++ be_bytes 4 interval ++ be_bytes 4 k ++ be_bytes 4 l ++ encode_compact ps) = encode_compact ps).
  { intros k l. rewrite !app_assoc. apply drop_app_length'. rewrite !length_app, !length_be_bytes, Lt. done. }
  rewrite D, parse_compact_encode by done. cbn [mbind option_bind]. do 3 f_equal.
  rewrite app_assoc, drop_app_length' by (rewrite length_app, length_be_bytes, Lt; done). rewrite be_bytes_app_take. apply be_val_small. cbn. lia.
Qed.

Lemma parse_http_encode interval ps :
  0 <= interval <= U32_MAX -> forallb peer_ok ps = true -> len ps <= MAX_PEERS_PER_RESPONSE ->
  parse_http_announce_body (http_announce_body interval ps) = Some (interval, usable ps).
Proof.
  intros Ri Ok L. unfold parse_http_announce_body, http_announce_body. set (v := BDict _).
  assert (Vo : bval_ok v = true).
  { unfold v. cbn [bval_ok forallb fst snd]. rewrite encode_compact_len.
    change (len (str_bytes "interval") <=? U64_MAX) with true. change (len (str_bytes "peers") <=? U64_MAX) with true. cbn [andb].
    pose proof (len_nonneg ps). unfold U32_MAX, U64_MAX, MAX_PEERS_PER_RESPONSE in *. lia. }
  pose proof (parse_bencode_bencode v (S (List.length (bencode v))) [] Vo) as P. rewrite app_nil_r in P. rewrite P.
  2: { change (bdepth v) with 2%nat. destruct (bencode_cons v) as (b & r & -> & _). cbn [List.length]. lia. }
  unfold v. cbn [existsb fst]. change (bool_decide (str_bytes "interval" = str_bytes "failure reason")) with false.
  change (bool_decide (str_bytes "peers" = str_bytes "failure reason")) with false. cbn [orb].
  cbn [read_entries]. change (bool_decide (str_bytes "interval" = str_bytes "interval")) with true.
  change (bool_decide (str_bytes "peers" = str_bytes "interval")) with false. change (bool_decide (str_bytes "peers" = str_bytes "min interval")) with false.
  change (bool_decide (str_bytes "peers" = str_bytes "peers")) with true. cbn [orb mbind option_bind default].
  rewrite orb_true_r. cbn [mbind option_bind]. destruct (Z.leb_spec 0 interval), (Z.leb_spec interval U32_MAX); try lia. cbn [andb negb default].
  change (id (encode_compact ps)) with (encode_compact ps). by rewrite parse_compact_encode.
Qed.

(** Both kinds of tracker are understood alike: the peers of an announce response, as a datagram or as
    a bencoded body, are exactly those the tracker listed with a usable port, in its order, with its
    interval; a datagram for another transaction is refused. *)
Theorem tracker_peers_roundtrip interval leechers seeders txn ps :
  0 <= interval <= U32_MAX -> List.length txn = 4%nat -> forallb peer_ok ps = true -> len ps <= MAX_PEERS_PER_RESPONSE ->
  parse_announce_response (encode_announce_response interval leechers seeders txn ps) txn = Some (interval, usable ps) /\
  parse_http_announce_body (http_announce_body interval ps) = Some (interval, usable ps) /\
  (forall other, other <> txn -> parse_announce_response (encode_announce_response interval leechers seeders txn ps) other = None).
Proof.
  intros Ri Lt Ok L. split_and!; [apply parse_announce_encode; unfold U32_MAX in *; [lia|done..]|by apply parse_http_encode|].
  intros other Ne. unfold parse_announce_response. destruct (_ <? _); [done|]. destruct (negb _); [done|].
  rewrite bool_decide_false; [done|]. unfold sub, encode_announce_response. cbn [Nat.sub]. rewrite be_bytes_app_drop, take_app_length' by done. done.
Qed.

Lemma tracker_peers_roundtrip_witness :
  parse_http_announce_body (http_announce_body 180 [(167772161, 7886); (3405803777, 0)]) = Some (180, [mkAddr (V4 167772161) 7886]).
Proof.
  apply (tracker_peers_roundtrip 180 3 4 [9; 9; 9; 9] [(167772161, 7886); (3405803777, 0)]).
  - unfold U32_MAX. lia.
  - reflexivity.
  - reflexivity.
  - vm_compute. intros E. discriminate E.
Defined.

Lemma bencode_roundtrip_witness :
  parse_bencode 9 (bencode (BList [BInt (-7); BDict [([107], BBytes [1; 2])]]) ++ [3]) =
  PVal (BList [BInt (-7); BDict [([107], BBytes [1; 2])]]) [3].
Proof. apply (proj2 bencode_roundtrip); [reflexivity|cbn; lia]. Defined.

(** A response in chunks, which the request (HTTP/1.1) allows, is not understood: the sizes of the chunks are
    taken for the body. *)
Definition crlf : bytes := [13; 10].
Definition chunked_response (body : bytes) : bytes :=
  str_bytes "HTTP/1.1 200 OK" ++ crlf ++ str_bytes "Transfer-Encoding: chunked" ++ crlf ++ crlf ++
  str_bytes "20" ++ crlf ++ body ++ crlf ++ str_bytes "0" ++ crlf ++ crlf.

Lemma chunked_response_lost :
  let body := http_announce_body 120 [(3405803777, 7878)] in
  len body = 32 /\ parse_http_announce_body body = Some (120, [mkAddr (V4 3405803777) 7878]) /\
  (split_http_body (chunked_response body) ≫= parse_http_announce_body) = None.
Proof. vm_compute. done. Qed.
