(* ===== verification/Punch.v ===== *)
(** * Hole punching (the target lists of src/net/decentralized.rs, src/net/punch_workflow.rs)

    Which endpoints are punched, and the three stages of a punch workflow: a burst to the known endpoints,
    a scan of the ports near them, and random ports until a deadline.  Random draws, the readings of the
    stop flag and the clock are arguments; a run is the trace of what the workflow does.

    [expand_exact] gives the scan as its first distinct candidates, [residual_spec] what a batch of random
    endpoints is, and [punch_workflow_spec] that the random stage tries no endpoint twice, that a stage
    starts only when the one before is complete, and that nothing is sent once the stop flag was seen. *)

From S2P Require Import Prelude Tuning.
#[local] Open Scope Z_scope.

(** ** Targets *)

Definition MAX_EXPANDED_PUNCH_TARGETS : Z := 512.
Definition SYMMETRIC_SCAN_WIDTH : Z := 128.
Definition JOIN_OVERLAY_INVITE_PRE_WIDTH : Z := 256.

Definition PORT_MIN : Z := 1.
Definition PORT_MAX : Z := 65535.

Definition build_symmetric_punch_targets (ip : IpAddr) (port width : Z) : list SocketAddr :=
  let scan := Z.max width 1 in
  let start := Z.max (port - swrap 32 (scan / 2)) PORT_MIN in
  mkAddr ip <$> filter (fun p => p <= PORT_MAX) ((fun k => start + Z.of_nat k) <$> seq 0 (Z.to_nat scan)).

(** Adds endpoints not seen yet until [max] are there. *)
Fixpoint add_targets (max : Z) (cands : list SocketAddr) (acc : gset SocketAddr * list SocketAddr)
  : gset SocketAddr * list SocketAddr * bool :=
  match cands with
  | [] => (acc, false)
  | c :: cands =>
      let '(dedup, expanded) := acc in
      if bool_decide (c ∈ dedup) then add_targets max cands acc
      else
        let acc := ({[c]} ∪ dedup, expanded ++ [c]) in
        if max <=? len (expanded ++ [c]) then (acc, true) else add_targets max cands acc
  end.

Definition expand_intensity_symmetric (base : list SocketAddr) (per_peer_width max : Z) : list SocketAddr :=
  match add_targets max base (∅, []) with
  | (acc, true) => acc.2
  | (acc, false) =>
      (add_targets max (mbind (fun ep => build_symmetric_punch_targets (sa_ip ep) (sa_port ep) per_peer_width) base) acc).1.2
  end.
Definition expand_symmetric_targets (base : list SocketAddr) (max : Z) : list SocketAddr :=
  expand_intensity_symmetric base SYMMETRIC_SCAN_WIDTH max.

Definition join_wide_per_peer_width (peer_count max_expanded min_width max_width : Z) : Z :=
  let n := Z.max peer_count 1 in
  let max_expanded := Z.max max_expanded 1 in
  let min_width := Z.max min_width 1 in
  let max_width := Z.max max_width min_width in
  clamp min_width max_width (max_expanded / n).

Definition invite_pre_punch_targets (hint : SocketAddr) (max : Z) : list SocketAddr :=
  expand_intensity_symmetric [hint] JOIN_OVERLAY_INVITE_PRE_WIDTH max.

Definition canonical_stage2_targets (base : list SocketAddr) (punch : HolePunchTuning) : list SocketAddr :=
  if bool_decide (base = []) then []
  else
    let width := join_wide_per_peer_width (len base) (hp_max_expanded_targets punch) (hp_wide_min_width punch) (hp_wide_max_width punch) in
    expand_intensity_symmetric base width (hp_max_expanded_targets punch).

Definition canonical_covered_after_stage2 (base stage2 : list SocketAddr) : gset SocketAddr := list_to_set base ∪ list_to_set stage2.

(** [ips.sort(); ips.dedup()]: IPv4 before IPv6, then by value. *)
Definition ip_le (a b : IpAddr) : bool :=
  match a, b with
  | V4 x, V4 y | V6 x, V6 y => x <=? y
  | V4 _, V6 _ => true
  | V6 _, V4 _ => false
  end.
Fixpoint insert_ip (x : IpAddr) (l : list IpAddr) : list IpAddr :=
  match l with
  | [] => [x]
  | y :: l => if bool_decide (x = y) then y :: l else if ip_le y x then y :: insert_ip x l else x :: y :: l
  end.
Definition sorted_ips (base : list SocketAddr) : list IpAddr := foldl (fun l x => insert_ip x l) [] (sa_ip <$> base).

(** [rng k lo hi] is the [k]-th draw of [gen_range(lo..=hi)]. *)
Fixpoint residual_loop (rng : nat -> Z -> Z -> Z) (ips : list IpAddr) (covered : gset SocketAddr) (max lo hi : Z) (n k : nat)
    (dedup : gset SocketAddr) (expanded : list SocketAddr) : list SocketAddr * nat :=
  match n with
  | O => (expanded, k)
  | S n =>
      if max <=? len expanded then (expanded, k)
      else
        let ip := default (V4 0) (ips !! (Nat.modulo k (List.length ips))) in
        let cand := mkAddr ip (rng k lo hi) in
        if bool_decide (cand ∈ covered) || bool_decide (cand ∈ dedup)
        then residual_loop rng ips covered max lo hi n (S k) dedup expanded
        else residual_loop rng ips covered max lo hi n (S k) ({[cand]} ∪ dedup) (expanded ++ [cand])
  end.

(** The targets and the number of draws. *)
Definition build_random_residual_targets (rng : nat -> Z -> Z -> Z) (base : list SocketAddr) (covered : gset SocketAddr)
    (max port_min port_max : Z) : list SocketAddr * nat :=
  let ips := sorted_ips base in
  if bool_decide (ips = []) then ([], 0%nat)
  else
    let '(lo, hi) := if port_min <=? port_max then (port_min, port_max) else (port_max, port_min) in
    residual_loop rng ips covered max lo hi (Z.to_nat (Z.max (sat_mul U64_MAX max 32) 64)) 0 ∅ [].

(** ** The workflow *)

(** What a workflow does: load the stop flag, send the [p]-th packet it built to an endpoint, sleep,
    report a stage. *)
Inductive PunchEv :=
| Poll (b : bool) | Send (target : SocketAddr) (p : nat) | Slept (d : Duration) | Stage (n : Z).

Record PunchRun := mkRun { pr_polls : nat; pr_built : nat; pr_drawn : nat; pr_trace : list PunchEv }.
#[export] Instance eta_PunchRun : Settable PunchRun := fun r => mkRun (pr_polls r) (pr_built r) (pr_drawn r) (pr_trace r).
Definition new_run : PunchRun := mkRun 0 0 0 [].

Definition emit (r : PunchRun) (e : PunchEv) : PunchRun := r <| pr_trace := pr_trace r ++ [e] |>.
Definition built (r : PunchRun) : PunchRun := r <| pr_built := S (pr_built r) |>.

Section Workflow.
(** [stop k] is the [k]-th reading of the stop flag, [rng k lo hi] the [k]-th draw of [gen_range(lo..=hi)],
    [clock k] the [k]-th reading of the clock. *)
Variable stop : nat -> bool.
Variable rng : nat -> Z -> Z -> Z.
Variable clock : nat -> Instant.

Definition load (r : PunchRun) : bool * PunchRun :=
  (stop (pr_polls r), emit (r <| pr_polls := S (pr_polls r) |>) (Poll (stop (pr_polls r)))).

Definition SLEEP_STEP : Duration := from_millis 50.
Fixpoint sleep_loop (n : nat) (remaining : Duration) (r : PunchRun) : PunchRun :=
  match n with
  | O => r
  | S n =>
      if remaining <=? 0 then r
      else
        let '(b, r) := load r in
        if b then r
        else let slice := Z.min remaining SLEEP_STEP in sleep_loop n (sat_sub remaining slice) (emit r (Slept slice))
  end.
Definition sleep_cancellable (duration : Duration) (r : PunchRun) : PunchRun :=
  if duration =? 0 then r else sleep_loop (S (Z.to_nat (duration / SLEEP_STEP))) duration r.

Fixpoint punch_loop (per_send : Duration) (pkt : nat) (targets : list SocketAddr) (r : PunchRun) : PunchRun :=
  match targets with
  | [] => r
  | t :: targets =>
      let '(b, r) := load r in
      if b then r else punch_loop per_send pkt targets (sleep_cancellable per_send (emit r (Send t pkt)))
  end.
Definition punch_targets_at_pps (targets : list SocketAddr) (pps : Z) (r : PunchRun) : PunchRun :=
  if bool_decide (targets = []) then r
  else
    let per_send := from_micros (Z.max (1000000 / Z.max pps 1) 1) in
    punch_loop per_send (pr_built r) targets (built r).

(** The two loops of stage 1, as one over each base repeated; [true] when a stop ended them. *)
Fixpoint stage1_loop (gap : Duration) (targets : list SocketAddr) (r : PunchRun) : bool * PunchRun :=
  match targets with
  | [] => (false, r)
  | t :: targets =>
      let '(b, r) := load r in
      if b then (true, r) else stage1_loop gap targets (sleep_cancellable gap (emit (built r) (Send t (pr_built r))))
  end.
Definition stage1_targets (bases : list SocketAddr) (punch : HolePunchTuning) : list SocketAddr :=
  mbind (fun b => repeat b (Z.to_nat (hp_stage1_packets punch))) bases.
Definition punch_stage1_direct (bases : list SocketAddr) (punch : HolePunchTuning) (r : PunchRun) : PunchRun :=
  if bool_decide (bases = []) then r
  else
    match stage1_loop (from_millis (hp_stage1_gap_ms punch)) (stage1_targets bases punch) r with
    | (true, r) => r
    | (false, r) => sleep_cancellable (from_millis (hp_stage1_observe_ms punch)) r
    end.

(** Stage 3 from the [i]-th clock reading on, for at most [n] batches; [true] when the loop ended. *)
Fixpoint stage3_loop (n i : nat) (deadline : Instant) (bases : list SocketAddr) (covered : gset SocketAddr) (punch : HolePunchTuning)
    (r : PunchRun) : bool * PunchRun :=
  match n with
  | O => (false, r)
  | S n =>
      if negb (clock i <? deadline) then (true, r)
      else
        let '(b, r) := load r in
        if b then (true, r)
        else
          let '(residual, draws) := build_random_residual_targets (fun k => rng (pr_drawn r + k)) bases covered (hp_max_expanded_targets punch)
                                      (hp_random_port_min punch) (hp_random_port_max punch) in
          let r := r <| pr_drawn := (pr_drawn r + draws)%nat |> in
          let covered := covered ∪ list_to_set residual in
          let r := punch_targets_at_pps residual (hp_stage3_pps punch) r in
          let '(b, r) := load r in
          if b then (true, r)
          else stage3_loop n (S i) deadline bases covered punch (sleep_cancellable (from_millis (hp_stage3_batch_gap_ms punch)) r)
  end.

Definition on_stage (log_stages : bool) (n : Z) (r : PunchRun) : PunchRun := if log_stages then emit r (Stage n) else r.

Definition run_canonical_punch_workflow (n : nat) (bases : list SocketAddr) (punch : HolePunchTuning) (log_stages : bool) (r : PunchRun)
  : bool * PunchRun :=
  if bool_decide (bases = []) then (true, r)
  else
    let r := punch_stage1_direct bases punch (on_stage log_stages 1 r) in
    let '(b, r) := load r in
    if b then (true, r)
    else
      let stage2 := canonical_stage2_targets bases punch in
      let r := punch_targets_at_pps stage2 (hp_stage2_pps punch) (on_stage log_stages 2 r) in
      let '(b, r) := load r in
      if b then (true, r)
      else
        let '(b, r) := load (sleep_cancellable (from_secs (hp_stage2_observe_secs punch)) r) in
        if b then (true, r)
        else
          let r := on_stage log_stages 3 r in
          let deadline := clock 0 + from_secs (hp_stage3_max_secs punch) in
          stage3_loop n 1 deadline bases (canonical_covered_after_stage2 bases stage2) punch r.
End Workflow.

(** ** What is punched *)

(** The first occurrences of a list's elements that are not in [seen]. *)
Fixpoint distinct (seen : gset SocketAddr) (l : list SocketAddr) : list SocketAddr :=
  match l with
  | [] => []
  | x :: l => if bool_decide (x ∈ seen) then distinct seen l else x :: distinct ({[x]} ∪ seen) l
  end.

Lemma distinct_elem seen l x : x ∈ distinct seen l <-> x ∈ l /\ x ∉ seen.
Proof.
  revert seen; induction l as [|y l IH]; intros seen; cbn [distinct]; [set_solver|].
  case_bool_decide as E; rewrite ?elem_of_cons, IH; [|destruct (decide (x = y))]; set_solver.
Qed.

Lemma distinct_NoDup seen l : NoDup (distinct seen l).
Proof.
  revert seen; induction l as [|y l IH]; intros seen; cbn [distinct]; [constructor|].
  case_bool_decide; [apply IH|constructor; [|apply IH]]. rewrite distinct_elem. set_solver.
Qed.

Lemma distinct_app seen l k : distinct seen (l ++ k) = distinct seen l ++ distinct (seen ∪ list_to_set l) k.
Proof.
  revert seen; induction l as [|y l IH]; intros seen; cbn [distinct app]; [by rewrite right_id_L by apply _|].
  case_bool_decide as E; rewrite IH; cbn [app list_to_set].
  - replace ({[y]} ∪ list_to_set l) with (list_to_set l ∪ {[y]} : gset SocketAddr) by set_solver. do 2 f_equal. set_solver.
  - do 3 f_equal. set_solver.
Qed.

Lemma add_targets_spec max l d e :
  let new := take (Z.to_nat (Z.max 1 (max - len e))) (distinct d l) in
  add_targets max l (d, e) = ((d ∪ list_to_set new, e ++ new), (max <=? len (e ++ new)) && negb (bool_decide (new = []))).
Proof.
  revert d e; induction l as [|y l IH]; intros d e; cbn [add_targets distinct].
  - rewrite take_nil, andb_false_r. cbn. by rewrite app_nil_r, right_id_L by apply _.
  - case_bool_decide as E; [apply IH|].
    replace (Z.to_nat (Z.max 1 (max - len e))) with (S (Z.to_nat (Z.max 0 (max - len (e ++ [y]))))) by (rewrite len_app; change (len [y]) with 1; lia).
    cbn [firstn list_to_set negb]. rewrite bool_decide_false, andb_true_r by done. destruct (Z.leb_spec max (len (e ++ [y]))) as [L|L].
    + rewrite Z.max_l by lia. change (Z.to_nat 0) with 0%nat. rewrite take_0, (proj2 (Z.leb_le _ _) L). do 2 f_equal. set_solver.
    + rewrite IH. rewrite !Z.max_r by lia. rewrite <- app_assoc. cbn [app].
      replace ({[y]} ∪ d ∪ _) with (d ∪ ({[y]} ∪ list_to_set (take (Z.to_nat (max - len (e ++ [y]))) (distinct ({[y]} ∪ d) l)))) by set_solver.
      f_equal. destruct (Z.leb_spec max (len (e ++ y :: take (Z.to_nat (max - len (e ++ [y]))) (distinct ({[y]} ∪ d) l)))) as [L'|L']; [|done].
      apply negb_true_iff, bool_decide_eq_false. intros Z0. rewrite Z0 in L'. lia.
Qed.

(** The ports tried for one endpoint. *)
Definition scan (width : Z) (ep : SocketAddr) : list SocketAddr := build_symmetric_punch_targets (sa_ip ep) (sa_port ep) width.

Lemma scan_elem width ep x : 0 <= width < 2 ^ 32 -> in_u 16 (sa_port ep) ->
  let first := Z.max 1 (sa_port ep - Z.max width 1 / 2) in
  x ∈ scan width ep <-> sa_ip x = sa_ip ep /\ first <= sa_port x < first + Z.max width 1 /\ sa_port x <= 65535.
Proof.
  intros W P first. unfold scan, build_symmetric_punch_targets. change (2 ^ 32) with 4294967296 in W.
  rewrite swrap_small by (unfold in_i; change (2 ^ (32 - 1)) with 2147483648; Z.to_euclidean_division_equations; lia).
  setoid_rewrite list_elem_of_fmap. setoid_rewrite list_elem_of_filter. setoid_rewrite list_elem_of_fmap. setoid_rewrite elem_of_seq.
  unfold PORT_MIN, PORT_MAX. split.
  - intros (p & -> & L & k & -> & K). cbn. unfold first. split_and!; [done|lia..].
  - destruct x as [ip p]; cbn. intros (-> & F & L). exists p. split_and!; [done|done|]. exists (Z.to_nat (p - first)). unfold first in *. cbn in *. lia.
Qed.

Lemma expand_take base width max : 1 <= max ->
  expand_intensity_symmetric base width max = take (Z.to_nat max) (distinct ∅ (base ++ mbind (scan width) base)).
Proof.
  intros M. unfold expand_intensity_symmetric. rewrite add_targets_spec. change (len (@nil SocketAddr)) with 0.
  rewrite Z.sub_0_r, Z.max_r, distinct_app by lia. cbn [app]. set (b := distinct ∅ base).
  destruct (Z.leb_spec max (len (take (Z.to_nat max) b))) as [L|L].
  - rewrite bool_decide_false by (intros Z0; rewrite Z0 in L; change (len (@nil SocketAddr)) with 0 in L; lia). cbn [andb negb snd].
    rewrite take_app_le; [done|]. unfold len in L. rewrite length_take in L. lia.
  - cbn [andb snd]. assert (B : (List.length b < Z.to_nat max)%nat) by (unfold len in L; rewrite length_take in L; lia).
    rewrite (take_ge b) by lia. rewrite add_targets_spec. cbn [fst snd]. rewrite take_app_ge by lia. f_equal.
    replace (∅ ∪ list_to_set b) with (∅ ∪ list_to_set base : gset SocketAddr)
      by (apply set_eq; intros x; rewrite !elem_of_union, !elem_of_list_to_set; unfold b; rewrite distinct_elem; set_solver).
    f_equal. unfold len. lia.
Qed.

(** A scan is a budget of distinct endpoints: the first [max] (at least one) distinct entries of the
    known endpoints followed by the ports around each of them, in order.  So no endpoint is punched twice,
    known endpoints come first, the budget holds, and a scan that stays below its budget has reached
    exactly the known endpoints and every port from half the width below one, up to 65535. *)
Theorem expand_exact base width max : 0 <= width < 2 ^ 32 -> 1 <= max -> Forall (fun ep => in_u 16 (sa_port ep)) base ->
  let out := expand_intensity_symmetric base width max in
  out = take (Z.to_nat max) (distinct ∅ (base ++ mbind (scan width) base)) /\ NoDup out /\ len out <= max /\
  (len out < max -> forall x, x ∈ out <-> x ∈ base \/ exists ep, ep ∈ base /\ sa_ip x = sa_ip ep /\
     let first := Z.max 1 (sa_port ep - Z.max width 1 / 2) in first <= sa_port x < first + Z.max width 1 /\ sa_port x <= 65535).
Proof.
  intros W M P out. assert (E : out = take (Z.to_nat max) (distinct ∅ (base ++ mbind (scan width) base))) by by apply expand_take.
  split; [done|]. rewrite E. split; [eapply sublist_NoDup; [apply distinct_NoDup|apply sublist_take]|]. split; [unfold len; rewrite length_take; lia|].
  intros L x. rewrite take_ge by (unfold len in L; rewrite length_take in L; lia).
  rewrite distinct_elem, elem_of_app, list_elem_of_bind. rewrite Forall_forall in P. split.
  - intros [[B|(ep & S & B)] _]; [by left|right]. exists ep. split; [done|]. by apply scan_elem; [|apply P|].
  - intros [B|(ep & B & S)]; (split; [|set_solver]); [by left|right]. exists ep. split; [|done]. by apply scan_elem; [|apply P|].
Qed.

(** ** Random endpoints *)

Lemma insert_ip_elem x l y : y ∈ insert_ip x l <-> y = x \/ y ∈ l.
Proof. induction l as [|z l IH]; cbn [insert_ip]; [set_solver|]. case_bool_decide; [set_solver|]. case_match; set_solver. Qed.

Lemma sorted_ips_elem base ip : ip ∈ sorted_ips base <-> exists ep, ep ∈ base /\ sa_ip ep = ip.
Proof.
  unfold sorted_ips. assert (G : forall l acc, ip ∈ foldl (fun l x => insert_ip x l) acc l <-> ip ∈ acc \/ ip ∈ l).
  { induction l as [|y l IH]; intros acc; cbn [foldl]; [set_solver|]. rewrite IH, insert_ip_elem. set_solver. }
  rewrite G, list_elem_of_fmap. set_solver.
Qed.

Lemma cycle_elem (ips : list IpAddr) k : ips <> [] -> (default (V4 0) (ips !! (Nat.modulo k (List.length ips)))) ∈ ips.
Proof.
  intros N. destruct (lookup_lt_is_Some_2 ips (Nat.modulo k (List.length ips))) as [x E].
  { apply Nat.mod_upper_bound. by destruct ips. }
  rewrite E. by eapply list_elem_of_lookup_2.
Qed.

(** A list of fresh endpoints on [ips] with drawn ports. *)
Definition fresh_from (rng : nat -> Z -> Z -> Z) (ips : list IpAddr) (covered : gset SocketAddr) (lo hi : Z) (l : list SocketAddr) : Prop :=
  NoDup l /\ forall x, x ∈ l -> (x ∉ covered) /\ sa_ip x ∈ ips /\ exists k, sa_port x = rng k lo hi.

Lemma residual_loop_spec rng ips covered max lo hi n : ips <> [] -> forall k e, fresh_from rng ips covered lo hi e ->
  let '(out, k') := residual_loop rng ips covered max lo hi n k (list_to_set e) e in
  fresh_from rng ips covered lo hi out /\ len out <= Z.max max (len e) /\ (k <= k' <= k + n)%nat /\ (len out < max -> k' = (k + n)%nat).
Proof.
  intros N. induction n as [|n IH]; intros k e F; cbn [residual_loop]; [split_and!; [done|lia..]|].
  destruct (Z.leb_spec max (len e)) as [L|L]; [split_and!; [done|lia..]|].
  set (cand := mkAddr _ _). case_bool_decide as C1; cbn [orb]; [|case_bool_decide as C2].
  1, 2: specialize (IH (S k) e F); destruct (residual_loop _ _ _ _ _ _ _ _ _ _) as [out k']; destruct IH as (F' & ? & ? & ?); split_and!; [done|lia..].
  assert (F' : fresh_from rng ips covered lo hi (e ++ [cand])).
  { destruct F as [D F]. split.
    - apply NoDup_app. split_and!; [done|set_solver|apply NoDup_singleton].
    - intros x [X|X%list_elem_of_singleton]%elem_of_app; [by apply F|subst x]. split_and!; [done|by apply cycle_elem|by exists k]. }
  replace ({[cand]} ∪ list_to_set e) with (list_to_set (e ++ [cand]) : gset SocketAddr) by set_solver.
  specialize (IH (S k) (e ++ [cand]) F'). destruct (residual_loop _ _ _ _ _ _ _ _ _ _) as [out k'].
  rewrite len_app in IH. change (len [cand]) with 1 in IH. destruct IH as (? & ? & ? & ?). split_and!; [done|lia..].
Qed.

(** [gen_range(lo..=hi)] of the rand crate returns a value of the range. *)
Definition gen_range_ok (rng : nat -> Z -> Z -> Z) : Prop := forall k lo hi, lo <= hi -> lo <= rng k lo hi <= hi.

(** A batch of random endpoints: at most [max], all different, none already covered, each the address
    of a known endpoint with a port of the configured range (whichever way round it is given); and the
    search ends after [max(32 max, 64)] draws, earlier only because the batch is full. *)
Lemma residual_spec rng base covered max port_min port_max : gen_range_ok rng -> base <> [] -> 0 <= max ->
  let '(out, draws) := build_random_residual_targets rng base covered max port_min port_max in
  NoDup out /\ len out <= max /\
  (forall x, x ∈ out -> (x ∉ covered) /\ (exists ep, ep ∈ base /\ sa_ip ep = sa_ip x) /\
     Z.min port_min port_max <= sa_port x <= Z.max port_min port_max) /\
  (draws <= Z.to_nat (Z.max (sat_mul U64_MAX max 32) 64))%nat /\ (len out < max -> draws = Z.to_nat (Z.max (sat_mul U64_MAX max 32) 64)).
Proof.
  intros G B M. unfold build_random_residual_targets.
  assert (N : sorted_ips base <> []).
  { destruct base as [|ep base]; [done|]. intros Z0. assert (X : sa_ip ep ∈ sorted_ips (ep :: base)) by (apply sorted_ips_elem; set_solver).
    rewrite Z0 in X. set_solver. }
  rewrite bool_decide_false by done.
  replace (if port_min <=? port_max then (port_min, port_max) else (port_max, port_min)) with (Z.min port_min port_max, Z.max port_min port_max)
    by (destruct (Z.leb_spec port_min port_max); f_equal; lia).
  pose proof (residual_loop_spec rng (sorted_ips base) covered max (Z.min port_min port_max) (Z.max port_min port_max)
                (Z.to_nat (Z.max (sat_mul U64_MAX max 32) 64)) N 0 []) as R.
  change (list_to_set []) with (∅ : gset SocketAddr) in R. destruct (residual_loop _ _ _ _ _ _ _ _ _ _) as [out draws].
  destruct R as ([D F] & L & K & X); [split; [constructor|set_solver]|]. change (len (@nil SocketAddr)) with 0 in L.
  split_and!; [done|lia| |lia|intros; rewrite X by done; lia].
  intros x Hx. destruct (F x Hx) as (C & I & k & ->). split_and!; [done|by apply sorted_ips_elem|apply G; lia..].
Qed.

(** ** Runs of the workflow *)

Definition polls (t : list PunchEv) : list bool := omap (fun e => match e with Poll b => Some b | _ => None end) t.
Definition sends (t : list PunchEv) : list SocketAddr := omap (fun e => match e with Send x _ => Some x | _ => None end) t.

(** In a guarded trace the stop flag was read, and not set, just before every send. *)
Inductive guarded : list PunchEv -> Prop :=
| guarded_nil : guarded []
| guarded_poll b t : guarded t -> guarded (Poll b :: t)
| guarded_slept d t : guarded t -> guarded (Slept d :: t)
| guarded_stage n t : guarded t -> guarded (Stage n :: t)
| guarded_send x p t : guarded t -> guarded (Poll false :: Send x p :: t).

Lemma guarded_app t u : guarded t -> guarded u -> guarded (t ++ u).
Proof. induction 1; intros U; cbn [app]; eauto using guarded. Qed.

Lemma polls_app t u : polls (t ++ u) = polls t ++ polls u.
Proof. apply omap_app. Qed.
Lemma sends_app t u : sends (t ++ u) = sends t ++ sends u.
Proof. apply omap_app. Qed.

(** A send in a guarded trace is preceded by a reading of [false]. *)
Lemma guarded_reads t : guarded t -> sends t <> [] -> false ∈ polls t.
Proof. induction 1; cbn; intros N; try (by destruct N); rewrite ?elem_of_cons; auto. Qed.

(** What follows a reading of [true]. *)
Lemma guarded_after t u : guarded (t ++ Poll true :: u) -> guarded u.
Proof.
  intros G. remember (t ++ Poll true :: u) as w eqn:E. revert t E. induction G as [| b w G IH|d w G IH|n w G IH|x p w G IH]; intros t E.
  - by destruct t.
  - destruct t as [|a t]; cbn in E; injection E as E1 E2; [by subst|by apply (IH t)].
  - destruct t as [|a t]; cbn in E; [discriminate E|injection E as E1 E2; by apply (IH t)].
  - destruct t as [|a t]; cbn in E; [discriminate E|injection E as E1 E2; by apply (IH t)].
  - destruct t as [|a [|c t]]; cbn in E; [discriminate E..|injection E as E1 E2 E3; by apply (IH t)].
Qed.

(** The random stage sends only endpoints that were not covered, each once. *)
Definition random_ok (bases : list SocketAddr) (covered : gset SocketAddr) (punch : HolePunchTuning) (l : list SocketAddr) : Prop :=
  let lo := hp_random_port_min punch in
  let hi := hp_random_port_max punch in
  NoDup l /\ forall x, x ∈ l -> (x ∉ covered) /\ (exists ep, ep ∈ bases /\ sa_ip ep = sa_ip x) /\ Z.min lo hi <= sa_port x <= Z.max lo hi.

Lemma residual_punch rng bases covered punch : gen_range_ok rng -> bases <> [] -> 0 <= hp_max_expanded_targets punch ->
  random_ok bases covered punch (build_random_residual_targets rng bases covered (hp_max_expanded_targets punch)
                                   (hp_random_port_min punch) (hp_random_port_max punch)).1.
Proof.
  intros G B M. pose proof (residual_spec rng bases covered (hp_max_expanded_targets punch) (hp_random_port_min punch)
                              (hp_random_port_max punch) G B M) as R.
  destruct (build_random_residual_targets _ _ _ _ _ _). by destruct R as (? & _ & ? & _).
Qed.

Section Runs.
Variable stop : nat -> bool.

(** From [r] to [r'] the trace grew by [t], in which the flag was read as [stop] says. *)
Record extends (r r' : PunchRun) (t : list PunchEv) : Prop := {
  ex_trace : pr_trace r' = pr_trace r ++ t;
  ex_next : pr_polls r' = (pr_polls r + List.length (polls t))%nat;
  ex_polls : polls t = stop <$> seq (pr_polls r) (List.length (polls t));
  ex_guarded : guarded t
}.

Lemma extends_refl r : extends r r [].
Proof. split; cbn; [by rewrite app_nil_r|lia|done|constructor]. Qed.

Lemma extends_trans r r' r'' t u : extends r r' t -> extends r' r'' u -> extends r r'' (t ++ u).
Proof.
  intros [T N P G] [T' N' P' G']. split.
  - by rewrite T', T, app_assoc.
  - rewrite N', N, polls_app, length_app. lia.
  - rewrite polls_app, length_app, seq_app, fmap_app, <- P, <- N. by f_equal.
  - by apply guarded_app.
Qed.

Lemma extends_load r b r' : load stop r = (b, r') -> extends r r' [Poll b].
Proof. injection 1 as <- <-. split; cbn; [done|lia|done|repeat constructor]. Qed.

Lemma extends_send r r' x p : load stop r = (false, r') -> extends r (emit r' (Send x p)) [Poll false; Send x p].
Proof. injection 1 as E <-. split; cbn; [by rewrite <- app_assoc, E|lia|by rewrite E|apply guarded_send, guarded_nil]. Qed.

(** Fields the trace does not depend on. *)
Lemma extends_eq r r1 r' r1' t : extends r r' t -> pr_trace r1 = pr_trace r -> pr_polls r1 = pr_polls r ->
  pr_trace r1' = pr_trace r' -> pr_polls r1' = pr_polls r' -> extends r1 r1' t.
Proof. intros [T N P G] E1 E2 E3 E4. split; [by rewrite E3, E1|by rewrite E4, E2|by rewrite E2|done]. Qed.

Lemma sleep_loop_extends n : forall d r, exists t, extends r (sleep_loop stop n d r) t /\ sends t = [].
Proof.
  induction n as [|n IH]; intros d r; cbn [sleep_loop]; [exists []; split; [apply extends_refl|done]|].
  case_match; [exists []; split; [apply extends_refl|done]|].
  destruct (load stop r) as [b r1] eqn:E. apply extends_load in E. destruct b; [by exists [Poll true]|].
  destruct (IH (sat_sub d (Z.min d SLEEP_STEP)) (emit r1 (Slept (Z.min d SLEEP_STEP)))) as (t & X & S).
  exists ([Poll false] ++ [Slept (Z.min d SLEEP_STEP)] ++ t). split; [|done]. eapply extends_trans; [exact E|].
  eapply extends_trans; [|exact X]. split; cbn; [done|lia|done|repeat constructor].
Qed.

Lemma sleep_extends d r : exists t, extends r (sleep_cancellable stop d r) t /\ sends t = [].
Proof. unfold sleep_cancellable. case_match; [exists []; split; [apply extends_refl|done]|apply sleep_loop_extends]. Qed.

(** What a sequence of sends does: a prefix of its targets, all of them unless the flag was seen. *)
Definition sent_prefix (t : list PunchEv) (targets : list SocketAddr) : Prop :=
  sends t `prefix_of` targets /\ (sends t = targets \/ true ∈ polls t).

Lemma sent_prefix_cons x p t u targets : sends t = [] -> sent_prefix u targets ->
  sent_prefix (([Poll false; Send x p] ++ t) ++ u) (x :: targets).
Proof.
  intros S [P C]. unfold sent_prefix. rewrite !sends_app, !polls_app, S. cbn. split; [by apply prefix_cons|].
  destruct C as [C|C]; [left; by rewrite C|right; set_solver].
Qed.

Lemma sent_prefix_stopped targets : sent_prefix [Poll true] targets.
Proof. split; [apply prefix_nil|right; set_solver]. Qed.

Lemma punch_loop_extends d p targets : forall r, exists t, extends r (punch_loop stop d p targets r) t /\ sent_prefix t targets.
Proof.
  induction targets as [|x targets IH]; intros r; cbn [punch_loop]; [exists []; split; [apply extends_refl|by split; [|left]]|].
  destruct (load stop r) as [b r1] eqn:E. destruct b; [exists [Poll true]; split; [by apply extends_load|apply sent_prefix_stopped]|].
  destruct (sleep_extends d (emit r1 (Send x p))) as (t & X & S). destruct (IH (sleep_cancellable stop d (emit r1 (Send x p)))) as (u & Y & P).
  exists (([Poll false; Send x p] ++ t) ++ u). split; [|by apply sent_prefix_cons].
  eapply extends_trans; [|exact Y]. eapply extends_trans; [|exact X]. by apply extends_send.
Qed.

Lemma at_pps_extends targets pps r : exists t, extends r (punch_targets_at_pps stop targets pps r) t /\ sent_prefix t targets.
Proof.
  unfold punch_targets_at_pps. case_bool_decide as B; [subst; exists []; split; [apply extends_refl|by split; [|left]]|].
  destruct (punch_loop_extends (from_micros (Z.max (1000000 / Z.max pps 1) 1)) (pr_built r) targets (built r)) as (t & X & P).
  exists t. split; [|done]. by eapply extends_eq.
Qed.

Lemma stage1_loop_extends gap targets : forall r b r', stage1_loop stop gap targets r = (b, r') ->
  exists t, extends r r' t /\ sent_prefix t targets.
Proof.
  induction targets as [|x targets IH]; intros r b r'; cbn [stage1_loop].
  { injection 1 as <- <-. exists []. split; [apply extends_refl|by split; [|left]]. }
  destruct (load stop r) as [b1 r1] eqn:E. destruct b1.
  { injection 1 as <- <-. exists [Poll true]. split; [by apply extends_load|apply sent_prefix_stopped]. }
  intros F. destruct (IH _ _ _ F) as (u & Y & P).
  destruct (sleep_extends gap (emit (built r1) (Send x (pr_built r1)))) as (t & X & S).
  exists (([Poll false; Send x (pr_built r1)] ++ t) ++ u). split; [|by apply sent_prefix_cons].
  eapply extends_trans; [|exact Y]. eapply extends_trans; [|exact X]. by eapply extends_eq; [exact (extends_send r r1 x (pr_built r1) E)|..].
Qed.

Lemma stage1_extends bases punch r : bases <> [] ->
  exists t, extends r (punch_stage1_direct stop bases punch r) t /\ sent_prefix t (stage1_targets bases punch).
Proof.
  intros B. unfold punch_stage1_direct. rewrite bool_decide_false by done.
  destruct (stage1_loop _ _ _ _) as [b r1] eqn:E. destruct (stage1_loop_extends _ _ _ _ _ E) as (t & X & P). destruct b; [by exists t|].
  destruct (sleep_extends (from_millis (hp_stage1_observe_ms punch)) r1) as (u & Y & S).
  exists (t ++ u). split; [by eapply extends_trans|]. destruct P as [P C]. unfold sent_prefix. rewrite sends_app, polls_app, S, app_nil_r.
  split; [done|]. destruct C; [by left|right; set_solver].
Qed.

Variable rng : nat -> Z -> Z -> Z.
Variable clock : nat -> Instant.

Lemma random_ok_app bases covered punch l k residual : l `prefix_of` residual -> random_ok bases covered punch residual ->
  random_ok bases (covered ∪ list_to_set residual) punch k -> random_ok bases covered punch (l ++ k).
Proof.
  intros [w W] [D F] [D' F']. subst residual. apply NoDup_app in D as (D & _ & _). split.
  - apply NoDup_app. split_and!; [done| |done]. intros x X X'. apply F' in X' as [X' _]. set_solver.
  - intros x [X|X]%elem_of_app; [apply F; set_solver|]. apply F' in X as (X & Y). split; [set_solver|done].
Qed.

Lemma stage3_extends bases punch deadline : bases <> [] -> gen_range_ok rng -> 0 <= hp_max_expanded_targets punch ->
  forall n i covered r b r', stage3_loop stop rng clock n i deadline bases covered punch r = (b, r') ->
  exists t, extends r r' t /\ random_ok bases covered punch (sends t).
Proof.
  intros B G M. assert (N : forall covered, random_ok bases covered punch []) by (split; [constructor|set_solver]).
  induction n as [|n IH]; intros i covered r b r'; cbn [stage3_loop]; [injection 1 as <- <-; exists []; split; [apply extends_refl|done]|].
  case_match; [injection 1 as <- <-; exists []; split; [apply extends_refl|done]|].
  destruct (load stop r) as [b1 r1] eqn:E1. apply extends_load in E1. destruct b1; [injection 1 as <- <-; by exists [Poll true]|].
  pose proof (residual_punch (fun k => rng (pr_drawn r1 + k)) bases covered punch (fun k => G (pr_drawn r1 + k)%nat) B M) as R.
  destruct (build_random_residual_targets _ _ _ _ _ _) as [residual draws].
  set (r2 := r1 <| pr_drawn := _ |>). destruct (at_pps_extends residual (hp_stage3_pps punch) r2) as (t & X & P & _).
  assert (X1 : extends r1 (punch_targets_at_pps stop residual (hp_stage3_pps punch) r2) t) by by eapply extends_eq.
  destruct (load stop (punch_targets_at_pps _ _ _ _)) as [b3 r3] eqn:E3. apply extends_load in E3.
  assert (X2 : extends r r3 ([Poll false] ++ t ++ [Poll b3])) by (eapply extends_trans; [exact E1|]; eapply extends_trans; [exact X1|exact E3]).
  destruct b3.
  - injection 1 as <- <-. eexists; split; [exact X2|]. rewrite !sends_app. cbn. rewrite app_nil_r.
    rewrite <- (app_nil_r (sends t)). apply (random_ok_app _ _ _ _ _ residual); [exact P|exact R|apply N].
  - intros F. destruct (IH _ _ _ _ _ F) as (u & Y & K). destruct (sleep_extends (from_millis (hp_stage3_batch_gap_ms punch)) r3) as (s & Z1 & S).
    eexists; split; [eapply extends_trans; [exact X2|eapply extends_trans; [exact Z1|exact Y]]|].
    rewrite !sends_app, S. cbn. rewrite app_nil_r. apply (random_ok_app _ _ _ _ _ residual); [exact P|exact R|exact K].
Qed.
End Runs.

(** The flag is an [AtomicBool] that is only ever set. *)
Definition latched (stop : nat -> bool) : Prop := forall k, stop k = true -> stop (S k) = true.

Lemma latched_le stop i j : latched stop -> (i <= j)%nat -> stop i = true -> stop j = true.
Proof. intros L. induction 1; auto. Qed.

(** Readings of a latched flag: after one [true] all are, before one [false] none is. *)
Lemma latched_split stop k l m : latched stop -> l ++ m = stop <$> seq k (List.length (l ++ m)) -> true ∈ l -> false ∈ m -> False.
Proof.
  intros L E T F. apply list_elem_of_lookup in T as [i T], F as [j F].
  pose proof (lookup_lt_Some _ _ _ T) as I. pose proof (lookup_lt_Some _ _ _ F) as J.
  assert (T' : (l ++ m) !! i = Some true) by by rewrite lookup_app_l.
  assert (F' : (l ++ m) !! (List.length l + j)%nat = Some false) by (rewrite lookup_app_r by lia; by replace (List.length l + j - List.length l)%nat with j by lia).
  rewrite E, list_lookup_fmap, lookup_seq_lt in T', F' by (rewrite length_app; lia). apply (inj Some) in T', F'.
  rewrite (latched_le stop (k + i) (k + (List.length l + j)) L) in F' by (done || lia). discriminate F'.
Qed.

Lemma halted stop r r' t u v : latched stop -> extends stop r r' t -> t = u ++ Poll true :: v -> sends v = [].
Proof.
  intros L X E. destruct (sends v) as [|x s] eqn:S; [done|]. exfalso. pose proof (ex_guarded _ _ _ _ X) as G. rewrite E in G.
  pose proof (guarded_reads v (guarded_after _ _ G)) as R. pose proof (ex_polls _ _ _ _ X) as P.
  rewrite E in P. change (u ++ Poll true :: v) with (u ++ [Poll true] ++ v) in P. rewrite app_assoc, polls_app in P.
  eapply (latched_split stop _ _ _ L P); [rewrite polls_app; set_solver|apply R; by rewrite S].
Qed.

(** A stage followed by a reading of [false] is complete. *)
Lemma complete stop r r' t targets : latched stop -> extends stop r r' (t ++ [Poll false]) -> sent_prefix t targets -> sends t = targets.
Proof.
  intros L X [_ [C|C]]; [done|]. exfalso. pose proof (ex_polls _ _ _ _ X) as P. rewrite polls_app in P.
  by eapply (latched_split stop _ _ _ L P); [|set_solver].
Qed.

Lemma on_stage_extends stop b n r : exists t, extends stop r (on_stage b n r) t /\ sends t = [] /\ polls t = [].
Proof.
  destruct b; cbn [on_stage]; [exists [Stage n]|exists []]; (split; [|done]); [|apply extends_refl].
  split; cbn; [done|lia|done|repeat constructor].
Qed.

(** What the stages of a workflow may have sent. *)
Definition stages_ok (bases : list SocketAddr) (punch : HolePunchTuning) (t : list PunchEv) : Prop :=
  let stage2 := canonical_stage2_targets bases punch in
  exists s1 s2 s3, sends t = s1 ++ s2 ++ s3 /\ s1 `prefix_of` stage1_targets bases punch /\ s2 `prefix_of` stage2 /\
    (s2 ++ s3 <> [] -> s1 = stage1_targets bases punch) /\ (s3 <> [] -> s2 = stage2) /\
    (true ∈ polls t \/ s1 = stage1_targets bases punch /\ s2 = stage2) /\
    random_ok bases (canonical_covered_after_stage2 bases stage2) punch s3.

Lemma workflow_extends stop rng clock n bases punch log r : latched stop -> gen_range_ok rng -> 0 <= hp_max_expanded_targets punch ->
  exists t, extends stop r (run_canonical_punch_workflow stop rng clock n bases punch log r).2 t /\ stages_ok bases punch t.
Proof.
  intros L G M. assert (N : forall c, random_ok bases c punch []) by (split; [constructor|set_solver]).
  unfold run_canonical_punch_workflow. case_bool_decide as B.
  { subst bases. exists []. split; [apply extends_refl|]. exists [], [], []. split_and!; [done|apply prefix_nil..|done|done|by right|apply N]. }
  destruct (on_stage_extends stop log 1 r) as (t0 & X0 & S0 & P0). destruct (stage1_extends stop bases punch (on_stage log 1 r) B) as (t1 & X1 & S1).
  destruct (load stop (punch_stage1_direct _ _ _ _)) as [b1 r1] eqn:E1. apply extends_load in E1.
  pose proof (extends_trans _ _ _ _ _ _ X1 E1) as Y1. destruct b1.
  { exists (t0 ++ t1 ++ [Poll true]). split; [by eapply extends_trans|]. unfold stages_ok. rewrite !sends_app, !polls_app, S0. cbn. rewrite app_nil_r.
    exists (sends t1), [], []. cbn. rewrite app_nil_r. destruct S1. split_and!; [done|done|apply prefix_nil|done|done|left; set_solver|apply N]. }
  apply (complete _ _ _ _ _ L Y1) in S1. pose proof (extends_trans _ _ _ _ _ _ X0 Y1) as Z1.
  destruct (on_stage_extends stop log 2 r1) as (t2 & X2 & S2 & P2).
  destruct (at_pps_extends stop (canonical_stage2_targets bases punch) (hp_stage2_pps punch) (on_stage log 2 r1)) as (t3 & X3 & S3).
  destruct (load stop (punch_targets_at_pps _ _ _ _)) as [b2 r2] eqn:E2. apply extends_load in E2.
  pose proof (extends_trans _ _ _ _ _ _ X3 E2) as Y2.
  pose proof (extends_trans _ _ _ _ _ _ Z1 (extends_trans _ _ _ _ _ _ X2 Y2)) as Z2. destruct b2.
  { eexists. split; [exact Z2|]. unfold stages_ok. rewrite !polls_app, !sends_app, S0, S1, S2. cbn. rewrite !app_nil_r. destruct S3.
    exists (stage1_targets bases punch), (sends t3), []. rewrite app_nil_r. split_and!; [done|done|done|done|done|left; set_solver|apply N]. }
  apply (complete _ _ _ _ _ L Y2) in S3.
  destruct (sleep_extends stop (from_secs (hp_stage2_observe_secs punch)) r2) as (t4 & X4 & S4).
  destruct (load stop (sleep_cancellable _ _ _)) as [b3 r3] eqn:E3. apply extends_load in E3.
  pose proof (extends_trans _ _ _ _ _ _ Z2 (extends_trans _ _ _ _ _ _ X4 E3)) as Z3. destruct b3.
  { eexists. split; [exact Z3|]. unfold stages_ok. rewrite !sends_app, S0, S1, S2, S3, S4. cbn. rewrite !app_nil_r.
    exists (stage1_targets bases punch), (canonical_stage2_targets bases punch), []. rewrite app_nil_r. split_and!; [done|done|done|done|done|by right|apply N]. }
  destruct (on_stage_extends stop log 3 r3) as (t5 & X5 & S5 & P5). destruct (stage3_loop _ _ _ _ _ _ _ _ _ _) as [b4 r4] eqn:E4.
  apply stage3_extends in E4 as (t6 & X6 & S6); [|done..].
  eexists. split; [exact (extends_trans _ _ _ _ _ _ Z3 (extends_trans _ _ _ _ _ _ X5 X6))|].
  unfold stages_ok. rewrite !sends_app, S0, S1, S2, S3, S4, S5. cbn. rewrite !app_nil_r.
  exists (stage1_targets bases punch), (canonical_stage2_targets bases punch), (sends t6). split_and!; try done; [by rewrite app_assoc|by right].
Qed.

(** Every punch workflow, however the stop flag, the clock and the random draws behave, sends a prefix
    of the burst of stage 1, then of the scan of stage 2, then random endpoints of the configured ports;
    a stage begins only when the one before was sent entirely and is cut only by the stop flag, no random endpoint is tried twice or was
    punched in an earlier stage, and once the stop flag was read as set nothing more is sent. *)
Theorem punch_workflow_spec stop rng clock n bases punch log :
  latched stop -> gen_range_ok rng -> 0 <= hp_max_expanded_targets punch ->
  let t := pr_trace (run_canonical_punch_workflow stop rng clock n bases punch log new_run).2 in
  stages_ok bases punch t /\ forall u v, t = u ++ Poll true :: v -> sends v = [].
Proof.
  intros L G M t. destruct (workflow_extends stop rng clock n bases punch log new_run L G M) as (t' & X & S).
  assert (E : t = t') by apply (ex_trace _ _ _ _ X). rewrite E. split; [done|]. intros u v. exact (halted _ _ _ _ u v L X).
Qed.

Lemma stage3_ends stop rng clock n j deadline bases punch : deadline <= clock j -> forall i covered r, (i <= j < i + n)%nat ->
  (stage3_loop stop rng clock n i deadline bases covered punch r).1 = true.
Proof.
  intros D. induction n as [|n IH]; intros i covered r J; cbn [stage3_loop]; [lia|].
  destruct (Z.ltb_spec (clock i) deadline) as [C|C]; cbn [negb]; [|done].
  destruct (load stop r) as [[] r1]; [done|]. destruct (build_random_residual_targets _ _ _ _ _ _) as [residual draws].
  destruct (load stop (punch_targets_at_pps _ _ _ _)) as [[] r2]; [done|]. apply IH.
  destruct (decide (i = j)); [subst; lia|lia].
Qed.

Definition slept (t : list PunchEv) : Duration := foldr Z.add 0 (omap (fun e => match e with Slept d => Some d | _ => None end) t).
Lemma slept_app t u : slept (t ++ u) = slept t + slept u.
Proof. unfold slept. rewrite omap_app, foldr_app. induction (omap _ t) as [|d l IH]; cbn [foldr]; [lia|]. rewrite IH. lia. Qed.

Lemma sleep_loop_full stop n : (forall k, stop k = false) -> forall d r, 0 <= d <= Z.of_nat n * SLEEP_STEP ->
  slept (pr_trace (sleep_loop stop n d r)) = slept (pr_trace r) + d.
Proof.
  intros F. unfold SLEEP_STEP, from_millis in *. induction n as [|n IH]; intros d r D; cbn [sleep_loop]; [lia|].
  destruct (Z.leb_spec d 0) as [L|L]; [lia|]. unfold load. rewrite F. rewrite IH.
  - cbn -[slept]. rewrite !slept_app. cbn. unfold SLEEP_STEP, from_millis, sat_sub. lia.
  - unfold SLEEP_STEP, from_millis, sat_sub. lia.
Qed.

Lemma sleep_full stop d r : (forall k, stop k = false) -> 0 <= d -> slept (pr_trace (sleep_cancellable stop d r)) = slept (pr_trace r) + d.
Proof.
  intros F D. unfold sleep_cancellable. destruct (Z.eqb_spec d 0); [lia|]. apply sleep_loop_full; [done|].
  unfold SLEEP_STEP, from_millis. Z.to_euclidean_division_equations; lia.
Qed.

(** A punch workflow ends: as soon as a reading of the clock reaches the deadline of the random stage,
    at the latest; and when it is not stopped it sleeps for exactly the time each of its pauses asks for. *)
Theorem punch_workflow_ends stop rng clock n j bases punch log r :
  (1 <= j <= n)%nat -> clock 0%nat + from_secs (hp_stage3_max_secs punch) <= clock j ->
  (run_canonical_punch_workflow stop rng clock n bases punch log r).1 = true /\
  forall d r, (forall k, stop k = false) -> 0 <= d -> slept (pr_trace (sleep_cancellable stop d r)) = slept (pr_trace r) + d.
Proof.
  intros J D. split; [|intros; by apply sleep_full]. unfold run_canonical_punch_workflow. case_bool_decide; [done|].
  destruct (load stop (punch_stage1_direct _ _ _ _)) as [[] r1]; [done|].
  destruct (load stop (punch_targets_at_pps _ _ _ _)) as [[] r2]; [done|].
  destruct (load stop (sleep_cancellable _ _ _)) as [[] r3]; [done|]. apply (stage3_ends _ _ _ _ j); [done|lia].
Qed.

(** ** A run *)

Module PunchRuns.
Definition base : SocketAddr := mkAddr (V4 167772161) 40000.
Definition punch : HolePunchTuning := mkPunch 2 50 100 1 128 64 1 500 4 2 4 1024 65535.
Definition stop (k : nat) : bool := false.
Definition rng (k : nat) (lo hi : Z) : Z := lo + Z.of_nat k mod (hi - lo + 1).
Definition clock (k : nat) : Instant := Z.of_nat k * from_millis 600.

Lemma rng_ok : gen_range_ok rng.
Proof. intros k lo hi L. unfold rng. pose proof (Z.mod_pos_bound (Z.of_nat k) (hi - lo + 1)). lia. Qed.

Lemma expand_exact_witness :
  let out := expand_intensity_symmetric [base] 4 6 in
  len out = 4 /\ (len out < 6 -> forall x, x ∈ out <-> x ∈ [base] \/ exists ep, ep ∈ [base] /\ sa_ip x = sa_ip ep /\
     let first := Z.max 1 (sa_port ep - Z.max 4 1 / 2) in first <= sa_port x < first + Z.max 4 1 /\ sa_port x <= 65535).
Proof.
  split; [by vm_compute|]. destruct (expand_exact [base] 4 6) as (_ & _ & _ & X); [lia|lia| |exact X].
  apply Forall_singleton. unfold in_u. cbn. lia.
Defined.

Lemma punch_workflow_spec_witness :
  let t := pr_trace (run_canonical_punch_workflow stop rng clock 3 [base] punch true new_run).2 in
  stages_ok [base] punch t /\ sa_port <$> sends t = [40000; 40000; 40000; 39998; 39999; 40001; 1024; 1025; 1026; 1027].
Proof.
  split; [|by vm_compute].
  destruct (punch_workflow_spec stop rng clock 3 [base] punch true) as [S _]; [intros k X; discriminate X|apply rng_ok|cbn; lia|exact S].
Defined.

Lemma punch_workflow_ends_witness : (run_canonical_punch_workflow stop rng clock 3 [base] punch true new_run).1 = true.
Proof. apply (punch_workflow_ends stop rng clock 3 2 [base] punch true new_run); [lia|vm_compute; intros E; discriminate E]. Defined.
End PunchRuns.
