(* ===== verification/Discovery.v ===== *)
(** * Decentralised discovery (src/net/decentralized.rs)

    The tracker slots with their pending requests and connections and the endpoints they revealed.  Random
    transaction ids, the outcome of each send and the clock readings are arguments; the requests handed to
    the socket are part of the result.

    [discovery_authentic] shows that an endpoint is only ever learned from a tracker that was asked in the
    present session, [pending_bounded] that requests to silent trackers do not pile up, and
    [exact_targets_spec] which of the learned endpoints are punched.  [stale_resolve_misfiled] shows that
    a late answer of the resolver is filed under whatever tracker has the slot by then. *)

From S2P Require Import Prelude Text Tracker Punch.
From Stdlib Require Import Ascii String.
#[local] Open Scope Z_scope.

Definition CONNECTION_TTL : Duration := from_secs 55.
Definition PENDING_TTL : Duration := from_secs 20.
Definition HTTP_PENDING_TTL : Duration := from_secs 20.
Definition MAX_FANOUT_MPJN_PER_TICK : nat := 8.
Definition MAX_PUNCH_TARGETS : nat := 64.
Definition MAX_REANNOUNCE_SECS : Z := 300.
Definition MAX_ACTIVE_TRACKERS : nat := 32.
Definition MAX_HTTP_IN_FLIGHT : Z := 4.
Definition DISCOVERED_TTL : Duration := from_secs 300.
Definition MAX_DISCOVERED : Z := 256.

Record TrackerSlot := mkSlot {
  ts_url : bytes; ts_scheme : TrackerScheme; ts_host : bytes; ts_port : Z; ts_path : bytes; ts_addrs : list SocketAddr;
  ts_use_idx : Z; ts_last_announce : option Instant; ts_server_interval_secs : Z; ts_resolve_in_flight : bool;
  ts_http_in_flight : bool; ts_http_in_flight_since : option Instant
}.
#[export] Instance eta_TrackerSlot : Settable TrackerSlot :=
  fun r => mkSlot (ts_url r) (ts_scheme r) (ts_host r) (ts_port r) (ts_path r) (ts_addrs r) (ts_use_idx r) (ts_last_announce r)
             (ts_server_interval_secs r) (ts_resolve_in_flight r) (ts_http_in_flight r) (ts_http_in_flight_since r).

Inductive PendingKind := Connect | Announce.
#[export] Instance PendingKind_eq_dec : EqDecision PendingKind.
Proof. solve_decision. Defined.
Record PendingOp := mkPending { po_kind : PendingKind; po_tracker : SocketAddr; po_created : Instant }.
Record TrackerConn := mkConn { tc_id : Z; tc_expires : Instant }.

Record DecentralizedState := mkDec {
  dc_active : bool; dc_generation : Z; dc_room_id : bytes; dc_peer_id : bytes; dc_announce_secs : Z; dc_slots : list TrackerSlot;
  dc_is_joiner : bool; dc_join_body : option bytes; dc_pending : gmap bytes PendingOp; dc_connections : gmap SocketAddr TrackerConn;
  dc_discovered : gmap SocketAddr Instant; dc_listen_port : Z; dc_had_join_announce_response : bool
}.
#[export] Instance eta_DecentralizedState : Settable DecentralizedState :=
  fun r => mkDec (dc_active r) (dc_generation r) (dc_room_id r) (dc_peer_id r) (dc_announce_secs r) (dc_slots r) (dc_is_joiner r)
             (dc_join_body r) (dc_pending r) (dc_connections r) (dc_discovered r) (dc_listen_port r) (dc_had_join_announce_response r).

Definition default_decentralized : DecentralizedState :=
  mkDec false 0 (repeat 0 20) (repeat 0 20) 0 [] false None ∅ ∅ ∅ 0 false.

(** ** Slots *)

Definition try_new_slot (announce_secs : Z) (url : bytes) : option TrackerSlot :=
  ep ← parse_tracker_endpoint url;
  Some (mkSlot url (te_scheme ep) (te_host ep) (te_port ep) (te_path ep) [] 0 None announce_secs false false None).

Definition current_addr (s : TrackerSlot) : option SocketAddr :=
  if bool_decide (ts_addrs s = []) then None else ts_addrs s !! Z.to_nat (ts_use_idx s mod len (ts_addrs s)).
Definition rotate_addr (s : TrackerSlot) : TrackerSlot :=
  if bool_decide (ts_addrs s = []) then s else s <| ts_use_idx := (ts_use_idx s + 1) mod len (ts_addrs s) |>.

Definition announce_due (s : TrackerSlot) (announce_secs : Z) (now : Instant) : bool :=
  let wait := Z.min (Z.max (ts_server_interval_secs s) announce_secs) MAX_REANNOUNCE_SECS in
  match ts_last_announce s with None => true | Some t => from_secs wait <=? duration_since now t end.

Definition is_udp (s : TrackerSlot) : bool := bool_decide (ts_scheme s = Udp).
Definition is_http (s : TrackerSlot) : bool := bool_decide (ts_scheme s = Http).

Definition on_slot (st : DecentralizedState) (idx : nat) (f : TrackerSlot -> TrackerSlot) : DecentralizedState :=
  st <| dc_slots := alter f idx (dc_slots st) |>.

(** ** Starting and stopping *)

Definition start (st : DecentralizedState) (room_id node_id : bytes) (trackers : list bytes) (announce_secs : Z)
    (is_joiner : bool) (join_body : option bytes) (listen_port : Z) : DecentralizedState :=
  let announce_secs := Z.max announce_secs 60 in
  mkDec true (wrap 64 (dc_generation st + 1)) room_id (peer_id_from_room_and_node room_id node_id) announce_secs
    (take MAX_ACTIVE_TRACKERS (omap (try_new_slot announce_secs) trackers)) is_joiner join_body ∅ ∅ ∅ listen_port false.

Definition stop (st : DecentralizedState) : DecentralizedState :=
  default_decentralized <| dc_generation := wrap 64 (dc_generation st + 1) |>.

Definition set_joiner_active (st : DecentralizedState) (active : bool) : DecentralizedState := st <| dc_is_joiner := active |>.

Definition announce_port (st : DecentralizedState) (self_public_ep : option SocketAddr) : Z :=
  match self_public_ep with Some e => sa_port e | None => dc_listen_port st end.

(** ** Resolving and HTTP announces *)

Definition needs_resolve (s : TrackerSlot) : bool := is_udp s && bool_decide (ts_addrs s = []) && negb (ts_resolve_in_flight s).

Definition take_pending_resolves (st : DecentralizedState) : DecentralizedState * list (nat * bytes) :=
  if negb (dc_active st) then (st, [])
  else
    let lookup (s : TrackerSlot) : option bytes :=
      if needs_resolve s then '(h, p) ← parse_tracker_url (ts_url s); Some (h ++ 58 :: fmt_dec p) else None in
    (st <| dc_slots := (fun s => match lookup s with Some _ => s <| ts_resolve_in_flight := true |> | None => s end) <$> dc_slots st |>,
     omap (fun x : nat * TrackerSlot => (fun l => (x.1, l)) <$> lookup x.2) (imap pair (dc_slots st))).

Definition sweep_slot (now : Instant) (s : TrackerSlot) : TrackerSlot :=
  if ts_http_in_flight s && match ts_http_in_flight_since s with Some t => HTTP_PENDING_TTL <=? duration_since now t | None => true end
  then s <| ts_http_in_flight := false |> <| ts_http_in_flight_since := None |> else s.
Definition sweep_expired_http_inflight (st : DecentralizedState) (now : Instant) : DecentralizedState :=
  st <| dc_slots := sweep_slot now <$> dc_slots st |>.

Record HttpAnnounceWork := mkWork {
  hw_slot_idx : nat; hw_generation : Z; hw_tracker_url : bytes; hw_host : bytes; hw_port : Z; hw_request_target : bytes
}.

(** The slots from [idx] on, with [in_flight] requests under way. *)
Fixpoint collect_http (st : DecentralizedState) (port : Z) (now : Instant) (idx : nat) (in_flight : Z) (slots : list TrackerSlot)
  : list TrackerSlot * list HttpAnnounceWork :=
  match slots with
  | [] => ([], [])
  | s :: rest =>
      if MAX_HTTP_IN_FLIGHT <=? in_flight then (s :: rest, [])
      else if negb (is_http s) || ts_http_in_flight s || negb (announce_due s (dc_announce_secs st) now) then
        let '(rest, out) := collect_http st port now (S idx) in_flight rest in (s :: rest, out)
      else
        let target := build_http_announce_request_target (ts_path s) (dc_room_id st) (dc_peer_id st) port 50 in
        let '(rest, out) := collect_http st port now (S idx) (in_flight + 1) rest in
        (s <| ts_http_in_flight := true |> <| ts_http_in_flight_since := Some now |> :: rest,
         mkWork idx (dc_generation st) (ts_url s) (ts_host s) (ts_port s) target :: out)
  end.

Definition take_pending_http_announces (st : DecentralizedState) (port : Z) (now : Instant) : DecentralizedState * list HttpAnnounceWork :=
  if negb (dc_active st) then (st, [])
  else
    let st := sweep_expired_http_inflight st now in
    let in_flight := len (filter (fun s => ts_http_in_flight s = true) (dc_slots st)) in
    let '(slots, out) := collect_http st port now 0 in_flight (dc_slots st) in
    (st <| dc_slots := slots |>, out).

Definition note_discovered (now : Instant) (st : DecentralizedState) (ep : SocketAddr) : DecentralizedState :=
  st <| dc_discovered := <[ep := now]> (dc_discovered st) |>.

Record TrackerDatagramEvent := mkTrEvent { tv_tracker_url : bytes; tv_announce : option (list SocketAddr * bool) }.

(** Peers learned from the slot at [idx]: they are noted and the first answer of a join is marked. *)
Definition learn (st : DecentralizedState) (idx : option nat) (interval : Z) (peers : list SocketAddr) (url : bytes) (now : Instant)
  : DecentralizedState * TrackerDatagramEvent :=
  let st := match idx with
            | Some idx => on_slot st idx (fun s => s <| ts_server_interval_secs := Z.max interval 60 |> <| ts_last_announce := Some now |>)
            | None => st
            end in
  let st := foldl (note_discovered now) st peers in
  let first := dc_is_joiner st && negb (dc_had_join_announce_response st) in
  (st <| dc_had_join_announce_response := dc_is_joiner st || dc_had_join_announce_response st |>, mkTrEvent url (Some (peers, first))).

Definition apply_http_announce_result (st : DecentralizedState) (slot_idx : nat) (generation : Z) (url : bytes)
    (outcome : option (Z * list SocketAddr)) (now : Instant) : DecentralizedState * option TrackerDatagramEvent :=
  if negb (dc_active st) || negb (generation =? dc_generation st) then (st, None)
  else if bool_decide (dc_slots st !! slot_idx = None) then (st, None)
  else
    let st := on_slot st slot_idx (fun s => s <| ts_http_in_flight := false |> <| ts_http_in_flight_since := None |>) in
    match outcome with
    | None => (st, None)
    | Some (interval, peers) => let '(st, ev) := learn st (Some slot_idx) interval peers url now in (st, Some ev)
    end.

Definition clear_resolve_in_flight (st : DecentralizedState) (idx : nat) : DecentralizedState :=
  on_slot st idx (fun s => s <| ts_resolve_in_flight := false |>).

Definition add_addr (l : list SocketAddr) (a : SocketAddr) : list SocketAddr :=
  match sa_ip a with V4 _ => if bool_decide (a ∈ l) then l else l ++ [a] | V6 _ => l end.
Definition add_resolved_addrs (st : DecentralizedState) (idx : nat) (addrs : list SocketAddr) : DecentralizedState :=
  on_slot st idx (fun s => s <| ts_addrs := foldl add_addr (ts_addrs s) addrs |>).

(** ** Datagrams *)

Definition slot_index_for_tracker_addr (st : DecentralizedState) (addr : SocketAddr) : option nat :=
  fst <$> list_find (fun s => addr ∈ ts_addrs s) (dc_slots st).

Definition sweep_expired_pending (st : DecentralizedState) (now : Instant) : DecentralizedState :=
  st <| dc_pending := retain (fun _ op => duration_since now (po_created op) <? PENDING_TTL) (dc_pending st) |>.

Definition has_pending_in_flight (st : DecentralizedState) (tracker : SocketAddr) (kind : PendingKind) : bool :=
  existsb (fun kv : bytes * PendingOp => bool_decide (po_tracker kv.2 = tracker) && bool_decide (po_kind kv.2 = kind)) (map_to_list (dc_pending st)).

(** [fmt] prints a socket address. *)
Definition handle_datagram (fmt : SocketAddr -> bytes) (st : DecentralizedState) (from : SocketAddr) (data : bytes) (now : Instant)
  : DecentralizedState * bool * option TrackerDatagramEvent :=
  if negb (dc_active st) || (len data <? 16) then (st, false, None)
  else
    let txn := sub 4 8 data in
    match dc_pending st !! txn with
    | None => (st, false, None)
    | Some op =>
        if negb (bool_decide (from = po_tracker op)) then (st, false, None)
        else
          let st := st <| dc_pending := delete txn (dc_pending st) |> in
          let idx := slot_index_for_tracker_addr st (po_tracker op) in
          let url := match idx ≫= (fun i => dc_slots st !! i) with Some s => ts_url s | None => fmt (po_tracker op) end in
          match po_kind op with
          | Connect =>
              match parse_connect_response data txn with
              | Some cid =>
                  (st <| dc_connections := <[po_tracker op := mkConn cid (now + CONNECTION_TTL)]> (dc_connections st) |>, true,
                   Some (mkTrEvent url None))
              | None => (st, true, None)
              end
          | Announce =>
              match parse_announce_response data txn with
              | Some (interval, peers) => let '(st, ev) := learn st idx interval peers url now in (st, true, Some ev)
              | None => (st, true, None)
              end
          end
    end.

(** ** The tick *)

(** What the tick of one slot meets: a random transaction id, whether the send succeeds, and the clock. *)
Record SlotEnv := mkSlotEnv { se_txn : bytes; se_sent : bool; se_now : Instant }.

Definition tick_tracker_slot (st : DecentralizedState) (idx : nat) (port : Z) (env : SlotEnv)
  : DecentralizedState * list (SocketAddr * bytes) :=
  let now := se_now env in
  let txn := se_txn env in
  match dc_slots st !! idx with
  | None => (st, [])
  | Some s =>
      if negb (is_udp s) then (st, [])
      else
        match current_addr s with
        | None => (st, [])
        | Some ep =>
            if negb (announce_due s (dc_announce_secs st) now) then (st, [])
            else
              let conn := dc_connections st !! ep in
              let request (st : DecentralizedState) (kind : PendingKind) := st <| dc_pending := <[txn := mkPending kind ep now]> (dc_pending st) |> in
              if match conn with Some c => tc_expires c <=? now | None => true end then
                if has_pending_in_flight st ep Connect then (st, [])
                else
                  let st := request st Connect in
                  (if se_sent env then st
                   else on_slot (st <| dc_pending := delete txn (dc_pending st) |>) idx rotate_addr, [(ep, build_connect_request txn)])
              else
                match conn with
                | None => (st, [])
                | Some c =>
                    if has_pending_in_flight st ep Announce then (st, [])
                    else
                      let st := request st Announce in
                      (if se_sent env then st
                       else on_slot (st <| dc_pending := delete txn (dc_pending st) |> <| dc_connections := delete ep (dc_connections st) |>)
                              idx rotate_addr,
                       [(ep, build_announce_request (tc_id c) txn (dc_room_id st) (dc_peer_id st) port 50)])
                end
        end
  end.

Fixpoint tick_slots (st : DecentralizedState) (idxs : list nat) (port : Z) (envs : nat -> SlotEnv)
  : DecentralizedState * list (SocketAddr * bytes) :=
  match idxs with
  | [] => (st, [])
  | idx :: idxs =>
      let '(st, a) := tick_tracker_slot st idx port (envs idx) in
      let '(st, b) := tick_slots st idxs port envs in (st, a ++ b)
  end.

(** [sort_by_key], stable. *)
Fixpoint insert_by (le : SocketAddr * Instant -> SocketAddr * Instant -> bool) (x : SocketAddr * Instant) (l : list (SocketAddr * Instant))
  : list (SocketAddr * Instant) :=
  match l with
  | [] => [x]
  | y :: l => if le y x then y :: insert_by le x l else x :: y :: l
  end.
Definition sort_by_time (oldest_first : bool) (l : list (SocketAddr * Instant)) : list (SocketAddr * Instant) :=
  foldl (fun acc x => insert_by (fun a b => if oldest_first then a.2 <=? b.2 else b.2 <=? a.2) x acc) [] l.

Section Targets.
Context `{HashIter}.

Definition prune_discovered_at (st : DecentralizedState) (now : Instant) : DecentralizedState :=
  let d := retain (fun _ seen => duration_since now seen <? DISCOVERED_TTL) (dc_discovered st) in
  if Z.of_nat (size d) <=? MAX_DISCOVERED then st <| dc_discovered := d |>
  else
    let drop_n := Z.to_nat (Z.of_nat (size d) - MAX_DISCOVERED) in
    st <| dc_discovered := foldl (fun m x => delete x.1 m) d (take drop_n (sort_by_time true (hm_iter d))) |>.

Definition exact_targets (st : DecentralizedState) (self_public_ep : option SocketAddr) (now : Instant)
  : DecentralizedState * list SocketAddr :=
  let st := prune_discovered_at st now in
  (st, take MAX_PUNCH_TARGETS (filter (fun ep => Some ep <> self_public_ep) (sort_by_time false (hm_iter (dc_discovered st))).*1)).
End Targets.

Record DecentralizedTickOutput := mkTickOut { to_punch_targets : list SocketAddr; to_join_fanout : list (SocketAddr * bytes) }.

Definition tick `{HashIter} (st : DecentralizedState) (self_public_ep : option SocketAddr) (join_pending : bool) (envs : nat -> SlotEnv)
    (swept_at pruned_at : Instant) : DecentralizedState * DecentralizedTickOutput * list (SocketAddr * bytes) :=
  if negb (dc_active st) then (st, mkTickOut [] [], [])
  else
    let st := sweep_expired_pending st swept_at in
    let '(st, sent) := tick_slots st (seq 0 (List.length (dc_slots st))) (announce_port st self_public_ep) envs in
    let '(st, targets) := exact_targets st self_public_ep pruned_at in
    let punch := if bool_decide (targets = []) then [] else expand_symmetric_targets targets MAX_EXPANDED_PUNCH_TARGETS in
    let fanout := match dc_join_body st with
                  | Some body => if dc_is_joiner st && join_pending then (fun ep => (ep, body)) <$> take MAX_FANOUT_MPJN_PER_TICK targets else []
                  | None => []
                  end in
    (st, mkTickOut punch fanout, sent).

(** ** Runs

    The engine's use of the state: the tick first hands out the resolver lookups and the HTTP announces,
    whose answers come back later, in any order and possibly after the session ended. *)

(** What was sent and handed out: the UDP requests and HTTP announces of the present session, and the HTTP
    announces and lookups of all sessions. *)
Record DiscLog := mkDiscLog {
  lg_sent : list (SocketAddr * bytes); lg_works : list HttpAnnounceWork; lg_issued : list HttpAnnounceWork; lg_lookups : list (nat * bytes)
}.
Definition new_session (lg : DiscLog) : DiscLog := mkDiscLog [] [] (lg_issued lg) (lg_lookups lg).

Inductive DiscEv :=
| EvStart (room_id node_id : bytes) (trackers : list bytes) (announce_secs : Z) (is_joiner : bool) (join_body : option bytes) (listen_port : Z)
| EvStop
| EvJoiner (active : bool)
| EvResolved (k : nat) (addrs : list SocketAddr)                                     (* the [k]-th lookup is answered *)
| EvHttp (k : nat) (outcome : option (Z * list SocketAddr)) (now : Instant)          (* the [k]-th HTTP announce is answered *)
| EvDatagram (from : SocketAddr) (data : bytes) (now : Instant)
| EvTick (self_public_ep : option SocketAddr) (join_pending : bool) (envs : nat -> SlotEnv) (http_at swept_at pruned_at : Instant).

Section Run.
Context `{HashIter}.
Variable fmt : SocketAddr -> bytes.

Definition run_decentralized_tick (st : DecentralizedState) (lg : DiscLog) (self_ep : option SocketAddr) (join_pending : bool)
    (envs : nat -> SlotEnv) (http_at swept_at pruned_at : Instant) : DecentralizedState * DiscLog * DecentralizedTickOutput :=
  if negb (dc_active st) then (st, lg, mkTickOut [] [])
  else
    let '(st, lookups) := take_pending_resolves st in
    let '(st, works) := take_pending_http_announces st (announce_port st self_ep) http_at in
    let '(st, out, sent) := tick st self_ep join_pending envs swept_at pruned_at in
    (st, mkDiscLog (lg_sent lg ++ sent) (lg_works lg ++ works) (lg_issued lg ++ works) (lg_lookups lg ++ lookups), out).

Definition disc_step (s : DecentralizedState * DiscLog) (ev : DiscEv) : DecentralizedState * DiscLog :=
  let '(st, lg) := s in
  match ev with
  | EvStart room node trackers secs joiner body port => (start st room node trackers secs joiner body port, new_session lg)
  | EvStop => (stop st, new_session lg)
  | EvJoiner b => (set_joiner_active st b, lg)
  | EvResolved k addrs =>
      match lg_lookups lg !! k with
      | Some (idx, _) => (clear_resolve_in_flight (add_resolved_addrs st idx addrs) idx, lg)
      | None => (st, lg)
      end
  | EvHttp k outcome now =>
      match lg_issued lg !! k with
      | Some w => ((apply_http_announce_result st (hw_slot_idx w) (hw_generation w) (hw_tracker_url w) outcome now).1, lg)
      | None => (st, lg)
      end
  | EvDatagram from data now => ((handle_datagram fmt st from data now).1.1, lg)
  | EvTick self_ep join_pending envs http_at swept_at pruned_at =>
      (run_decentralized_tick st lg self_ep join_pending envs http_at swept_at pruned_at).1
  end.
Definition disc_run (evs : list DiscEv) : DecentralizedState * DiscLog :=
  foldl disc_step (default_decentralized, mkDiscLog [] [] [] []) evs.
End Run.

(** ** The invariant *)

Definition all_addrs (st : DecentralizedState) : list SocketAddr := mbind ts_addrs (dc_slots st).

(** What most operations leave alone: they add no pending request and drop no tracker address. *)
Record frame (st st' : DecentralizedState) : Prop := {
  fr_pending : dc_pending st' ⊆ dc_pending st;
  fr_room : dc_room_id st' = dc_room_id st;
  fr_peer : dc_peer_id st' = dc_peer_id st;
  fr_gen : dc_generation st' = dc_generation st;
  fr_addrs : all_addrs st ⊆ all_addrs st'
}.
#[export] Instance frame_refl : Reflexive frame.
Proof. by intros st. Qed.
#[export] Instance frame_trans : Transitive frame.
Proof. intros a b c [P R1 R2 G A] [P' R1' R2' G' A']. split; [by etrans|congruence..|set_solver]. Qed.

Lemma addrs_alter (f : TrackerSlot -> TrackerSlot) i l : (forall s, ts_addrs s ⊆ ts_addrs (f s)) ->
  mbind ts_addrs l ⊆ mbind ts_addrs (alter f i l).
Proof.
  intros F a (s & A & S)%list_elem_of_bind. apply list_elem_of_lookup in S as [j S]. apply list_elem_of_bind. destruct (decide (j = i)) as [->|N].
  - exists (f s). split; [by apply F|]. apply list_elem_of_lookup. exists i. by rewrite list_lookup_alter_eq, S.
  - exists s. split; [done|]. apply list_elem_of_lookup. exists j. by rewrite list_lookup_alter_ne.
Qed.

Lemma frame_on_slot st i f : (forall s, ts_addrs s ⊆ ts_addrs (f s)) -> frame st (on_slot st i f).
Proof. intros F. split; try done. by apply addrs_alter. Qed.

Lemma frame_slots st l : ts_addrs <$> l = ts_addrs <$> dc_slots st -> frame st (st <| dc_slots := l |>).
Proof.
  intros E. split; try done. unfold all_addrs. cbn. intros a. rewrite !list_elem_of_bind. intros (s & A & S).
  assert (X : ts_addrs s ∈ ts_addrs <$> dc_slots st) by (apply list_elem_of_fmap; by exists s). rewrite <- E in X.
  apply list_elem_of_fmap in X as (s' & X & S'). exists s'. by rewrite <- X.
Qed.

Lemma foldl_noted now l : forall st, let st' := foldl (note_discovered now) st l in
  st' = st <| dc_discovered := dc_discovered st' |> /\
  forall x t, dc_discovered st' !! x = Some t -> dc_discovered st !! x = Some t \/ x ∈ l.
Proof.
  induction l as [|y l IH]; intros st; cbn [foldl]; [split; [by destruct st|auto]|]. destruct (IH (note_discovered now st y)) as [E D].
  split; [rewrite E; by destruct st|]. intros x t X. apply D in X as [X|X]; [|set_solver]. cbn in X.
  apply lookup_insert_Some in X as [[-> _]|[_ X]]; [set_solver|auto].
Qed.

Lemma learn_spec st idx interval peers url now : let st' := (learn st idx interval peers url now).1 in
  frame st st' /\ forall x t, dc_discovered st' !! x = Some t -> dc_discovered st !! x = Some t \/ x ∈ peers.
Proof.
  unfold learn. set (st1 := match idx with Some _ => _ | None => st end). destruct (foldl_noted now peers st1) as [E D].
  assert (F1 : frame st st1) by (subst st1; destruct idx; [by apply frame_on_slot|done]).
  assert (D1 : dc_discovered st1 = dc_discovered st) by (subst st1; by destruct idx). cbn [fst]. split.
  - etrans; [exact F1|]. rewrite E. by split.
  - cbn. intros x t X. rewrite <- D1. by apply D.
Qed.

Lemma http_result_spec st i gen url outcome now : let st' := (apply_http_announce_result st i gen url outcome now).1 in
  frame st st' /\ forall x t, dc_discovered st' !! x = Some t -> dc_discovered st !! x = Some t \/
    gen = dc_generation st /\ dc_active st = true /\ exists interval peers, outcome = Some (interval, peers) /\ x ∈ peers.
Proof.
  unfold apply_http_announce_result. destruct (dc_active st); cbn [negb orb]; [|by split; [|auto]].
  destruct (Z.eqb_spec gen (dc_generation st)) as [G|G]; cbn [negb]; [|by split; [|auto]].
  case_bool_decide; [by split; [|auto]|]. set (st1 := on_slot _ _ _). assert (F : frame st st1) by by apply frame_on_slot.
  destruct outcome as [[interval peers]|]; [|by split; [|auto]].
  destruct (learn_spec st1 (Some i) interval peers url now) as [F1 D1]. destruct (learn st1 _ _ _ _ _) as [st2 ev]. cbn [fst] in *.
  split; [by etrans|]. intros x t X. apply D1 in X as [X|X]; [by left|right]. eauto 10.
Qed.

Lemma datagram_spec fmt st from data now : let st' := (handle_datagram fmt st from data now).1.1 in
  frame st st' /\ forall x t, dc_discovered st' !! x = Some t -> dc_discovered st !! x = Some t \/
    exists op, dc_pending st !! sub 4 8 data = Some op /\ po_kind op = Announce /\ po_tracker op = from /\
      exists interval peers, parse_announce_response data (sub 4 8 data) = Some (interval, peers) /\ x ∈ peers.
Proof.
  unfold handle_datagram. destruct (_ || _); [by split; [|auto]|]. destruct (dc_pending st !! sub 4 8 data) as [op|] eqn:O; [|by split; [|auto]].
  case_bool_decide as T; cbn [negb]; [|by split; [|auto]]. set (st1 := st <| dc_pending := _ |>).
  assert (F : frame st st1) by (split; try done; apply delete_subseteq). destruct (po_kind op) eqn:K.
  - destruct (parse_connect_response _ _); cbn [fst]; (split; [|auto]); [etrans; [exact F|by split]|done].
  - destruct (parse_announce_response _ _) as [[interval peers]|] eqn:P; [|by split; [|auto]].
    match goal with |- context [learn st1 ?i ?a ?b ?c ?d] => destruct (learn_spec st1 i a b c d) as [F1 D1]; destruct (learn st1 i a b c d) as [st2 ev] end.
    cbn [fst] in *. split; [by etrans|]. intros x t X. apply D1 in X as [X|X]; [by left|right]. eauto 10.
Qed.

(** A request of the state's session with transaction id [txn]. *)
Definition request_of (st : DecentralizedState) (kind : PendingKind) (txn pkt : bytes) : Prop :=
  match kind with
  | Connect => pkt = build_connect_request txn
  | Announce => exists cid port, pkt = build_announce_request cid txn (dc_room_id st) (dc_peer_id st) port 50
  end.

(** Every pending request was sent to the tracker it is filed for, whose address a slot has, and there is
    at most one of a kind for a tracker. *)
Record pend_ok (st : DecentralizedState) (sent : list (SocketAddr * bytes)) : Prop := {
  pd_sent txn op : dc_pending st !! txn = Some op -> exists pkt, (po_tracker op, pkt) ∈ sent /\ request_of st (po_kind op) txn pkt;
  pd_uniq txn1 op1 txn2 op2 : dc_pending st !! txn1 = Some op1 -> dc_pending st !! txn2 = Some op2 ->
    po_tracker op1 = po_tracker op2 -> po_kind op1 = po_kind op2 -> txn1 = txn2;
  pd_addr txn op : dc_pending st !! txn = Some op -> po_tracker op ∈ all_addrs st
}.

Lemma pend_ok_frame st st' sent extra : frame st st' -> pend_ok st sent -> pend_ok st' (sent ++ extra).
Proof.
  intros [P R1 R2 _ A] [S U D]. assert (I : forall txn op, dc_pending st' !! txn = Some op -> dc_pending st !! txn = Some op)
    by (intros; by eapply lookup_weaken).
  split.
  - intros txn op X. apply I, S in X as (pkt & X & Q). exists pkt. split; [apply elem_of_app; by left|].
    unfold request_of in *. by rewrite R1, R2.
  - eauto.
  - intros txn op X. apply A. eauto.
Qed.

Lemma no_pending st tracker kind txn op : has_pending_in_flight st tracker kind = false -> dc_pending st !! txn = Some op ->
  po_tracker op = tracker -> po_kind op = kind -> False.
Proof.
  intros N O <- <-. apply not_true_iff_false in N. apply N. unfold has_pending_in_flight. apply existsb_exists. exists (txn, op).
  split; [apply list_elem_of_In, elem_of_map_to_list, O|cbn; by rewrite !bool_decide_true].
Qed.

(** A new request. *)
Lemma pend_ok_request st sent ep kind txn now pkt : pend_ok st sent -> has_pending_in_flight st ep kind = false -> ep ∈ all_addrs st ->
  request_of st kind txn pkt -> pend_ok (st <| dc_pending := <[txn := mkPending kind ep now]> (dc_pending st) |>) (sent ++ [(ep, pkt)]).
Proof.
  intros [S U D] N A Q. split; cbn.
  - intros t op [[<- <-]|[_ X]]%lookup_insert_Some; [exists pkt; split; [set_solver|done]|].
    apply S in X as (p & X & Q'). exists p. split; [set_solver|done].
  - intros t1 o1 t2 o2 [[<- <-]|[N1 X1]]%lookup_insert_Some [[<- <-]|[N2 X2]]%lookup_insert_Some T K; cbn in *; [done| | |by eapply U].
    + exfalso. by eapply no_pending.
    + exfalso. by eapply no_pending.
  - intros t op [[<- <-]|[_ X]]%lookup_insert_Some; [done|by eapply D].
Qed.

Lemma current_addr_elem st idx s ep : dc_slots st !! idx = Some s -> current_addr s = Some ep -> ep ∈ all_addrs st.
Proof.
  unfold current_addr. case_bool_decide; [done|]. intros S A. apply list_elem_of_bind. exists s. split; by eapply list_elem_of_lookup_2.
Qed.

Lemma rotate_addrs s : ts_addrs s ⊆ ts_addrs (rotate_addr s).
Proof. unfold rotate_addr. by case_bool_decide. Qed.

(** The parts of the state a tick of the slots keeps. *)
Definition tick_keeps (st st' : DecentralizedState) : Prop :=
  dc_discovered st' = dc_discovered st /\ dc_generation st' = dc_generation st.

Lemma slot_tick_ok st idx port env sent : pend_ok st sent ->
  let '(st', new) := tick_tracker_slot st idx port env in pend_ok st' (sent ++ new) /\ tick_keeps st st'.
Proof.
  intros O. assert (Z0 : pend_ok st (sent ++ []) /\ tick_keeps st st) by (split; [by apply (pend_ok_frame st)|done]).
  unfold tick_tracker_slot. destruct (dc_slots st !! idx) as [s|] eqn:S; [|done]. destruct (is_udp s); [cbn [negb]|done].
  destruct (current_addr s) as [ep|] eqn:C; [|done]. destruct (announce_due _ _ _); [cbn [negb]|done].
  pose proof (current_addr_elem _ _ _ _ S C) as A.
  destruct (match dc_connections st !! ep with Some c => _ | None => _ end).
  - destruct (has_pending_in_flight st ep Connect) eqn:N; [done|].
    pose proof (pend_ok_request st sent ep Connect (se_txn env) (se_now env) _ O N A eq_refl) as R.
    destruct (se_sent env); [by split|]. split; [|done]. rewrite <- (app_nil_r (_ ++ _)). eapply pend_ok_frame; [|exact R].
    etrans; [|apply frame_on_slot, rotate_addrs]. split; try done. apply delete_subseteq.
  - destruct (dc_connections st !! ep) as [c|]; [|done]. destruct (has_pending_in_flight st ep Announce) eqn:N; [done|].
    pose proof (pend_ok_request st sent ep Announce (se_txn env) (se_now env)
                  (build_announce_request (tc_id c) (se_txn env) (dc_room_id st) (dc_peer_id st) port 50) O N A) as R.
    specialize (R (ex_intro _ _ (ex_intro _ _ eq_refl))). destruct (se_sent env); [by split|]. split; [|done].
    rewrite <- (app_nil_r (_ ++ _)). eapply pend_ok_frame; [|exact R].
    etrans; [|apply frame_on_slot, rotate_addrs]. split; try done. apply delete_subseteq.
Qed.

Lemma slots_tick_ok idxs port envs : forall st sent, pend_ok st sent ->
  let '(st', new) := tick_slots st idxs port envs in pend_ok st' (sent ++ new) /\ tick_keeps st st'.
Proof.
  induction idxs as [|i idxs IH]; intros st sent O; cbn [tick_slots]; [split; [by apply (pend_ok_frame st)|done]|].
  pose proof (slot_tick_ok st i port (envs i) sent O) as X. destruct (tick_tracker_slot _ _ _ _) as [st1 a]. destruct X as [O1 [D1 G1]].
  specialize (IH st1 (sent ++ a) O1). destruct (tick_slots st1 _ _ _) as [st2 b]. destruct IH as [O2 [D2 G2]].
  rewrite app_assoc. split; [done|]. split; congruence.
Qed.

Lemma collect_http_addrs st port now slots : forall idx n, ts_addrs <$> (collect_http st port now idx n slots).1 = ts_addrs <$> slots.
Proof.
  induction slots as [|s slots IH]; intros idx n; cbn [collect_http]; [done|]. case_match; [done|].
  destruct (_ || _); [specialize (IH (S idx) n)|specialize (IH (S idx) (n + 1))]; destruct (collect_http _ _ _ _ _ _) as [l out];
    cbn [fst] in *; rewrite !fmap_cons; by f_equal.
Qed.

Lemma collect_http_gen st port now slots : forall idx n w, w ∈ (collect_http st port now idx n slots).2 -> hw_generation w = dc_generation st.
Proof.
  induction slots as [|s slots IH]; intros idx n w; cbn [collect_http]; [set_solver|]. case_match; [set_solver|].
  destruct (_ || _); destruct (collect_http _ _ _ _ _ _) as [l out] eqn:E; cbn [snd].
  - intros X. eapply IH. by rewrite E.
  - intros [->|X]%elem_of_cons; [done|]. eapply IH. by rewrite E.
Qed.

Lemma resolves_frame st : frame st (take_pending_resolves st).1 /\ dc_discovered (take_pending_resolves st).1 = dc_discovered st.
Proof.
  unfold take_pending_resolves. destruct (negb _); [done|]. split; [|done]. apply frame_slots. rewrite <- list_fmap_compose.
  apply list_fmap_ext. intros i s _. unfold compose. by case_match.
Qed.

Lemma sweep_frame st now : frame st (sweep_expired_http_inflight st now).
Proof.
  apply frame_slots. rewrite <- list_fmap_compose. apply list_fmap_ext. intros i s _. unfold compose, sweep_slot. by destruct (_ && _).
Qed.

Lemma http_frame st port now : let '(st', works) := take_pending_http_announces st port now in
  frame st st' /\ dc_discovered st' = dc_discovered st /\ forall w, w ∈ works -> hw_generation w = dc_generation st.
Proof.
  unfold take_pending_http_announces. destruct (negb _); [split_and!; [done|done|set_solver]|].
  pose proof (sweep_frame st now) as F. set (st1 := sweep_expired_http_inflight st now) in *.
  match goal with |- context [collect_http st1 port now 0 ?n (dc_slots st1)] =>
    pose proof (collect_http_addrs st1 port now (dc_slots st1) 0 n) as A; pose proof (collect_http_gen st1 port now (dc_slots st1) 0 n) as G;
    destruct (collect_http st1 port now 0 n (dc_slots st1)) as [slots out] end.
  split_and!; [etrans; [exact F|by apply frame_slots]|done|]. intros w W. rewrite (G w W). apply (fr_gen _ _ F).
Qed.

(** ** Which endpoints are punched *)

Definition by_time (oldest_first : bool) (a b : SocketAddr * Instant) : bool := if oldest_first then a.2 <=? b.2 else b.2 <=? a.2.

Lemma insert_by_perm le x l : insert_by le x l ≡ₚ x :: l.
Proof. induction l as [|y l IH]; cbn [insert_by]; [done|]. case_match; [|done]. rewrite IH. constructor. Qed.

Lemma insert_by_sorted o x l : StronglySorted (fun a b => by_time o a b = true) l ->
  StronglySorted (fun a b => by_time o a b = true) (insert_by (by_time o) x l).
Proof.
  induction 1 as [|y l S IH F]; cbn [insert_by]; [repeat constructor|]. destruct (by_time o y x) eqn:E.
  - constructor; [done|]. rewrite insert_by_perm. by constructor.
  - constructor; [by constructor|]. assert (X : by_time o x y = true) by (unfold by_time in *; destruct o; lia).
    constructor; [done|]. eapply Forall_impl; [exact F|]. intros z Z0. unfold by_time in *. destruct o; lia.
Qed.

Lemma sort_perm o l : sort_by_time o l ≡ₚ l.
Proof.
  unfold sort_by_time. enough (G : forall acc, foldl (fun acc x => insert_by (by_time o) x acc) acc l ≡ₚ l ++ acc) by (rewrite (G []); by rewrite app_nil_r).
  induction l as [|x l IH]; intros acc; cbn [foldl app]; [done|]. rewrite IH, insert_by_perm. by rewrite Permutation_middle.
Qed.

Lemma sort_sorted o l : StronglySorted (fun a b => by_time o a b = true) (sort_by_time o l).
Proof. unfold sort_by_time. apply (foldl_inv (StronglySorted _)); [constructor|]. intros s x. apply insert_by_sorted. Qed.

Lemma sorted_split {A} (R : A -> A -> Prop) l k x y : StronglySorted R (l ++ k) -> x ∈ l -> y ∈ k -> R x y.
Proof.
  induction l as [|z l IH]; cbn [app]; [set_solver|]. intros S X Y. inversion_clear S as [|? ? S' F]. rewrite Forall_forall in F.
  apply elem_of_cons in X as [->|X]; [apply F; set_solver|by apply IH].
Qed.

Lemma sorted_filter {A} (R : A -> A -> Prop) (P : A -> Prop) `{!forall x, Decision (P x)} l : StronglySorted R l -> StronglySorted R (filter P l).
Proof.
  induction 1 as [|x l S IH F]; [constructor|]. rewrite filter_cons. case_decide; [|done]. constructor; [done|].
  rewrite Forall_forall in *. intros y [_ Y]%list_elem_of_filter. by apply F.
Qed.

Lemma filter_id {A} (P : A -> Prop) `{!forall x, Decision (P x)} l : Forall P l -> filter P l = l.
Proof. induction 1 as [|x l X F IH]; [done|]. by rewrite filter_cons_True, IH. Qed.

Lemma filter_one_out (self : option SocketAddr) l : NoDup l -> (List.length l <= S (List.length (filter (fun x => Some x <> self) l)))%nat.
Proof.
  induction 1 as [|x l X N IH]; [cbn; lia|]. rewrite filter_cons. case_decide as D; cbn [List.length]; [lia|].
  assert (E : filter (fun x => Some x <> self) l = l); [|rewrite E; lia].
  apply filter_id, Forall_forall. intros y Y E. assert (x = y) by congruence. by subst y.
Qed.

(** The known endpoints that are not too old. *)
Definition fresh (st : DecentralizedState) (now : Instant) (x : SocketAddr) (t : Instant) : Prop :=
  dc_discovered st !! x = Some t /\ duration_since now t < DISCOVERED_TTL.

Section Choice.
Context `{HashIter}.

Lemma retain_fresh st now x t : retain (fun _ seen => duration_since now seen <? DISCOVERED_TTL) (dc_discovered st) !! x = Some t <-> fresh st now x t.
Proof. rewrite lookup_retain. unfold fresh. by rewrite Z.ltb_lt. Qed.

Lemma foldl_delete (l : list (SocketAddr * Instant)) : forall (m : gmap SocketAddr Instant) k v,
  foldl (fun m x => delete x.1 m) m l !! k = Some v <-> m !! k = Some v /\ k ∉ l.*1.
Proof.
  induction l as [|x l IH]; intros m k v; cbn [foldl fmap list_fmap]; [set_solver|]. rewrite IH, lookup_delete_Some, not_elem_of_cons. naive_solver.
Qed.

Lemma sort_elem o (d : gmap SocketAddr Instant) x t : (x, t) ∈ sort_by_time o (hm_iter d) <-> d !! x = Some t.
Proof. by rewrite sort_perm, hm_iter_elem. Qed.
Lemma sort_keys o (d : gmap SocketAddr Instant) : NoDup (sort_by_time o (hm_iter d)).*1.
Proof. rewrite sort_perm. apply hm_iter_NoDup_fst. Qed.

(** Dropping the oldest [n] keeps the others. *)
Lemma drop_oldest (d : gmap SocketAddr Instant) n :
  foldl (fun m x => delete x.1 m) d (take n (sort_by_time true (hm_iter d))) = list_to_map (drop n (sort_by_time true (hm_iter d))).
Proof.
  set (l := sort_by_time true (hm_iter d)). pose proof (sort_keys true d) as N. fold l in N.
  pose proof N as N'. rewrite <- (take_drop n l), fmap_app in N'. apply NoDup_app in N' as (_ & X & N2).
  apply map_eq. intros k. apply option_eq. intros v. rewrite foldl_delete, <- elem_of_list_to_map by done.
  unfold l at 1 2. rewrite <- (sort_elem true). fold l. rewrite <- (take_drop n l) at 1. rewrite elem_of_app. split.
  - intros [[I|I] K]; [|done]. destruct K. apply list_elem_of_fmap. by exists (k, v).
  - intros I. split; [by right|]. intros K. apply (X k K). apply list_elem_of_fmap. by exists (k, v).
Qed.

Lemma prune_spec st now : let d' := dc_discovered (prune_discovered_at st now) in
  (forall x t, d' !! x = Some t -> fresh st now x t) /\ Z.of_nat (size d') <= MAX_DISCOVERED /\
  forall y ty, fresh st now y ty -> d' !! y = None -> Z.of_nat (size d') = MAX_DISCOVERED /\ forall x tx, d' !! x = Some tx -> ty <= tx.
Proof.
  unfold prune_discovered_at. set (d := retain _ _). assert (F : forall x t, d !! x = Some t <-> fresh st now x t) by apply retain_fresh.
  destruct (Z.leb_spec (Z.of_nat (size d)) MAX_DISCOVERED) as [L|L]; cbn [dc_discovered].
  { split_and!; [intros; by apply F|done|]. intros y ty Y Z0. apply F in Y. cbn in Z0. congruence. }
  set (n := Z.to_nat _). cbn. rewrite drop_oldest. set (l := sort_by_time true (hm_iter d)). pose proof (sort_keys true d) as N. fold l in N.
  assert (N' : NoDup (drop n l).*1) by (rewrite <- (take_drop n l), fmap_app in N; by apply NoDup_app in N as (_ & _ & N)).
  assert (LEN : List.length l = size d) by (unfold l; by rewrite sort_perm, hm_iter_length).
  assert (SZ : size (list_to_map (drop n l) : gmap SocketAddr Instant) = (List.length l - n)%nat)
    by (rewrite map_size_list_to_map by done; apply length_drop).
  split_and!.
  - intros x t X. apply F, (sort_elem true). fold l. rewrite <- elem_of_list_to_map in X by done.
    rewrite <- (take_drop n l). apply elem_of_app. by right.
  - rewrite SZ, LEN. unfold n, MAX_DISCOVERED in *. lia.
  - intros y ty Y Z0. split; [rewrite SZ, LEN; unfold n, MAX_DISCOVERED in *; lia|]. intros x tx X.
    apply F, (sort_elem true) in Y. fold l in Y. rewrite <- elem_of_list_to_map in X by done.
    rewrite <- (take_drop n l) in Y. apply elem_of_app in Y as [Y|Y]; [|rewrite elem_of_list_to_map in Y by done; congruence].
    pose proof (sort_sorted true (hm_iter d)) as S. fold l in S. rewrite <- (take_drop n l) in S.
    pose proof (sorted_split _ _ _ _ _ S Y X) as R. unfold by_time in R. cbn in R. lia.
Qed.

(** The candidates, newest first, without the node's own endpoint. *)
Definition candidates (d : gmap SocketAddr Instant) (self : option SocketAddr) : list (SocketAddr * Instant) :=
  filter (fun x => Some x.1 <> self) (sort_by_time false (hm_iter d)).

Lemma candidates_keys d self : (candidates d self).*1 = filter (fun x => Some x <> self) (sort_by_time false (hm_iter d)).*1.
Proof. unfold candidates. induction (sort_by_time false _) as [|x l IH]; [done|]. rewrite fmap_cons, !filter_cons. case_decide; cbn; by rewrite IH. Qed.

Lemma candidates_elem d self x t : (x, t) ∈ candidates d self <-> Some x <> self /\ d !! x = Some t.
Proof. unfold candidates. by rewrite list_elem_of_filter, sort_elem. Qed.

Lemma candidates_length d self : (size d <= S (List.length (candidates d self)))%nat.
Proof.
  rewrite <- (length_fmap fst (candidates d self)), candidates_keys. etrans; [|apply filter_one_out, sort_keys].
  by rewrite length_fmap, sort_perm, hm_iter_length.
Qed.

(** The targets are the newest candidates. *)
Lemma newest_targets d self : let out := take MAX_PUNCH_TARGETS (candidates d self).*1 in
  NoDup out /\ len out <= 64 /\ (forall x, x ∈ out -> Some x <> self /\ exists t, d !! x = Some t) /\
  forall y ty, d !! y = Some ty -> Some y <> self -> y ∉ out -> len out = 64 /\ forall x tx, x ∈ out -> d !! x = Some tx -> ty <= tx.
Proof.
  set (c := candidates d self). intros out. assert (N : NoDup c.*1) by (unfold c; rewrite candidates_keys; apply NoDup_filter, sort_keys).
  assert (E : out = (take MAX_PUNCH_TARGETS c).*1) by (unfold out; by rewrite fmap_take).
  assert (IN : forall x, x ∈ out -> exists t, (x, t) ∈ take MAX_PUNCH_TARGETS c).
  { intros x X. rewrite E in X. apply list_elem_of_fmap in X as ([x' t] & -> & X). by exists t. }
  assert (SUB : forall x t, (x, t) ∈ take MAX_PUNCH_TARGETS c -> Some x <> self /\ d !! x = Some t).
  { intros x t X. apply candidates_elem. fold c. by eapply elem_of_take in X as (i & X & _); eapply list_elem_of_lookup_2. }
  split_and!.
  - eapply sublist_NoDup; [exact N|apply sublist_take].
  - unfold len, out, MAX_PUNCH_TARGETS. rewrite length_take. lia.
  - intros x X. destruct (IN x X) as [t T]. apply SUB in T as [T1 T2]. eauto.
  - intros y ty Y S O. assert (I : (y, ty) ∈ drop MAX_PUNCH_TARGETS c).
    { assert (I : (y, ty) ∈ c) by by apply candidates_elem. rewrite <- (take_drop MAX_PUNCH_TARGETS c) in I.
      apply elem_of_app in I as [I|I]; [|done]. destruct O. rewrite E. apply list_elem_of_fmap. by exists (y, ty). }
    split.
    + unfold len, out. rewrite length_take, length_fmap. assert (G : (0 < List.length (drop MAX_PUNCH_TARGETS c))%nat) by (destruct (drop _ c); [set_solver|cbn; lia]).
      rewrite length_drop in G. unfold MAX_PUNCH_TARGETS in *. lia.
    + intros x tx X T. destruct (IN x X) as [t T']. pose proof (SUB x t T') as [_ T'']. assert (t = tx) by congruence. subst t.
      assert (ST : StronglySorted (fun a b => by_time false a b = true) c) by apply sorted_filter, sort_sorted.
      rewrite <- (take_drop MAX_PUNCH_TARGETS c) in ST. pose proof (sorted_split _ _ _ _ _ ST T' I) as R. unfold by_time in R. cbn in R. lia.
Qed.

(** The endpoints to punch are the 64 most recently seen ones: all different, never the node's own,
    each reported by a tracker less than five minutes ago; such an endpoint is left out only when 64 others
    at least as recent are chosen, and at most 256 are remembered, whatever the order of the table. *)
Theorem exact_targets_spec st self now : let '(st', out) := exact_targets st self now in
  Z.of_nat (size (dc_discovered st')) <= MAX_DISCOVERED /\ NoDup out /\ len out <= 64 /\
  (forall x, x ∈ out -> Some x <> self /\ exists t, fresh st now x t) /\
  forall y ty, fresh st now y ty -> Some y <> self -> y ∉ out -> len out = 64 /\ forall x tx, x ∈ out -> fresh st now x tx -> ty <= tx.
Proof.
  unfold exact_targets. rewrite <- candidates_keys. destruct (prune_spec st now) as (F & L & P). set (d := dc_discovered _) in *.
  destruct (newest_targets d self) as (N & LEN & IN & NEW). set (out := take _ _) in *.
  split_and!; [done|done|done| |]. { intros x X. destruct (IN x X) as (S & t & T). eauto. }
  assert (FR : forall x tx, x ∈ out -> fresh st now x tx -> d !! x = Some tx).
  { intros x tx X [T _]. destruct (IN x X) as (_ & t & D). pose proof (F x t D) as [T' _]. congruence. }
  intros y ty Y S O. destruct (d !! y) as [t|] eqn:D.
  - pose proof (F y t D) as [T' _]. destruct Y as [Y _]. assert (t = ty) by congruence. subst t.
    destruct (NEW y ty D S O) as [E R]. split; [done|]. intros x tx X T. eapply R; eauto.
  - destruct (P y ty Y D) as [SZ R]. split; [|intros x tx X T; eapply R; eauto].
    pose proof (candidates_length d self) as C. unfold len, out. rewrite length_take, length_fmap. unfold MAX_DISCOVERED, MAX_PUNCH_TARGETS in *. lia.
Qed.
End Choice.

(** ** Runs *)

Section Runs.
Context `{HashIter}.
Variable fmt : SocketAddr -> bytes.

Lemma prune_frame st now : frame st (prune_discovered_at st now).
Proof. unfold prune_discovered_at. case_match; by split. Qed.

Lemma tick_spec st self join envs swept pruned sent : pend_ok st sent ->
  let '(st', out, new) := tick st self join envs swept pruned in
  pend_ok st' (sent ++ new) /\ dc_generation st' = dc_generation st /\
  forall x t, dc_discovered st' !! x = Some t -> dc_discovered st !! x = Some t.
Proof.
  intros O. unfold tick. destruct (negb _); [split; [by apply (pend_ok_frame st)|auto]|].
  assert (F : frame st (sweep_expired_pending st swept)) by (split; try done; apply map_filter_subseteq).
  apply (pend_ok_frame _ _ _ [] F) in O. rewrite app_nil_r in O. set (st1 := sweep_expired_pending st swept) in *.
  pose proof (slots_tick_ok (seq 0 (List.length (dc_slots st1))) (announce_port st1 self) envs st1 sent O) as X.
  destruct (tick_slots _ _ _ _) as [st2 new]. destruct X as [O2 [D2 G2]]. unfold exact_targets.
  split_and!; [|rewrite <- (fr_gen _ _ F), <- G2; apply (fr_gen _ _ (prune_frame st2 pruned))|].
  - rewrite <- (app_nil_r (sent ++ new)). by eapply pend_ok_frame; [apply prune_frame|].
  - intros x t X. destruct (prune_spec st2 pruned) as (FR & _ & _). destruct (FR x t X) as [T _]. rewrite D2 in T. exact T.
Qed.

Lemma engine_tick_spec st lg self join envs a b c : pend_ok st (lg_sent lg) ->
  let '(st', lg', _) := run_decentralized_tick st lg self join envs a b c in
  pend_ok st' (lg_sent lg') /\ dc_generation st' = dc_generation st /\
  (forall x t, dc_discovered st' !! x = Some t -> dc_discovered st !! x = Some t) /\
  exists new, (forall w, w ∈ new -> hw_generation w = dc_generation st) /\ lg_issued lg' = lg_issued lg ++ new /\ lg_works lg' = lg_works lg ++ new.
Proof.
  intros O. unfold run_decentralized_tick. destruct (negb _).
  { split_and!; [done|done|done|]. exists []. rewrite !app_nil_r. split; [set_solver|done]. }
  destruct (resolves_frame st) as [F1 D1]. destruct (take_pending_resolves st) as [st1 lookups]. cbn [fst] in *.
  pose proof (http_frame st1 (announce_port st1 self) a) as X. destruct (take_pending_http_announces _ _ _) as [st2 works].
  destruct X as (F2 & D2 & W). apply (pend_ok_frame _ _ _ [] (transitivity F1 F2)) in O. rewrite app_nil_r in O.
  pose proof (tick_spec st2 self join envs b c _ O) as X. destruct (tick _ _ _ _ _ _) as [[st3 out] sent]. destruct X as (O3 & G3 & D3). cbn.
  split_and!; [done|by rewrite G3, (fr_gen _ _ F2), (fr_gen _ _ F1)|intros x t X; apply D3 in X; congruence|].
  exists works. split; [|done]. intros w Hw. by rewrite (W w Hw), (fr_gen _ _ F1).
Qed.

Lemma empty_pend_ok st sent : dc_pending st = ∅ -> pend_ok st sent.
Proof. intros E. split; intros *; rewrite E, lookup_empty; intros X; discriminate X. Qed.

Lemma add_addrs_frame st idx addrs : frame st (clear_resolve_in_flight (add_resolved_addrs st idx addrs) idx).
Proof.
  etrans; [|by apply frame_on_slot]. apply frame_on_slot. intros s. cbn. generalize (ts_addrs s). induction addrs as [|a addrs IH]; intros l; cbn [foldl]; [done|].
  etrans; [|apply IH]. unfold add_addr. case_match; [|done]. case_bool_decide; [done|set_solver].
Qed.

Lemma step_pend_ok s ev : pend_ok s.1 (lg_sent s.2) -> pend_ok (disc_step fmt s ev).1 (lg_sent (disc_step fmt s ev).2).
Proof.
  destruct s as [st lg]. cbn [fst snd]. intros O. assert (K : forall st', frame st st' -> pend_ok st' (lg_sent lg))
    by (intros st' F; rewrite <- (app_nil_r (lg_sent lg)); by eapply pend_ok_frame).
  destruct ev as [room node trackers secs joiner body port| |act|k addrs|k outcome now|from data now|self join envs a b c]; cbn [disc_step].
  - by apply empty_pend_ok.
  - by apply empty_pend_ok.
  - apply K. by split.
  - destruct (lg_lookups lg !! k) as [[idx ?]|]; [apply K, add_addrs_frame|done].
  - destruct (lg_issued lg !! k) as [w|]; [apply K, http_result_spec|done].
  - apply K, datagram_spec.
  - pose proof (engine_tick_spec st lg self join envs a b c O) as X.
    destruct (run_decentralized_tick _ _ _ _ _ _ _ _) as [[st' lg'] out]. by destruct X.
Qed.

Lemma run_pend_ok evs : pend_ok (disc_run fmt evs).1 (lg_sent (disc_run fmt evs).2).
Proof.
  unfold disc_run. apply (foldl_inv (fun s => pend_ok s.1 (lg_sent s.2))); [by apply empty_pend_ok|]. intros s e. apply step_pend_ok.
Qed.

(** However trackers, timers, failed sends and sessions interleave, and even if transaction ids repeat,
    requests to silent trackers do not pile up: at most one connect and one announce is pending for each
    tracker address, so there are never more than two for each address of a slot. *)
Theorem pending_bounded evs : let st := (disc_run fmt evs).1 in
  (size (dc_pending st) <= 2 * List.length (all_addrs st))%nat /\
  forall txn1 op1 txn2 op2, dc_pending st !! txn1 = Some op1 -> dc_pending st !! txn2 = Some op2 ->
    po_tracker op1 = po_tracker op2 -> po_kind op1 = po_kind op2 -> txn1 = txn2.
Proof.
  intros st. pose proof (run_pend_ok evs) as [_ U A]. fold st in U, A. split; [|exact U].
  set (ops := (fun kv : bytes * PendingOp => (po_kind kv.2, po_tracker kv.2)) <$> map_to_list (dc_pending st)).
  assert (N : NoDup ops).
  { apply NoDup_fmap_2_strong; [|apply NoDup_map_to_list]. intros [t1 o1] [t2 o2] E1%elem_of_map_to_list E2%elem_of_map_to_list E. cbn in *.
    injection E as EK ET. assert (t1 = t2) by (by eapply U). subst t2. congruence. }
  assert (S : ops ⊆+ list_prod [Connect; Announce] (all_addrs st)).
  { apply NoDup_submseteq; [done|]. intros [k a] X. apply list_elem_of_fmap in X as ([t o] & E & X%elem_of_map_to_list). injection E as -> ->.
    apply list_elem_of_In, in_prod; [destruct (po_kind o); cbn; auto|]. apply list_elem_of_In. by eapply A. }
  apply submseteq_length in S. unfold ops in S. rewrite length_fmap, length_map_to_list, length_prod in S. exact S.
Qed.

(** HTTP announces of earlier sessions have older generations. *)
Definition works_ok (n : nat) (s : DecentralizedState * DiscLog) : Prop :=
  0 <= dc_generation s.1 <= Z.of_nat n /\
  forall w, w ∈ lg_issued s.2 -> hw_generation w <= dc_generation s.1 /\ (hw_generation w = dc_generation s.1 -> w ∈ lg_works s.2).

Lemma new_session_works_ok n st st' lg : Z.of_nat (S n) < 2 ^ 64 -> dc_generation st' = wrap 64 (dc_generation st + 1) ->
  works_ok n (st, lg) -> works_ok (S n) (st', new_session lg).
Proof.
  intros B E [G W]. cbn in *. rewrite wrap_small in E by (unfold in_u; lia). split; cbn; [lia|].
  intros w I. apply W in I as [I _]. split; [lia|]. intros; lia.
Qed.

Lemma step_works_ok n s ev : Z.of_nat (S n) < 2 ^ 64 -> pend_ok s.1 (lg_sent s.2) -> works_ok n s -> works_ok (S n) (disc_step fmt s ev).
Proof.
  destruct s as [st lg]. cbn [fst snd]. intros B O W. assert (K : forall st', dc_generation st' = dc_generation st -> works_ok (S n) (st', lg)).
  { intros st' E. destruct W as [G W]. split; cbn in *; rewrite E; [lia|done]. }
  destruct ev as [room node trackers secs joiner body port| |act|k addrs|k outcome now|from data now|self join envs a b c]; cbn [disc_step].
  - by eapply new_session_works_ok.
  - by eapply new_session_works_ok.
  - by apply K.
  - destruct (lg_lookups lg !! k) as [[idx ?]|]; apply K; [apply (fr_gen _ _ (add_addrs_frame st idx addrs))|done].
  - destruct (lg_issued lg !! k) as [w|]; apply K; [apply http_result_spec|done].
  - apply K, datagram_spec.
  - pose proof (engine_tick_spec st lg self join envs a b c O) as X.
    destruct (run_decentralized_tick _ _ _ _ _ _ _ _) as [[st' lg'] out]. destruct X as (_ & E & _ & new & NG & I1 & I2).
    destruct W as [G W]. split; cbn in *; rewrite E; [lia|]. rewrite I1, I2. intros w [I|I]%elem_of_app.
    + apply W in I as [? I]. split; [done|]. intros EG. apply elem_of_app. left. auto.
    + rewrite (NG w I). split; [lia|]. intros _. apply elem_of_app. by right.
Qed.

Lemma run_works_ok evs : len evs < 2 ^ 64 -> works_ok (List.length evs) (disc_run fmt evs).
Proof.
  induction evs as [|ev evs IH] using rev_ind; intros L; [split; cbn; [lia|set_solver]|].
  unfold disc_run. rewrite foldl_app, length_app, Nat.add_1_r. cbn [foldl]. rewrite len_app in L. change (len [ev]) with 1 in L.
  apply step_works_ok; [unfold len in L; lia|apply run_pend_ok|apply IH; lia].
Qed.

(** C30. An endpoint is learned, or its age reset, only by an answer in the present session: a datagram from
    a tracker address, carrying the id of an announce request for this room and node that was sent to
    that same address since the session started and listing the endpoint, or the result of an HTTP
    announce handed out since the session started.  Answers to earlier sessions, answers from other
    senders, and ticks, resolver results and session changes teach nothing. *)
Theorem discovery_authentic evs ev x t : len evs < 2 ^ 64 ->
  let st := (disc_run fmt evs).1 in
  let lg := (disc_run fmt evs).2 in
  dc_discovered (disc_step fmt (st, lg) ev).1 !! x = Some t -> dc_discovered st !! x <> Some t ->
  match ev with
  | EvDatagram from data _ => exists interval peers cid port,
      parse_announce_response data (sub 4 8 data) = Some (interval, peers) /\ x ∈ peers /\
      (from, build_announce_request cid (sub 4 8 data) (dc_room_id st) (dc_peer_id st) port 50) ∈ lg_sent lg
  | EvHttp k outcome _ => exists w interval peers, lg_issued lg !! k = Some w /\ w ∈ lg_works lg /\ dc_active st = true /\
      outcome = Some (interval, peers) /\ x ∈ peers
  | _ => False
  end.
Proof.
  intros L st lg. pose proof (run_pend_ok evs) as O. pose proof (run_works_ok evs L) as [_ W]. fold st lg in O, W.
  destruct ev as [room node trackers secs joiner body port| |act|k addrs|k outcome now|from data now|self join envs a b c]; cbn [disc_step fst].
  - intros X. cbn in X. by rewrite lookup_empty in X.
  - intros X. cbn in X. by rewrite lookup_empty in X.
  - done.
  - by destruct (lg_lookups lg !! k) as [[idx ?]|].
  - destruct (lg_issued lg !! k) as [w|] eqn:I; [|done]. cbn [fst]. intros X N.
    destruct (http_result_spec st (hw_slot_idx w) (hw_generation w) (hw_tracker_url w) outcome now) as [_ D].
    apply D in X as [X|(G & A & interval & peers & P & X)]; [done|]. exists w, interval, peers. split_and!; try done.
    by apply (W w); [eapply list_elem_of_lookup_2|].
  - intros X N. destruct (datagram_spec fmt st from data now) as [_ D].
    apply D in X as [X|(op & PO & K & F & interval & peers & P & X)]; [done|].
    destruct (pd_sent _ _ O _ _ PO) as (pkt & S & Q). rewrite K in Q. destruct Q as (cid & port & ->). rewrite F in S. eauto 10.
  - pose proof (engine_tick_spec st lg self join envs a b c O) as X.
    destruct (run_decentralized_tick _ _ _ _ _ _ _ _) as [[st' lg'] out]. destruct X as (_ & _ & D & _). cbn [fst]. auto.
Qed.
End Runs.

(** ** Two runs *)

Module DiscRuns.
#[local] Existing Instance canonical_iter.
Definition fmt (a : SocketAddr) : bytes := [].
Definition room : bytes := repeat 7 20.
Definition tracker : SocketAddr := mkAddr (V4 3221225985) 6969.
Definition peer : SocketAddr := mkAddr (V4 167772161) 4000.
Definition url_a : bytes := str_bytes "udp://a.example:6969/announce".
Definition url_b : bytes := str_bytes "udp://b.example:6969/announce".
Definition env (txn : bytes) (i : nat) : SlotEnv := mkSlotEnv txn true 0.
Definition tick_ev (txn : bytes) : DiscEv := EvTick None false (env txn) 0 0 0.
Definition t1 : bytes := [1; 2; 3; 4].
Definition t2 : bytes := [5; 6; 7; 8].

(** A session up to the announce, and the tracker's answer. *)
Definition asked : list DiscEv :=
  [EvStart room (str_bytes "n") [url_a] 60 false None 7878; tick_ev t1; EvResolved 0 [tracker]; tick_ev t1;
   EvDatagram tracker (be_bytes 4 0 ++ t1 ++ be_bytes 8 99) 0; tick_ev t2].
Definition answer : DiscEv := EvDatagram tracker (encode_announce_response 180 0 1 t2 [(167772161, 4000)]) 0.

Lemma discovery_authentic_witness :
  dc_discovered (disc_step fmt (disc_run fmt asked) answer).1 !! peer = Some 0 /\
  exists cid port, (tracker, build_announce_request cid t2 room (peer_id_from_room_and_node room (str_bytes "n")) port 50) ∈ lg_sent (disc_run fmt asked).2.
Proof.
  split; [by vm_compute|].
  destruct (discovery_authentic fmt asked answer peer 0) as (interval & peers & cid & port & _ & _ & S);
    [by vm_compute..|]. exists cid, port. exact S.
Defined.

(** The second session asks another tracker, then the lookup of the first session is answered. *)
Definition restarted : list DiscEv :=
  [EvStart room (str_bytes "n") [url_a] 60 false None 7878; tick_ev t1; EvStop;
   EvStart (repeat 9 20) (str_bytes "n") [url_b] 60 false None 7878; EvResolved 0 [tracker]; tick_ev t1].

(** The answer of a lookup carries no generation: when it arrives after a restart it becomes an address
    of whatever tracker has the slot then, and the requests of the new session for that tracker go to the
    host of the old one. *)
Theorem stale_resolve_misfiled :
  let st := (disc_run fmt restarted).1 in
  let lg := (disc_run fmt restarted).2 in
  (ts_url <$> dc_slots st) = [url_b] /\ (ts_addrs <$> dc_slots st) = [[tracker]] /\
  lg_lookups lg = [(0%nat, str_bytes "a.example:6969")] /\ lg_sent lg = [(tracker, build_connect_request t1)].
Proof. by vm_compute. Qed.
End DiscRuns.
