(* ===== verification/Stun.v ===== *)
(** * The public endpoint (src/nat/stun.rs and the STUN queries of src/net/engine.rs)

    The reader of STUN responses, with every slice checked as Rust checks it ([None] is a panic), and the
    queries of the engine: asking, the answers that come before the servers are resolved, the votes, the
    deadline and the cache.  The replies to the callers are part of the result.

    [stun_response_exact] shows that the reader never panics and finds the first address attribute of a
    response; [stun_queries_answered] that every query is answered exactly once, at the latest at the first
    poll after its deadline; [stun_answer_voted] that an answer comes from responses to the query's own
    requests.  [one_server_outvotes] shows that the two votes an early answer needs may be one datagram
    received twice. *)

From S2P Require Import Prelude Text Tracker.
#[local] Open Scope Z_scope.

Definition MAGIC : Z := 554869826.
Definition STUN_QUERY_DEADLINE_SLACK : Duration := from_secs 2.

Record PublicEndpoint := mkPublic { pe_ip : bytes; pe_port : Z }.
#[export] Instance PublicEndpoint_eq_dec : EqDecision PublicEndpoint.
Proof. solve_decision. Defined.

Definition build_binding_request (txn : bytes) : bytes := [0; 1; 0; 0] ++ be_bytes 4 MAGIC ++ txn.

(** [buf[a..b]], which panics out of range. *)
Definition slice (a b : nat) (l : bytes) : option bytes :=
  if ((a <=? b) && (b <=? List.length l))%nat then Some (sub a b l) else None.

(** The endpoint of an address attribute. *)
Definition stun_address (attr_type : Z) (data : bytes) : option PublicEndpoint :=
  if ((attr_type =? 32) || (attr_type =? 1)) && (8 <=? len data) && bool_decide (data !! 1%nat = Some 1) then
    let port := be_val (sub 2 4 data) in
    let ip := be_val (sub 4 8 data) in
    if attr_type =? 32 then Some (mkPublic (fmt_ipv4 (Z.lxor ip MAGIC)) (Z.lxor port (Z.shiftr MAGIC 16)))
    else Some (mkPublic (fmt_ipv4 ip) port)
  else None.

(** The attributes from [offset] on; every round advances by at least four. *)
Fixpoint stun_attrs (fuel : nat) (buf : bytes) (stop offset : nat) : option (option PublicEndpoint) :=
  match fuel with
  | O => Some None
  | S fuel =>
      if (offset + 4 <=? stop)%nat then
        t ← slice offset (offset + 2) buf;
        n ← slice (offset + 2) (offset + 4) buf;
        let attr_len := Z.to_nat (be_val n) in
        let offset := (offset + 4)%nat in
        if (stop <? offset + attr_len)%nat then Some None
        else
          data ← slice offset (offset + attr_len) buf;
          match stun_address (be_val t) data with
          | Some ep => Some (Some ep)
          | None =>
              let offset := (offset + attr_len)%nat in
              stun_attrs fuel buf stop (if (offset mod 4 =? 0)%nat then offset else offset + (4 - offset mod 4))%nat
          end
      else Some None
  end.

Definition parse_stun_response (buf : bytes) (txns : gset bytes) : option (option PublicEndpoint) :=
  if len buf <? 20 then Some None
  else
    head ← slice 0 2 buf;
    magic ← slice 4 8 buf;
    if negb (bool_decide (head = [1; 1])) || negb (be_val magic =? MAGIC) then Some None
    else
      txn ← slice 8 20 buf;
      if negb (bool_decide (txn ∈ txns)) then Some None
      else
        n ← slice 2 4 buf;
        stun_attrs (S (List.length buf)) buf (Nat.min (20 + Z.to_nat (be_val n)) (List.length buf)) 20.

Definition looks_like_stun (buf : bytes) : bool :=
  if len buf <? 20 then false
  else (Z.land (default 0 (head buf)) 192 =? 0) && (be_val (sub 4 8 buf) =? MAGIC).

(** ** Queries *)

Record PendingStunQuery := mkStunQuery {
  sq_votes : gmap bytes Z; sq_txns : gset bytes; sq_deadline : Instant; sq_early_stun : list bytes
}.
#[export] Instance eta_PendingStunQuery : Settable PendingStunQuery :=
  fun q => mkStunQuery (sq_votes q) (sq_txns q) (sq_deadline q) (sq_early_stun q).

Record ResolvedStunQuery := mkResolvedStun {
  rs_query_id : Z; rs_txns : gset bytes; rs_chosen_stun_addr : option SocketAddr; rs_timeout : Duration
}.

Record StunState := mkStun {
  st_pending : gmap Z PendingStunQuery; st_next_id : Z; st_active : gset Z; st_cached : option (Instant * PublicEndpoint);
  st_keepalive_addr : option SocketAddr
}.
#[export] Instance eta_StunState : Settable StunState :=
  fun s => mkStun (st_pending s) (st_next_id s) (st_active s) (st_cached s) (st_keepalive_addr s).
Definition new_stun : StunState := mkStun ∅ 1 ∅ None None.

(** A reply: the query, unless the cache or a full table answered at once, and what it was told. *)
Definition Reply : Type := option Z * option PublicEndpoint.

Definition start_stun_query (s : StunState) (timeout : Duration) (now : Instant) : StunState :=
  let id := st_next_id s in
  s <| st_next_id := Z.max (wrap 64 (id + 1)) 1 |> <| st_active := {[id]} ∪ st_active s |>
    <| st_pending := <[id := mkStunQuery ∅ ∅ (now + (timeout + STUN_QUERY_DEADLINE_SLACK)) []]> (st_pending s) |>.

Definition query_public_endpoint (ttl : Duration) (max_pending : Z) (s : StunState) (timeout : Duration) (force_refresh : bool) (now : Instant)
  : StunState * list Reply :=
  let s := if force_refresh then s <| st_cached := None |> else s in
  match st_cached s ≫= (fun c => if duration_since now c.1 <=? ttl then Some c.2 else None) with
  | Some ep => (s, [(None, Some ep)])
  | None =>
      if max_pending <=? Z.of_nat (size (st_pending s)) then (s, [(None, None)])
      else (start_stun_query s timeout now, [])
  end.

Definition key_of (ep : PublicEndpoint) : bytes := pe_ip ep ++ 58 :: fmt_dec (pe_port ep).

(** A response to one of the transactions; [parse_stun_response] does not panic. *)
Definition response (buf : bytes) (txns : gset bytes) : option PublicEndpoint := default None (parse_stun_response buf txns).

Definition add_vote (q : PendingStunQuery) (ep : PublicEndpoint) : PendingStunQuery * Z :=
  let c := default 0 (sq_votes q !! key_of ep) + 1 in
  (q <| sq_votes := <[key_of ep := c]> (sq_votes q) |>, c).

(** The loop over the queries, in the order of the table. *)
Fixpoint stun_scan (buf : bytes) (l : list (Z * PendingStunQuery)) (pending : gmap Z PendingStunQuery)
  : gmap Z PendingStunQuery * bool * option (Z * PublicEndpoint) :=
  match l with
  | [] => (pending, false, None)
  | (id, q) :: l =>
      if bool_decide (sq_txns q = ∅) then
        if len (sq_early_stun q) <? 32 then
          let '(pending, _, done) := stun_scan buf l (<[id := q <| sq_early_stun := sq_early_stun q ++ [buf] |>]> pending) in (pending, true, done)
        else stun_scan buf l pending
      else
        match response buf (sq_txns q) with
        | None => stun_scan buf l pending
        | Some ep =>
            let '(q, c) := add_vote q ep in
            (<[id := q]> pending, true, if 2 <=? c then Some (id, ep) else None)
        end
  end.

(** A query is answered with [ep], which is cached. *)
Definition complete_query (s : StunState) (id : Z) (ep : PublicEndpoint) (now : Instant) : StunState * list Reply :=
  (s <| st_active := st_active s ∖ {[id]} |> <| st_cached := Some (now, ep) |> <| st_pending := delete id (st_pending s) |>,
   match st_pending s !! id with Some _ => [(Some id, Some ep)] | None => [] end).

Fixpoint count_early (early : list bytes) (q : PendingStunQuery) : PendingStunQuery * option PublicEndpoint :=
  match early with
  | [] => (q, None)
  | pkt :: early =>
      match response pkt (sq_txns q) with
      | None => count_early early q
      | Some ep => let '(q, c) := add_vote q ep in if 2 <=? c then (q, Some ep) else count_early early q
      end
  end.

Definition handle_stun_resolve_result (s : StunState) (r : ResolvedStunQuery) (now : Instant) : StunState * list Reply :=
  let id := rs_query_id r in
  if negb (bool_decide (id ∈ st_active s)) then (s, [])
  else if bool_decide (rs_txns r = ∅) then
    (s <| st_keepalive_addr := None |> <| st_active := st_active s ∖ {[id]} |> <| st_pending := delete id (st_pending s) |>,
     match st_pending s !! id with Some _ => [(Some id, None)] | None => [] end)
  else
    let s := s <| st_keepalive_addr := rs_chosen_stun_addr r |> in
    match st_pending s !! id with
    | None => (s <| st_active := st_active s ∖ {[id]} |>, [])
    | Some p =>
        let p := p <| sq_txns := rs_txns r |> <| sq_deadline := now + rs_timeout r |> in
        let '(p, found) := count_early (sq_early_stun p) (p <| sq_early_stun := [] |>) in
        let s := s <| st_pending := <[id := p]> (st_pending s) |> in
        match found with Some ep => complete_query s id ep now | None => (s, []) end
    end.

Section Stun.
Context `{HashIter}.

Definition handle_stun_datagram (s : StunState) (buf : bytes) (now : Instant) : StunState * bool * list Reply :=
  if bool_decide (st_pending s = ∅) || negb (looks_like_stun buf) then (s, false, [])
  else
    let '(pending, matched, done) := stun_scan buf (hm_iter (st_pending s)) (st_pending s) in
    let s := s <| st_pending := pending |> in
    match done with
    | Some (id, ep) => let '(s, replies) := complete_query s id ep now in (s, matched, replies)
    | None => (s, matched, [])
    end.

(** [max_by_key], which returns the last of several greatest. *)
Definition best_vote (votes : gmap bytes Z) : option (bytes * Z) :=
  foldl (fun best x => match best with Some b => if b.2 <=? x.2 then Some x else best | None => Some x end) None (hm_iter votes).

Definition query_result (q : PendingStunQuery) : option PublicEndpoint :=
  '(best, _) ← best_vote (sq_votes q);
  '(ip, port) ← split_once 58 best;
  port ← parse_uint 65535 port;
  Some (mkPublic ip port).

Definition expire_query (now : Instant) (s : StunState) (id : Z) : StunState * list Reply :=
  let s := s <| st_active := st_active s ∖ {[id]} |> in
  match st_pending s !! id with
  | Some q =>
      let result := query_result q in
      (s <| st_pending := delete id (st_pending s) |> <| st_cached := match result with Some ep => Some (now, ep) | None => st_cached s end |>,
       [(Some id, result)])
  | None => (s, [])
  end.

Fixpoint expire_all (now : Instant) (ids : list Z) (s : StunState) : StunState * list Reply :=
  match ids with
  | [] => (s, [])
  | id :: ids => let '(s, a) := expire_query now s id in let '(s, b) := expire_all now ids s in (s, a ++ b)
  end.

Definition poll_stun_query (s : StunState) (now : Instant) : StunState * list Reply :=
  expire_all now (filter (fun x => sq_deadline x.2 <= now) (hm_iter (st_pending s))).*1 s.
End Stun.

Definition cached_public_socket_addr (s : StunState) : option SocketAddr :=
  '(_, ep) ← st_cached s; ip ← parse_ipv4 (pe_ip ep); Some (mkAddr (V4 ip) (pe_port ep)).

(** ** Runs *)

Inductive StunEv :=
| EvQuery (timeout : Duration) (force_refresh : bool) (now : Instant)
| EvResolve (r : ResolvedStunQuery) (now : Instant)
| EvStun (buf : bytes) (now : Instant)
| EvPoll (now : Instant).

(** The queries started, those whose lookup is still under way, the replies, and the datagrams received. *)
Record StunLog := mkStunLog { sl_asked : list Z; sl_lookups : list Z; sl_replies : list Reply; sl_received : list bytes }.

Definition stun_step `{HashIter} (ttl : Duration) (max_pending : Z) (x : StunState * StunLog) (ev : StunEv) : StunState * StunLog :=
  let '(s, lg) := x in
  match ev with
  | EvQuery timeout force now =>
      let '(s', replies) := query_public_endpoint ttl max_pending s timeout force now in
      let started := if bool_decide (replies = []) then [st_next_id s] else [] in
      (s', mkStunLog (sl_asked lg ++ started) (sl_lookups lg ++ started) (sl_replies lg ++ replies) (sl_received lg))
  | EvResolve r now =>
      if bool_decide (rs_query_id r ∈ sl_lookups lg) then
        let '(s, replies) := handle_stun_resolve_result s r now in
        (s, mkStunLog (sl_asked lg) (filter (fun id => id <> rs_query_id r) (sl_lookups lg)) (sl_replies lg ++ replies) (sl_received lg))
      else (s, lg)
  | EvStun buf now =>
      let '(s, _, replies) := handle_stun_datagram s buf now in
      (s, mkStunLog (sl_asked lg) (sl_lookups lg) (sl_replies lg ++ replies) (sl_received lg ++ [buf]))
  | EvPoll now =>
      let '(s, replies) := poll_stun_query s now in
      (s, mkStunLog (sl_asked lg) (sl_lookups lg) (sl_replies lg ++ replies) (sl_received lg))
  end.
Definition stun_run `{HashIter} (ttl : Duration) (max_pending : Z) (evs : list StunEv) : StunState * StunLog :=
  foldl (stun_step ttl max_pending) (new_stun, mkStunLog [] [] [] []) evs.

(** ** The reader *)

Lemma slice_some a b l : (a <= b)%nat -> (b <= List.length l)%nat -> slice a b l = Some (sub a b l).
Proof. intros A B. unfold slice. by rewrite (proj2 (Nat.leb_le _ _) A), (proj2 (Nat.leb_le _ _) B). Qed.

Lemma stun_attrs_total fuel buf stop : (stop <= List.length buf)%nat -> forall offset, is_Some (stun_attrs fuel buf stop offset).
Proof.
  intros S. induction fuel as [|fuel IH]; intros offset; cbn [stun_attrs]; [done|]. destruct (Nat.leb_spec (offset + 4) stop) as [L|L]; [|done].
  rewrite !slice_some by lia. cbn [mbind option_bind]. set (n := Z.to_nat _). destruct (Nat.ltb_spec stop (offset + 4 + n)) as [M|M]; [done|].
  rewrite slice_some by lia. cbn [mbind option_bind]. case_match; [done|apply IH].
Qed.

Lemma parse_stun_total buf txns : is_Some (parse_stun_response buf txns).
Proof.
  unfold parse_stun_response. destruct (Z.ltb_spec (len buf) 20) as [L|L]; [done|]. unfold len in L.
  rewrite !slice_some by lia. cbn [mbind option_bind]. destruct (_ || _); [done|]. destruct (negb _); [done|]. apply stun_attrs_total. lia.
Qed.

(** The padding after [n] bytes. *)
Definition pad (n : nat) : nat := Nat.modulo (4 - n mod 4) 4.

(** Attributes as a server writes them, padded to four bytes. *)
Definition encode_attr (a : Z * bytes) : bytes :=
  be_bytes 2 a.1 ++ be_bytes 2 (len a.2) ++ a.2 ++ repeat 0 (pad (List.length a.2)).
Definition encode_response (txn : bytes) (attrs : list (Z * bytes)) : bytes :=
  [1; 1] ++ be_bytes 2 (len (mbind encode_attr attrs)) ++ be_bytes 4 MAGIC ++ txn ++ mbind encode_attr attrs.

(** The first attribute that has an IPv4 address. *)
Fixpoint first_address (attrs : list (Z * bytes)) : option PublicEndpoint :=
  match attrs with
  | [] => None
  | a :: attrs => match stun_address a.1 a.2 with Some ep => Some ep | None => first_address attrs end
  end.

Lemma sub_app_skip pre l a b : sub (List.length pre + a) (List.length pre + b) (pre ++ l) = sub a b l.
Proof. unfold sub. rewrite drop_app_add. f_equal. lia. Qed.

Lemma sub_app_skip0 pre l b : sub (List.length pre) (List.length pre + b) (pre ++ l) = sub 0 b l.
Proof. pose proof (sub_app_skip pre l 0 b) as E. rewrite Nat.add_0_r in E. exact E. Qed.

Definition attr_ok (a : Z * bytes) : Prop := in_u 16 a.1 /\ in_u 16 (len a.2).

Lemma mod4 a c : (c < 4)%nat -> ((4 * a + c) mod 4 = c)%nat.
Proof. intros C. symmetry. apply (Nat.mod_unique _ 4 a c); lia. Qed.

Lemma pad_spec o n : (o mod 4 = 0)%nat -> ((o + n + pad n) mod 4 = 0)%nat /\
  ((if (o + n) mod 4 =? 0 then o + n else o + n + (4 - (o + n) mod 4)) = o + n + pad n)%nat.
Proof.
  unfold pad. intros O. pose proof (Nat.div_mod_eq o 4) as D. pose proof (Nat.div_mod_eq n 4) as E. pose proof (Nat.mod_upper_bound n 4 ltac:(lia)) as B.
  rewrite O in D. set (k := Nat.div o 4) in *. set (q := Nat.div n 4) in *. set (r := Nat.modulo n 4) in *.
  replace (o + n)%nat with (4 * (k + q) + r)%nat by lia. rewrite mod4 by lia.
  destruct r as [|[|[|[|r]]]]; [| | | |lia]; cbn [Nat.eqb Nat.sub]; (split; [|cbn; lia]).
  1: replace (4 * (k + q) + 0 + 4 mod 4)%nat with (4 * (k + q) + 0)%nat by (cbn; lia); apply mod4; lia.
  all: match goal with |- ((4 * ?x + ?a + ?b) mod 4 = 0)%nat => replace (4 * x + a + b)%nat with (4 * (x + 1) + 0)%nat by (cbn; lia) end; apply mod4; lia.
Qed.

Lemma encode_attr_len a : List.length (encode_attr a) = (4 + List.length a.2 + pad (List.length a.2))%nat.
Proof. unfold encode_attr. rewrite !length_app, !length_be_bytes, repeat_length. lia. Qed.

Lemma sub_here l r n : List.length l = n -> sub 0 n (l ++ r) = l.
Proof. intros <-. unfold sub. rewrite Nat.sub_0_r. apply take_app_length. Qed.

Lemma attr_fields a rest : attr_ok a ->
  be_val (sub 0 2 (encode_attr a ++ rest)) = a.1 /\ be_val (sub 2 4 (encode_attr a ++ rest)) = len a.2 /\
  sub 4 (4 + List.length a.2) (encode_attr a ++ rest) = a.2.
Proof.
  intros [T L]. unfold encode_attr. rewrite <- !app_assoc. split_and!.
  - rewrite sub_here by apply length_be_bytes. apply be_val_small. exact T.
  - change 2%nat with (List.length (be_bytes 2 a.1) + 0)%nat at 1. change 4%nat with (List.length (be_bytes 2 a.1) + 2)%nat at 1.
    rewrite sub_app_skip, sub_here by apply length_be_bytes. apply be_val_small. exact L.
  - rewrite app_assoc. replace 4%nat with (List.length (be_bytes 2 a.1 ++ be_bytes 2 (len a.2)) + 0)%nat at 1 by (rewrite length_app, !length_be_bytes; lia).
    replace (4 + List.length a.2)%nat with (List.length (be_bytes 2 a.1 ++ be_bytes 2 (len a.2)) + List.length a.2)%nat by (rewrite length_app, !length_be_bytes; lia).
    by rewrite sub_app_skip, sub_here.
Qed.

Lemma stun_attrs_encode attrs : Forall attr_ok attrs -> forall fuel pre, (List.length (mbind encode_attr attrs) < fuel)%nat -> (List.length pre mod 4 = 0)%nat ->
  stun_attrs fuel (pre ++ mbind encode_attr attrs) (List.length (pre ++ mbind encode_attr attrs)) (List.length pre) = Some (first_address attrs).
Proof.
  induction 1 as [|a attrs A F IH]; intros fuel pre L P; (destruct fuel as [|fuel]; [lia|]); cbn [stun_attrs first_address mbind list_bind].
  { cbn [app]. rewrite app_nil_r. by rewrite (proj2 (Nat.leb_gt _ _)) by lia. }
  change (list_bind _ _ encode_attr attrs) with (mbind encode_attr attrs) in *. cbn [mbind list_bind] in L.
  change (list_bind _ _ encode_attr attrs) with (mbind encode_attr attrs) in L. pose proof (encode_attr_len a) as EL.
  rewrite length_app in L. rewrite !length_app. rewrite (proj2 (Nat.leb_le _ _)) by lia.
  rewrite !slice_some by (rewrite ?length_app; lia). cbn [mbind option_bind].
  destruct (attr_fields a (mbind encode_attr attrs) A) as (F1 & F2 & F3).
  rewrite sub_app_skip0, sub_app_skip, F1, F2.
  replace (Z.to_nat (len a.2)) with (List.length a.2) by (unfold len; lia).
  rewrite (proj2 (Nat.ltb_ge _ _)) by lia. rewrite slice_some by (rewrite ?length_app; lia). cbn [mbind option_bind].
  replace (List.length pre + 4 + List.length a.2)%nat with (List.length pre + (4 + List.length a.2))%nat by lia.
  rewrite sub_app_skip, F3. destruct (stun_address a.1 a.2); [done|].
  replace (List.length pre + (4 + List.length a.2))%nat with (List.length pre + 4 + List.length a.2)%nat by lia.
  destruct (pad_spec (List.length pre + 4) (List.length a.2)) as [P1 P2].
  { replace (List.length pre) with (4 * Nat.div (List.length pre) 4)%nat by (pose proof (Nat.div_mod_eq (List.length pre) 4); lia).
    replace (4 * Nat.div (List.length pre) 4 + 4)%nat with (4 * (Nat.div (List.length pre) 4 + 1) + 0)%nat by lia. apply mod4. lia. }
  rewrite P2. specialize (IH fuel (pre ++ encode_attr a)). rewrite !length_app, EL in IH. rewrite <- app_assoc in IH.
  replace (List.length pre + 4 + List.length a.2 + pad (List.length a.2))%nat with (List.length pre + (4 + List.length a.2 + pad (List.length a.2)))%nat by lia.
  rewrite EL, Nat.add_assoc. apply IH; [lia|]. by rewrite !Nat.add_assoc.
Qed.

Lemma parse_encode txn attrs txns : List.length txn = 12%nat -> Forall attr_ok attrs -> in_u 16 (len (mbind encode_attr attrs)) ->
  parse_stun_response (encode_response txn attrs) txns = Some (if bool_decide (txn ∈ txns) then first_address attrs else None).
Proof.
  intros T A L. unfold parse_stun_response, encode_response. set (body := mbind encode_attr attrs) in *.
  set (buf := [1; 1] ++ _). assert (LB : List.length buf = (20 + List.length body)%nat)
    by (unfold buf; rewrite !length_app, !length_be_bytes, T; cbn; lia).
  rewrite (proj2 (Z.ltb_ge _ _)) by (unfold len; lia). rewrite !slice_some by lia. cbn [mbind option_bind].
  assert (S1 : sub 0 2 buf = [1; 1]) by done.
  assert (S2 : sub 2 4 buf = be_bytes 2 (len body)) by (unfold buf; etrans; [apply (sub_app_skip [1; 1] _ 0 2)|apply sub_here, length_be_bytes]).
  assert (S3 : sub 4 8 buf = be_bytes 4 MAGIC) 
    by (unfold buf; rewrite app_assoc; etrans; [apply (sub_app_skip ([1; 1] ++ be_bytes 2 (len body)) _ 0 4)|apply sub_here, length_be_bytes]).
  assert (S4 : sub 8 20 buf = txn).
  { unfold buf. rewrite !app_assoc, <- app_assoc.
    etrans; [apply (sub_app_skip (([1; 1] ++ be_bytes 2 (len body)) ++ be_bytes 4 MAGIC) _ 0 12)|by apply sub_here]. }
  rewrite S1, S2, S3, S4. rewrite bool_decide_true by done. rewrite be_val_small by done. cbn [negb orb].
  case_bool_decide; [cbn [negb]|done]. rewrite be_val_small by exact L.
  replace (Nat.min (20 + Z.to_nat (len body)) (List.length buf)) with (List.length buf) by (unfold len; lia).
  pose proof (stun_attrs_encode attrs A (S (List.length buf)) (([1; 1] ++ be_bytes 2 (len body)) ++ be_bytes 4 MAGIC ++ txn)) as E.
  fold body in E. rewrite <- !app_assoc in E. fold buf in E. rewrite !length_app, !length_be_bytes, T in E. apply E; [lia|done].
Qed.

(** Reading a STUN response never panics, whatever the bytes; and of a response as a server writes it,
    to one of the given transactions, it returns exactly the first IPv4 address attribute, wherever it
    stands among other attributes and their padding. *)
Theorem stun_response_exact buf txn attrs txns : List.length txn = 12%nat -> Forall attr_ok attrs -> in_u 16 (len (mbind encode_attr attrs)) ->
  is_Some (parse_stun_response buf txns) /\
  parse_stun_response (encode_response txn attrs) txns = Some (if bool_decide (txn ∈ txns) then first_address attrs else None).
Proof. intros T A L. split; [apply parse_stun_total|by apply parse_encode]. Qed.

(** ** Queries *)

(** Nothing is both pending and forgotten. *)
Definition stun_ok (s : StunState) : Prop := st_active s = dom (st_pending s).

Lemma stun_scan_dom buf l : forall pending, (forall id q, (id, q) ∈ l -> id ∈ dom pending) -> dom (stun_scan buf l pending).1.1 = dom pending.
Proof.
  induction l as [|[id q] l IH]; intros pending D; cbn [stun_scan]; [done|].
  assert (I : forall q', dom (<[id := q']> pending) = dom pending) by (intros q'; rewrite dom_insert_L; specialize (D id q); set_solver).
  assert (D' : forall id q, (id, q) ∈ l -> id ∈ dom pending) by (intros i q' X; apply (D i q'); set_solver).
  case_bool_decide.
  - case_match; [|by apply IH]. set (p := <[id := _]> pending). specialize (IH p).
    destruct (stun_scan buf l p) as [[p' ?] ?]. cbn [fst] in *. rewrite IH; [apply I|]. intros i q' X. unfold p. rewrite I. by apply (D' i q').
  - destruct (response buf (sq_txns q)); [|by apply IH]. unfold add_vote. cbn. apply I.
Qed.

Lemma complete_ok s id ep now : stun_ok s -> stun_ok (complete_query s id ep now).1.
Proof. unfold stun_ok, complete_query. cbn. intros ->. by rewrite dom_delete_L. Qed.

Section Queries.
Context `{HashIter}.

Lemma expire_all_ok now ids : forall s, stun_ok s -> stun_ok (expire_all now ids s).1.
Proof.
  induction ids as [|id ids IH]; intros s O; cbn [expire_all]; [done|].
  assert (O1 : stun_ok (expire_query now s id).1).
  { unfold expire_query, stun_ok in *. cbn. destruct (st_pending s !! id) eqn:E; cbn; rewrite O; [by rewrite dom_delete_L|].
    apply not_elem_of_dom in E. set_solver. }
  destruct (expire_query now s id) as [s1 a]. specialize (IH s1 O1). by destruct (expire_all now ids s1).
Qed.

(** The reply ids of an operation. *)
Definition answered (l : list Reply) : list Z := omap fst l.
Lemma answered_app l k : answered (l ++ k) = answered l ++ answered k.
Proof. apply omap_app. Qed.

(** What an operation answers is no longer pending, and what it does not answer stays. *)
Definition moves (s s' : StunState) (replies : list Reply) : Prop :=
  NoDup (answered replies) /\ list_to_set (answered replies) ⊆ dom (st_pending s) /\
  dom (st_pending s') = dom (st_pending s) ∖ list_to_set (answered replies).

Lemma moves_none s s' : dom (st_pending s') = dom (st_pending s) -> moves s s' [].
Proof. intros E. split_and!; [constructor|set_solver|set_solver]. Qed.

Lemma moves_one s s' id r : id ∈ dom (st_pending s) -> dom (st_pending s') = dom (st_pending s) ∖ {[id]} -> moves s s' [(Some id, r)].
Proof. intros I E. split_and!; [apply NoDup_singleton|set_solver|cbn; set_solver]. Qed.

Lemma expire_all_moves now ids : forall s, let '(s', replies) := expire_all now ids s in moves s s' replies /\
  forall id q, st_pending s' !! id = Some q <-> st_pending s !! id = Some q /\ id ∉ ids.
Proof.
  induction ids as [|id ids IH]; intros s; cbn [expire_all]; [split; [by apply moves_none|set_solver]|].
  unfold expire_query. cbn [st_pending]. destruct (st_pending s !! id) as [q|] eqn:E; cbn in E |- *; rewrite E.
  - match goal with |- context [expire_all now ids ?x] => set (s1 := x); specialize (IH s1); destruct (expire_all now ids s1) as [s2 b] end.
    destruct IH as [(N & S & D) L]. assert (D1 : dom (st_pending s1) = dom (st_pending s) ∖ {[id]}) by (cbn; by rewrite dom_delete_L).
    assert (I : id ∈ dom (st_pending s)) by by apply elem_of_dom_2 in E. split.
    + split_and!; cbn [answered omap list_omap app fst].
      * change (omap fst b) with (answered b). constructor; [|done]. intros X. assert (X' : id ∈ dom (st_pending s1)) by set_solver. rewrite D1 in X'. set_solver.
      * change (list_omap _ _ fst b) with (answered b) in *. rewrite D1 in S. cbn. set_solver.
      * rewrite D, D1. cbn. set_solver.
    + intros i q'. rewrite L. cbn. rewrite lookup_delete_Some. set_solver.
  - match goal with |- context [expire_all now ids ?x] => set (s1 := x); specialize (IH s1); destruct (expire_all now ids s1) as [s2 b] end.
    destruct IH as [M L]. split; [exact M|]. intros i q'. rewrite L. cbn. split; [|set_solver].
    intros [X N]. split; [done|]. intros [->|I]%elem_of_cons; [congruence|done].
Qed.

Lemma poll_moves s now : let '(s', replies) := poll_stun_query s now in moves s s' replies /\ forall id q, st_pending s' !! id = Some q -> now < sq_deadline q.
Proof.
  unfold poll_stun_query. set (ids := (filter _ _).*1). pose proof (expire_all_moves now ids s) as X. destruct (expire_all now ids s) as [s' replies].
  destruct X as [M L]. split; [done|]. intros id q [X N]%L. destruct (Z.le_gt_cases (sq_deadline q) now) as [E|E]; [|done].
  destruct N. unfold ids. apply list_elem_of_fmap. exists (id, q). split; [done|]. apply list_elem_of_filter. split; [done|by apply hm_iter_elem].
Qed.

Lemma datagram_moves s buf now : let '(s', _, replies) := handle_stun_datagram s buf now in moves s s' replies.
Proof.
  unfold handle_stun_datagram. destruct (_ || _); [by apply moves_none|].
  pose proof (stun_scan_dom buf (hm_iter (st_pending s)) (st_pending s)) as D.
  destruct (stun_scan buf _ _) as [[pending matched] done] eqn:E. cbn [fst] in D.
  assert (D' : dom pending = dom (st_pending s)) by (apply D; intros id q X; apply hm_iter_elem in X; by apply elem_of_dom_2 in X).
  destruct done as [[id ep]|]; [|by apply moves_none]. unfold complete_query. cbn.
  destruct (pending !! id) eqn:P.
  - apply elem_of_dom_2 in P. rewrite D' in P. apply moves_one; [done|]. cbn. by rewrite dom_delete_L, D'.
  - apply not_elem_of_dom in P. apply moves_none. cbn. rewrite dom_delete_L, D'. rewrite D' in P. set_solver.
Qed.

Lemma resolve_moves s r now : let '(s', replies) := handle_stun_resolve_result s r now in moves s s' replies.
Proof.
  unfold handle_stun_resolve_result. case_bool_decide as A; cbn [negb]; [|by apply moves_none].
  case_bool_decide as B; [destruct (st_pending s !! rs_query_id r) eqn:E|cbn [st_pending]; destruct (st_pending s !! rs_query_id r) as [p|] eqn:E; cbn in E |- *; rewrite ?E].
  - apply elem_of_dom_2 in E. apply moves_one; [done|]. cbn. by rewrite dom_delete_L.
  - apply not_elem_of_dom in E. apply moves_none. cbn. rewrite dom_delete_L. set_solver.
  - destruct (count_early _ _) as [q found]. assert (I : rs_query_id r ∈ dom (st_pending s)) by by apply elem_of_dom_2 in E.
    destruct found as [ep|]; [|apply moves_none; cbn; rewrite dom_insert_L; set_solver].
    unfold complete_query. cbn. rewrite lookup_insert_eq. apply moves_one; [done|]. cbn. rewrite dom_delete_L, dom_insert_L. set_solver.
  - by apply moves_none.
Qed.
End Queries.

(** ** Every query is answered once *)

Definition books (s : StunState) (lg : StunLog) : Prop :=
  NoDup (sl_asked lg) /\ NoDup (answered (sl_replies lg)) /\
  (forall id, id ∈ sl_asked lg <-> id ∈ answered (sl_replies lg) \/ id ∈ dom (st_pending s)) /\
  forall id, id ∈ answered (sl_replies lg) -> id ∉ dom (st_pending s).

Lemma books_moves s s' lg lookups replies received : books s lg -> moves s s' replies ->
  books s' (mkStunLog (sl_asked lg) lookups (sl_replies lg ++ replies) received).
Proof.
  intros (N & A & C & D) (N' & S & E). unfold books. cbn [sl_asked sl_replies]. rewrite answered_app, E. split_and!.
  - done.
  - apply NoDup_app. split_and!; [done| |done]. intros id X Y. apply (D id X). set_solver.
  - intros id. rewrite C, elem_of_app, elem_of_difference, elem_of_list_to_set. destruct (decide (id ∈ answered replies)); set_solver.
  - intros id [X|X]%elem_of_app; [specialize (D id X); set_solver|set_solver].
Qed.

Section Answered.
Context `{HashIter} (ttl : Duration) (max_pending : Z).

Lemma query_cases s timeout force now : let '(s', replies) := query_public_endpoint ttl max_pending s timeout force now in
  answered replies = [] /\
  (if bool_decide (replies = []) then st_pending s' = <[st_next_id s := mkStunQuery ∅ ∅ (now + (timeout + STUN_QUERY_DEADLINE_SLACK)) []]> (st_pending s) /\
     st_next_id s' = Z.max (wrap 64 (st_next_id s + 1)) 1
   else st_pending s' = st_pending s /\ st_next_id s' = st_next_id s).
Proof.
  unfold query_public_endpoint. set (s1 := if force then _ else s). assert (P : st_pending s1 = st_pending s /\ st_next_id s1 = st_next_id s) by (subst s1; by destruct force).
  destruct P as [P1 P2]. destruct (st_cached s1 ≫= _); [by rewrite bool_decide_false|]. destruct (max_pending <=? _); [by rewrite bool_decide_false|].
  rewrite bool_decide_true by done. unfold start_stun_query. cbn. by rewrite P1, P2.
Qed.

Lemma expire_next now s id : st_next_id (expire_query now s id).1 = st_next_id s.
Proof. unfold expire_query. cbn. by destruct (st_pending s !! id). Qed.

Lemma other_next s ev lg : (forall a b c, ev <> EvQuery a b c) -> st_next_id (stun_step ttl max_pending (s, lg) ev).1 = st_next_id s.
Proof.
  destruct ev as [t f n|r now|buf now|now]; intros Q; [by destruct (Q t f n)| | |]; cbn [stun_step].
  - case_bool_decide; [|done]. unfold handle_stun_resolve_result. destruct (negb _); [done|]. destruct (bool_decide (rs_txns r = ∅)); [done|].
    cbn. destruct (st_pending s !! rs_query_id r); [|done]. destruct (count_early _ _) as [q [ep|]]; done.
  - unfold handle_stun_datagram. destruct (_ || _); [done|]. destruct (stun_scan _ _ _) as [[p m] [[id ep]|]]; done.
  - unfold poll_stun_query. generalize (filter (fun x : Z * PendingStunQuery => sq_deadline x.2 <= now) (hm_iter (st_pending s))).*1 as ids.
    intros ids. revert s. induction ids as [|id ids IH]; intros s; cbn [expire_all]; [done|].
    pose proof (expire_next now s id) as E. destruct (expire_query now s id) as [s1 a]. specialize (IH s1).
    destruct (expire_all now ids s1). cbn in *. congruence.
Qed.

(** The books and the ids after [n] steps. *)
Definition stun_inv (n : nat) (x : StunState * StunLog) : Prop :=
  books x.1 x.2 /\ 1 <= st_next_id x.1 <= Z.of_nat n + 1 /\ forall id, id ∈ sl_asked x.2 -> id < st_next_id x.1.

Lemma step_inv n x ev : Z.of_nat n + 2 < 2 ^ 64 -> stun_inv n x -> stun_inv (S n) (stun_step ttl max_pending x ev).
Proof.
  destruct x as [s lg]. intros B (K & I & L). cbn [fst snd] in *. destruct ev as [timeout force now|r now|buf now|now].
  - cbn [stun_step]. pose proof (query_cases s timeout force now) as Q. destruct (query_public_endpoint _ _ _ _ _ _) as [s' replies]. destruct Q as [R Q].
    case_bool_decide as E; destruct Q as [Q1 Q2]; unfold stun_inv; cbn [fst snd sl_asked].
    + rewrite wrap_small in Q2 by (unfold in_u; lia). split_and!; [|rewrite Q2; lia..|].
      * destruct K as (N & A & C & D). assert (F : st_next_id s ∉ sl_asked lg) by (intros X; apply L in X; lia).
        unfold books. cbn [sl_asked sl_replies]. rewrite answered_app, R, app_nil_r, Q1, dom_insert_L. split_and!.
        -- apply NoDup_app. split_and!; [done|set_solver|apply NoDup_singleton].
        -- done.
        -- intros id. rewrite elem_of_app, C. set_solver.
        -- intros id X. specialize (D id X). assert (id ∈ sl_asked lg) by (apply C; by left). set_solver.
      * intros id [X|X%list_elem_of_singleton]%elem_of_app; [specialize (L id X); lia|lia].
    + rewrite Q2. split_and!; [|lia..|intros id X; rewrite app_nil_r in X; by apply L].
      destruct K as (N & A & C & D). unfold books. cbn [sl_asked sl_replies]. by rewrite app_nil_r, answered_app, R, app_nil_r, Q1.
  - pose proof (other_next s (EvResolve r now) lg ltac:(done)) as NX. cbn [stun_step] in *. case_bool_decide; [|split_and!; [done|cbn; lia..|done]].
    pose proof (resolve_moves s r now) as M. destruct (handle_stun_resolve_result s r now) as [s' replies]. unfold stun_inv. cbn [fst snd sl_asked] in *. rewrite NX.
    split_and!; [by eapply books_moves|lia..|done].
  - pose proof (other_next s (EvStun buf now) lg ltac:(done)) as NX. cbn [stun_step] in *.
    pose proof (datagram_moves s buf now) as M. destruct (handle_stun_datagram s buf now) as [[s' m] replies]. unfold stun_inv. cbn [fst snd sl_asked] in *. rewrite NX.
    split_and!; [by eapply books_moves|lia..|done].
  - pose proof (other_next s (EvPoll now) lg ltac:(done)) as NX. cbn [stun_step] in *.
    pose proof (poll_moves s now) as M. destruct (poll_stun_query s now) as [s' replies]. unfold stun_inv. cbn [fst snd sl_asked] in *. rewrite NX.
    split_and!; [eapply books_moves; [done|apply M]|lia..|done].
Qed.

Lemma run_inv evs : len evs + 2 < 2 ^ 64 -> stun_inv (List.length evs) (stun_run ttl max_pending evs).
Proof.
  induction evs as [|ev evs IH] using rev_ind; intros L.
  { split_and!; cbn; [|lia..|set_solver]. split_and!; [constructor|constructor|set_solver|set_solver]. }
  unfold stun_run. rewrite foldl_app, length_app, Nat.add_1_r. cbn [foldl]. rewrite len_app in L. change (len [ev]) with 1 in L.
  apply step_inv; [unfold len in L; lia|apply IH; lia].
Qed.

(** Every query for the public endpoint is answered exactly once: in every run the queries started are
    the answered ones, each with one reply, and the pending ones; and after a poll no query is pending
    whose deadline has passed. *)
Theorem stun_queries_answered evs now : len evs + 3 < 2 ^ 64 ->
  let s := (stun_run ttl max_pending evs).1 in
  let lg := (stun_run ttl max_pending evs).2 in
  NoDup (sl_asked lg) /\ sl_asked lg ≡ₚ answered (sl_replies lg) ++ elements (dom (st_pending s)) /\
  forall id q, st_pending (stun_run ttl max_pending (evs ++ [EvPoll now])).1 !! id = Some q -> now < sq_deadline q.
Proof.
  intros L s lg. destruct (run_inv evs ltac:(lia)) as [(N & A & C & D) _]. fold s lg in N, A, C, D. split_and!; [done| |].
  - apply NoDup_Permutation; [done| |].
    + apply NoDup_app. split_and!; [done|intros id X; specialize (D id X); set_solver|apply NoDup_elements].
    + intros id. rewrite C, elem_of_app, elem_of_elements. done.
  - unfold stun_run. rewrite foldl_app. cbn [foldl]. fold (stun_run ttl max_pending evs). subst s lg. destruct (stun_run ttl max_pending evs) as [s lg].
    cbn [stun_step]. pose proof (poll_moves s now) as M. destruct (poll_stun_query s now) as [s' replies]. apply M.
Qed.
End Answered.

(** ** Where answers come from *)

Lemma lxor_range n a b : 0 <= n -> 0 <= a < 2 ^ n -> 0 <= b < 2 ^ n -> 0 <= Z.lxor a b < 2 ^ n.
Proof.
  intros N A B. assert (P : 0 <= Z.lxor a b) by (apply Z.lxor_nonneg; lia). split; [done|].
  destruct (Z.eq_dec (Z.lxor a b) 0) as [->|Z0]; [lia|]. apply Z.log2_lt_pow2; [lia|].
  assert (L : forall x, 0 <= x < 2 ^ n -> Z.log2 x < n \/ x = 0 /\ Z.log2 x = 0).
  { intros x X. destruct (Z.eq_dec x 0) as [->|]; [by right|left]. apply Z.log2_lt_pow2; lia. }
  pose proof (Z.log2_lxor a b ltac:(lia) ltac:(lia)) as M. destruct (L a A) as [LA|[-> LA]], (L b B) as [LB|[-> LB]]; try lia.
  - rewrite Z.lxor_0_r. lia.
  - rewrite Z.lxor_0_l. lia.
  - by rewrite Z.lxor_0_l in Z0.
Qed.

Lemma fmt_ipv4_no_colon v : Forall (fun b => b <> 58) (fmt_ipv4 v).
Proof.
  unfold fmt_ipv4. pose proof (be_bytes_ok 4 v) as O. destruct (be_bytes 4 v) as [|a [|b [|c [|d [|]]]]]; try (by constructor).
  rewrite !Forall_cons in O. unfold byte_ok in O. unfold fmt_octets.
  assert (D : forall n, 0 <= n -> Forall (fun b => b <> 58) (fmt_dec n)) by (intros n N; apply fmt_dec_sep; lia).
  do 3 (apply Forall_app; split; [apply D; lia|apply Forall_cons; split; [lia|]]). apply D. lia.
Qed.

Lemma sub_bytes_ok a b l : Forall byte_ok l -> Forall byte_ok (sub a b l).
Proof. intros F. unfold sub. by apply Forall_take, Forall_drop. Qed.

Lemma be_val_sub a b l : Forall byte_ok l -> 0 <= be_val (sub a b l) < 2 ^ (8 * Z.of_nat (b - a)).
Proof.
  intros F. unfold be_val. pose proof (le_val_range (rev (sub a b l)) (Forall_rev (sub_bytes_ok a b l F))) as R.
  split; [lia|]. eapply Z.lt_le_trans; [apply R|]. apply Z.pow_le_mono_r; [lia|]. unfold len, sub. rewrite length_rev, length_take. lia.
Qed.

Lemma stun_address_ok t data ep : Forall byte_ok data -> stun_address t data = Some ep -> Forall (fun b => b <> 58) (pe_ip ep) /\ 0 <= pe_port ep <= 65535.
Proof.
  intros F. unfold stun_address. destruct (_ && _); [|done]. pose proof (be_val_sub 2 4 data F) as P. change (2 ^ (8 * Z.of_nat (4 - 2))) with 65536 in P.
  destruct (t =? 32); intros E; injection E as <-; cbn [pe_ip pe_port]; (split; [apply fmt_ipv4_no_colon|]); [|lia].
  pose proof (lxor_range 16 (be_val (sub 2 4 data)) (Z.shiftr MAGIC 16)) as L. change (2 ^ 16) with 65536 in L.
  assert (M : 0 <= Z.shiftr MAGIC 16 < 65536) by (vm_compute; split; [intros X; discriminate X|done]). lia.
Qed.

Lemma stun_attrs_ok buf stop ep fuel : Forall byte_ok buf -> forall offset, stun_attrs fuel buf stop offset = Some (Some ep) ->
  Forall (fun b => b <> 58) (pe_ip ep) /\ 0 <= pe_port ep <= 65535.
Proof.
  intros F. induction fuel as [|fuel IH]; intros offset; cbn [stun_attrs]; [done|]. destruct (_ <=? _)%nat; [|done].
  destruct (slice offset _ buf) as [t|]; [|done]. cbn [mbind option_bind]. destruct (slice (offset + 2) _ buf) as [n|]; [|done]. cbn [mbind option_bind].
  destruct (_ <? _)%nat; [done|]. destruct (slice (offset + 4) _ buf) as [data|] eqn:D; [|done]. cbn [mbind option_bind].
  assert (O : Forall byte_ok data) by (unfold slice in D; destruct (_ && _); [|done]; injection D as <-; by apply sub_bytes_ok).
  destruct (stun_address (be_val t) data) as [ep'|] eqn:A; [|apply IH]. intros E. injection E as ->. by eapply stun_address_ok.
Qed.

Lemma response_ok buf txns ep : Forall byte_ok buf -> response buf txns = Some ep -> Forall (fun b => b <> 58) (pe_ip ep) /\ 0 <= pe_port ep <= 65535.
Proof.
  intros F. unfold response, parse_stun_response. destruct (_ <? _); [done|]. destruct (slice 0 2 buf); [|done]. cbn [mbind option_bind].
  destruct (slice 4 8 buf); [|done]. cbn [mbind option_bind]. destruct (_ || _); [done|]. destruct (slice 8 20 buf); [|done]. cbn [mbind option_bind].
  destruct (negb _); [done|]. destruct (slice 2 4 buf); [|done]. cbn [mbind option_bind].
  destruct (stun_attrs _ _ _ _) as [[ep'|]|] eqn:E; cbn; [|done|done]. intros X. injection X as ->. by eapply stun_attrs_ok.
Qed.

Lemma key_split ep : Forall (fun b => b <> 58) (pe_ip ep) -> 0 <= pe_port ep <= 65535 ->
  ('(ip, port) ← split_once 58 (key_of ep); port ← parse_uint 65535 port; Some (mkPublic ip port)) = Some ep.
Proof.
  intros C P. unfold key_of. rewrite split_once_sep by done. cbn [mbind option_bind].
  rewrite parse_uint_fmt_dec by (unfold U64_MAX; lia). by destruct ep.
Qed.

(** The datagrams that are responses to a set of transactions and report the endpoint with the given text. *)
Definition votes_for (received : list bytes) (txns : gset bytes) (key : bytes) : Z :=
  len (filter (fun b => key_of <$> response b txns = Some key) received).

Lemma votes_for_app l k txns key : votes_for (l ++ k) txns key = votes_for l txns key + votes_for k txns key.
Proof. unfold votes_for. by rewrite filter_app, len_app. Qed.
Lemma votes_for_nonneg l txns key : 0 <= votes_for l txns key.
Proof. apply len_nonneg. Qed.
Lemma votes_for_cons b l txns key : votes_for (b :: l) txns key = (if bool_decide (key_of <$> response b txns = Some key) then 1 else 0) + votes_for l txns key.
Proof. unfold votes_for. rewrite filter_cons. case_decide; [rewrite bool_decide_true by done; by rewrite len_cons|by rewrite bool_decide_false]. Qed.

(** The votes of a query are at most the responses received. *)
Definition votes_ok (votes : gmap bytes Z) (txns : gset bytes) (received : list bytes) : Prop :=
  forall key c, votes !! key = Some c -> 1 <= c <= votes_for received txns key.

Lemma votes_ok_app votes txns l k : votes_ok votes txns l -> votes_ok votes txns (l ++ k).
Proof. intros V key c X. specialize (V key c X). rewrite votes_for_app. pose proof (votes_for_nonneg k txns key). lia. Qed.

(** One more response. *)
Lemma add_vote_ok q ep b txns received : votes_ok (sq_votes q) txns received -> response b txns = Some ep ->
  let '(q', c) := add_vote q ep in
  votes_ok (sq_votes q') txns (received ++ [b]) /\ c <= votes_for (received ++ [b]) txns (key_of ep) /\
  sq_txns q' = sq_txns q /\ sq_deadline q' = sq_deadline q /\ sq_early_stun q' = sq_early_stun q.
Proof.
  intros V R. unfold add_vote. cbn.
  assert (B : default 0 (sq_votes q !! key_of ep) + 1 <= votes_for (received ++ [b]) txns (key_of ep)).
  { rewrite votes_for_app, votes_for_cons, R. rewrite bool_decide_true by done. change (votes_for [] txns (key_of ep)) with 0.
    destruct (sq_votes q !! key_of ep) as [c|] eqn:E; cbn; [specialize (V _ _ E); lia|pose proof (votes_for_nonneg received txns (key_of ep)); lia]. }
  split_and!; [|done..]. intros key c [[<- <-]|[_ X]]%lookup_insert_Some; [|exact (votes_ok_app _ _ _ _ V _ _ X)].
  split; [|done]. destruct (sq_votes q !! key_of ep) as [c|] eqn:E; cbn; [specialize (V _ _ E); lia|lia].
Qed.

Lemma votes_for_sublist l k txns key : l `sublist_of` k -> votes_for l txns key <= votes_for k txns key.
Proof.
  induction 1 as [|b l k S IH|b l k S IH]; [done| |]; rewrite !votes_for_cons; case_bool_decide; lia.
Qed.

(** What holds of a pending query: before its servers are resolved it only keeps datagrams, after that its
    votes are responses to its own requests. *)
Definition query_ok (lookups : list Z) (received : list bytes) (id : Z) (q : PendingStunQuery) : Prop :=
  (sq_txns q = ∅ -> sq_votes q = ∅ /\ sq_early_stun q `sublist_of` received) /\
  (sq_txns q <> ∅ -> (id ∉ lookups) /\ votes_ok (sq_votes q) (sq_txns q) received).

Lemma query_ok_app lookups received k id q : query_ok lookups received id q -> query_ok lookups (received ++ k) id q.
Proof.
  intros [U R]. split.
  - intros E. destruct (U E) as [V S]. split; [done|]. by apply sublist_inserts_r.
  - intros N. destruct (R N) as [I V]. split; [done|by apply votes_ok_app].
Qed.

Lemma stun_scan_ok lookups received buf l : forall pending, NoDup l.*1 -> (forall id q, (id, q) ∈ l -> pending !! id = Some q) ->
  (forall id q, pending !! id = Some q -> query_ok lookups received id q \/ ((id ∉ l.*1) /\ query_ok lookups (received ++ [buf]) id q)) ->
  let '(pending', _, done) := stun_scan buf l pending in
  (forall id q, pending' !! id = Some q -> query_ok lookups (received ++ [buf]) id q) /\
  match done with
  | Some (id, ep) => exists q, (id, q) ∈ l /\ 2 <= votes_for (received ++ [buf]) (sq_txns q) (key_of ep)
  | None => True
  end.
Proof.
  induction l as [|[id q] l IH]; intros pending N L O; cbn [stun_scan].
  { split; [|done]. intros i q X. destruct (O i q X) as [Y|[_ Y]]; [by apply query_ok_app|done]. }
  rewrite fmap_cons in N. apply NoDup_cons in N as [NI N]. cbn [fst] in NI.
  assert (P : pending !! id = Some q) by (apply L; set_solver).
  assert (Q : query_ok lookups received id q) by (destruct (O id q P) as [Y|[Y _]]; [done|set_solver]).
  assert (L' : forall i q', (i, q') ∈ l -> pending !! i = Some q') by (intros i q' X; apply L; set_solver).
  assert (NE : forall i q', (i, q') ∈ l -> i <> id) by (intros i q' X ->; apply NI, list_elem_of_fmap; by exists (id, q')).
  assert (REC : forall pending, (forall i q', (i, q') ∈ l -> pending !! i = Some q') ->
    (forall i q, pending !! i = Some q -> query_ok lookups received i q \/ ((i ∉ l.*1) /\ query_ok lookups (received ++ [buf]) i q)) ->
    let '(pending', _, done) := stun_scan buf l pending in
    (forall id q, pending' !! id = Some q -> query_ok lookups (received ++ [buf]) id q) /\
    match done with Some (i, ep) => exists q', (i, q') ∈ (id, q) :: l /\ 2 <= votes_for (received ++ [buf]) (sq_txns q') (key_of ep) | None => True end).
  { intros p Lp Op. specialize (IH p N Lp Op). destruct (stun_scan buf l p) as [[p' m] [[i ep]|]]; destruct IH as [IH1 IH2]; (split; [done|]); [|done].
    destruct IH2 as (q' & X & Y). exists q'. split; [set_solver|done]. }
  assert (O' : forall i q', pending !! i = Some q' -> query_ok lookups received i q' \/ ((i ∉ l.*1) /\ query_ok lookups (received ++ [buf]) i q'))
    by (intros i q' X; destruct (O i q' X) as [Y|[Y Z0]]; [by left|right; set_solver]).
  case_bool_decide as E.
  - destruct (_ <? 32); [|by apply REC]. set (q1 := q <| sq_early_stun := _ |>). specialize (REC (<[id := q1]> pending)).
    destruct (stun_scan buf l _) as [[p' m] done]. apply REC.
    + intros i q' X. rewrite lookup_insert_ne by (intros ->; by destruct (NE i q' X)). by apply L'.
    + intros i q' [[<- <-]|[_ X]]%lookup_insert_Some; [right|by apply O']. split; [done|]. destruct Q as [U _]. destruct (U E) as [V S]. split; cbn; [|done].
      intros _. split; [done|]. by apply sublist_app.
  - destruct (response buf (sq_txns q)) as [ep|] eqn:R; [|by apply REC]. destruct Q as [_ V]. destruct (V E) as [I W].
    pose proof (add_vote_ok q ep buf (sq_txns q) received W R) as A. destruct (add_vote q ep) as [q1 c]. destruct A as (A1 & A2 & A3 & A4 & A5). split.
    + intros i q' [[<- <-]|[_ X]]%lookup_insert_Some; [split; rewrite A3; [done|by split]|].
      destruct (O i q' X) as [Y|[_ Y]]; [by apply query_ok_app|done].
    + destruct (Z.leb_spec 2 c); [|done]. exists q. split; [set_solver|lia].
Qed.

Lemma count_early_ok txns : forall early before q, sq_txns q = txns -> votes_ok (sq_votes q) txns before ->
  let '(q', found) := count_early early q in
  sq_txns q' = txns /\ votes_ok (sq_votes q') txns (before ++ early) /\
  match found with Some ep => 2 <= votes_for (before ++ early) txns (key_of ep) | None => True end.
Proof.
  induction early as [|b early IH]; intros before q T V; cbn [count_early]; [by rewrite app_nil_r|].
  rewrite T. replace (before ++ b :: early) with ((before ++ [b]) ++ early) by by rewrite <- app_assoc.
  destruct (response b txns) as [ep|] eqn:R; [|apply IH; [done|by apply votes_ok_app]].
  pose proof (add_vote_ok q ep b txns before V R) as A. destruct (add_vote q ep) as [q1 c]. destruct A as (A1 & A2 & A3 & _).
  destruct (Z.leb_spec 2 c) as [C|C]; [|apply IH; [by rewrite A3|done]].
  split_and!; [by rewrite A3|by apply votes_ok_app|]. rewrite votes_for_app. pose proof (votes_for_nonneg early txns (key_of ep)). lia.
Qed.

(** The winner at the deadline. *)
Lemma best_vote_elem `{HashIter} votes key c : best_vote votes = Some (key, c) -> votes !! key = Some c.
Proof.
  intros E. apply hm_iter_elem. unfold best_vote in E. revert E.
  assert (G : forall l best, (forall b, best = Some b -> b ∈ hm_iter votes) -> (forall x, x ∈ l -> x ∈ hm_iter votes) ->
    forall b, foldl (fun best x => match best with Some b => if b.2 <=? x.2 then Some x else best | None => Some x end) best l = Some b -> b ∈ hm_iter votes).
  { induction l as [|x l IH]; intros best B L b; cbn [foldl]; [apply B|]. apply IH; [|set_solver]. intros b' X.
    assert (x ∈ hm_iter votes) by (apply L; set_solver). destruct best as [b0|]; [|by injection X as <-]. destruct (_ <=? _); [by injection X as <-|by apply B]. }
  apply G; [intros b X; discriminate X|done].
Qed.

Section Votes.
Context `{HashIter} (ttl : Duration) (max_pending : Z).

Definition votes_inv (x : StunState * StunLog) : Prop :=
  forall id q, st_pending x.1 !! id = Some q -> query_ok (sl_lookups x.2) (sl_received x.2) id q.

(** Why a query of [s] may be answered with [ep], given the datagrams received. *)
Definition justified (s : StunState) (received : list bytes) (ev : StunEv) (id : Z) (ep : PublicEndpoint) : Prop :=
  exists q, st_pending s !! id = Some q /\
  match ev with
  | EvQuery _ _ _ => False
  | EvResolve r _ => rs_query_id r = id /\ 2 <= votes_for received (rs_txns r) (key_of ep)
  | EvStun _ _ => 2 <= votes_for received (sq_txns q) (key_of ep)
  | EvPoll now => sq_deadline q <= now /\ 1 <= votes_for received (sq_txns q) (key_of ep)
  end.

Lemma expire_all_replies now ids : forall s id r, (Some id, r) ∈ (expire_all now ids s).2 ->
  id ∈ ids /\ exists q, st_pending s !! id = Some q /\ r = query_result q.
Proof.
  induction ids as [|i ids IH]; intros s id r; cbn [expire_all]; [set_solver|].
  pose proof (expire_all_moves now [i] s) as M. cbn [expire_all] in M. destruct (expire_query now s i) as [s1 a] eqn:E.
  specialize (IH s1 id r). destruct (expire_all now ids s1) as [s2 b]. destruct M as [_ M]. cbn [snd]. intros [X|X]%elem_of_app.
  - unfold expire_query in E. cbn [st_pending] in E. cbn in E. destruct (st_pending s !! i) as [q|] eqn:Q; [|injection E as <- <-; set_solver].
    injection E as _ <-. apply list_elem_of_singleton in X. injection X as -> ->. split; [set_solver|by exists q].
  - destruct (IH X) as (I & q & Q & R). apply M in Q as [Q _]. split; [set_solver|by exists q].
Qed.

Lemma query_result_ok q received ep : Forall (Forall byte_ok) received -> votes_ok (sq_votes q) (sq_txns q) received ->
  query_result q = Some ep -> 1 <= votes_for received (sq_txns q) (key_of ep).
Proof.
  intros B V. unfold query_result. destruct (best_vote (sq_votes q)) as [[key c]|] eqn:E; [|done]. cbn [mbind option_bind].
  apply best_vote_elem in E. specialize (V key c E). assert (P : 0 < votes_for received (sq_txns q) key) by lia.
  unfold votes_for, len in P. destruct (filter _ received) as [|b l] eqn:F; [cbn in P; lia|].
  assert (X : b ∈ filter (fun b => key_of <$> response b (sq_txns q) = Some key) received) by (rewrite F; set_solver).
  apply list_elem_of_filter in X as [K I]. destruct (response b (sq_txns q)) as [ep0|] eqn:R; [|discriminate K]. injection K as <-.
  rewrite Forall_forall in B. destruct (response_ok _ _ _ (B b I) R) as [C P0]. rewrite (key_split ep0 C P0). intros X. injection X as <-. lia.
Qed.

Definition ev_bytes_ok (ev : StunEv) : Prop := match ev with EvStun buf _ => Forall byte_ok buf | _ => True end.

Lemma query_ok_lookups lookups lookups' received id q : (forall i, i ∈ lookups' -> i ∈ lookups) -> query_ok lookups received id q -> query_ok lookups' received id q.
Proof. intros L [U R]. split; [done|]. intros T. destruct (R T). split; [intros X; apply L in X; done|done]. Qed.

Lemma resolve_votes s lg r now : votes_inv (s, lg) -> rs_query_id r ∈ sl_lookups lg ->
  let '(s', replies) := handle_stun_resolve_result s r now in
  (forall id q, st_pending s' !! id = Some q -> query_ok (filter (fun id => id <> rs_query_id r) (sl_lookups lg)) (sl_received lg) id q) /\
  forall id ep, (Some id, Some ep) ∈ replies -> justified s (sl_received lg) (EvResolve r now) id ep.
Proof.
  intros V L. set (lk := filter _ _).
  assert (K : forall id q, st_pending s !! id = Some q -> query_ok lk (sl_received lg) id q)
    by (intros id q X; eapply query_ok_lookups; [|by apply V]; intros i [_ I]%list_elem_of_filter; done).
  unfold handle_stun_resolve_result. case_bool_decide as A; cbn [negb]; [|split; [done|set_solver]]. case_bool_decide as T.
  { cbn. split; [intros id q [_ X]%lookup_delete_Some; by apply K|]. intros id ep X. destruct (st_pending s !! _); set_solver. }
  cbn. destruct (st_pending s !! rs_query_id r) as [p|] eqn:P; [|split; [exact K|set_solver]].
  assert (U : sq_votes p = ∅ /\ sq_early_stun p `sublist_of` sl_received lg).
  { destruct (V _ _ P) as [U W]. destruct (decide (sq_txns p = ∅)) as [E|E]; [by apply U|]. by destruct (W E). }
  destruct U as [U1 U2]. set (q := mkStunQuery (sq_votes p) (rs_txns r) (now + rs_timeout r) []).
  pose proof (count_early_ok (rs_txns r) (sq_early_stun p) [] q eq_refl) as C.
  destruct (count_early _ _) as [q' found]. destruct C as (C1 & C2 & C3); [cbn; rewrite U1; intros key c X; by rewrite lookup_empty in X|]. cbn [app] in *.
  assert (Q : query_ok lk (sl_received lg) (rs_query_id r) q').
  { split; rewrite C1; [done|]. intros _. split; [unfold lk; intros [X _]%list_elem_of_filter; done|]. intros key c X.
    specialize (C2 key c X). pose proof (votes_for_sublist _ _ (rs_txns r) key U2). lia. }
  destruct found as [ep|].
  - unfold complete_query. cbn. split; [intros id q0 [N X]%lookup_delete_Some; rewrite lookup_insert_ne in X by done; by apply K|].
    rewrite lookup_insert_eq. intros id ep' X. apply list_elem_of_singleton in X. injection X as -> ->. exists p. split_and!; [done|done|].
    pose proof (votes_for_sublist _ _ (rs_txns r) (key_of ep) U2). lia.
  - cbn. split; [|set_solver]. intros id q0 [[<- <-]|[_ X]]%lookup_insert_Some; [done|by apply K].
Qed.

Lemma step_votes s lg ev : votes_inv (s, lg) -> Forall (Forall byte_ok) (sl_received lg) ->
  let '(s', lg') := stun_step ttl max_pending (s, lg) ev in
  votes_inv (s', lg') /\ exists new, sl_replies lg' = sl_replies lg ++ new /\
  forall id ep, (Some id, Some ep) ∈ new -> justified s (sl_received lg') ev id ep.
Proof.
  intros V B. destruct ev as [timeout force now|r now|buf now|now]; cbn [stun_step].
  - pose proof (query_cases ttl max_pending s timeout force now) as Q. destruct (query_public_endpoint _ _ _ _ _ _) as [s' replies]. destruct Q as [R Q]. split.
    + unfold votes_inv. cbn [fst snd sl_lookups sl_received]. case_bool_decide; destruct Q as [-> _]; [|rewrite app_nil_r; exact V].
      intros id q [[<- <-]|[N X]]%lookup_insert_Some; [split; cbn; [intros _; split; [done|apply sublist_nil_l]|done]|].
      destruct (V id q X) as [U W]. split; [done|]. intros T. destruct (W T). split; [set_solver|done].
    + eexists. split; [done|]. intros id ep X. exfalso. assert (Y : id ∈ answered replies) by (apply list_elem_of_omap; by exists (Some id, Some ep)).
      rewrite R in Y. set_solver.
  - case_bool_decide as L; [|split; [done|exists []; split; [by rewrite app_nil_r|set_solver]]].
    pose proof (resolve_votes s lg r now V L) as X. destruct (handle_stun_resolve_result s r now) as [s' replies]. destruct X as [X1 X2]. split; [exact X1|].
    exists replies. by split.
  - unfold handle_stun_datagram. destruct (_ || _).
    { split; [intros id q X; by apply query_ok_app, V|]. exists []. split; [done|set_solver]. }
    pose proof (stun_scan_ok (sl_lookups lg) (sl_received lg) buf (hm_iter (st_pending s)) (st_pending s) (hm_iter_NoDup_fst _)) as X.
    destruct (stun_scan buf _ _) as [[pending m] done]. destruct X as [X1 X2]; [intros id q X; by apply hm_iter_elem|intros id q X; left; by apply V|].
    destruct done as [[id ep]|]; [|split; [exact X1|exists []; split; [done|set_solver]]]. destruct X2 as (q & I & C). unfold complete_query. cbn. split.
    + intros i q' X. cbn in X. apply lookup_delete_Some in X as [_ X]. by apply X1.
    + eexists. split; [done|]. intros i ep' X. destruct (pending !! id); [|set_solver]. apply list_elem_of_singleton in X. injection X as -> ->.
      exists q. split; [by apply hm_iter_elem|done].
  - pose proof (poll_moves s now) as M. pose proof (expire_all_moves now (filter (fun x => sq_deadline x.2 <= now) (hm_iter (st_pending s))).*1 s) as W.
    pose proof (expire_all_replies now (filter (fun x => sq_deadline x.2 <= now) (hm_iter (st_pending s))).*1 s) as Y.
    unfold poll_stun_query in *. destruct (expire_all _ _ s) as [s' replies]. destruct W as [_ W]. split.
    + intros id q X. apply V. by apply W in X as [X _].
    + eexists. split; [done|]. intros id ep X. apply Y in X as (I & q & Q & R). exists q. split; [done|]. split.
      * apply list_elem_of_fmap in I as ([i q'] & -> & [D I]%list_elem_of_filter). apply hm_iter_elem in I. cbn in *. congruence.
      * apply query_result_ok; [done| |done]. destruct (V id q Q) as [U T].
        destruct (decide (sq_txns q = ∅)) as [E|E]; [|by apply T]. destruct (U E) as [-> _]. intros key c X'. by rewrite lookup_empty in X'.
Qed.

Lemma step_received s lg ev : ev_bytes_ok ev -> Forall (Forall byte_ok) (sl_received lg) ->
  Forall (Forall byte_ok) (sl_received (stun_step ttl max_pending (s, lg) ev).2).
Proof.
  intros E B. destruct ev as [timeout force now|r now|buf now|now]; cbn [stun_step].
  - by destruct (query_public_endpoint _ _ _ _ _ _).
  - case_bool_decide; [|done]. by destruct (handle_stun_resolve_result _ _ _).
  - destruct (handle_stun_datagram _ _ _) as [[? ?] ?]. cbn. apply Forall_app. split; [done|by apply Forall_singleton].
  - by destruct (poll_stun_query _ _).
Qed.

Lemma run_votes evs : Forall ev_bytes_ok evs -> let x := stun_run ttl max_pending evs in votes_inv x /\ Forall (Forall byte_ok) (sl_received x.2).
Proof.
  induction evs as [|ev evs IH] using rev_ind; intros E.
  { split; [|constructor]. intros id q X. cbn in X. by rewrite lookup_empty in X. }
  apply Forall_app in E as [E1 E2]. rewrite Forall_singleton in E2. destruct (IH E1) as [V B]. unfold stun_run in *. rewrite foldl_app. cbn [foldl].
  destruct (foldl _ _ evs) as [s lg]. pose proof (step_votes s lg ev V B) as X. pose proof (step_received s lg ev E2 B) as Y.
  destruct (stun_step _ _ _ _) as [s' lg']. by destruct X.
Qed.

(** An endpoint reported to a query was named by responses that carry a transaction id of that query's
    own requests: by two datagrams when it is reported early, whether they came before or after the
    servers were resolved, and by at least one when the deadline decides. *)
Theorem stun_answer_voted evs ev id ep : Forall ev_bytes_ok (evs ++ [ev]) ->
  let x := stun_run ttl max_pending evs in
  let y := stun_run ttl max_pending (evs ++ [ev]) in
  (Some id, Some ep) ∈ drop (List.length (sl_replies x.2)) (sl_replies y.2) -> justified x.1 (sl_received y.2) ev id ep.
Proof.
  intros E x y. apply Forall_app in E as [E _]. destruct (run_votes evs E) as [V B]. fold x in V, B.
  assert (Y : y = stun_step ttl max_pending x ev) by (subst y; unfold stun_run; by rewrite foldl_app). rewrite Y. clearbody x. destruct x as [s lg].
  pose proof (step_votes s lg ev V B) as X. destruct (stun_step _ _ _ _) as [s' lg']. destruct X as (_ & new & R & J). cbn [fst snd].
  rewrite R, drop_app_length. apply J.
Qed.
End Votes.

(** ** Two runs *)

Module StunRuns.
#[local] Existing Instance canonical_iter.
Definition txn (n : Z) : bytes := repeat n 12.
Definition addr_attr (ip port : Z) : Z * bytes := (1, [0; 1] ++ be_bytes 2 port ++ be_bytes 4 ip).
Definition says (n ip port : Z) : bytes := encode_response (txn n) [addr_attr ip port].
Definition ttl : Duration := from_secs 30.

Definition asked : list StunEv :=
  [EvQuery (from_secs 3) false 0; EvResolve (mkResolvedStun 1 {[txn 1; txn 2; txn 3]} None (from_secs 3)) 1].
Definition ep_a : PublicEndpoint := mkPublic (fmt_ipv4 167772161) 5000.
Definition ep_b : PublicEndpoint := mkPublic (fmt_ipv4 3405803777) 6000.

Lemma stun_response_exact_witness :
  parse_stun_response (encode_response (txn 5) [(32770, [1; 2; 3]); addr_attr 167772161 5000]) {[txn 5]} = Some (Some ep_a).
Proof.
  destruct (stun_response_exact [] (txn 5) [(32770, [1; 2; 3]); addr_attr 167772161 5000] {[txn 5]}) as [_ E].
  - done.
  - repeat constructor; vm_compute; try done; intros X; discriminate X.
  - split; [apply len_nonneg|by vm_compute].
  - rewrite E. by vm_compute.
Defined.

Lemma stun_queries_answered_witness :
  let lg := (stun_run ttl 4 asked).2 in sl_asked lg = [1] /\ sl_asked lg ≡ₚ answered (sl_replies lg) ++ elements (dom (st_pending (stun_run ttl 4 asked).1)).
Proof. split; [by vm_compute|]. apply (stun_queries_answered ttl 4 asked 0). by vm_compute. Defined.

Lemma stun_answer_voted_witness :
  justified (stun_run ttl 4 (asked ++ [EvStun (says 1 167772161 5000) 2])).1
    (sl_received (stun_run ttl 4 ((asked ++ [EvStun (says 1 167772161 5000) 2]) ++ [EvStun (says 2 167772161 5000) 3])).2)
    (EvStun (says 2 167772161 5000) 3) 1 ep_a.
Proof.
  apply (stun_answer_voted ttl 4 (asked ++ [EvStun (says 1 167772161 5000) 2]) (EvStun (says 2 167772161 5000) 3) 1 ep_a).
  - repeat constructor; vm_compute; try done; intros X; discriminate X.
  - vm_compute. by left.
Defined.

(** Votes are counted per datagram and not per request: a response of one server that arrives twice
    decides the query, although two other servers agree on another endpoint. *)
Theorem one_server_outvotes :
  sl_replies (stun_run ttl 4 (asked ++ [EvStun (says 1 3405803777 6000) 2; EvStun (says 2 167772161 5000) 3;
                                        EvStun (says 1 3405803777 6000) 4; EvStun (says 3 167772161 5000) 5])).2 = [(Some 1, Some ep_b)].
Proof. by vm_compute. Qed.
End StunRuns.
