(* ===== verification/Bcast.v ===== *)
(** * Broadcast deduplication (src/bcast.rs)

    Broadcast packets come back over several relays; the deduplicator keeps the keys of the packets it let
    through.  The hasher of the standard library is keyed at random and is an argument, a function of what
    was written to it.

    [bcast_refines_history] shows that the set and the queue of the code are exactly the last accepted keys;
    [bcast_copies_recognised] says which packets share a key. *)

From S2P Require Import Prelude Text.
From Stdlib Require Import Ascii String.
#[local] Open Scope Z_scope.

Definition TTL : Duration := from_millis 2000.
Definition MAX_CACHE : Z := 4096.

(** What is written to a hasher: a slice or an array with its length, or a number. *)
Inductive HashWrite := WSlice (l : bytes) | WLen (n : Z).

Record BroadcastDeduplicator := mkDedup { bd_seen : gset Z; bd_timeline : list (Instant * Z) }.
#[export] Instance eta_BroadcastDeduplicator : Settable BroadcastDeduplicator := fun d => mkDedup (bd_seen d) (bd_timeline d).
Definition new_dedup : BroadcastDeduplicator := mkDedup ∅ [].

(** [x.rotate_left(n)] of a [w]-bit number. *)
Definition rotate_left (w n x : Z) : Z := Z.lor (wrap w (Z.shiftl x n)) (Z.shiftr x (w - n)).

Definition zero_at (i : nat) (l : bytes) : bytes := <[i := 0]> l.

(** The writes that follow the label: the start of the packet without time to live and checksum, the end
    of a long packet, and the length. *)
Definition key_writes (packet : bytes) : list HashWrite :=
  let prefix := Nat.min (List.length packet) 128 in
  let start :=
    if (20 <=? prefix)%nat then
      let header := zero_at 11 (zero_at 10 (zero_at 8 (take 20 packet))) in
      WSlice header :: (if (20 <? prefix)%nat then [WSlice (take (prefix - 20) (drop 20 packet))] else [])
    else
      let short := take prefix packet ++ repeat 0 (20 - prefix) in
      let short := if (8 <? prefix)%nat then zero_at 8 short else short in
      let short := if (11 <? prefix)%nat then zero_at 11 (zero_at 10 short) else short in
      [WSlice (take prefix short)] in
  start ++ (if (128 <? List.length packet)%nat then [WSlice (drop (List.length packet - 32) packet)] else []) ++ [WLen (len packet)].

Section Dedup.
(** [finish] of a hasher of the deduplicator's state after the given writes. *)
Variable hash : list HashWrite -> Z.

Definition make_key (packet : bytes) : Z :=
  let hi := hash (WSlice (str_bytes "mint-bcast-key-a") :: key_writes packet) in
  let lo := rotate_left 64 13 (hash (WSlice (str_bytes "mint-bcast-key-b") :: key_writes packet)) in
  Z.lor (Z.shiftl hi 64) lo.

Definition make_scoped_key (scope packet : bytes) : Z :=
  let key := make_key packet in
  let scope_hash := hash [WSlice (str_bytes "mint-bcast-scope"); WSlice scope] in
  let mixed := wrap 64 (scope_hash * 11400714785074694791) in
  let scope_key := Z.lor (Z.shiftl mixed 64) (rotate_left 64 17 mixed) in
  Z.lxor (rotate_left 128 29 key) scope_key.

Fixpoint evict_timeline (now : Instant) (timeline : list (Instant * Z)) (seen : gset Z) : BroadcastDeduplicator :=
  match timeline with
  | [] => mkDedup seen []
  | (t, key) :: rest => if duration_since now t <? TTL then mkDedup seen timeline else evict_timeline now rest (seen ∖ {[key]})
  end.
Definition evict (d : BroadcastDeduplicator) (now : Instant) : BroadcastDeduplicator := evict_timeline now (bd_timeline d) (bd_seen d).

Definition accept_key (d : BroadcastDeduplicator) (key : Z) (now : Instant) : BroadcastDeduplicator * bool :=
  if bool_decide (key ∈ bd_seen d) then (d, false)
  else
    let timeline := bd_timeline d ++ [(now, key)] in
    let d := mkDedup ({[key]} ∪ bd_seen d) timeline in
    (if MAX_CACHE <? len timeline
     then match timeline with (_, old) :: rest => mkDedup (bd_seen d ∖ {[old]}) rest | [] => d end
     else d, true).

Definition is_fresh (d : BroadcastDeduplicator) (packet : bytes) (now : Instant) : BroadcastDeduplicator * bool :=
  accept_key (evict d now) (make_key packet) now.
Definition is_fresh_scoped (d : BroadcastDeduplicator) (scope packet : bytes) (now : Instant) : BroadcastDeduplicator * bool :=
  accept_key (evict d now) (make_scoped_key scope packet) now.

(** ** Against the history *)

(** A packet, with a scope or without, and the time it comes. *)
Definition Arrival : Type := option bytes * bytes * Instant.
Definition arrival_key (a : Arrival) : Z := match a.1.1 with Some scope => make_scoped_key scope a.1.2 | None => make_key a.1.2 end.
Definition arrive (d : BroadcastDeduplicator) (a : Arrival) : BroadcastDeduplicator * bool :=
  match a.1.1 with Some scope => is_fresh_scoped d scope a.1.2 a.2 | None => is_fresh d a.1.2 a.2 end.

Definition dedup_run (d : BroadcastDeduplicator) (l : list Arrival) : BroadcastDeduplicator := foldl (fun d a => (arrive d a).1) d l.
End Dedup.

(** What a deduplicator should do: remember every accepted key with its time, and refuse a key that is
    among the last [MAX_CACHE] accepted ones and younger than the lifetime. *)
Definition fresh_at (now : Instant) (x : Instant * Z) : Prop := duration_since now x.1 < TTL.
#[export] Instance fresh_at_dec now x : Decision (fresh_at now x).
Proof. unfold fresh_at. apply _. Defined.
Definition lastn {A} (n : nat) (l : list A) : list A := drop (List.length l - n) l.
Definition recent (h : list (Instant * Z)) (now : Instant) : list Z := (filter (fresh_at now) (lastn (Z.to_nat MAX_CACHE) h)).*2.
Definition spec_arrive (h : list (Instant * Z)) (key : Z) (now : Instant) : list (Instant * Z) * bool :=
  if bool_decide (key ∈ recent h now) then (h, false) else (h ++ [(now, key)], true).

(** The state that represents history [h], last used at [last]. *)
Record represents (last : Instant) (h : list (Instant * Z)) (d : BroadcastDeduplicator) : Prop := {
  rp_seen : bd_seen d = list_to_set (bd_timeline d).*2;
  rp_nodup : NoDup (bd_timeline d).*2;
  rp_len : len (bd_timeline d) <= MAX_CACHE;
  rp_sorted : StronglySorted (fun a b => a.1 <= b.1) h;
  rp_last : Forall (fun a => a.1 <= last) h;
  rp_suffix : exists old, h = old ++ bd_timeline d /\ (Forall (fun x => ~ fresh_at last x) old \/ len (bd_timeline d) = MAX_CACHE)
}.

Lemma filter_fresh now l : Forall (fresh_at now) l -> filter (fresh_at now) l = l.
Proof. induction 1 as [|x l X F IH]; [done|]. by rewrite filter_cons_True, IH. Qed.
Lemma filter_stale now l : Forall (fun x => ~ fresh_at now x) l -> filter (fresh_at now) l = [].
Proof. induction 1 as [|x l X F IH]; [done|]. by rewrite filter_cons_False, IH. Qed.
Lemma elem_of_list_to_set_iff (key : Z) l : bool_decide (key ∈ (list_to_set l : gset Z)) = bool_decide (key ∈ l).
Proof. apply bool_decide_ext. by rewrite elem_of_list_to_set. Qed.

Lemma stale_later last now x : last <= now -> ~ fresh_at last x -> ~ fresh_at now x.
Proof. unfold fresh_at, duration_since, sat_sub. lia. Qed.
Lemma stale_earlier now (x y : Instant * Z) : x.1 <= y.1 -> ~ fresh_at now y -> ~ fresh_at now x.
Proof. unfold fresh_at, duration_since, sat_sub. lia. Qed.

Lemma evict_timeline_spec now timeline : NoDup timeline.*2 -> exists gone, timeline = gone ++ bd_timeline (evict_timeline now timeline (list_to_set timeline.*2)) /\
  Forall (fun x => ~ fresh_at now x) gone /\ (forall x rest, bd_timeline (evict_timeline now timeline (list_to_set timeline.*2)) = x :: rest -> fresh_at now x) /\
  bd_seen (evict_timeline now timeline (list_to_set timeline.*2)) = list_to_set (bd_timeline (evict_timeline now timeline (list_to_set timeline.*2))).*2.
Proof.
  induction timeline as [|[t k] l IH]; intros N; cbn [evict_timeline]; [exists []; done|].
  rewrite fmap_cons in N. apply NoDup_cons in N as [NI N]. destruct (Z.ltb_spec (duration_since now t) TTL) as [F|F].
  - exists []. split_and!; [done|constructor| |done]. cbn. intros x rest E. injection E as <- _. exact F.
  - replace (list_to_set ((t, k) :: l).*2 ∖ {[k]}) with (list_to_set l.*2 : gset Z) by (rewrite fmap_cons; cbn in *; set_solver).
    destruct (IH N) as (gone & E & G & H & S). exists ((t, k) :: gone). split_and!; [cbn; by f_equal|constructor; [unfold fresh_at; cbn; lia|done]|done|done].
Qed.

Lemma evict_represents last now h d : last <= now -> represents last h d -> represents now h (evict d now) /\
  forall x, x ∈ bd_timeline (evict d now) -> fresh_at now x.
Proof.
  intros L [S N M O B (old & E & C)]. unfold evict. rewrite S. destruct (evict_timeline_spec now (bd_timeline d) N) as (gone & G & ST & HD & SE).
  set (d' := evict_timeline now _ _) in *. pose proof O as O'. rewrite E, G in O'. rewrite G, fmap_app in N. apply NoDup_app in N as (_ & _ & N).
  assert (D : forall x y, x ∈ old -> y ∈ gone -> ~ fresh_at now x).
  { intros x y X Y. apply (stale_earlier now x y); [|rewrite Forall_forall in ST; by apply ST].
    eapply (StronglySorted_app_1_elem_of _ _ _ x y O'); [done|]. apply elem_of_app. by left. }
  split; [split|].
  - exact SE.
  - exact N.
  - rewrite G, len_app in M. pose proof (len_nonneg gone). lia.
  - exact O.
  - eapply Forall_impl; [exact B|]. cbn. lia.
  - exists (old ++ gone). split; [by rewrite E, <- app_assoc, <- G|]. destruct gone as [|g gone].
    + destruct C as [C|C]; [left|right; by rewrite <- C, G]. rewrite app_nil_r. eapply Forall_impl; [exact C|]. intros x. by apply stale_later.
    + left. apply Forall_app. split; [|done]. apply Forall_forall. intros x X. apply (D x g X). set_solver.
  - intros x X. destruct (bd_timeline d') as [|y l] eqn:T; [set_solver|]. pose proof (HD y l eq_refl) as Y.
    apply elem_of_cons in X as [->|X]; [done|]. destruct (decide (fresh_at now x)) as [|NF]; [done|]. exfalso. revert Y. apply (stale_earlier now y x); [|done].
    rewrite app_assoc in O'. apply StronglySorted_app_1_r in O'. inversion_clear O' as [|? ? _ F]. rewrite Forall_forall in F. by apply F.
Qed.

(** The remembered keys are the recent ones of the history. *)
Lemma remembered now h d : represents now h d -> (forall x, x ∈ bd_timeline d -> fresh_at now x) -> recent h now = (bd_timeline d).*2.
Proof.
  intros [S N M O B (old & E & C)] F. unfold recent, lastn. set (m := Z.to_nat MAX_CACHE). assert (LM : (List.length (bd_timeline d) <= m)%nat) by (unfold len, m, MAX_CACHE in *; lia).
  f_equal. rewrite E, length_app. rewrite drop_app, filter_app. replace (List.length old + _ - m - List.length old)%nat with 0%nat by lia.
  rewrite drop_0. rewrite (filter_fresh now (bd_timeline d)) by by apply Forall_forall. destruct C as [C|C].
  - rewrite filter_stale; [done|]. by apply Forall_drop.
  - rewrite drop_ge; [done|]. unfold len, m, MAX_CACHE in *. lia.
Qed.

Lemma arrive_represents last h d key now : last <= now -> represents last h d ->
  let '(d', b) := accept_key (evict d now) key now in
  let '(h', b') := spec_arrive h key now in b = b' /\ represents now h' d'.
Proof.
  intros L R. destruct (evict_represents last now h d L R) as [R1 F]. set (d1 := evict d now) in *. unfold accept_key, spec_arrive.
  rewrite (remembered now h d1 R1 F). pose proof R1 as R1'. destruct R1' as [S N M O B (old & E & C)]. rewrite S, elem_of_list_to_set_iff.
  case_bool_decide as K; [done|]. split; [done|].
  assert (SO : StronglySorted (fun a b => a.1 <= b.1) (h ++ [(now, key)])).
  { apply StronglySorted_app_2; [|done|repeat constructor]. intros x y X ->%list_elem_of_singleton. rewrite Forall_forall in B. by apply B. }
  assert (BO : Forall (fun a => a.1 <= now) (h ++ [(now, key)])) by (apply Forall_app; split; [done|apply Forall_singleton; cbn; lia]).
  assert (NO : NoDup (bd_timeline d1 ++ [(now, key)]).*2) by (rewrite fmap_app; apply NoDup_app; split_and!; [done|set_solver|apply NoDup_singleton]).
  assert (SE : {[key]} ∪ list_to_set (bd_timeline d1).*2 = list_to_set (bd_timeline d1 ++ [(now, key)]).*2 :> gset Z) by (rewrite fmap_app; cbn; set_solver).
  rewrite SE. destruct (Z.ltb_spec MAX_CACHE (len (bd_timeline d1 ++ [(now, key)]))) as [X|X].
  - rewrite len_app in X. change (len [(now, key)]) with 1 in X. destruct (bd_timeline d1) as [|[t0 k0] l] eqn:T; [change (len (@nil (Instant * Z))) with 0 in X; unfold MAX_CACHE in X; lia|].
    cbn [app]. rewrite len_cons in X, M. split; cbn [bd_seen bd_timeline].
    + cbn [app fmap list_fmap] in NO |- *. apply NoDup_cons in NO as [NI _]. cbn in *. set_solver.
    + cbn [app fmap list_fmap] in NO. by apply NoDup_cons in NO as [_ NO].
    + rewrite len_app. change (len [(now, key)]) with 1. lia.
    + done.
    + done.
    + exists (old ++ [(t0, k0)]). split; [rewrite E, <- !app_assoc; done|]. right. rewrite len_app. change (len [(now, key)]) with 1. lia.
  - split; cbn [bd_seen bd_timeline]; [done..|]. exists old. split; [by rewrite E, <- app_assoc|]. destruct C as [C|C]; [by left|].
    rewrite len_app in X. change (len [(now, key)]) with 1 in X. lia.
Qed.

(** Runs of the code and of the specification. *)
Fixpoint outputs (hash : list HashWrite -> Z) (d : BroadcastDeduplicator) (l : list Arrival) : list bool :=
  match l with [] => [] | a :: l => let '(d, b) := arrive hash d a in b :: outputs hash d l end.
Fixpoint spec_outputs (hash : list HashWrite -> Z) (h : list (Instant * Z)) (l : list Arrival) : list bool :=
  match l with [] => [] | a :: l => let '(h, b) := spec_arrive h (arrival_key hash a) a.2 in b :: spec_outputs hash h l end.

Lemma arrive_key hash d a : arrive hash d a = accept_key (evict d a.2) (arrival_key hash a) a.2.
Proof. unfold arrive, arrival_key, is_fresh, is_fresh_scoped. by destruct (a.1.1). Qed.

Lemma outputs_spec hash l : forall last h d, represents last h d -> StronglySorted Z.le (last :: (snd <$> l)) -> outputs hash d l = spec_outputs hash h l.
Proof.
  induction l as [|a l IH]; intros last h d R S; cbn [outputs spec_outputs]; [done|]. rewrite arrive_key.
  cbn [fmap list_fmap] in S. inversion_clear S as [|? ? S' F]. apply Forall_cons in F as [LE _].
  pose proof (arrive_represents last h d (arrival_key hash a) a.2 LE R) as X. destruct (accept_key _ _ _) as [d' b]. destruct (spec_arrive _ _ _) as [h' b'].
  destruct X as [-> R']. f_equal. by eapply IH.
Qed.

(** C31. The deduplicator lets a broadcast through exactly when its key is not among the last 4096 accepted
    ones that are less than two seconds old, for every sequence of packets, with and without scopes, and
    every clock that does not go back. *)
Theorem bcast_refines_history hash l : StronglySorted Z.le (snd <$> l) -> Forall (fun a => 0 <= a.2) l ->
  outputs hash new_dedup l = spec_outputs hash [] l.
Proof.
  intros S P. apply (outputs_spec hash l 0).
  - split; cbn; [done|constructor|vm_compute; intros X; discriminate X|constructor|constructor|]. exists []. split; [done|by left].
  - constructor; [done|]. by apply Forall_fmap.
Qed.

(** ** Which packets share a key *)

(** The positions the key depends on. *)
Definition matters (n i : nat) : Prop := (i < 128 \/ n - 32 <= i)%nat /\ i <> 8%nat /\ i <> 10%nat /\ i <> 11%nat.

Lemma header_eq (p q : bytes) : (20 <= List.length p)%nat -> (20 <= List.length q)%nat ->
  zero_at 11 (zero_at 10 (zero_at 8 (take 20 p))) = zero_at 11 (zero_at 10 (zero_at 8 (take 20 q))) <->
  forall i, (i < 20)%nat -> i <> 8%nat -> i <> 10%nat -> i <> 11%nat -> p !! i = q !! i.
Proof.
  intros P Q. unfold zero_at. split.
  - intros E i I N1 N2 N3. apply (f_equal (fun l => l !! i)) in E. rewrite !list_lookup_insert_ne in E by done. by rewrite !lookup_take_lt in E by done.
  - intros E. apply list_eq. intros i. destruct (decide (i < 20)%nat) as [I|I]; [|by rewrite !lookup_ge_None_2 by (rewrite !length_insert, length_take; lia)].
    assert (LE : forall (l : bytes) k, (20 <= List.length l)%nat -> (k < 20)%nat -> (k < List.length (take 20 l))%nat) by (intros; rewrite length_take; lia).
    destruct (decide (i = 11)%nat) as [->|N3]; [by rewrite !list_lookup_insert_eq by (rewrite !length_insert; apply LE; lia)|].
    rewrite !(list_lookup_insert_ne _ 11) by done.
    destruct (decide (i = 10)%nat) as [->|N2]; [by rewrite !list_lookup_insert_eq by (rewrite !length_insert; apply LE; lia)|].
    rewrite !(list_lookup_insert_ne _ 10) by done.
    destruct (decide (i = 8)%nat) as [->|N1]; [by rewrite !list_lookup_insert_eq by (apply LE; lia)|].
    rewrite !(list_lookup_insert_ne _ 8) by done. rewrite !lookup_take_lt by done. by apply E.
Qed.

Lemma slice_eq (p q : bytes) a n : List.length p = List.length q -> take n (drop a p) = take n (drop a q) <-> forall i, (a <= i < a + n)%nat -> p !! i = q !! i.
Proof.
  intros L. split.
  - intros E i I. apply (f_equal (fun l => l !! (i - a)%nat)) in E. rewrite !lookup_take_lt, !lookup_drop in E by lia. by replace (a + (i - a))%nat with i in E by lia.
  - intros E. apply list_eq. intros i. destruct (decide (i < n)%nat) as [I|I]; [rewrite !lookup_take_lt, !lookup_drop by done; apply E; lia|].
    by rewrite !lookup_take_ge by lia.
Qed.

Lemma key_writes_long p : (20 <= List.length p)%nat ->
  key_writes p = WSlice (zero_at 11 (zero_at 10 (zero_at 8 (take 20 p)))) ::
    (if (20 <? Nat.min (List.length p) 128)%nat then [WSlice (take (Nat.min (List.length p) 128 - 20) (drop 20 p))] else []) ++
    (if (128 <? List.length p)%nat then [WSlice (drop (List.length p - 32) p)] else []) ++ [WLen (len p)].
Proof. intros P. unfold key_writes. by rewrite (proj2 (Nat.leb_le _ _)) by lia. Qed.

Lemma key_writes_length p q : (20 <= List.length p)%nat -> (20 <= List.length q)%nat -> key_writes p = key_writes q -> List.length p = List.length q.
Proof.
  intros P Q E. rewrite !key_writes_long, !app_comm_cons, !app_assoc in E by done. apply (f_equal last) in E. rewrite !last_snoc in E.
  injection E as E. unfold len in E. lia.
Qed.

Lemma tail_eq (p q : bytes) a : List.length p = List.length q -> drop a p = drop a q <-> forall i, (a <= i)%nat -> p !! i = q !! i.
Proof.
  intros L. split.
  - intros E i I. apply (f_equal (fun l => l !! (i - a)%nat)) in E. rewrite !lookup_drop in E. by replace (a + (i - a))%nat with i in E by lia.
  - intros E. apply list_eq. intros i. rewrite !lookup_drop. apply E. lia.
Qed.

Lemma key_writes_agree p q i : (20 <= List.length p)%nat -> (20 <= List.length q)%nat -> key_writes p = key_writes q ->
  matters (List.length p) i -> p !! i = q !! i.
Proof.
  intros P Q E ([I|I] & N1 & N2 & N3); pose proof (key_writes_length p q P Q E) as L; rewrite !key_writes_long, <- L in E by done; injection E as E1 E2;
    pose proof (proj1 (header_eq p q P Q) E1) as H; (destruct (decide (i < 20)%nat) as [K|K]; [by apply H|]);
    (destruct (decide (i < List.length p)%nat) as [M|M]; [|by rewrite !lookup_ge_None_2 by lia]); rewrite (proj2 (Nat.ltb_lt _ _)) in E2 by lia; injection E2 as E2 E3.
  - apply (proj1 (slice_eq p q _ _ L) E2). lia.
  - destruct (Nat.ltb_spec 128 (List.length p)) as [B|B]; [|apply (proj1 (slice_eq p q _ _ L) E2); lia].
    injection E3 as E3. by apply (proj1 (tail_eq p q _ L) E3).
Qed.

Lemma key_writes_same p q : (20 <= List.length p)%nat -> List.length p = List.length q -> (forall i, matters (List.length p) i -> p !! i = q !! i) -> key_writes p = key_writes q.
Proof.
  intros P L E. rewrite !key_writes_long, <- L by lia. f_equal; [f_equal; apply header_eq; [done|lia|intros; apply E; unfold matters; lia]|].
  f_equal; [case_match; [|done]; do 2 f_equal; apply slice_eq; [done|intros; apply E; unfold matters; lia]|].
  f_equal; [destruct (Nat.ltb_spec 128 (List.length p)); [|done]; do 2 f_equal; apply tail_eq; [done|intros; apply E; unfold matters; lia]|].
  unfold len. by rewrite L.
Qed.

(** Copies of a broadcast are recognised whatever relays did to the time to live and the header
    checksum: for IPv4 packets the key is built from the length, the first 128 bytes without those fields
    and, of a longer packet, the last 32; the bytes between do not count. *)
Theorem bcast_copies_recognised hash p q : (20 <= List.length p)%nat -> (20 <= List.length q)%nat ->
  (key_writes p = key_writes q <-> List.length p = List.length q /\ forall i, matters (List.length p) i -> p !! i = q !! i) /\
  (key_writes p = key_writes q -> make_key hash p = make_key hash q).
Proof.
  intros P Q. split; [|intros E; unfold make_key; by rewrite E]. split.
  - intros E. split; [by apply key_writes_length|]. intros i. by apply key_writes_agree.
  - intros [L E]. by apply key_writes_same.
Qed.

(** ** Witnesses *)

Module BcastRuns.
Definition hash (l : list HashWrite) : Z := foldl (fun acc w => wrap 64 (acc * 31 + match w with WSlice b => be_val b | WLen n => n end)) 7 l.
Definition pkt (ttl : Z) : bytes := [69; 0; 0; 28; 0; 1; 0; 0; ttl; 17; ttl; ttl; 10; 0; 0; 1; 255; 255; 255; 255; 1; 2; 3; 4; 5; 6; 7; 8].
Definition arrivals : list Arrival := [(None, pkt 64, 0); (None, pkt 63, from_millis 1); (Some [1], pkt 64, from_millis 2); (None, pkt 64, from_millis 2000)].

Lemma bcast_refines_history_witness : outputs hash new_dedup arrivals = [true; false; true; true] /\ outputs hash new_dedup arrivals = spec_outputs hash [] arrivals.
Proof.
  split; [by vm_compute|]. apply bcast_refines_history.
  - vm_compute. repeat constructor; intros X; discriminate X.
  - vm_compute. repeat constructor; intros X; discriminate X.
Defined.

Lemma bcast_copies_recognised_witness : make_key hash (pkt 64) = make_key hash (pkt 63).
Proof. apply (bcast_copies_recognised hash (pkt 64) (pkt 63)); [cbn; lia|cbn; lia|by vm_compute]. Defined.
End BcastRuns.
