(* ===== verification/PaceClock.v ===== *)
(** * The pacing clock (src/net/pace_clock.rs)

    The thread that wakes the pacing worker: its settings and its loop.  The readings of the clock and of
    the stop flag, the shared settings as the loop loads them and the state of the channel are arguments;
    a run keeps the ticks it tried to send, with their deadlines and the last reading before.  The portable
    waits are modelled; those of Windows differ only in the system call that sleeps.

    [pace_clock_sound] shows that no tick is early, that deadlines do not drift, and when the fallback tick
    may be used; [pace_clock_runs] that every wait ends once the clock passes its deadline. *)

From S2P Require Import Prelude Text.
From Stdlib Require Import Ascii String.
#[local] Open Scope Z_scope.

Definition MIN_PACE_TICK_US : Z := 1.
Definition PACE_CLOCK_ADAPTIVE_THRESHOLD : Z := 40.

(** ** Settings *)

Record PaceClockApply := mkApply { pa_spin_window_us : Z; pa_fab_enabled : bool; pa_fab_fallback_us : Z }.
Definition default_apply : PaceClockApply := mkApply 100 true 750.

(** The fields of [NetworkConfig] that are read here; the numbers are signed. *)
Record ClockConfig := mkClockConfig {
  cc_pace_tick_us : Z; cc_pace_clock_mode : bytes; cc_pace_spin_window_us : Z; cc_pace_fab_enabled : bool; cc_pace_fab_fallback_tick_us : Z
}.

Definition clamp_tick_us (tick : Z) : Z := Z.min (Z.max tick MIN_PACE_TICK_US) 1000000.
Definition clamp_spin_window_us (tick_us spin : Z) : Z := Z.min spin (Z.max tick_us MIN_PACE_TICK_US).

(** [to_ascii_lowercase]. *)
Definition ascii_lower (l : bytes) : bytes := (fun b => if (65 <=? b) && (b <=? 90) then b + 32 else b) <$> l.

Definition spin_window_from_config (cfg : ClockConfig) (tick_us : Z) : Z :=
  let mode := ascii_lower (trim (cc_pace_clock_mode cfg)) in
  let raw := Z.max (cc_pace_spin_window_us cfg) 0 in
  if bool_decide (mode = str_bytes "spin") then clamp_spin_window_us tick_us raw
  else if bool_decide (mode = str_bytes "hr") then 0
  else clamp_spin_window_us tick_us raw.

Definition from_network_config (cfg : ClockConfig) : PaceClockApply :=
  let tick := clamp_tick_us (Z.max (cc_pace_tick_us cfg) 1) in
  mkApply (spin_window_from_config cfg tick) (cc_pace_fab_enabled cfg) (Z.max (cc_pace_fab_fallback_tick_us cfg) 1).

Definition pace_spin_prompt_values (cfg : ClockConfig) (tick_us : Z) : Z * Z :=
  let stored := clamp_spin_window_us tick_us (Z.max (cc_pace_spin_window_us cfg) 0) in
  let effective := spin_window_from_config cfg tick_us in
  let current := if (effective =? 0) && (0 <? stored) then stored else effective in
  let default := if 0 <? stored then stored else clamp_spin_window_us tick_us 100 in
  (current, default).

Record PaceClockShared := mkShared {
  ps_tick_us : Z; ps_spin_window_us : Z; ps_fab_enabled : bool; ps_fab_fallback_us : Z; ps_apd_pure_spin : bool; ps_apd_tick_us : Z
}.
Definition new_shared (apply : PaceClockApply) (initial_tick_us : Z) : PaceClockShared :=
  mkShared initial_tick_us (pa_spin_window_us apply) (pa_fab_enabled apply) (pa_fab_fallback_us apply) false 0.
Definition load_apply (s : PaceClockShared) : PaceClockApply := mkApply (ps_spin_window_us s) (ps_fab_enabled s) (ps_fab_fallback_us s).
Definition store_apply (s : PaceClockShared) (a : PaceClockApply) : PaceClockShared :=
  mkShared (ps_tick_us s) (pa_spin_window_us a) (pa_fab_enabled a) (pa_fab_fallback_us a) (ps_apd_pure_spin s) (ps_apd_tick_us s).

(** ** The loop *)

Inductive SendOutcome := Sent | Full | Closed.

(** A tick handed to the channel: its deadline, how much the deadline was moved for it, the last reading of
    the clock, and whether the channel took it. *)
Record Tick := mkTick { tk_deadline : Instant; tk_step : Duration; tk_at : Instant; tk_outcome : SendOutcome }.

Record ClockRun := mkClock {
  ck_reads : nat; ck_polls : nat; ck_deadline : Instant; ck_streak : Z; ck_skips : Z; ck_overshoots : Z; ck_fallbacks : Z; ck_ticks : list Tick
}.
#[export] Instance eta_ClockRun : Settable ClockRun :=
  fun r => mkClock (ck_reads r) (ck_polls r) (ck_deadline r) (ck_streak r) (ck_skips r) (ck_overshoots r) (ck_fallbacks r) (ck_ticks r).

Section Clock.
(** The readings of the clock and of the stop flag, the settings of the [i]-th round and the channel then. *)
Variable clock : nat -> Instant.
Variable stop : nat -> bool.
Variable shared : nat -> PaceClockShared.
Variable channel : nat -> SendOutcome.

Definition read (r : ClockRun) : Instant * ClockRun := (clock (ck_reads r), r <| ck_reads := S (ck_reads r) |>).
Definition poll (r : ClockRun) : bool * ClockRun := (stop (ck_polls r), r <| ck_polls := S (ck_polls r) |>).

(** The waits; [None] when [n] rounds did not end them.  [true] means stopped. *)
Fixpoint spin_until (n : nat) (deadline : Instant) (r : ClockRun) : option (bool * ClockRun) :=
  match n with
  | O => None
  | S n =>
      let '(now, r) := read r in
      if now <? deadline then let '(b, r) := poll r in if b then Some (true, r) else spin_until n deadline r
      else Some (poll r)
  end.
Fixpoint sleep_until (n : nat) (deadline : Instant) (r : ClockRun) : option (bool * ClockRun) :=
  match n with
  | O => None
  | S n =>
      let '(b, r) := poll r in
      if b then Some (true, r)
      else let '(now, r) := read r in if deadline <=? now then Some (false, r) else sleep_until n deadline r
  end.

Definition wait_until_deadline (n : nat) (deadline : Instant) (spin_window : Duration) (r : ClockRun) : option (bool * ClockRun) :=
  let '(now, r) := read r in
  if deadline <=? now then Some (poll r)
  else
    let remaining := duration_since deadline now in
    if spin_window =? 0 then sleep_until n deadline r
    else if remaining <=? spin_window then spin_until n deadline r
    else
      '(b, r) ← sleep_until n (deadline - spin_window) r;
      if b : bool then Some (true, r) else spin_until n deadline r.

(** The wait of one round, with the step of the deadline. *)
Definition round_wait (n : nat) (s : PaceClockShared) (r : ClockRun) : option (bool * Duration * ClockRun) :=
  let base_tick_us := Z.max (ps_tick_us s) MIN_PACE_TICK_US in
  if ps_apd_pure_spin s then
    let step := from_micros (if 0 <? ps_apd_tick_us s then ps_apd_tick_us s else base_tick_us) in
    let r := r <| ck_deadline := ck_deadline r + step |> <| ck_streak := 0 |> in
    '(b, r) ← spin_until n (ck_deadline r) r;
    Some (b, step, r)
  else
    let fab_us := Z.max (ps_fab_fallback_us s) 1 in
    let fallback := ps_fab_enabled s && (PACE_CLOCK_ADAPTIVE_THRESHOLD <=? ck_streak r) in
    let step := from_micros (if fallback then fab_us else base_tick_us) in
    let r := if fallback then r <| ck_streak := 0 |> <| ck_fallbacks := ck_fallbacks r + 1 |> else r in
    let r := r <| ck_deadline := ck_deadline r + step |> in
    let '(now, r) := read r in
    let spin_window := from_micros (clamp_spin_window_us base_tick_us (ps_spin_window_us s)) in
    if ck_deadline r <=? now then
      let r := if spin_window <? duration_since now (ck_deadline r)
               then r <| ck_streak := sat_add U32_MAX (ck_streak r) 1 |> <| ck_overshoots := ck_overshoots r + 1 |>
               else r <| ck_streak := sat_sub (ck_streak r) 1 |> in
      Some (false, step, r)
    else
      '(b, r) ← wait_until_deadline n (ck_deadline r) spin_window r;
      Some (b, step, if b : bool then r else r <| ck_streak := sat_sub (ck_streak r) 1 |>).

(** The loop from round [i] on, for at most [k] rounds; [true] when it ended. *)
Fixpoint pace_clock_main_loop (n k i : nat) (r : ClockRun) : option (bool * ClockRun) :=
  match k with
  | O => Some (false, r)
  | S k =>
      let '(b, r) := poll r in
      if b then Some (true, r)
      else
        '(b, step, r) ← round_wait n (shared i) r;
        if b : bool then Some (true, r)
        else
          let r := r <| ck_ticks := ck_ticks r ++ [mkTick (ck_deadline r) step (clock (ck_reads r - 1)) (channel i)] |> in
          match channel i with
          | Sent => pace_clock_main_loop n k (S i) r
          | Full => pace_clock_main_loop n k (S i) (r <| ck_skips := ck_skips r + 1 |>)
          | Closed => Some (true, r)
          end
  end.

Definition clock_start : ClockRun := mkClock 1 0 (clock 0) 0 0 0 0 [].
End Clock.

(** ** Waits *)

Section Waits.
Variable clock : nat -> Instant.
Variable stop : nat -> bool.

(** A wait only reads. *)
Definition only_reads (r r' : ClockRun) : Prop :=
  (ck_reads r <= ck_reads r')%nat /\ r' = r <| ck_reads := ck_reads r' |> <| ck_polls := ck_polls r' |>.
#[local] Instance only_reads_refl : Reflexive only_reads.
Proof. intros r. split; [done|by destruct r]. Qed.
#[local] Instance only_reads_trans : Transitive only_reads.
Proof. intros a b c [L E] [L' E']. split; [lia|]. rewrite E', E. by destruct a. Qed.

Lemma read_only r now r' : read clock r = (now, r') -> only_reads r r' /\ now = clock (ck_reads r' - 1) /\ (0 < ck_reads r')%nat.
Proof. intros E. injection E as <- <-. split_and!; cbn; [split; cbn; [lia|by destruct r]|by rewrite Nat.sub_0_r|lia]. Qed.
Lemma poll_only r b r' : poll stop r = (b, r') -> only_reads r r' /\ ck_reads r' = ck_reads r.
Proof. intros E. injection E as <- <-. split; [split; cbn; [lia|by destruct r]|done]. Qed.

(** A wait that was not stopped has seen its deadline pass. *)
Definition waited (deadline : Instant) (r r' : ClockRun) (b : bool) : Prop :=
  only_reads r r' /\ (b = false -> deadline <= clock (ck_reads r' - 1)).

Lemma spin_waited n deadline : forall r b r', spin_until clock stop n deadline r = Some (b, r') -> waited deadline r r' b.
Proof.
  induction n as [|n IH]; intros r b r'; cbn [spin_until]; [done|]. destruct (read clock r) as [now r1] eqn:E1. apply read_only in E1 as (K1 & N & P).
  destruct (Z.ltb_spec now deadline) as [L|L]; destruct (poll stop r1) as [b2 r2] eqn:E2; apply poll_only in E2 as [K2 Q].
  - destruct b2; [intros E; injection E as <- <-; split; [by etrans|done]|]. intros E. apply IH in E as [K3 D]. split; [|done]. etrans; [exact K1|by etrans].
  - intros E. injection E as <- <-. split; [by etrans|]. intros _. rewrite Q. lia.
Qed.

Lemma sleep_waited n deadline : forall r b r', sleep_until clock stop n deadline r = Some (b, r') -> waited deadline r r' b.
Proof.
  induction n as [|n IH]; intros r b r'; cbn [sleep_until]; [done|]. destruct (poll stop r) as [b1 r1] eqn:E1. apply poll_only in E1 as [K1 _].
  destruct b1; [intros E; injection E as <- <-; by split|]. destruct (read clock r1) as [now r2] eqn:E2. apply read_only in E2 as (K2 & N & P).
  destruct (Z.leb_spec deadline now) as [L|L].
  - intros E. injection E as <- <-. split; [by etrans|]. intros _. lia.
  - intros E. apply IH in E as [K3 D]. split; [|done]. etrans; [exact K1|by etrans].
Qed.

Lemma deadline_waited n deadline w r b r' : wait_until_deadline clock stop n deadline w r = Some (b, r') -> waited deadline r r' b.
Proof.
  unfold wait_until_deadline. destruct (read clock r) as [now r1] eqn:E1. apply read_only in E1 as (K1 & N & P).
  destruct (Z.leb_spec deadline now) as [L|L].
  - intros E. apply (inj Some) in E. destruct (poll_only _ _ _ E) as [K2 Q]. split; [by etrans|]. intros _. rewrite Q. lia.
  - destruct (w =? 0); [intros E; apply sleep_waited in E as [K2 D]; split; [by etrans|done]|].
    destruct (_ <=? w); [intros E; apply spin_waited in E as [K2 D]; split; [by etrans|done]|].
    destruct (sleep_until _ _ _ _ r1) as [[b2 r2]|] eqn:E2; [|done]. cbn [mbind option_bind]. apply sleep_waited in E2 as [K2 _].
    destruct b2; [intros E; injection E as <- <-; split; [by etrans|done]|]. intros E. apply spin_waited in E as [K3 D]. split; [|done]. etrans; [exact K1|by etrans].
Qed.

(** ** Waits end *)

Lemma spin_some deadline m : forall r, (exists j, (j < m)%nat /\ deadline <= clock (ck_reads r + j)%nat) -> is_Some (spin_until clock stop m deadline r).
Proof.
  induction m as [|m IH]; intros r (j & J & D); [lia|]. cbn [spin_until read]. destruct (Z.ltb_spec (clock (ck_reads r)) deadline) as [L|L]; [|done].
  cbn [poll]. destruct (stop _); [done|]. apply IH. destruct j as [|j]; [rewrite Nat.add_0_r in D; lia|]. exists j. split; [lia|]. cbn.
  by replace (S (ck_reads r + j))%nat with (ck_reads r + S j)%nat by lia.
Qed.

Lemma sleep_some deadline m : forall r, (exists j, (j < m)%nat /\ deadline <= clock (ck_reads r + j)%nat) -> is_Some (sleep_until clock stop m deadline r).
Proof.
  induction m as [|m IH]; intros r (j & J & D); [lia|]. cbn [sleep_until poll]. destruct (stop _); [done|]. cbn [read].
  destruct (Z.leb_spec deadline (clock (ck_reads r))) as [L|L]; [cbn; by rewrite (proj2 (Z.leb_le _ _) L)|]. cbn. rewrite (proj2 (Z.leb_gt _ _) L).
  apply IH. destruct j as [|j]; [rewrite Nat.add_0_r in D; lia|]. exists j. split; [lia|]. cbn. by replace (S (ck_reads r + j))%nat with (ck_reads r + S j)%nat by lia.
Qed.

(** Over [n] readings the clock advances by at least [B], and it never goes back. *)
Variable n : nat.
Variable B : Duration.
Hypothesis clock_mono : forall i j, (i <= j)%nat -> clock i <= clock j.
Hypothesis clock_advances : forall i, clock i + B <= clock (i + n)%nat.

Lemma deadline_read deadline (r : ClockRun) i : (i <= ck_reads r)%nat -> deadline <= clock i + B -> exists j, (j < S n)%nat /\ deadline <= clock (ck_reads r + j)%nat.
Proof. intros I D. exists n. split; [lia|]. pose proof (clock_advances i). pose proof (clock_mono (i + n) (ck_reads r + n) ltac:(lia)). lia. Qed.

Lemma wait_ends deadline w r i : (i <= ck_reads r)%nat -> deadline <= clock i + B -> 0 <= w -> is_Some (wait_until_deadline clock stop (S n) deadline w r).
Proof.
  intros I D W. unfold wait_until_deadline. cbn [read]. destruct (_ <=? _); [done|]. set (r1 := r <| ck_reads := _ |>).
  assert (I1 : (i <= ck_reads r1)%nat) by (cbn; lia). destruct (w =? 0); [by apply sleep_some, (deadline_read _ _ i)|].
  destruct (_ <=? w); [by apply spin_some, (deadline_read _ _ i)|].
  destruct (sleep_some (deadline - w) (S n) r1) as [[b r2] E]; [apply (deadline_read _ _ i); [done|lia]|]. rewrite E. cbn [mbind option_bind].
  destruct b; [done|]. apply spin_some, (deadline_read _ _ i); [|done]. apply sleep_waited in E as [[L _] _]. lia.
Qed.
End Waits.

(** ** Rounds *)

(** Each fallback was paid for with forty overshoots. *)
Definition budget (r : ClockRun) : Prop := 0 <= ck_streak r /\ PACE_CLOCK_ADAPTIVE_THRESHOLD * ck_fallbacks r + ck_streak r <= ck_overshoots r.

Lemma only_reads_fields r r' : only_reads r r' -> ck_deadline r' = ck_deadline r /\ ck_streak r' = ck_streak r /\ ck_skips r' = ck_skips r /\
  ck_overshoots r' = ck_overshoots r /\ ck_fallbacks r' = ck_fallbacks r /\ ck_ticks r' = ck_ticks r.
Proof. intros [_ ->]. by destruct r. Qed.

(** What one round does before it sends. *)
Record round_ok (clock : nat -> Instant) (r : ClockRun) (b : bool) (step : Duration) (r' : ClockRun) : Prop := {
  ro_step : from_micros 1 <= step;
  ro_deadline : ck_deadline r' = ck_deadline r + step;
  ro_waited : b = false -> ck_deadline r' <= clock (ck_reads r' - 1)%nat;
  ro_kept : ck_ticks r' = ck_ticks r /\ ck_skips r' = ck_skips r;
  ro_reads : (ck_reads r <= ck_reads r')%nat;
  ro_budget : budget r -> budget r'
}.

Lemma micros_one z : 1 <= z -> from_micros 1 <= from_micros z.
Proof. unfold from_micros. lia. Qed.

Lemma round_spec clock stop n s r b step r' : round_wait clock stop n s r = Some (b, step, r') -> round_ok clock r b step r'.
Proof.
  unfold round_wait. set (base := Z.max (ps_tick_us s) MIN_PACE_TICK_US). assert (B1 : 1 <= base) by (unfold base, MIN_PACE_TICK_US; lia).
  destruct (ps_apd_pure_spin s).
  - set (st := from_micros _). assert (S1 : from_micros 1 <= st) by (apply micros_one; destruct (Z.ltb_spec 0 (ps_apd_tick_us s)); lia).
    set (r1 := r <| ck_deadline := _ |> <| ck_streak := 0 |>). destruct (spin_until _ _ _ _ r1) as [[b2 r2]|] eqn:E; [|done]. cbn [mbind option_bind].
    intros X. injection X as <- <- <-. apply spin_waited in E as [K W]. pose proof (only_reads_fields _ _ K) as (F1 & F2 & F3 & F4 & F5 & F6). destruct K as [K _].
    split; [done|exact F1|intros Z0; rewrite F1; exact (W Z0)|split; [exact F6|exact F3]|exact K|]. unfold budget, PACE_CLOCK_ADAPTIVE_THRESHOLD. rewrite F2, F4, F5. cbn. lia.
  - set (fb := ps_fab_enabled s && _). set (st := from_micros _). assert (S1 : from_micros 1 <= st) by (apply micros_one; destruct fb; lia).
    set (r1 := if fb then _ else r).
    assert (R1 : ck_deadline r1 = ck_deadline r /\ ck_ticks r1 = ck_ticks r /\ ck_skips r1 = ck_skips r /\ ck_reads r1 = ck_reads r /\ (budget r -> budget r1)).
    { subst r1. destruct fb eqn:FB; [|done]. split_and!; try done. unfold budget, PACE_CLOCK_ADAPTIVE_THRESHOLD in *. cbn.
      apply andb_true_iff in FB as [_ FB]. unfold PACE_CLOCK_ADAPTIVE_THRESHOLD in FB. lia. }
    destruct R1 as (D1 & T1 & K1 & L1 & U1). clearbody r1. cbn [read]. set (w := from_micros (clamp_spin_window_us _ _)).
    set (r2 := (r1 <| ck_deadline := ck_deadline r1 + st |>) <| ck_reads := _ |>). change (ck_deadline r2) with (ck_deadline r1 + st).
    match goal with |- context [?a <=? ?b] => destruct (Z.leb_spec a b) as [L|L] end.
    + intros X. injection X as <- <- <-. match goal with |- context [w <? ?d] => destruct (w <? d) end; cbn in L.
      all: split; cbn; rewrite ?Nat.sub_0_r, ?D1; [done|done|intros _; lia|done|lia|].
      all: intros Z0; apply U1 in Z0; unfold budget, sat_add, sat_sub, U32_MAX in *; cbn; lia.
    + destruct (wait_until_deadline _ _ _ _ _ r2) as [[b3 r3]|] eqn:E; [|done]. cbn [mbind option_bind]. intros X. injection X as <- <- <-.
      apply deadline_waited in E as [K W]. pose proof (only_reads_fields _ _ K) as (F1 & F2 & F3 & F4 & F5 & F6). destruct K as [K _]. cbn in F1, F2, F3, F4, F5, F6, K.
      assert (Q : forall r4, ck_deadline r4 = ck_deadline r3 -> ck_reads r4 = ck_reads r3 -> ck_ticks r4 = ck_ticks r3 -> ck_skips r4 = ck_skips r3 -> (budget r1 -> budget r4) ->
        round_ok clock r b3 st r4).
      { intros r4 Q1 Q2 Q3 Q4 Q5. split; [done|rewrite Q1, F1; lia|intros Z0; rewrite Q1, Q2, F1; by apply W|by rewrite Q3, Q4, F6, F3|rewrite Q2; lia|auto]. }
      destruct b3; apply Q; try done; unfold budget, sat_sub; cbn; rewrite ?F2, ?F4, ?F5; lia.
Qed.

(** ** Runs *)

(** Every deadline is the one before moved by the step of its tick. *)
Fixpoint no_drift (t0 : Instant) (l : list Tick) : Prop :=
  match l with [] => True | t :: l => tk_deadline t = t0 + tk_step t /\ no_drift (tk_deadline t) l end.
Definition end_of (t0 : Instant) (l : list Tick) : Instant := match last l with Some t => tk_deadline t | None => t0 end.

Lemma no_drift_snoc t0 l t : no_drift t0 l -> tk_deadline t = end_of t0 l + tk_step t -> no_drift t0 (l ++ [t]).
Proof.
  revert t0; induction l as [|u l IH]; intros t0 D E; cbn [app no_drift] in *; [by split|]. destruct D as [D1 D2]. split; [done|]. apply IH; [done|].
  unfold end_of in *. rewrite last_cons in E. by destruct (last l).
Qed.

#[export] Instance SendOutcome_eq_dec : EqDecision SendOutcome.
Proof. solve_decision. Defined.
Definition full_count (l : list Tick) : Z := len (filter (fun t => tk_outcome t = Full) l).
Lemma full_count_snoc l t : full_count (l ++ [t]) = full_count l + (if bool_decide (tk_outcome t = Full) then 1 else 0).
Proof. unfold full_count. rewrite filter_app, len_app, filter_cons. case_decide; [by rewrite bool_decide_true|by rewrite bool_decide_false]. Qed.

(** What a run of the clock promises. *)
Record clock_ok (t0 : Instant) (r : ClockRun) : Prop := {
  ok_on_time : Forall (fun t => tk_deadline t <= tk_at t /\ from_micros 1 <= tk_step t) (ck_ticks r);
  ok_no_drift : no_drift t0 (ck_ticks r);
  ok_skips : ck_skips r = full_count (ck_ticks r);
  ok_budget : budget r
}.

Section Runs.
Variable clock : nat -> Instant.
Variable stop : nat -> bool.
Variable shared : nat -> PaceClockShared.
Variable channel : nat -> SendOutcome.

Lemma sent_ok t0 r step r' o : clock_ok t0 r -> ck_deadline r = end_of t0 (ck_ticks r) -> round_ok clock r false step r' ->
  let r2 := r' <| ck_ticks := ck_ticks r' ++ [mkTick (ck_deadline r') step (clock (ck_reads r' - 1)%nat) o] |>
               <| ck_skips := ck_skips r' + (if bool_decide (o = Full) then 1 else 0) |> in
  clock_ok t0 r2 /\ ck_deadline r2 = end_of t0 (ck_ticks r2).
Proof.
  intros [T D S B] E [R1 R2 R3 [R4 R5] R6 R7]. cbn. split; [split|]; cbn.
  - rewrite R4. apply Forall_app. split; [done|]. apply Forall_singleton. cbn. split; [by apply R3|done].
  - rewrite R4. apply no_drift_snoc; [done|]. cbn. by rewrite R2, E.
  - by rewrite R4, R5, S, full_count_snoc.
  - by apply R7.
  - unfold end_of. by rewrite last_snoc.
Qed.

Lemma loop_ok t0 n k : forall i r b r', clock_ok t0 r -> ck_deadline r = end_of t0 (ck_ticks r) ->
  pace_clock_main_loop clock stop shared channel n k i r = Some (b, r') -> clock_ok t0 r'.
Proof.
  induction k as [|k IH]; intros i r b r' O E; cbn [pace_clock_main_loop]; [intros X; by injection X as <- <-|].
  cbn [poll]. destruct (stop _). { intros X. injection X as <- <-. destruct O. by split. }
  set (r1 := r <| ck_polls := _ |>). assert (O1 : clock_ok t0 r1) by (destruct O; by split).
  destruct (round_wait clock stop n (shared i) r1) as [[[b2 step] r2]|] eqn:W; [|done]. cbn [mbind option_bind]. apply round_spec in W.
  destruct b2.
  { intros X. injection X as <- <-. destruct O1 as [T D S B]. destruct W as [_ _ _ [R4 R5] _ R7]. split; [by rewrite R4|by rewrite R4|by rewrite R4, R5|auto]. }
  destruct (sent_ok t0 r1 step r2 (channel i) O1 E W) as [O2 E2]. destruct (channel i).
  - intros X. apply IH in X; [done| |exact E2]. cbn in O2. rewrite Z.add_0_r in O2. exact O2.
  - intros X. by apply IH in X.
  - intros X. injection X as <- <-. cbn in O2. rewrite Z.add_0_r in O2. exact O2.
Qed.

(** Whatever the settings, the channel and the stop flag do, the pacing clock never sends a tick before
    its deadline, every deadline is the previous one plus the tick in effect, at least a microsecond, so
    the clock does not drift, ticks the channel refused are counted as skips, and each use of the fallback
    tick follows forty overshoots of its own. *)
Theorem pace_clock_sound n k b r : pace_clock_main_loop clock stop shared channel n k 0 (clock_start clock) = Some (b, r) ->
  clock_ok (clock 0%nat) r.
Proof.
  intros E. apply (loop_ok (clock 0%nat) n k 0 (clock_start clock) b r); [|done|exact E]. split; cbn; [constructor|done|done|]. unfold budget. cbn. lia.
Qed.

(** The longest step of the settings. *)
Definition step_bound (B : Duration) (s : PaceClockShared) : Prop :=
  from_micros (Z.max (ps_tick_us s) MIN_PACE_TICK_US) <= B /\ from_micros (ps_apd_tick_us s) <= B /\ from_micros (Z.max (ps_fab_fallback_us s) 1) <= B /\ 0 <= ps_spin_window_us s.

Lemma round_ends n B s r : (forall i j, (i <= j)%nat -> clock i <= clock j) -> (forall i, clock i + B <= clock (i + n)%nat) -> step_bound B s ->
  (0 < ck_reads r)%nat -> ck_deadline r <= clock (ck_reads r - 1)%nat -> is_Some (round_wait clock stop (S n) s r).
Proof.
  intros M A (B1 & B2 & B3 & B4) P D. unfold round_wait. destruct (ps_apd_pure_spin s).
  - set (st := from_micros _). assert (S1 : st <= B) by (unfold st; destruct (0 <? _); done). set (r1 := _ <| ck_streak := 0 |>).
    destruct (spin_some clock stop (ck_deadline r1) (S n) r1) as [[b r2] E]; [|by rewrite E].
    apply (deadline_read clock n B M A _ _ (ck_reads r - 1)); cbn; lia.
  - set (fb := ps_fab_enabled s && _). set (st := from_micros (if fb then _ else _)). assert (S1 : st <= B) by (unfold st; destruct fb; done).
    set (r1 := if fb then _ else r). assert (R1 : ck_deadline r1 = ck_deadline r /\ ck_reads r1 = ck_reads r) by (subst r1; by destruct fb).
    destruct R1 as [R1 R2]. clearbody r1. cbn [read]. set (r2 := _ <| ck_reads := _ |>). destruct (ck_deadline r2 <=? _); [by eexists|].
    destruct (wait_ends clock stop n B M A (ck_deadline r2) (from_micros (clamp_spin_window_us (Z.max (ps_tick_us s) MIN_PACE_TICK_US) (ps_spin_window_us s))) r2 (ck_reads r - 1))
      as [[b r3] E]; [cbn; lia|cbn; lia| |by rewrite E].
    unfold clamp_spin_window_us, from_micros, MIN_PACE_TICK_US. lia.
Qed.

Lemma loop_ends n B : (forall i j, (i <= j)%nat -> clock i <= clock j) -> (forall i, clock i + B <= clock (i + n)%nat) -> (forall i, step_bound B (shared i)) ->
  forall k i r, (0 < ck_reads r)%nat -> ck_deadline r <= clock (ck_reads r - 1)%nat -> is_Some (pace_clock_main_loop clock stop shared channel (S n) k i r).
Proof.
  intros M A SB. induction k as [|k IH]; intros i r P D; cbn [pace_clock_main_loop]; [done|]. cbn [poll]. destruct (stop _); [done|].
  set (r1 := r <| ck_polls := _ |>). destruct (round_ends n B (shared i) r1 M A (SB i) P D) as [[[b step] r2] E]. rewrite E. cbn [mbind option_bind].
  apply round_spec in E as [_ R2 R3 _ R6 _]. destruct b; [done|]. cbn in R6. destruct (channel i); [| |done]; (apply IH; [cbn; lia|cbn; by apply R3]).
Qed.

(** The pacing clock does not hang: when the clock never goes back and advances by the longest configured
    step within some number of readings, every wait of every round ends within that many. *)
Theorem pace_clock_runs n B k : (forall i j, (i <= j)%nat -> clock i <= clock j) -> (forall i, clock i + B <= clock (i + n)%nat) ->
  (forall i, step_bound B (shared i)) -> is_Some (pace_clock_main_loop clock stop shared channel (S n) k 0 (clock_start clock)).
Proof. intros M A SB. apply (loop_ends n B); [done..|cbn; lia|done]. Qed.
End Runs.

(** ** A run *)

Module ClockRuns.
Definition clock (i : nat) : Instant := Z.of_nat i * from_micros 10.
Definition stop (i : nat) : bool := false.
Definition shared (i : nat) : PaceClockShared := new_shared default_apply 50.
Definition channel (i : nat) : SendOutcome := if (i =? 1)%nat then Full else Sent.
Definition run : option (bool * ClockRun) := pace_clock_main_loop clock stop shared channel 8 3 0 (clock_start clock).

Lemma pace_clock_sound_witness : exists r, run = Some (false, r) /\ len (ck_ticks r) = 3 /\ ck_skips r = 1 /\ clock_ok (clock 0%nat) r.
Proof.
  unfold run. destruct (pace_clock_main_loop clock stop shared channel 8 3 0 (clock_start clock)) as [[b r]|] eqn:E; [|vm_compute in E; discriminate E]. pose proof (pace_clock_sound clock stop shared channel 8 3 b r E) as O.
  exists r. vm_compute in E. injection E as <- <-. split_and!; [done..|exact O].
Defined.

Lemma pace_clock_runs_witness : is_Some (pace_clock_main_loop clock stop shared channel 76 3 0 (clock_start clock)).
Proof.
  apply (pace_clock_runs clock stop shared channel 75 (from_micros 750) 3).
  - intros i j I. unfold clock, from_micros. lia.
  - intros i. unfold clock, from_micros. lia.
  - intros i. unfold step_bound. vm_compute. repeat split; intros X; discriminate X.
Defined.
End ClockRuns.
