(* ===== verification/Pings.v ===== *)
(** * Pings (the ping, probe and healing code of src/net/engine.rs)

    Pings of the user, congestion probes and healing probes share one table of pending pings.  The state
    here is that table with what belongs to it: the probe-miss streaks, the peers being healed, the
    cooldowns, the routing table the answers feed, and the receive loss reported by peers.  Random ids, the
    outcomes of sends and the clock readings are arguments; packets sent, replies to the user and samples
    for the pacing worker are effects in the result.

    [ping_ids_fresh] shows that an id is always found and never in use; [user_pings_answered] that each
    ping of the user is answered once; [healing_released] that a peer being healed always has a probe under
    way, so that it is never stuck; [sweep_fails_exact] which endpoints a sweep reports as failed; and
    [pong_accepted_iff] which pongs count.  [healed_peer_cooled] shows that a peer that was healed is put on
    cooldown when its other probes time out. *)

From S2P Require Import Prelude Text Float Packet SizeLoss Tuning Paths Routing.
From Stdlib Require Import Ascii String.
#[local] Open Scope Z_scope.

(** ** Payloads *)

Definition ping_payload (id ts : Z) : bytes := le_bytes 8 id ++ le_bytes 8 ts.

Definition decode_ping_payload (body : bytes) : option (Z * Z) :=
  if len body <? 16 then None else Some (le_val (take 8 body), le_val (take 8 (drop 8 body))).

Definition encode_pong_payload (ping_id sender_ts fwd_owd_sample_ms loss_permille : Z) : bytes :=
  le_bytes 8 ping_id ++ le_bytes 8 sender_ts ++ le_bytes 4 (wrap 32 fwd_owd_sample_ms) ++ le_bytes 4 (Z.min loss_permille 1000).

Definition decode_pong_payload (body : bytes) : option (Z * Z * Z * Z) :=
  if negb (len body =? 24) then None
  else Some (le_val (take 8 body), le_val (take 8 (drop 8 body)), swrap 32 (le_val (take 4 (drop 16 body))), Z.min (le_val (take 4 (drop 20 body))) 1000).

(** ** State *)

Inductive PendingPingKind := PingUser (reply : Z) | PingHeal (vip : string) (endpoint : SocketAddr) | PingProbe.

Record PendingPing := mkPing { pp_dest : SocketAddr; pp_allow_ip_match : bool; pp_deadline : Instant; pp_sent_at_ms : Z; pp_kind : PendingPingKind }.

Record PingState := mkPings {
  pg_pending : gmap Z PendingPing; pg_next_id : Z; pg_miss : gmap SocketAddr Z; pg_heal_vips : gset string; pg_cooldown : gmap string Instant;
  pg_routing : RoutingTable; pg_last_seen : gmap SocketAddr Instant; pg_rx_loss : gmap SocketAddr f64
}.
#[export] Instance eta_PingState : Settable PingState :=
  fun s => mkPings (pg_pending s) (pg_next_id s) (pg_miss s) (pg_heal_vips s) (pg_cooldown s) (pg_routing s) (pg_last_seen s) (pg_rx_loss s).

(** The settings that are read here. *)
Record PingConfig := mkPingConfig {
  pc_limits : EngineLimitsTuning; pc_predictive_heal : bool; pc_multipath_core : bool; pc_control_path_race : bool; pc_bandwidth_prober : bool
}.

Inductive PingEffect :=
| ESend (dest : SocketAddr) (pkt : bytes)
| EReply (reply rtt : Z)
| EQueuingDelay (ep : SocketAddr) (qd : f64)
| ECcSample (ep : SocketAddr) (qd loss : f64).

(** ** Ids *)

(** The loop over the counter; [None] when [n] ids were all in use. *)
Fixpoint next_free_id (n : nat) (pending : gmap Z PendingPing) (next : Z) : option (Z * Z) :=
  match n with
  | O => None
  | S n =>
      let next' := Z.max (wrap 64 (next + 1)) 1 in
      if bool_decide (pending !! next = None) then Some (next, next') else next_free_id n pending next'
  end.

(** [draws] are the random numbers, of which sixteen are tried. *)
Definition allocate_ping_id (s : PingState) (draws : list Z) : option (Z * PingState) :=
  match list_find (fun id => id <> 0 /\ pg_pending s !! id = None) (take 16 draws) with
  | Some (_, id) => Some (id, s)
  | None => '(id, next) ← next_free_id (S (size (pg_pending s))) (pg_pending s) (pg_next_id s); Some (id, s <| pg_next_id := next |>)
  end.

(** ** Sending *)

(** What a ping meets: the random numbers for its id and whether the send succeeds. *)
Record PingEnv := mkPingEnv { pe_draws : list Z; pe_sent : bool }.

(** A ping that is filed before it is sent, and removed again when the send fails. *)
Definition send_ping (s : PingState) (dest : SocketAddr) (kind : PendingPingKind) (deadline : Instant) (ts : Z) (env : PingEnv)
  : option (bool * PingState * list PingEffect) :=
  '(id, s) ← allocate_ping_id s (pe_draws env);
  let s := s <| pg_pending := <[id := mkPing dest false deadline ts kind]> (pg_pending s) |> in
  let sent := [ESend dest (frame_compact Ping (ping_payload id ts))] in
  if pe_sent env then Some (true, s, sent) else Some (false, s <| pg_pending := delete id (pg_pending s) |>, sent).

(** The command [PingPeer]: sent first, then filed. *)
Definition ping_peer (s : PingState) (dest : SocketAddr) (timeout_ms reply ts : Z) (now : Instant) (env : PingEnv)
  : option (PingState * list PingEffect) :=
  '(id, s) ← allocate_ping_id s (pe_draws env);
  let sent := [ESend dest (frame_compact Ping (ping_payload id ts))] in
  if negb (pe_sent env) then Some (s, sent ++ [EReply reply (-1)])
  else
    let deadline := now + from_millis (Z.min (Z.max timeout_ms 50) 60000) in
    Some (s <| pg_pending := <[id := mkPing dest true deadline ts (PingUser reply)]> (pg_pending s) |>, sent).

Fixpoint probe_each (deadline : Instant) (ts : Z) (envs : nat -> PingEnv) (i : nat) (endpoints : list SocketAddr) (s : PingState)
  : option (PingState * list PingEffect) :=
  match endpoints with
  | [] => Some (s, [])
  | ep :: endpoints =>
      '(_, s, a) ← send_ping s ep PingProbe deadline ts (envs i);
      '(s, b) ← probe_each deadline ts envs (S i) endpoints s;
      Some (s, a ++ b)
  end.
Definition send_probe_pings_to (s : PingState) (endpoints : list SocketAddr) (ts : Z) (now : Instant) (envs : nat -> PingEnv)
  : option (PingState * list PingEffect) := probe_each (now + from_millis 2000) ts envs 0 endpoints s.

(** The endpoints probed in one tick, and the cursor after it. *)
Definition cc_probe_batch (endpoints : list SocketAddr) (max_per_tick cursor : Z) : list SocketAddr * Z :=
  let n := len endpoints in
  if n =? 0 then ([], cursor)
  else
    let take_n := Z.min n max_per_tick in
    let start := cursor mod n in
    (omap (fun i => endpoints !! Z.to_nat ((start + Z.of_nat i) mod n)) (seq 0 (Z.to_nat take_n)), (start + take_n) mod n).

Section Pings.
Context `{HashIter} (cfg : PingConfig).

Definition send_cc_probes (probe_interval_ms : Z) (s : PingState) (cursor ts : Z) (now : Instant) (envs : nat -> PingEnv)
  : option (PingState * Z * list PingEffect) :=
  if probe_interval_ms =? 0 then Some (s, cursor, [])
  else
    let '(batch, cursor) := cc_probe_batch (push_endpoints_excluding_stale (pg_routing s) []) (el_max_cc_probes_per_tick (pc_limits cfg)) cursor in
    '(s, e) ← send_probe_pings_to s batch ts now envs;
    Some (s, cursor, e).

Definition send_ping_all (s : PingState) (ts : Z) (now : Instant) (envs : nat -> PingEnv) : option (PingState * list PingEffect) :=
  send_probe_pings_to s (push_endpoints_excluding_stale (pg_routing s) []) ts now envs.

(** ** Healing *)

Definition is_heal (p : PendingPing) : bool := match pp_kind p with PingHeal _ _ => true | _ => false end.
Definition heals (vip : string) (p : PendingPing) : bool := match pp_kind p with PingHeal v _ => bool_decide (v = vip) | _ => false end.
Definition any_ping (f : PendingPing -> bool) (pending : gmap Z PendingPing) : bool := existsb (fun x : Z * PendingPing => f x.2) (map_to_list pending).
Definition count_pings (f : PendingPing -> bool) (pending : gmap Z PendingPing) : Z := Z.of_nat (size (filter (fun x => f x.2 = true) pending)).

Definition control_race_dests (s : PingState) (primary : SocketAddr) : list SocketAddr :=
  if negb (pc_multipath_core cfg && pc_control_path_race cfg) then [primary]
  else match control_race_endpoints_for_endpoint (pg_routing s) primary None with [] => [primary] | dests => dests end.

Definition cool (s : PingState) (vip : string) (now : Instant) : PingState :=
  s <| pg_heal_vips := pg_heal_vips s ∖ {[vip]} |> <| pg_cooldown := <[vip := now + from_millis (el_heal_cooldown_ms (pc_limits cfg))]> (pg_cooldown s) |>.

Fixpoint heal_each (vip : string) (ts : Z) (now : Instant) (envs : nat -> PingEnv) (i : nat) (endpoints : list SocketAddr) (s : PingState)
  : option (nat * PingState * list PingEffect) :=
  match endpoints with
  | [] => Some (0%nat, s, [])
  | ep :: endpoints =>
      '(ok, s, a) ← send_ping s ep (PingHeal vip ep) (now + from_millis 750) ts (envs i);
      '(n, s, b) ← heal_each vip ts now envs (S i) endpoints s;
      Some (if ok : bool then S n else n, s, a ++ b)
  end.

Definition spawn_predictive_heal (s : PingState) (vip : string) (ts : Z) (now : Instant) (envs : nat -> PingEnv) : option (PingState * list PingEffect) :=
  if negb (pc_predictive_heal cfg) then Some (s, [])
  else if match pg_cooldown s !! vip with Some until => now <? until | None => false end then Some (s, [])
  else if el_max_pending_heal_probes (pc_limits cfg) <=? count_pings is_heal (pg_pending s) then Some (s, [])
  else if bool_decide (vip ∈ pg_heal_vips s) then Some (s, [])
  else
    let s1 := s <| pg_heal_vips := {[vip]} ∪ pg_heal_vips s |> in
    match re_endpoint <$> rt_table (pg_routing s) !! vip with
    | None => Some (s1 <| pg_heal_vips := pg_heal_vips s1 ∖ {[vip]} |>, [])
    | Some primary =>
        '(probes_sent, s2, e) ← heal_each vip ts now envs 0 (take 3 (control_race_dests s1 primary)) s1;
        Some (if (probes_sent =? 0)%nat then cool s2 vip now else s2, e)
    end.

Definition handle_heal_success (s : PingState) (vip : string) (endpoint : SocketAddr) (rtt_ms : Z) (now : Instant) : PingState :=
  if negb (bool_decide (vip ∈ pg_heal_vips s)) then s
  else
    let s := if any_ping (heals vip) (pg_pending s) then s else s <| pg_heal_vips := pg_heal_vips s ∖ {[vip]} |> in
    let s := s <| pg_cooldown := delete vip (pg_cooldown s) |> in
    s <| pg_routing := heal_note_rtt (pg_routing s) vip endpoint rtt_ms (pc_bandwidth_prober cfg) now |>.

(** ** Answers *)

Definition touch_routing_endpoint (s : PingState) (from : SocketAddr) (now : Instant) : PingState :=
  let s := s <| pg_last_seen := <[from := now]> (pg_last_seen s) |> in
  if is_endpoint_stale (pg_routing s) from then s <| pg_routing := (promote_stale_if_needed (pg_routing s) from now).1 |> else s.

Definition endpoint_to_vip_u32 (s : PingState) (ep : SocketAddr) : option Z := vip ← rt_ep_to_vip (pg_routing s) !! ep; ipv4_to_u32 vip.

(** [x.clamp(lo, hi)] of the difference, after the saturating subtraction of signed numbers. *)
Definition owd_sample (now_ms sender_ts : Z) : Z :=
  clamp (- 2 ^ 31) (2 ^ 31 - 1) (clamp (- 2 ^ 63) (2 ^ 63 - 1) (swrap 64 now_ms - swrap 64 sender_ts)).

Definition handle_ping_body (loss : SizeLossTable) (s : PingState) (body : bytes) (from : SocketAddr) (now : Instant) (now_ms : Z)
  : PingState * list PingEffect :=
  let s := touch_routing_endpoint s from now in
  match decode_ping_payload body with
  | None => (s, [])
  | Some (id, ts) =>
      let permille := match endpoint_to_vip_u32 s from with
                      | Some vip => Z.min (f_round_to_uint U32_MAX (f64_mul (loss_ewma loss vip) (f64_of_Z 1000))) 1000
                      | None => 0
                      end in
      (s, [ESend from (frame_compact Pong (encode_pong_payload id ts (owd_sample now_ms ts) permille))])
  end.

Definition queuing_delay (t : RoutingTable) (ep : SocketAddr) : option (f64 * f64) :=
  vip ← rt_ep_to_vip t !! ep;
  e ← rt_table t !! vip;
  Some (effective_queuing_delay_ms e (cg_owd_prefer_after_samples (rt_congestion t)), re_loss_ewma e).
Definition refresh_fec_qd_cache (s : PingState) (ep : SocketAddr) : list PingEffect :=
  [EQueuingDelay ep (match queuing_delay (pg_routing s) ep with Some x => x.1 | None => f_neg1 end)].
Definition publish_cc_sample_for_endpoint (s : PingState) (ep : SocketAddr) : list PingEffect :=
  match queuing_delay (pg_routing s) ep with Some x => [ECcSample ep x.1 x.2] | None => [ECcSample ep f_neg1 f0] end.

Definition from_ok (p : PendingPing) (from : SocketAddr) : bool :=
  if pp_allow_ip_match p then bool_decide (sa_ip (pp_dest p) = sa_ip from) else bool_decide (pp_dest p = from).

Definition handle_pong_body (s : PingState) (body : bytes) (from : SocketAddr) (now : Instant) (now_ms : Z) : PingState * list PingEffect :=
  match decode_pong_payload body with
  | None => (s, [])
  | Some (id, _, owd, loss_permille) =>
      let s := touch_routing_endpoint s from now in
      match pg_pending s !! id with
      | None => (s, [])
      | Some p =>
          if negb (from_ok p from) then (s, [])
          else
            let s := s <| pg_pending := delete id (pg_pending s) |> <| pg_miss := delete from (pg_miss s) |> in
            let rtt := Z.max (swrap 64 (sat_sub now_ms (pp_sent_at_ms p))) 1 in
            let '(t, updated) := note_rtt (pg_routing s) from rtt None now in
            let t := if updated : bool then (note_fwd_owd t from (f64_of_Z owd) (f64_of_Z rtt) None now).1 else t in
            let s := s <| pg_routing := t |> <| pg_rx_loss := <[from := f64_div (f64_of_Z (Z.min loss_permille 1000)) (f64_of_Z 1000)]> (pg_rx_loss s) |> in
            let e := refresh_fec_qd_cache s from ++ (if updated then publish_cc_sample_for_endpoint s from else []) in
            match pp_kind p with
            | PingUser reply => (s, e ++ [EReply reply rtt])
            | PingHeal vip endpoint => (handle_heal_success s vip endpoint rtt now, e)
            | PingProbe => (s, e)
            end
      end
  end.

(** ** Timeouts *)

Definition record_probe_miss (streak : gmap SocketAddr Z) (dest : SocketAddr) (threshold : Z) : gmap SocketAddr Z * bool :=
  let n := sat_add U32_MAX (default 0 (streak !! dest)) 1 in
  (<[dest := n]> streak, threshold <=? n).

(** One expired ping; [fail_eps] are the endpoints to report. *)
Definition expire_ping (now : Instant) (s : PingState) (fail_eps : gmap SocketAddr ()) (id : Z) : PingState * gmap SocketAddr () * list PingEffect :=
  match pg_pending s !! id with
  | None => (s, fail_eps, [])
  | Some p =>
      let s := s <| pg_pending := delete id (pg_pending s) |> in
      match pp_kind p with
      | PingUser reply => (s, fail_eps, [EReply reply (-1)])
      | PingHeal vip _ => (if any_ping (heals vip) (pg_pending s) then s else cool s vip now, fail_eps, [])
      | PingProbe =>
          let '(miss, failed) := record_probe_miss (pg_miss s) (pp_dest p) (el_probe_miss_fail_threshold (pc_limits cfg)) in
          (s <| pg_miss := miss |>, if failed : bool then <[pp_dest p := ()]> fail_eps else fail_eps, [])
      end
  end.
Fixpoint expire_each (now : Instant) (ids : list Z) (s : PingState) (fail_eps : gmap SocketAddr ()) : PingState * gmap SocketAddr () * list PingEffect :=
  match ids with
  | [] => (s, fail_eps, [])
  | id :: ids =>
      let '(s, fail_eps, a) := expire_ping now s fail_eps id in
      let '(s, fail_eps, b) := expire_each now ids s fail_eps in
      (s, fail_eps, a ++ b)
  end.

(** The endpoints that failed are reported to the routing table; the addresses to heal are returned. *)
Fixpoint fail_each (now : Instant) (eps : list SocketAddr) (s : PingState) : PingState * list string * list PingEffect :=
  match eps with
  | [] => (s, [], [])
  | ep :: eps =>
      let '(t, (vip, needs_heal)) := note_fail (pg_routing s) ep None now in
      let s := s <| pg_routing := t |> in
      let a := refresh_fec_qd_cache s ep in
      let heal := match vip with Some vip => if pc_predictive_heal cfg && needs_heal then [vip] else [] | None => [] end in
      let '(s, vips, b) := fail_each now eps s in
      (s, heal ++ vips, a ++ b)
  end.

Definition expired_ids (s : PingState) (now : Instant) : list Z := (filter (fun x => pp_deadline x.2 <= now) (hm_iter (pg_pending s))).*1.
Definition expire_pending_pings (s : PingState) (now : Instant) : PingState * list string * list PingEffect :=
  let '(s, fail_eps, a) := expire_each now (expired_ids s now) s ∅ in
  let '(s, vips, b) := fail_each now (hm_iter fail_eps).*1 s in
  (s, vips, a ++ b).

Fixpoint heal_all (ts : Z) (now : Instant) (envs : nat -> nat -> PingEnv) (i : nat) (vips : list string) (s : PingState) : option (PingState * list PingEffect) :=
  match vips with
  | [] => Some (s, [])
  | vip :: vips =>
      '(s, a) ← spawn_predictive_heal s vip ts now (envs i);
      '(s, b) ← heal_all ts now envs (S i) vips s;
      Some (s, a ++ b)
  end.

(** The watchdog tick of the loop. *)
Definition ping_watchdog (s : PingState) (ts : Z) (now : Instant) (envs : nat -> nat -> PingEnv) : option (PingState * list PingEffect) :=
  let '(s, vips, a) := expire_pending_pings s now in
  '(s, b) ← heal_all ts now envs 0 vips s;
  Some (s, a ++ b).

(** What the removal of a route and the reset of a session do here. *)
Definition forget_peer (s : PingState) (vip : string) : PingState :=
  s <| pg_cooldown := delete vip (pg_cooldown s) |> <| pg_heal_vips := pg_heal_vips s ∖ {[vip]} |>.
Definition reset_pings (s : PingState) (now : Instant) : PingState := mkPings ∅ (pg_next_id s) ∅ ∅ ∅ (new_table now) ∅ ∅.
End Pings.

(** ** Ids are fresh *)

Definition succ_id (next : Z) : Z := Z.max (wrap 64 (next + 1)) 1.

(** The [k]-th id after [next]: the numbers from 1 to [2^64 - 1] in a circle. *)
Lemma succ_id_spec next : 1 <= next < 2 ^ 64 -> succ_id next = (next mod (2 ^ 64 - 1)) + 1 /\ 1 <= succ_id next < 2 ^ 64.
Proof.
  intros N. unfold succ_id, wrap. destruct (Z.eq_dec next (2 ^ 64 - 1)) as [->|D].
  - replace ((2 ^ 64 - 1 + 1) mod 2 ^ 64) with 0 by (rewrite Z.sub_add, Z.mod_same; lia). rewrite Z.mod_same by lia. lia.
  - rewrite !Z.mod_small by lia. lia.
Qed.

Fixpoint iter_id (k : nat) (next : Z) : Z := match k with O => next | S k => iter_id k (succ_id next) end.
Lemma iter_id_spec k : forall next, 1 <= next < 2 ^ 64 -> iter_id k next = ((next - 1 + Z.of_nat k) mod (2 ^ 64 - 1)) + 1.
Proof.
  induction k as [|k IH]; intros next N; cbn [iter_id]; [rewrite Z.mod_small by lia; lia|]. destruct (succ_id_spec next N) as [E R]. rewrite IH by done.
  f_equal. rewrite E. rewrite Z.add_simpl_r, Zplus_mod_idemp_l. f_equal. lia.
Qed.

Lemma next_free_id_spec pending n : forall next, 
  match next_free_id n pending next with
  | Some (id, next') => pending !! id = None /\ exists k, (k < n)%nat /\ id = iter_id k next /\ next' = succ_id id
  | None => forall k, (k < n)%nat -> is_Some (pending !! iter_id k next)
  end.
Proof.
  induction n as [|n IH]; intros next; cbn [next_free_id]; [intros k K; lia|]. change (Z.max (wrap 64 (next + 1)) 1) with (succ_id next).
  case_bool_decide as E; [split; [done|]; exists 0%nat; split_and!; [lia|done|done]|]. specialize (IH (succ_id next)).
  destruct (next_free_id n pending (succ_id next)) as [[id next']|].
  - destruct IH as (A & k & K & B & C). split; [done|]. exists (S k). split_and!; [lia|done|done].
  - intros [|k] K; [by apply not_eq_None_Some|]. apply IH. lia.
Qed.

Lemma iter_ids_nodup next n : 1 <= next < 2 ^ 64 -> Z.of_nat n <= 2 ^ 64 - 1 -> NoDup ((fun k => iter_id k next) <$> seq 0 n).
Proof.
  intros N L. apply NoDup_fmap_2_strong; [|apply NoDup_seq]. intros i j I J E. rewrite elem_of_seq in I, J. rewrite !iter_id_spec in E by done.
  set (M := 2 ^ 64 - 1) in *. assert (X : (next - 1 + Z.of_nat i) mod M = (next - 1 + Z.of_nat j) mod M) by lia.
  pose proof (Z.div_mod (next - 1 + Z.of_nat i) M ltac:(lia)) as A. pose proof (Z.div_mod (next - 1 + Z.of_nat j) M ltac:(lia)) as B. rewrite X in A.
  assert (D : Z.of_nat i - Z.of_nat j = M * ((next - 1 + Z.of_nat i) / M - (next - 1 + Z.of_nat j) / M)) by lia.
  set (q := (next - 1 + Z.of_nat i) / M - _) in D. clearbody q M. destruct (Z.lt_trichotomy q 0) as [Q|[->|Q]]; [nia|lia|nia].
Qed.

Lemma next_free_id_total pending next : 1 <= next < 2 ^ 64 -> Z.of_nat (size pending) < 2 ^ 64 - 1 ->
  is_Some (next_free_id (S (size pending)) pending next).
Proof.
  intros N L. pose proof (next_free_id_spec pending (S (size pending)) next) as X. destruct (next_free_id _ _ _) as [[id next']|]; [done|]. exfalso.
  assert (S : list_to_set ((fun k => iter_id k next) <$> seq 0 (S (size pending))) ⊆ dom pending).
  { intros x (k & -> & K%elem_of_seq)%elem_of_list_to_set%list_elem_of_fmap. apply elem_of_dom, X. lia. }
  apply subseteq_size in S. rewrite size_list_to_set in S by (apply iter_ids_nodup; lia). rewrite length_fmap, length_seq, size_dom in S. lia.
Qed.

(** A ping always gets an id, whatever the random numbers are and however many pings are pending, and it
    is an id that no pending ping has, so that a pong never meets the wrong ping. *)
Theorem ping_ids_fresh s draws : 1 <= pg_next_id s < 2 ^ 64 -> Z.of_nat (size (pg_pending s)) < 2 ^ 64 - 1 ->
  exists id s', allocate_ping_id s draws = Some (id, s') /\ pg_pending s !! id = None /\ pg_pending s' = pg_pending s /\ 1 <= pg_next_id s' < 2 ^ 64.
Proof.
  intros N L. unfold allocate_ping_id. destruct (list_find _ (take 16 draws)) as [[i id]|] eqn:E.
  - apply list_find_Some in E as (_ & [_ P] & _). by exists id, s.
  - pose proof (next_free_id_spec (pg_pending s) (S (size (pg_pending s))) (pg_next_id s)) as X.
    destruct (next_free_id_total (pg_pending s) (pg_next_id s) N L) as [[id next] F]. rewrite F in *. cbn [mbind option_bind].
    destruct X as (P & k & K & I & ->). exists id, (s <| pg_next_id := succ_id id |>). split_and!; try done.
    + apply succ_id_spec. rewrite I, iter_id_spec by done. pose proof (Z.mod_pos_bound (pg_next_id s - 1 + Z.of_nat k) (2 ^ 64 - 1)). lia.
    + cbn. apply succ_id_spec. rewrite I, iter_id_spec by done. pose proof (Z.mod_pos_bound (pg_next_id s - 1 + Z.of_nat k) (2 ^ 64 - 1)). lia.
Qed.

Lemma allocate_fresh s draws id s' : allocate_ping_id s draws = Some (id, s') -> pg_pending s !! id = None /\ s' = s <| pg_next_id := pg_next_id s' |>.
Proof.
  unfold allocate_ping_id. destruct (list_find _ (take 16 draws)) as [[i id0]|] eqn:E.
  - apply list_find_Some in E as (_ & [_ P] & _). intros X. injection X as <- <-. split; [done|by destruct s].
  - pose proof (next_free_id_spec (pg_pending s) (S (size (pg_pending s))) (pg_next_id s)) as X. destruct (next_free_id _ _ _) as [[id0 next]|]; [|done].
    cbn [mbind option_bind]. intros Y. injection Y as <- <-. split; [apply X|done].
Qed.

(** ** Runs *)

(** What the main loop does with pings, in any order; other components change the routing table freely. *)
Inductive PingEvent :=
| PvPeer (dest : SocketAddr) (timeout_ms reply ts : Z) (now : Instant) (env : PingEnv)
| PvProbes (endpoints : list SocketAddr) (ts : Z) (now : Instant) (envs : nat -> PingEnv)
| PvHeal (vip : string) (ts : Z) (now : Instant) (envs : nat -> PingEnv)
| PvPing (loss : SizeLossTable) (body : bytes) (from : SocketAddr) (now : Instant) (now_ms : Z)
| PvPong (body : bytes) (from : SocketAddr) (now : Instant) (now_ms : Z)
| PvWatchdog (ts : Z) (now : Instant) (envs : nat -> nat -> PingEnv)
| PvForget (vip : string)
| PvRouting (t : RoutingTable).

Section Runs.
Context `{HashIter} (cfg : PingConfig).

Definition ping_step (s : PingState) (e : PingEvent) : option (PingState * list PingEffect) :=
  match e with
  | PvPeer dest timeout_ms reply ts now env => ping_peer s dest timeout_ms reply ts now env
  | PvProbes endpoints ts now envs => send_probe_pings_to s endpoints ts now envs
  | PvHeal vip ts now envs => spawn_predictive_heal cfg s vip ts now envs
  | PvPing loss body from now now_ms => Some (handle_ping_body loss s body from now now_ms)
  | PvPong body from now now_ms => Some (handle_pong_body cfg s body from now now_ms)
  | PvWatchdog ts now envs => ping_watchdog cfg s ts now envs
  | PvForget vip => Some (forget_peer s vip, [])
  | PvRouting t => Some (s <| pg_routing := t |>, [])
  end.
Fixpoint ping_run (s : PingState) (es : list PingEvent) : option (PingState * list PingEffect) :=
  match es with
  | [] => Some (s, [])
  | e :: es => '(s, a) ← ping_step s e; '(s, b) ← ping_run s es; Some (s, a ++ b)
  end.

(** The pings of the user: asked for, answered, and still pending. *)
Definition asked (es : list PingEvent) : list Z := omap (fun e => match e with PvPeer _ _ reply _ _ _ => Some reply | _ => None end) es.
Definition answered (l : list PingEffect) : list Z := omap (fun e => match e with EReply reply _ => Some reply | _ => None end) l.
Definition user_of (p : PendingPing) : option Z := match pp_kind p with PingUser reply => Some reply | _ => None end.
Definition users (pending : gmap Z PendingPing) : list Z := omap (fun x : Z * PendingPing => user_of x.2) (map_to_list pending).

Lemma users_insert pending id p : pending !! id = None -> users (<[id := p]> pending) ≡ₚ option_list (user_of p) ++ users pending.
Proof. intros N. unfold users. rewrite map_to_list_insert by done. cbn. by destruct (user_of p). Qed.
Lemma users_delete pending id p : pending !! id = Some p -> users pending ≡ₚ option_list (user_of p) ++ users (delete id pending).
Proof. intros L. rewrite <- (insert_delete_id pending id p L) at 1. apply users_insert, lookup_delete_eq. Qed.
Lemma replies_app a b : answered (a ++ b) = answered a ++ answered b.
Proof. apply omap_app. Qed.

(** What any operation here may do to the table of pending pings. *)
Lemma send_ping_cases s dest kind deadline ts env ok s' e : send_ping s dest kind deadline ts env = Some (ok, s', e) ->
  answered e = [] /\ exists id, pg_pending s !! id = None /\
    s' = s <| pg_next_id := pg_next_id s' |> <| pg_pending := if ok : bool then <[id := mkPing dest false deadline ts kind]> (pg_pending s) else pg_pending s |>.
Proof.
  unfold send_ping. destruct (allocate_ping_id s (pe_draws env)) as [[id s1]|] eqn:A; [|done]. apply allocate_fresh in A as [F A]. cbn [mbind option_bind].
  destruct (pe_sent env); intros X; injection X as <- <- <-; (split; [done|]; exists id; split; [done|]); rewrite A; [done|].
  cbn. by rewrite delete_insert_id.
Qed.

(** *** Moves

    Every operation is a sequence of moves on the table of pending pings and the set of peers being healed;
    a move notes which pings of the user it takes in and which it answers. *)

Definition heal_vip (p : PendingPing) : option string := match pp_kind p with PingHeal vip _ => Some vip | _ => None end.
Definition release (pending : gmap Z PendingPing) (vip : string) (healing : gset string) : gset string :=
  if any_ping (heals vip) pending then healing else healing ∖ {[vip]}.

Inductive move : gmap Z PendingPing * gset string -> list Z -> list Z -> gmap Z PendingPing * gset string -> Prop :=
| MvRefuse x reply : move x [reply] [reply] x
| MvFile m hs id p : m !! id = None -> move (m, hs) (option_list (user_of p)) [] (<[id := p]> m, hs)
| MvDone m hs id p : m !! id = Some p -> heal_vip p = None -> move (m, hs) [] (option_list (user_of p)) (delete id m, hs)
| MvDoneHeal m hs id p vip : m !! id = Some p -> heal_vip p = Some vip -> move (m, hs) [] [] (delete id m, release (delete id m) vip hs)
| MvHeal m hs vip : any_ping (heals vip) m = true -> move (m, hs) [] [] (m, {[vip]} ∪ hs)
| MvForget m hs vip : move (m, hs) [] [] (m, hs ∖ {[vip]}).

Inductive moves : gmap Z PendingPing * gset string -> list Z -> list Z -> gmap Z PendingPing * gset string -> Prop :=
| MvsNil x : moves x [] [] x
| MvsCons x y z a b c d : move x a b y -> moves y c d z -> moves x (a ++ c) (b ++ d) z.

Definition view (s : PingState) : gmap Z PendingPing * gset string := (pg_pending s, pg_heal_vips s).

Lemma moves_single x a b y : move x a b y -> moves x a b y.
Proof. intros M. rewrite <- (app_nil_r a), <- (app_nil_r b). eapply MvsCons; [done|constructor]. Qed.
Lemma moves_app x a b y c d z : moves x a b y -> moves y c d z -> moves x (a ++ c) (b ++ d) z.
Proof. induction 1; intros N; [done|]. rewrite <- !app_assoc. econstructor; eauto. Qed.
Lemma moves_then x b y d z : moves x [] b y -> moves y [] d z -> moves x [] (b ++ d) z.
Proof. apply moves_app. Qed.

Lemma send_ping_moves s dest kind deadline ts env ok s' e : (forall reply, kind <> PingUser reply) -> send_ping s dest kind deadline ts env = Some (ok, s', e) ->
  (forall hs, moves (pg_pending s, hs) [] (answered e) (pg_pending s', hs)) /\ pg_heal_vips s' = pg_heal_vips s.
Proof.
  intros K (A & id & F & E)%send_ping_cases. rewrite A, E. split; [|done]. intros hs. destruct ok; [|apply MvsNil].
  replace [] with (option_list (user_of (mkPing dest false deadline ts kind))) at 1; [by apply moves_single, MvFile|]. destruct kind; [by destruct (K reply)|done|done].
Qed.

Lemma ping_peer_moves s dest timeout_ms reply ts now env s' e : ping_peer s dest timeout_ms reply ts now env = Some (s', e) ->
  moves (view s) [reply] (answered e) (view s').
Proof.
  unfold ping_peer. destruct (allocate_ping_id s (pe_draws env)) as [[id s1]|] eqn:A; [|done]. apply allocate_fresh in A as [F A]. cbn [mbind option_bind].
  destruct (pe_sent env); cbn [negb]; intros X; injection X as <- <-; rewrite A; cbn; apply moves_single; [|apply MvRefuse].
  set (p := mkPing _ _ _ _ _). change [reply] with (option_list (user_of p)). by apply MvFile.
Qed.

Lemma probe_each_moves deadline ts envs eps : forall i s s' e, probe_each deadline ts envs i eps s = Some (s', e) -> moves (view s) [] (answered e) (view s').
Proof.
  induction eps as [|ep eps IH]; intros i s s' e; cbn [probe_each]; [intros X; injection X as <- <-; constructor|].
  destruct (send_ping _ _ _ _ _ _) as [[[ok s1] a]|] eqn:S; [|done]. cbn [mbind option_bind]. destruct (probe_each _ _ _ _ _ _) as [[s2 b]|] eqn:P; [|done].
  cbn [mbind option_bind]. intros X. injection X as <- <-. rewrite replies_app. apply send_ping_moves in S as [M V]; [|discriminate]. eapply moves_then; [apply M|]. rewrite <- V. by eapply IH.
Qed.

(** Healing probes: those that went out are pending. *)
Lemma heal_each_moves vip ts now envs eps : forall i s n s' e, heal_each vip ts now envs i eps s = Some (n, s', e) ->
  (forall hs, moves (pg_pending s, hs) [] [] (pg_pending s', hs)) /\ answered e = [] /\ pg_heal_vips s' = pg_heal_vips s /\ pg_pending s ⊆ pg_pending s' /\
  (n <> 0%nat -> exists id p, pg_pending s' !! id = Some p /\ heals vip p = true).
Proof.
  induction eps as [|ep eps IH]; intros i s n s' e; cbn [heal_each].
  { intros X. injection X as <- <- <-. split_and!; [constructor|done..]. }
  destruct (send_ping _ _ _ _ _ _) as [[[ok s1] a]|] eqn:S; [|done]. cbn [mbind option_bind]. destruct (heal_each _ _ _ _ _ _ _) as [[[k s2] b]|] eqn:P; [|done].
  cbn [mbind option_bind]. intros X. injection X as <- <- <-. pose proof (send_ping_moves _ _ (PingHeal vip ep) _ _ _ _ _ _ ltac:(discriminate) S) as [M _].
  apply send_ping_cases in S as (A & id & F & E). apply IH in P as (N & B & V & I & X). split_and!.
  - intros hs. rewrite A in M. by eapply (moves_then _ [] _ []).
  - by rewrite replies_app, A, B.
  - rewrite V, E. done.
  - etrans; [|done]. rewrite E. cbn. destruct ok; [by apply insert_subseteq|done].
  - destruct ok; [|done]. intros _. exists id, (mkPing ep false (now + from_millis 750) ts (PingHeal vip ep)). split.
    + eapply lookup_weaken; [|done]. rewrite E. cbn. apply lookup_insert_eq.
    + unfold heals. cbn. by apply bool_decide_eq_true_2.
Qed.

Lemma any_ping_true f m : any_ping f m = true <-> exists id p, m !! id = Some p /\ f p = true.
Proof.
  unfold any_ping. rewrite existsb_exists. split.
  - intros ([id p] & I%list_elem_of_In%elem_of_map_to_list & F). by exists id, p.
  - intros (id & p & L & F). exists (id, p). split; [|done]. by apply list_elem_of_In, elem_of_map_to_list.
Qed.

Lemma moves_same (x y : gmap Z PendingPing * gset string) : x.1 = y.1 -> x.2 = y.2 -> moves x [] [] y.
Proof. destruct x, y; cbn. intros -> ->. apply MvsNil. Qed.

Lemma spawn_moves s vip ts now envs s' e : spawn_predictive_heal cfg s vip ts now envs = Some (s', e) ->
  moves (view s) [] (answered e) (view s').
Proof.
  unfold spawn_predictive_heal. destruct (negb _); [intros X; injection X as <- <-; constructor|].
  destruct (match pg_cooldown s !! vip with Some until => _ | None => _ end); [intros X; injection X as <- <-; constructor|].
  destruct (_ <=? _); [intros X; injection X as <- <-; constructor|]. case_bool_decide as V; [intros X; injection X as <- <-; constructor|].
  set (s1 := s <| pg_heal_vips := _ |>). destruct (re_endpoint <$> _) as [primary|]; cycle 1.
  { intros X. injection X as <- <-. apply moves_same; [done|]. cbn. set_solver. }
  destruct (heal_each _ _ _ _ _ _ _) as [[[n s2] b]|] eqn:P; [|done]. cbn [mbind option_bind]. intros X. injection X as <- <-.
  apply heal_each_moves in P as (M & -> & W & _ & F). change (pg_pending s1) with (pg_pending s) in M. change (pg_heal_vips s1) with ({[vip]} ∪ pg_heal_vips s) in W.
  apply (moves_then _ [] (pg_pending s2, pg_heal_vips s) []); [apply M|]. destruct n as [|n]; cbn [Nat.eqb].
  - apply moves_same; [done|]. cbn. rewrite W. set_solver.
  - unfold view. rewrite W. apply moves_single, MvHeal, any_ping_true, F. done.
Qed.

Lemma touch_view s from now : view (touch_routing_endpoint s from now) = view s.
Proof. unfold touch_routing_endpoint. by destruct (is_endpoint_stale _ _). Qed.

Lemma heal_success_view s vip endpoint rtt now : view (handle_heal_success cfg s vip endpoint rtt now) = (pg_pending s, release (pg_pending s) vip (pg_heal_vips s)).
Proof.
  unfold handle_heal_success, release. case_bool_decide as V; cbn [negb].
  - by destruct (any_ping _ _).
  - destruct (any_ping _ _); [done|]. unfold view. f_equal. set_solver.
Qed.

Lemma qd_answered s ep : answered (refresh_fec_qd_cache s ep) = [] /\ answered (publish_cc_sample_for_endpoint s ep) = [].
Proof. unfold publish_cc_sample_for_endpoint. split; [done|]. by destruct (queuing_delay _ _). Qed.

Lemma handle_pong_moves s body from now now_ms : let r := handle_pong_body cfg s body from now now_ms in moves (view s) [] (answered r.2) (view r.1).
Proof.
  cbn. unfold handle_pong_body. destruct (decode_pong_payload body) as [[[[id ts] owd] loss]|]; [|constructor].
  rewrite <- (touch_view s from now). set (s1 := touch_routing_endpoint s from now). destruct (pg_pending s1 !! id) as [p|] eqn:L; [|constructor].
  destruct (from_ok p from); [cbn [negb]|constructor]. set (rtt := Z.max _ 1). clearbody rtt. destruct (note_rtt _ _ _ _ _) as [t updated].
  set (t1 := if updated then _ else _). set (s2 := s1 <| pg_pending := _ |> <| pg_miss := _ |> <| pg_routing := _ |> <| pg_rx_loss := _ |>).
  assert (Q : answered (refresh_fec_qd_cache s2 from ++ (if updated then publish_cc_sample_for_endpoint s2 from else [])) = []).
  { rewrite replies_app. destruct (qd_answered s2 from) as [-> P]. by destruct updated. }
  destruct (pp_kind p) as [reply|vip endpoint|] eqn:K; cbn [fst snd].
  - rewrite replies_app, Q. change ([] ++ answered [EReply reply rtt]) with [reply]. apply moves_single.
    replace [reply] with (option_list (user_of p)) by (unfold user_of; by rewrite K). apply MvDone; [done|]. unfold heal_vip. by rewrite K.
  - rewrite Q, heal_success_view. apply moves_single. eapply MvDoneHeal; [done|]. unfold heal_vip. by rewrite K.
  - rewrite Q. apply moves_single. replace [] with (option_list (user_of p)) at 2 by (unfold user_of; by rewrite K). apply MvDone; [done|]. unfold heal_vip. by rewrite K.
Qed.

Lemma expire_ping_moves now s fail_eps id : let r := expire_ping cfg now s fail_eps id in moves (view s) [] (answered r.2) (view r.1.1).
Proof.
  cbn. unfold expire_ping. destruct (pg_pending s !! id) as [p|] eqn:L; [|constructor]. destruct (pp_kind p) as [reply|vip endpoint|] eqn:K; cbn [fst snd].
  - apply moves_single. replace (answered _) with (option_list (user_of p)) by (unfold user_of; by rewrite K). apply MvDone; [done|]. unfold heal_vip. by rewrite K.
  - apply moves_single. match goal with |- move _ _ _ ?y => replace y with (delete id (pg_pending s), release (delete id (pg_pending s)) vip (pg_heal_vips s)) end.
    + eapply MvDoneHeal; [done|]. unfold heal_vip. by rewrite K.
    + unfold release. cbn. by destruct (any_ping _ _).
  - destruct (record_probe_miss _ _ _) as [miss failed]. cbn [fst snd]. apply moves_single.
    replace (answered _) with (option_list (user_of p)) by (unfold user_of; by rewrite K). apply MvDone; [done|]. unfold heal_vip. by rewrite K.
Qed.

Lemma expire_each_moves now ids : forall s fail_eps, let r := expire_each cfg now ids s fail_eps in moves (view s) [] (answered r.2) (view r.1.1).
Proof.
  induction ids as [|id ids IH]; intros s fail_eps; cbn [expire_each]; [constructor|]. pose proof (expire_ping_moves now s fail_eps id) as M. cbn in M |- *.
  destruct (expire_ping cfg now s fail_eps id) as [[s1 f1] a]. specialize (IH s1 f1). cbn in *. destruct (expire_each cfg now ids s1 f1) as [[s2 f2] b]. cbn in *.
  rewrite replies_app. by eapply moves_then.
Qed.

Lemma fail_each_view now eps : forall s, let r := fail_each cfg now eps s in view r.1.1 = view s /\ answered r.2 = [].
Proof.
  induction eps as [|ep eps IH]; intros s; cbn [fail_each]; [done|]. destruct (note_fail _ _ _ _) as [t [vip heal]]. set (s1 := s <| pg_routing := t |>).
  specialize (IH s1). cbn in *. destruct (fail_each cfg now eps s1) as [[s2 vips] b]. cbn in *. done.
Qed.

Lemma expire_moves s now : let r := expire_pending_pings cfg s now in moves (view s) [] (answered r.2) (view r.1.1).
Proof.
  cbn. unfold expire_pending_pings. pose proof (expire_each_moves now (expired_ids s now) s ∅) as M. cbn in M. destruct (expire_each _ _ _ _ _) as [[s1 f1] a].
  pose proof (fail_each_view now (hm_iter f1).*1 s1) as F. cbv zeta in F. destruct (fail_each _ _ _ _) as [[s2 vips] b]. cbn [fst snd] in *. destruct F as [V F].
  by rewrite V, replies_app, F, app_nil_r.
Qed.

Lemma heal_all_moves ts now envs vips : forall i s s' e, heal_all cfg ts now envs i vips s = Some (s', e) -> moves (view s) [] (answered e) (view s').
Proof.
  induction vips as [|vip vips IH]; intros i s s' e; cbn [heal_all]; [intros X; injection X as <- <-; constructor|].
  destruct (spawn_predictive_heal _ _ _ _ _ _) as [[s1 a]|] eqn:S; [|done]. cbn [mbind option_bind]. destruct (heal_all _ _ _ _ _ _ _) as [[s2 b]|] eqn:P; [|done].
  cbn [mbind option_bind]. intros X. injection X as <- <-. rewrite replies_app. eapply moves_then; [by eapply spawn_moves|by eapply IH].
Qed.

Lemma ping_step_moves s e s' l : ping_step s e = Some (s', l) -> moves (view s) (asked [e]) (answered l) (view s').
Proof.
  destruct e; cbn [ping_step].
  - apply ping_peer_moves.
  - apply probe_each_moves.
  - apply spawn_moves.
  - intros X. injection X as X. unfold handle_ping_body in X. destruct (decode_ping_payload body) as [[id ts]|]; injection X as <- <-; rewrite touch_view; constructor.
  - intros X. injection X as X. pose proof (handle_pong_moves s body from now now_ms) as M. rewrite X in M. done.
  - unfold ping_watchdog. pose proof (expire_moves s now) as M. destruct (expire_pending_pings cfg s now) as [[s1 vips] a]. cbn in M.
    destruct (heal_all _ _ _ _ _ _ _) as [[s2 b]|] eqn:P; [|done]. cbn [mbind option_bind]. intros X. injection X as <- <-. rewrite replies_app.
    eapply moves_then; [done|by eapply heal_all_moves].
  - intros X. injection X as <- <-. apply moves_single, MvForget.
  - intros X. injection X as <- <-. apply MvsNil.
Qed.

Lemma ping_run_moves es : forall s s' l, ping_run s es = Some (s', l) -> moves (view s) (asked es) (answered l) (view s').
Proof.
  induction es as [|e es IH]; intros s s' l; cbn [ping_run]; [intros X; injection X as <- <-; constructor|].
  destruct (ping_step s e) as [[s1 a]|] eqn:S; [|done]. cbn [mbind option_bind]. destruct (ping_run s1 es) as [[s2 b]|] eqn:P; [|done]. cbn [mbind option_bind].
  intros X. injection X as <- <-. change (e :: es) with ([e] ++ es). unfold asked. rewrite omap_app, replies_app. eapply moves_app; [by eapply ping_step_moves|by eapply IH].
Qed.

(** *** After the watchdog *)

(** What the watchdog leaves is still to come. *)
Definition later (now : Instant) (s : PingState) : Prop := forall id p, pg_pending s !! id = Some p -> now < pp_deadline p.

Lemma expire_ping_pending now s fail_eps id : pg_pending (expire_ping cfg now s fail_eps id).1.1 = delete id (pg_pending s).
Proof.
  unfold expire_ping. destruct (pg_pending s !! id) as [p|] eqn:L; [|cbn; by rewrite delete_id]. destruct (pp_kind p) as [reply|vip endpoint|]; [done| |].
  - cbn [fst snd]. by destruct (any_ping _ _).
  - by destruct (record_probe_miss _ _ _).
Qed.
Lemma expire_each_pending now ids : forall s fail_eps id, pg_pending (expire_each cfg now ids s fail_eps).1.1 !! id = if bool_decide (id ∈ ids) then None else pg_pending s !! id.
Proof.
  induction ids as [|i ids IH]; intros s fail_eps id; cbn [expire_each]; [done|]. pose proof (expire_ping_pending now s fail_eps i) as P.
  destruct (expire_ping cfg now s fail_eps i) as [[s1 f1] a]. specialize (IH s1 f1 id). destruct (expire_each cfg now ids s1 f1) as [[s2 f2] b]. cbn [fst snd] in *.
  rewrite IH, P. destruct (decide (id = i)) as [->|D].
  - rewrite lookup_delete_eq. rewrite (bool_decide_eq_true_2 (i ∈ i :: ids)) by left. by destruct (bool_decide _).
  - rewrite lookup_delete_ne by done. erewrite (bool_decide_ext (id ∈ i :: ids)); [done|]. set_solver.
Qed.

Lemma elem_of_expired s now id : id ∈ expired_ids s now <-> exists p, pg_pending s !! id = Some p /\ pp_deadline p <= now.
Proof.
  unfold expired_ids. rewrite list_elem_of_fmap. split.
  - intros ([i p] & -> & [D I]%list_elem_of_filter). exists p. split; [by apply hm_iter_elem|done].
  - intros (p & L & D). exists (id, p). split; [done|]. apply list_elem_of_filter. split; [done|by apply hm_iter_elem].
Qed.

Lemma expire_later s now : later now (expire_pending_pings cfg s now).1.1.
Proof.
  unfold expire_pending_pings. pose proof (expire_each_pending now (expired_ids s now) s ∅) as E. destruct (expire_each _ _ _ _ _) as [[s1 f1] a].
  pose proof (fail_each_view now (hm_iter f1).*1 s1) as F. cbv zeta in F. destruct (fail_each _ _ _ _) as [[s2 vips] b]. cbn [fst snd] in *. destruct F as [V _].
  injection V as V _. intros id p. rewrite V, E. case_bool_decide as I; [done|]. intros L. apply Z.nle_gt. intros D. apply I, elem_of_expired. by exists p.
Qed.

Lemma heal_each_later vip ts now envs eps : forall i s n s' e, heal_each vip ts now envs i eps s = Some (n, s', e) -> later now s -> later now s'.
Proof.
  induction eps as [|ep eps IH]; intros i s n s' e; cbn [heal_each]; [intros X; by injection X as <- <- <-|].
  destruct (send_ping _ _ _ _ _ _) as [[[ok s1] a]|] eqn:S; [|done]. cbn [mbind option_bind]. destruct (heal_each _ _ _ _ _ _ _) as [[[k s2] b]|] eqn:P; [|done].
  cbn [mbind option_bind]. intros X L. injection X as <- <- <-. apply (IH _ _ _ _ _ P). apply send_ping_cases in S as (_ & id & F & E). rewrite E.
  intros j p. cbn. destruct ok; [|apply L]. intros [[<- <-]|[_ J]]%lookup_insert_Some; [|by eapply L]. cbn. unfold from_millis. lia.
Qed.
Lemma spawn_later s vip ts now envs s' e : spawn_predictive_heal cfg s vip ts now envs = Some (s', e) -> later now s -> later now s'.
Proof.
  unfold spawn_predictive_heal. destruct (negb _); [intros X; by injection X as <- <-|].
  destruct (match pg_cooldown s !! vip with Some until => _ | None => _ end); [intros X; by injection X as <- <-|].
  destruct (_ <=? _); [intros X; by injection X as <- <-|]. case_bool_decide as V; [intros X; by injection X as <- <-|].
  destruct (re_endpoint <$> _) as [primary|]; [|intros X; by injection X as <- <-]. destruct (heal_each _ _ _ _ _ _ _) as [[[n s2] b]|] eqn:P; [|done].
  cbn [mbind option_bind]. intros X L. injection X as <- <-. apply heal_each_later in P; [|exact L]. by destruct (n =? 0)%nat.
Qed.
Lemma watchdog_later s ts now envs s' e : ping_watchdog cfg s ts now envs = Some (s', e) -> later now s'.
Proof.
  unfold ping_watchdog. pose proof (expire_later s now) as L. destruct (expire_pending_pings cfg s now) as [[s1 vips] a]. cbn [fst snd] in L.
  destruct (heal_all _ _ _ _ _ _ _) as [[s2 b]|] eqn:P; [|done]. cbn [mbind option_bind]. intros X. injection X as <- <-. revert L P. generalize 0%nat. revert s1 b.
  induction vips as [|vip vips IH]; intros s1 b i L; cbn [heal_all]; [intros X; by injection X as <- <-|].
  destruct (spawn_predictive_heal _ _ _ _ _ _) as [[s3 c]|] eqn:S; [|done]. cbn [mbind option_bind]. destruct (heal_all _ _ _ _ _ _ _) as [[s4 d]|] eqn:Q; [|done].
  cbn [mbind option_bind]. intros X. injection X as -> <-. eapply IH; [|exact Q]. by eapply spawn_later.
Qed.

(** *** Every ping of the user is answered once *)

Lemma moves_books x a b y : moves x a b y -> users x.1 ++ a ≡ₚ b ++ users y.1.
Proof.
  induction 1 as [x|x y z a b c d M _ IH]; [by rewrite app_nil_r|]. enough (users x.1 ++ a ≡ₚ b ++ users y.1) as E.
  { rewrite (assoc _), E, <- (assoc _), IH, (assoc _). done. }
  destruct M as [x r|m hs id p F|m hs id p F _|m hs id p vip F V|m hs vip _|m hs vip]; cbn [fst snd].
  - apply (comm (++)).
  - rewrite users_insert by done. rewrite (comm (++)). done.
  - rewrite (users_delete m id p F), app_nil_r. done.
  - rewrite (users_delete m id p F), app_nil_r. unfold heal_vip in V. unfold user_of. by destruct (pp_kind p).
  - by rewrite app_nil_r.
  - by rewrite app_nil_r.
Qed.

(** C22. From a fresh start, after any run of pings, probes, heals, pongs, sweeps and route changes, the pings
    the user asked for are exactly those that were answered and those still pending, each once: none is lost
    and none is answered twice.  A sweep leaves only pings whose deadline is still to come, so that a ping is
    answered at the latest by the first sweep after its deadline. *)
Theorem user_pings_answered es s l : ping_run (mkPings ∅ 1 ∅ ∅ ∅ (new_table 0) ∅ ∅) es = Some (s, l) ->
  asked es ≡ₚ answered l ++ users (pg_pending s) /\
  forall ts now envs s' l', ping_watchdog cfg s ts now envs = Some (s', l') -> later now s'.
Proof. intros R. split; [apply (moves_books _ _ _ _ (ping_run_moves _ _ _ _ R))|intros *; apply watchdog_later]. Qed.

(** *** Healing ends *)

Definition healing_ok (x : gmap Z PendingPing * gset string) : Prop := forall vip, vip ∈ x.2 -> any_ping (heals vip) x.1 = true.

Lemma healing_ok_delete m hs id p (keep : string -> Prop) : m !! id = Some p -> (forall vip, keep vip -> vip ∈ hs) ->
  (forall vip, keep vip -> heal_vip p <> Some vip) -> healing_ok (m, hs) -> forall vip, keep vip -> any_ping (heals vip) (delete id m) = true.
Proof.
  intros L S K I vip V. destruct (proj1 (any_ping_true _ _) (I vip (S vip V))) as (j & q & Lj & Hq). cbn in Lj. apply any_ping_true. exists j, q. split; [|done].
  apply lookup_delete_Some. split; [|done]. intros <-. rewrite L in Lj. injection Lj as ->. apply (K vip V). unfold heals in Hq. unfold heal_vip.
  destruct (pp_kind q); [done| |done]. apply bool_decide_eq_true in Hq. by subst.
Qed.

Lemma move_healing x a b y : move x a b y -> healing_ok x -> healing_ok y.
Proof.
  destruct 1 as [x r|m hs id p F|m hs id p F N|m hs id p vip F V|m hs vip A|m hs vip]; intros I; [done|..]; intros v; cbn [fst snd].
  - intros (j & q & L & Q)%I%any_ping_true. apply any_ping_true. exists j, q. split; [|done]. cbn in L. rewrite lookup_insert_ne; [done|]. intros ->. congruence.
  - apply (healing_ok_delete m hs id p (fun v => v ∈ hs)); [done|done| |done]. intros w _. by rewrite N.
  - unfold release. destruct (any_ping (heals vip) (delete id m)) eqn:A; intros S.
    + destruct (decide (v = vip)) as [->|D]; [done|]. apply (healing_ok_delete m hs id p (fun v => v ∈ hs /\ v <> vip)); [done|naive_solver| |done|done].
      intros w [_ W]. rewrite V. congruence.
    + apply (healing_ok_delete m hs id p (fun v => v ∈ hs /\ v <> vip)); [done|naive_solver| |done|set_solver]. intros w [_ W]. rewrite V. congruence.
  - intros [->%elem_of_singleton|S]%elem_of_union; [done|by apply I].
  - intros [S _]%elem_of_difference. by apply I.
Qed.

(** A peer marked as being healed always has a healing probe under way, after any run; and after a sweep
    one whose deadline is still to come.  So the mark, which blocks another attempt, is taken away at the
    latest by the sweep after the last probe's deadline: no peer stays marked for good. *)
Theorem healing_released es s l : ping_run (mkPings ∅ 1 ∅ ∅ ∅ (new_table 0) ∅ ∅) es = Some (s, l) ->
  (forall vip, vip ∈ pg_heal_vips s -> exists id p, pg_pending s !! id = Some p /\ heals vip p = true) /\
  forall ts now envs s' l', ping_watchdog cfg s ts now envs = Some (s', l') ->
  forall vip, vip ∈ pg_heal_vips s' -> exists id p, pg_pending s' !! id = Some p /\ heals vip p = true /\ now < pp_deadline p.
Proof.
  intros R. assert (G : forall x a b y, moves x a b y -> healing_ok x -> healing_ok y) by (induction 1; eauto using move_healing).
  assert (I : healing_ok (view s)) by (eapply G; [by eapply ping_run_moves|done]). split; [intros vip V; by apply any_ping_true, I|].
  intros ts now envs s' l' W vip V. assert (I' : healing_ok (view s')) by (eapply G; [by apply (ping_step_moves s (PvWatchdog ts now envs))|done]).
  destruct (proj1 (any_ping_true _ _) (I' vip V)) as (id & p & L & P). exists id, p. split_and!; [done|done|by eapply watchdog_later].
Qed.
End Runs.

(** ** Which pongs count *)

Definition pong_matches (s : PingState) (body : bytes) (from : SocketAddr) : Prop :=
  exists id ts owd loss p, decode_pong_payload body = Some (id, ts, owd, loss) /\ pg_pending s !! id = Some p /\ from_ok p from = true.

(** A pong has an effect exactly when its id is the id of a pending ping and it comes from where that
    ping was sent to (for a ping of the user, from any port of that address).  It is used up by this: the same
    pong has no effect a second time, from wherever it comes. *)
Theorem pong_accepted_iff cfg s body from now now_ms : let r := handle_pong_body cfg s body from now now_ms in
  (r.2 <> [] <-> pong_matches s body from) /\
  (pong_matches s body from -> forall from' now' now_ms', (handle_pong_body cfg r.1 body from' now' now_ms').2 = []).
Proof.
  cbv zeta. unfold pong_matches, handle_pong_body. destruct (decode_pong_payload body) as [[[[id ts] owd] loss]|]; cycle 1.
  { split; [split; [done|]|]; intros (? & ? & ? & ? & ? & ? & ?); done. }
  assert (T : forall s f n, pg_pending (touch_routing_endpoint s f n) = pg_pending s) by (intros s0 f n; unfold touch_routing_endpoint; by destruct (is_endpoint_stale _ _)).
  rewrite T. destruct (pg_pending s !! id) as [p|] eqn:L; [|split; [split; [done|]|]; intros (? & ? & ? & ? & ? & E & ? & ?); injection E as <- <- <- <-; congruence].
  destruct (from_ok p from) eqn:F; cbn [negb]; [|split; [split; [done|]|]; intros (? & ? & ? & ? & ? & E & ? & ?); injection E as <- <- <- <-; congruence]. set (rtt := Z.max _ 1). clearbody rtt.
  destruct (note_rtt _ _ _ _ _) as [t updated]. set (t1 := if updated then _ else _). clearbody t1. set (s1 := touch_routing_endpoint s from now) in *.
  assert (D : pg_pending s1 = pg_pending s) by apply T. split; [split; [intros _; by exists id, ts, owd, loss, p|intros _; by destruct (pp_kind p)]|].
  intros _ from' now' now_ms'. rewrite T. replace (_ !! id) with (@None PendingPing); [done|].
  destruct (pp_kind p) as [reply|vip endpoint|]; cbn [fst snd]; [cbn; by rewrite lookup_delete_eq| |cbn; by rewrite lookup_delete_eq].
  match goal with |- _ = pg_pending (handle_heal_success _ ?x _ _ _ _) !! _ => pose proof (f_equal fst (heal_success_view cfg x vip endpoint rtt now)) as V end.
  unfold view in V. cbn [fst] in V. rewrite V. cbn. by rewrite lookup_delete_eq.
Qed.

(** ** Which endpoints a sweep reports *)

Definition probe_to (dest : SocketAddr) (p : PendingPing) : bool := match pp_kind p with PingProbe => bool_decide (pp_dest p = dest) | _ => false end.

(** The probes to [dest] that have timed out. *)
Definition missed (s : PingState) (now : Instant) (dest : SocketAddr) : Z :=
  len (filter (fun x : Z * PendingPing => pp_deadline x.2 <= now /\ probe_to dest x.2 = true) (map_to_list (pg_pending s))).
Definition failed (l : list PingEffect) : list SocketAddr := omap (fun e => match e with EQueuingDelay ep _ => Some ep | _ => None end) l.
Definition streak (s : PingState) (dest : SocketAddr) : Z := default 0 (pg_miss s !! dest).

Section Sweep.
Context `{HashIter} (cfg : PingConfig).

Definition probes_in (m : gmap Z PendingPing) (dest : SocketAddr) (ids : list Z) : Z :=
  len (filter (fun id => from_option (probe_to dest) false (m !! id) = true) ids).

Lemma probes_in_cons m dest id ids : probes_in m dest (id :: ids) = (match m !! id with Some p => if probe_to dest p then 1 else 0 | None => 0 end) + probes_in m dest ids.
Proof.
  unfold probes_in. rewrite filter_cons. case_decide as D; destruct (m !! id) as [p|]; cbn [from_option] in D; try done; [rewrite D, len_cons; lia|]. by destruct (probe_to dest p).
Qed.
Lemma probes_in_delete m dest id ids : id ∉ ids -> probes_in (delete id m) dest ids = probes_in m dest ids.
Proof.
  induction ids as [|j ids IH]; intros N; [done|]. rewrite !probes_in_cons, IH by set_solver. rewrite lookup_delete_ne by set_solver. done.
Qed.
Lemma probes_in_nonneg m dest ids : 0 <= probes_in m dest ids.
Proof. apply len_nonneg. Qed.

(** The streaks after some timeouts, and the endpoints found to fail. *)
Definition swept (threshold : Z) (s s' : PingState) (f f' : gmap SocketAddr ()) (n : SocketAddr -> Z) : Prop :=
  forall d, streak s' d = Z.min U32_MAX (streak s d + n d) /\
            (is_Some (f' !! d) <-> is_Some (f !! d) \/ 0 < n d /\ threshold <= Z.min U32_MAX (streak s d + n d)).

Lemma expire_ping_swept now s f id : (forall d, 0 <= streak s d <= U32_MAX) ->
  let r := expire_ping cfg now s f id in
  swept (el_probe_miss_fail_threshold (pc_limits cfg)) s r.1.1 f r.1.2 (fun d => match pg_pending s !! id with Some p => if probe_to d p then 1 else 0 | None => 0 end) /\
  failed r.2 = [].
Proof.
  intros B. cbv zeta. unfold expire_ping. destruct (pg_pending s !! id) as [p|] eqn:L; cycle 1.
  { split; [|done]. intros d. cbn. specialize (B d). split; [lia|]. split; [by left|]. intros [?|?]; [done|lia]. }
  unfold probe_to. destruct (pp_kind p) as [reply|vip endpoint|] eqn:K; cbn [fst snd].
  - split; [|done]. intros d. cbn. specialize (B d). unfold streak in *. cbn. split; [lia|]. split; [by left|]. intros [?|?]; [done|lia].
  - split; [|done]. intros d. specialize (B d). unfold streak in *. destruct (any_ping _ _); cbn; (split; [lia|]; split; [by left|]; intros [?|?]; [done|lia]).
  - unfold record_probe_miss. cbn [fst snd]. split; [|done]. intros d. pose proof (B d) as Bd. pose proof (B (pp_dest p)) as Bp. unfold streak in *. cbn.
    unfold sat_add. destruct (decide (pp_dest p = d)) as [<-|D].
    + rewrite lookup_insert_eq, bool_decide_eq_true_2 by done. cbn. split; [done|]. set (k := default 0 _) in *.
      destruct (el_probe_miss_fail_threshold (pc_limits cfg) <=? Z.min U32_MAX (k + 1)) eqn:T.
      * rewrite lookup_insert_eq. apply Z.leb_le in T. split; [intros _; right; lia|done].
      * apply Z.leb_gt in T. split; [by left|]. intros [?|?]; [done|lia].
    + rewrite lookup_insert_ne by done. rewrite bool_decide_eq_false_2 by done. split; [lia|].
      destruct (_ <=? _); [rewrite lookup_insert_ne by done|]; (split; [by left|]; intros [?|?]; [done|lia]).
Qed.

Lemma expire_each_swept now ids : forall s f, NoDup ids -> (forall d, 0 <= streak s d <= U32_MAX) ->
  let r := expire_each cfg now ids s f in
  swept (el_probe_miss_fail_threshold (pc_limits cfg)) s r.1.1 f r.1.2 (fun d => probes_in (pg_pending s) d ids) /\ failed r.2 = [].
Proof.
  induction ids as [|id ids IH]; intros s f N B; cbv zeta; cbn [expire_each].
  { split; [|done]. intros d. specialize (B d). cbn. change (probes_in _ _ []) with 0. split; [lia|]. split; [by left|]. intros [?|?]; [done|lia]. }
  apply NoDup_cons in N as [I N]. pose proof (expire_ping_swept now s f id B) as [S F]. pose proof (expire_ping_pending cfg now s f id) as P.
  destruct (expire_ping cfg now s f id) as [[s1 f1] a]. cbn [fst snd] in *.
  assert (B1 : forall d, 0 <= streak s1 d <= U32_MAX).
  { intros d. destruct (S d) as [-> _]. specialize (B d). destruct (pg_pending s !! id) as [p|]; [destruct (probe_to d p)|]; lia. }
  specialize (IH s1 f1 N B1) as [S' F']. destruct (expire_each cfg now ids s1 f1) as [[s2 f2] b]. cbn [fst snd] in *. split.
  - intros d. destruct (S d) as [E1 X1], (S' d) as [E2 X2]. rewrite P, (probes_in_delete _ d id ids I) in E2, X2. rewrite probes_in_cons. pose proof (probes_in_nonneg (pg_pending s) d ids) as Q.
    specialize (B d). set (k := match pg_pending s !! id with Some p => _ | None => _ end) in *. assert (K : 0 <= k) by (unfold k; destruct (pg_pending s !! id) as [p|]; [destruct (probe_to d p)|]; lia).
    rewrite E1 in E2, X2. clearbody k. split; [lia|]. rewrite X2, X1. split; [intros [[?|?]|?]; [by left|right; lia|right; lia]|].
    intros [?|[A C]]; [by left; left|]. destruct (Z.eq_dec (probes_in (pg_pending s) d ids) 0); [left; right; lia|right; lia].
  - unfold failed in *. rewrite omap_app. by rewrite F, F'.
Qed.

Lemma missed_probes_in s now d : missed s now d = probes_in (pg_pending s) d (expired_ids s now).
Proof.
  unfold missed, probes_in, expired_ids, len. f_equal. etrans; [apply Permutation_length, filter_Permutation; symmetry; apply hm_iter_perm|].
  assert (A : forall i p, (i, p) ∈ hm_iter (pg_pending s) -> pg_pending s !! i = Some p) by (intros i p; apply hm_iter_elem).
  induction (hm_iter (pg_pending s)) as [|[i p] l IH]; [done|]. rewrite !filter_cons. cbn [snd]. specialize (IH ltac:(intros j q J; apply A; by right)).
  pose proof (A i p ltac:(left)) as L. case_decide as X; case_decide as D; cbn [snd] in X, D; [|tauto| |done].
  - cbn [fmap list_fmap fst]. rewrite filter_cons, decide_True by (rewrite L; apply X). cbn. by rewrite IH.
  - cbn [fmap list_fmap fst]. rewrite filter_cons, decide_False by (rewrite L; tauto). done.
Qed.

Lemma expired_nodup s now : NoDup (expired_ids s now).
Proof.
  unfold expired_ids. pose proof (hm_iter_NoDup_fst (pg_pending s)) as N. induction (hm_iter (pg_pending s)) as [|[i p] l IH]; [constructor|].
  cbn in N. apply NoDup_cons in N as [A N]. rewrite filter_cons. case_decide; [|by apply IH]. cbn. constructor; [|by apply IH].
  intros (x & E & [_ X]%list_elem_of_filter)%list_elem_of_fmap. apply A, list_elem_of_fmap. by exists x.
Qed.

Lemma fail_each_failed now eps : forall s, let r := fail_each cfg now eps s in failed r.2 = eps /\ pg_miss r.1.1 = pg_miss s.
Proof.
  induction eps as [|ep eps IH]; intros s; cbn [fail_each]; [done|]. destruct (note_fail _ _ _ _) as [t [vip heal]]. set (s1 := s <| pg_routing := t |>).
  specialize (IH s1). cbv zeta in *. destruct (fail_each cfg now eps s1) as [[s2 vips] b]. cbn [fst snd] in *. destruct IH as [<- IH]. done.
Qed.

(** A sweep adds to each endpoint's streak of missed probes the number of probes to it that timed out, and
    reports to the routing table exactly the endpoints that missed one and whose streak has come to the
    threshold, each once, in whatever order the table of pings is walked. *)
Theorem sweep_fails_exact s now : (forall d, 0 <= streak s d <= U32_MAX) ->
  let r := expire_pending_pings cfg s now in
  NoDup (failed r.2) /\
  forall d, streak r.1.1 d = Z.min U32_MAX (streak s d + missed s now d) /\
            (d ∈ failed r.2 <-> 0 < missed s now d /\ el_probe_miss_fail_threshold (pc_limits cfg) <= streak r.1.1 d).
Proof.
  intros B. cbv zeta. unfold expire_pending_pings. pose proof (expire_each_swept now (expired_ids s now) s ∅ (expired_nodup s now) B) as [S F].
  destruct (expire_each cfg now (expired_ids s now) s ∅) as [[s1 f1] a]. cbn [fst snd] in *. pose proof (fail_each_failed now (hm_iter f1).*1 s1) as X. cbv zeta in X.
  destruct (fail_each _ _ _ _) as [[s2 vips] b]. cbn [fst snd] in *. destruct X as [X M]. replace (failed (a ++ b)) with ((hm_iter f1).*1) by (unfold failed in *; by rewrite omap_app, F, X).
  split; [apply hm_iter_NoDup_fst|]. intros d. destruct (S d) as [E I]. unfold streak at 1 3. rewrite M. rewrite missed_probes_in. split; [exact E|]. fold (streak s1 d). rewrite E.
  rewrite lookup_empty in I. etrans; [|etrans; [apply I|]]; [|split; [intros [[? ?]|?]; done|by right]]. rewrite list_elem_of_fmap. split.
  - intros ([e u] & -> & Y%hm_iter_elem). by exists u.
  - intros [u U]. exists (d, u). split; [done|by apply hm_iter_elem].
Qed.
End Sweep.

(** ** Concrete runs *)

Module PingRuns.
#[local] Existing Instance canonical_iter.
Definition cfg : PingConfig := mkPingConfig default_limits true true true false.
Definition start : PingState := mkPings ∅ 1 ∅ ∅ ∅ (new_table 0) ∅ ∅.
Definition direct : SocketAddr := mkAddr (V4 167772161) 4000.
Definition relay : SocketAddr := mkAddr (V4 167772162) 4000.
Definition vip : string := "10.1.1.7".
Definition sends (id : Z) : PingEnv := mkPingEnv [id] true.
Definition fails (id : Z) : PingEnv := mkPingEnv [id] false.
Definition table : RoutingTable := stamp_relay_hop (rt_update (new_table 0) vip direct None 0) vip relay 0.
Definition pong (id : Z) : bytes := encode_pong_payload id 0 0 0.

Lemma ping_ids_fresh_witness : exists id s', allocate_ping_id start [0; 0; 9] = Some (id, s') /\ id = 9.
Proof. destruct (ping_ids_fresh start [0; 0; 9]) as (id & s' & E & _); [cbn; lia|by vm_compute|]. exists id, s'. split; [exact E|]. by injection E as <- _. Defined.

(** Two pings of the user, one answered and one that times out, and one that could not be sent. *)
Definition user_run : list PingEvent :=
  [PvPeer direct 1000 71 5 0 (sends 11); PvPeer relay 1000 72 5 0 (sends 12); PvPeer relay 1000 73 5 0 (fails 13);
   PvPong (pong 11) direct (from_millis 20) 25; PvWatchdog 30 (from_millis 1500) (fun _ i => sends (Z.of_nat i))].

Lemma user_pings_answered_witness : exists s l, ping_run cfg start user_run = Some (s, l) /\ asked user_run ≡ₚ answered l ++ users (pg_pending s) /\ answered l = [73; 71; 72].
Proof.
  destruct (ping_run cfg start user_run) as [[s l]|] eqn:R; [|vm_compute in R; discriminate R]. exists s, l. split; [done|].
  split; [by apply (user_pings_answered cfg user_run s l)|]. assert (E : snd <$> ping_run cfg start user_run = Some l) by (by rewrite R).
  assert (E' : answered <$> (snd <$> ping_run cfg start user_run) = Some [73; 71; 72]) by (by vm_compute). rewrite E in E'. by injection E'.
Defined.

(** A heal over two paths; the direct one answers, the relayed one does not. *)
Definition heal_start : list PingEvent := [PvRouting table; PvHeal vip 0 0 (fun i => sends (21 + Z.of_nat i))].
Definition heal_run : list PingEvent := heal_start ++ [PvPong (pong 21) direct (from_millis 20) 25].

Lemma healing_released_witness : exists s l, ping_run cfg start heal_start = Some (s, l) /\ vip ∈ pg_heal_vips s /\
  exists id p, pg_pending s !! id = Some p /\ heals vip p = true.
Proof.
  destruct (ping_run cfg start heal_start) as [[s l]|] eqn:R; [|vm_compute in R; discriminate R]. exists s, l. split; [done|].
  assert (V : vip ∈ pg_heal_vips s).
  { assert (E : (fun r => bool_decide (vip ∈ pg_heal_vips r.1)) <$> ping_run cfg start heal_start = Some true) by (by vm_compute).
    rewrite R in E. cbn [fmap option_fmap option_map fst] in E. apply (inj Some) in E. by apply bool_decide_eq_true in E. }
  split; [done|]. by apply (healing_released cfg heal_start s l).
Defined.

(** The answered heal lifts the cooldown and records the round trip, and the sweep that finds the other probe
    unanswered puts the peer on cooldown again. *)
Theorem healed_peer_cooled :
  (fun r => (pg_cooldown r.1 !! vip, re_last_rtt_ms <$> rt_table (pg_routing r.1) !! vip)) <$> ping_run cfg start heal_run = Some (None, Some 25) /\
  (fun r => pg_cooldown r.1 !! vip) <$> ping_run cfg start (heal_run ++ [PvWatchdog 800 (from_millis 800) (fun _ i => sends (Z.of_nat i))]) =
    Some (Some (from_millis (800 + el_heal_cooldown_ms default_limits))).
Proof. by split; vm_compute. Qed.

(** Nine probes to one endpoint time out in one sweep, the threshold being eight. *)
Definition probe_run : list PingEvent := [PvProbes (repeat direct 9) 0 0 (fun i => sends (31 + Z.of_nat i)); PvProbes [relay] 0 0 (fun i => sends 51)].
Definition probed : PingState := from_option fst start (ping_run cfg start probe_run).
Definition lim : Z := el_probe_miss_fail_threshold default_limits.

Lemma sweep_fails_exact_witness : let r := expire_pending_pings cfg probed (from_millis 3000) in
  failed r.2 = [direct] /\ streak r.1.1 relay = 1 /\ (direct ∈ failed r.2 <-> 0 < missed probed (from_millis 3000) direct /\ lim <= streak r.1.1 direct).
Proof.
  cbv zeta. split_and!; [by vm_compute|by vm_compute|].
  destruct (sweep_fails_exact cfg probed (from_millis 3000)) as [_ S]; [|apply (S direct)].
  intros d. unfold streak. assert (E : pg_miss probed = ∅) by (by vm_compute). rewrite E, lookup_empty. cbn. unfold U32_MAX. lia.
Defined.
End PingRuns.
