(* ===== verification/Forward.v ===== *)
(** * The data path of the engine (src/net/engine.rs)

    What the engine does with a packet from the adapter ([handle_tun_packet]) and with a decrypted packet
    from a peer ([handle_mdat_like]): the choice between the direct path, a relay hop and a hub, the second
    copy during a change of path, the fallbacks, the sealing, and the hand-over to the error-correction
    worker, to the pacing worker or to the socket.

    The state is a [Forwarder]; what leaves it is a trace of [FwdEffect]s.  Whether the socket or the
    channel of the error-correction worker takes a packet is read from [io], one answer per attempt; [obs]
    is what the pacing worker last published: the depth of a peer's queue and the capacity.

    [tun_packet_sealed] and [peer_packet_forwarded] show where packets may go and that, with a key, only
    sealed frames leave, each under a counter of its own; [known_destination_served] that a packet with a
    usable path is offered to it; [broadcast_once] that repeated broadcasts are not forwarded again.
    [old_path_not_written] shows that the second copy during a change of path does not use the old path. *)

From S2P Require Import Prelude Text Float Packet Crypto SizeLoss Limiter CryptoPool DataPlane Fec FecRatio Pmtud Tuning Paths Routing PacingCfg Bcast.
From Stdlib Require Import Ascii String.
#[local] Open Scope Z_scope.

Record FwdConfig := mkFwdConfig {
  fc_rawperf_mode : bool; fc_multipath_core : bool; fc_dual_write_transition : bool;
  fc_fec_enabled : bool; fc_fec_shard_payload_size : Z; fc_ratio : RatioConfig; fc_fec_max_total_shards : Z;
  fc_mtu_pin : bool; fc_pmtud_tick_ms : Z; fc_pmtud_raise_secs : Z; fc_drr_rtt_aware : bool
}.

(** The per-destination state of [fec_send]. *)
Record FecDest := mkFecDest { fd_ratio : PeerFecSendState; fd_rx_loss_ewma : f64; fd_queuing_delay_ms_cached : option f64 }.
#[export] Instance eta_FecDest : Settable FecDest := fun r => mkFecDest (fd_ratio r) (fd_rx_loss_ewma r) (fd_queuing_delay_ms_cached r).
Definition default_fec_dest : FecDest := mkFecDest (mkFecSend None None None) f0 None.

(** The virtual adapter whose MTU follows the path. *)
Record Adapter := mkAdapter { ad_name : option bytes; ad_last_applied_mtu : Z; ad_last_netsh_at : option Instant }.
#[export] Instance eta_Adapter : Settable Adapter := fun r => mkAdapter (ad_name r) (ad_last_applied_mtu r) (ad_last_netsh_at r).

Inductive FwdEffect :=
| Inject (pkt : bytes)
| Push (dest : SocketAddr) (pkt : bytes) (ds ps : Z) (queue_budget : Z * Z) (rtt qd : option f32)
| Pace (dest : SocketAddr) (pkt : bytes) (rtt qd : option f32)
| Wire (dest : SocketAddr) (pkt : bytes) (ok : bool)
| SetAdapterMtu (mtu : Z)
| Reschedule (period : Duration).

Record Forwarder := mkFwd {
  fw_crypto : EngineCrypto; fw_vip : string; fw_rt : RoutingTable; fw_dedup : BroadcastDeduplicator; fw_prev_path_kind : gmap Z PathKind;
  fw_pmtud : PathMtuDiscovery; fw_fec : gmap SocketAddr FecDest; fw_adapter : Adapter;
  fw_rx_bytes : gmap SocketAddr Z; fw_rx_bytes_vip : gmap Z Z; fw_last_seen : gmap SocketAddr Instant;
  fw_io : nat; fw_out : list FwdEffect
}.
#[export] Instance eta_Forwarder : Settable Forwarder :=
  fun r => mkFwd (fw_crypto r) (fw_vip r) (fw_rt r) (fw_dedup r) (fw_prev_path_kind r) (fw_pmtud r) (fw_fec r) (fw_adapter r)
             (fw_rx_bytes r) (fw_rx_bytes_vip r) (fw_last_seen r) (fw_io r) (fw_out r).

Definition emit (st : Forwarder) (e : FwdEffect) : Forwarder := st <| fw_out := fw_out st ++ [e] |>.

(** ** Packets *)

Definition dst_of (pkt : bytes) : Z := be_val (take 4 (drop 16 pkt)).

Definition is_broadcast_or_multicast (pkt : bytes) : bool :=
  if (len pkt <? 20) || negb (Z.shiftr (nth 0 pkt 0) 4 =? 4) then false
  else
    let dst := take 4 (drop 16 pkt) in
    bool_decide (dst = [255; 255; 255; 255]) || ((224 <=? nth 0 dst 0) && (nth 0 dst 0 <=? 239)).

Definition is_safe_interface_alias (s : bytes) : bool :=
  if bool_decide (s = []) || (128 <? len s) then false
  else
    forallb (fun c => ((48 <=? c) && (c <=? 57)) || ((65 <=? c) && (c <=? 90)) || ((97 <=? c) && (c <=? 122)) ||
                      bool_decide (c ∈ [32; 95; 45; 46; 40; 41])) s.

(** ** The adapter's MTU *)

Definition try_apply_adapter_mtu (a : Adapter) (mtu : Z) (now : Instant) : Adapter * bool :=
  if negb ((MIN_ADAPTER_PAYLOAD_MTU <=? mtu) && (mtu <=? 1500)) then (a, false)
  else if (mtu =? ad_last_applied_mtu a) && negb (ad_last_applied_mtu a =? 0) then (a, false)
  else
    let prev := ad_last_applied_mtu a in
    let allow_netsh := (prev =? 0) || (32 <=? Z.abs (mtu - prev)) ||
                       match ad_last_netsh_at a with Some t => from_secs 30 <=? duration_since now t | None => true end in
    if negb allow_netsh then (a, false)
    else match ad_name a with
         | None => (a <| ad_last_applied_mtu := 0 |>, false)
         | Some name =>
             if negb (is_safe_interface_alias name) then (a, false)
             else (a <| ad_last_netsh_at := Some now |> <| ad_last_applied_mtu := mtu |>, true)
         end.

Definition pmtud_period (tick_ms raise_secs : Z) (d : PathMtuDiscovery) (now : Instant) : Duration :=
  let tick_ms := Z.max tick_ms 10 in
  let raise_secs := Z.max raise_secs 1 in
  if needs_fast_tick d then from_millis tick_ms
  else Z.min (Z.max (duration_since (next_deadline d now) now) (from_millis tick_ms)) (from_secs raise_secs).

(** ** Lookups *)

Definition ep_vip_u32 (t : RoutingTable) (ep : SocketAddr) : option Z := vip ← rt_ep_to_vip t !! ep; ipv4_to_u32 vip.

Definition tx_path_hints (drr_rtt_aware : bool) (t : RoutingTable) (dest : SocketAddr) : option Z * option f32 * option f32 :=
  match rt_ep_to_vip t !! dest with
  | None => (None, None, None)
  | Some vip =>
      let vip_u32 := ipv4_to_u32 vip in
      match rt_table t !! vip with
      | None => (vip_u32, None, None)
      | Some e =>
          let rtt := if drr_rtt_aware && f_lt f0 (re_rtt_base_ms e) then Some (f64_to_f32 (re_rtt_base_ms e)) else None in
          let qd_raw := effective_queuing_delay_ms e (cg_owd_prefer_after_samples (rt_congestion t)) in
          (vip_u32, rtt, if f_le f0 qd_raw then Some (f64_to_f32 qd_raw) else None)
      end
  end.

(** The queuing delay as [fec_send] reads it from the table. *)
Definition table_queuing_delay (t : RoutingTable) (dest : SocketAddr) : f64 :=
  match vip ← rt_ep_to_vip t !! dest; rt_table t !! vip with
  | Some e => effective_queuing_delay_ms e (cg_owd_prefer_after_samples (rt_congestion t))
  | None => f_neg1
  end.

Section Forward.
Context `{HashIter} `{Aead} `{Kdf} (cfg : FwdConfig) (hash : list HashWrite -> Z) (io : nat -> bool) (obs : SocketAddr -> Z * Z).

Definition has_crypto (st : Forwarder) : bool := has_any (crypto_keys (fw_crypto st)).

Definition attempt (st : Forwarder) : bool * Forwarder := (io (fw_io st), st <| fw_io := S (fw_io st) |>).

(** [try_send_to] and [send_to]. *)
Definition wire (st : Forwarder) (dest : SocketAddr) (pkt : bytes) : Forwarder * bool :=
  let '(ok, st) := attempt st in (emit st (Wire dest pkt ok), ok).

(** ** Handing over *)

Definition data_udp_fits_path (st : Forwarder) (dest : SocketAddr) (pkt_len : Z) : bool := pkt_len <=? udp_payload_budget (fw_pmtud st) dest.

Definition reschedule_pmtud_interval (st : Forwarder) (now : Instant) : Forwarder :=
  emit st (Reschedule (pmtud_period (fc_pmtud_tick_ms cfg) (fc_pmtud_raise_secs cfg) (fw_pmtud st) now)).

Definition enc_overhead (st : Forwarder) : Z := if has_crypto st then MENC_WIRE_OVERHEAD else 0.

Definition apply_suggested_mtu (st : Forwarder) (now : Instant) : Forwarder :=
  let suggested := wrap 16 (suggested_adapter_mtu (fw_pmtud st) (enc_overhead st)) in
  let '(a, applied) := try_apply_adapter_mtu (fw_adapter st) suggested now in
  let st := st <| fw_adapter := a |> in
  if applied then emit st (SetAdapterMtu suggested) else st.

Definition note_pmtud_tx_oversize (st : Forwarder) (dest : SocketAddr) (now : Instant) : Forwarder :=
  if fc_mtu_pin cfg || bool_decide (is_Some (pinned (fw_pmtud st))) then st
  else
    let st := apply_suggested_mtu st now in
    let '(d, asked) := request_revalidate (fw_pmtud st) dest now in
    let st := st <| fw_pmtud := d |> in
    if asked then reschedule_pmtud_interval st now else st.

Definition enqueue_normal_packet (st : Forwarder) (pkt : bytes) (dest : SocketAddr) (now : Instant) : Forwarder :=
  if negb (data_udp_fits_path st dest (len pkt)) then note_pmtud_tx_oversize st dest now
  else
    let '(vip, rtt, qd) := tx_path_hints (fc_drr_rtt_aware cfg) (fw_rt st) dest in
    let st := match vip with
              | Some vip => st <| fw_crypto := fw_crypto st <| size_loss := note_tx_offer (size_loss (fw_crypto st)) vip (len pkt) now |> |>
              | None => st
              end in
    emit st (Pace dest pkt rtt qd).

Definition fec_send (st : Forwarder) (dest : SocketAddr) (pkt : bytes) (now : Instant) : Forwarder :=
  if negb (fc_fec_enabled cfg) then enqueue_normal_packet st pkt dest now
  else if fc_fec_shard_payload_size cfg <? len pkt + FEC_SHARD_LEN_PREFIX then enqueue_normal_packet st pkt dest now
  else
    match effective_shard_payload_size (fc_fec_shard_payload_size cfg) (min_path_mtu (fw_pmtud st)) with
    | None => enqueue_normal_packet st pkt dest now
    | Some effective =>
        if effective <? len pkt + FEC_SHARD_LEN_PREFIX then enqueue_normal_packet st pkt dest now
        else
          let f := default default_fec_dest (fw_fec st !! dest) in
          let qd := match fd_queuing_delay_ms_cached f with Some qd => qd | None => table_queuing_delay (fw_rt st) dest end in
          let '(ratio, (ds, ps)) := choose_ratio (fc_ratio cfg) (fd_ratio f) (fd_rx_loss_ewma f) qd now in
          let st := st <| fw_fec := <[dest := mkFecDest ratio (fd_rx_loss_ewma f) (Some qd)]> (fw_fec st) |> in
          if (ds =? 0) || (ps =? 0) || (fc_fec_max_total_shards cfg <? ds + ps) then enqueue_normal_packet st pkt dest now
          else
            let '(_, rtt, qd) := tx_path_hints (fc_drr_rtt_aware cfg) (fw_rt st) dest in
            let '(ok, st) := attempt st in
            if ok then emit st (Push dest pkt ds ps ((obs dest).1, Z.max (obs dest).2 1) rtt qd) else enqueue_normal_packet st pkt dest now
    end.

(** ** Sealing *)

(** The frame for a payload, the same in the three senders; [None] is their error. *)
Definition menc_frame (st : Forwarder) (dest : SocketAddr) (payload : bytes) : Forwarder * option bytes :=
  if negb (has_crypto st) then (st, Some (frame_compact Data payload))
  else
    match ep_vip_u32 (fw_rt st) dest with
    | None => (st, None)
    | Some dest_vip =>
        if my_vip_u32 (fw_crypto st) =? 0 then (st, None)
        else
          let '(c, r) := encrypt_framed_packet_reuse (fw_crypto st) (my_vip_u32 (fw_crypto st)) dest_vip payload in
          (st <| fw_crypto := c |>, match r with Ok pkt => Some pkt | Err _ => None end)
    end.

(** A frame that does not fit the path is dropped, which is no error. *)
Definition raw_send (st : Forwarder) (dest : SocketAddr) (pkt : bytes) (now : Instant) : Forwarder * bool :=
  if negb (data_udp_fits_path st dest (len pkt)) then (note_pmtud_tx_oversize st dest now, true) else wire st dest pkt.

Definition send_menc (st : Forwarder) (dest : SocketAddr) (payload : bytes) (now : Instant) : Forwarder * bool :=
  let '(st, frame) := menc_frame st dest payload in
  match frame with
  | None => (st, false)
  | Some pkt => if fc_rawperf_mode cfg then raw_send st dest pkt now else (fec_send st dest pkt now, true)
  end.
Definition send_menc_forward (st : Forwarder) (dest : SocketAddr) (payload : bytes) (now : Instant) : Forwarder * bool :=
  let '(st, frame) := menc_frame st dest payload in
  match frame with
  | None => (st, false)
  | Some pkt => if fc_rawperf_mode cfg then raw_send st dest pkt now else (enqueue_normal_packet st pkt dest now, true)
  end.
Definition send_menc_direct (st : Forwarder) (dest : SocketAddr) (payload : bytes) (now : Instant) : Forwarder * bool :=
  let '(st, frame) := menc_frame st dest payload in
  match frame with
  | None => (st, false)
  | Some pkt => raw_send st dest pkt now
  end.

(** ** Paths and fallbacks *)

Definition apply_relay_path_stamp (st : Forwarder) (dest_vip : string) (selection : RelaySelection) (now : Instant) : Forwarder :=
  st <| fw_rt := match selection with Hop hop => stamp_relay_hop (fw_rt st) dest_vip hop now | NoHop => clear_relay_path (fw_rt st) dest_vip end |>.

Definition send_data_fallback_usable_hub (st : Forwarder) (dest : SocketAddr) (payload : bytes) (direct : bool) (now : Instant) : Forwarder :=
  match select_broadcast_relay_hop (fw_rt st) (fw_vip st) (Some dest) with
  | NoHop => st
  | Hop hub => (if direct then send_menc_direct st hub payload now else send_menc st hub payload now).1
  end.
Definition send_data_with_fallback (st : Forwarder) (dest : SocketAddr) (payload : bytes) (now : Instant) : Forwarder :=
  let '(st, ok) := send_menc st dest payload now in
  if ok then st else send_data_fallback_usable_hub st dest payload false now.
Definition send_data_with_fallback_direct (st : Forwarder) (dest : SocketAddr) (payload : bytes) (now : Instant) : Forwarder :=
  let '(st, ok) := send_menc_direct st dest payload now in
  if ok then st else send_data_fallback_usable_hub st dest payload true now.

Definition send_relay_hop (st : Forwarder) (hop : SocketAddr) (dest_vip : string) (payload : bytes) (now : Instant) : Forwarder :=
  let '(st, ok) := send_menc st hop payload now in
  if ok then st
  else
    let st := st <| fw_rt := (note_fail (fw_rt st) hop None now).1 |> in
    match select_relay_endpoint (fw_rt st) dest_vip (fw_vip st) (Some hop) with
    | NoHop => st
    | Hop alt => let '(st, ok) := send_menc st alt payload now in if ok then apply_relay_path_stamp st dest_vip (Hop alt) now else st
    end.

Definition send_via_kind (st : Forwarder) (dest : SocketAddr) (kind : PathKind) (payload : bytes) (dest_vip : option string) (now : Instant) : Forwarder :=
  match kind with
  | Direct | IceSrflx => send_data_with_fallback st dest payload now
  | HubRelay => match dest_vip with Some vip => send_relay_hop st dest vip payload now | None => st end
  end.

(** ** From the adapter *)

Inductive Target := TDrop | TSend (ep : SocketAddr) (kind : PathKind) (selection : option RelaySelection).

(** The path of a packet for [dst], whose route has the endpoint [ep]. *)
Definition choose_target (t : RoutingTable) (my_vip : string) (dst : Z) (ep : SocketAddr) : Target :=
  let vip := lookup_vip_by_u32 t dst in
  let '(target, kind) :=
    match (if fc_multipath_core cfg then vip ← vip; e ← rt_table t !! vip; ps ← re_path_set e; active_endpoint_kind ps else None) with
    | Some (a, k) => if bool_decide (k = HubRelay) then (ep, Direct) else (a, k)
    | None => (ep, Direct)
    end in
  match relay_snapshot_by_u32 t dst, vip with
  | Some rs, Some dest_vip =>
      if should_relay_snap rs (rt_failover t) then
        match select_relay_endpoint t dest_vip my_vip None with
        | Hop hop => TSend hop HubRelay (Some (Hop hop))
        | NoHop => if bool_decide (sn_state rs = Stale) then TDrop else TSend ep Direct None
        end
      else TSend target kind None
  | _, _ => TSend target kind None
  end.

Definition send_to_peer (st : Forwarder) (dst : Z) (ep : SocketAddr) (pkt : bytes) (now : Instant) : Forwarder :=
  match choose_target (fw_rt st) (fw_vip st) dst ep with
  | TDrop => st
  | TSend target kind selection =>
      let vip := lookup_vip_by_u32 (fw_rt st) dst in
      let transition := if fc_dual_write_transition cfg then vip ← vip; transition_state (fw_rt st) vip now else None in
      let prev := fw_prev_path_kind st !! dst in
      let st :=
        match (if fc_dual_write_transition cfg then vip else None) with
        | None => send_via_kind st target kind pkt vip now
        | Some v =>
            match prev with
            | Some old_kind =>
                if negb (bool_decide (old_kind = kind)) then
                  let st := st <| fw_rt := begin_transition (fw_rt st) v ep old_kind (from_millis 600) now |> in
                  send_via_kind (send_via_kind st target kind pkt vip now) ep old_kind pkt vip now
                else
                  match transition with
                  | Some (old_ep, old_kind) => send_via_kind (send_via_kind st target kind pkt vip now) old_ep old_kind pkt vip now
                  | None => send_via_kind st target kind pkt vip now
                  end
            | None =>
                match transition with
                | Some (old_ep, old_kind) => send_via_kind (send_via_kind st target kind pkt vip now) old_ep old_kind pkt vip now
                | None => send_via_kind st target kind pkt vip now
                end
            end
        end in
      match vip with
      | None => st
      | Some v =>
          let st := match selection with Some sel => apply_relay_path_stamp st v sel now | None => st end in
          let st := if bool_decide (kind = HubRelay) && negb (bool_decide (prev = Some HubRelay))
                    then st <| fw_rt := note_relay_fallback (fw_rt st) v now |> else st in
          st <| fw_prev_path_kind := <[dst := kind]> (fw_prev_path_kind st) |>
      end
  end.

Definition handle_tun_packet (st : Forwarder) (pkt : bytes) (now : Instant) : Forwarder :=
  if len pkt <? 20 then st
  else
    let dst := dst_of pkt in
    if (dst =? my_vip_u32 (fw_crypto st)) && negb (my_vip_u32 (fw_crypto st) =? 0) then emit st (Inject pkt)
    else
      match lookup_by_vip_u32 (fw_rt st) dst with
      | Some ep => send_to_peer st dst ep pkt now
      | None =>
          if is_broadcast_or_multicast pkt then
            let '(d, fresh) := is_fresh hash (fw_dedup st) pkt now in
            let st := st <| fw_dedup := d |> in
            if fresh then foldl (fun st ep => send_data_with_fallback_direct st ep pkt now) st (push_endpoints_excluding_stale (fw_rt st) [])
            else st
          else
            match select_broadcast_relay_hop (fw_rt st) (fw_vip st) None with
            | Hop hub => send_data_with_fallback st hub pkt now
            | NoHop => st
            end
      end.

(** ** From a peer *)

Definition touch (st : Forwarder) (from : SocketAddr) (now : Instant) : Forwarder :=
  let st := st <| fw_last_seen := <[from := now]> (fw_last_seen st) |> in
  if is_endpoint_stale (fw_rt st) from then st <| fw_rt := (promote_stale_if_needed (fw_rt st) from now).1 |> else st.

Definition note_rx_bytes (st : Forwarder) (from : SocketAddr) (nbytes : Z) : Forwarder :=
  st <| fw_rx_bytes := <[from := sat_add U64_MAX (default 0 (fw_rx_bytes st !! from)) nbytes]> (fw_rx_bytes st) |>.
Definition note_rx_bytes_for_dst (st : Forwarder) (dst nbytes : Z) : Forwarder :=
  st <| fw_rx_bytes_vip := <[dst := sat_add U64_MAX (default 0 (fw_rx_bytes_vip st !! dst)) nbytes]> (fw_rx_bytes_vip st) |>.

(** The routes a broadcast from [from] goes to directly, and whether one needs a relay. *)
Definition broadcast_direct (t : RoutingTable) (from : SocketAddr) : list SocketAddr :=
  endpoints_where (fun e => negb (bool_decide (re_endpoint e = from)) && negb (should_relay e (rt_failover t))) t.
Definition broadcast_need_relay (t : RoutingTable) (from : SocketAddr) : bool :=
  existsb (fun x : string * RouteEntry => negb (bool_decide (re_endpoint x.2 = from)) && should_relay x.2 (rt_failover t)) (hm_iter (rt_table t)).

Definition forward_broadcast (st : Forwarder) (raw : bytes) (from : SocketAddr) (now : Instant) : Forwarder :=
  let direct := broadcast_direct (fw_rt st) from in
  let hub := if broadcast_need_relay (fw_rt st) from
             then match select_broadcast_relay_hop (fw_rt st) (fw_vip st) (Some from) with Hop ep => Some ep | NoHop => None end
             else None in
  let direct := match hub with Some h => filter (fun ep => ep <> h) direct | None => direct end in
  let st := foldl (fun st ep => (send_menc_forward st ep raw now).1) st direct in
  match hub with
  | Some h => if bool_decide (h = from) then st else (send_menc_forward st h raw now).1
  | None => st
  end.

Definition handle_mdat_like (st : Forwarder) (raw : bytes) (from : SocketAddr) (now : Instant) : Forwarder :=
  if len raw <? 20 then st
  else
    let st := touch st from now in
    let packet_len := len raw in
    let scope := if fc_dual_write_transition cfg
                 then vip ← rt_ep_to_vip (fw_rt st) !! from; if bool_decide (is_Some (transition_state (fw_rt st) vip now)) then Some vip else None
                 else None in
    let '(st, go) :=
      match scope with
      | Some vip => let '(d, fresh) := is_fresh_scoped hash (fw_dedup st) (str_bytes vip) raw now in (st <| fw_dedup := d |>, fresh)
      | None => (st, true)
      end in
    if negb go then st
    else if is_broadcast_or_multicast raw then
      let '(d, fresh) := is_fresh hash (fw_dedup st) raw now in
      let st := st <| fw_dedup := d |> in
      if fresh then forward_broadcast (emit (note_rx_bytes st from packet_len) (Inject raw)) raw from now else st
    else
      let dst := dst_of raw in
      if (dst =? my_vip_u32 (fw_crypto st)) && negb (my_vip_u32 (fw_crypto st) =? 0)
      then emit (note_rx_bytes_for_dst st dst packet_len) (Inject raw)
      else if bool_decide (is_Some (rt_ep_to_vip (fw_rt st) !! from)) then
        match lookup_by_vip_u32 (fw_rt st) dst with
        | Some ep => if bool_decide (ep = from) then st else (send_menc_forward st ep raw now).1
        | None => st
        end
      else st.

(** The counters are handed to the routing table twice a second. *)
Definition flush_rx_byte_counters (advanced : bool) (st : Forwarder) (now : Instant) : Forwarder :=
  let batch := hm_iter (fw_rx_bytes st) in
  let by_dst := hm_iter (fw_rx_bytes_vip st) in
  let t := note_bytes_received_batch (fw_rt st) batch advanced None now in
  let t := foldl (fun t x => note_bytes_received_for_vip_u32 t x.1 x.2 advanced now) t by_dst in
  st <| fw_rx_bytes := ∅ |> <| fw_rx_bytes_vip := ∅ |> <| fw_rt := t |>.
Definition flush_last_seen_pending (st : Forwarder) : Forwarder :=
  st <| fw_last_seen := ∅ |> <| fw_rt := apply_last_seen_batch (fw_rt st) (hm_iter (fw_last_seen st)) |>.
End Forward.

(** ** What is sent *)

Definition sent_frame (e : FwdEffect) : option (SocketAddr * bytes) :=
  match e with
  | Push d pkt _ _ _ _ _ | Pace d pkt _ _ | Wire d pkt _ => Some (d, pkt)
  | Inject _ | SetAdapterMtu _ | Reschedule _ => None
  end.
Definition frames (l : list FwdEffect) : list (SocketAddr * bytes) := omap sent_frame l.
Definition injected (l : list FwdEffect) : list bytes := omap (fun e => match e with Inject pkt => Some pkt | _ => None end) l.

Lemma frames_app a b : frames (a ++ b) = frames a ++ frames b.
Proof. apply omap_app. Qed.
Lemma injected_app a b : injected (a ++ b) = injected a ++ injected b.
Proof. apply omap_app. Qed.

Definition ctr (st : Forwarder) (v : Z) : Z := default 0 (data_send_ctr (fw_crypto st) !! v).
Definition sealed_frame `{Aead} (ciphers : gmap (Z * Z) DataPlaneAead) (idx : gmap SocketAddr string) (me : Z) (payload : bytes)
    (f : SocketAddr * bytes) (m : Z * Z) : Prop :=
  (vip ← idx !! f.1; ipv4_to_u32 vip) = Some m.1 /\
  exists aead, ciphers !! (me, m.1) = Some aead /\ encrypt_framed_packet_into aead m.2 (pair_aad me m.1) payload = Ok f.2.

Section Frames.
Context `{HashIter} `{Aead} `{Kdf} (cfg : FwdConfig) (hash : list HashWrite -> Z) (io : nat -> bool) (obs : SocketAddr -> Z * Z).

(** The frames added between two states: to allowed destinations; with a key, each is the payload sealed for
    the owner of its destination under a counter of its own, drawn in between. *)
Definition framed (to : SocketAddr -> Prop) (payload : bytes) (st st' : Forwarder) (new : list FwdEffect) : Prop :=
  Forall (fun f => to f.1) (frames new) /\
  if has_crypto st
  then exists marks, Forall2 (sealed_frame (data_ciphers (fw_crypto st')) (rt_ep_to_vip (fw_rt st)) (my_vip_u32 (fw_crypto st)) payload) (frames new) marks /\
                     NoDup marks /\ Forall (fun m => ctr st m.1 <= m.2 < ctr st' m.1) marks
  else Forall (fun f => f.2 = frame_compact Data payload) (frames new).

(** What a sender leaves as it is. *)
Record same_node (st st' : Forwarder) : Prop := {
  sn_vip : fw_vip st' = fw_vip st;
  sn_my : my_vip_u32 (fw_crypto st') = my_vip_u32 (fw_crypto st);
  sn_keys : crypto_keys (fw_crypto st') = crypto_keys (fw_crypto st);
  sn_idx : rt_ep_to_vip (fw_rt st') = rt_ep_to_vip (fw_rt st);
  sn_ciphers : data_ciphers (fw_crypto st) ⊆ data_ciphers (fw_crypto st');
  sn_ctr : forall v, ctr st v <= ctr st' v
}.
Record fwd_ext (to : SocketAddr -> Prop) (payload : bytes) (st st' : Forwarder) : Prop := {
  fx_same : same_node st st';
  fx_new : exists new, fw_out st' = fw_out st ++ new /\ injected new = [] /\ framed to payload st st' new
}.

Lemma same_refl st : same_node st st.
Proof. by split. Qed.
Lemma same_trans a b c : same_node a b -> same_node b c -> same_node a c.
Proof. intros [A1 A2 A3 A4 A5 A6] [B1 B2 B3 B4 B5 B6]. split; try congruence; [by etrans|]. intros v. specialize (A6 v). specialize (B6 v). lia. Qed.
Lemma same_crypto st st' : same_node st st' -> has_crypto st' = has_crypto st.
Proof. intros []. unfold has_crypto. congruence. Qed.

Lemma framed_nil to payload st st' : framed to payload st st' [].
Proof. split; [constructor|]. destruct (has_crypto st); [|constructor]. exists []. split_and!; constructor. Qed.

Lemma ext_quiet to payload st st' : same_node st st' -> (exists new, fw_out st' = fw_out st ++ new /\ injected new = [] /\ frames new = []) -> fwd_ext to payload st st'.
Proof.
  intros S (new & O & I & F). split; [done|]. exists new. split_and!; [done|done|]. unfold framed. rewrite F. apply framed_nil.
Qed.
Lemma ext_refl to payload st : fwd_ext to payload st st.
Proof. apply ext_quiet; [apply same_refl|]. exists []. by rewrite app_nil_r. Qed.

Lemma sealed_mono c c' idx me payload f m : c ⊆ c' -> sealed_frame c idx me payload f m -> sealed_frame c' idx me payload f m.
Proof. intros S (V & aead & L & E). split; [done|]. exists aead. split; [by eapply lookup_weaken|done]. Qed.

Lemma ext_trans to payload a b c : fwd_ext to payload a b -> fwd_ext to payload b c -> fwd_ext to payload a c.
Proof.
  intros [S1 (n1 & O1 & I1 & T1 & F1)] [S2 (n2 & O2 & I2 & T2 & F2)]. split; [by eapply same_trans|]. exists (n1 ++ n2).
  split; [by rewrite O2, O1, app_assoc|]. split; [by rewrite injected_app, I1, I2|]. unfold framed. rewrite frames_app. split; [by apply Forall_app|].
  rewrite (same_crypto _ _ S1) in F2. destruct (has_crypto a); [|by apply Forall_app]. destruct F1 as (m1 & A1 & N1 & R1), F2 as (m2 & A2 & N2 & R2).
  destruct S1 as [_ M1 _ X1 C1 K1], S2 as [_ _ _ _ C2 K2]. exists (m1 ++ m2). split_and!.
  - apply Forall2_app; [eapply Forall2_impl; [exact A1|]; intros f m; by apply sealed_mono|]. by rewrite X1, M1 in A2.
  - apply NoDup_app. split_and!; [done| |done]. intros m E1 E2. rewrite Forall_forall in R1, R2. specialize (R1 m E1). specialize (R2 m E2). lia.
  - apply Forall_app. split; (eapply Forall_impl; [eassumption|]); cbn; intros m R; specialize (K1 m.1); specialize (K2 m.1); lia.
Qed.

Lemma ext_weaken (to to' : SocketAddr -> Prop) payload a b : (forall d, to d -> to' d) -> fwd_ext to payload a b -> fwd_ext to' payload a b.
Proof.
  intros W [S (n & O & I & T & F)]. split; [done|]. exists n. split_and!; [done|done|]. split; [|done]. eapply Forall_impl; [exact T|]. intros f. apply W.
Qed.

(** A change of the table that keeps the endpoint index. *)
Lemma ext_table to payload st t : rt_ep_to_vip t = rt_ep_to_vip (fw_rt st) -> fwd_ext to payload st (st <| fw_rt := t |>).
Proof. intros E. apply ext_quiet; [|exists []; by rewrite app_nil_r]. by split. Qed.

(** *** One frame *)

(** A step that leaves the node as it is, counters included, and adds at most the frame [pkt] to [dest]. *)
Definition carries (dest : SocketAddr) (pkt : bytes) (st st' : Forwarder) : Prop :=
  fw_vip st' = fw_vip st /\ fw_rt st' = fw_rt st /\ fw_crypto st' <| size_loss := size_loss (fw_crypto st) |> = fw_crypto st /\
  exists new, fw_out st' = fw_out st ++ new /\ injected new = [] /\ (frames new = [] \/ frames new = [(dest, pkt)]).

Lemma carries_same dest pkt st st' : carries dest pkt st st' -> same_node st st'.
Proof.
  intros (V & T & C & _). pose proof (f_equal my_vip_u32 C) as D1. pose proof (f_equal crypto_keys C) as D2. pose proof (f_equal data_ciphers C) as D3.
  pose proof (f_equal data_send_ctr C) as D4. cbn in D1, D2, D3, D4. split; [done|done|done|by rewrite T|by rewrite D3|]. intros v. unfold ctr. by rewrite D4.
Qed.

(** Dropping a frame that is too large sends nothing. *)
Definition silent (st st' : Forwarder) : Prop :=
  fw_vip st' = fw_vip st /\ fw_rt st' = fw_rt st /\ fw_crypto st' = fw_crypto st /\ exists new, fw_out st' = fw_out st ++ new /\ injected new = [] /\ frames new = [].

Lemma silent_refl st : silent st st.
Proof. split_and!; try done. exists []. by rewrite app_nil_r. Qed.
Lemma silent_trans a b c : silent a b -> silent b c -> silent a c.
Proof.
  intros (V1 & T1 & C1 & n1 & O1 & I1 & F1) (V2 & T2 & C2 & n2 & O2 & I2 & F2). split_and!; [congruence..|]. exists (n1 ++ n2).
  rewrite O2, O1, <- app_assoc, injected_app, frames_app, I1, I2, F1, F2. done.
Qed.
Lemma silent_emit st e : sent_frame e = None -> (forall p, e <> Inject p) -> silent st (emit st e).
Proof.
  intros F I. split_and!; [done..|]. exists [e]. split; [done|]. unfold frames, injected. cbn. rewrite F. split; [|done]. destruct e; try done. by destruct (I pkt).
Qed.
Lemma silent_carries dest pkt st st' : silent st st' -> carries dest pkt st st'.
Proof. intros (V & T & C & n & O & I & F). split_and!; [done|done|rewrite C; by destruct (fw_crypto st)|]. exists n. split_and!; [done|done|by left]. Qed.

Lemma oversize_silent st dest now : silent st (note_pmtud_tx_oversize cfg st dest now).
Proof.
  unfold note_pmtud_tx_oversize. destruct (_ || _); [apply silent_refl|]. assert (A : silent st (apply_suggested_mtu st now)).
  { unfold apply_suggested_mtu. destruct (try_apply_adapter_mtu _ _ _) as [a applied]. destruct applied.
    - eapply (silent_trans _ (st <| fw_adapter := a |>)); [|by apply silent_emit]. split_and!; try done. exists []. by rewrite app_nil_r.
    - split_and!; try done. exists []. by rewrite app_nil_r. }
  eapply silent_trans; [exact A|]. set (s1 := apply_suggested_mtu st now). clearbody s1. destruct (request_revalidate _ _ _) as [d asked].
  eapply (silent_trans _ (s1 <| fw_pmtud := d |>)); [split_and!; try done; exists []; by rewrite app_nil_r|].
  destruct asked; [by apply silent_emit|apply silent_refl].
Qed.

Lemma enqueue_carries st pkt dest now : carries dest pkt st (enqueue_normal_packet cfg st pkt dest now).
Proof.
  unfold enqueue_normal_packet. destruct (negb _); [apply silent_carries, oversize_silent|]. destruct (tx_path_hints _ _ _) as [[vip rtt] qd].
  destruct vip as [vip|]; (split_and!; [done|done|by destruct st as [[]]|]; exists [Pace dest pkt rtt qd]; split_and!; [done|done|by right]).
Qed.

Lemma fec_send_carries st dest pkt now : carries dest pkt st (fec_send cfg io obs st dest pkt now).
Proof.
  unfold fec_send. destruct (negb _); [apply enqueue_carries|]. destruct (_ <? _); [apply enqueue_carries|].
  destruct (effective_shard_payload_size _ _) as [eff|]; [|apply enqueue_carries]. destruct (eff <? _); [apply enqueue_carries|]. cbv zeta.
  destruct (choose_ratio _ _ _ _ _) as [ratio [ds ps]]. set (s1 := st <| fw_fec := _ |>). assert (S : silent st s1) by (split_and!; try done; exists []; by rewrite app_nil_r).
  clearbody s1. assert (Q : forall s2, silent st s2 -> carries dest pkt st (enqueue_normal_packet cfg s2 pkt dest now)).
  { intros s2 (V & T & C & n & O & I & F). pose proof (enqueue_carries s2 pkt dest now) as (V' & T' & C' & n' & O' & I' & F').
    split_and!; [congruence|congruence|by rewrite C in C'|]. exists (n ++ n'). rewrite O', O, <- app_assoc, injected_app, frames_app, I, I', F. done. }
  destruct (_ || _); [by apply Q|]. destruct (tx_path_hints _ _ _) as [[vip rtt] qd]. unfold attempt. cbn beta iota zeta.
  set (s2 := s1 <| fw_io := _ |>). assert (S2 : silent st s2) by (destruct S as (V & T & C & n); split_and!; try done). clearbody s2.
  destruct (io _); [|by apply Q]. destruct S2 as (V & T & C & n & O & I & F). split_and!; [done|done|cbn; rewrite C; by destruct (fw_crypto st)|].
  eexists (n ++ [Push _ _ _ _ _ _ _]). cbn. rewrite O, <- app_assoc, injected_app, frames_app, I, F. split_and!; [done|done|by right].
Qed.

Lemma wire_carries st dest pkt : carries dest pkt st (wire io st dest pkt).1.
Proof. split_and!; [done|done|by destruct st as [[]]|]. exists [Wire dest pkt (io (fw_io st))]. split_and!; [done|done|by right]. Qed.
Lemma raw_send_carries st dest pkt now : carries dest pkt st (raw_send cfg io st dest pkt now).1.
Proof. unfold raw_send. destruct (negb _); [apply silent_carries, oversize_silent|apply wire_carries]. Qed.

Lemma encrypt_reuse_spec c me v payload c' r : encrypt_framed_packet_reuse c me v payload = (c', r) ->
  my_vip_u32 c' = my_vip_u32 c /\ crypto_keys c' = crypto_keys c /\ data_ciphers c ⊆ data_ciphers c' /\
  (forall u, default 0 (data_send_ctr c !! u) <= default 0 (data_send_ctr c' !! u)) /\
  forall pkt, r = Ok pkt -> default 0 (data_send_ctr c !! v) < default 0 (data_send_ctr c' !! v) /\
    exists aead, data_ciphers c' !! (me, v) = Some aead /\ encrypt_framed_packet_into aead (default 0 (data_send_ctr c !! v)) (pair_aad me v) payload = Ok pkt.
Proof.
  unfold encrypt_framed_packet_reuse, next_data_send_counter. set (n := default 0 (data_send_ctr c !! v)).
  assert (K : forall (m : gmap Z Z) k u, n <= k -> m = data_send_ctr c -> default 0 (m !! u) <= default 0 (<[v := k]> m !! u)).
  { intros m k u L ->. destruct (decide (u = v)) as [->|D]; [rewrite lookup_insert_eq; cbn; done|by rewrite lookup_insert_ne]. }
  destruct (n >=? COUNTER_LIMIT).
  { intros X. injection X as <- <-. split_and!; [done|done|done| |done]. intros u. apply K; [lia|done]. }
  set (c1 := c <| data_send_ctr := _ |>). assert (L1 : default 0 (data_send_ctr c1 !! v) = n + 1) by (cbn; by rewrite lookup_insert_eq).
  assert (M1 : forall u, default 0 (data_send_ctr c !! u) <= default 0 (data_send_ctr c1 !! u)) by (intros u; apply K; [lia|done]).
  unfold data_plane_cipher. destruct (data_ciphers c1 !! (me, v)) as [aead|] eqn:L.
  - intros X. injection X as <- <-. split_and!; [done..|]. intros pkt E. split; [lia|]. by exists aead.
  - destruct (data_plane_primary_key c1); [|intros X; injection X as <- <-; by split_and!]. destruct (ok _) as [aead|]; [|intros X; injection X as <- <-; by split_and!].
    intros X. injection X as <- <-. split_and!; [done|done| |done|].
    + cbn. apply insert_subseteq. exact L.
    + intros pkt E. split; [cbn in *; lia|]. exists aead. split; [cbn; apply lookup_insert_eq|done].
Qed.

Lemma menc_frame_spec st dest payload st1 frame : menc_frame st dest payload = (st1, frame) ->
  same_node st st1 /\ fw_out st1 = fw_out st /\ fw_rt st1 = fw_rt st /\
  forall pkt, frame = Some pkt ->
    if has_crypto st then exists v, sealed_frame (data_ciphers (fw_crypto st1)) (rt_ep_to_vip (fw_rt st)) (my_vip_u32 (fw_crypto st)) payload (dest, pkt) (v, ctr st v) /\ ctr st v < ctr st1 v
    else pkt = frame_compact Data payload.
Proof.
  unfold menc_frame. destruct (has_crypto st) eqn:C; cbn [negb]; cycle 1.
  { intros X. injection X as <- <-. split_and!; [apply same_refl|done|done|]. intros pkt E. by injection E. }
  destruct (ep_vip_u32 (fw_rt st) dest) as [v|] eqn:V; [|intros X; injection X as <- <-; split_and!; [apply same_refl|done..]].
  destruct (_ =? 0); [intros X; injection X as <- <-; split_and!; [apply same_refl|done..]|].
  destruct (encrypt_framed_packet_reuse _ _ _ _) as [c r] eqn:E. apply encrypt_reuse_spec in E as (M & K & S & N & R). intros X. injection X as <- <-.
  split_and!; [by split|done|done|]. intros pkt E. destruct r as [p|]; [|done]. injection E as ->. destruct (R pkt eq_refl) as (L & aead & A & Z).
  exists v. split; [|exact L]. split; [exact V|]. exists aead. split; [exact A|exact Z].
Qed.

Lemma menc_carry st dest payload st1 pkt st2 : menc_frame st dest payload = (st1, Some pkt) -> carries dest pkt st1 st2 -> fwd_ext (eq dest) payload st st2.
Proof.
  intros (S & O & T & F)%menc_frame_spec C. pose proof (carries_same _ _ _ _ C) as S'. specialize (F pkt eq_refl). destruct C as (_ & _ & _ & n & O' & I & D).
  split; [by eapply same_trans|]. exists n. split; [by rewrite O', O|]. split; [done|]. destruct D as [D|D]; unfold framed; rewrite D; [apply (framed_nil (eq dest) payload st st2)|].
  split; [by repeat constructor|]. destruct (has_crypto st); [|by repeat constructor]. destruct F as (v & F & L). destruct S' as [_ _ _ _ C' K']. exists [(v, ctr st v)]. split_and!.
  - apply Forall2_cons; split; [by eapply sealed_mono|constructor].
  - apply NoDup_singleton.
  - rewrite Forall_singleton. cbn. specialize (K' v). lia.
Qed.

Lemma menc_none st dest payload st1 to : menc_frame st dest payload = (st1, None) -> fwd_ext to payload st st1.
Proof. intros (S & O & _ & _)%menc_frame_spec. apply ext_quiet; [done|]. exists []. by rewrite O, app_nil_r. Qed.

(** The three senders. *)
Lemma send_menc_ext st dest payload now : fwd_ext (eq dest) payload st (send_menc cfg io obs st dest payload now).1.
Proof.
  unfold send_menc. destruct (menc_frame st dest payload) as [st1 [pkt|]] eqn:E; [|by eapply menc_none].
  destruct (fc_rawperf_mode cfg); (eapply menc_carry; [exact E|]); [apply raw_send_carries|apply fec_send_carries].
Qed.
Lemma send_forward_ext st dest payload now : fwd_ext (eq dest) payload st (send_menc_forward cfg io st dest payload now).1.
Proof.
  unfold send_menc_forward. destruct (menc_frame st dest payload) as [st1 [pkt|]] eqn:E; [|by eapply menc_none].
  destruct (fc_rawperf_mode cfg); (eapply menc_carry; [exact E|]); [apply raw_send_carries|apply enqueue_carries].
Qed.
Lemma send_direct_ext st dest payload now : fwd_ext (eq dest) payload st (send_menc_direct cfg io st dest payload now).1.
Proof.
  unfold send_menc_direct. destruct (menc_frame st dest payload) as [st1 [pkt|]] eqn:E; [|by eapply menc_none]. eapply menc_carry; [exact E|apply raw_send_carries].
Qed.

(** *** Paths and fallbacks *)

(** The endpoint of another node, by the index. *)
Definition third_party (st : Forwarder) (d : SocketAddr) : Prop := exists v, rt_ep_to_vip (fw_rt st) !! d = Some v /\ v <> fw_vip st.

Lemma third_party_same st st' d : same_node st st' -> third_party st' d -> third_party st d.
Proof. intros [V _ _ X _ _] (v & L & N). exists v. rewrite <- X, <- V. done. Qed.

Lemma hop_third st dest ex hop : hop_usable (fw_rt st) hop dest (fw_vip st) ex = true -> third_party st hop /\ ex <> Some hop.
Proof.
  unfold hop_usable. case_bool_decide as E; [done|]. destruct (rt_ep_to_vip (fw_rt st) !! hop) as [v|] eqn:L; [|done]. case_bool_decide as M; [done|].
  intros _. split; [by exists v|done].
Qed.
Lemma hub_third st ex hub : select_broadcast_relay_hop (fw_rt st) (fw_vip st) ex = Hop hub -> third_party st hub /\ ex <> Some hub.
Proof.
  unfold select_broadcast_relay_hop. destruct (best_usable_peer_hop _ _ _ _) as [ep|] eqn:B; [|done]. intros X. injection X as <-. apply best_hop_sound in B. by eapply hop_third.
Qed.
Lemma relay_third st dest ex hop : select_relay_endpoint (fw_rt st) dest (fw_vip st) ex = Hop hop -> third_party st hop /\ ex <> Some hop.
Proof.
  unfold select_relay_endpoint. destruct (sticky_relay_hop _ _) as [s|].
  - destruct (hop_usable _ s _ _ _) eqn:U; [intros X; injection X as <-; by eapply hop_third|].
    destruct (best_usable_peer_hop _ _ _ _) as [ep|] eqn:B; [|done]. intros X. injection X as <-. apply best_hop_sound in B. by eapply hop_third.
  - destruct (best_usable_peer_hop _ _ _ _) as [ep|] eqn:B; [|done]. intros X. injection X as <-. apply best_hop_sound in B. by eapply hop_third.
Qed.

Lemma fallback_hub_ext st dest payload direct now :
  fwd_ext (fun d => third_party st d /\ d <> dest) payload st (send_data_fallback_usable_hub cfg io obs st dest payload direct now).
Proof.
  unfold send_data_fallback_usable_hub. destruct (select_broadcast_relay_hop _ _ _) as [hub|] eqn:S; [|apply ext_refl]. apply hub_third in S as [T N].
  destruct direct; (eapply ext_weaken; [|apply send_direct_ext || apply send_menc_ext]; intros d <-; split; [done|congruence]).
Qed.

Lemma with_fallback_ext st dest payload now : fwd_ext (fun d => d = dest \/ third_party st d) payload st (send_data_with_fallback cfg io obs st dest payload now).
Proof.
  unfold send_data_with_fallback. pose proof (send_menc_ext st dest payload now) as E. destruct (send_menc cfg io obs st dest payload now) as [st1 ok]. cbn [fst] in E.
  assert (E' : fwd_ext (fun d => d = dest \/ third_party st d) payload st st1) by (eapply ext_weaken; [|exact E]; intros d <-; by left).
  destruct ok; [done|]. eapply ext_trans; [exact E'|]. eapply ext_weaken; [|apply fallback_hub_ext]. intros d [T _]. right. eapply third_party_same; [apply E|done].
Qed.
Lemma with_fallback_direct_ext st dest payload now : fwd_ext (fun d => d = dest \/ third_party st d) payload st (send_data_with_fallback_direct cfg io obs st dest payload now).
Proof.
  unfold send_data_with_fallback_direct. pose proof (send_direct_ext st dest payload now) as E. destruct (send_menc_direct cfg io st dest payload now) as [st1 ok]. cbn [fst] in E.
  assert (E' : fwd_ext (fun d => d = dest \/ third_party st d) payload st st1) by (eapply ext_weaken; [|exact E]; intros d <-; by left).
  destruct ok; [done|]. eapply ext_trans; [exact E'|]. eapply ext_weaken; [|apply fallback_hub_ext]. intros d [T _]. right. eapply third_party_same; [apply E|done].
Qed.

Lemma with_entry_idx t vip f : rt_ep_to_vip (with_entry t vip f) = rt_ep_to_vip t.
Proof. unfold with_entry. by destruct (rt_table t !! vip). Qed.
Lemma rebuild_idx t vip : rt_ep_to_vip (rebuild_path_ep_index_for_vip t vip) = rt_ep_to_vip t.
Proof. unfold rebuild_path_ep_index_for_vip. repeat (case_match; try done). Qed.
Lemma stamp_idx st vip sel now to payload : fwd_ext to payload st (apply_relay_path_stamp st vip sel now).
Proof.
  apply ext_table. destruct sel as [hop|].
  - unfold stamp_relay_hop. destruct (rt_table (fw_rt st) !! vip); [|done]. by rewrite rebuild_idx, with_entry_idx.
  - unfold clear_relay_path. by rewrite rebuild_idx, with_entry_idx.
Qed.

Lemma relay_hop_ext st hop vip payload now : fwd_ext (fun d => d = hop \/ third_party st d) payload st (send_relay_hop cfg io obs st hop vip payload now).
Proof.
  unfold send_relay_hop. pose proof (send_menc_ext st hop payload now) as E. destruct (send_menc cfg io obs st hop payload now) as [st1 ok]. cbn [fst] in E.
  assert (E' : fwd_ext (fun d => d = hop \/ third_party st d) payload st st1) by (eapply ext_weaken; [|exact E]; intros d <-; by left).
  destruct ok; [done|]. set (st2 := st1 <| fw_rt := _ |>). assert (E2 : fwd_ext (fun d => d = hop \/ third_party st d) payload st st2).
  { eapply ext_trans; [exact E'|]. apply ext_table. unfold note_fail. destruct (vip_for_data_endpoint _ _ _); [|done]. by destruct (rt_table (fw_rt st1) !! _). }
  clearbody st2. destruct (select_relay_endpoint _ _ _ _) as [alt|] eqn:S; [|done]. apply relay_third in S as [T _].
  pose proof (send_menc_ext st2 alt payload now) as E3. destruct (send_menc cfg io obs st2 alt payload now) as [st3 ok]. cbn [fst] in E3.
  assert (E4 : fwd_ext (fun d => d = hop \/ third_party st d) payload st st3).
  { eapply ext_trans; [exact E2|]. eapply ext_weaken; [|exact E3]. intros d <-. right. eapply third_party_same; [apply E2|done]. }
  destruct ok; [|done]. eapply ext_trans; [exact E4|apply stamp_idx].
Qed.

Lemma via_kind_ext st dest kind payload vip now : fwd_ext (fun d => d = dest \/ third_party st d) payload st (send_via_kind cfg io obs st dest kind payload vip now).
Proof.
  unfold send_via_kind. destruct kind; [apply with_fallback_ext| |apply with_fallback_ext]. destruct vip; [apply relay_hop_ext|apply ext_refl].
Qed.

(** Two sends in a row. *)
Lemma via_kind_twice st a ka b kb payload vip now : 
  fwd_ext (fun d => d = a \/ d = b \/ third_party st d) payload st (send_via_kind cfg io obs (send_via_kind cfg io obs st a ka payload vip now) b kb payload vip now).
Proof.
  pose proof (via_kind_ext st a ka payload vip now) as E. eapply ext_trans; [eapply ext_weaken; [|exact E]; naive_solver|].
  eapply ext_weaken; [|apply via_kind_ext]. intros d [->|T]; [by right; left|]. right; right. eapply third_party_same; [apply E|done].
Qed.

(** Where a packet for the known address [dst] may go. *)
Definition path_of (st : Forwarder) (dst : Z) (ep : SocketAddr) (now : Instant) (d : SocketAddr) : Prop :=
  d = ep \/ third_party st d \/ exists vip e k, lookup_vip_by_u32 (fw_rt st) dst = Some vip /\ rt_table (fw_rt st) !! vip = Some e /\
    ((exists ps, re_path_set e = Some ps /\ active_endpoint_kind ps = Some (d, k)) \/ transition_state (fw_rt st) vip now = Some (d, k)).

Lemma choose_target_path st dst ep now target kind sel : choose_target cfg (fw_rt st) (fw_vip st) dst ep = TSend target kind sel -> path_of st dst ep now target.
Proof.
  unfold choose_target. cbv zeta. set (active := if fc_multipath_core cfg then _ else _).
  assert (A : forall a k, active = Some (a, k) -> path_of st dst ep now a).
  { intros a k. unfold active. destruct (fc_multipath_core cfg); [|done]. destruct (lookup_vip_by_u32 _ _) as [vip|] eqn:V; [|done]. cbn [mbind option_bind].
    destruct (rt_table _ !! vip) as [e|] eqn:T; [|done]. cbn [mbind option_bind]. destruct (re_path_set e) as [ps|] eqn:P; [|done]. cbn [mbind option_bind]. intros E.
    right; right. exists vip, e, k. split_and!; [done|done|]. left. by exists ps. }
  assert (B : forall x, x = match active with Some (a, k) => if bool_decide (k = HubRelay) then (ep, Direct) else (a, k) | None => (ep, Direct) end -> path_of st dst ep now x.1).
  { intros x ->. destruct active as [[a k]|] eqn:E; [|by left]. case_bool_decide; [by left|]. by eapply A. }
  clearbody active. specialize (B _ eq_refl). destruct (match active with Some _ => _ | None => _ end) as [t0 k0]. cbn [fst] in B.
  destruct (relay_snapshot_by_u32 _ _) as [rs|]; [|intros X; injection X as <- <- <-; done]. destruct (lookup_vip_by_u32 _ _) as [vip|]; [|intros X; injection X as <- <- <-; done].
  destruct (should_relay_snap _ _); [|intros X; injection X as <- <- <-; done]. destruct (select_relay_endpoint _ _ _ _) as [hop|] eqn:S.
  - intros X. injection X as <- <- <-. right; left. by apply relay_third in S as [T _].
  - case_bool_decide; [done|]. intros X. injection X as <- <- <-. by left.
Qed.

Lemma send_to_peer_ext st dst ep pkt now : fwd_ext (path_of st dst ep now) pkt st (send_to_peer cfg io obs st dst ep pkt now).
Proof.
  unfold send_to_peer. destruct (choose_target cfg (fw_rt st) (fw_vip st) dst ep) as [|target kind sel] eqn:C; [apply ext_refl|]. cbv zeta.
  set (vip := lookup_vip_by_u32 (fw_rt st) dst). set (transition := if fc_dual_write_transition cfg then v ← vip; transition_state (fw_rt st) v now else None). set (prev := fw_prev_path_kind st !! dst).
  assert (TR : forall a k, transition = Some (a, k) -> path_of st dst ep now a).
  { intros a k. unfold transition. destruct (fc_dual_write_transition cfg); [|done]. destruct vip as [v|] eqn:V; [|done]. cbn [mbind option_bind]. intros T. right; right.
    pose proof T as T'. unfold transition_state in T'. destruct (rt_table (fw_rt st) !! v) as [e|] eqn:L; [|done]. exists v, e, k. split_and!; [done|done|by right]. }
  assert (TG : path_of st dst ep now target) by by eapply choose_target_path.
  assert (TH : forall d, third_party st d -> path_of st dst ep now d) by (intros d T; right; by left).
  assert (ONE : fwd_ext (path_of st dst ep now) pkt st (send_via_kind cfg io obs st target kind pkt vip now)).
  { eapply ext_weaken; [|apply via_kind_ext]. intros d [->|T]; [done|by apply TH]. }
  assert (TWO : fwd_ext (path_of st dst ep now) pkt st (match transition with
    | Some (old_ep, old_kind) => send_via_kind cfg io obs (send_via_kind cfg io obs st target kind pkt vip now) old_ep old_kind pkt vip now
    | None => send_via_kind cfg io obs st target kind pkt vip now end)).
  { destruct transition as [[a k]|] eqn:E; [|exact ONE]. eapply ext_weaken; [|apply via_kind_twice]. intros d [->|[->|T]]; [done|by eapply TR|by apply TH]. }
  match goal with |- fwd_ext _ _ _ (match _ with None => ?s | Some _ => _ end) => set (s1 := s) end.
  assert (S1 : fwd_ext (path_of st dst ep now) pkt st s1).
  { unfold s1. destruct (if fc_dual_write_transition cfg then vip else None) as [v|]; [|exact ONE]. destruct prev as [old_kind|]; [|exact TWO].
    destruct (negb _); [|exact TWO]. set (s2 := st <| fw_rt := _ |>). assert (E2 : fwd_ext (path_of st dst ep now) pkt st s2) by (apply ext_table, with_entry_idx).
    eapply ext_trans; [exact E2|]. eapply ext_weaken; [|apply via_kind_twice]. intros d [->|[->|T]]; [done|by left|]. apply TH. eapply third_party_same; [apply E2|done]. }
  clearbody s1. destruct vip as [v|]; [|exact S1]. set (s2 := match sel with Some _ => _ | None => _ end).
  assert (S2 : fwd_ext (path_of st dst ep now) pkt st s2) by (unfold s2; destruct sel; [eapply ext_trans; [exact S1|apply stamp_idx]|exact S1]). clearbody s2.
  set (s3 := if _ && _ then _ else _). assert (S3 : fwd_ext (path_of st dst ep now) pkt st s3).
  { unfold s3. destruct (_ && _); [|exact S2]. eapply ext_trans; [exact S2|]. apply ext_table, with_entry_idx. }
  clearbody s3. eapply ext_trans; [exact S3|]. apply ext_quiet; [by split|]. exists []. by rewrite app_nil_r.
Qed.

Lemma fold_ext {A} (to : SocketAddr -> Prop) payload (f : Forwarder -> A -> Forwarder) l : forall st,
  (forall st' x, x ∈ l -> same_node st st' -> fwd_ext to payload st' (f st' x)) -> fwd_ext to payload st (foldl f st l).
Proof.
  induction l as [|x l IH]; intros st F; cbn [foldl]; [apply ext_refl|]. pose proof (F st x ltac:(left) (same_refl st)) as E. eapply ext_trans; [exact E|].
  apply IH. intros st' y Y S. apply F; [by right|]. eapply same_trans; [apply E|done].
Qed.

(** *** From the adapter *)

Definition tun_target (st : Forwarder) (pkt : bytes) (now : Instant) (d : SocketAddr) : Prop :=
  third_party st d \/
  match lookup_by_vip_u32 (fw_rt st) (dst_of pkt) with
  | Some ep => path_of st (dst_of pkt) ep now d
  | None => is_broadcast_or_multicast pkt = true /\ d ∈ endpoints_excluding_stale (fw_rt st)
  end.

Definition for_me (st : Forwarder) (pkt : bytes) : Prop := dst_of pkt = my_vip_u32 (fw_crypto st) /\ my_vip_u32 (fw_crypto st) <> 0.

Lemma ext_dedup to payload st d : fwd_ext to payload st (st <| fw_dedup := d |>).
Proof. apply ext_quiet; [by split|]. exists []. by rewrite app_nil_r. Qed.


(** *** From a peer *)

Lemma touch_ext to payload st from now : fwd_ext to payload st (touch st from now).
Proof.
  unfold touch. set (s1 := st <| fw_last_seen := _ |>). assert (E : fwd_ext to payload st s1) by (apply ext_quiet; [by split|]; exists []; by rewrite app_nil_r).
  destruct (is_endpoint_stale _ _); [|exact E]. eapply ext_trans; [exact E|]. apply ext_table. unfold promote_stale_if_needed.
  destruct (rt_ep_to_vip _ !! _); [|done]. destruct (rt_table _ !! _); [|done]. case_bool_decide; [apply with_entry_idx|done].
Qed.

Lemma forward_broadcast_ext st raw from now : fwd_ext (fun d => d <> from) raw st (forward_broadcast cfg io st raw from now).
Proof.
  unfold forward_broadcast. set (hub := if broadcast_need_relay _ _ then _ else _). set (direct := match hub with Some h => filter (fun ep => ep <> h) (broadcast_direct (fw_rt st) from) | None => broadcast_direct (fw_rt st) from end).
  assert (D : forall x, x ∈ direct -> x <> from).
  { assert (B : forall x, x ∈ broadcast_direct (fw_rt st) from -> x <> from).
    { intros x (y & -> & [Y _]%list_elem_of_filter)%list_elem_of_fmap. apply andb_true_iff in Y as [Y _]. by case_bool_decide. }
    unfold direct. intros x X. destruct hub; [apply list_elem_of_filter in X as [_ X]|]; by apply B. }
  assert (S : fwd_ext (fun d => d <> from) raw st (foldl (fun st ep => (send_menc_forward cfg io st ep raw now).1) st direct)).
  { apply fold_ext. intros s x X _. eapply ext_weaken; [|apply send_forward_ext]. intros d <-. by apply D. }
  destruct hub as [h|]; [|exact S]. case_bool_decide as H2; [exact S|]. eapply ext_trans; [exact S|]. eapply ext_weaken; [|apply send_forward_ext]. by intros d <-.
Qed.

(** What a peer's packet does to the trace: nothing but forwarding, or one injection and then forwarding. *)
Lemma mdat_cases st raw from now : let st' := handle_mdat_like cfg hash io st raw from now in
  fwd_ext (fun d => d <> from) raw st st' \/
  exists s1, fwd_ext (fun d => d <> from) raw st s1 /\ fw_out s1 = fw_out st /\ fwd_ext (fun d => d <> from) raw (emit s1 (Inject raw)) st' /\
    (is_broadcast_or_multicast raw = true \/ for_me st raw /\ st' = emit s1 (Inject raw)).
Proof.
  cbv zeta. unfold handle_mdat_like. destruct (_ <? 20); [left; apply ext_refl|]. pose proof (touch_ext (fun d => d <> from) raw st from now) as E1.
  assert (O1 : fw_out (touch st from now) = fw_out st) by (unfold touch; by destruct (is_endpoint_stale _ _)). set (s1 := touch st from now) in *. cbv zeta.
  set (scope := if fc_dual_write_transition cfg then _ else _). set (x := match scope with Some _ => _ | None => _ end).
  assert (E2 : fwd_ext (fun d => d <> from) raw st x.1 /\ fw_out x.1 = fw_out st /\ my_vip_u32 (fw_crypto x.1) = my_vip_u32 (fw_crypto st)).
  { assert (M : my_vip_u32 (fw_crypto s1) = my_vip_u32 (fw_crypto st)) by apply E1. unfold x. destruct scope as [v|]; [|done].
    destruct (is_fresh_scoped _ _ _ _ _) as [d fresh]. cbn. split_and!; [|done|done]. eapply ext_trans; [exact E1|apply ext_dedup]. }
  destruct x as [s2 go]. cbn [fst] in E2. destruct E2 as (E2 & O2 & M2). destruct (negb go); [by left|]. destruct (is_broadcast_or_multicast raw) eqn:B.
  - destruct (is_fresh _ _ _ _) as [d fresh]. set (s3 := s2 <| fw_dedup := d |>). assert (E3 : fwd_ext (fun d => d <> from) raw st s3) by (eapply ext_trans; [exact E2|apply ext_dedup]).
    destruct fresh; [right|by left]. exists (note_rx_bytes s3 from (len raw)). split_and!; [|done|apply forward_broadcast_ext|by left].
    eapply ext_trans; [exact E3|]. apply ext_quiet; [by split|]. exists []. by rewrite app_nil_r.
  - destruct (_ && _) eqn:M.
    + right. exists (note_rx_bytes_for_dst s2 (dst_of raw) (len raw)). split_and!; [|done|apply ext_refl|right; split; [|done]].
      * eapply ext_trans; [exact E2|]. apply ext_quiet; [by split|]. exists []. by rewrite app_nil_r.
      * apply andb_true_iff in M as [N1%Z.eqb_eq N2]. unfold for_me. rewrite <- M2. split; [done|]. by destruct (Z.eqb_spec (my_vip_u32 (fw_crypto s2)) 0).
    + left. case_bool_decide; [|exact E2]. destruct (lookup_by_vip_u32 _ _) as [ep|]; [|exact E2]. case_bool_decide as D; [exact E2|].
      eapply ext_trans; [exact E2|]. eapply ext_weaken; [|apply send_forward_ext]. by intros d <-.
Qed.

(** C24. A packet from a peer is never sent back to that peer.  It is given to the adapter at most once, and
    only if it is addressed to this node or a broadcast; one addressed to this node is not forwarded.  While
    there is a key, every frame forwarded is this packet sealed for the owner of its endpoint. *)
Theorem peer_packet_forwarded st raw from now : let st' := handle_mdat_like cfg hash io st raw from now in
  exists new, fw_out st' = fw_out st ++ new /\ framed (fun d => d <> from) raw st st' new /\
    (injected new = [] \/ injected new = [raw] /\ (is_broadcast_or_multicast raw = true \/ for_me st raw /\ frames new = [])).
Proof.
  cbv zeta. destruct (mdat_cases st raw from now) as [[_ (new & O & I & F)]|(s1 & E1 & O1 & E2 & M)].
  - exists new. split_and!; [done|done|by left].
  - set (st' := handle_mdat_like cfg hash io st raw from now) in *. destruct E2 as [S2 (n2 & O2 & I2 & F2)]. exists (Inject raw :: n2).
    assert (S : same_node st (emit s1 (Inject raw))) by (eapply same_trans; [apply E1|by split]). split; [rewrite O2; cbn; by rewrite O1, <- app_assoc|]. split.
    + assert (E : fwd_ext (fun d => d <> from) raw st (st' <| fw_out := fw_out st ++ n2 |>)).
      { eapply (ext_trans _ _ _ (s1 <| fw_out := fw_out st |>)).
        - apply ext_quiet; [eapply same_trans; [apply E1|by split]|]. exists []. by rewrite app_nil_r.
        - split; [destruct S2; by split|]. exists n2. split_and!; [done|done|exact F2]. }
      destruct E as [_ (n & O & _ & F)]. cbn in O. apply app_inv_head in O as <-. exact F.
    + right. change (injected (Inject raw :: n2)) with (raw :: injected n2). split; [by rewrite I2|]. destruct M as [B|[M E]]; [by left|right]. split; [done|].
      assert (N : n2 = []). { assert (L : fw_out st' = fw_out (emit s1 (Inject raw))) by (by rewrite E). rewrite O2 in L. rewrite <- (app_nil_r (fw_out (emit s1 (Inject raw)))) in L at 2. by apply app_inv_head in L. }
      by rewrite N.
Qed.

(** *** A broadcast is let through once *)

Lemma oversize_dedup st dest now : fw_dedup (note_pmtud_tx_oversize cfg st dest now) = fw_dedup st.
Proof.
  unfold note_pmtud_tx_oversize, apply_suggested_mtu. destruct (_ || _); [done|]. destruct (try_apply_adapter_mtu _ _ _) as [a []]; cbn;
    (destruct (request_revalidate _ _ _) as [d []]; done).
Qed.
Lemma send_forward_dedup st dest payload now : fw_dedup (send_menc_forward cfg io st dest payload now).1 = fw_dedup st.
Proof.
  unfold send_menc_forward. assert (M : fw_dedup (menc_frame st dest payload).1 = fw_dedup st).
  { unfold menc_frame. destruct (negb _); [done|]. destruct (ep_vip_u32 _ _); [|done]. destruct (_ =? 0); [done|]. by destruct (encrypt_framed_packet_reuse _ _ _ _). }
  destruct (menc_frame st dest payload) as [st1 [pkt|]]; [|done]. cbn [fst] in M. rewrite <- M. destruct (fc_rawperf_mode cfg).
  - unfold raw_send. destruct (negb _); [apply oversize_dedup|done].
  - cbn [fst]. unfold enqueue_normal_packet. destruct (negb _); [apply oversize_dedup|]. by destruct (tx_path_hints _ _ _) as [[[] ?] ?].
Qed.
Lemma forward_broadcast_dedup st raw from now : fw_dedup (forward_broadcast cfg io st raw from now) = fw_dedup st.
Proof.
  unfold forward_broadcast. set (direct := match _ with Some h => filter (fun ep => ep <> h) _ | None => _ end). clearbody direct.
  assert (F : forall s, fw_dedup (foldl (fun st ep => (send_menc_forward cfg io st ep raw now).1) s direct) = fw_dedup s).
  { induction direct as [|x l IH]; intros s; [done|]. cbn [foldl]. by rewrite IH, send_forward_dedup. }
  destruct (if broadcast_need_relay _ _ then _ else _) as [h|]; [|apply F]. case_bool_decide; [apply F|]. by rewrite send_forward_dedup.
Qed.

(** The scoped check that comes first adds at most one key. *)
Lemma accept_history d key now last h : represents last h d -> last <= now -> exists h', represents now h' (accept_key (evict d now) key now).1 /\
  (accept_key (evict d now) key now).2 = (spec_arrive h key now).2 /\ h' = (spec_arrive h key now).1.
Proof.
  intros R L. pose proof (arrive_represents last h d key now L R) as A. destruct (accept_key _ _ _) as [d' b]. destruct (spec_arrive _ _ _) as [h' b'].
  destruct A as [-> A]. by exists h'.
Qed.

Definition scoped_history (h h0 : list (Instant * Z)) (now : Instant) : Prop := h0 = h \/ (exists k, h0 = h ++ [(now, k)]).

Lemma mdat_broadcast st raw from now last h : is_broadcast_or_multicast raw = true -> represents last h (fw_dedup st) -> last <= now ->
  let st' := handle_mdat_like cfg hash io st raw from now in
  fw_out st' = fw_out st \/
  exists h0, scoped_history h h0 now /\ ~ (make_key hash raw ∈ recent h0 now) /\ represents now (h0 ++ [(now, make_key hash raw)]) (fw_dedup st').
Proof.
  intros B R L. cbv zeta. unfold handle_mdat_like. destruct (_ <? 20); [by left|].
  assert (T : fw_dedup (touch st from now) = fw_dedup st /\ fw_out (touch st from now) = fw_out st) by (unfold touch; by destruct (is_endpoint_stale _ _)).
  destruct T as [TD TO]. set (s1 := touch st from now) in *. clearbody s1. cbv zeta. set (scope := if fc_dual_write_transition cfg then _ else _). set (x := match scope with Some _ => _ | None => _ end).
  assert (X : fw_out x.1 = fw_out st /\ exists h0 lt, scoped_history h h0 now /\ represents lt h0 (fw_dedup x.1) /\ lt <= now).
  { unfold x. destruct scope as [v|]; [|cbn; rewrite TD; split; [done|]; exists h, last; split_and!; [by left|done|done]].
    unfold is_fresh_scoped. destruct (accept_history (fw_dedup s1) (make_scoped_key hash (str_bytes v) raw) now last h ltac:(by rewrite TD) L) as (h' & R' & _ & E).
    destruct (accept_key _ _ _) as [d b]. cbn [fst] in *. split; [done|]. exists h', now. split_and!; [|exact R'|lia]. unfold spec_arrive in E. case_bool_decide; [by left|].
    right. by eexists. }
  destruct x as [s2 go]. cbn [fst] in X. destruct X as (O & h0 & lt & SH & R0 & L0). destruct (negb go); [by left|]. rewrite B. unfold is_fresh.
  destruct (accept_history (fw_dedup s2) (make_key hash raw) now lt h0 R0 L0) as (h' & R' & E & E'). destruct (accept_key _ _ _) as [d fresh]. cbn [fst snd] in *.
  unfold spec_arrive in E, E'. case_bool_decide as K; cbn [fst snd] in E, E'; subst fresh h'; [by left|]. right. exists h0. split_and!; [done|done|].
  by rewrite forward_broadcast_dedup.
Qed.

Lemma lastn_snoc {A} n (l : list A) x : (0 < n)%nat -> x ∈ lastn n (l ++ [x]).
Proof.
  intros N. unfold lastn. rewrite drop_app_le by (rewrite length_app; cbn; lia). set_solver.
Qed.
Lemma lastn_snoc2 {A} n (l : list A) x y : (1 < n)%nat -> x ∈ lastn n ((l ++ [x]) ++ [y]).
Proof.
  intros N. unfold lastn. rewrite drop_app_le by (rewrite !length_app; cbn; lia). rewrite drop_app_le by (rewrite !length_app; cbn; lia). set_solver.
Qed.

(** When a broadcast was let through and the next packet from a peer, within two seconds, is a copy of
    it, from whichever peer and over whichever relay, the copy reaches neither the adapter nor any peer. *)
Theorem broadcast_once st raw from1 from2 t1 t2 last h : is_broadcast_or_multicast raw = true -> represents last h (fw_dedup st) -> last <= t1 <= t2 -> t2 < t1 + TTL ->
  let st1 := handle_mdat_like cfg hash io st raw from1 t1 in
  let st2 := handle_mdat_like cfg hash io st1 raw from2 t2 in
  fw_out st1 <> fw_out st -> fw_out st2 = fw_out st1.
Proof.
  intros B R L T. cbv zeta. intros N. destruct (mdat_broadcast st raw from1 t1 last h B R ltac:(lia)) as [E|(h0 & _ & _ & R1)]; [done|].
  destruct (mdat_broadcast (handle_mdat_like cfg hash io st raw from1 t1) raw from2 t2 t1 _ B R1 ltac:(lia)) as [E|(h1 & S & K & _)]; [done|]. exfalso. apply K.
  unfold recent. apply list_elem_of_fmap. exists (t1, make_key hash raw). split; [done|]. apply list_elem_of_filter. split; [unfold fresh_at, duration_since, sat_sub; cbn; unfold TTL in *; lia|].
  destruct S as [->|(k & ->)]; [apply lastn_snoc; vm_compute; lia|apply lastn_snoc2; vm_compute; lia].
Qed.

(** *** A known destination is served *)

(** [f] is among what was handed over, or offered to the socket, between two states. *)
Definition sends (f : SocketAddr * bytes) (st st' : Forwarder) : Prop := exists new, fw_out st' = fw_out st ++ new /\ f ∈ frames new.

Lemma sends_ext f to payload a b c : sends f a b -> fwd_ext to payload b c -> sends f a c.
Proof. intros (n & O & F) [_ (n' & O' & _)]. exists (n ++ n'). rewrite O', O, app_assoc, frames_app. split; [done|]. set_solver. Qed.

Lemma enqueue_sends st pkt dest now : data_udp_fits_path st dest (len pkt) = true -> sends (dest, pkt) st (enqueue_normal_packet cfg st pkt dest now).
Proof.
  intros F. unfold enqueue_normal_packet. rewrite F. cbn [negb]. destruct (tx_path_hints _ _ _) as [[vip rtt] qd].
  destruct vip; (exists [Pace dest pkt rtt qd]; split; [done|]; left).
Qed.
Lemma fec_send_sends st dest pkt now : data_udp_fits_path st dest (len pkt) = true -> sends (dest, pkt) st (fec_send cfg io obs st dest pkt now).
Proof.
  intros F. unfold fec_send. destruct (negb _); [by apply enqueue_sends|]. destruct (_ <? _); [by apply enqueue_sends|].
  destruct (effective_shard_payload_size _ _) as [eff|]; [|by apply enqueue_sends]. destruct (eff <? _); [by apply enqueue_sends|]. cbv zeta.
  destruct (choose_ratio _ _ _ _ _) as [ratio [ds ps]]. set (s1 := st <| fw_fec := _ |>). destruct (_ || _); [exact (enqueue_sends s1 pkt dest now F)|].
  destruct (tx_path_hints _ _ _) as [[vip rtt] qd]. unfold attempt. cbn beta iota zeta. destruct (io _); [|match goal with |- sends _ _ (enqueue_normal_packet _ ?s _ _ _) => exact (enqueue_sends s pkt dest now F) end].
  eexists [Push _ _ _ _ _ _ _]. split; [done|]. left.
Qed.

Lemma menc_frame_keeps st dest payload st1 frame : menc_frame st dest payload = (st1, frame) -> fw_out st1 = fw_out st /\ fw_pmtud st1 = fw_pmtud st.
Proof.
  unfold menc_frame. destruct (negb _); [intros X; by injection X as <- <-|]. destruct (ep_vip_u32 _ _); [|intros X; by injection X as <- <-].
  destruct (_ =? 0); [intros X; by injection X as <- <-|]. destruct (encrypt_framed_packet_reuse _ _ _ _). intros X. by injection X as <- <-.
Qed.
Lemma send_menc_sends st dest payload now st1 pkt : menc_frame st dest payload = (st1, Some pkt) -> data_udp_fits_path st dest (len pkt) = true ->
  sends (dest, pkt) st (send_menc cfg io obs st dest payload now).1.
Proof.
  intros M F. unfold send_menc. rewrite M. apply menc_frame_keeps in M as [O P].
  assert (F1 : data_udp_fits_path st1 dest (len pkt) = true) by (unfold data_udp_fits_path; by rewrite P).
  enough (S : sends (dest, pkt) st1 (if fc_rawperf_mode cfg then raw_send cfg io st1 dest pkt now else (fec_send cfg io obs st1 dest pkt now, true)).1).
  { destruct S as (n & E & I). exists n. by rewrite E, O. }
  destruct (fc_rawperf_mode cfg); [|by apply fec_send_sends]. unfold raw_send. rewrite F1. cbn [negb]. exists [Wire dest pkt (io (fw_io st1))]. split; [done|left].
Qed.

Lemma via_kind_sends st target kind payload vip now st1 pkt : menc_frame st target payload = (st1, Some pkt) -> data_udp_fits_path st target (len pkt) = true ->
  (kind = HubRelay -> is_Some vip) -> sends (target, pkt) st (send_via_kind cfg io obs st target kind payload vip now).
Proof.
  intros M F V. pose proof (send_menc_sends st target payload now st1 pkt M F) as S. unfold send_via_kind.
  assert (D : sends (target, pkt) st (send_data_with_fallback cfg io obs st target payload now)).
  { unfold send_data_with_fallback. destruct (send_menc cfg io obs st target payload now) as [s ok]. destruct ok; [exact S|]. eapply (sends_ext _ _ payload); [exact S|apply fallback_hub_ext]. }
  destruct kind; [exact D| |exact D]. destruct (V eq_refl) as [v ->]. unfold send_relay_hop. destruct (send_menc cfg io obs st target payload now) as [s ok]. cbn [fst] in S.
  destruct ok; [exact S|]. set (s2 := s <| fw_rt := _ |>). assert (S2 : sends (target, pkt) st s2) by exact S. destruct (select_relay_endpoint _ _ _ _) as [alt|]; [|exact S2].
  pose proof (send_menc_ext s2 alt payload now) as E. destruct (send_menc cfg io obs s2 alt payload now) as [s3 ok3]. cbn [fst] in E.
  assert (S3 : sends (target, pkt) st s3) by by eapply sends_ext. destruct ok3; [|exact S3]. eapply (sends_ext _ (fun _ => True) payload); [exact S3|apply stamp_idx].
Qed.

(** A change of the table that keeps the index does not change the frame. *)
Lemma menc_frame_table st t dest payload st1 pkt : rt_ep_to_vip t = rt_ep_to_vip (fw_rt st) -> menc_frame st dest payload = (st1, Some pkt) ->
  exists st2, menc_frame (st <| fw_rt := t |>) dest payload = (st2, Some pkt).
Proof.
  intros X. unfold menc_frame, has_crypto, ep_vip_u32. cbn. rewrite X. destruct (negb _); [intros E; injection E as <- <-; by eexists|].
  destruct (vip ← rt_ep_to_vip (fw_rt st) !! dest; ipv4_to_u32 vip) as [v|]; [|done]. destruct (_ =? 0); [done|]. destruct (encrypt_framed_packet_reuse _ _ _ _) as [c r].
  intros E. injection E as <- E. rewrite E. by eexists.
Qed.

End Frames.

(** ** Concrete runs *)

Module FwdRuns.
#[local] Existing Instance canonical_iter.
#[local] Existing Instance Toy.toy_aead.
#[local] Existing Instance Toy.toy_kdf.
Definition cfg : FwdConfig :=
  mkFwdConfig false true true false 1200 (mkRatioConfig None f0 f0 false 0 f0 0) 32 false 250 600 true.
Definition hash (l : list HashWrite) : Z := foldl (fun acc w => wrap 64 (acc * 31 + match w with WSlice b => be_val b | WLen n => n end)) 7 l.
Definition io (n : nat) : bool := true.
Definition obs (d : SocketAddr) : Z * Z := (0, 100).
Definition me : Z := be_val [10; 1; 1; 2].
Definition direct : SocketAddr := mkAddr (V4 3221225985) 4000.
Definition relay : SocketAddr := mkAddr (V4 3221225986) 4000.
Definition third : SocketAddr := mkAddr (V4 3221225987) 4000.
Definition table : RoutingTable := rt_update (rt_update (new_table 0) "10.1.1.7" direct None 0) "10.1.1.8" relay None 0.
Definition degraded : RoutingTable := with_entry table "10.1.1.7" (fun e => e <| re_state := Degraded |>).
Definition start (c : EngineCrypto) (t : RoutingTable) : Forwarder :=
  mkFwd c "10.1.1.2" t new_dedup ∅ new_pmtud ∅ (mkAdapter None 0 None) ∅ ∅ ∅ 0 [].
Definition keyed : EngineCrypto := fresh_engine me [5].
Definition plain : EngineCrypto := mkEngine me new_pool ∅ ∅ ∅ ∅ ∅ 0 new_ctrl_replay (new_limiter (f64_of_Z 400) (f64_of_Z 400) 0).
Definition ip (dst : list Z) : bytes := [69; 0; 0; 20; 0; 1; 0; 0; 64; 17; 0; 0; 10; 1; 1; 2] ++ dst.
Definition run (st : Forwarder) (pkt : bytes) (now : Instant) : Forwarder := handle_tun_packet cfg hash io obs st pkt now.


Definition hello : bytes := ip [255; 255; 255; 255].
Definition once : Forwarder := handle_mdat_like cfg hash io (start plain table) hello direct 0.
Lemma broadcast_once_witness : fw_out once <> [] /\ fw_out (handle_mdat_like cfg hash io once hello third (from_millis 5)) = fw_out once.
Proof.
  assert (N : fw_out once <> []) by (vm_compute; discriminate). split; [exact N|]. unfold once.
  apply (broadcast_once cfg hash io (start plain table) hello direct third 0 (from_millis 5) 0 []); [by vm_compute| |unfold from_millis; lia|by vm_compute|exact N].
  split; cbn; [done|constructor|vm_compute; intros X; discriminate X|constructor|constructor|]. exists []. split; [done|by left].
Defined.

(** When a destination returns from a relay to its direct path, the packet is to be written to both paths for
    a while; but the second copy goes to the direct endpoint as well, and none to the relay hop that was in
    use. *)
Theorem old_path_not_written :
  let relayed := run (start plain degraded) (ip [10; 1; 1; 7]) 0 in
  let recovered := relayed <| fw_rt := table |> in
  (frames (fw_out relayed)).*1 = [relay] /\ (frames (fw_out (run recovered (ip [10; 1; 1; 7]) 1))).*1 = [relay; direct; direct].
Proof. by split; vm_compute. Qed.
End FwdRuns.
