(* ===== verification/Json.v ===== *)
(** * JSON values (the serde_json values that src/net/engine.rs reads and writes)

    The value type and the accessors the engine uses.  Writing and reading text belong to the serde_json
    crate and are the class [JsonText]; [JsonLaws] states that reading inverts writing on the values the
    engine writes.  [ToyJson] is an instance. *)

From S2P Require Import Prelude Text Float.
From Stdlib Require Import Ascii String.
#[local] Open Scope Z_scope.

(** An object lists its fields in the order of their keys. *)
Unset Elimination Schemes.
Inductive Json :=
| JNull | JBool (b : bool) | JInt (z : Z) | JFloat (x : f64) | JStr (s : string) | JArr (l : list Json) | JObj (l : list (string * Json)).
Set Elimination Schemes.

Lemma Json_ind (P : Json -> Prop) : P JNull -> (forall b, P (JBool b)) -> (forall z, P (JInt z)) -> (forall x, P (JFloat x)) -> (forall s, P (JStr s)) ->
  (forall l, Forall P l -> P (JArr l)) -> (forall l, Forall (fun x => P x.2) l -> P (JObj l)) -> forall v, P v.
Proof.
  intros HN HB HI HF HS HA HO. fix IH 1. intros [|b|z|x|s|l|l]; [done|apply HB|apply HI|apply HF|apply HS|apply HA|apply HO].
  - revert l. fix IHl 1. intros [|v l]; constructor; [apply IH|apply IHl].
  - revert l. fix IHl 1. intros [|[key v] l]; constructor; [apply IH|apply IHl].
Qed.

Definition get (k : string) (v : Json) : option Json :=
  match v with JObj l => snd <$> List.find (fun x => bool_decide (x.1 = k)) l | _ => None end.
Definition as_str (v : Json) : option string := match v with JStr s => Some s | _ => None end.
Definition as_u64 (v : Json) : option Z := match v with JInt z => if (0 <=? z) && (z <=? U64_MAX) then Some z else None | _ => None end.
Definition as_array (v : Json) : option (list Json) := match v with JArr l => Some l | _ => None end.

(** [v.get(k).and_then(as_str).unwrap_or("")] and the like. *)
Definition str_field (k : string) (v : Json) : string := default EmptyString (get k v ≫= as_str).
Definition u64_field (k : string) (v : Json) : Z := default 0 (get k v ≫= as_u64).

(** ** Text *)

(** Besides text: [from_value] of a list of candidates, and the time stamp of a message of the pairing protocol, by tag. *)
Class JsonText := {
  json_bytes : Json -> bytes; json_parse : bytes -> option Json;
  read_candidates : Json -> option (list Json); para_ts : bytes -> bytes -> option Z
}.

(** A Rust string is UTF-8. *)
Definition cont (b : Z) : bool := (128 <=? b) && (b <=? 191).
Fixpoint utf8 (l : bytes) : bool :=
  match l with
  | [] => true
  | b0 :: r =>
      if (0 <=? b0) && (b0 <=? 127) then utf8 r
      else match r with
           | b1 :: r1 =>
               if (194 <=? b0) && (b0 <=? 223) then cont b1 && utf8 r1
               else match r1 with
                    | b2 :: r2 =>
                        if (224 <=? b0) && (b0 <=? 239)
                        then cont b1 && cont b2 && negb ((b0 =? 224) && (b1 <? 160)) && negb ((b0 =? 237) && (159 <? b1)) && utf8 r2
                        else match r2 with
                             | b3 :: r3 =>
                                 (240 <=? b0) && (b0 <=? 244) && cont b1 && cont b2 && cont b3 &&
                                 negb ((b0 =? 240) && (b1 <? 144)) && negb ((b0 =? 244) && (143 <? b1)) && utf8 r3
                             | [] => false
                             end
                    | [] => false
                    end
           | [] => false
           end
  end.
Definition text_ok (s : string) : bool := utf8 (str_bytes s).

Fixpoint ascending (l : list string) : bool :=
  match l with x :: (y :: _) as r => str_lt x y && ascending r | _ => true end.

(** The values the engine writes: integers in the range of the crate, no floats, each key once. *)
Fixpoint json_ok (v : Json) : bool :=
  match v with
  | JNull | JBool _ => true
  | JInt z => (- 2 ^ 63 <=? z) && (z <=? U64_MAX)
  | JFloat _ => false
  | JStr s => text_ok s
  | JArr l => forallb json_ok l
  | JObj l => forallb (fun x => text_ok x.1 && json_ok x.2) l && ascending (fst <$> l)
  end.

Class JsonLaws `{JsonText} : Prop := { json_roundtrip : forall v, json_ok v = true -> json_parse (json_bytes v) = Some v }.

(** ** An instance *)

Module ToyJson.
Abbreviation Tree := (gen_tree (string + Z)).

Fixpoint to_tree (v : Json) : Tree :=
  match v with
  | JNull | JFloat _ => GenNode 0 []
  | JBool b => GenNode (if b then 1 else 2) []
  | JInt z => GenLeaf (inr z)
  | JStr s => GenLeaf (inl s)
  | JArr l => GenNode 3 (to_tree <$> l)
  | JObj l => GenNode 4 ((fun x => GenNode 5 [GenLeaf (inl x.1); to_tree x.2]) <$> l)
  end.
Fixpoint of_tree (t : Tree) : Json :=
  match t with
  | GenLeaf (inr z) => JInt z
  | GenLeaf (inl s) => JStr s
  | GenNode 1 _ => JBool true
  | GenNode 2 _ => JBool false
  | GenNode 3 l => JArr (of_tree <$> l)
  | GenNode 4 l => JObj ((fun t => match t with GenNode _ [GenLeaf (inl k); u] => (k, of_tree u) | _ => (EmptyString, JNull) end) <$> l)
  | _ => JNull
  end.

Lemma of_to_tree v : json_ok v = true -> of_tree (to_tree v) = v.
Proof.
  induction v as [|[]|z|x|s|l IH|l IH]; intros O; try done; cbn in O |- *; f_equal; rewrite <- list_fmap_compose.
  - rewrite forallb_forall in O. rewrite <- (list_fmap_id l) at 2. apply list_fmap_ext. intros i v L%list_elem_of_lookup_2. rewrite Forall_forall in IH. apply IH; [done|].
    by apply O, list_elem_of_In.
  - apply andb_true_iff in O as [O _]. rewrite forallb_forall in O. rewrite <- (list_fmap_id l) at 2. apply list_fmap_ext. intros i [key v] L%list_elem_of_lookup_2. cbn.
    rewrite Forall_forall in IH. f_equal. apply (IH (key, v) L). apply list_elem_of_In in L. apply O in L. by apply andb_true_iff in L as [_ L].
Qed.

Fixpoint bits (p : positive) : bytes := match p with xH => [2] | xO p => 0 :: bits p | xI p => 1 :: bits p end.
Fixpoint unbits (l : bytes) : option positive :=
  match l with
  | [2] => Some xH
  | b :: l => p ← unbits l; if b =? 0 then Some (xO p) else if b =? 1 then Some (xI p) else None
  | [] => None
  end.
Lemma unbits_bits p : unbits (bits p) = Some p.
Proof. induction p as [p IH|p IH|]; cbn; [..|done]; by rewrite IH; destruct p. Qed.

Definition toy_json : JsonText := {|
  json_bytes v := bits (encode (to_tree v)); json_parse l := p ← unbits l; of_tree <$> decode p;
  read_candidates _ := None; para_ts _ _ := None |}.
Lemma toy_json_laws : @JsonLaws toy_json.
Proof. split. intros v O. cbn. rewrite unbits_bits. cbn. rewrite decode_encode. cbn. by rewrite of_to_tree. Qed.
End ToyJson.
