(* ===== verification/Members.v ===== *)
(** * Membership in the engine (src/net/engine.rs)

    How a node learns who the members are, where they are, and which address it may call its own: the
    control messages that carry claims, leaves, joins, punches and heartbeats ([dispatch_control]), the
    settlement of address conflicts, the change of the local address, the route updates, the eviction of
    silent members, and the gossip that is sent out.

    The state is a [Member]; what it asks of other parts of the engine (reliable channel, error correction,
    pacing, punching, handlers of the application, packets to send) is a trace of [MemberEffect]s.  JSON is
    in Json; the text forms of socket addresses are the parameter [AddrText].  One clock reading serves a
    whole handler, and [ts] is the wall clock.  The theorems are in MembersSafe. *)

From Stdlib Require Import Ascii String.
From S2P Require Import Prelude Text Float Packet Crypto Limiter CryptoPool Claim Gossip Tuning Paths Routing Json.
#[local] Open Scope Z_scope.

Class AddrText := { show_addr : SocketAddr -> string; parse_addr : string -> option SocketAddr }.

(** ** State *)

Record JoinAck := mkJoinAck {
  ja_peer_vip : string; ja_peer_node_id : string; ja_subnet_prefix : Z; ja_peer_endpoint : SocketAddr; ja_local_vip : string; ja_vip_epoch : Z
}.

Inductive MemberEffect :=
| EfSend (dest : SocketAddr) (tag body : bytes)
| EfRouteRemoved (v : string) (nid : option string)
| EfStopReconnect (v : string)
| EfMigrate (prev ep : SocketAddr)
| EfFlush (ep : SocketAddr)
| EfInvalidateFec (ep : SocketAddr)
| EfRefreshFec (ep : SocketAddr)
| EfForgetPeer (ep : SocketAddr)
| EfTeardown (ep : SocketAddr)
| EfEndpointLearned (v : string) (ep : SocketAddr)
| EfRosterUpsert (v : string) (ep : SocketAddr) (nid : string) (epoch : Z)
| EfRosterRemove (v : string)
| EfLeft (v : string)
| EfIdentity (old new : string) (epoch : Z)
| EfIce (nid : string) (candidates : list Json)
| EfStopIce (nid : string)
| EfJoinResult (ack : option JoinAck)
| EfJoinWaitFinished
| EfReliable (dest : SocketAddr) (body : bytes)
| EfSealRetransmit (dest : SocketAddr) (tag body : bytes)
| EfPruneDecoders
| EfPara (tag body : bytes) (from : SocketAddr).

Record Member := mkMember {
  mb_vip : string; mb_node_id : string; mb_epoch : Z; mb_prefix : Z; mb_keys : CryptoPool; mb_candidates : Json;
  mb_claims : ClaimMap; mb_tombs : Tombs; mb_fights : Fights; mb_rt : RoutingTable;
  mb_retry_after : option Instant; mb_pending_gossip : bool; mb_digest_cursor : Z; mb_fanout_cursor : Z;
  mb_last_seen : gmap SocketAddr Instant; mb_msmd_seen : gset string; mb_msmd_timeline : list (Instant * string);
  mb_ctrl_limiter : ControlRateLimiter; mb_join_limiter : ControlRateLimiter; mb_join_ip_limiter : ControlRateLimiter;
  mb_joining : bool; mb_joiner : bool; mb_pending_ack : option JoinAck; mb_out : list MemberEffect
}.
#[export] Instance eta_Member : Settable Member := fun r =>
  mkMember (mb_vip r) (mb_node_id r) (mb_epoch r) (mb_prefix r) (mb_keys r) (mb_candidates r) (mb_claims r) (mb_tombs r) (mb_fights r) (mb_rt r)
    (mb_retry_after r) (mb_pending_gossip r) (mb_digest_cursor r) (mb_fanout_cursor r) (mb_last_seen r) (mb_msmd_seen r) (mb_msmd_timeline r)
    (mb_ctrl_limiter r) (mb_join_limiter r) (mb_join_ip_limiter r) (mb_joining r) (mb_joiner r) (mb_pending_ack r) (mb_out r).

Definition out (st : Member) (e : MemberEffect) : Member := st <| mb_out := mb_out st ++ [e] |>.
Definition outs (st : Member) (l : list MemberEffect) : Member := st <| mb_out := mb_out st ++ l |>.

Definition VIP_REROLL_RETRY_INTERVAL : Duration := from_secs 30.
Definition WIRE_PROTOCOL_VERSION : Z := 8.

(** ** Checks *)

Definition has_crypto (st : Member) : bool := has_any (mb_keys st).

(** [is_unspecified], [is_multicast] and [is_loopback]; an IPv6 address is a 128-bit number. *)
Definition bad_ip (ip : IpAddr) : bool :=
  match ip with
  | V4 a => (a =? 0) || ((224 <=? a / 16777216) && (a / 16777216 <=? 239)) || (a / 16777216 =? 127)
  | V6 a => (a =? 0) || (a / 2 ^ 120 =? 255) || (a =? 1)
  end.
Definition is_valid_sync_endpoint (ep : SocketAddr) : bool :=
  if bad_ip (sa_ip ep) then false
  else match sa_ip ep with V4 a => negb ((a / 16777216 =? 169) && (a / 65536 mod 256 =? 254)) | V6 _ => true end.

Definition is_recent_para_ts (now ts_ms : Z) : bool := (if ts_ms <=? now then now - ts_ms else ts_ms - now) <=? 90000.

Definition allow_unauth_control_tag_with_crypto (tag : bytes) : bool :=
  bool_decide (tag ∈ [PKT_MERR; PKT_PMTU; PKT_PMAR; PKT_BREK; PKT_RDYS; PKT_MSTR; PKT_PARA_HELLO; PKT_PARA_REPLY; PKT_PARA_OK; PKT_PARA_PUNCH_ACK;
                      PKT_KPAL; PKT_HPCH; PKT_HACK; PKT_MCTL]).

Definition prefix_field (v : Json) : Z := clamp 8 30 (match get "prefix" v ≫= as_u64 with Some n => wrap 8 n | None => 24 end).

(** ** Messages *)

Definition claim_json (c : ClaimRecord) : Json :=
  JObj [("ep_hints", JArr (JStr <$> ep_hints c)); ("node_id", JStr (node_id c)); ("vip", JStr (vip c)); ("vip_epoch", JInt (vip_epoch c))]%string.
Definition leave_json (t : LeaveTombstone) : Json :=
  JObj [("node_id", JStr (lt_node_id t)); ("vip", JStr (lt_vip t)); ("vip_epoch", JInt (lt_epoch t))]%string.
Definition gossip_json (from : string) (claims : list ClaimRecord) (leaves : list LeaveTombstone) (ts : Z) : Json :=
  JObj [("claims", JArr (claim_json <$> claims)); ("from", JStr from); ("leaves", JArr (leave_json <$> leaves));
        ("proto_ver", JInt WIRE_PROTOCOL_VERSION); ("ts_ms", JInt ts)]%string.

Definition read_claim (v : Json) : ClaimRecord :=
  mkClaim (str_field "node_id" v) (str_field "vip" v) (u64_field "vip_epoch" v)
    (match get "ep_hints" v ≫= as_array with Some l => omap as_str l | None => [] end).
Definition read_leave (v : Json) : string * string * Z := (str_field "node_id" v, str_field "vip" v, u64_field "vip_epoch" v).

Section Member.
Context `{HashIter} `{Kdf} `{JsonText} `{AddrText} (body_max : Z).

Definition unit_network_key (st : Member) : option bytes := material <$> shared_signing_key (mb_keys st).
Definition accept_vip (st : Member) (v : string) : bool := accept_wire_claim_vip (unit_network_key st) v.

Definition jack_mpja_body_valid (v : Json) (from : SocketAddr) (unit_key : option bytes) : bool :=
  let prefix := prefix_field v in
  accept_wire_claim_vip unit_key (str_field "vip" v) && negb (bool_decide (str_field "node_id" v = EmptyString)) &&
  (Z.of_nat (String.length (str_field "node_id" v)) <=? 64) && ((8 <=? prefix) && (prefix <=? 30)) && is_valid_sync_endpoint from.

(** ** Routes *)

Definition touch_route (st : Member) (from : SocketAddr) (now : Instant) : Member :=
  let st := st <| mb_last_seen := <[from := now]> (mb_last_seen st) |> in
  if is_endpoint_stale (mb_rt st) from then st <| mb_rt := (promote_stale_if_needed (mb_rt st) from now).1 |> else st.

Definition remember_endpoint (st : Member) (v : string) (ep : SocketAddr) : Member :=
  if bool_decide (mb_vip st = EmptyString) then st
  else match ipv4_to_u32 v with None => st | Some _ => out st (EfEndpointLearned v ep) end.

Definition sync_dest_relay_path_stamp (t : RoutingTable) (my_vip dest_vip : string) (now : Instant) : RoutingTable :=
  match select_relay_endpoint t dest_vip my_vip None with
  | Hop hop => stamp_relay_hop t dest_vip hop now
  | NoHop => clear_relay_path t dest_vip
  end.

Definition apply_route_endpoint_change_side_effects (st : Member) (v : string) (ep : SocketAddr) (old_ep : option SocketAddr) : Member :=
  let st :=
    match old_ep with
    | Some prev =>
        let st := out st (EfMigrate prev ep) in
        if bool_decide (prev = ep) then st
        else outs (outs st [EfInvalidateFec prev; EfInvalidateFec ep] <| mb_keys := unbind_peer (mb_keys st) prev |>) [EfForgetPeer prev]
    | None => out st (EfInvalidateFec ep)
    end in
  remember_endpoint st v ep.

Definition update_route (st : Member) (v : string) (ep : SocketAddr) (nid : option string) (now : Instant) : Member :=
  if bool_decide (mb_vip st = EmptyString) || bool_decide (v = mb_vip st) then st
  else
    let old_ep := rt_lookup (mb_rt st) v in
    let st := st <| mb_rt := sync_dest_relay_path_stamp (rt_update (mb_rt st) v ep nid now) (mb_vip st) v now |> in
    out (apply_route_endpoint_change_side_effects st v ep old_ep) (EfRefreshFec ep).

Definition notify_roster_upsert (st : Member) (v : string) (ep : SocketAddr) (nid : option string) : Member :=
  if bool_decide (v = mb_vip st) then st
  else
    let nid := match nid with
               | Some n => if bool_decide (n = EmptyString) then default EmptyString (re_node_id <$> rt_table (mb_rt st) !! v) else n
               | None => default EmptyString (re_node_id <$> rt_table (mb_rt st) !! v)
               end in
    out st (EfRosterUpsert v ep nid (default 0 (vip_epoch <$> mb_claims st !! nid))).

(** ** Conflicts over addresses *)

Definition occupied_vips_for_reroll (st : Member) (contested : string) : gset string :=
  list_to_set ((fun x : string * ClaimRecord => vip x.2) <$> hm_iter (mb_claims st)) ∪ dom (rt_table (mb_rt st)) ∪ {[mb_vip st]} ∪
  (if bool_decide (contested = EmptyString) then ∅ else {[contested]}).

Definition own_claim (st : Member) : ClaimRecord := mkClaim (mb_node_id st) (mb_vip st) (mb_epoch st) [].

Definition apply_local_vip_change (st : Member) (new_vip : string) (now : Instant) : Member * bool :=
  if bool_decide (new_vip = EmptyString) || bool_decide (new_vip = mb_vip st) then (st, false)
  else if negb (accept_vip st new_vip) then (st, false)
  else
    let old := mb_vip st in
    let st := st <| mb_epoch := sat_add U64_MAX (mb_epoch st) 1 |> <| mb_vip := new_vip |> in
    let st := st <| mb_claims := <[mb_node_id st := own_claim st]> (mb_claims st) |> in
    let old_ep := rt_lookup (mb_rt st) old in
    let st := st <| mb_rt := rt_remove (mb_rt st) old now |> in
    let st := match old_ep with Some ep => outs st [EfInvalidateFec ep; EfTeardown ep] | None => st end in
    let st := out st (EfStopReconnect old) <| mb_pending_gossip := true |> in
    (out st (EfIdentity old new_vip (mb_epoch st)), true).

Definition try_local_vip_reroll (st : Member) (contested_vip : string) (now : Instant) : Member * bool :=
  let occupied := occupied_vips_for_reroll st contested_vip in
  let base := match unit_network_key st with Some k => floatunit_subnet_base_vip k | None => mb_vip st end in
  match pick_free_vip base (fun c => bool_decide (c ∈ occupied)) with
  | Some new_vip =>
      let '(st, changed) := apply_local_vip_change st new_vip now in
      if changed then (st <| mb_retry_after := None |>, true) else (st, false)
  | None => (st <| mb_retry_after := Some (now + VIP_REROLL_RETRY_INTERVAL) |>, false)
  end.

(** A node that lost its address to another, [pre] being the claims before the settlement. *)
Definition settle_loser (pre : ClaimMap) (now : Instant) (x : Member * bool) (loser : string) : Member * bool :=
  let '(st, changed) := x in
  if bool_decide (loser = mb_node_id st) then
    let '(st, rerolled) := try_local_vip_reroll st (mb_vip st) now in
    if rerolled then (st, true) else (st <| mb_claims := <[mb_node_id st := own_claim st]> (mb_claims st) |>, changed)
  else
    match pre !! loser with
    | None => (st, changed)
    | Some p =>
        let st := st <| mb_claims := (remove_claim (mb_claims st) loser).1 |> in
        let st :=
          match rt_table (mb_rt st) !! vip p with
          | Some e =>
              if bool_decide (re_node_id e = EmptyString) || bool_decide (re_node_id e = loser)
              then outs (st <| mb_rt := rt_remove (mb_rt st) (vip p) now |>) [EfRouteRemoved (vip p) (Some loser); EfStopReconnect (vip p)]
              else st
          | None => st
          end in
        (st <| mb_fights := (install_fight_suppress (mb_fights st) loser (vip p) (vip_epoch p) now FIGHT_SUPPRESS_TTL).1 |>, true)
    end.

Definition fighters (st : Member) : list ClaimRecord :=
  filter (fun c => should_reroll_for_vip_fight (mb_node_id st) (mb_vip st) (node_id c) (vip c) = true)
    (filter (fun c => node_id c <> mb_node_id st) (snd <$> hm_iter (mb_claims st))).

(** One attempt per fighter until one succeeds. *)
Fixpoint reroll_against (n : nat) (contested : string) (now : Instant) (st : Member) : Member * bool :=
  match n with
  | O => (st, false)
  | S n => let '(st, rerolled) := try_local_vip_reroll st contested now in if rerolled then (st, true) else reroll_against n contested now st
  end.

Definition apply_claim_settle_and_local_fight (st : Member) (now : Instant) : Member * bool :=
  let pre := mb_claims st in
  let '(claims, losers) := settle_duplicate_vips pre in
  let '(st, changed) := foldl (settle_loser pre now) (st <| mb_claims := claims |>, false) losers in
  let '(st, rerolled) := reroll_against (List.length (fighters st)) (mb_vip st) now st in
  let changed := changed || rerolled in
  (if changed then st <| mb_pending_gossip := true |> else st, changed).

Definition may_merge (o : MergeOutcome) : bool := match o with Accepted | IgnoredStale => true | _ => false end.

Definition merge_into (st : Member) (c : ClaimRecord) (now : Instant) : Member * MergeOutcome :=
  let '(claims, fights, outcome) := merge_claim (mb_claims st) c (mb_tombs st) (mb_fights st) now in
  (st <| mb_claims := claims |> <| mb_fights := fights |>, outcome).

Definition apply_remote_claim (st : Member) (remote_node_id remote_vip : string) (remote_epoch : Z) (from : SocketAddr) (now : Instant) : Member :=
  if bool_decide (remote_node_id = EmptyString) || negb (accept_vip st remote_vip) then st
  else
    let '(st, outcome) := merge_into st (mkClaim remote_node_id remote_vip remote_epoch [show_addr from]) now in
    if negb (may_merge outcome) then st
    else
      let '(st, _) := apply_claim_settle_and_local_fight st now in
      if claim_still_live (mb_claims st) remote_node_id remote_vip remote_epoch && negb (bool_decide (remote_vip = mb_vip st))
      then notify_roster_upsert (update_route st remote_vip from (Some remote_node_id) now) remote_vip from (Some remote_node_id)
      else st.

Definition retry_vip_fight_if_due (st : Member) (now : Instant) : Member :=
  match mb_retry_after st with
  | None => st
  | Some after => if now <? after then st else (apply_claim_settle_and_local_fight (st <| mb_retry_after := None |>) now).1
  end.

(** ** Gossip *)

(** Claims without hints get the endpoint of their route. *)
Definition enrich (t : RoutingTable) (c : ClaimRecord) : ClaimRecord :=
  if bool_decide (ep_hints c = [])
  then match rt_table t !! vip c with
       | Some e => if bool_decide (re_state e = Stale) then c else c <| ep_hints := [show_addr (re_endpoint e)] |>
       | None => c
       end
  else c.

Definition gossip_bytes (st : Member) (ts : Z) (claims : list ClaimRecord) (leaves : list LeaveTombstone) : bytes :=
  json_bytes (gossip_json (mb_node_id st) claims leaves ts).

(** Leaves are dropped first, then claims, the last one first; the own claim stays. *)
Fixpoint trim_leaves (n : nat) (st : Member) (ts : Z) (claims : list ClaimRecord) (leaves : list LeaveTombstone) : list LeaveTombstone :=
  match n with
  | O => leaves
  | S n =>
      if (body_max <? len (gossip_bytes st ts claims leaves)) && negb (bool_decide (leaves = []))
      then trim_leaves n st ts claims (removelast leaves) else leaves
  end.
Fixpoint trim_claims (n : nat) (st : Member) (ts : Z) (claims : list ClaimRecord) (leaves : list LeaveTombstone) : list ClaimRecord :=
  match n with
  | O => claims
  | S n =>
      if (body_max <? len (gossip_bytes st ts claims leaves)) && (1 <? len claims)
      then trim_claims n st ts (removelast claims) leaves else claims
  end.

Definition broadcast_claim_gossip (st : Member) (now : Instant) (ts : Z) : Member :=
  if bool_decide (mb_vip st = EmptyString) || bool_decide (mb_node_id st = EmptyString) then st
  else
    let st := st <| mb_claims := enrich (mb_rt st) <$> mb_claims st |> in
    let digest := build_gossip_digest_rotated (own_claim st) (mb_claims st) (mb_tombs st) now CLAIM_GOSSIP_DIGEST_MAX (Z.to_nat (mb_digest_cursor st)) in
    let st := st <| mb_digest_cursor := sat_add U64_MAX (mb_digest_cursor st) 1 |> in
    let leaves := select_leave_tombs_for_gossip (mb_tombs st) now CLAIM_GOSSIP_LEAVE_TOMBS_MAX in
    let leaves := trim_leaves (List.length leaves) st ts digest leaves in
    let claims := trim_claims (List.length digest) st ts digest leaves in
    let body := gossip_bytes st ts claims leaves in
    if body_max <? len body then st
    else
      let targets := rotate_endpoints (all_active_endpoints (mb_rt st)) (Z.to_nat (mb_fanout_cursor st)) 8 in
      outs (st <| mb_fanout_cursor := sat_add U64_MAX (mb_fanout_cursor st) 1 |>) ((fun ep => EfSend ep PKT_CLG body) <$> targets).

Definition flush_pending_claim_gossip (st : Member) (now : Instant) (ts : Z) : Member :=
  if mb_pending_gossip st then broadcast_claim_gossip (st <| mb_pending_gossip := false |>) now ts else st.

Definition gossip_leave (now : Instant) (st : Member) (item : Json) : Member :=
  let '(nid, v, epoch) := read_leave item in
  if bool_decide (nid = EmptyString) || negb (accept_vip st v) then st
  else st <| mb_tombs := (install_leave_tombstone (mb_tombs st) nid v epoch now LEAVE_TOMBSTONE_TTL).1 |>.

(** The claims that may be routed, with the outcome of their merge. *)
Definition gossip_claim (now : Instant) (x : Member * list (ClaimRecord * MergeOutcome)) (item : Json) : Member * list (ClaimRecord * MergeOutcome) :=
  let '(st, pending) := x in
  let c := read_claim item in
  if bool_decide (node_id c = EmptyString) || negb (accept_vip st (vip c)) then (st, pending)
  else if bool_decide (node_id c = mb_node_id st) then (st, pending)
  else
    let '(st, outcome) := merge_into st c now in
    (st, if may_merge outcome then pending ++ [(c, outcome)] else pending).

Definition hint_addr (hints : list string) : option SocketAddr := first_some parse_addr hints.

Definition gossip_route (from : SocketAddr) (from_node : string) (n_claims : Z) (now : Instant) (x : Member * bool) (p : ClaimRecord * MergeOutcome) : Member * bool :=
  let '(st, gossip) := x in
  let '(c, outcome) := p in
  let gossip' := gossip || bool_decide (outcome = Accepted) in
  if negb (claim_still_live (mb_claims st) (node_id c) (vip c) (vip_epoch c)) || bool_decide (vip c = mb_vip st) then (st, gossip')
  else
    let ep := if negb (bool_decide (from_node = EmptyString)) && bool_decide (node_id c = from_node) then Some from else hint_addr (ep_hints c) in
    let ep := match ep with Some e => Some e | None => if bool_decide (from_node = EmptyString) && (n_claims =? 1) then Some from else None end in
    match ep with
    | Some e => (notify_roster_upsert (update_route st (vip c) e (Some (node_id c)) now) (vip c) e (Some (node_id c)), gossip')
    | None => (st, gossip')
    end.

Definition handle_claim_gossip_body (st : Member) (body : bytes) (from : SocketAddr) (now : Instant) (ts : Z) : Member :=
  if body_max <? len body then st
  else
    match json_parse body with
    | None => st
    | Some v =>
        let st := match get "leaves" v ≫= as_array with Some l => foldl (gossip_leave now) st l | None => st end in
        match get "claims" v ≫= as_array with
        | None => st
        | Some items =>
            let '(st, pending) := foldl (gossip_claim now) (st, []) items in
            let '(st, changed) := apply_claim_settle_and_local_fight st now in
            let '(st, gossip) := foldl (gossip_route from (str_field "from" v) (len items) now) (st, changed) pending in
            if gossip || mb_pending_gossip st then broadcast_claim_gossip (st <| mb_pending_gossip := false |>) now ts else st
        end
    end.

Definition presence_json (st : Member) (ts : Z) : Json :=
  JObj [("candidates", mb_candidates st); ("node_id", JStr (mb_node_id st)); ("proto_ver", JInt WIRE_PROTOCOL_VERSION); ("ts_ms", JInt ts);
        ("vip", JStr (mb_vip st)); ("vip_epoch", JInt (mb_epoch st))]%string.

Definition send_claim_presence_tick (st : Member) (now : Instant) (ts : Z) : Member :=
  if bool_decide (mb_vip st = EmptyString) || bool_decide (mb_node_id st = EmptyString) then st
  else
    let st := flush_pending_claim_gossip (retry_vip_fight_if_due st now) now ts in
    if mb_joining st || mb_joiner st then st
    else
      let body := json_bytes (presence_json st ts) in
      outs st ((fun ep => EfSend ep PKT_JOIN body) <$> take 8 (all_active_endpoints (mb_rt st))).

(** The tick that sends gossip. *)
Definition sync_tick (st : Member) (now : Instant) (ts : Z) : Member :=
  let st := st <| mb_tombs := prune_leave_tombstones (mb_tombs st) now |> <| mb_fights := prune_fight_suppress (mb_fights st) now |> in
  broadcast_claim_gossip (flush_pending_claim_gossip st now ts) now ts.

(** ** Punches and heartbeats *)

(** A body is read as text and trimmed.  One that is not UTF-8 is refused by the code; here its trimmed form
    is no address, which is refused as well. *)
Definition body_vip (body : bytes) : string := bytes_str (trim body).

(** A route of another endpoint is taken over when it is stale or degraded, or by a sender with the key. *)
Definition allow_hijack (st : Member) (v : string) (from : SocketAddr) (authenticated : bool) : bool :=
  match rt_table (mb_rt st) !! v with
  | Some e => bool_decide (re_endpoint e = from) || bool_decide (re_state e = Stale) || bool_decide (re_state e = Degraded) || authenticated
  | None => true
  end.

Definition outside_own_subnet (st : Member) (ip : Z) : bool :=
  match ipv4_to_u32 (mb_vip st) with
  | Some my => ((8 <=? mb_prefix st) && (mb_prefix st <=? 30)) && negb (same_subnet my ip (mb_prefix st))
  | None => false
  end.

Definition learn_route_from_hole_punch_body (st : Member) (body : bytes) (from : SocketAddr) (authenticated : bool) (now : Instant) : Member :=
  let st := touch_route st from now in
  let v := body_vip body in
  match ipv4_to_u32 v with
  | None => st
  | Some ip =>
      if negb (accept_vip st v) then st
      else if outside_own_subnet st ip then st
      else if allow_hijack st v from authenticated then update_route st v from None now else st
  end.

Definition try_stop_ice_checks_for_join_peer (st : Member) (from : SocketAddr) (body : bytes) : Member :=
  let v := body_vip body in
  match ipv4_to_u32 v, rt_table (mb_rt st) !! v with
  | Some _, Some e =>
      if negb (bool_decide (re_endpoint e = from)) || bool_decide (re_node_id e = EmptyString) then st else out st (EfStopIce (re_node_id e))
  | _, _ => st
  end.

Definition apply_hb_body (st : Member) (body : bytes) (from : SocketAddr) (authenticated : bool) (now : Instant) : Member :=
  let st := touch_route st from now in
  if bool_decide (body = []) then st
  else match ipv4_to_u32 (body_vip body) with Some _ => learn_route_from_hole_punch_body st body from authenticated now | None => st end.

Definition apply_hol_body (st : Member) (body : bytes) (from : SocketAddr) (authenticated : bool) (now : Instant) : Member :=
  let st := try_stop_ice_checks_for_join_peer (learn_route_from_hole_punch_body st body from authenticated now) from body in
  out st (EfSend from PKT_HACK (str_bytes (mb_vip st))).

Definition handle_mctl (st : Member) (body : bytes) (from : SocketAddr) (authenticated : bool) (now : Instant) : Member :=
  match parse_mctl body with
  | None => st
  | Some p =>
      if signaling_ok p then
        match mctl_vip p with
        | Some v =>
            let st := if negb (Z.land (mctl_flags p) MCTL_FLAG_HB =? 0) then apply_hb_body st v from authenticated now else st in
            if negb (Z.land (mctl_flags p) MCTL_FLAG_HOL =? 0) then apply_hol_body st v from authenticated now else st
        | None => st
        end
      else st
  end.

(** ** Joining *)

(** What a handler meets: the clocks, whether the answer to a join left by the socket, and whether the
    command that waits for the join is still there. *)
Record Meets := mkMeets { ms_now : Instant; ms_ts : Z; ms_sent : bool; ms_waiting : bool }.

Definition version_ok (v : Json) : bool := bool_decide (get "proto_ver" v ≫= as_u64 = Some WIRE_PROTOCOL_VERSION).
Definition version_error (v : Json) : Json :=
  JObj [("error", JStr "wire_protocol_mismatch"); ("expected", JInt WIRE_PROTOCOL_VERSION); ("got", JInt (u64_field "proto_ver" v))]%string.
Definition join_reply (st : Member) : Json :=
  JObj [("candidates", mb_candidates st); ("crypto_required", JBool (has_crypto st)); ("node_id", JStr (mb_node_id st)); ("prefix", JInt (mb_prefix st));
        ("proto_ver", JInt WIRE_PROTOCOL_VERSION); ("vip", JStr (mb_vip st)); ("vip_epoch", JInt (mb_epoch st))]%string.

Definition start_ice (st : Member) (v : option Json) (nid : string) : Member :=
  match v ≫= read_candidates with
  | Some l => if bool_decide (l = []) then st else out st (EfIce nid l)
  | None => st
  end.

(** With a key the answer is sealed, and sent again through the pacing worker if the socket refuses it;
    without one it goes through the reliable channel. *)
Definition answer_join (st : Member) (from : SocketAddr) (sent : bool) : Member :=
  let body := json_bytes (join_reply st) in
  if has_crypto st then
    let st := out st (EfSend from PKT_JACK body) in
    if sent then st
    else match or_else (key_for_dest (mb_keys st) from) (shared_signing_key (mb_keys st)) with
         | Some _ => out st (EfSealRetransmit from PKT_JACK body)
         | None => st
         end
  else out st (EfReliable from body).

Definition handle_join (st : Member) (body : bytes) (from : SocketAddr) (m : Meets) : Member :=
  if bool_decide (mb_vip st = EmptyString) || bool_decide (mb_node_id st = EmptyString) then st
  else
    let '(l, ok) := allow (mb_join_limiter st) (join_rate_key from) (ms_now m) in
    let st := st <| mb_join_limiter := l |> in
    if negb ok then st
    else
      let '(l, ok) := allow (mb_join_ip_limiter st) (join_ip_key from) (ms_now m) in
      let st := st <| mb_join_ip_limiter := l |> in
      if negb ok then st
      else if 8192 <? len body then st
      else
        match json_parse body with
        | None => st
        | Some v =>
            if negb (version_ok v) then out st (EfSend from PKT_MERR (json_bytes (version_error v)))
            else
              let node := str_field "node_id" v in
              if bool_decide (node = EmptyString) || (64 <? Z.of_nat (String.length node)) then st
              else if negb (accept_vip st (str_field "vip" v)) then st
              else
                let st := apply_remote_claim st node (str_field "vip" v) (u64_field "vip_epoch" v) from (ms_now m) in
                let st := answer_join st from (ms_sent m) in
                let st := out st (EfSend from PKT_HPCH (str_bytes (mb_vip st))) in
                let st := broadcast_claim_gossip st (ms_now m) (ms_ts m) in
                start_ice st (get "candidates" v) node
        end.

Definition handle_jack (st : Member) (body : bytes) (from : SocketAddr) (m : Meets) : Member :=
  if 8192 <? len body then st
  else
    match json_parse body with
    | None => st
    | Some v =>
        if negb (version_ok v) then st
        else if negb (jack_mpja_body_valid v from (unit_network_key st)) then st
        else
          let peer_vip := str_field "vip" v in
          let peer := str_field "node_id" v in
          let idle := negb (mb_joining st) && negb (mb_joiner st) in
          let st := apply_remote_claim st peer peer_vip (u64_field "vip_epoch" v) from (ms_now m) in
          if idle then st
          else
            let ack := mkJoinAck peer_vip peer (prefix_field v) from (mb_vip st) (mb_epoch st) in
            let delivered := mb_joining st && ms_waiting m in
            let st := if delivered then out st (EfJoinResult (Some ack)) else st in
            let st := st <| mb_joining := false |> in
            if negb delivered && negb (mb_joiner st) then st
            else
              let st := out (st <| mb_prefix := prefix_field v |> <| mb_joiner := false |>) EfJoinWaitFinished in
              let st := if delivered then st else st <| mb_pending_ack := Some ack |> in
              let st := outs st [EfSend from PKT_KPAL (str_bytes (mb_vip st)); EfSend from PKT_HPCH (str_bytes (mb_vip st))] in
              start_ice st (get "candidates" v) peer
    end.

(** ** Leaving *)

Fixpoint msmd_expire (tl : list (Instant * string)) (seen : gset string) (now : Instant) : list (Instant * string) * gset string :=
  match tl with
  | [] => ([], seen)
  | (ts, id) :: rest => if duration_since now ts <? from_secs 120 then (tl, seen) else msmd_expire rest (seen ∖ {[id]}) now
  end.
Fixpoint msmd_trim (tl : list (Instant * string)) (seen : gset string) : list (Instant * string) * gset string :=
  if 4096 <=? Z.of_nat (size seen)
  then match tl with [] => ([], seen) | (_, id) :: rest => msmd_trim rest (seen ∖ {[id]}) end
  else (tl, seen).
Definition mark_msmd_seen (st : Member) (event_id : string) (now : Instant) : Member * bool :=
  if bool_decide (event_id ∈ mb_msmd_seen st) then (st, false)
  else
    let '(tl, seen) := msmd_expire (mb_msmd_timeline st) (mb_msmd_seen st) now in
    let '(tl, seen) := msmd_trim tl seen in
    (st <| mb_msmd_timeline := tl ++ [(now, event_id)] |> <| mb_msmd_seen := {[event_id]} ∪ seen |>, true).

Definition non_empty (s : string) : option string := if bool_decide (s = EmptyString) then None else Some s.

(** What goes with an endpoint whose route was removed. *)
Definition drop_endpoint (st : Member) (ep : SocketAddr) : Member :=
  outs (out st (EfInvalidateFec ep) <| mb_keys := unbind_peer (mb_keys st) ep |>) [EfFlush ep; EfTeardown ep].

Definition handle_leave (st : Member) (body : bytes) (authenticated : bool) (now : Instant) : Member :=
  if negb authenticated then st
  else if 4096 <? len body then st
  else
    match json_parse body with
    | None => st
    | Some v =>
        if bool_decide (str_field "event_id" v = EmptyString) then st
        else
          let '(st, fresh) := mark_msmd_seen st (str_field "event_id" v) now in
          if negb fresh then st
          else
            let '(nid, lv, epoch) := read_leave v in
            if bool_decide (nid = EmptyString) || negb (accept_vip st lv) then st
            else
              let st := st <| mb_tombs := (install_leave_tombstone (mb_tombs st) nid lv epoch now LEAVE_TOMBSTONE_TTL).1 |>
                           <| mb_claims := (remove_claim (mb_claims st) nid).1 |> in
              match rt_table (mb_rt st) !! lv with
              | None => st
              | Some e =>
                  if negb (bool_decide (re_node_id e = EmptyString) || bool_decide (re_node_id e = nid)) then st
                  else
                    let st := st <| mb_rt := rt_remove (mb_rt st) lv now |> in
                    let st := outs st [EfRouteRemoved lv (non_empty (re_node_id e)); EfRosterRemove lv; EfStopReconnect lv] in
                    out (drop_endpoint st (re_endpoint e)) (EfLeft lv)
              end
    end.

(** ** Messages passed on *)

(** [fwd["ttl"] = json!(ttl)] for an object that has the field. *)
Definition set_ttl (ttl : Z) (v : Json) : Json :=
  match v with JObj l => JObj ((fun x : string * Json => if bool_decide (x.1 = "ttl"%string) then (x.1, JInt ttl) else x) <$> l) | _ => v end.

Definition src_matches_sender (t : RoutingTable) (from : SocketAddr) (src_node : string) : bool :=
  match rt_ep_to_vip t !! from with
  | Some v =>
      match rt_table t !! v with
      | Some e => if bool_decide (re_node_id e = EmptyString) then bool_decide (rt_node_to_vip t !! src_node = Some v) else bool_decide (re_node_id e = src_node)
      | None => false
      end
  | None => false
  end.

Definition handle_prxy (st : Member) (body : bytes) (from : SocketAddr) (authenticated : bool) : Member :=
  if 8192 <? len body then st
  else if negb authenticated && negb (bool_decide (is_Some (rt_ep_to_vip (mb_rt st) !! from))) then st
  else
    match json_parse body with
    | None => st
    | Some v =>
        if bool_decide (str_field "dst_node" v = mb_node_id st) then
          if bool_decide (str_field "kind" v = "candidates"%string) then start_ice st (Some (default JNull (get "payload" v))) (str_field "src_node" v) else st
        else
          match prxy_forwarded_ttl (u64_field "ttl" v) with
          | None => st
          | Some ttl =>
              if negb (src_matches_sender (mb_rt st) from (str_field "src_node" v)) then st
              else match lookup_ep_by_node (mb_rt st) (str_field "dst_node" v) with
                   | Some ep => out st (EfSend ep PKT_PRXY (json_bytes (set_ttl ttl v)))
                   | None => st
                   end
          end
    end.

(** ** Control messages *)

Definition bypasses_limit (tag : bytes) : bool := bool_decide (tag ∈ [PKT_HPCH; PKT_HACK; PKT_KPAL; PKT_MCTL; PKT_JACK]).
Definition is_para (tag : bytes) : bool := bool_decide (tag ∈ [PKT_PARA_HELLO; PKT_PARA_REPLY; PKT_PARA_OK; PKT_PARA_PUNCH_ACK]).

Definition dispatch_tag (st : Member) (tag body : bytes) (from : SocketAddr) (authenticated : bool) (m : Meets) : Member :=
  let tagged (t : bytes) := bool_decide (tag = t) in
  let now := ms_now m in
  if is_para tag then
    match para_ts tag body with
    | Some ts => if is_recent_para_ts (ms_ts m) ts then out st (EfPara tag body from) else st
    | None => st
    end
  else if tagged PKT_RDYS || tagged PKT_MSTR then touch_route st from now
  else if tagged PKT_MERR then if mb_joining st then out (st <| mb_joining := false |>) (EfJoinResult None) else st
  else if tagged PKT_JOIN then handle_join st body from m
  else if tagged PKT_JACK then handle_jack st body from m
  else if tagged PKT_CLG then if authenticated then handle_claim_gossip_body st body from now (ms_ts m) else st
  else if tagged PKT_LEAVE then handle_leave st body authenticated now
  else if tagged PKT_PRXY then handle_prxy st body from authenticated
  else if tagged PKT_BREK then touch_route st from now
  else if tagged PKT_MCTL then handle_mctl st body from authenticated now
  else if tagged PKT_KPAL then apply_hb_body st body from authenticated now
  else if tagged PKT_HPCH then apply_hol_body st body from authenticated now
  else if tagged PKT_HACK then
    try_stop_ice_checks_for_join_peer (learn_route_from_hole_punch_body st body from authenticated now) from body
  else st.

Definition dispatch_control (st : Member) (tag body : bytes) (from : SocketAddr) (authenticated : bool) (m : Meets) : Member :=
  let '(st, ok) :=
    if negb authenticated && negb (bypasses_limit tag)
    then let '(l, ok) := allow (mb_ctrl_limiter st) (src_addr_key from) (ms_now m) in (st <| mb_ctrl_limiter := l |>, ok)
    else (st, true) in
  if negb ok then st
  else if has_crypto st && negb authenticated && negb (allow_unauth_control_tag_with_crypto tag) then st
  else dispatch_tag st tag body from authenticated m.

(** ** Commands and the eviction of silent members *)

Definition set_identity (st : Member) (my_vip my_node_id : string) (subnet_prefix vip_epoch : Z) (now : Instant) : Member :=
  let st := st <| mb_vip := my_vip |> <| mb_node_id := my_node_id |> <| mb_epoch := vip_epoch |> <| mb_prefix := clamp 8 30 subnet_prefix |> in
  if bool_decide (my_vip = EmptyString) then st
  else
    let '(t, drained) := drain_vips_outside_subnet (mb_rt st) my_vip (mb_prefix st) now in
    outs (st <| mb_rt := t |>) ((fun x : string * SocketAddr * string => EfRouteRemoved x.1.1 (non_empty x.2)) <$> drained).

Definition leave_body (event_id nid lv : string) (epoch ts : Z) : Json :=
  JObj [("event_id", JStr event_id); ("node_id", JStr nid); ("proto_ver", JInt WIRE_PROTOCOL_VERSION); ("ts_ms", JInt ts); ("vip", JStr lv);
        ("vip_epoch", JInt epoch)]%string.
Definition broadcast_leave (st : Member) (nid lv : string) (epoch : Z) (event_id : string) (now : Instant) (ts : Z) : Member :=
  if negb (accept_vip st lv) then st
  else
    let st := st <| mb_tombs := (install_leave_tombstone (mb_tombs st) nid lv epoch now LEAVE_TOMBSTONE_TTL).1 |>
                 <| mb_claims := (remove_claim (mb_claims st) nid).1 |> in
    let body := json_bytes (leave_body event_id nid lv epoch ts) in
    outs st ((fun ep => EfSend ep PKT_LEAVE body) <$> endpoints_excluding_stale (mb_rt st)).

Definition take_pending_join_ack (st : Member) : Member * option JoinAck := (st <| mb_pending_ack := None |>, mb_pending_ack st).

Definition victim (stale_age : Duration) (now : Instant) (x : string * RouteEntry) : bool :=
  bool_decide (re_state x.2 = Stale) && (stale_age <? duration_since now (re_last_seen x.2)).
Definition forget_victim (st : Member) (x : string * RouteEntry) : Member :=
  let st := out st (EfRouteRemoved x.1 (non_empty (re_node_id x.2))) in
  st <| mb_claims := if bool_decide (re_node_id x.2 = EmptyString) then (remove_claims_for_vip (mb_claims st) x.1).1
                     else (remove_claim (mb_claims st) (re_node_id x.2)).1 |>.
Definition stale_evict_tick (st : Member) (stale_mark stale_age : Duration) (now : Instant) : Member :=
  let t := mark_stale_if_idle (mb_rt st) stale_mark now in
  let victims := List.filter (victim stale_age now) (hm_iter (rt_table t)) in
  let t := foldl (fun t (x : string * RouteEntry) => rt_remove t x.1 now) t victims in
  let st := foldl forget_victim (st <| mb_rt := t |>) victims in
  let st := foldl (fun st (x : string * RouteEntry) => drop_endpoint st (re_endpoint x.2)) st victims in
  out (st <| mb_keys := prune_per_peer_orphans (mb_keys st) (tracks_endpoint (mb_rt st)) |>) EfPruneDecoders.
End Member.
