(* ===== verification/MembersSafe.v ===== *)
(** * What membership guarantees (src/net/engine.rs)

    [members_reachable]: in every run the tables stay consistent and the node never routes to itself.
    [epoch_names_claim]: an epoch stands for one claim, which is what Gossip needs to converge.
    [settlement_spec]: conflicts over an address end, with the smaller id keeping it.
    [unauthenticated_gate]: what a sender without the key can and cannot change.
    [gossip_read_back]: gossip is read as it was written.
    [refused_route_tears_down] and [own_id_claim_rerolls] show two flaws in concrete runs. *)

From Stdlib Require Import Ascii String.
From S2P Require Import Prelude Text Float Packet Crypto Limiter CryptoPool Claim Gossip Tuning Paths Routing Json Members.
#[local] Open Scope Z_scope.

(** ** The routing table under the operations of membership *)

Lemma rebuild_table t v : rt_table (rebuild_path_ep_index_for_vip t v) = rt_table t.
Proof. unfold rebuild_path_ep_index_for_vip. cbn. destruct (rt_table t !! v) as [e|]; [|done]. by destruct (re_path_set e). Qed.

Lemma with_entry_other t v f w : w <> v -> rt_table (with_entry t v f) !! w = rt_table t !! w.
Proof. intros N. unfold with_entry. destruct (rt_table t !! v); [|done]. cbn. by rewrite lookup_insert_ne. Qed.

Lemma remove_table t v now : rt_table (rt_remove t v now) = delete v (rt_table t).
Proof.
  unfold rt_remove. cbv zeta. cbn. destruct (rt_table t !! v) as [e|] eqn:E.
  - repeat case_match; done.
  - rewrite delete_id by done. by destruct (ipv4_to_u32 v).
Qed.

Lemma store_other t v ep nid now w : w <> v -> rt_table (rt_store t v ep nid now) !! w = rt_table t !! w.
Proof.
  intros N. unfold rt_store. cbv zeta. rewrite rebuild_table. destruct (_ || _ || _); [rewrite with_entry_other by done|];
    repeat case_match; cbn; by rewrite lookup_insert_ne.
Qed.

Lemma prune_table t keep now : rt_table (prune_tombstones t keep now) = rt_table t.
Proof. done. Qed.

(** Only the address of the update gains a route. *)
Lemma update_absent t v ep nid now w : w <> v -> rt_table t !! w = None -> rt_table (rt_update t v ep nid now) !! w = None.
Proof.
  intros N. unfold rt_update. cbv zeta. set (t1 := if _ : bool then _ else _). assert (rt_table t1 = rt_table t) as <- by (unfold t1; by destruct (_ <=? _)).
  clearbody t1. intros L. unfold resolve_alias. destruct (rt_ep_to_vip t1 !! ep) as [prev|]; [|by rewrite store_other].
  case_bool_decide; [by rewrite store_other|]. destruct (alias_action _ _ _); [done|..]; rewrite store_other by done; [|done].
  rewrite remove_table. by apply lookup_delete_None; right.
Qed.

(** An update that names no node touches no other route. *)
Lemma update_anonymous t v ep now w : w <> v -> rt_table (rt_update t v ep None now) !! w = rt_table t !! w.
Proof.
  intros N. unfold rt_update. cbv zeta. set (t1 := if _ : bool then _ else _). assert (rt_table t1 = rt_table t) as <- by (unfold t1; by destruct (_ <=? _)).
  clearbody t1. unfold resolve_alias. destruct (rt_ep_to_vip t1 !! ep) as [prev|]; [|by rewrite store_other].
  case_bool_decide; [by rewrite store_other|]. destruct (alias_action _ _ _) eqn:A; [done|exfalso|by rewrite store_other].
  revert A. unfold alias_action. cbn [default]. repeat case_bool_decide; cbn; repeat case_match; try done; congruence.
Qed.

Section Table.
Context `{HashIter}.

Lemma sync_other t my v now w : w <> v -> rt_table (sync_dest_relay_path_stamp t my v now) !! w = rt_table t !! w.
Proof.
  intros N. unfold sync_dest_relay_path_stamp, stamp_relay_hop, clear_relay_path. destruct (select_relay_endpoint _ _ _ _).
  - destruct (rt_table t !! v); [|done]. by rewrite rebuild_table, with_entry_other.
  - by rewrite rebuild_table, with_entry_other.
Qed.
Lemma sync_ok t my v now : table_ok t -> table_ok (sync_dest_relay_path_stamp t my v now).
Proof. intros T. unfold sync_dest_relay_path_stamp. destruct (select_relay_endpoint _ _ _ _); [by apply stamp_ok|by apply clear_relay_ok]. Qed.

Lemma promote_ok t ep now : table_ok t -> table_ok (promote_stale_if_needed t ep now).1.
Proof.
  intros T. unfold promote_stale_if_needed. repeat case_match; try done. apply with_entry_ok; [intros e; keeps_fields|done].
Qed.
(** Promotion concerns the route of the endpoint alone, and only a stale one. *)
Lemma promote_other t ep now v e : table_ok t -> rt_table t !! v = Some e -> re_endpoint e <> ep \/ re_state e <> Stale ->
  rt_table (promote_stale_if_needed t ep now).1 !! v = Some e.
Proof.
  intros T E D. unfold promote_stale_if_needed. destruct (rt_ep_to_vip t !! ep) as [w|] eqn:I; [|done]. destruct (rt_table t !! w) as [e'|] eqn:W; [|done].
  case_bool_decide as S; [|done]. cbn [fst]. rewrite with_entry_other; [done|]. intros ->. rewrite E in W. apply (inj Some) in W as <-.
  destruct D as [D|D]; [|done]. apply T in I as (e' & E' & R). congruence.
Qed.
Lemma promote_absent t ep now v : rt_table t !! v = None -> rt_table (promote_stale_if_needed t ep now).1 !! v = None.
Proof.
  intros L. unfold promote_stale_if_needed. repeat case_match; try done. cbn [fst]. rewrite with_entry_other; [done|]. intros ->. congruence.
Qed.
End Table.

(** ** The invariant, and the epochs of the own address *)

Record members_ok (st : Member) : Prop := {
  mo_table : table_ok (mb_rt st);
  mo_own : rt_table (mb_rt st) !! mb_vip st = None;
  mo_keys : keys_ok (mb_claims st);
  mo_epoch : 0 <= mb_epoch st <= U64_MAX
}.

(** The epoch does not fall, and while it stays the address does. *)
Definition later (st st' : Member) : Prop :=
  mb_node_id st' = mb_node_id st /\ mb_epoch st <= mb_epoch st' /\
  (mb_epoch st' = mb_epoch st -> mb_epoch st < U64_MAX -> mb_vip st' = mb_vip st).
Definition good (st st' : Member) : Prop := members_ok st -> members_ok st' /\ later st st'.

Lemma later_refl st : later st st.
Proof. by split_and!. Qed.
Lemma later_trans a b c : later a b -> later b c -> later a c.
Proof.
  intros (N1 & L1 & V1) (N2 & L2 & V2). split_and!; [congruence|lia|]. intros E M. rewrite V2, V1; [done|lia..].
Qed.
Lemma good_refl st : good st st.
Proof. intros O. split; [done|apply later_refl]. Qed.
Lemma good_trans a b c : good a b -> good b c -> good a c.
Proof. intros G1 G2 O. destruct (G1 O) as [O1 L1]. destruct (G2 O1) as [O2 L2]. split; [done|by eapply later_trans]. Qed.
Lemma good_foldl {A B} (p : B -> Member) (f : B -> A -> B) l : forall b, (forall b a, good (p b) (p (f b a))) -> good (p b) (p (foldl f b l)).
Proof. induction l as [|a l IH]; intros b G; [apply good_refl|]. eapply good_trans; [apply G|by apply IH]. Qed.

(** A step that keeps the identity is good if it keeps the three parts of the invariant. *)
Lemma good_steady st st' : mb_vip st' = mb_vip st -> mb_node_id st' = mb_node_id st -> mb_epoch st' = mb_epoch st ->
  (table_ok (mb_rt st) -> table_ok (mb_rt st')) -> (rt_table (mb_rt st) !! mb_vip st = None -> rt_table (mb_rt st') !! mb_vip st = None) ->
  (keys_ok (mb_claims st) -> keys_ok (mb_claims st')) -> good st st'.
Proof.
  intros V N E T O K [H1 H2 H3 H4]. split; [split|]; [auto|rewrite V; auto|auto|by rewrite E|]. split_and!; [done|lia|done].
Qed.
Lemma good_same st st' : mb_vip st' = mb_vip st -> mb_node_id st' = mb_node_id st -> mb_epoch st' = mb_epoch st -> mb_rt st' = mb_rt st ->
  mb_claims st' = mb_claims st -> good st st'.
Proof. intros V N E R C. apply good_steady; by rewrite ?R, ?C. Qed.
Lemma good_claims st c : (keys_ok (mb_claims st) -> keys_ok c) -> good st (st <| mb_claims := c |>).
Proof. intros K. by apply good_steady. Qed.
Lemma good_out st e : good st (out st e).
Proof. by apply good_same. Qed.
Lemma good_outs st l : good st (outs st l).
Proof. by apply good_same. Qed.
Lemma keys_delete m n : keys_ok m -> keys_ok (delete n m).
Proof. intros K k r [_ L]%lookup_delete_Some. by apply K. Qed.
Lemma keys_insert m c : keys_ok m -> keys_ok (<[node_id c := c]> m).
Proof. intros K k r [[<- <-]|[_ L]]%lookup_insert_Some; [done|by apply K]. Qed.

Section Steps.
Context `{HashIter} `{Kdf} `{JsonText} `{AddrText} (body_max : Z).

Lemma touch_good st from now : good st (touch_route st from now).
Proof.
  unfold touch_route. destruct (is_endpoint_stale _ _); [|by apply good_same].
  apply good_steady; try done; cbn; intros; [by apply promote_ok|by apply promote_absent].
Qed.
Lemma side_effects_good st v ep old : good st (apply_route_endpoint_change_side_effects st v ep old).
Proof. unfold apply_route_endpoint_change_side_effects, remember_endpoint. repeat case_match; by apply good_same. Qed.
Lemma update_route_good st v ep nid now : good st (update_route st v ep nid now).
Proof.
  unfold update_route. destruct (_ || _) eqn:D; [apply good_refl|]. apply orb_false_iff in D as [_ D]. apply bool_decide_eq_false in D.
  eapply good_trans; [|apply good_out]. eapply good_trans; [|apply side_effects_good]. apply good_steady; try done; cbn.
  - intros T. by apply sync_ok, update_ok.
  - intros L. rewrite sync_other by congruence. by apply update_absent; [congruence|].
Qed.
Lemma roster_good st v ep nid : good st (notify_roster_upsert st v ep nid).
Proof. unfold notify_roster_upsert. case_bool_decide; by apply good_same. Qed.

(** *** Changing the own address *)

Lemma change_good st v now : rt_table (mb_rt st) !! v = None -> good st (apply_local_vip_change st v now).1.
Proof.
  intros F. unfold apply_local_vip_change. destruct (_ || _); [apply good_refl|]. destruct (negb _); [apply good_refl|].
  intros [T O K E]. cbv zeta. cbn [fst]. set (st' := out _ _). assert (V : mb_vip st' = v /\ mb_node_id st' = mb_node_id st /\ mb_epoch st' = sat_add U64_MAX (mb_epoch st) 1 /\
    mb_rt st' = rt_remove (mb_rt st) (mb_vip st) now /\ exists c, node_id c = mb_node_id st /\ mb_claims st' = <[node_id c := c]> (mb_claims st)).
  { unfold st'. cbn. destruct (rt_lookup _ _); cbn; split_and!; try done; by exists (mkClaim (mb_node_id st) v (sat_add U64_MAX (mb_epoch st) 1) []). }
  clearbody st'. destruct V as (V & N & P & R & c & _ & C). unfold sat_add in P. split; [split|].
  - rewrite R. by apply remove_ok.
  - rewrite R, V, remove_table. by apply lookup_delete_None; right.
  - rewrite C. by apply keys_insert.
  - lia.
  - split_and!; [done|lia|lia].
Qed.

Lemma occupied_routed st contested v : bool_decide (v ∈ occupied_vips_for_reroll st contested) = false -> rt_table (mb_rt st) !! v = None.
Proof.
  intros D%bool_decide_eq_false. apply not_elem_of_dom. intros I. apply D. unfold occupied_vips_for_reroll. set_solver.
Qed.

Lemma pick_free_unoccupied base occupied v : pick_free_vip base occupied = Some v -> occupied v = false.
Proof.
  intros E. pose proof (pick_free_vip_cases base occupied) as C. destruct (base_octets base) as [|? [|? [|? [|? [|]]]]]; rewrite E in C; try done. apply C.
Qed.

Lemma reroll_good st contested now : good st (try_local_vip_reroll st contested now).1.
Proof.
  unfold try_local_vip_reroll. cbv zeta. destruct (pick_free_vip _ _) as [v|] eqn:P; [|by apply good_same].
  apply pick_free_unoccupied, occupied_routed in P. pose proof (change_good st v now P) as G.
  destruct (apply_local_vip_change st v now) as [st1 []]; [|done]. eapply good_trans; [apply G|by apply good_same].
Qed.

Lemma settle_loser_good pre now x loser : good x.1 (settle_loser pre now x loser).1.
Proof.
  destruct x as [st changed]. unfold settle_loser. cbn [fst]. case_bool_decide.
  - pose proof (reroll_good st (mb_vip st) now) as G. destruct (try_local_vip_reroll st (mb_vip st) now) as [st1 []]; [done|]. cbn [fst] in *.
    eapply good_trans; [apply G|]. apply good_claims. apply (keys_insert _ (own_claim st1)).
  - destruct (pre !! loser) as [p|]; [|apply good_refl]. cbv zeta. cbn [fst]. eapply good_trans; [apply good_claims, (keys_delete _ loser)|].
    set (s1 := st <| mb_claims := _ |>). set (s2 := match _ with Some _ => _ | None => _ end). apply (good_trans _ s2); [|by apply good_same]. unfold s2. clear s2.
    destruct (rt_table _ !! _) as [e|]; [|apply good_refl]. destruct (_ || _); [|apply good_refl].
    eapply good_trans; [|apply good_outs]. apply good_steady; try done; [apply (remove_ok (mb_rt st))|]. intros L.
    change (rt_table (rt_remove (mb_rt st) (vip p) now) !! mb_vip st = None). rewrite remove_table. by apply lookup_delete_None; right.
Qed.
Lemma reroll_against_good n contested now : forall st, good st (reroll_against n contested now st).1.
Proof.
  induction n as [|n IH]; intros st; cbn [reroll_against]; [apply good_refl|]. pose proof (reroll_good st contested now) as G.
  destruct (try_local_vip_reroll st contested now) as [st1 []]; [done|]. eapply good_trans; [apply G|apply IH].
Qed.
Lemma settle_keys m : keys_ok m -> keys_ok (settle_duplicate_vips m).1.
Proof. intros K n r. rewrite settle_lookup. destruct (decide _); [done|apply K]. Qed.

Lemma fight_good st now : good st (apply_claim_settle_and_local_fight st now).1.
Proof.
  unfold apply_claim_settle_and_local_fight. pose proof (settle_keys (mb_claims st)) as K. destruct (settle_duplicate_vips _) as [claims losers]. cbn [fst] in K.
  pose proof (good_foldl fst (settle_loser (mb_claims st) now) losers (st <| mb_claims := claims |>, false) (settle_loser_good _ _)) as G.
  destruct (foldl _ _ _) as [st1 changed]. pose proof (reroll_against_good (List.length (fighters st1)) (mb_vip st1) now st1) as R.
  destruct (reroll_against _ _ _ _) as [st2 rerolled]. cbn [fst] in *. eapply good_trans; [by apply good_claims|]. eapply good_trans; [apply G|].
  eapply good_trans; [apply R|]. destruct (_ || _); by apply good_same.
Qed.

Lemma merge_into_good st c now : good st (merge_into st c now).1.
Proof.
  unfold merge_into. pose proof (merge_claim_keys (mb_claims st) c (mb_tombs st) (mb_fights st) now) as K. destruct (merge_claim _ _ _ _ _) as [[m f] o]. by apply good_steady.
Qed.
Lemma remote_claim_good st nid v epoch from now : good st (apply_remote_claim st nid v epoch from now).
Proof.
  unfold apply_remote_claim. destruct (_ || _); [apply good_refl|]. pose proof (merge_into_good st (mkClaim nid v epoch [show_addr from]) now) as G.
  destruct (merge_into _ _ _) as [st1 o]. destruct (negb _); [done|]. cbn [fst] in G. eapply good_trans; [apply G|]. pose proof (fight_good st1 now) as F.
  destruct (apply_claim_settle_and_local_fight st1 now) as [st2 b]. cbn [fst] in F. eapply good_trans; [apply F|]. destruct (_ && _); [|apply good_refl].
  eapply good_trans; [apply update_route_good|apply roster_good].
Qed.

(** *** Gossip *)

Lemma enrich_keys t m : keys_ok m -> keys_ok (enrich t <$> m).
Proof.
  intros K n r L. rewrite lookup_fmap in L. apply fmap_Some in L as (c & C & ->). rewrite <- (K _ _ C). unfold enrich. by repeat case_match.
Qed.
Lemma broadcast_good st now ts : good st (broadcast_claim_gossip body_max st now ts).
Proof.
  unfold broadcast_claim_gossip. destruct (_ || _); [apply good_refl|]. cbv zeta. eapply good_trans; [apply good_claims, (enrich_keys (mb_rt st))|].
  destruct (body_max <? _); by apply good_same.
Qed.
Lemma flush_good st now ts : good st (flush_pending_claim_gossip body_max st now ts).
Proof. unfold flush_pending_claim_gossip. destruct (mb_pending_gossip st); [|apply good_refl]. eapply good_trans; [|apply broadcast_good]. by apply good_same. Qed.
Lemma retry_good st now : good st (retry_vip_fight_if_due st now).
Proof.
  unfold retry_vip_fight_if_due. destruct (mb_retry_after st); [|apply good_refl]. destruct (_ <? _); [apply good_refl|].
  eapply good_trans; [|apply fight_good]. by apply good_same.
Qed.
Lemma presence_good st now ts : good st (send_claim_presence_tick body_max st now ts).
Proof.
  unfold send_claim_presence_tick. destruct (_ || _); [apply good_refl|]. cbv zeta. eapply good_trans; [apply retry_good|]. eapply good_trans; [apply flush_good|].
  destruct (_ || _); [apply good_refl|apply good_outs].
Qed.
Lemma sync_tick_good st now ts : good st (sync_tick body_max st now ts).
Proof. unfold sync_tick. eapply good_trans; [|apply broadcast_good]. eapply good_trans; [|apply flush_good]. by apply good_same. Qed.

Lemma gossip_leave_good now st item : good st (gossip_leave now st item).
Proof. unfold gossip_leave. destruct (read_leave item) as [[nid v] epoch]. destruct (_ || _); by apply good_same. Qed.
Lemma gossip_claim_good now x item : good x.1 (gossip_claim now x item).1.
Proof.
  destruct x as [st pending]. unfold gossip_claim. cbn [fst]. destruct (_ || _); [apply good_refl|]. case_bool_decide; [apply good_refl|].
  pose proof (merge_into_good st (read_claim item) now) as G. by destruct (merge_into _ _ _).
Qed.
Lemma gossip_route_good from from_node n now x p : good x.1 (gossip_route from from_node n now x p).1.
Proof.
  destruct x as [st gossip], p as [c o]. unfold gossip_route. cbv zeta. cbn [fst]. destruct (_ || _); [apply good_refl|].
  match goal with |- context [match ?x with Some e => (notify_roster_upsert _ _ _ _, _) | None => _ end] => destruct x as [e|] end; [|apply good_refl]. cbn [fst]. eapply good_trans; [apply update_route_good|apply roster_good].
Qed.
Lemma gossip_body_good st body from now ts : good st (handle_claim_gossip_body body_max st body from now ts).
Proof.
  unfold handle_claim_gossip_body. destruct (_ <? _); [apply good_refl|]. destruct (json_parse body) as [v|]; [|apply good_refl]. cbv zeta.
  set (s1 := match get "leaves" v ≫= as_array with Some l => foldl (gossip_leave now) st l | None => st end). assert (G1 : good st s1).
  { unfold s1. destruct (get "leaves" v ≫= as_array) as [l|]; [|apply good_refl]. apply (good_foldl id). intros b a. apply gossip_leave_good. }
  clearbody s1. destruct (get "claims" v ≫= as_array) as [items|]; [|done]. eapply good_trans; [apply G1|].
  pose proof (good_foldl fst (gossip_claim now) items (s1, []) (gossip_claim_good now)) as G2. destruct (foldl _ _ items) as [s2 pending]. cbn [fst] in G2.
  pose proof (fight_good s2 now) as G3. destruct (apply_claim_settle_and_local_fight s2 now) as [s3 changed]. cbn [fst] in G3.
  pose proof (good_foldl fst (gossip_route from (str_field "from" v) (len items) now) pending (s3, changed) (gossip_route_good _ _ _ _)) as G4.
  destruct (foldl _ _ pending) as [s4 gossip]. cbn [fst] in G4. eapply good_trans; [apply G2|]. eapply good_trans; [apply G3|]. eapply good_trans; [apply G4|].
  destruct (_ || _); [|apply good_refl]. eapply good_trans; [|apply broadcast_good]. by apply good_same.
Qed.

(** *** The other messages *)

Lemma punch_good st body from auth now : good st (learn_route_from_hole_punch_body st body from auth now).
Proof.
  unfold learn_route_from_hole_punch_body. cbv zeta. eapply good_trans; [apply (touch_good st from now)|].
  destruct (ipv4_to_u32 _); [|apply good_refl]. repeat (case_match; try apply good_refl). apply update_route_good.
Qed.
Lemma stop_ice_good st from body : good st (try_stop_ice_checks_for_join_peer st from body).
Proof. unfold try_stop_ice_checks_for_join_peer. repeat case_match; by apply good_same. Qed.
Lemma hb_good st body from auth now : good st (apply_hb_body st body from auth now).
Proof.
  unfold apply_hb_body. cbv zeta. eapply good_trans; [apply (touch_good st from now)|]. case_bool_decide; [apply good_refl|].
  destruct (ipv4_to_u32 _); [apply punch_good|apply good_refl].
Qed.
Lemma hol_good st body from auth now : good st (apply_hol_body st body from auth now).
Proof. unfold apply_hol_body. cbv zeta. eapply good_trans; [|apply good_out]. eapply good_trans; [apply punch_good|apply stop_ice_good]. Qed.
Lemma mctl_good st body from auth now : good st (handle_mctl st body from auth now).
Proof.
  unfold handle_mctl. destruct (parse_mctl body) as [p|]; [|apply good_refl]. destruct (signaling_ok p); [|apply good_refl].
  destruct (mctl_vip p) as [v|]; [|apply good_refl]. cbv zeta. set (s1 := if negb (Z.land (mctl_flags p) MCTL_FLAG_HB =? 0) then apply_hb_body st v from auth now else st).
  assert (G : good st s1) by (unfold s1; destruct (negb _); [apply hb_good|apply good_refl]). clearbody s1. destruct (negb _); [|done]. eapply good_trans; [apply G|apply hol_good].
Qed.

Lemma start_ice_good st v nid : good st (start_ice st v nid).
Proof. unfold start_ice. repeat case_match; by apply good_same. Qed.
Lemma answer_good st from sent : good st (answer_join st from sent).
Proof. unfold answer_join. cbv zeta. repeat case_match; by apply good_same. Qed.
Lemma join_good st body from m : good st (handle_join body_max st body from m).
Proof.
  unfold handle_join. destruct (_ || _); [apply good_refl|]. destruct (allow _ _ _) as [l1 ok1]. set (s1 := st <| mb_join_limiter := l1 |>).
  assert (G1 : good st s1) by by apply good_same. destruct (negb ok1); [done|]. destruct (allow _ _ _) as [l2 ok2]. set (s2 := s1 <| mb_join_ip_limiter := l2 |>).
  assert (G2 : good st s2) by by apply good_same. clearbody s2. clear G1. destruct (negb ok2); [done|]. destruct (_ <? _); [done|]. destruct (json_parse body) as [v|]; [|done].
  eapply good_trans; [apply G2|]. destruct (negb _); [apply good_out|]. cbv zeta. destruct (_ || _); [apply good_refl|]. destruct (negb _); [apply good_refl|].
  eapply good_trans; [|apply start_ice_good]. eapply good_trans; [|apply broadcast_good]. eapply good_trans; [|apply good_out].
  eapply good_trans; [apply remote_claim_good|apply answer_good].
Qed.
Lemma jack_good st body from m : good st (handle_jack st body from m).
Proof.
  unfold handle_jack. destruct (_ <? _); [apply good_refl|]. destruct (json_parse body) as [v|]; [|apply good_refl]. destruct (negb _); [apply good_refl|].
  destruct (negb _); [apply good_refl|]. cbv zeta. pose proof (remote_claim_good st (str_field "node_id" v) (str_field "vip" v) (u64_field "vip_epoch" v) from (ms_now m)) as G.
  set (s1 := apply_remote_claim _ _ _ _ _ _) in *. clearbody s1. eapply good_trans; [apply G|].
  destruct (_ && _); [apply good_refl|]. destruct (mb_joining s1 && ms_waiting m); cbn [negb andb].
  - eapply good_trans; [|apply start_ice_good]. by apply good_same.
  - case_match; [by apply good_same|]. eapply good_trans; [|apply start_ice_good]. by apply good_same.
Qed.

Lemma mark_good st id now : good st (mark_msmd_seen st id now).1.
Proof. unfold mark_msmd_seen. case_bool_decide; [apply good_refl|]. destruct (msmd_expire _ _ _). destruct (msmd_trim _ _). by apply good_same. Qed.
Lemma drop_good st ep : good st (drop_endpoint st ep).
Proof. by apply good_same. Qed.
Lemma good_remove st v now : good st (st <| mb_rt := rt_remove (mb_rt st) v now |>).
Proof.
  apply good_steady; try done; [apply (remove_ok (mb_rt st))|]. intros L. change (rt_table (rt_remove (mb_rt st) v now) !! mb_vip st = None).
  rewrite remove_table. by apply lookup_delete_None; right.
Qed.
Lemma leave_good st body auth now : good st (handle_leave st body auth now).
Proof.
  unfold handle_leave. destruct (negb auth); [apply good_refl|]. destruct (_ <? _); [apply good_refl|]. destruct (json_parse body) as [v|]; [|apply good_refl].
  case_bool_decide; [apply good_refl|]. pose proof (mark_good st (str_field "event_id" v) now) as G. destruct (mark_msmd_seen _ _ _) as [s1 fresh]. cbn [fst] in G.
  destruct (negb fresh); [done|]. destruct (read_leave v) as [[nid lv] epoch]. destruct (_ || _); [done|]. eapply good_trans; [apply G|]. cbv zeta.
  set (s2 := s1 <| mb_tombs := _ |> <| mb_claims := _ |>). assert (G2 : good s1 s2) by (apply good_steady; try done; apply keys_delete). clearbody s2.
  destruct (rt_table (mb_rt s2) !! lv) as [e|]; [|done]. destruct (negb _); [done|]. eapply good_trans; [apply G2|]. eapply good_trans; [|apply good_out].
  eapply good_trans; [|apply drop_good]. eapply good_trans; [apply good_remove|apply good_outs].
Qed.
Lemma prxy_good st body from auth : good st (handle_prxy st body from auth).
Proof.
  unfold handle_prxy. destruct (_ <? _); [apply good_refl|]. destruct (_ && _); [apply good_refl|]. destruct (json_parse body) as [v|]; [|apply good_refl].
  case_bool_decide; [case_bool_decide; [apply start_ice_good|apply good_refl]|]. repeat (case_match; try apply good_refl). apply good_out.
Qed.

Lemma dispatch_tag_good st tag body from auth m : good st (dispatch_tag body_max st tag body from auth m).
Proof.
  unfold dispatch_tag. cbv zeta. destruct (is_para tag); [destruct (para_ts tag body); [destruct (is_recent_para_ts _ _); [apply good_out|]|]; apply good_refl|].
  destruct (_ || _); [apply touch_good|].
  repeat (case_bool_decide; [first [apply join_good|apply jack_good|apply leave_good|apply prxy_good|apply touch_good|apply mctl_good|apply hb_good|apply hol_good|idtac]|]);
    [destruct (mb_joining st); by apply good_same|destruct auth; [apply gossip_body_good|apply good_refl]|eapply good_trans; [apply punch_good|apply stop_ice_good]|apply good_refl].
Qed.
Lemma dispatch_good st tag body from auth m : good st (dispatch_control body_max st tag body from auth m).
Proof.
  unfold dispatch_control. destruct (negb auth && negb (bypasses_limit tag)).
  - destruct (allow _ _ _) as [l ok]. eapply (good_trans _ (st <| mb_ctrl_limiter := l |>)); [by apply good_same|]. destruct (negb ok); [apply good_refl|].
    destruct (_ && _ && _); [apply good_refl|apply dispatch_tag_good].
  - cbn [negb]. destruct (_ && _ && _); [apply good_refl|apply dispatch_tag_good].
Qed.

(** *** Commands and eviction *)

Lemma broadcast_leave_good st nid lv epoch id now ts : good st (broadcast_leave st nid lv epoch id now ts).
Proof. unfold broadcast_leave. destruct (negb _); [apply good_refl|]. apply good_steady; try done. apply keys_delete. Qed.

Lemma keys_fold_delete (l : list string) : forall m, keys_ok m -> keys_ok (fold_left (fun m nid => delete nid m) l m).
Proof. induction l as [|n l IH]; intros m K; [done|]. cbn. by apply IH, keys_delete. Qed.
Lemma forget_good st x : good st (forget_victim st x).
Proof.
  unfold forget_victim. apply good_steady; try done. intros K. cbn [mb_claims setter]. case_bool_decide; [by apply keys_fold_delete|by apply keys_delete].
Qed.
Lemma removes_good st now (l : list (string * RouteEntry)) : forall t, (table_ok (mb_rt st) -> table_ok t) ->
  (rt_table (mb_rt st) !! mb_vip st = None -> rt_table t !! mb_vip st = None) ->
  good st (st <| mb_rt := foldl (fun t (x : string * RouteEntry) => rt_remove t x.1 now) t l |>).
Proof.
  induction l as [|x l IH]; intros t T O; [by apply good_steady|]. cbn [foldl]. apply IH.
  - intros K. by apply remove_ok, T.
  - intros L. rewrite remove_table. apply lookup_delete_None. right. auto.
Qed.
Lemma evict_good st mark age now : good st (stale_evict_tick st mark age now).
Proof.
  unfold stale_evict_tick. cbv zeta. set (victims := List.filter _ _). set (s1 := st <| mb_rt := _ |>). set (s2 := foldl forget_victim s1 victims).
  set (s3 := foldl _ s2 victims). apply (good_trans _ s3); [|by apply good_same]. apply (good_trans _ s2); [|apply (good_foldl id); intros; apply drop_good].
  apply (good_trans _ s1); [|apply (good_foldl id); intros; apply forget_good].
  apply removes_good; [apply idle_table_ok|]. intros L. cbn. by rewrite lookup_fmap, L.
Qed.
End Steps.

(** ** Runs *)

Section Runs.
Context `{HashIter} `{Kdf} `{JsonText} `{AddrText} (body_max : Z).

Lemma drain_absent t my prefix now v : rt_table t !! v = None -> rt_table (drain_vips_outside_subnet t my prefix now).1 !! v = None.
Proof.
  intros L. unfold drain_vips_outside_subnet. destruct (ipv4_to_u32 my); [|done]. apply (foldl_inv (fun st => rt_table st.1 !! v = None)); [done|].
  intros [s r] w I. unfold drain_step. destruct (rt_table s !! w); [|done]. cbn [fst] in *. rewrite remove_table. by apply lookup_delete_None; right.
Qed.
Lemma identity_ok st v nid prefix epoch now : rt_table (mb_rt st) !! v = None -> 0 <= epoch <= U64_MAX -> members_ok st -> members_ok (set_identity st v nid prefix epoch now).
Proof.
  intros F E [T O K _]. unfold set_identity. cbv zeta. set (s1 := st <| mb_vip := v |> <| mb_node_id := nid |> <| mb_epoch := epoch |> <| mb_prefix := clamp 8 30 prefix |>).
  case_bool_decide; [by split|]. assert (G : forall t l, table_ok t -> rt_table t !! v = None -> members_ok (outs (s1 <| mb_rt := t |>) l)) by (intros t l Ht Hv; split; assumption).
  pose proof (drain_ok (mb_rt st) v (clamp 8 30 prefix) now T) as D. pose proof (drain_absent (mb_rt st) v (clamp 8 30 prefix) now v F) as A.
  change (mb_rt s1) with (mb_rt st). change (mb_prefix s1) with (clamp 8 30 prefix). clearbody s1.
  destruct (drain_vips_outside_subnet (mb_rt st) v (clamp 8 30 prefix) now) as [t drained]. by apply G.
Qed.

(** What happens to a member between two commands that set its identity. *)
Inductive session_step (st : Member) : Member -> Prop :=
| SControl tag body from authenticated m : session_step st (dispatch_control body_max st tag body from authenticated m)
| SPresence now ts : session_step st (send_claim_presence_tick body_max st now ts)
| SSync now ts : session_step st (sync_tick body_max st now ts)
| SGossip now ts : session_step st (broadcast_claim_gossip body_max st now ts)
| SEvict stale_mark stale_age now : session_step st (stale_evict_tick st stale_mark stale_age now)
| SLeave nid v epoch event_id now ts : session_step st (broadcast_leave st nid v epoch event_id now ts)
| STakeAck : session_step st (take_pending_join_ack st).1.

(** The identity that is set must not be an address the node routes to. *)
Inductive member_step (st : Member) : Member -> Prop :=
| MSession st' : session_step st st' -> member_step st st'
| MIdentity v nid prefix epoch now : rt_table (mb_rt st) !! v = None -> 0 <= epoch <= U64_MAX -> member_step st (set_identity st v nid prefix epoch now).

Lemma session_step_good st st' : session_step st st' -> good st st'.
Proof.
  intros []; [apply dispatch_good|apply presence_good|apply sync_tick_good|apply broadcast_good|apply evict_good|apply broadcast_leave_good|by apply good_same].
Qed.
Lemma session_good st st' : rtc session_step st st' -> good st st'.
Proof. induction 1; [apply good_refl|]. eapply good_trans; [by apply session_step_good|done]. Qed.


(** Between two settings of the identity an epoch stands for one claim: whenever the epoch of a member is the
    same at two points of a session, so is the claim it gossips, its address included.  This is what the
    merging of claims by epoch needs to converge. *)
Theorem epoch_names_claim st st1 st2 : members_ok st -> rtc session_step st st1 -> rtc session_step st1 st2 ->
  mb_epoch st1 = mb_epoch st2 -> mb_epoch st1 < U64_MAX -> own_claim st1 = own_claim st2.
Proof.
  intros O R1 R2 E M. destruct (session_good _ _ R1 O) as [O1 _]. destruct (session_good _ _ R2 O1) as [_ (N & _ & V)].
  unfold own_claim. by rewrite N, E, V.
Qed.
End Runs.

(** ** Settling conflicts *)

Section Settlement.
Context `{HashIter} `{KdfLaws} `{JsonText} `{AddrText} (k : bytes).

Lemma pick_accepted occupied v : pick_free_vip (floatunit_subnet_base_vip k) occupied = Some v -> accept_wire_claim_vip (Some k) v = true.
Proof.
  intros P. pose proof (pick_free_vip_cases (floatunit_subnet_base_vip k) occupied) as C. destruct (derive_floatunit_subnet24 k) as [[a b] c] eqn:Ek.
  pose proof (floatunit_subnet_octets k a b c Ek) as (-> & Hb & Hc). unfold floatunit_subnet_base_vip in C at 1. rewrite Ek in C. fold (fmt_vip 10 b c 1) in C.
  rewrite base_octets_fmt in C by (done || (unfold byte_ok; lia)). rewrite P in C. destruct C as (_ & h & Hh & ->). by apply unit_host_in_subnet.
Qed.

(** What a settlement keeps: who the node is, its keys, and the claims of the others. *)
Definition others_kept (s s' : Member) : Prop :=
  mb_node_id s' = mb_node_id s /\ mb_keys s' = mb_keys s /\ forall n, n <> mb_node_id s -> mb_claims s' !! n = mb_claims s !! n.
Definition same_identity (s s' : Member) : Prop :=
  others_kept s s' /\ mb_vip s' = mb_vip s /\ mb_epoch s' = mb_epoch s /\ (mb_pending_gossip s = true -> mb_pending_gossip s' = true).
(** The new address is one of the unit that no other member claims, under a later epoch. *)
Definition moved (s s' : Member) : Prop :=
  others_kept s s' /\ mb_epoch s' = sat_add U64_MAX (mb_epoch s) 1 /\ accept_wire_claim_vip (Some k) (mb_vip s') = true /\
  mb_vip s' <> mb_vip s /\ mb_pending_gossip s' = true /\ forall n c, n <> mb_node_id s -> mb_claims s !! n = Some c -> vip c <> mb_vip s'.

Lemma kept_refl s : others_kept s s.
Proof. by split_and!. Qed.
Lemma kept_trans a b c : others_kept a b -> others_kept b c -> others_kept a c.
Proof. intros (N1 & K1 & C1) (N2 & K2 & C2). split_and!; [congruence..|]. intros n D. rewrite C2, C1; congruence. Qed.
Lemma identity_refl s : same_identity s s.
Proof. split; [apply kept_refl|done]. Qed.
Lemma identity_then a b c : same_identity a b -> same_identity b c -> same_identity a c.
Proof. intros (K1 & V1 & E1 & P1) (K2 & V2 & E2 & P2). split; [by eapply kept_trans|]. split_and!; [congruence..|auto]. Qed.
Lemma identity_moved a b c : same_identity a b -> moved b c -> moved a c.
Proof.
  intros (K1 & V1 & E1 & _) (K2 & E2 & A & D & P & F). pose proof K1 as (N1 & _ & C1). split; [by eapply kept_trans|]. rewrite <- V1, <- E1. split_and!; try done.
  intros n c0 Dn L. apply (F n); [by rewrite N1|by rewrite C1].
Qed.
Lemma moved_identity a b c : moved a b -> same_identity b c -> moved a c.
Proof.
  intros (K1 & E1 & A & D & P & F) (K2 & V & E2 & P2). split; [by eapply kept_trans|]. rewrite V, E2. split_and!; try done. auto.
Qed.
Lemma key_kept s s' : others_kept s s' -> unit_network_key s' = unit_network_key s.
Proof. intros (_ & K & _). unfold unit_network_key. by rewrite K. Qed.

Lemma claimed_occupied s contested n c : mb_claims s !! n = Some c -> vip c ∈ occupied_vips_for_reroll s contested.
Proof.
  intros L. unfold occupied_vips_for_reroll. rewrite !elem_of_union. do 3 left. apply elem_of_list_to_set, list_elem_of_fmap. exists (n, c). split; [done|]. by apply hm_iter_elem.
Qed.

Lemma reroll_cases s contested now s' b : unit_network_key s = Some k -> try_local_vip_reroll s contested now = (s', b) ->
  if b then moved s s' else s' = s <| mb_retry_after := Some (now + VIP_REROLL_RETRY_INTERVAL) |>.
Proof.
  intros U. unfold try_local_vip_reroll. cbv zeta. rewrite U. destruct (pick_free_vip _ _) as [v|] eqn:P; [|by intros [= <- <-]].
  pose proof (pick_accepted _ _ P) as A. apply pick_free_unoccupied, bool_decide_eq_false in P.
  assert (N : v <> mb_vip s). { intros ->. apply P. unfold occupied_vips_for_reroll. set_solver. }
  assert (NE : v <> EmptyString) by (intros ->; unfold accept_wire_claim_vip, vip_in_floatunit_subnet in A; by vm_compute in A).
  unfold apply_local_vip_change, accept_vip. rewrite U, A, !bool_decide_eq_false_2 by done. cbn [orb negb]. cbv zeta. intros X. injection X as <- <-.
  split_and!; try (destruct (rt_lookup _ _); done).
  - split_and!; try (destruct (rt_lookup _ _); done). destruct (rt_lookup _ _); cbn; intros n D; by rewrite lookup_insert_ne.
  - intros n c _ L E. apply P. replace v with (vip c) by (rewrite E; by destruct (rt_lookup _ _)). by eapply claimed_occupied.
Qed.

(** After a move no other member claims the address, so nothing more is lost. *)
Definition unclaimed (s : Member) : Prop := forall n c, n <> mb_node_id s -> mb_claims s !! n = Some c -> vip c <> mb_vip s.
Lemma moved_unclaimed s s' : moved s s' -> unclaimed s'.
Proof. intros ((N & _ & C) & _ & _ & _ & _ & F) n c D. rewrite N in D. rewrite C by done. by apply F. Qed.

(** *** The losers of a settlement *)

Lemma losers_NoDup (m : ClaimMap) : NoDup (settle_duplicate_vips m).2.
Proof.
  unfold settle_duplicate_vips. rewrite settle_fold. cbn [snd app]. rewrite list_fmap_bind. apply NoDup_bind.
  - intros [v1 n1] [v2 n2] y I1%hm_iter_elem I2%hm_iter_elem. apply group_by_vip_lookup in I1 as [-> _], I2 as [-> _]. cbn.
    intros [Y1 _]%group_losers_spec [Y2 _]%group_losers_spec; [|apply claimants_NoDup..].
    apply elem_of_claimants in Y1 as (r1 & R1 & <-), Y2 as (r2 & R2 & <-). rewrite R1 in R2. by apply (inj Some) in R2 as <-.
  - intros [v ns] I%hm_iter_elem. apply group_by_vip_lookup in I as [-> _]. cbn. unfold group_losers. apply (sublist_NoDup _ (merge_sort str_le (claimants v (hm_iter m)))); [|apply sublist_drop].
    rewrite merge_sort_Permutation. apply claimants_NoDup.
  - apply (NoDup_fmap_1 fst), hm_iter_NoDup_fst.
Qed.

(** The fold over the losers: the claims of the others stay as settled, and the node moves at most once, only if it is among them. *)
Definition settled (me_lost : Prop) (s s' : Member) : Prop := same_identity s s' \/ me_lost /\ moved s s'.

Lemma loser_step pre now s ch loser s' ch' : unit_network_key s = Some k -> (loser <> mb_node_id s -> mb_claims s !! loser = None) -> settle_loser pre now (s, ch) loser = (s', ch') ->
  if decide (loser = mb_node_id s) then same_identity s s' \/ moved s s' else same_identity s s'.
Proof.
  intros U L. unfold settle_loser. destruct (decide _) as [->|D].
  - rewrite bool_decide_eq_true_2 by done. destruct (try_local_vip_reroll s (mb_vip s) now) as [s1 b] eqn:T. apply (reroll_cases _ _ _ _ _ U) in T. destruct b.
    + intros [= <- <-]. by right.
    + subst s1. intros [= <- <-]. left. split; [|done]. split_and!; [done..|]. intros n N. cbn. by rewrite lookup_insert_ne.
  - rewrite bool_decide_eq_false_2 by done. destruct (pre !! loser) as [p|]; [|intros [= <- <-]; apply identity_refl]. cbv zeta. intros X. injection X as <- <-.
    assert (K : forall r : Member, mb_claims r = delete loser (mb_claims s) -> mb_node_id r = mb_node_id s -> mb_keys r = mb_keys s -> mb_vip r = mb_vip s -> mb_epoch r = mb_epoch s ->
      mb_pending_gossip r = mb_pending_gossip s -> same_identity s r).
    { intros r C N Ke V E Pg. split; [|by rewrite Pg]. split_and!; [done..|]. intros n _. by rewrite C, delete_id by auto. }
    apply K; cbn; repeat case_match; done.
Qed.

Lemma losers_fold pre now l : forall s ch, unit_network_key s = Some k -> Forall (fun n => n <> mb_node_id s -> mb_claims s !! n = None) l -> NoDup l ->
  settled (mb_node_id s ∈ l) s (foldl (settle_loser pre now) (s, ch) l).1.
Proof.
  induction l as [|n l IH]; intros s ch U F D; [left; apply identity_refl|]. apply Forall_cons in F as [Fn F]. apply NoDup_cons in D as [Dn D]. cbn [foldl].
  destruct (settle_loser pre now (s, ch) n) as [s1 ch1] eqn:E. pose proof (loser_step _ _ _ _ _ _ _ U Fn E) as S.
  assert (K : others_kept s s1) by (destruct (decide _); [destruct S as [S|S]|]; apply S). pose proof K as (N & _ & C).
  assert (R : settled (mb_node_id s1 ∈ l) s1 (foldl (settle_loser pre now) (s1, ch1) l).1).
  { apply IH; [by rewrite (key_kept _ _ K)|..|done]. rewrite Forall_forall in F |- *. intros x X Nx. rewrite N in Nx. rewrite C by done. auto. }
  rewrite N in R. destruct (decide (n = mb_node_id s)) as [->|Dm].
  - destruct R as [R|[I _]]; [|done]. destruct S as [S|S]; [left; by eapply identity_then|right]. split; [by left|].
    by eapply moved_identity.
  - destruct R as [R|[I R]]; [left; by eapply identity_then|right]. split; [by right|]. by eapply identity_moved.
Qed.

Lemma against_cases n contested now : forall s s' b, unit_network_key s = Some k -> reroll_against n contested now s = (s', b) ->
  if b then moved s s' else same_identity s s' /\ (n <> O -> mb_retry_after s' = Some (now + VIP_REROLL_RETRY_INTERVAL)).
Proof.
  induction n as [|n IH]; intros s s' b U; cbn [reroll_against]; [intros [= <- <-]; split; [apply identity_refl|done]|].
  destruct (try_local_vip_reroll s contested now) as [s1 b1] eqn:T. apply (reroll_cases _ _ _ _ _ U) in T. destruct b1; [by intros [= <- <-]|].
  assert (I : same_identity s s1) by (subst s1; split; [by split_and!|done]). intros R. pose proof (IH s1 s' b) as J.
  specialize (J ltac:(by rewrite (key_kept _ _ (proj1 I))) R). destruct b; [by eapply identity_moved|]. destruct J as [J Q]. split; [by eapply identity_then|].
  intros _. destruct n; [|by apply Q]. cbn in R. injection R as <-. by rewrite T.
Qed.

(** The claims that would take the address away: of smaller ids. *)
Definition holds_address (s : Member) : Prop :=
  forall n c, n <> mb_node_id s -> mb_claims s !! n = Some c -> vip c = mb_vip s -> str_lt (mb_node_id s) n = true.

Lemma fighter_loses s c : c ∈ fighters s <-> node_id c <> mb_node_id s /\ vip c = mb_vip s /\ str_lt (mb_node_id s) (node_id c) = false /\ exists n, mb_claims s !! n = Some c.
Proof.
  unfold fighters. rewrite !list_elem_of_filter. unfold should_reroll_for_vip_fight, local_loses_vip_conflict, node_id_wins.
  rewrite !andb_true_iff, !negb_true_iff, bool_decide_eq_true, bool_decide_eq_false, list_elem_of_fmap. split.
  - intros ((V & W & _) & N & [n c'] & -> & I%hm_iter_elem). split_and!; [done..|by exists n].
  - intros (N & V & W & n & L). split_and!; try done. exists (n, c). split; [done|]. by apply hm_iter_elem.
Qed.
Lemma fighters_none s : keys_ok (mb_claims s) -> fighters s = [] -> holds_address s.
Proof.
  intros K F n c N L V. destruct (str_lt (mb_node_id s) n) eqn:W; [done|]. assert (I : c ∈ fighters s); [|rewrite F in I; by apply elem_of_nil in I].
  apply fighter_loses. rewrite (K _ _ L). split_and!; try done. by exists n.
Qed.
Lemma fighter_smaller s c : keys_ok (mb_claims s) -> c ∈ fighters s -> mb_claims s !! node_id c = Some c /\ vip c = mb_vip s /\ node_id c <> mb_node_id s /\ str_lt (node_id c) (mb_node_id s) = true.
Proof.
  intros K (N & V & W & n & L)%fighter_loses. pose proof (K _ _ L) as E. subst n. split_and!; try done.
  destruct (str_lt_trichotomy (node_id c) (mb_node_id s)) as [?|[?|?]]; congruence.
Qed.

Definition contested (s : Member) : Prop := exists n c, mb_claims s !! n = Some c /\ str_lt n (mb_node_id s) = true /\
  (vip c = mb_vip s \/ exists r, mb_claims s !! mb_node_id s = Some r /\ vip c = vip r).

Lemma settle_outcome st now : members_ok st -> unit_network_key st = Some k ->
  let s0 := st <| mb_claims := (settle_duplicate_vips (mb_claims st)).1 |> in
  let st' := (apply_claim_settle_and_local_fight st now).1 in
  (mb_retry_after st' = Some (now + VIP_REROLL_RETRY_INTERVAL) \/ holds_address st') /\ (same_identity s0 st' \/ moved s0 st' /\ contested st).
Proof.
  intros O U. cbv zeta. pose proof (fight_good st now O) as [O' _]. revert O'. unfold apply_claim_settle_and_local_fight. pose proof (settle_losers_spec (mb_claims st)) as Ls.
  pose proof (settle_lookup (mb_claims st)) as Lk. pose proof (losers_NoDup (mb_claims st)) as D. pose proof (settle_keys _ (mo_keys _ O)) as K0.
  destruct (settle_duplicate_vips (mb_claims st)) as [claims losers]. cbn [fst snd] in *. set (s0 := st <| mb_claims := claims |>).
  pose proof (losers_fold (mb_claims st) now losers s0 false U) as S. specialize (S ltac:(apply Forall_forall; intros n I _; cbn; by rewrite Lk, decide_True) D).
  assert (G : good s0 (foldl (settle_loser (mb_claims st) now) (s0, false) losers).1) by (apply (good_foldl fst _ _ (s0, false)), settle_loser_good).
  destruct (foldl _ _ losers) as [s1 ch]. cbn [fst] in S, G. destruct (reroll_against _ _ _ s1) as [s2 b] eqn:R.
  assert (O0 : members_ok s0) by (destruct O; by split). destruct (G O0) as [O1 _]. assert (K1 : others_kept s0 s1) by (destruct S as [S|[_ S]]; apply S).
  cbn [fst]. set (st' := if ch || b then _ else _).
  assert (E : same_identity s2 st' /\ mb_retry_after st' = mb_retry_after s2) by (unfold st'; destruct (ch || b); (split; [split; [by split_and!|done]|done])).
  clearbody st'. destruct E as [E ER]. destruct (fighters s1) as [|c fs] eqn:F; cbn [List.length] in R.
  - cbn in R. injection R as <- <-. split.
    + right. apply (fighters_none _ (mo_keys _ O1)) in F. destruct E as ((N' & _ & C') & V' & _). intros n c Nn L V. rewrite N' in Nn |- *. apply (F n c Nn); [by rewrite <- C'|by rewrite <- V'].
    + destruct S as [S|[I S]]; [left; by eapply identity_then|right]. split; [by eapply moved_identity|].
      apply Ls in I as (r & n & c & X1 & X2 & X3 & X4). exists n, c. eauto 6.
  - apply against_cases in R; [|by rewrite (key_kept _ _ K1)]. destruct (fighter_smaller s1 c (mo_keys _ O1)) as (X1 & X2 & X3 & X4); [rewrite F; by left|].
    destruct S as [S|[_ S]]; [|by apply moved_unclaimed in S; destruct (S _ _ X3 X1)]. pose proof S as ((N & _ & C) & V & _). destruct b.
    + pose proof (moved_identity _ _ _ (identity_moved _ _ _ S R) E) as M. split; [right; intros n c' Nn L V'; by destruct (moved_unclaimed _ _ M _ _ Nn L)|right].
      split; [done|]. rewrite N in X3, X4. rewrite C in X1 by done. exists (node_id c), c. rewrite V in X2. split_and!; [|done|by left].
      cbn in X1. rewrite Lk in X1. by destruct (decide _).
    + destruct R as [R Q]. split; [left; rewrite ER; by apply Q|left]. by eapply identity_then, identity_then.
Qed.

End Settlement.

(** ** What a sender without the key can change *)

(** A route in use: neither stale nor degraded. *)
Definition live (e : RouteEntry) : Prop := re_state e = Active \/ re_state e = Candidate.
Definition sends_only_to (from : SocketAddr) (l : list MemberEffect) : Prop := Forall (fun e => match e with EfSend d _ _ => d = from | _ => True end) l.

(** What concerns who is who: all of it stays as it is. *)
Definition roster (st : Member) :=
  (mb_vip st, mb_node_id st, mb_epoch st, mb_prefix st, mb_claims st, mb_tombs st, mb_fights st, mb_retry_after st, mb_pending_gossip st,
   (mb_msmd_seen st, mb_msmd_timeline st, mb_joiner st, mb_pending_ack st, primary (mb_keys st), extras (mb_keys st))).

Record guarded (from : SocketAddr) (st st' : Member) : Prop := {
  gd_table : table_ok (mb_rt st) -> table_ok (mb_rt st');
  gd_roster : roster st' = roster st;
  gd_routes : table_ok (mb_rt st) -> forall v e, rt_table (mb_rt st) !! v = Some e -> live e -> re_endpoint e <> from -> rt_table (mb_rt st') !! v = Some e;
  gd_out : exists new, mb_out st' = mb_out st ++ new /\ sends_only_to from new
}.

Lemma guarded_refl from st : guarded from st st.
Proof. split; [done..|]. exists []. split; [by rewrite app_nil_r|constructor]. Qed.
Lemma guarded_trans from a b c : guarded from a b -> guarded from b c -> guarded from a c.
Proof.
  intros [T1 R1 L1 (n1 & O1 & S1)] [T2 R2 L2 (n2 & O2 & S2)]. split; [auto|congruence|auto|]. exists (n1 ++ n2). split; [by rewrite O2, O1, app_assoc|by apply Forall_app_2].
Qed.
(** Steps that leave the table alone. *)
Lemma guarded_calm from st st' new : mb_rt st' = mb_rt st -> roster st' = roster st -> mb_out st' = mb_out st ++ new -> sends_only_to from new -> guarded from st st'.
Proof. intros T R O S. split; rewrite ?T; [done..|by exists new]. Qed.

Section Gate.
Context `{HashIter} `{Kdf} `{JsonText} `{AddrText} (body_max : Z).

Ltac calm l := apply (guarded_calm _ _ _ l); [done|done|by rewrite ?app_nil_r|repeat constructor].

Lemma touch_guarded st from now : guarded from st (touch_route st from now).
Proof.
  unfold touch_route. destruct (is_endpoint_stale _ _); [|calm (@nil MemberEffect)]. split; cbn; [apply promote_ok|done|..|exists []; split; [by rewrite app_nil_r|constructor]].
  intros T v e E [L|L] D; apply promote_other; auto; left; done.
Qed.

Lemma side_effects_guarded st v ep old from : guarded from st (apply_route_endpoint_change_side_effects st v ep old).
Proof.
  unfold apply_route_endpoint_change_side_effects. cbv zeta. set (s1 := match old with Some _ => _ | None => _ end). apply (guarded_trans _ _ s1).
  - unfold s1. destruct old as [prev|]; [|calm [EfInvalidateFec ep]]. case_bool_decide; [calm [EfMigrate prev ep]|].
    apply (guarded_calm _ _ _ [EfMigrate prev ep; EfInvalidateFec prev; EfInvalidateFec ep; EfForgetPeer prev]); [done|done|cbn; by rewrite <- !app_assoc|repeat constructor].
  - clearbody s1. unfold remember_endpoint. repeat case_match; try apply guarded_refl. calm [EfEndpointLearned v ep].
Qed.

(** A route is taken over only where [allow_hijack] allows it. *)
Lemma update_guarded st v from now : allow_hijack st v from false = true -> guarded from st (update_route st v from None now).
Proof.
  intros A. unfold update_route. destruct (_ || _); [apply guarded_refl|]. cbv zeta. set (s1 := st <| mb_rt := _ |>). set (s2 := apply_route_endpoint_change_side_effects s1 _ _ _).
  apply (guarded_trans _ _ s2); [|calm [EfRefreshFec from]]. apply (guarded_trans _ _ s1); [|apply side_effects_guarded]. unfold s1. clear s1 s2.
  split; cbn; [|done| |exists []; split; [by rewrite app_nil_r|constructor]].
  - intros T. by apply sync_ok, update_ok.
  - intros T w e E L D. assert (w <> v). { intros ->. unfold allow_hijack in A. rewrite E, bool_decide_eq_false_2 in A by done. destruct L as [L|L]; rewrite L in A; done. }
    by rewrite sync_other, update_anonymous.
Qed.

Lemma punch_guarded st body from now : guarded from st (learn_route_from_hole_punch_body st body from false now).
Proof.
  unfold learn_route_from_hole_punch_body. cbv zeta. eapply guarded_trans; [apply (touch_guarded st from now)|]. set (s1 := touch_route st from now). clearbody s1.
  destruct (ipv4_to_u32 _); [|apply guarded_refl]. destruct (negb _); [apply guarded_refl|]. destruct (outside_own_subnet _ _); [apply guarded_refl|].
  destruct (allow_hijack _ _ _ _) eqn:A; [by apply update_guarded|apply guarded_refl].
Qed.
Lemma stop_ice_guarded st from body : guarded from st (try_stop_ice_checks_for_join_peer st from body).
Proof. unfold try_stop_ice_checks_for_join_peer. repeat case_match; try apply guarded_refl. calm [EfStopIce (re_node_id r)]. Qed.
Lemma hb_guarded st body from now : guarded from st (apply_hb_body st body from false now).
Proof.
  unfold apply_hb_body. cbv zeta. eapply guarded_trans; [apply (touch_guarded st from now)|]. case_bool_decide; [apply guarded_refl|].
  destruct (ipv4_to_u32 _); [apply punch_guarded|apply guarded_refl].
Qed.
Lemma hol_guarded st body from now : guarded from st (apply_hol_body st body from false now).
Proof.
  unfold apply_hol_body. cbv zeta. eapply guarded_trans; [apply (punch_guarded st body from now)|]. eapply guarded_trans; [apply stop_ice_guarded|].
  apply (guarded_calm _ _ _ [EfSend from PKT_HACK (str_bytes (mb_vip (try_stop_ice_checks_for_join_peer (learn_route_from_hole_punch_body st body from false now) from body)))]); [done|done|done|by repeat constructor].
Qed.
Lemma mctl_guarded st body from now : guarded from st (handle_mctl st body from false now).
Proof.
  unfold handle_mctl. destruct (parse_mctl body) as [p|]; [|apply guarded_refl]. destruct (signaling_ok p); [|apply guarded_refl].
  destruct (mctl_vip p) as [v|]; [|apply guarded_refl]. cbv zeta. set (s1 := if negb (Z.land (mctl_flags p) MCTL_FLAG_HB =? 0) then apply_hb_body st v from false now else st).
  assert (G : guarded from st s1) by (unfold s1; destruct (negb _); [apply hb_guarded|apply guarded_refl]). clearbody s1.
  destruct (negb _); [|done]. eapply guarded_trans; [apply G|apply hol_guarded].
Qed.

(** C28. While a node has a key, a control message without a valid seal changes nothing about who is a member: not
    the own address or its epoch, no claim, tombstone or suppression, no shared key, no pending gossip.  No
    route in use is moved away from another endpoint, and whatever is sent in answer goes to the sender alone. *)
Theorem unauthenticated_gate st tag body from m : has_crypto st = true -> table_ok (mb_rt st) ->
  let st' := dispatch_control body_max st tag body from false m in
  roster st' = roster st /\
  (forall v e, rt_table (mb_rt st) !! v = Some e -> live e -> re_endpoint e <> from -> rt_table (mb_rt st') !! v = Some e) /\
  exists new, mb_out st' = mb_out st ++ new /\ sends_only_to from new.
Proof.
  intros C T. cbv zeta. enough (G : guarded from st (dispatch_control body_max st tag body from false m)) by (destruct G as [_ R L O]; auto).
  unfold dispatch_control. set (x := if _ && _ then _ else _). assert (X : guarded from st x.1 /\ has_crypto x.1 = true).
  { unfold x. destruct (_ && _); [|split; [apply guarded_refl|done]]. destruct (allow _ _ _) as [l ok]. split; [calm (@nil MemberEffect)|done]. }
  clearbody x. destruct x as [s ok]. cbn [fst] in X. destruct X as [G C']. destruct (negb ok); [done|]. rewrite C'. cbn [andb negb].
  destruct (allow_unauth_control_tag_with_crypto tag) eqn:A; [|done]. cbn [negb]. eapply guarded_trans; [apply G|].
  unfold dispatch_tag. cbv zeta. destruct (is_para tag).
  { destruct (para_ts tag body); [|apply guarded_refl]. destruct (is_recent_para_ts _ _); [calm [EfPara tag body from]|apply guarded_refl]. }
  destruct (_ || _); [apply touch_guarded|]. case_bool_decide; [destruct (mb_joining s); [calm [EfJoinResult None]|apply guarded_refl]|].
  do 5 (case_bool_decide; [subst tag; by vm_compute in A|]).
  repeat (case_bool_decide; [first [apply touch_guarded|apply mctl_guarded|apply hb_guarded|apply hol_guarded|idtac]|]); [|apply guarded_refl].
  eapply guarded_trans; [apply punch_guarded|apply stop_ice_guarded].
Qed.
End Gate.

(** ** Gossip is read as it was written *)

Definition claim_text_ok (c : ClaimRecord) : bool :=
  text_ok (node_id c) && text_ok (vip c) && forallb text_ok (ep_hints c) && ((0 <=? vip_epoch c) && (vip_epoch c <=? U64_MAX)).
Definition tomb_text_ok (t : LeaveTombstone) : bool :=
  text_ok (lt_node_id t) && text_ok (lt_vip t) && ((0 <=? lt_epoch t) && (lt_epoch t <=? U64_MAX)).

Lemma u64_read z : ((0 <=? z) && (z <=? U64_MAX)) = true -> as_u64 (JInt z) = Some z.
Proof. intros R. unfold as_u64. by rewrite R. Qed.
Lemma u64_json z : ((0 <=? z) && (z <=? U64_MAX)) = true -> json_ok (JInt z) = true.
Proof. intros [A B]%andb_true_iff. cbn [json_ok]. rewrite B, andb_true_r. apply Z.leb_le in A. apply Z.leb_le. lia. Qed.

Lemma strs_read (l : list string) : omap as_str (JStr <$> l) = l.
Proof. induction l as [|h l IH]; [done|]. cbn. by f_equal. Qed.
Lemma read_claim_json c : claim_text_ok c = true -> read_claim (claim_json c) = c.
Proof.
  intros [_ R]%andb_true_iff. unfold read_claim, u64_field, str_field. change (get "vip_epoch" (claim_json c)) with (Some (JInt (vip_epoch c))).
  change (get "ep_hints" (claim_json c)) with (Some (JArr (JStr <$> ep_hints c))). cbn [mbind option_bind as_array]. rewrite (u64_read _ R).
  rewrite strs_read. by destruct c.
Qed.
Lemma read_leave_json t : tomb_text_ok t = true -> read_leave (leave_json t) = (lt_node_id t, lt_vip t, lt_epoch t).
Proof.
  intros [_ R]%andb_true_iff. unfold read_leave, u64_field, str_field. change (get "vip_epoch" (leave_json t)) with (Some (JInt (lt_epoch t))).
  cbn [mbind option_bind]. by rewrite (u64_read _ R).
Qed.
Lemma claim_json_ok c : claim_text_ok c = true -> json_ok (claim_json c) = true.
Proof.
  unfold claim_text_ok. rewrite !andb_true_iff. intros [[[N V] T] R]. assert (J : json_ok (JInt (vip_epoch c)) = true) by (apply u64_json; by rewrite andb_true_iff).
  unfold claim_json. cbn -[json_ok]. cbn [json_ok forallb fst snd] in *. rewrite N, V, J. rewrite !andb_true_r. replace (forallb json_ok (JStr <$> ep_hints c)) with (forallb text_ok (ep_hints c)).
  - by rewrite T.
  - clear. induction (ep_hints c) as [|h l IH]; [done|]. cbn. by rewrite IH.
Qed.
Lemma leave_json_ok t : tomb_text_ok t = true -> json_ok (leave_json t) = true.
Proof.
  unfold tomb_text_ok. rewrite !andb_true_iff. intros [[N V] R]. assert (J : json_ok (JInt (lt_epoch t)) = true) by (apply u64_json; by rewrite andb_true_iff).
  unfold leave_json. cbn -[json_ok]. cbn [json_ok forallb fst snd] in *. by rewrite N, V, J.
Qed.
Lemma forallb_json {A} (f : A -> Json) (p : A -> bool) l : (forall x, p x = true -> json_ok (f x) = true) -> Forall (fun x => p x = true) l -> forallb json_ok (f <$> l) = true.
Proof. intros P. induction 1 as [|x l X _ IH]; [done|]. cbn. by rewrite P, IH. Qed.
Lemma gossip_json_ok from claims leaves ts : text_ok from = true -> Forall (fun c => claim_text_ok c = true) claims -> Forall (fun t => tomb_text_ok t = true) leaves ->
  0 <= ts <= U64_MAX -> json_ok (gossip_json from claims leaves ts) = true.
Proof.
  intros F C L T. assert (J : json_ok (JInt ts) = true) by (apply u64_json; rewrite andb_true_iff, !Z.leb_le; lia).
  pose proof (forallb_json claim_json _ _ claim_json_ok C) as JC. pose proof (forallb_json leave_json _ _ leave_json_ok L) as JL.
  unfold gossip_json. cbn -[json_ok forallb claim_json leave_json fmap]. cbn [json_ok] in *. cbn [forallb fst snd json_ok]. rewrite JC, JL, J, F. by vm_compute.
Qed.

Lemma removelast_take {A} (l : list A) : removelast l = take (List.length l - 1) l.
Proof. rewrite removelast_firstn_len. f_equal. lia. Qed.

Section Wire.
Context `{HashIter} `{Kdf} `{JsonLaws} `{AddrText} (body_max : Z).

Lemma trim_leaves_prefix n st ts claims : forall leaves, exists j, trim_leaves body_max n st ts claims leaves = take j leaves.
Proof.
  induction n as [|n IH]; intros l; cbn [trim_leaves]; [exists (List.length l); by rewrite take_ge|]. destruct (_ && _); [|exists (List.length l); by rewrite take_ge].
  destruct (IH (removelast l)) as [j ->]. rewrite removelast_take, take_take. by eexists.
Qed.
Lemma trim_claims_prefix n st ts leaves : forall own others, exists i, trim_claims body_max n st ts (own :: others) leaves = own :: take i others.
Proof.
  induction n as [|n IH]; intros own others; cbn [trim_claims]; [exists (List.length others); by rewrite take_ge|].
  destruct (Z.ltb_spec 1 (len (own :: others))) as [L|_]; [|rewrite andb_false_r; exists (List.length others); by rewrite take_ge]. rewrite andb_true_r.
  destruct (_ <? _); [|exists (List.length others); by rewrite take_ge]. destruct others as [|o others]; [by vm_compute in L|].
  change (removelast (own :: o :: others)) with (own :: removelast (o :: others)). destruct (IH own (removelast (o :: others))) as [i ->]. rewrite removelast_take, take_take. by eexists.
Qed.

Lemma enrich_text t c : (forall a, text_ok (show_addr a) = true) -> claim_text_ok c = true -> claim_text_ok (enrich t c) = true.
Proof.
  intros S O. unfold enrich. case_bool_decide as E; [|done]. destruct (rt_table t !! vip c) as [e|]; [|done]. case_bool_decide; [done|].
  unfold claim_text_ok in *. cbn. rewrite S. rewrite E in O. done.
Qed.

(** What one node knows is what the next one reads. *)
Definition reads_as (v : Json) (from : string) (claims : list ClaimRecord) (leaves : list LeaveTombstone) : Prop :=
  str_field "from" v = from /\
  (exists items, get "claims" v ≫= as_array = Some items /\ read_claim <$> items = claims) /\
  (exists items, get "leaves" v ≫= as_array = Some items /\ read_leave <$> items = (fun t => (lt_node_id t, lt_vip t, lt_epoch t)) <$> leaves).

Lemma fmap_inverse {A B C} (f : A -> B) (g : B -> C) (h : A -> C) l : Forall (fun x => g (f x) = h x) l -> g <$> (f <$> l) = h <$> l.
Proof. induction 1 as [|x l X _ IH]; [done|]. cbn. by f_equal. Qed.

Lemma gossip_reads from claims leaves ts : Forall (fun c => claim_text_ok c = true) claims -> Forall (fun t => tomb_text_ok t = true) leaves ->
  reads_as (gossip_json from claims leaves ts) from claims leaves.
Proof.
  intros C L. split_and!; [done|..].
  - exists (claim_json <$> claims). split; [done|]. rewrite <- (list_fmap_id claims) at 2. apply fmap_inverse. eapply Forall_impl; [exact C|]. apply read_claim_json.
  - exists (leave_json <$> leaves). split; [done|]. apply fmap_inverse. eapply Forall_impl; [exact L|]. apply read_leave_json.
Qed.

(** Texts are UTF-8 and epochs fit 64 bits, as in every value of the program. *)
Record texts_ok (st : Member) : Prop := {
  tx_keys : keys_ok (mb_claims st);
  tx_own : claim_text_ok (own_claim st) = true;
  tx_claims : map_Forall (fun _ c => claim_text_ok c = true) (mb_claims st);
  tx_tombs : map_Forall (fun _ t => tomb_text_ok t = true) (mb_tombs st)
}.

Lemma select_tombs (tombs : Tombs) now n t : t ∈ select_leave_tombs_for_gossip tombs now n -> exists nid, tombs !! nid = Some t /\ now < lt_expires_at t.
Proof.
  unfold select_leave_tombs_for_gossip. intros I%(fun I => subseteq_take _ _ _ I). rewrite merge_sort_Permutation, list_elem_of_In, filter_In, <- list_elem_of_In in I.
  destruct I as [I X%Z.ltb_lt]. apply list_elem_of_fmap in I as ([nid t'] & -> & I%hm_iter_elem). by exists nid.
Qed.

(** What a gossip message carries: the own claim first, then claims of others, no node twice and none a tombstone blocks, and tombstones still alive. *)
Definition digest_of (st : Member) (now : Instant) (others : list ClaimRecord) (leaves : list LeaveTombstone) : Prop :=
  NoDup (node_id <$> own_claim st :: others) /\
  (forall c, c ∈ others -> (enrich (mb_rt st) <$> mb_claims st) !! node_id c = Some c /\ leave_tombstone_blocks (mb_tombs st) (node_id c) (vip_epoch c) now = false) /\
  (forall t, t ∈ leaves -> exists n, mb_tombs st !! n = Some t /\ now < lt_expires_at t).

Lemma digest_parts st now cursor : texts_ok st -> exists others, 
  build_gossip_digest_rotated (own_claim st) (enrich (mb_rt st) <$> mb_claims st) (mb_tombs st) now CLAIM_GOSSIP_DIGEST_MAX cursor = own_claim st :: others /\
  forall i j, digest_of st now (take i others) (take j (select_leave_tombs_for_gossip (mb_tombs st) now CLAIM_GOSSIP_LEAVE_TOMBS_MAX)).
Proof.
  intros X. destruct (gossip_digest_spec (own_claim st) (enrich (mb_rt st) <$> mb_claims st) (mb_tombs st) now CLAIM_GOSSIP_DIGEST_MAX cursor) as (others & E & _ & N & C & _);
    [apply enrich_keys, X|unfold CLAIM_GOSSIP_DIGEST_MAX; lia|]. exists others. split; [done|]. intros i j. split_and!.
  - apply (sublist_NoDup _ (node_id <$> own_claim st :: others)); [done|]. apply fmap_sublist. by apply sublist_skip, sublist_take.
  - intros c I%(fun I => subseteq_take _ _ _ I). destruct (C c I) as (L & _ & B). done.
  - intros t I%(fun I => subseteq_take _ _ _ I). by eapply select_tombs.
Qed.

Lemma digest_texts st now others leaves : (forall a, text_ok (show_addr a) = true) -> texts_ok st -> digest_of st now others leaves ->
  Forall (fun c => claim_text_ok c = true) (own_claim st :: others) /\ Forall (fun t => tomb_text_ok t = true) leaves.
Proof.
  intros S X (_ & C & L). split; [constructor; [apply X|]|]; apply Forall_forall.
  - intros c I. destruct (C c I) as [E _]. rewrite lookup_fmap in E. apply fmap_Some in E as (c0 & E & ->). apply enrich_text; [done|]. by eapply (tx_claims _ X).
  - intros t I. destruct (L t I) as (n & E & _). by eapply (tx_tombs _ X).
Qed.

(** C29. Every gossip message a node sends fits the limit and is read by the receiver as it was meant: the sender, then
    its own claim, then claims of other members as the sender holds them, no member twice and none that has
    left, and the leaves still remembered; trimming to the limit never drops the own claim. *)
Theorem gossip_read_back st now ts : (forall a, text_ok (show_addr a) = true) -> texts_ok st -> 0 <= ts <= U64_MAX ->
  exists new, mb_out (broadcast_claim_gossip body_max st now ts) = mb_out st ++ new /\
    Forall (fun e => exists dest body v others leaves, e = EfSend dest PKT_CLG body /\ len body <= body_max /\ json_parse body = Some v /\
      reads_as v (mb_node_id st) (own_claim st :: others) leaves /\ digest_of st now others leaves) new.
Proof.
  intros S X T. unfold broadcast_claim_gossip. destruct (_ || _); [exists []; split; [by rewrite app_nil_r|constructor]|]. cbv zeta.
  set (s1 := st <| mb_claims := _ |> <| mb_digest_cursor := _ |>). change (own_claim (st <| mb_claims := _ |>)) with (own_claim st). cbn [mb_claims mb_tombs mb_digest_cursor setter].
  destruct (digest_parts st now (Z.to_nat (mb_digest_cursor st)) X) as (others & -> & D).
  set (sel := select_leave_tombs_for_gossip _ _ _) in *. destruct (trim_leaves_prefix (List.length sel) s1 ts (own_claim st :: others) sel) as [j ->].
  destruct (trim_claims_prefix (List.length (own_claim st :: others)) s1 ts (take j sel) (own_claim st) others) as [i ->].
  destruct (Z.ltb_spec body_max (len (gossip_bytes s1 ts (own_claim st :: take i others) (take j sel)))) as [_|L]; [exists []; split; [by rewrite app_nil_r|constructor]|].
  eexists. split; [reflexivity|]. apply Forall_forall. intros e (dest & -> & _)%list_elem_of_fmap.
  destruct (digest_texts _ _ _ _ S X (D i j)) as [TC TL]. exists dest, (gossip_bytes s1 ts (own_claim st :: take i others) (take j sel)), (gossip_json (mb_node_id st) (own_claim st :: take i others) (take j sel) ts), (take i others), (take j sel).
  split_and!; [reflexivity|done|..|by apply gossip_reads|apply D]. apply json_roundtrip, gossip_json_ok; try done.
  pose proof (tx_own _ X) as O. unfold claim_text_ok in O. rewrite !andb_true_iff in O. apply O.
Qed.
End Wire.

(** ** Concrete runs *)

Module MemberRuns.
#[local] Existing Instance canonical_iter.
#[local] Existing Instance Toy.toy_kdf.
#[local] Existing Instance Toy.toy_kdf_laws.
#[local] Existing Instance ToyJson.toy_json.
#[local] Existing Instance ToyJson.toy_json_laws.
#[local] Instance plain_addr : AddrText := {| show_addr _ := "203.0.113.7:4000"%string; parse_addr _ := None |}.

Definition key : bytes := [5].
Definition host (h : Z) : string := member_host_vip key h.
Definition ep1 : SocketAddr := mkAddr (V4 3405803777) 4000.
Definition ep2 : SocketAddr := mkAddr (V4 3405803778) 4000.
Definition stranger : SocketAddr := mkAddr (V4 3405803779) 4000.
Definition limiter : ControlRateLimiter := new_limiter (f64_of_Z 32) (f64_of_Z 16) 0.
Definition member (nid : string) (h : Z) : Member :=
  mkMember (host h) nid 1 24 (set_primary new_pool 0 key).1 (JArr []) ∅ ∅ ∅ (new_table 0) None false 0 0 ∅ ∅ [] limiter limiter limiter false false None [].
Definition meets (t : Instant) : Meets := mkMeets t 0 true true.
Definition max : Z := 60000.

Lemma member_ok nid h : members_ok (member nid h).
Proof. split; [apply new_table_ok|done|done|by vm_compute]. Qed.

(** [bob] hears that [ann] claims its address, and moves. *)
Definition bob : Member := member "bob" 9.
Definition ann_claims (h epoch : Z) (st : Member) : Member := apply_remote_claim st "ann" (host h) epoch ep1 0.
Definition joined : Member := dispatch_control max bob PKT_JOIN (json_bytes (presence_json (member "ann" 7) 0)) ep1 true (meets 0).

Lemma joined_ok : members_ok joined.
Proof. exact (proj1 (dispatch_good max bob PKT_JOIN _ ep1 true (meets 0) (member_ok _ _))). Qed.


Lemma epoch_names_claim_witness : own_claim bob = own_claim joined.
Proof.
  apply (epoch_names_claim max bob bob joined); [apply member_ok|apply rtc_refl|apply rtc_once, SControl|by vm_compute|by vm_compute].
Defined.

Definition rival : Member := bob <| mb_claims := {["ann"%string := mkClaim "ann" (host 9) 3 []]} |>.

(** A stranger claims the route of [ann]. *)
Lemma unauthenticated_gate_witness : exists e, let st' := dispatch_control max joined PKT_HPCH (str_bytes (host 7)) stranger false (meets 1) in
  rt_table (mb_rt st') !! host 7 = Some e /\ re_endpoint e = ep1 /\ roster st' = roster joined.
Proof.
  destruct (unauthenticated_gate max joined PKT_HPCH (str_bytes (host 7)) stranger (meets 1)) as (R & L & _); [by vm_compute| |].
  - exact (mo_table _ joined_ok).
  - destruct (rt_table (mb_rt joined) !! host 7) as [e|] eqn:E; [|vm_compute in E; discriminate E]. exists e. cbv zeta. split_and!.
    + apply L; [exact E|vm_compute in E; injection E as <-; by right|vm_compute in E; injection E as <-; discriminate].
    + vm_compute in E. by injection E as <-.
    + exact R.
Defined.

Definition with_state (s : RouteState) (h : Z) (t : RoutingTable) : RoutingTable := with_entry t (host h) (fun e => e <| re_state := s |>).
Definition hub : Member := bob <| mb_claims := {["ann"%string := mkClaim "ann" (host 7) 1 []]} |>
  <| mb_rt := with_state Active 7 (rt_update (new_table 0) (host 7) ep1 (Some "ann"%string) 0) |>.
Lemma gossip_read_back_witness : exists e body v others leaves, mb_out (broadcast_claim_gossip max hub 1 0) = [e] /\ e = EfSend ep1 PKT_CLG body /\ json_parse body = Some v /\
  reads_as v "bob" (own_claim hub :: others) leaves.
Proof.
  destruct (gossip_read_back max hub 1 0) as (new & E & F).
  - by intros a; vm_compute.
  - split; [|by vm_compute|apply map_Forall_singleton; by vm_compute|apply map_Forall_empty]. intros n r. cbn. by intros [<- <-]%lookup_singleton_Some.
  - by vm_compute.
  - assert (L : exists b, mb_out (broadcast_claim_gossip max hub 1 0) = [EfSend ep1 PKT_CLG b]) by (eexists; by vm_compute). destruct L as [b L]. rewrite L in E. cbn in E. subst new.
    apply Forall_inv in F as (d & body & v & others & leaves & X & _ & P & R & _). exists (EfSend ep1 PKT_CLG b), body, v, others, leaves. injection X as <- <-. split_and!; [exact L|done|exact P|exact R].
Defined.

(** An update of a route that the table refuses, because the endpoint belongs to another member, is carried out
    everywhere else: traffic for the old endpoint is moved and its state dropped, although the route still points to it. *)
Definition degraded : Member := bob <| mb_rt := with_state Degraded 8 (rt_update (rt_update (new_table 0) (host 7) ep1 (Some "ann"%string) 0) (host 8) ep2 (Some "cat"%string) 0) |>.
Theorem refused_route_tears_down : let st' := dispatch_control max degraded PKT_HPCH (str_bytes (host 8)) ep1 false (meets 1) in
  rt_lookup (mb_rt st') (host 8) = Some ep2 /\ EfMigrate ep2 ep1 ∈ mb_out st' /\ EfForgetPeer ep2 ∈ mb_out st'.
Proof. vm_compute. split_and!; [done|..]; repeat (apply elem_of_cons; first [by left|right]). Qed.

(** A claim under the node's own id is skipped in gossip but not in a join: it makes the node give up an address nobody else claims. *)
Definition quiet : Member := bob <| mb_claims := {["ann"%string := mkClaim "ann" (host 3) 1 []]} |>.
Definition impostor : bytes := json_bytes (presence_json (member "bob" 3 <| mb_epoch := 5 |>) 0).
Theorem own_id_claim_rerolls : unclaimed quiet /\ mb_vip (dispatch_control max quiet PKT_JOIN impostor ep2 true (meets 0)) <> mb_vip quiet.
Proof.
  split; [|by vm_compute]. intros n c _ L. cbn in L. apply lookup_singleton_Some in L as [<- <-]. by vm_compute.
Qed.
End MemberRuns.
