(* ===== verification/Config.v ===== *)
(** * The configuration and its file (the types of src/config.rs, src/config_toml.rs)

    [NetworkConfig] is the flat record the program runs on, [NetworkConfigFile] the sectioned record
    that is written to the configuration file.  Fields keep their names behind a prefix per record.
    Writing a file as TOML text and reading it back belong to the toml crate and are the class
    [TomlText]; the two watermarks are the only nodes of the tree the program touches in between, so a
    [TomlDoc] is a file with those two widened to doubles.

    The theorems: writing a configuration and parsing the text gives it back, up to the six decimals
    kept of a watermark, and copying the performance fields leaves every other field as it is. *)

From Stdlib Require Import Ascii String.
From S2P Require Import Prelude Text Float Packet Reliable Pmtud Tuning PacingCfg Json.
#[local] Open Scope Z_scope.

(** ** The configuration *)

Record PeerInfo := mkPeerInfo { pi_node_id : string; pi_name : string; pi_virtual_ip : string; pi_real_ip : string; pi_vip_epoch : Z }.
#[export] Instance PeerInfo_eq_dec : EqDecision PeerInfo.
Proof. solve_decision. Defined.

Record NetworkConfig := mkConfig {
  nc_network_id : string; nc_virtual_ip : string; nc_vip_epoch : Z; nc_listen_port : Z; nc_node_id : string; nc_crypto_key : string;
  nc_public_invite_code : string; nc_peers : list PeerInfo; nc_membership_version : Z; nc_last_membership_hash : string; nc_created_at : Z;
  nc_udp_sndbuf : Z; nc_udp_rcvbuf : Z; nc_adapter_mtu : Z; nc_pin_mtu : bool; nc_wintun_ring_bytes : Z; nc_wintun_ipv4_interface_metric : Z;
  nc_pace_tick_us : Z; nc_pace_target_pps : Z; nc_pace_rate_mode : string; nc_pace_target_bps : Z; nc_base_max_burst : Z;
  nc_pace_budget_cap_packets : f64; nc_pace_max_queue_packets : Z; nc_tun_inject_queue_packets : Z; nc_tun_from_adapter_queue_packets : Z;
  nc_pace_clock_mode : string; nc_pace_spin_window_us : Z; nc_pace_fab_enabled : bool; nc_pace_fab_fallback_tick_us : Z; nc_subnet_prefix : Z;
  nc_cpu_affinity : string; nc_process_priority_level : Z; nc_apd_enabled : bool; nc_apd_high_watermark : f32; nc_apd_low_watermark : f32;
  nc_ramp_max_burst : Z; nc_drain_max_burst : Z; nc_apd_spinloop_budget_ms : Z; nc_apd_drain_tick_us : Z; nc_apd_confirm_ticks : Z;
  nc_apd_cooldown_ms : Z; nc_apd_drain_freeze_drr : bool; nc_apd_sojourn_enabled : bool; nc_apd_max_sojourn_ms : Z; nc_apd_target_sojourn_ms : Z;
  nc_apd_require_cc_headroom : bool; nc_shed_enabled : bool; nc_shed_max_sojourn_ms : Z; nc_shed_min_fill : f32; nc_shed_max_per_tick : Z;
  nc_drr_enabled : bool; nc_drr_small_packet_priority : bool; nc_drr_small_packet_threshold_bytes : Z; nc_min_control_reserved_bytes_per_tick : Z;
  nc_min_retransmit_reserved_bytes_per_tick : Z; nc_drr_rtt_aware : bool; nc_drr_rtt_scale_min : f64; nc_drr_rtt_scale_max : f64;
  nc_fec_enabled : bool; nc_fec_force_data_shards : Z; nc_fec_force_parity_shards : Z; nc_rawperf_enabled : bool; nc_retransmit_bypass_pps : f64;
  nc_low_latency_timer_enabled : bool; nc_decentralized_enabled : bool; nc_decentralized_trackers : list string; nc_decentralized_announce_secs : Z;
  nc_decentralized_join_deadline_secs : Z; nc_join_method : string; nc_advanced : AdvancedTuning
}.

#[export] Instance eta_NetworkConfig : Settable NetworkConfig :=
  fun r => mkConfig
    (nc_network_id r) (nc_virtual_ip r) (nc_vip_epoch r) (nc_listen_port r) (nc_node_id r) (nc_crypto_key r) (nc_public_invite_code r) (nc_peers r)
    (nc_membership_version r) (nc_last_membership_hash r) (nc_created_at r) (nc_udp_sndbuf r) (nc_udp_rcvbuf r) (nc_adapter_mtu r) (nc_pin_mtu r)
    (nc_wintun_ring_bytes r) (nc_wintun_ipv4_interface_metric r) (nc_pace_tick_us r) (nc_pace_target_pps r) (nc_pace_rate_mode r)
    (nc_pace_target_bps r) (nc_base_max_burst r) (nc_pace_budget_cap_packets r) (nc_pace_max_queue_packets r) (nc_tun_inject_queue_packets r)
    (nc_tun_from_adapter_queue_packets r) (nc_pace_clock_mode r) (nc_pace_spin_window_us r) (nc_pace_fab_enabled r) (nc_pace_fab_fallback_tick_us r)
    (nc_subnet_prefix r) (nc_cpu_affinity r) (nc_process_priority_level r) (nc_apd_enabled r) (nc_apd_high_watermark r) (nc_apd_low_watermark r)
    (nc_ramp_max_burst r) (nc_drain_max_burst r) (nc_apd_spinloop_budget_ms r) (nc_apd_drain_tick_us r) (nc_apd_confirm_ticks r)
    (nc_apd_cooldown_ms r) (nc_apd_drain_freeze_drr r) (nc_apd_sojourn_enabled r) (nc_apd_max_sojourn_ms r) (nc_apd_target_sojourn_ms r)
    (nc_apd_require_cc_headroom r) (nc_shed_enabled r) (nc_shed_max_sojourn_ms r) (nc_shed_min_fill r) (nc_shed_max_per_tick r) (nc_drr_enabled r)
    (nc_drr_small_packet_priority r) (nc_drr_small_packet_threshold_bytes r) (nc_min_control_reserved_bytes_per_tick r)
    (nc_min_retransmit_reserved_bytes_per_tick r) (nc_drr_rtt_aware r) (nc_drr_rtt_scale_min r) (nc_drr_rtt_scale_max r) (nc_fec_enabled r)
    (nc_fec_force_data_shards r) (nc_fec_force_parity_shards r) (nc_rawperf_enabled r) (nc_retransmit_bypass_pps r) (nc_low_latency_timer_enabled r)
    (nc_decentralized_enabled r) (nc_decentralized_trackers r) (nc_decentralized_announce_secs r) (nc_decentralized_join_deadline_secs r)
    (nc_join_method r) (nc_advanced r).

Definition default_config : NetworkConfig := {|
  nc_network_id := EmptyString; nc_virtual_ip := EmptyString; nc_vip_epoch := 0; nc_listen_port := 0; nc_node_id := EmptyString;
  nc_crypto_key := EmptyString; nc_public_invite_code := EmptyString; nc_peers := []; nc_membership_version := 0;
  nc_last_membership_hash := EmptyString; nc_created_at := 0; nc_udp_sndbuf := (2 * 1024 * 1024); nc_udp_rcvbuf := (2 * 1024 * 1024);
  nc_adapter_mtu := 1340; nc_pin_mtu := false; nc_wintun_ring_bytes := (8 * 1024 * 1024); nc_wintun_ipv4_interface_metric := 1; nc_pace_tick_us := 350;
  nc_pace_target_pps := 8000; nc_pace_rate_mode := "bytes"%string; nc_pace_target_bps := 50000000; nc_base_max_burst := 3;
  nc_pace_budget_cap_packets := (f64_of_Z 64); nc_pace_max_queue_packets := 250; nc_tun_inject_queue_packets := 512;
  nc_tun_from_adapter_queue_packets := 256; nc_pace_clock_mode := "hybrid"%string; nc_pace_spin_window_us := 70; nc_pace_fab_enabled := false;
  nc_pace_fab_fallback_tick_us := 500; nc_subnet_prefix := 24; nc_cpu_affinity := EmptyString; nc_process_priority_level := 1; nc_apd_enabled := true;
  nc_apd_high_watermark := (f32_lit 3 10); nc_apd_low_watermark := (f32_lit 2 100); nc_ramp_max_burst := 6; nc_drain_max_burst := 3;
  nc_apd_spinloop_budget_ms := 8; nc_apd_drain_tick_us := 80; nc_apd_confirm_ticks := 3; nc_apd_cooldown_ms := 2; nc_apd_drain_freeze_drr := true;
  nc_apd_sojourn_enabled := true; nc_apd_max_sojourn_ms := 10; nc_apd_target_sojourn_ms := 2; nc_apd_require_cc_headroom := true;
  nc_shed_enabled := true; nc_shed_max_sojourn_ms := 30; nc_shed_min_fill := (f32_lit 1 10); nc_shed_max_per_tick := 2; nc_drr_enabled := true;
  nc_drr_small_packet_priority := true; nc_drr_small_packet_threshold_bytes := 420; nc_min_control_reserved_bytes_per_tick := 256;
  nc_min_retransmit_reserved_bytes_per_tick := 256; nc_drr_rtt_aware := true; nc_drr_rtt_scale_min := (f64_lit 5 10);
  nc_drr_rtt_scale_max := (f64_lit 25 10); nc_fec_enabled := true; nc_fec_force_data_shards := 0; nc_fec_force_parity_shards := 0;
  nc_rawperf_enabled := false; nc_retransmit_bypass_pps := (f64_of_Z 1000); nc_low_latency_timer_enabled := true; nc_decentralized_enabled := false;
  nc_decentralized_trackers := []; nc_decentralized_announce_secs := 120; nc_decentralized_join_deadline_secs := 120; nc_join_method := EmptyString;
  nc_advanced := default_advanced
|}.

Definition merge_performance_from (self other : NetworkConfig) : NetworkConfig :=
  mkConfig
    (nc_network_id self) (nc_virtual_ip self) (nc_vip_epoch self) (nc_listen_port self) (nc_node_id self) (nc_crypto_key self)
    (nc_public_invite_code self) (nc_peers self) (nc_membership_version self) (nc_last_membership_hash self) (nc_created_at self)
    (nc_udp_sndbuf other) (nc_udp_rcvbuf other) (nc_adapter_mtu other) (nc_pin_mtu other) (nc_wintun_ring_bytes other)
    (nc_wintun_ipv4_interface_metric other) (nc_pace_tick_us other) (nc_pace_target_pps other) (nc_pace_rate_mode other) (nc_pace_target_bps other)
    (nc_base_max_burst other) (nc_pace_budget_cap_packets other) (nc_pace_max_queue_packets other) (nc_tun_inject_queue_packets other)
    (nc_tun_from_adapter_queue_packets other) (nc_pace_clock_mode other) (nc_pace_spin_window_us other) (nc_pace_fab_enabled other)
    (nc_pace_fab_fallback_tick_us other) (nc_subnet_prefix self) (nc_cpu_affinity other) (nc_process_priority_level other) (nc_apd_enabled other)
    (nc_apd_high_watermark other) (nc_apd_low_watermark other) (nc_ramp_max_burst other) (nc_drain_max_burst other) (nc_apd_spinloop_budget_ms other)
    (nc_apd_drain_tick_us other) (nc_apd_confirm_ticks other) (nc_apd_cooldown_ms other) (nc_apd_drain_freeze_drr other)
    (nc_apd_sojourn_enabled other) (nc_apd_max_sojourn_ms other) (nc_apd_target_sojourn_ms other) (nc_apd_require_cc_headroom other)
    (nc_shed_enabled other) (nc_shed_max_sojourn_ms other) (nc_shed_min_fill other) (nc_shed_max_per_tick other) (nc_drr_enabled other)
    (nc_drr_small_packet_priority other) (nc_drr_small_packet_threshold_bytes other) (nc_min_control_reserved_bytes_per_tick other)
    (nc_min_retransmit_reserved_bytes_per_tick other) (nc_drr_rtt_aware other) (nc_drr_rtt_scale_min other) (nc_drr_rtt_scale_max other)
    (nc_fec_enabled other) (nc_fec_force_data_shards other) (nc_fec_force_parity_shards other) (nc_rawperf_enabled other)
    (nc_retransmit_bypass_pps other) (nc_low_latency_timer_enabled other) (nc_decentralized_enabled self) (nc_decentralized_trackers self)
    (nc_decentralized_announce_secs self) (nc_decentralized_join_deadline_secs self) (nc_join_method self) (nc_advanced other).

(** [reset_performance_fields]. *)
Definition reset_performance_fields (self : NetworkConfig) : NetworkConfig := merge_performance_from self default_config.

Definition DEFAULT_TRACKERS : list string :=
  ["udp://tracker.opentrackr.org:1337/announce";
   "http://tracker.opentrackr.org:1337/announce";
   "udp://open.stealth.si:80/announce";
   "http://open.stealth.si:80/announce";
   "udp://open.tracker.cl:1337/announce";
   "http://open.tracker.cl:1337/announce";
   "udp://open.demonii.com:1337/announce";
   "http://open.demonii.com:1337/announce";
   "udp://zer0day.ch:1337/announce";
   "http://zer0day.ch:1337/announce";
   "udp://tracker.torrent.eu.org:451/announce";
   "udp://exodus.desync.com:6969/announce";
   "udp://tracker-udp.gbitt.info:80/announce";
   "udp://tracker.qu.ax:6969/announce";
   "udp://tracker.publictracker.xyz:6969/announce";
   "udp://evan.im:6969/announce";
   "udp://tracker.tryhackx.org:6969/announce";
   "udp://tracker.moeking.me:6969/announce";
   "udp://tracker.tiny-vps.com:6969/announce";
   "udp://wepzone.net:6969/announce";
   "udp://retracker.lanta-net.ru:2710/announce"]%string.
Definition effective_decentralized_trackers (cfg : NetworkConfig) : list string :=
  match nc_decentralized_trackers cfg with [] => DEFAULT_TRACKERS | l => l end.

(** ** The file *)

#[export] Instance FailoverTuning_eq_dec : EqDecision FailoverTuning.
Proof. solve_decision. Defined.
#[export] Instance TimerTuning_eq_dec : EqDecision TimerTuning.
Proof. solve_decision. Defined.
#[export] Instance ReliableTuning_eq_dec : EqDecision ReliableTuning.
Proof. solve_decision. Defined.
#[export] Instance CongestionTuning_eq_dec : EqDecision CongestionTuning.
Proof. solve_decision. Defined.
#[export] Instance PmtudTuning_eq_dec : EqDecision PmtudTuning.
Proof. solve_decision. Defined.
#[export] Instance RoutingEwmaTuning_eq_dec : EqDecision RoutingEwmaTuning.
Proof. solve_decision. Defined.
#[export] Instance EngineLimitsTuning_eq_dec : EqDecision EngineLimitsTuning.
Proof. solve_decision. Defined.
#[export] Instance HolePunchTuning_eq_dec : EqDecision HolePunchTuning.
Proof. solve_decision. Defined.
#[export] Instance BufferReuseTuning_eq_dec : EqDecision BufferReuseTuning.
Proof. solve_decision. Defined.

Record SessionFile := mkSessionFile {
  ss_network_id : string; ss_virtual_ip : string; ss_vip_epoch : Z; ss_listen_port : Z; ss_node_id : string; ss_crypto_key : string;
  ss_public_invite_code : string; ss_membership_version : Z; ss_last_membership_hash : string; ss_created_at : Z; ss_subnet_prefix : Z
}.

#[export] Instance SessionFile_eq_dec : EqDecision SessionFile.
Proof. solve_decision. Defined.

Record AdapterFile := mkAdapterFile {
  ad_udp_sndbuf : Z; ad_udp_rcvbuf : Z; ad_adapter_mtu : Z; ad_pin_mtu : bool; ad_wintun_ring_bytes : Z; ad_wintun_ipv4_interface_metric : Z
}.

#[export] Instance AdapterFile_eq_dec : EqDecision AdapterFile.
Proof. solve_decision. Defined.

Record PacingFile := mkPacingFile {
  pf_pace_tick_us : Z; pf_pace_target_pps : Z; pf_pace_rate_mode : string; pf_pace_target_bps : Z; pf_base_max_burst : Z;
  pf_pace_budget_cap_packets : f64; pf_pace_max_queue_packets : Z; pf_tun_inject_queue_packets : Z; pf_tun_from_adapter_queue_packets : Z;
  pf_pace_clock_mode : string; pf_pace_spin_window_us : Z; pf_pace_fab_enabled : bool; pf_pace_fab_fallback_tick_us : Z; pf_cpu_affinity : string;
  pf_process_priority_level : Z; pf_rawperf_enabled : bool; pf_retransmit_bypass_pps : f64; pf_low_latency_timer_enabled : bool
}.

#[export] Instance PacingFile_eq_dec : EqDecision PacingFile.
Proof. solve_decision. Defined.

Record ApdFile := mkApdFile {
  af_apd_enabled : bool; af_apd_high_watermark : f32; af_apd_low_watermark : f32; af_ramp_max_burst : Z; af_drain_max_burst : Z;
  af_apd_spinloop_budget_ms : Z; af_apd_drain_tick_us : Z; af_apd_confirm_ticks : Z; af_apd_cooldown_ms : Z; af_apd_drain_freeze_drr : bool;
  af_apd_sojourn_enabled : bool; af_apd_max_sojourn_ms : Z; af_apd_target_sojourn_ms : Z; af_apd_require_cc_headroom : bool; af_shed_enabled : bool;
  af_shed_max_sojourn_ms : Z; af_shed_min_fill : f32; af_shed_max_per_tick : Z
}.

#[export] Instance ApdFile_eq_dec : EqDecision ApdFile.
Proof. solve_decision. Defined.

#[export] Instance eta_ApdFile : Settable ApdFile :=
  fun r => mkApdFile
    (af_apd_enabled r) (af_apd_high_watermark r) (af_apd_low_watermark r) (af_ramp_max_burst r) (af_drain_max_burst r) (af_apd_spinloop_budget_ms r)
    (af_apd_drain_tick_us r) (af_apd_confirm_ticks r) (af_apd_cooldown_ms r) (af_apd_drain_freeze_drr r) (af_apd_sojourn_enabled r)
    (af_apd_max_sojourn_ms r) (af_apd_target_sojourn_ms r) (af_apd_require_cc_headroom r) (af_shed_enabled r) (af_shed_max_sojourn_ms r)
    (af_shed_min_fill r) (af_shed_max_per_tick r).

Record DrrFile := mkDrrFile {
  df_drr_enabled : bool; df_drr_small_packet_priority : bool; df_drr_small_packet_threshold_bytes : Z; df_min_control_reserved_bytes_per_tick : Z;
  df_min_retransmit_reserved_bytes_per_tick : Z; df_drr_rtt_aware : bool; df_drr_rtt_scale_min : f64; df_drr_rtt_scale_max : f64
}.

#[export] Instance DrrFile_eq_dec : EqDecision DrrFile.
Proof. solve_decision. Defined.

Record FecFile := mkFecFile {
  ff_fec_enabled : bool; ff_fec_force_data_shards : Z; ff_fec_force_parity_shards : Z; ff_shard_payload_size : Z; ff_flush_ms : Z;
  ff_flush_aggressive_ms : Z; ff_adaptive_off_below : f64; ff_adaptive_on_above : f64; ff_fec_max_total_shards : Z
}.

#[export] Instance FecFile_eq_dec : EqDecision FecFile.
Proof. solve_decision. Defined.

Record DecentralizedFile := mkDecentralizedFile {
  dz_decentralized_enabled : bool; dz_decentralized_trackers : list string; dz_decentralized_announce_secs : Z;
  dz_decentralized_join_deadline_secs : Z; dz_join_method : string
}.

#[export] Instance DecentralizedFile_eq_dec : EqDecision DecentralizedFile.
Proof. solve_decision. Defined.

Record NetworkConfigFile := mkConfigFile {
  cf_session : SessionFile; cf_peers : list PeerInfo; cf_adapter : AdapterFile; cf_pacing : PacingFile; cf_apd : ApdFile; cf_drr : DrrFile;
  cf_fec : FecFile; cf_decentralized : DecentralizedFile; cf_failover : FailoverTuning; cf_timers : TimerTuning; cf_reliable : ReliableTuning;
  cf_congestion : CongestionTuning; cf_pmtud : PmtudTuning; cf_routing_ewma : RoutingEwmaTuning; cf_engine_limits : EngineLimitsTuning;
  cf_hole_punch : HolePunchTuning; cf_buffers : BufferReuseTuning
}.

#[export] Instance NetworkConfigFile_eq_dec : EqDecision NetworkConfigFile.
Proof. solve_decision. Defined.

#[export] Instance eta_NetworkConfigFile : Settable NetworkConfigFile :=
  fun r => mkConfigFile
    (cf_session r) (cf_peers r) (cf_adapter r) (cf_pacing r) (cf_apd r) (cf_drr r) (cf_fec r) (cf_decentralized r) (cf_failover r) (cf_timers r)
    (cf_reliable r) (cf_congestion r) (cf_pmtud r) (cf_routing_ewma r) (cf_engine_limits r) (cf_hole_punch r) (cf_buffers r).

Definition file_of_config (cfg : NetworkConfig) : NetworkConfigFile :=
  mkConfigFile
    (mkSessionFile
      (nc_network_id cfg) (nc_virtual_ip cfg) (nc_vip_epoch cfg) (nc_listen_port cfg) (nc_node_id cfg) (nc_crypto_key cfg) (nc_public_invite_code cfg)
      (nc_membership_version cfg) (nc_last_membership_hash cfg) (nc_created_at cfg) (nc_subnet_prefix cfg))
    (nc_peers cfg)
    (mkAdapterFile
      (nc_udp_sndbuf cfg) (nc_udp_rcvbuf cfg) (nc_adapter_mtu cfg) (nc_pin_mtu cfg) (nc_wintun_ring_bytes cfg) (nc_wintun_ipv4_interface_metric cfg))
    (mkPacingFile
      (nc_pace_tick_us cfg) (nc_pace_target_pps cfg) (nc_pace_rate_mode cfg) (nc_pace_target_bps cfg) (nc_base_max_burst cfg)
      (nc_pace_budget_cap_packets cfg) (nc_pace_max_queue_packets cfg) (nc_tun_inject_queue_packets cfg) (nc_tun_from_adapter_queue_packets cfg)
      (nc_pace_clock_mode cfg) (nc_pace_spin_window_us cfg) (nc_pace_fab_enabled cfg) (nc_pace_fab_fallback_tick_us cfg) (nc_cpu_affinity cfg)
      (nc_process_priority_level cfg) (nc_rawperf_enabled cfg) (nc_retransmit_bypass_pps cfg) (nc_low_latency_timer_enabled cfg))
    (mkApdFile
      (nc_apd_enabled cfg) (nc_apd_high_watermark cfg) (nc_apd_low_watermark cfg) (nc_ramp_max_burst cfg) (nc_drain_max_burst cfg)
      (nc_apd_spinloop_budget_ms cfg) (nc_apd_drain_tick_us cfg) (nc_apd_confirm_ticks cfg) (nc_apd_cooldown_ms cfg) (nc_apd_drain_freeze_drr cfg)
      (nc_apd_sojourn_enabled cfg) (nc_apd_max_sojourn_ms cfg) (nc_apd_target_sojourn_ms cfg) (nc_apd_require_cc_headroom cfg) (nc_shed_enabled cfg)
      (nc_shed_max_sojourn_ms cfg) (nc_shed_min_fill cfg) (nc_shed_max_per_tick cfg))
    (mkDrrFile
      (nc_drr_enabled cfg) (nc_drr_small_packet_priority cfg) (nc_drr_small_packet_threshold_bytes cfg) (nc_min_control_reserved_bytes_per_tick cfg)
      (nc_min_retransmit_reserved_bytes_per_tick cfg) (nc_drr_rtt_aware cfg) (nc_drr_rtt_scale_min cfg) (nc_drr_rtt_scale_max cfg))
    (mkFecFile
      (nc_fec_enabled cfg) (nc_fec_force_data_shards cfg) (nc_fec_force_parity_shards cfg) (fe_shard_payload_size (at_fec (nc_advanced cfg)))
      (fe_flush_ms (at_fec (nc_advanced cfg))) (fe_flush_aggressive_ms (at_fec (nc_advanced cfg))) (fe_adaptive_off_below (at_fec (nc_advanced cfg)))
      (fe_adaptive_on_above (at_fec (nc_advanced cfg))) (fe_max_total_shards (at_fec (nc_advanced cfg))))
    (mkDecentralizedFile
      (nc_decentralized_enabled cfg) (nc_decentralized_trackers cfg) (nc_decentralized_announce_secs cfg) (nc_decentralized_join_deadline_secs cfg)
      (nc_join_method cfg))
    (at_failover (nc_advanced cfg))
    (at_timers (nc_advanced cfg))
    (at_reliable (nc_advanced cfg))
    (at_congestion (nc_advanced cfg))
    (at_pmtud (nc_advanced cfg))
    (at_routing_ewma (nc_advanced cfg))
    (at_engine_limits (nc_advanced cfg))
    (at_hole_punch (nc_advanced cfg))
    (at_buffers (nc_advanced cfg)).

Definition config_of_file (file : NetworkConfigFile) : NetworkConfig :=
  mkConfig
    (ss_network_id (cf_session file)) (ss_virtual_ip (cf_session file)) (ss_vip_epoch (cf_session file)) (ss_listen_port (cf_session file))
    (ss_node_id (cf_session file)) (ss_crypto_key (cf_session file)) (ss_public_invite_code (cf_session file)) (cf_peers file)
    (ss_membership_version (cf_session file)) (ss_last_membership_hash (cf_session file)) (ss_created_at (cf_session file))
    (ad_udp_sndbuf (cf_adapter file)) (ad_udp_rcvbuf (cf_adapter file)) (ad_adapter_mtu (cf_adapter file)) (ad_pin_mtu (cf_adapter file))
    (ad_wintun_ring_bytes (cf_adapter file)) (ad_wintun_ipv4_interface_metric (cf_adapter file)) (pf_pace_tick_us (cf_pacing file))
    (pf_pace_target_pps (cf_pacing file)) (pf_pace_rate_mode (cf_pacing file)) (pf_pace_target_bps (cf_pacing file))
    (pf_base_max_burst (cf_pacing file)) (pf_pace_budget_cap_packets (cf_pacing file)) (pf_pace_max_queue_packets (cf_pacing file))
    (pf_tun_inject_queue_packets (cf_pacing file)) (pf_tun_from_adapter_queue_packets (cf_pacing file)) (pf_pace_clock_mode (cf_pacing file))
    (pf_pace_spin_window_us (cf_pacing file)) (pf_pace_fab_enabled (cf_pacing file)) (pf_pace_fab_fallback_tick_us (cf_pacing file))
    (ss_subnet_prefix (cf_session file)) (pf_cpu_affinity (cf_pacing file)) (pf_process_priority_level (cf_pacing file))
    (af_apd_enabled (cf_apd file)) (af_apd_high_watermark (cf_apd file)) (af_apd_low_watermark (cf_apd file)) (af_ramp_max_burst (cf_apd file))
    (af_drain_max_burst (cf_apd file)) (af_apd_spinloop_budget_ms (cf_apd file)) (af_apd_drain_tick_us (cf_apd file))
    (af_apd_confirm_ticks (cf_apd file)) (af_apd_cooldown_ms (cf_apd file)) (af_apd_drain_freeze_drr (cf_apd file))
    (af_apd_sojourn_enabled (cf_apd file)) (af_apd_max_sojourn_ms (cf_apd file)) (af_apd_target_sojourn_ms (cf_apd file))
    (af_apd_require_cc_headroom (cf_apd file)) (af_shed_enabled (cf_apd file)) (af_shed_max_sojourn_ms (cf_apd file)) (af_shed_min_fill (cf_apd file))
    (af_shed_max_per_tick (cf_apd file)) (df_drr_enabled (cf_drr file)) (df_drr_small_packet_priority (cf_drr file))
    (df_drr_small_packet_threshold_bytes (cf_drr file)) (df_min_control_reserved_bytes_per_tick (cf_drr file))
    (df_min_retransmit_reserved_bytes_per_tick (cf_drr file)) (df_drr_rtt_aware (cf_drr file)) (df_drr_rtt_scale_min (cf_drr file))
    (df_drr_rtt_scale_max (cf_drr file)) (ff_fec_enabled (cf_fec file)) (ff_fec_force_data_shards (cf_fec file))
    (ff_fec_force_parity_shards (cf_fec file)) (pf_rawperf_enabled (cf_pacing file)) (pf_retransmit_bypass_pps (cf_pacing file))
    (pf_low_latency_timer_enabled (cf_pacing file)) (dz_decentralized_enabled (cf_decentralized file))
    (dz_decentralized_trackers (cf_decentralized file)) (dz_decentralized_announce_secs (cf_decentralized file))
    (dz_decentralized_join_deadline_secs (cf_decentralized file)) (dz_join_method (cf_decentralized file))
    (mkAdvanced
       (cf_failover file) (cf_timers file) (cf_reliable file)
       (mkFecTuning (ff_shard_payload_size (cf_fec file)) (ff_flush_ms (cf_fec file)) (ff_flush_aggressive_ms (cf_fec file)) (ff_adaptive_off_below (cf_fec file)) (ff_adaptive_on_above (cf_fec file)) (ff_fec_max_total_shards (cf_fec file)))
       (cf_congestion file) (cf_pmtud file) (cf_routing_ewma file) (cf_engine_limits file) (cf_hole_punch file) (cf_buffers file)).

(** [SessionFile::default] and the like: the section of the default configuration. *)
Definition default_file : NetworkConfigFile := file_of_config default_config.

(** ** Text *)

(** [f64::round]: to the nearest integer, a tie away from zero. *)
Definition f_round (x : f64) : f64 :=
  match x with
  | S754_finite s m e =>
      let n := round_mag m e in
      if n =? 0 then S754_zero s else binary_normalize 53 1024 (if s then - n else n) 0 false
  | _ => x
  end.
Definition six_decimals (v : f64) : f64 := f64_div (f_round (f64_mul v (f64_of_Z 1000000))) (f64_of_Z 1000000).

Record TomlDoc := mkDoc { td_file : NetworkConfigFile; td_low : f64; td_high : f64 }.
#[export] Instance TomlDoc_eq_dec : EqDecision TomlDoc.
Proof. solve_decision. Defined.
Definition doc_of_file (f : NetworkConfigFile) : TomlDoc :=
  mkDoc f (f32_to_f64 (af_apd_low_watermark (cf_apd f))) (f32_to_f64 (af_apd_high_watermark (cf_apd f))).
Definition file_of_doc (d : TomlDoc) : NetworkConfigFile :=
  td_file d <| cf_apd := cf_apd (td_file d) <| af_apd_low_watermark := f64_to_f32 (td_low d) |>
                                             <| af_apd_high_watermark := f64_to_f32 (td_high d) |> |>.
Definition compact_apd_watermark_floats (d : TomlDoc) : TomlDoc := mkDoc (td_file d) (six_decimals (td_low d)) (six_decimals (td_high d)).

(** [toml::Value::try_from] with [to_string_pretty], and [toml::from_str]; each may refuse. *)
Class TomlText := { toml_pretty : TomlDoc -> option bytes; toml_from_str : bytes -> option NetworkConfigFile }.

Class TomlLaws `{TomlText} : Prop := {
  toml_reads_back : forall d t, toml_pretty d = Some t -> toml_from_str t = Some (file_of_doc d);
  toml_is_text : forall d t, toml_pretty d = Some t -> utf8 t = true;
  toml_empty : toml_from_str [] = Some default_file
}.

Inductive Parsed := ParsedOk (cfg : NetworkConfig) | ParsedErr | ParsedPanic.

Section Text.
Context `{TomlText}.

Definition encode_network_config_toml (cfg : NetworkConfig) : option bytes :=
  toml_pretty (compact_apd_watermark_floats (doc_of_file (file_of_config cfg))).

(** The clamp of the knobs may panic. *)
Definition parse_network_config_toml (raw : bytes) : Parsed :=
  match toml_from_str raw with
  | None => ParsedErr
  | Some file =>
      let cfg := config_of_file file in
      match clamp_advanced (nc_advanced cfg) with
      | Some a => ParsedOk (cfg <| nc_advanced := a |>)
      | None => ParsedPanic
      end
  end.
End Text.

(** ** Theorems *)

Lemma config_of_file_of_config cfg : config_of_file (file_of_config cfg) = cfg.
Proof. by destruct cfg as [????????????????????????????????????????????????????????????????????? ? [???[] ??????]]. Qed.

Lemma file_of_config_of_file f : file_of_config (config_of_file f) = f.
Proof. by destruct f as [[] ? [] [] [] [] [] []]. Qed.

(** What the program reads back of a configuration it wrote: six decimals of the watermarks. *)
Definition rounded_watermarks (cfg : NetworkConfig) : NetworkConfig :=
  cfg <| nc_apd_low_watermark := f64_to_f32 (six_decimals (f32_to_f64 (nc_apd_low_watermark cfg))) |>
      <| nc_apd_high_watermark := f64_to_f32 (six_decimals (f32_to_f64 (nc_apd_high_watermark cfg))) |>.

(** Configurations a file can hold exactly: their knobs are clamped and six decimals of the watermarks are enough. *)
Definition storable (cfg : NetworkConfig) : Prop :=
  rounded_watermarks cfg = cfg /\ clamp_advanced (nc_advanced cfg) = Some (nc_advanced cfg).

Lemma file_of_compact cfg :
  file_of_doc (compact_apd_watermark_floats (doc_of_file (file_of_config cfg))) = file_of_config (rounded_watermarks cfg).
Proof. done. Qed.

Section TextFacts.
Context `{TomlLaws}.

Lemma parsed_text cfg t : encode_network_config_toml cfg = Some t ->
  parse_network_config_toml t = match clamp_advanced (nc_advanced cfg) with
                                | Some a => ParsedOk (rounded_watermarks cfg <| nc_advanced := a |>)
                                | None => ParsedPanic
                                end.
Proof.
  intros E%toml_reads_back. rewrite file_of_compact in E. unfold parse_network_config_toml. by rewrite E, config_of_file_of_config.
Qed.

Lemma config_advanced cfg : cfg <| nc_advanced := nc_advanced cfg |> = cfg.
Proof. by destruct cfg. Qed.

(** Encoding a configuration whose knobs are clamped and whose watermarks have at most six decimals,
    and parsing the text, gives the same configuration, all of its seventy-one fields. *)
Theorem config_file_roundtrip cfg t : storable cfg -> encode_network_config_toml cfg = Some t -> parse_network_config_toml t = ParsedOk cfg.
Proof. intros [R A] E. rewrite (parsed_text _ _ E), A, R. by rewrite config_advanced. Qed.

End TextFacts.

(** ** Performance fields *)

(** The fields [merge_performance_from] copies, and the others. *)
Definition performance_of (c : NetworkConfig) : NetworkConfig := merge_performance_from default_config c.
Definition identity_of (c : NetworkConfig) : NetworkConfig := merge_performance_from c default_config.

Lemma merge_performance a b : performance_of (merge_performance_from a b) = performance_of b.
Proof. done. Qed.
Lemma merge_identity a b : identity_of (merge_performance_from a b) = identity_of a.
Proof. done. Qed.
Lemma merge_split c : merge_performance_from (identity_of c) (performance_of c) = c.
Proof. by destruct c. Qed.
Lemma merge_unique a b c : identity_of c = identity_of a -> performance_of c = performance_of b -> c = merge_performance_from a b.
Proof. intros I P. rewrite <- (merge_split c), I, P. done. Qed.

(** ** An instance of the text *)

(** Text for the configurations that differ from the default in their claim epoch and pacing tick only. *)
Module ToyToml.
Definition sample (epoch tick : Z) : NetworkConfig := default_config <| nc_vip_epoch := epoch |> <| nc_pace_tick_us := tick |>.
Definition doc (epoch tick : Z) : TomlDoc := compact_apd_watermark_floats (doc_of_file (file_of_config (sample epoch tick))).
Definition ascii_code (n : Z) : bool := (0 <=? n) && (n <=? 127).

Definition pretty (d : TomlDoc) : option bytes :=
  let epoch := ss_vip_epoch (cf_session (td_file d)) in let tick := pf_pace_tick_us (cf_pacing (td_file d)) in
  if ascii_code epoch && ascii_code tick && bool_decide (d = doc epoch tick) then Some [epoch; tick] else None.
Definition from_str (t : bytes) : option NetworkConfigFile :=
  match t with [] => Some default_file | [epoch; tick] => Some (file_of_doc (doc epoch tick)) | _ => None end.

Definition toy_toml : TomlText := {| toml_pretty := pretty; toml_from_str := from_str |}.
Lemma toy_toml_laws : @TomlLaws toy_toml.
Proof.
  split; [..|done]; intros d t; cbn; unfold pretty; destruct (ascii_code _ && ascii_code _) eqn:A; cbn; try done; case_bool_decide as E; try done.
  - intros [= <-]. cbn. by rewrite <- E.
  - intros [= <-]. clear E. apply andb_true_iff in A as [A1 A2]. unfold ascii_code in A1, A2. cbn. by rewrite A1, A2.
Qed.

Lemma sample_storable epoch tick : storable (sample epoch tick).
Proof.
  split; [|exact default_clamped]. unfold rounded_watermarks. cbn [sample].
  change (nc_apd_low_watermark (sample epoch tick)) with (f32_lit 2 100). change (nc_apd_high_watermark (sample epoch tick)) with (f32_lit 3 10).
  replace (f64_to_f32 (six_decimals (f32_to_f64 (f32_lit 2 100)))) with (f32_lit 2 100) by (vm_compute; reflexivity).
  replace (f64_to_f32 (six_decimals (f32_to_f64 (f32_lit 3 10)))) with (f32_lit 3 10) by (vm_compute; reflexivity). done.
Qed.

Lemma config_file_roundtrip_witness : @parse_network_config_toml toy_toml [5; 99] = ParsedOk (sample 5 99).
Proof. apply (@config_file_roundtrip toy_toml toy_toml_laws (sample 5 99) [5; 99]); [apply sample_storable|vm_compute; reflexivity]. Defined.

End ToyToml.
