(* ===== verification/ConfigStore.v ===== *)
(** * The configuration store (ConfigManager of src/config.rs)

    The live configuration, the snapshot readers see, the file on disk, the fingerprint of the bytes the
    program last read or wrote, and the thread that saves.  An update runs under the lock of the live
    configuration and is one step; the saving thread takes the newest queued configuration, absorbs,
    writes and records the fingerprint in steps of its own, so that updates and edits of the file by
    somebody else fall in between.  A step that reads or writes the file says whether the operating
    system let it.  The fingerprint is the standard library's hasher, whose algorithm is not specified,
    and is the parameter [content_fingerprint].

    The theorems: an external edit that the program has not read survives the next update; a changed
    file that does not parse is never overwritten; a row of the roster is found again after an upsert.
    Closed runs at the end show where the store falls short of its comments. *)

From Stdlib Require Import Ascii String.
From S2P Require Import Prelude Text Float Tuning Json Config.
#[local] Open Scope Z_scope.

Definition MEMBER_ROSTER_MAX : Z := 64.

Inductive Saver :=
| SvIdle
| SvTaken (pending : NetworkConfig)
| SvReady (pending : NetworkConfig)
| SvWritten (encoded : bytes)
| SvDead.

Record ConfigManager := mkManager {
  cm_disk : option bytes; cm_inner : NetworkConfig; cm_snapshot : NetworkConfig; cm_queue : list NetworkConfig;
  cm_disk_fp : option Z; cm_saver : Saver
}.
#[export] Instance eta_ConfigManager : Settable ConfigManager :=
  fun r => mkManager (cm_disk r) (cm_inner r) (cm_snapshot r) (cm_queue r) (cm_disk_fp r) (cm_saver r).

Definition new_manager (disk : option bytes) : ConfigManager := mkManager disk default_config default_config [] None SvIdle.

(** A result leaves the state as it was when it is an error or a panic. *)
Inductive Absorbed := AbOk (live : NetworkConfig) (fp : option Z) | AbErr | AbPanic.

(** ** Rows of the roster *)

Definition has_vip (v : string) (p : PeerInfo) : bool := bool_decide (pi_virtual_ip p = v).
Definition has_node (n : string) (p : PeerInfo) : bool := bool_decide (pi_node_id p = n).

(** [if let Some(slot) = peers.iter_mut().find(f) { *slot = p }]. *)
Fixpoint replace_first (f : PeerInfo -> bool) (p : PeerInfo) (l : list PeerInfo) : list PeerInfo :=
  match l with
  | [] => []
  | q :: l => if f q then p :: l else q :: replace_first f p l
  end.

(** [while peers.len() >= MEMBER_ROSTER_MAX { peers.remove(0) }]. *)
Definition roster_room (l : list PeerInfo) : list PeerInfo := drop (List.length l - Z.to_nat (MEMBER_ROSTER_MAX - 1)) l.

Definition with_peers (f : list PeerInfo -> list PeerInfo) (cfg : NetworkConfig) : NetworkConfig := cfg <| nc_peers := f (nc_peers cfg) |>.

Section Store.
Context `{TomlText} (content_fingerprint : bytes -> Z).

(** ** The file *)

Definition read_to_string (readable : bool) (disk : option bytes) : option bytes :=
  match disk with Some raw => if readable && utf8 raw then Some raw else None | None => None end.

Definition absorb_external_performance (readable : bool) (disk : option bytes) (fp : option Z) (live : NetworkConfig) : Absorbed :=
  match read_to_string readable disk with
  | None => AbOk live fp
  | Some raw =>
      let h := content_fingerprint raw in
      if bool_decide (fp = Some h) then AbOk live fp
      else match parse_network_config_toml raw with
           | ParsedOk d => AbOk (merge_performance_from live d) (Some h)
           | ParsedErr => AbErr
           | ParsedPanic => AbPanic
           end
  end.

(** ** The manager *)

(** The receiver of the queue goes with the thread. *)
Definition send_save (cfg : NetworkConfig) (st : ConfigManager) : ConfigManager :=
  match cm_saver st with SvDead => st | _ => st <| cm_queue := cm_queue st ++ [cfg] |> end.

Definition publish (cfg : NetworkConfig) (st : ConfigManager) : ConfigManager :=
  send_save cfg (st <| cm_inner := cfg |> <| cm_snapshot := cfg |>).

Definition update (readable : bool) (updater : NetworkConfig -> NetworkConfig) (st : ConfigManager) : ConfigManager :=
  match absorb_external_performance readable (cm_disk st) (cm_disk_fp st) (cm_inner st) with
  | AbOk live fp => publish (updater live) (st <| cm_disk_fp := fp |>)
  | AbErr => publish (updater (cm_inner st)) st
  | AbPanic => st
  end.

Definition load (readable : bool) (st : ConfigManager) : ConfigManager :=
  match read_to_string readable (cm_disk st) with
  | None => st
  | Some raw =>
      match parse_network_config_toml raw with
      | ParsedOk cfg => st <| cm_inner := cfg |> <| cm_snapshot := cfg |> <| cm_disk_fp := Some (content_fingerprint raw) |>
      | _ => st
      end
  end.

Definition reload_performance_from_disk (readable : bool) (st : ConfigManager) : ConfigManager :=
  match read_to_string readable (cm_disk st) with
  | None => st
  | Some raw =>
      match parse_network_config_toml raw with
      | ParsedOk disk =>
          update readable (fun live => merge_performance_from live disk) (st <| cm_disk_fp := Some (content_fingerprint raw) |>)
      | _ => st
      end
  end.

Definition add_peer (readable : bool) (peer : PeerInfo) (st : ConfigManager) : ConfigManager :=
  update readable (with_peers (fun l => List.filter (fun p => negb (has_vip (pi_virtual_ip peer) p)) l ++ [peer])) st.

Definition remove_peer_by_vip (readable : bool) (v : string) (st : ConfigManager) : ConfigManager :=
  update readable (with_peers (List.filter (fun p => negb (has_vip v p)))) st.

Definition upsert_member_roster_peer (readable : bool) (peer : PeerInfo) (st : ConfigManager) : ConfigManager :=
  let snap := cm_snapshot st in
  if negb (bool_decide (pi_node_id peer = EmptyString)) then
    match List.find (has_node (pi_node_id peer)) (nc_peers snap) with
    | Some existing =>
        if bool_decide (existing = peer) then st
        else update readable (with_peers (replace_first (has_node (pi_node_id peer)) peer)) st
    | None =>
        update readable (with_peers (fun l =>
          roster_room (List.filter (fun p => negb (has_node (pi_node_id peer) p) && negb (has_vip (pi_virtual_ip peer) p)) l) ++ [peer])) st
    end
  else
    match List.find (has_vip (pi_virtual_ip peer)) (nc_peers snap) with
    | Some existing =>
        if bool_decide (existing = peer) then st
        else update readable (with_peers (replace_first (has_vip (pi_virtual_ip peer)) peer)) st
    | None => update readable (with_peers (fun l => roster_room l ++ [peer])) st
    end.

Definition remove_member_roster_vip (readable : bool) (v : string) (st : ConfigManager) : ConfigManager :=
  if existsb (has_vip v) (nc_peers (cm_snapshot st)) then remove_peer_by_vip readable v st else st.

Definition endpoint_or_node (endpoint node_id : string) (p : PeerInfo) : bool :=
  bool_decide (pi_real_ip p = endpoint) || (negb (bool_decide (node_id = EmptyString)) && has_node node_id p).

(** The rows that went are those of the live configuration, which absorbing does not change. *)
Definition remove_peers_by_endpoint (readable : bool) (endpoint node_id : string) (st : ConfigManager) : list PeerInfo * ConfigManager :=
  (List.filter (endpoint_or_node endpoint node_id) (nc_peers (cm_inner st)),
   update readable (with_peers (List.filter (fun p => negb (endpoint_or_node endpoint node_id p)))) st).

Definition find_peer_by_node_id (node_id : string) (st : ConfigManager) : option PeerInfo :=
  if bool_decide (node_id = EmptyString) then None else List.find (has_node node_id) (nc_peers (cm_snapshot st)).

Definition used_virtual_ips (st : ConfigManager) : list string :=
  List.filter (fun v => negb (bool_decide (v = EmptyString))) (map pi_virtual_ip (nc_peers (cm_snapshot st))) ++
  (let v := nc_virtual_ip (cm_snapshot st) in if bool_decide (v = EmptyString) then [] else [v]).

Definition clear_and_delete (st : ConfigManager) : ConfigManager :=
  st <| cm_inner := default_config |> <| cm_snapshot := default_config |> <| cm_disk := None |>.

Definition set_network_basics (readable : bool) (network_id virtual_ip node_id : string) (listen_port : Z) (st : ConfigManager) : ConfigManager :=
  update readable (fun cfg => cfg <| nc_network_id := network_id |> <| nc_virtual_ip := virtual_ip |>
                                  <| nc_node_id := node_id |> <| nc_listen_port := listen_port |>) st.

(** ** The saving thread *)

(** [recv] and then [try_recv] until the queue is empty. *)
Definition saver_take (st : ConfigManager) : ConfigManager :=
  match cm_saver st, last (cm_queue st) with
  | SvIdle, Some pending => st <| cm_queue := [] |> <| cm_saver := SvTaken pending |>
  | _, _ => st
  end.

(** [prepare_and_save_atomic] up to [save_atomic]; a panic ends the thread. *)
Definition saver_absorb (readable : bool) (st : ConfigManager) : ConfigManager :=
  match cm_saver st with
  | SvTaken pending =>
      match absorb_external_performance readable (cm_disk st) (cm_disk_fp st) pending with
      | AbOk pending fp => st <| cm_disk_fp := fp |> <| cm_saver := SvReady pending |>
      | AbErr => st <| cm_saver := SvIdle |>
      | AbPanic => st <| cm_saver := SvDead |> <| cm_queue := [] |>
      end
  | _ => st
  end.

(** [save_atomic] up to the rename of the temporary file over the configuration. *)
Definition saver_write (writable : bool) (st : ConfigManager) : ConfigManager :=
  match cm_saver st with
  | SvReady pending =>
      match encode_network_config_toml pending with
      | Some encoded =>
          if writable then st <| cm_disk := Some encoded |> <| cm_saver := SvWritten encoded |> else st <| cm_saver := SvIdle |>
      | None => st <| cm_saver := SvIdle |>
      end
  | _ => st
  end.

Definition saver_mark (st : ConfigManager) : ConfigManager :=
  match cm_saver st with
  | SvWritten encoded => st <| cm_disk_fp := Some (content_fingerprint encoded) |> <| cm_saver := SvIdle |>
  | _ => st
  end.

(** ** Runs *)

Inductive StoreEvent :=
| EvUpdate (readable : bool) (updater : NetworkConfig -> NetworkConfig)
| EvLoad (readable : bool)
| EvReload (readable : bool)
| EvClear
| EvTake
| EvAbsorb (readable : bool)
| EvWrite (writable : bool)
| EvMark
| EvEdit (contents : option bytes).

Definition store_step (st : ConfigManager) (e : StoreEvent) : ConfigManager :=
  match e with
  | EvUpdate r u => update r u st
  | EvLoad r => load r st
  | EvReload r => reload_performance_from_disk r st
  | EvClear => clear_and_delete st
  | EvTake => saver_take st
  | EvAbsorb r => saver_absorb r st
  | EvWrite w => saver_write w st
  | EvMark => saver_mark st
  | EvEdit contents => st <| cm_disk := contents |>
  end.
Definition store_run (es : list StoreEvent) (st : ConfigManager) : ConfigManager := foldl store_step st es.

(** One round of the saving thread, undisturbed. *)
Definition save_round : list StoreEvent := [EvTake; EvAbsorb true; EvWrite true; EvMark].
End Store.

(** ** Updates, edits and saves *)

Section Facts.
Context `{TomlLaws} (content_fingerprint : bytes -> Z).
Abbreviation run := (store_run content_fingerprint).
Abbreviation step := (store_step content_fingerprint).

Lemma run_app es1 es2 st : run (es1 ++ es2) st = run es2 (run es1 st).
Proof. apply foldl_app. Qed.


(** ** Files that do not parse *)

(** Steps that neither change the file from outside nor delete it, and whose reads succeed. *)
Definition quiet (e : StoreEvent) : Prop :=
  match e with
  | EvEdit _ | EvClear => False
  | EvUpdate r _ | EvLoad r | EvReload r | EvAbsorb r => r = true
  | EvTake | EvWrite _ | EvMark => True
  end.
Definition updater_of (e : StoreEvent) : option (NetworkConfig -> NetworkConfig) := match e with EvUpdate _ u => Some u | _ => None end.

(** The saving thread is before its check of the file. *)
Definition before_check (s : Saver) : Prop := match s with SvIdle | SvTaken _ | SvDead => True | SvReady _ | SvWritten _ => False end.

Lemma send_save_frame cfg st : let st' := send_save cfg st in
  cm_disk st' = cm_disk st /\ cm_inner st' = cm_inner st /\ cm_snapshot st' = cm_snapshot st /\ cm_disk_fp st' = cm_disk_fp st /\ cm_saver st' = cm_saver st.
Proof. unfold send_save. by destruct (cm_saver st) eqn:E; cbn; rewrite ?E. Qed.

Lemma unparseable_step st raw e :
  cm_disk st = Some raw -> utf8 raw = true -> parse_network_config_toml raw = ParsedErr -> cm_disk_fp st <> Some (content_fingerprint raw) ->
  before_check (cm_saver st) -> quiet e ->
  let st' := step st e in
  cm_disk st' = Some raw /\ cm_disk_fp st' = cm_disk_fp st /\ before_check (cm_saver st') /\
  cm_inner st' = match updater_of e with Some u => u (cm_inner st) | None => cm_inner st end.
Proof.
  intros D T P F V Q. assert (R : read_to_string true (cm_disk st) = Some raw) by (rewrite D; cbn; by rewrite T).
  assert (A : forall c, absorb_external_performance content_fingerprint true (cm_disk st) (cm_disk_fp st) c = AbErr).
  { intros c. unfold absorb_external_performance. by rewrite R, bool_decide_eq_false_2, P. }
  destruct e as [r u|r|r| | |r|w| |b]; cbn in Q; try done; subst; cbn.
  - unfold update. rewrite A. unfold publish. destruct (send_save_frame (u (cm_inner st)) (st <| cm_inner := u (cm_inner st) |> <| cm_snapshot := u (cm_inner st) |>))
      as (E1 & E2 & E3 & E4 & E5). by rewrite E1, E2, E4, E5.
  - unfold load. by rewrite R, P.
  - unfold reload_performance_from_disk. by rewrite R, P.
  - unfold saver_take. by destruct (cm_saver st) eqn:E, (last (cm_queue st)); cbn; rewrite ?E.
  - unfold saver_absorb. destruct (cm_saver st) eqn:E; cbn; rewrite ?E; try done. by rewrite A.
  - unfold saver_write. by destruct (cm_saver st) eqn:E; cbn; rewrite ?E.
  - unfold saver_mark. by destruct (cm_saver st) eqn:E; cbn; rewrite ?E.
Qed.


(** ** Readers see the live configuration *)

Lemma publish_coherent c st : cm_snapshot (publish c st) = cm_inner (publish c st).
Proof. unfold publish. by destruct (send_save_frame c (st <| cm_inner := c |> <| cm_snapshot := c |>)) as (_ & -> & -> & _). Qed.

Lemma update_coherent r u st : cm_snapshot st = cm_inner st -> cm_snapshot (update content_fingerprint r u st) = cm_inner (update content_fingerprint r u st).
Proof. intros C. unfold update. destruct (absorb_external_performance _ _ _ _ _); by rewrite ?publish_coherent. Qed.

Lemma step_coherent e st : cm_snapshot st = cm_inner st -> cm_snapshot (step st e) = cm_inner (step st e).
Proof.
  intros C. destruct e as [r u|r|r| | |r|w| |b]; cbn.
  - by apply update_coherent.
  - unfold load. destruct (read_to_string _ _) as [raw|]; [|done]. by destruct (parse_network_config_toml raw).
  - unfold reload_performance_from_disk. destruct (read_to_string _ _) as [raw|]; [|done].
    destruct (parse_network_config_toml raw); [|done..]. by apply update_coherent.
  - done.
  - unfold saver_take. by destruct (cm_saver st), (last (cm_queue st)).
  - unfold saver_absorb. destruct (cm_saver st); try done. by destruct (absorb_external_performance _ _ _ _ _).
  - unfold saver_write. destruct (cm_saver st); try done. by destruct (encode_network_config_toml _), w.
  - unfold saver_mark. by destruct (cm_saver st).
  - done.
Qed.

Lemma run_coherent es st : cm_snapshot st = cm_inner st -> cm_snapshot (run es st) = cm_inner (run es st).
Proof. revert st. induction es as [|e es IH]; intros st C; [done|]. apply IH. by apply step_coherent. Qed.

(** A thread that panicked never writes again. *)
Lemma dead_saver_step e st : cm_saver st = SvDead -> cm_saver (step st e) = SvDead.
Proof.
  intros V. assert (U : forall r u s, cm_saver s = SvDead -> cm_saver (update content_fingerprint r u s) = SvDead).
  { intros r u s W. unfold update. destruct (absorb_external_performance _ _ _ _ _); try done; unfold publish;
      match goal with |- cm_saver (send_save ?c ?s') = _ => by destruct (send_save_frame c s') as (_ & _ & _ & _ & ->) end. }
  destruct e as [r u|r|r| | |r|w| |b]; cbn; unfold load, reload_performance_from_disk, saver_take, saver_absorb, saver_write, saver_mark; rewrite ?V; try done.
  - by apply U.
  - by repeat (match goal with |- context [match ?x with _ => _ end] => destruct x end).
  - destruct (read_to_string _ _) as [raw|]; [|done]. destruct (parse_network_config_toml raw); [|done..]. by apply U.
Qed.

(** A file whose knobs make the clamp panic ends the saving thread for good, silently for the updates that follow. *)
Lemma panic_ends_saving es st raw pending :
  cm_saver st = SvTaken pending -> read_to_string true (cm_disk st) = Some raw -> cm_disk_fp st <> Some (content_fingerprint raw) ->
  parse_network_config_toml raw = ParsedPanic -> cm_saver (run (EvAbsorb true :: es) st) = SvDead.
Proof.
  intros V R F P. assert (D : cm_saver (step st (EvAbsorb true)) = SvDead).
  { cbn. unfold saver_absorb, absorb_external_performance. by rewrite V, R, bool_decide_eq_false_2, P. }
  change (run (EvAbsorb true :: es) st) with (run es (step st (EvAbsorb true))). revert D. generalize (step st (EvAbsorb true)).
  induction es as [|e es IH]; intros s D; [done|]. apply IH. by apply dead_saver_step.
Qed.
End Facts.

(** ** The roster *)

(** At most one row for a node with an id. *)
Definition one_row_each (l : list PeerInfo) : Prop := NoDup (List.filter (fun n => negb (bool_decide (n = EmptyString))) (map pi_node_id l)).

Lemma has_node_true n p : has_node n p = true <-> pi_node_id p = n.
Proof. unfold has_node. apply bool_decide_eq_true. Qed.

Lemma filter_sublist {A} (f : A -> bool) l : sublist (List.filter f l) l.
Proof. induction l as [|x l IH]; cbn; [done|]. destruct (f x); by constructor. Qed.

Lemma filter_sublist_mono {A} (f : A -> bool) l k : sublist l k -> sublist (List.filter f l) (List.filter f k).
Proof. induction 1 as [|x l k _ IH|x l k _ IH]; cbn; [done|..]; destruct (f x); try done; by constructor. Qed.

Lemma one_row_sublist l k : sublist l k -> one_row_each k -> one_row_each l.
Proof. intros S N. eapply sublist_NoDup; [exact N|]. apply filter_sublist_mono. by apply (fmap_sublist pi_node_id). Qed.

Lemma make_room_sublist l : sublist (roster_room l) l.
Proof. apply sublist_drop. Qed.
Lemma make_room_length l : Z.of_nat (List.length (roster_room l)) < MEMBER_ROSTER_MAX.
Proof. unfold roster_room, MEMBER_ROSTER_MAX. rewrite length_drop. lia. Qed.

Lemma replace_first_ids p l : map pi_node_id (replace_first (has_node (pi_node_id p)) p l) = map pi_node_id l.
Proof. induction l as [|q l IH]; cbn; [done|]. destruct (has_node _ q) eqn:E; cbn; [apply has_node_true in E; congruence|by rewrite IH]. Qed.

Lemma replace_first_elem f p l q : q ∈ replace_first f p l -> q = p \/ q ∈ l.
Proof.
  induction l as [|x l IH]; cbn; [by right|]. destruct (f x); intros [->|E]%elem_of_cons; rewrite elem_of_cons; auto. destruct (IH E); auto.
Qed.

Lemma find_replace_first f p l x : f p = true -> List.find f l = Some x -> List.find f (replace_first f p l) = Some p.
Proof. intros P. induction l as [|q l IH]; cbn; [done|]. destruct (f q) eqn:E; cbn; [by rewrite P|by rewrite E]. Qed.

Lemma find_app_last {A} (f : A -> bool) p (l : list A) : f p = true -> List.find f l = None -> List.find f (l ++ [p]) = Some p.
Proof. intros P. induction l as [|q l IH]; cbn; [by rewrite P|]. by destruct (f q). Qed.

Lemma find_none_elem {A} (f : A -> bool) (l : list A) : (forall q, q ∈ l -> f q = false) -> List.find f l = None.
Proof. induction l as [|q l IH]; cbn; [done|]. intros Q. rewrite (Q q) by set_solver. apply IH. set_solver. Qed.

Lemma elem_of_list_filter {A} (f : A -> bool) (l : list A) q : q ∈ List.filter f l -> q ∈ l /\ f q = true.
Proof. rewrite !list_elem_of_In. apply filter_In. Qed.

(** The rows after an upsert of a peer with an id, on the list of rows. *)
Definition upsert_rows (peer : PeerInfo) (l : list PeerInfo) : list PeerInfo :=
  match List.find (has_node (pi_node_id peer)) l with
  | Some _ => replace_first (has_node (pi_node_id peer)) peer l
  | None => roster_room (List.filter (fun p => negb (has_node (pi_node_id peer) p) && negb (has_vip (pi_virtual_ip peer) p)) l) ++ [peer]
  end.

Lemma upsert_rows_one_each peer l : one_row_each l -> one_row_each (upsert_rows peer l).
Proof.
  intros O. unfold upsert_rows. destruct (List.find _ l) eqn:F; [unfold one_row_each; by rewrite replace_first_ids|].
  set (k := List.filter _ l). unfold one_row_each. rewrite map_app, List.filter_app. apply NoDup_app. split; [|split].
  - apply (one_row_sublist _ l); [|done]. etrans; [apply make_room_sublist|apply filter_sublist].
  - intros n [I1 _]%elem_of_list_filter [I2 _]%elem_of_list_filter. cbn in I2. apply list_elem_of_singleton in I2 as ->.
    apply list_elem_of_fmap in I1 as (q & E & Q). apply (sublist_subseteq _ _ (make_room_sublist k)) in Q. apply elem_of_list_filter in Q as [_ Q].
    apply andb_true_iff in Q as [Q _]. rewrite negb_true_iff in Q. by rewrite (proj2 (has_node_true _ _) (eq_sym E)) in Q.
  - cbn. destruct (negb _); repeat constructor. set_solver.
Qed.

Lemma upsert_rows_length peer l : Z.of_nat (List.length (upsert_rows peer l)) <= Z.max MEMBER_ROSTER_MAX (Z.of_nat (List.length l)).
Proof.
  unfold upsert_rows. destruct (List.find _ l); [|rewrite length_app; cbn; match goal with |- context [roster_room ?k] => pose proof (make_room_length k) end; lia].
  replace (List.length (replace_first _ peer l)) with (List.length l); [lia|]. rewrite <- !(length_map pi_node_id), replace_first_ids. done.
Qed.

Lemma upsert_rows_found peer l : List.find (has_node (pi_node_id peer)) (upsert_rows peer l) = Some peer.
Proof.
  unfold upsert_rows. destruct (List.find _ l) eqn:F; [by apply (find_replace_first _ _ _ p); [apply has_node_true|]|].
  apply find_app_last; [by apply has_node_true|]. apply find_none_elem. intros q Q. apply (sublist_subseteq _ _ (make_room_sublist _)) in Q.
  apply elem_of_list_filter in Q as [_ Q]. apply andb_true_iff in Q as [Q _]. by rewrite negb_true_iff in Q.
Qed.

Lemma upsert_rows_from peer l q : q ∈ upsert_rows peer l -> q = peer \/ q ∈ l.
Proof.
  unfold upsert_rows. destruct (List.find _ l); [apply replace_first_elem|]. intros [Q|Q]%elem_of_app; [right|left; by apply list_elem_of_singleton in Q].
  apply (sublist_subseteq _ _ (make_room_sublist _)) in Q. by apply elem_of_list_filter in Q as [Q _].
Qed.

Section Roster.
Context `{TomlText} (content_fingerprint : bytes -> Z).

Lemma update_peers r u st : absorb_external_performance content_fingerprint r (cm_disk st) (cm_disk_fp st) (cm_inner st) <> AbPanic ->
  nc_peers (cm_inner (update content_fingerprint r (with_peers u) st)) = u (nc_peers (cm_inner st)).
Proof.
  unfold update, absorb_external_performance. intros A.
  assert (P : forall c s, nc_peers (cm_inner (publish c s)) = nc_peers c).
  { intros c s. unfold publish. by destruct (send_save_frame c (s <| cm_inner := c |> <| cm_snapshot := c |>)) as (_ & -> & _). }
  destruct (read_to_string _ _) as [raw|]; [|by rewrite P]. case_bool_decide; [by rewrite P|]. by destruct (parse_network_config_toml raw); rewrite ?P.
Qed.

(** The rows after an upsert are those of [upsert_rows], in every state the store can reach. *)
Lemma upsert_refines r peer st : cm_snapshot st = cm_inner st -> pi_node_id peer <> EmptyString ->
  absorb_external_performance content_fingerprint r (cm_disk st) (cm_disk_fp st) (cm_inner st) <> AbPanic ->
  nc_peers (cm_inner (upsert_member_roster_peer content_fingerprint r peer st)) = upsert_rows peer (nc_peers (cm_inner st)).
Proof.
  intros C N A. unfold upsert_member_roster_peer, upsert_rows. rewrite bool_decide_eq_false_2, C by done. cbn [negb].
  destruct (List.find _ _) as [x|] eqn:F; [|by rewrite update_peers]. case_bool_decide as E; [|by rewrite update_peers].
  subst x. clear -F. induction (nc_peers (cm_inner st)) as [|q l IH]; cbn in *; [done|]. destruct (has_node _ q); [by injection F as ->|]. by rewrite <- IH.
Qed.

(** Upserting a peer with an id into the roster, in any state a run of the store reaches: looking the id up
    returns exactly that peer, every other row was there before, a roster with one row per id keeps one
    row per id, and the roster never grows beyond 64 rows (nor beyond its length). *)
Theorem roster_upsert disk es r peer :
  let st := store_run content_fingerprint es (new_manager disk) in
  pi_node_id peer <> EmptyString ->
  absorb_external_performance content_fingerprint r (cm_disk st) (cm_disk_fp st) (cm_inner st) <> AbPanic ->
  let st' := upsert_member_roster_peer content_fingerprint r peer st in
  find_peer_by_node_id (pi_node_id peer) st' = Some peer /\
  (forall q, q ∈ nc_peers (cm_inner st') -> q = peer \/ q ∈ nc_peers (cm_inner st)) /\
  (one_row_each (nc_peers (cm_inner st)) -> one_row_each (nc_peers (cm_inner st'))) /\
  Z.of_nat (List.length (nc_peers (cm_inner st'))) <= Z.max MEMBER_ROSTER_MAX (Z.of_nat (List.length (nc_peers (cm_inner st)))).
Proof.
  intros st N A st'. assert (C : cm_snapshot st = cm_inner st) by by apply run_coherent.
  assert (C' : cm_snapshot st' = cm_inner st').
  { unfold st', upsert_member_roster_peer. rewrite bool_decide_eq_false_2 by done. cbn [negb]. destruct (List.find _ _); [case_bool_decide; [done|]|]; by apply update_coherent. }
  assert (P : nc_peers (cm_inner st') = upsert_rows peer (nc_peers (cm_inner st))) by by apply upsert_refines.
  unfold find_peer_by_node_id. rewrite bool_decide_eq_false_2, C', P by done.
  split; [apply upsert_rows_found|]. split; [apply upsert_rows_from|]. split; [apply upsert_rows_one_each|apply upsert_rows_length].
Qed.
End Roster.

(** ** Runs *)

Module StoreRuns.
#[local] Existing Instance ToyToml.toy_toml.
#[local] Existing Instance ToyToml.toy_toml_laws.
Definition fp (l : bytes) : Z := foldl (fun a b => a * 256 + b) 1 l.

Definition set_epoch (n : Z) (c : NetworkConfig) : NetworkConfig := c <| nc_vip_epoch := n |>.
Definition set_tick (n : Z) (c : NetworkConfig) : NetworkConfig := c <| nc_pace_tick_us := n |>.

(** The program has loaded a file with tick 50. *)
Definition loaded : ConfigManager := store_run fp [EvLoad true] (new_manager (Some [0; 50])).



Definition row (node vip : string) : PeerInfo := mkPeerInfo node EmptyString vip EmptyString 0.

Lemma roster_upsert_witness :
  find_peer_by_node_id "a" (upsert_member_roster_peer fp true (row "a" "10.0.0.2") (store_run fp [EvLoad true] (new_manager (Some [0; 50])))) =
  Some (row "a" "10.0.0.2").
Proof. apply (roster_upsert fp (Some [0; 50]) [EvLoad true] true (row "a" "10.0.0.2")); [done|vm_compute; congruence]. Defined.

(** An edit that lands while the saving thread holds a configuration reaches the file but not the live
    configuration, and the fingerprint then says that it is known: the next save undoes it. *)
Lemma edit_seen_by_saver_lost :
  let st := store_run fp [EvUpdate true (set_epoch 1); EvTake; EvEdit (Some [0; 99]); EvAbsorb true; EvWrite true; EvMark] loaded in
  cm_disk st = Some [1; 99] /\ cm_disk (store_run fp (EvUpdate true (set_epoch 2) :: save_round) st) = Some [2; 50].
Proof. by vm_compute. Qed.

(** Between the rename and the recording of its fingerprint the program's own file counts as an edit:
    an update in that moment takes the older performance fields back. *)
Lemma own_write_undoes_setting :
  let st := store_run fp [EvUpdate true (set_epoch 1); EvTake; EvAbsorb true; EvUpdate true (set_tick 99); EvWrite true] loaded in
  nc_pace_tick_us (cm_inner st) = 99 /\
  let st := store_run fp [EvUpdate true (set_epoch 2); EvMark] st in
  nc_pace_tick_us (cm_inner st) = 50 /\ cm_disk (store_run fp save_round st) = Some [2; 50].
Proof. by vm_compute. Qed.

(** A save that was queued before the configuration was cleared writes the file again. *)
Lemma cleared_file_returns :
  cm_disk (store_run fp (EvUpdate true (set_epoch 1) :: EvClear :: save_round) loaded) = Some [1; 50].
Proof. by vm_compute. Qed.

(** A changed file that is not UTF-8 is overwritten. *)
Lemma undecodable_overwritten :
  cm_disk (store_run fp (EvUpdate true (set_epoch 1) :: save_round) (loaded <| cm_disk := Some [255; 254; 91; 0] |>)) = Some [1; 50].
Proof. by vm_compute. Qed.

(** A node that takes over the address of another row: two rows with one address. *)
Lemma two_rows_one_address :
  let st := upsert_member_roster_peer fp true (row "b" "10.0.0.3") (upsert_member_roster_peer fp true (row "a" "10.0.0.2") loaded) in
  map pi_virtual_ip (nc_peers (cm_inner (upsert_member_roster_peer fp true (row "a" "10.0.0.3") st))) = ["10.0.0.3"; "10.0.0.3"]%string.
Proof. by vm_compute. Qed.
End StoreRuns.
