(* ===== verification/PeerCache.v ===== *)
(** * The endpoint cache (src/peer_cache.rs, its worker and the seeding of routes in src/engine_bootstrap.rs)

    The endpoints each virtual address was last seen at, most recent first, kept in a JSON file between
    runs.  The worker that owns the cache receives what the engine learns through a queue, saves once a
    second, and forgets everything on a reset; its loop chooses among what is ready, so a run is a list
    of the choices.  Pretty printing belongs to the serde_json crate ([JsonPretty]).

    The theorems: whatever the file holds, the loaded cache is well formed; what is saved is loaded
    again, except for what expired; a reset leaves nothing that was learned before it. *)

From Stdlib Require Import Ascii String.
From S2P Require Import Prelude Text Float Json Tuning Routing Members Config.
#[local] Open Scope Z_scope.

Definition MAX_ENDPOINTS_PER_VIP : Z := 32.
Definition ENDPOINT_TTL_SECS : Z := 7 * 24 * 3600.

Record CachedEndpoint := mkCached { ce_endpoint : string; ce_last_seen_epoch_s : Z }.
#[export] Instance CachedEndpoint_eq_dec : EqDecision CachedEndpoint.
Proof. solve_decision. Defined.

(** [PeerCache], its one field. *)
Abbreviation PeerCache := (gmap string (list CachedEndpoint)).

(** [serde_json::to_vec_pretty]. *)
Class JsonPretty := { json_pretty : Json -> bytes }.
Class JsonPrettyLaws `{JsonText} `{JsonPretty} : Prop := {
  pretty_roundtrip : forall v, json_ok v = true -> json_parse (json_pretty v) = Some v;
  pretty_is_text : forall v, json_ok v = true -> utf8 (json_pretty v) = true;
  pretty_not_blank : forall v, trim (json_pretty v) <> []
}.

Definition is_ipv4 (v : string) : bool := match parse_ipv4 (str_bytes v) with Some _ => true | None => false end.

(** ** Lists of endpoints *)

Definition expired (now_s : Z) (ce : CachedEndpoint) : bool := ENDPOINT_TTL_SECS <? sat_sub now_s (ce_last_seen_epoch_s ce).

(** The loop of [normalized_endpoints] and of [normalize_cache], with the list so far and the set [seen_ep]. *)
Fixpoint normalize_from (now_s : Z) (out : list CachedEndpoint) (seen : gset string) (l : list CachedEndpoint) : list CachedEndpoint :=
  match l with
  | [] => out
  | ce :: l =>
      if bool_decide (ce_endpoint ce = EmptyString) then normalize_from now_s out seen l
      else if expired now_s ce then normalize_from now_s out seen l
      else
        let fresh := bool_decide (ce_endpoint ce ∉ seen) in
        let seen := {[ce_endpoint ce]} ∪ seen in
        let out := if fresh then out ++ [ce] else out in
        if MAX_ENDPOINTS_PER_VIP <=? len out then out else normalize_from now_s out seen l
  end.
Definition normalized_endpoints (l : list CachedEndpoint) (now_s : Z) : list CachedEndpoint := normalize_from now_s [] ∅ l.

(** An entry that is kept only when its list is not empty. *)
Definition keep_list (l : list CachedEndpoint) : option (list CachedEndpoint) := match l with [] => None | _ => Some l end.

Definition normalize_cache (cache : PeerCache) (now_s : Z) : PeerCache :=
  map_imap (fun v l => if is_ipv4 v then keep_list (normalized_endpoints l now_s) else None) cache.

(** The keys of an object are in order. *)
Definition by_key (x y : string * Json) : Prop := str_le x.1 y.1.
#[export] Instance by_key_dec : RelDecision by_key.
Proof. intros x y. unfold by_key. apply _. Defined.

Section Cache.
Context `{JsonText} `{JsonPretty} `{AddrText}.

Definition is_addr (s : string) : bool := match parse_addr s with Some _ => true | None => false end.

Definition parse_endpoint (now_s : Z) (el : Json) : option CachedEndpoint :=
  match el with
  | JStr s => if is_addr s then Some (mkCached s now_s) else None
  | JObj _ =>
      let ep := str_field "endpoint" el in
      if is_addr ep then Some (mkCached ep (default now_s (get "last_seen_epoch_s" el ≫= as_u64))) else None
  | _ => None
  end.
Definition parse_endpoint_list (v : Json) (now_s : Z) : list CachedEndpoint :=
  match as_array v with Some arr => omap (parse_endpoint now_s) arr | None => [] end.

(** ** Loading and saving *)

Definition load_entry (now_s : Z) (cache : PeerCache) (x : string * Json) : PeerCache :=
  if is_ipv4 x.1 then match parse_endpoint_list x.2 now_s with [] => cache | l => <[x.1 := l]> cache end else cache.

(** The clock is read once for the entries and once more when the cache is normalized; [None] is the error of a file
    that cannot be read as text. *)
Definition load_peer_cache (file : option bytes) (now_s norm_s : Z) : option PeerCache :=
  match file with
  | None => Some ∅
  | Some raw =>
      if utf8 raw then
        Some (match trim raw with
              | [] => ∅
              | _ =>
                  match json_parse raw with
                  | None => ∅
                  | Some v =>
                      let cache := match get "by_vip" v with Some (JObj fields) => foldl (load_entry now_s) ∅ fields | _ => ∅ end in
                      normalize_cache cache norm_s
                  end
              end)
      else None
  end.

Definition endpoint_json (ce : CachedEndpoint) : Json :=
  JObj [("endpoint", JStr (ce_endpoint ce)); ("last_seen_epoch_s", JInt (ce_last_seen_epoch_s ce))]%string.
Definition endpoints_json (l : list CachedEndpoint) : Json := JArr (endpoint_json <$> l).

Definition cache_json (cache : PeerCache) : Json :=
  JObj [("by_vip"%string, JObj (merge_sort by_key (map_to_list (endpoints_json <$> cache))))].

(** What is written; the file is replaced by renaming a temporary one over it. *)
Definition save_peer_cache (cache : PeerCache) (now_s : Z) : bytes :=
  json_pretty (cache_json (map_imap (fun v l => if is_ipv4 v then keep_list (normalized_endpoints l now_s) else None) cache)).

Definition truncate (l : list CachedEndpoint) : list CachedEndpoint := take (Z.to_nat MAX_ENDPOINTS_PER_VIP) l.

(** [position] and [remove]. *)
Fixpoint take_out (endpoint : string) (l : list CachedEndpoint) : option (CachedEndpoint * list CachedEndpoint) :=
  match l with
  | [] => None
  | ce :: l =>
      if bool_decide (ce_endpoint ce = endpoint) then Some (ce, l)
      else match take_out endpoint l with Some (x, l) => Some (x, ce :: l) | None => None end
  end.

Definition remember_endpoint (cache : PeerCache) (v endpoint : string) (now_s : Z) : PeerCache :=
  if negb (is_ipv4 v) then cache
  else if negb (is_addr endpoint) then cache
  else
    let l := default [] (cache !! v) in
    let l := match take_out endpoint l with
             | Some (existing, rest) => mkCached (ce_endpoint existing) now_s :: rest
             | None => mkCached endpoint now_s :: l
             end in
    <[v := truncate l]> cache.

(** ** The worker *)

Record CacheWorker := mkWorker { cw_queue : list (string * string); cw_cache : PeerCache; cw_dirty : bool; cw_file : option bytes }.

Inductive WorkerStep :=
| WkLearned (v endpoint : string)
| WkReceive (now_s : Z)
| WkTick (now_s : Z) (writable : bool)
| WkReset (removed : bool)
| WkClose (now_s : Z) (writable : bool).

Definition worker_save (now_s : Z) (writable : bool) (w : CacheWorker) : CacheWorker :=
  if cw_dirty w then mkWorker (cw_queue w) (cw_cache w) false (if writable then Some (save_peer_cache (cw_cache w) now_s) else cw_file w) else w.

Definition cache_worker_step (w : CacheWorker) (s : WorkerStep) : CacheWorker :=
  match s with
  | WkLearned v endpoint => mkWorker (cw_queue w ++ [(v, endpoint)]) (cw_cache w) (cw_dirty w) (cw_file w)
  | WkReceive now_s =>
      match cw_queue w with
      | [] => w
      | (v, endpoint) :: queue => mkWorker queue (remember_endpoint (cw_cache w) v endpoint now_s) true (cw_file w)
      end
  | WkTick now_s writable => worker_save now_s writable w
  | WkReset removed => mkWorker [] ∅ false (if removed then None else cw_file w)
  | WkClose now_s writable => match cw_queue w with [] => worker_save now_s writable w | _ => w end
  end.
Definition cache_worker_run (w : CacheWorker) (l : list WorkerStep) : CacheWorker := foldl cache_worker_step w l.

(** ** Routes at the start *)

Definition seed_peer (now : Instant) (my_vip : string) (t : RoutingTable) (p : PeerInfo) : RoutingTable :=
  if bool_decide (pi_virtual_ip p = EmptyString) || bool_decide (pi_virtual_ip p = my_vip) then t
  else match parse_addr (pi_real_ip p) with
       | Some ep => rt_update t (pi_virtual_ip p) ep (if bool_decide (pi_node_id p = EmptyString) then None else Some (pi_node_id p)) now
       | None => t
       end.
Definition seed_cached (now : Instant) (v : string) (t : RoutingTable) (ce : CachedEndpoint) : RoutingTable :=
  match parse_addr (ce_endpoint ce) with Some ep => rt_update t v ep None now | None => t end.

Definition seed_routes `{HashIter} (cfg : NetworkConfig) (cache : PeerCache) (now : Instant) : RoutingTable :=
  let t := new_table now in
  let t := if bool_decide (nc_virtual_ip cfg = EmptyString) then t else foldl (seed_peer now (nc_virtual_ip cfg)) t (nc_peers cfg) in
  foldl (fun t x => foldl (seed_cached now x.1) t x.2) t (hm_iter cache).
End Cache.

(** ** Well-formed caches *)

Section Facts.
Context `{JsonText} `{JsonPretty} `{AddrText}.
Abbreviation eps := (fmap ce_endpoint).

Definition endpoints_ok (l : list CachedEndpoint) : Prop :=
  l <> [] /\ len l <= MAX_ENDPOINTS_PER_VIP /\ NoDup (eps l) /\
  Forall (fun ce => is_addr (ce_endpoint ce) = true /\ ce_endpoint ce <> EmptyString) l.
Definition cache_ok (c : PeerCache) : Prop := map_Forall (fun v l => is_ipv4 v = true /\ endpoints_ok l) c.

Lemma len_snoc {A} (l : list A) x : len (l ++ [x]) = len l + 1.
Proof. unfold len. rewrite length_app. cbn. lia. Qed.

Lemma normalize_from_spec now_s l : forall out seen,
  (forall x, x ∈ seen <-> x ∈ eps out) -> NoDup (eps out) -> len out < MAX_ENDPOINTS_PER_VIP ->
  exists k, normalize_from now_s out seen l = out ++ k /\ sublist k l /\ NoDup (eps (out ++ k)) /\ len (out ++ k) <= MAX_ENDPOINTS_PER_VIP /\
    Forall (fun ce => ce_endpoint ce <> EmptyString /\ expired now_s ce = false) k.
Proof.
  induction l as [|ce l IH]; intros out seen S N L; cbn [normalize_from]; [exists []; rewrite app_nil_r; split_and!; try done; lia|].
  assert (skip : exists k, normalize_from now_s out seen l = out ++ k /\ sublist k (ce :: l) /\ NoDup (eps (out ++ k)) /\ len (out ++ k) <= MAX_ENDPOINTS_PER_VIP /\
    Forall (fun ce => ce_endpoint ce <> EmptyString /\ expired now_s ce = false) k).
  { destruct (IH out seen S N L) as (k & E & K & R). exists k. split; [done|]. split; [by constructor|done]. }
  case_bool_decide as E1; [done|]. destruct (expired now_s ce) eqn:E2; [done|]. cbv zeta. case_bool_decide as E3.
  - assert (S' : forall x, x ∈ ({[ce_endpoint ce]} ∪ seen : gset string) <-> x ∈ eps (out ++ [ce])) by (intros x; rewrite fmap_app; cbn; set_solver).
    assert (N' : NoDup (eps (out ++ [ce]))).
    { rewrite fmap_app. apply NoDup_app. split_and!; [done| |apply NoDup_singleton]. cbn. set_solver. }
    destruct (Z.leb_spec MAX_ENDPOINTS_PER_VIP (len (out ++ [ce]))) as [F|F].
    + exists [ce]. rewrite len_snoc. split_and!; [done|apply sublist_skip, sublist_nil_l|done|lia|by repeat constructor].
    + destruct (IH _ _ S' N' ltac:(lia)) as (k & -> & K & N2 & L2 & F2). exists (ce :: k). rewrite <- app_assoc in *. cbn in *.
      split_and!; try done; [by constructor|by constructor].
  - assert (S' : forall x, x ∈ ({[ce_endpoint ce]} ∪ seen : gset string) <-> x ∈ eps out) by (intros x; set_solver).
    destruct (_ <=? _); [exists []; rewrite app_nil_r; split_and!; try done; [apply sublist_nil_l|lia]|].
    destruct (IH _ _ S' N L) as (k & -> & K & R). exists k. split; [done|]. split; [by constructor|done].
Qed.

Lemma keep_list_Some l k : keep_list l = Some k <-> k = l /\ l <> [].
Proof. destruct l; cbn; naive_solver. Qed.

Lemma normalized_ok l now_s : Forall (fun ce => is_addr (ce_endpoint ce) = true) l -> forall k, keep_list (normalized_endpoints l now_s) = Some k -> endpoints_ok k.
Proof.
  intros A k. destruct (normalize_from_spec now_s l [] ∅) as (r & E & S & N & L & F); [set_solver|constructor|done|]. unfold normalized_endpoints. rewrite E. cbn in *.
  intros [-> R]%keep_list_Some. split_and!; [done|done|done|]. apply Forall_and. split.
  - apply Forall_forall. intros y Y. rewrite Forall_forall in A. apply A. by apply (sublist_subseteq _ _ S).
  - eapply Forall_impl; [exact F|]. by intros y [? _].
Qed.

Lemma parse_endpoint_addr now_s el ce : parse_endpoint now_s el = Some ce -> is_addr (ce_endpoint ce) = true.
Proof. destruct el; cbn -[str_field get]; try done; destruct (is_addr _) eqn:E; try done; by intros [= <-]. Qed.

Lemma parse_list_addr v now_s : Forall (fun ce => is_addr (ce_endpoint ce) = true) (parse_endpoint_list v now_s).
Proof.
  unfold parse_endpoint_list. destruct (as_array v) as [arr|]; [|constructor]. apply Forall_forall. intros ce (el & _ & E)%list_elem_of_omap.
  by eapply parse_endpoint_addr.
Qed.

Lemma load_entries_addr now_s fields : forall c, map_Forall (fun _ l => Forall (fun ce => is_addr (ce_endpoint ce) = true) l) c ->
  map_Forall (fun _ l => Forall (fun ce => is_addr (ce_endpoint ce) = true) l) (foldl (load_entry now_s) c fields).
Proof.
  induction fields as [|x fields IH]; intros c C; [done|]. cbn. apply IH. unfold load_entry. destruct (is_ipv4 x.1); [|done].
  pose proof (parse_list_addr x.2 now_s) as A. destruct (parse_endpoint_list x.2 now_s); [done|]. by apply map_Forall_insert_2.
Qed.

Lemma normalize_cache_ok c now_s : map_Forall (fun _ l => Forall (fun ce => is_addr (ce_endpoint ce) = true) l) c -> cache_ok (normalize_cache c now_s).
Proof.
  intros C v l. unfold normalize_cache. rewrite map_lookup_imap. destruct (c !! v) as [l0|] eqn:E; [|done]. cbn. destruct (is_ipv4 v) eqn:V; [|done].
  intros K. split; [done|]. by eapply normalized_ok; [apply (C v)|].
Qed.

Lemma empty_cache_ok : cache_ok ∅.
Proof. apply map_Forall_empty. Qed.

(** Whatever the cache file holds, garbage included, the cache that is loaded is well formed: every key is an IPv4
    address, every list is nonempty, has at most 32 entries, no endpoint twice, and only socket addresses. *)
Theorem loaded_cache_ok file now_s norm_s c : load_peer_cache file now_s norm_s = Some c -> cache_ok c.
Proof.
  unfold load_peer_cache. destruct file as [raw|]; [|intros [= <-]; apply empty_cache_ok]. destruct (utf8 raw); [|done]. intros [= <-].
  destruct (trim raw); [apply empty_cache_ok|]. destruct (json_parse raw) as [v|]; [|apply empty_cache_ok]. apply normalize_cache_ok.
  destruct (get _ v) as [[]|]; try apply map_Forall_empty. apply load_entries_addr, map_Forall_empty.
Qed.

(** ** Remembering *)

Lemma take_out_spec endpoint l x rest : take_out endpoint l = Some (x, rest) ->
  ce_endpoint x = endpoint /\ Permutation l (x :: rest) /\ sublist rest l.
Proof.
  revert rest. induction l as [|ce l IH]; cbn; intros rest; [done|]. case_bool_decide as E; [intros [= <- <-]; split_and!; [done|done|by constructor]|].
  destruct (take_out endpoint l) as [[y k]|]; [|done]. intros [= <- <-]. destruct (IH k eq_refl) as (E1 & E2 & E3).
  split_and!; [done|rewrite E2; constructor|by constructor].
Qed.
Lemma take_out_none endpoint l : take_out endpoint l = None -> endpoint ∉ eps l.
Proof.
  induction l as [|ce l IH]; cbn; [set_solver|]. case_bool_decide; [done|]. destruct (take_out endpoint l) as [[y k]|]; [done|]. set_solver.
Qed.

(** The list with the endpoint moved, or added, to its front. *)
Definition moved_to_front (endpoint : string) (now_s : Z) (l : list CachedEndpoint) : list CachedEndpoint :=
  match take_out endpoint l with Some (x, rest) => mkCached (ce_endpoint x) now_s :: rest | None => mkCached endpoint now_s :: l end.

Lemma moved_to_front_spec endpoint now_s l : NoDup (eps l) -> exists rest,
  moved_to_front endpoint now_s l = mkCached endpoint now_s :: rest /\ sublist rest l /\ NoDup (eps (mkCached endpoint now_s :: rest)).
Proof.
  intros N. unfold moved_to_front. destruct (take_out endpoint l) as [[x rest]|] eqn:T.
  - apply take_out_spec in T as (<- & P & S). exists rest. split_and!; [done|done|]. rewrite P in N. done.
  - apply take_out_none in T. exists l. split_and!; [done|done|]. cbn. by constructor.
Qed.

Lemma remember_ok c v endpoint now_s : cache_ok c -> is_addr EmptyString = false -> cache_ok (remember_endpoint c v endpoint now_s).
Proof.
  intros C Z. unfold remember_endpoint. destruct (is_ipv4 v) eqn:V; [|done]. destruct (is_addr endpoint) eqn:A; [|done]. cbn [negb].
  fold (moved_to_front endpoint now_s (default [] (c !! v))).
  assert (L : NoDup (eps (default [] (c !! v))) /\ Forall (fun ce => is_addr (ce_endpoint ce) = true /\ ce_endpoint ce <> EmptyString) (default [] (c !! v))).
  { destruct (c !! v) as [l|] eqn:E; [|by split; constructor]. destruct (C v l E) as (_ & _ & _ & N & F). done. }
  destruct L as [N F]. destruct (moved_to_front_spec endpoint now_s _ N) as (rest & -> & S & N').
  apply map_Forall_insert_2; [|done]. split; [done|]. unfold truncate. split_and!; [done|..].
  - unfold len. rewrite length_take. unfold MAX_ENDPOINTS_PER_VIP. lia.
  - eapply sublist_NoDup; [exact N'|]. apply fmap_sublist, sublist_take.
  - apply Forall_take. constructor; [split; [done|]; cbn; intros ->; by rewrite A in Z|]. apply Forall_forall. intros y Y%(sublist_subseteq _ _ S).
    rewrite Forall_forall in F. by apply F.
Qed.

(** ** Expiry *)

(** What is left of a cache at a time: the entries that have not expired. *)
Definition alive_list (now_s : Z) (l : list CachedEndpoint) : list CachedEndpoint := List.filter (fun ce => negb (expired now_s ce)) l.
Definition alive (now_s : Z) (c : PeerCache) : PeerCache := omap (fun l => keep_list (alive_list now_s l)) c.

Lemma normalize_exact now_s l : forall out seen, (forall x, x ∈ seen <-> x ∈ eps out) -> NoDup (eps (out ++ l)) -> len (out ++ l) <= MAX_ENDPOINTS_PER_VIP ->
  Forall (fun ce => ce_endpoint ce <> EmptyString) l -> normalize_from now_s out seen l = out ++ alive_list now_s l.
Proof.
  induction l as [|ce l IH]; intros out seen S N L F; [cbn; by rewrite app_nil_r|]. inversion_clear F as [|?? F1 F2]. cbn [normalize_from].
  change (alive_list now_s (ce :: l)) with (if negb (expired now_s ce) then ce :: alive_list now_s l else alive_list now_s l). rewrite bool_decide_eq_false_2 by done.
  assert (N1 : NoDup (eps (out ++ l)) /\ ce_endpoint ce ∉ eps out).
  { rewrite !fmap_app in *. cbn in N. apply NoDup_app in N as (A & B & C). apply NoDup_cons in C as [C D]. split; [|set_solver]. apply NoDup_app. set_solver. }
  assert (L1 : len (out ++ l) <= MAX_ENDPOINTS_PER_VIP) by (unfold len in *; rewrite length_app in *; cbn in L; lia).
  destruct (expired now_s ce); cbn [negb]; [apply IH; [done|apply N1|done|done]|]. rewrite bool_decide_eq_true_2 by (rewrite S; apply N1). cbv zeta.
  rewrite (cons_middle ce out (alive_list now_s l)), app_assoc. destruct (Z.leb_spec MAX_ENDPOINTS_PER_VIP (len (out ++ [ce]))) as [G|G].
  - destruct l as [|y l]; [cbn; by rewrite app_nil_r|]. unfold len in *. rewrite !length_app in *. cbn in *. lia.
  - apply IH; [|by rewrite <- app_assoc|by rewrite <- app_assoc|done]. intros x. rewrite fmap_app. cbn. set_solver.
Qed.

Lemma normalized_exact now_s l : endpoints_ok l -> normalized_endpoints l now_s = alive_list now_s l.
Proof.
  intros (_ & L & N & F). apply (normalize_exact now_s l [] ∅); [set_solver|done|done|]. eapply Forall_impl; [exact F|]. by intros y [_ ?].
Qed.

Lemma normalize_cache_alive now_s c : cache_ok c -> normalize_cache c now_s = alive now_s c.
Proof.
  intros C. apply map_eq. intros v. unfold normalize_cache, alive. rewrite map_lookup_imap, lookup_omap. destruct (c !! v) as [l|] eqn:E; [|done]. cbn.
  destruct (C v l E) as [-> O]. by rewrite normalized_exact.
Qed.

Lemma alive_alive now_s later c : now_s <= later -> alive later (alive now_s c) = alive later c.
Proof.
  intros T. apply map_eq. intros v. unfold alive. rewrite !lookup_omap. destruct (c !! v) as [l|]; [|done]. cbn.
  assert (E : alive_list later (alive_list now_s l) = alive_list later l).
  { unfold alive_list. induction l as [|ce l IH]; cbn; [done|]. destruct (expired now_s ce) eqn:X; cbn; [|by rewrite IH]. rewrite IH.
    unfold expired in *. apply Z.ltb_lt in X. rewrite (proj2 (Z.ltb_lt _ _)); [done|]. unfold sat_sub in *. lia. }
  destruct (alive_list now_s l) as [|x k] eqn:A; cbn [keep_list mbind option_bind]; by rewrite <- E.
Qed.

Lemma alive_sub now_s c v l : alive now_s c !! v = Some l -> exists l0, c !! v = Some l0 /\ l = alive_list now_s l0 /\ l <> [].
Proof. unfold alive. rewrite lookup_omap. destruct (c !! v) as [l0|]; [|done]. cbn. intros [-> N]%keep_list_Some. by exists l0. Qed.

(** ** Text *)

Definition endpoint_text_ok (ce : CachedEndpoint) : Prop := text_ok (ce_endpoint ce) = true /\ 0 <= ce_last_seen_epoch_s ce <= U64_MAX.
Definition cache_text_ok (c : PeerCache) : Prop := map_Forall (fun v l => text_ok v = true /\ Forall endpoint_text_ok l) c.

Lemma alive_text now_s c : cache_text_ok c -> cache_text_ok (alive now_s c).
Proof.
  intros T v l (l0 & E & -> & _)%alive_sub. destruct (T v l0 E) as [V F]. split; [done|]. apply Forall_forall. intros ce I.
  unfold alive_list in I. rewrite list_elem_of_In, filter_In, <- list_elem_of_In in I. rewrite Forall_forall in F. apply F, I.
Qed.

Lemma endpoint_json_ok ce : endpoint_text_ok ce -> json_ok (endpoint_json ce) = true.
Proof.
  intros [T R]. change (json_ok (endpoint_json ce)) with
    ((true && text_ok (ce_endpoint ce) && (true && ((- 2 ^ 63 <=? ce_last_seen_epoch_s ce) && (ce_last_seen_epoch_s ce <=? U64_MAX)) && true)) && true).
  rewrite T. cbn [andb]. rewrite !andb_true_r. apply andb_true_iff. split; [apply Z.leb_le|apply Z.leb_le; lia]. lia.
Qed.

Lemma endpoint_read now_s ce : endpoint_text_ok ce -> is_addr (ce_endpoint ce) = true -> parse_endpoint now_s (endpoint_json ce) = Some ce.
Proof.
  intros [_ R] A. unfold parse_endpoint, endpoint_json. change (str_field "endpoint" _) with (ce_endpoint ce). rewrite A.
  change (get "last_seen_epoch_s" _) with (Some (JInt (ce_last_seen_epoch_s ce))). cbn [mbind option_bind as_u64].
  rewrite (proj2 (Z.leb_le _ _)), (proj2 (Z.leb_le _ _)) by lia. by destruct ce.
Qed.

Lemma endpoints_read now_s l : Forall endpoint_text_ok l -> Forall (fun ce => is_addr (ce_endpoint ce) = true) l ->
  parse_endpoint_list (endpoints_json l) now_s = l.
Proof.
  intros T A. unfold parse_endpoint_list, endpoints_json. cbn [as_array]. induction l as [|ce l IH]; [done|]. inversion_clear T. inversion_clear A.
  cbn [fmap list_fmap omap list_omap]. rewrite endpoint_read by done. f_equal. by apply IH.
Qed.

Instance by_key_total : Total by_key.
Proof. intros x y. apply str_le_total. Qed.

Lemma sorted_ascending (l : list (string * Json)) : Sorted by_key l -> NoDup l.*1 -> ascending l.*1 = true.
Proof.
  induction l as [|x l IH]; intros S N; [done|]. inversion_clear S as [|?? S1 S2]. cbn [fmap list_fmap] in *. apply NoDup_cons in N as [N1 N2].
  specialize (IH S1 N2). destruct l as [|y l]; [done|]. cbn [fmap list_fmap] in *. inversion_clear S2 as [|?? B].
  change (str_lt x.1 y.1 && ascending (y.1 :: l.*1) = true). rewrite IH, andb_true_r. unfold by_key in B.
  destruct (str_lt_trichotomy x.1 y.1) as [?|[E|E]]; [done|set_solver|]. apply str_le_iff in B. congruence.
Qed.

Abbreviation fields_of c := (merge_sort by_key (map_to_list (endpoints_json <$> c))).

Lemma fields_elem (c : PeerCache) x : x ∈ fields_of c -> exists l, c !! x.1 = Some l /\ x.2 = endpoints_json l.
Proof.
  rewrite merge_sort_Permutation. destruct x as [v j]. intros I%elem_of_map_to_list. rewrite lookup_fmap in I. apply fmap_Some in I as (l & E & ->). by exists l.
Qed.

Lemma cache_json_ok c : cache_text_ok c -> json_ok (cache_json c) = true.
Proof.
  intros T. set (b := json_ok (JObj (fields_of c))). change (json_ok (cache_json c)) with ((true && b && true) && true). enough (b = true) as -> by done.
  unfold b. cbn [json_ok]. apply andb_true_iff. split.
  - apply forallb_forall. intros x (l & E & ->)%list_elem_of_In%fields_elem. destruct (T _ _ E) as [-> F]. cbn [andb]. unfold endpoints_json. cbn [json_ok].
    apply forallb_forall. intros j (ce & -> & I)%list_elem_of_In%list_elem_of_fmap. apply endpoint_json_ok. rewrite Forall_forall in F. by apply F.
  - apply sorted_ascending; [apply (Sorted_merge_sort by_key)|]. rewrite merge_sort_Permutation. apply NoDup_fst_map_to_list.
Qed.

Lemma fields_read now_s c : cache_text_ok c -> cache_ok c -> forall l m, (forall x, x ∈ l -> exists k, c !! x.1 = Some k /\ x.2 = endpoints_json k) ->
  forall v, foldl (load_entry now_s) m l !! v = if decide (v ∈ l.*1) then c !! v else m !! v.
Proof.
  intros T C. induction l as [|x l IH]; intros m F v; [done|]. cbn [foldl]. rewrite IH by set_solver. destruct (F x) as (k & E & J); [set_solver|].
  destruct (T _ _ E) as [_ TK]. destruct (C _ _ E) as (V & NE & _ & _ & A).
  assert (L : load_entry now_s m x = <[x.1 := k]> m).
  { unfold load_entry. rewrite V, J, endpoints_read; [by destruct k|done|]. eapply Forall_impl; [exact A|]. by intros y [? _]. }
  rewrite L. destruct (decide (v ∈ l.*1)) as [I|I]; [rewrite decide_True by set_solver; done|]. destruct (decide (v = x.1)) as [->|N].
  - rewrite lookup_insert_eq, decide_True by set_solver. done.
  - rewrite lookup_insert_ne, decide_False by set_solver. done.
Qed.

Lemma cache_read now_s c : cache_text_ok c -> cache_ok c -> foldl (load_entry now_s) ∅ (fields_of c) = c.
Proof.
  intros T C. apply map_eq. intros v. rewrite (fields_read now_s c T C) by apply fields_elem. destruct (decide _) as [I|I]; [done|]. rewrite lookup_empty.
  destruct (c !! v) as [l|] eqn:E; [|done]. destruct I. apply list_elem_of_fmap. exists (v, endpoints_json l). split; [done|].
  rewrite merge_sort_Permutation. apply elem_of_map_to_list. by rewrite lookup_fmap, E.
Qed.

Lemma alive_ok now_s c : cache_ok c -> cache_ok (alive now_s c).
Proof.
  intros C. rewrite <- normalize_cache_alive by done. apply normalize_cache_ok. intros v l E. destruct (C v l E) as (_ & _ & _ & _ & F).
  eapply Forall_impl; [exact F|]. by intros y [? _].
Qed.

Lemma saved_loads `{!JsonPrettyLaws} c now_s n1 n2 : cache_ok c -> cache_text_ok c -> now_s <= n2 ->
  load_peer_cache (Some (save_peer_cache c now_s)) n1 n2 = Some (alive n2 c).
Proof.
  intros C T L. assert (S : save_peer_cache c now_s = json_pretty (cache_json (alive now_s c))).
  { unfold save_peer_cache. do 2 f_equal. exact (normalize_cache_alive now_s c C). }
  rewrite S. pose proof (cache_json_ok _ (alive_text now_s c T)) as O. cbn [load_peer_cache]. rewrite pretty_is_text, pretty_roundtrip by done.
  pose proof (pretty_not_blank (cache_json (alive now_s c))) as B. destruct (trim _); [done|]. f_equal.
  change (get "by_vip" (cache_json (alive now_s c))) with (Some (JObj (fields_of (alive now_s c)))). cbv beta iota zeta.
  rewrite cache_read by (apply alive_text || apply alive_ok; done). rewrite normalize_cache_alive by by apply alive_ok. by rewrite alive_alive.
Qed.

(** ** The worker *)

Definition message_ok (x : string * string) : Prop := text_ok x.1 = true /\ text_ok x.2 = true.
Definition step_ok (s : WorkerStep) : Prop :=
  match s with WkLearned v endpoint => message_ok (v, endpoint) | WkReceive now_s => 0 <= now_s <= U64_MAX | _ => True end.

Lemma remember_text c v endpoint now_s : cache_text_ok c -> message_ok (v, endpoint) -> 0 <= now_s <= U64_MAX ->
  cache_text_ok (remember_endpoint c v endpoint now_s).
Proof.
  intros T [V E] R. unfold remember_endpoint. destruct (is_ipv4 v); [|done]. destruct (is_addr endpoint); [|done]. cbn [negb].
  fold (moved_to_front endpoint now_s (default [] (c !! v))). apply map_Forall_insert_2; [|done]. split; [done|]. apply Forall_take.
  assert (F : Forall endpoint_text_ok (default [] (c !! v))) by (destruct (c !! v) as [l|] eqn:L; [apply (T _ _ L)|constructor]).
  unfold moved_to_front. destruct (take_out _ _) as [[x rest]|] eqn:K.
  - apply take_out_spec in K as (<- & P & _). rewrite P in F. inversion_clear F. by constructor.
  - by constructor.
Qed.

Record worker_ok (w : CacheWorker) : Prop := {
  wk_cache : cache_ok (cw_cache w); wk_text : cache_text_ok (cw_cache w); wk_queue : Forall message_ok (cw_queue w)
}.

Lemma worker_step_ok w s : is_addr EmptyString = false -> worker_ok w -> step_ok s -> worker_ok (cache_worker_step w s).
Proof.
  intros Z W S. pose proof W as [C T Q]. assert (V : forall now_s writable, worker_ok (worker_save now_s writable w)).
  { intros now_s writable. unfold worker_save. by destruct (cw_dirty w). }
  destruct s as [v endpoint|now_s|now_s writable|removed|now_s writable]; cbn; [..|by destruct (cw_queue w)].
  - split; [done|done|]. cbn. apply Forall_app. split; [done|]. by apply Forall_singleton.
  - destruct (cw_queue w) as [|[v endpoint] queue]; [done|]. inversion_clear Q. split; cbn; [by apply remember_ok|by apply remember_text|done].
  - apply V.
  - split; [apply empty_cache_ok|apply map_Forall_empty|constructor].
Qed.
Lemma worker_run_ok l : forall w, is_addr EmptyString = false -> worker_ok w -> Forall step_ok l -> worker_ok (cache_worker_run w l).
Proof. induction l as [|s l IH]; intros w Z W F; [done|]. inversion_clear F. apply IH; [done|by apply worker_step_ok|done]. Qed.

(** C35. However the worker has run since it started with the cache of some file, when it saves what it learned, the
    next start loads exactly the worker's cache, in the same order, without the entries that expired meanwhile. *)
Theorem worker_cache_restored `{!JsonPrettyLaws} file n0 n0' c0 l now_s n1 n2 :
  is_addr EmptyString = false -> load_peer_cache file n0 n0' = Some c0 -> cache_text_ok c0 -> Forall step_ok l -> now_s <= n2 ->
  let w := cache_worker_run (mkWorker [] c0 false file) l in
  cw_dirty w = true -> load_peer_cache (cw_file (cache_worker_step w (WkTick now_s true))) n1 n2 = Some (alive n2 (cw_cache w)).
Proof.
  intros Z L T S N w D. assert (W : worker_ok w).
  { apply worker_run_ok; [done| |done]. split; [by apply loaded_cache_ok in L|done|constructor]. }
  cbn. unfold worker_save. rewrite D. apply saved_loads; [apply W|apply W|done].
Qed.

(** Everything the worker holds, has queued or has written satisfies [P]. *)
Definition cache_within (P : string * string -> Prop) (c : PeerCache) : Prop := forall v l ce, c !! v = Some l -> ce ∈ l -> P (v, ce_endpoint ce).
Record worker_within (P : string * string -> Prop) (w : CacheWorker) : Prop := {
  ww_queue : Forall P (cw_queue w); ww_cache : cache_within P (cw_cache w);
  ww_file : cw_file w = None \/ exists c now_s, cw_file w = Some (save_peer_cache c now_s) /\ cache_within P c
}.

Lemma remember_within P c v endpoint now_s : cache_within P c -> P (v, endpoint) -> cache_within P (remember_endpoint c v endpoint now_s).
Proof.
  intros C X. unfold remember_endpoint. destruct (is_ipv4 v); [|done]. destruct (is_addr endpoint); [|done]. cbn [negb].
  fold (moved_to_front endpoint now_s (default [] (c !! v))). intros u l ce. destruct (decide (u = v)) as [->|N]; [|rewrite lookup_insert_ne by done; apply C].
  rewrite lookup_insert_eq. intros [= <-] I%subseteq_take. unfold moved_to_front in I.
  assert (F : forall y, y ∈ default [] (c !! v) -> P (v, ce_endpoint y)) by (destruct (c !! v) as [l|] eqn:L; [intros y; by apply (C v l)|set_solver]).
  destruct (take_out _ _) as [[x rest]|] eqn:K.
  - apply take_out_spec in K as (<- & Q & _). apply elem_of_cons in I as [->|I]; [done|]. apply F. rewrite Q. set_solver.
  - apply elem_of_cons in I as [->|I]; [done|]. by apply F.
Qed.

Lemma worker_step_within P w s : worker_within P w -> (forall v endpoint, s = WkLearned v endpoint -> P (v, endpoint)) -> worker_within P (cache_worker_step w s).
Proof.
  intros W S. pose proof W as [Q C F]. assert (V : forall now_s writable, worker_within P (worker_save now_s writable w)).
  { intros now_s writable. unfold worker_save. destruct (cw_dirty w); [|done]. split; cbn; [done|done|]. destruct writable; [right; by eexists _, _|done]. }
  destruct s as [v endpoint|now_s|now_s writable|removed|now_s writable]; cbn; [..|by destruct (cw_queue w)].
  - split; cbn; [|done|done]. apply Forall_app. split; [done|]. apply Forall_singleton. by apply S.
  - destruct (cw_queue w) as [|[v endpoint] queue]; [done|]. inversion_clear Q. split; cbn; [done|by apply remember_within|done].
  - apply V.
  - split; cbn; [constructor|intros v l ce; by rewrite lookup_empty|]. by destruct removed; [left|].
Qed.

Definition learned (l : list WorkerStep) (x : string * string) : Prop := WkLearned x.1 x.2 ∈ l.

(** After a reset that removed the file nothing learned before it comes back: in every later state, whatever
    interleaving of messages, saves and further resets follows, each endpoint in the queue, in the cache
    and in the file is one the engine reported after the reset. *)
Theorem reset_forgets w l : worker_within (learned l) (cache_worker_run w (WkReset true :: l)).
Proof.
  enough (G : forall k s, k ⊆ l -> worker_within (learned l) s -> worker_within (learned l) (cache_worker_run s k)).
  { apply (G l (cache_worker_step w (WkReset true))); [done|]. split; cbn; [constructor|intros v k ce; by rewrite lookup_empty|by left]. }
  induction k as [|s k IH]; intros st I W; [done|]. apply (IH (cache_worker_step st s)); [set_solver|]. apply worker_step_within; [done|].
  intros v endpoint ->. unfold learned. set_solver.
Qed.
End Facts.

(** ** Concrete runs *)

Module CacheRuns.
#[local] Existing Instance ToyJson.toy_json.
#[local] Instance toy_pretty : JsonPretty := {| json_pretty := @json_bytes ToyJson.toy_json |}.
#[local] Instance v4_addr : AddrText := {|
  show_addr _ := EmptyString;
  parse_addr s := match split_on 58 (str_bytes s) with
                  | [ip; port] => a ← parse_ipv4 ip; p ← parse_uint 65535 port; Some (mkAddr (V4 a) p)
                  | _ => None
                  end |}.

Lemma bits_ends p : exists b l, ToyJson.bits p = b :: l /\ 0 <= b <= 2 /\ exists k, ToyJson.bits p = k ++ [2].
Proof.
  induction p as [p (b & l & _ & _ & k & E)|p (b & l & _ & _ & k & E)|]; cbn.
  - exists 1, (ToyJson.bits p). split_and!; [done|lia|lia|]. exists (1 :: k). by rewrite E.
  - exists 0, (ToyJson.bits p). split_and!; [done|lia|lia|]. exists (0 :: k). by rewrite E.
  - exists 2, []. split_and!; [done|lia|lia|]. by exists [].
Qed.

Lemma bits_not_blank p : trim (ToyJson.bits p) <> [].
Proof.
  destruct (bits_ends p) as (b & l & E & B & k & K). unfold trim.
  assert (D : forall n, drop_seqs n whitespace (ToyJson.bits p) = ToyJson.bits p).
  { intros n. rewrite E. apply drop_seqs_stop. assert (b = 0 \/ b = 1 \/ b = 2) as [->|[->| ->]] by lia; by vm_compute. }
  rewrite D, K, rev_app_distr. cbn [rev app]. rewrite drop_seqs_stop by by vm_compute. cbn [rev]. by destruct (rev (rev k)).
Qed.

Lemma bits_text p : utf8 (ToyJson.bits p) = true.
Proof. by induction p. Qed.

#[local] Instance toy_pretty_laws : JsonPrettyLaws.
Proof. split; [apply ToyJson.toy_json_laws|intros v _; apply bits_text|intros v; apply bits_not_blank]. Qed.

Definition vip_a : string := "10.0.0.2".
Definition new_ep : string := "198.51.100.9:4000".
Definition old_ep : string := "203.0.113.7:4000".

Lemma loaded_cache_ok_witness : cache_ok ∅.
Proof. apply (loaded_cache_ok (Some [104; 105]) 0 0). by vm_compute. Defined.

Definition steps : list WorkerStep := [WkLearned vip_a old_ep; WkReceive 1000; WkLearned vip_a new_ep; WkReceive 2000].

Lemma worker_cache_restored_witness :
  load_peer_cache (cw_file (cache_worker_step (cache_worker_run (mkWorker [] ∅ false None) steps) (WkTick 2001 true))) 605000 605000 =
  Some {[vip_a := [mkCached new_ep 2000; mkCached old_ep 1000]]}.
Proof.
  rewrite (worker_cache_restored None 0 0 ∅ steps 2001 605000 605000); [by vm_compute|by vm_compute|done|apply map_Forall_empty| |lia|by vm_compute].
  repeat apply Forall_cons_2; try apply Forall_nil_2; split; done.
Defined.

(** The cache lists the most recent endpoint first and the routes are seeded in that order, each
    replacing the one before: the table starts from the oldest endpoint. *)
Lemma oldest_endpoint_seeded :
  rt_lookup (seed_routes (H2 := canonical_iter) default_config {[vip_a := [mkCached new_ep 2000; mkCached old_ep 1000]]} 0) vip_a = parse_addr old_ep.
Proof. by vm_compute. Qed.
End CacheRuns.
