(* ===== verification/Ticks.v ===== *)
(** * Timers of the engine and path probes on the wire (src/net/engine.rs, src/net/retransmit.rs)

    What the engine does when a timer fires: retransmissions after a tick of the pacing worker, with the
    token bucket of src/net/retransmit.rs; keepalives; punches towards routes that are not active; and the
    probes of the path MTU search, with the messages [PMTU] and [PMAR] that carry them.  The state is the
    [Forwarder] of the data path with the reliable channel, the bucket, the clock of the last sends and
    the cursor of the retries; what leaves is a trace of [TickEffect]s.  Clock readings and the answers of
    the socket are arguments.

    The theorems: the acknowledgement of a probe comes back to the search with the numbers of the probe;
    a probe is two bytes shorter than the size it tests; a retransmission goes to the socket or to the
    pacing worker, once; retries reach every endpoint in rotation; a keepalive goes to exactly the
    endpoints that were silent. *)

From S2P Require Import Prelude Text Float Packet Crypto SizeLoss Limiter CryptoPool DataPlane Reliable Fec FecRatio Pmtud Tuning Paths Routing PacingCfg Bcast PacingWorker Forward.
From Stdlib Require Import Ascii String.
#[local] Open Scope Z_scope.

(** ** The token bucket *)

Record RetransmitDirectSender := mkSender {
  rs_tokens : f64; rs_last_refill : Instant; rs_max_pps : f64; rs_capacity : f64; rs_sent_direct : Z; rs_sent_fallback : Z
}.
#[export] Instance eta_RetransmitDirectSender : Settable RetransmitDirectSender :=
  fun r => mkSender (rs_tokens r) (rs_last_refill r) (rs_max_pps r) (rs_capacity r) (rs_sent_direct r) (rs_sent_fallback r).

Definition bucket_capacity (max_pps : f64) : f64 := f_clamp (f64_of_Z 5) (f64_of_Z 20) (f64_mul max_pps (f64_lit 2 100)).

Definition new_sender (max_pps : f64) (now : Instant) : RetransmitDirectSender :=
  let max_pps := f_max max_pps (f64_of_Z 50) in
  mkSender (f_min max_pps (f64_of_Z 10)) now max_pps (bucket_capacity max_pps) 0 0.

Definition consume_token (s : RetransmitDirectSender) (now : Instant) : RetransmitDirectSender * bool :=
  let elapsed := as_secs_f64 (duration_since now (rs_last_refill s)) in
  let tokens := f_min (f64_add (rs_tokens s) (f64_mul elapsed (rs_max_pps s))) (rs_capacity s) in
  let s := s <| rs_last_refill := now |> <| rs_tokens := tokens |> in
  if f_le f1 tokens then (s <| rs_tokens := f64_sub tokens f1 |>, true) else (s, false).

Definition set_max_pps (s : RetransmitDirectSender) (pps : f64) : RetransmitDirectSender :=
  let max_pps := f_max pps (f64_of_Z 50) in
  let capacity := bucket_capacity max_pps in
  s <| rs_max_pps := max_pps |> <| rs_capacity := capacity |> <| rs_tokens := f_min (rs_tokens s) capacity |>.

(** ** State *)

Inductive UdpResult := SendOk | SendTooLong | SendErr.
#[export] Instance UdpResult_eq_dec : EqDecision UdpResult.
Proof. solve_decision. Defined.

(** [is_udp_message_too_long], from the error number of the system. *)
Definition is_udp_message_too_long (raw_os_error : option Z) : bool := bool_decide (raw_os_error ∈ [Some 10040; Some 90]).
Definition send_result (error : option (option Z)) : UdpResult :=
  match error with None => SendOk | Some e => if is_udp_message_too_long e then SendTooLong else SendErr end.

Inductive TickEffect :=
| TxDatagram (dest : SocketAddr) (frame : bytes) (result : UdpResult)
| TxRetransmit (dest : SocketAddr) (pkt : bytes)
| TxControl (dest : SocketAddr) (pkt : bytes)
| TxFlushFec (drain : bool)
| TxRetune
| TxHeal (vip : string).

Record TickConfig := mkTickConfig {
  tc_fwd : FwdConfig; tc_congestion : CongestionTuning; tc_limits : EngineLimitsTuning; tc_keepalive_secs : Z;
  tc_control_path_race : bool; tc_bandwidth_prober : bool; tc_predictive_heal : bool
}.

Record Ticker := mkTicker {
  tk_fwd : Forwarder; tk_reliable : ReliableChannel; tk_sender : RetransmitDirectSender; tk_outbound : OutboundUdpClock;
  tk_retry_cursor : Z; tk_last_shard : option Z; tk_out : list TickEffect
}.
#[export] Instance eta_Ticker : Settable Ticker :=
  fun r => mkTicker (tk_fwd r) (tk_reliable r) (tk_sender r) (tk_outbound r) (tk_retry_cursor r) (tk_last_shard r) (tk_out r).

Definition tx (st : Ticker) (e : TickEffect) : Ticker := st <| tk_out := tk_out st ++ [e] |>.

(** ** Probes on the wire *)

Definition probe_body (i : ProbeIntent) : bytes :=
  be_bytes 2 (wrap 16 (pi_size i)) ++ be_bytes 4 (pi_search_gen i) ++ be_bytes 4 (pi_probe_id i) ++
  replicate (Z.to_nat (sat_sub (pi_size i) 44)) 171.
Definition probe_frame (i : ProbeIntent) : bytes := frame_with_tag PKT_PMTU (probe_body i).

(** The [PMTU] arm of [handle_parsed_packet]: the frame that answers. *)
Definition probe_answer (body : bytes) : option bytes := if len body <? 10 then None else Some (PKT_PMAR ++ take 10 body).

Section Ticks.
Context `{HashIter} `{Aead} `{Kdf} (cfg : TickConfig).

(** [retune_barrier] flushes the groups in flight. *)
Definition sync_fec_shard_ceiling_to_path_mtu (st : Ticker) : Ticker :=
  let effective := effective_shard_payload_size (fc_fec_shard_payload_size (tc_fwd cfg)) (min_path_mtu (fw_pmtud (tk_fwd st))) in
  if bool_decide (tk_last_shard st = effective) then st else tx st TxRetune <| tk_last_shard := effective |>.

Definition follow_path_mtu (st : Ticker) (now : Instant) : Ticker :=
  sync_fec_shard_ceiling_to_path_mtu (st <| tk_fwd := apply_suggested_mtu (tk_fwd st) now |>).

Definition set_pmtud (st : Ticker) (d : PathMtuDiscovery) : Ticker := st <| tk_fwd := tk_fwd st <| fw_pmtud := d |> |>.
Definition pmtud_of (st : Ticker) : PathMtuDiscovery := fw_pmtud (tk_fwd st).
Definition pmtud_frozen (st : Ticker) : bool := fc_mtu_pin (tc_fwd cfg) || bool_decide (is_Some (pinned (pmtud_of st))).

Definition apply_pmar_body (st : Ticker) (from : SocketAddr) (body : bytes) (now : Instant) : Ticker :=
  if len body <? 10 then st
  else if pmtud_frozen st then st
  else
    let sz := be_val (take 2 body) in
    let session_id := be_val (take 4 (drop 2 body)) in
    let probe_id := be_val (take 4 (drop 6 body)) in
    let '(d, (_, min_changed, _)) := on_ack (pmtud_of st) from sz probe_id session_id now in
    let st := set_pmtud st d in
    if min_changed then follow_path_mtu st now else st.

(** The two messages of the search among those of [handle_parsed_packet]. *)
Definition handle_probe_packet (st : Ticker) (tag body : bytes) (from : SocketAddr) (now : Instant) (error : option (option Z)) : Ticker :=
  if bool_decide (tag = PKT_PMTU) then
    match probe_answer body with Some resp => tx st (TxDatagram from resp (send_result error)) | None => st end
  else if bool_decide (tag = PKT_PMAR) then apply_pmar_body st from body now
  else st.

Definition tick_input (st : Ticker) (now : Instant) (ep : SocketAddr) : Ticker * PeerTickInput :=
  let rt := fw_rt (tk_fwd st) in
  let '(rtt_ms, qd_ms, vip_u32) :=
    match vip ← rt_ep_to_vip rt !! ep; e ← rt_table rt !! vip; Some (vip, e) with
    | Some (vip, e) => (re_smoothed_rtt_ms e, effective_queuing_delay_ms e (cg_owd_prefer_after_samples (rt_congestion rt)), ipv4_to_u32 vip)
    | None => (f_neg1, f_neg1, None)
    end in
  let '(table, h) := match vip_u32 with
                     | Some vip => health (size_loss (fw_crypto (tk_fwd st))) vip now
                     | None => (size_loss (fw_crypto (tk_fwd st)), default_health)
                     end in
  let st := st <| tk_fwd := tk_fwd st <| fw_crypto := fw_crypto (tk_fwd st) <| size_loss := table |> |> |> in
  let cong := tc_congestion cfg in
  let qd_ok := f_le f0 qd_ms && cg_rtt_base_tracking cong &&
               negb (fec_delay_is_congestive qd_ms (cg_target_queue_delay_ms cong) (cg_congestion_loss_threshold cong)) in
  let st := if large_collapsed h && qd_ok then set_pmtud st (request_early_wake (pmtud_of st) ep now).1 else st in
  (st, mkTickInput ep h rtt_ms).

Fixpoint tick_inputs (st : Ticker) (now : Instant) (eps : list SocketAddr) : Ticker * list PeerTickInput :=
  match eps with
  | [] => (st, [])
  | ep :: eps =>
      let '(st, i) := tick_input st now ep in
      let '(st, l) := tick_inputs st now eps in
      (st, i :: l)
  end.

Definition send_probe (errors : ProbeIntent -> option (option Z)) (now : Instant) (st : Ticker) (i : ProbeIntent) : Ticker :=
  let r := send_result (errors i) in
  let st := tx st (TxDatagram (pi_peer i) (probe_frame i) r) in
  match r with
  | SendTooLong => set_pmtud st (on_send_hard_fail (pmtud_of st) (pi_peer i) (pi_probe_id i) now).1
  | SendOk | SendErr => st
  end.

Definition drive_pmtud_tick (st : Ticker) (now : Instant) (errors : ProbeIntent -> option (option Z)) : Ticker :=
  let '(st, inputs) := tick_inputs st now (push_endpoints_excluding_stale (fw_rt (tk_fwd st)) []) in
  let old_min := min_path_mtu (pmtud_of st) in
  let '(d, intents, _) := on_tick (pmtud_of st) now inputs in
  let st := foldl (send_probe errors now) (set_pmtud st d) intents in
  let st := if negb (min_path_mtu (pmtud_of st) =? old_min) && negb (pmtud_frozen st) then follow_path_mtu st now else st in
  st <| tk_fwd := reschedule_pmtud_interval (tc_fwd cfg) (tk_fwd st) now |>.

(** The switch of the pin: [configured] is the MTU of the adapter in the configuration. *)
Definition apply_mtu_pin_policy (st : Ticker) (configured : Z) (now : Instant) : Ticker :=
  let st :=
    if fc_mtu_pin (tc_fwd cfg) then
      let st := set_pmtud st (set_pinned (pmtud_of st) (Some (path_mtu_from_adapter configured (enc_overhead (tk_fwd st)))) now) in
      let adapter := clamp 576 1500 configured in
      let '(a, applied) := try_apply_adapter_mtu (fw_adapter (tk_fwd st) <| ad_last_applied_mtu := 0 |> <| ad_last_netsh_at := None |>) adapter now in
      let f := tk_fwd st <| fw_adapter := a |> in
      st <| tk_fwd := if applied then emit f (SetAdapterMtu adapter) else f |>
    else set_pmtud st (set_pinned (pmtud_of st) None now) in
  let st := sync_fec_shard_ceiling_to_path_mtu st in
  st <| tk_fwd := reschedule_pmtud_interval (tc_fwd cfg) (tk_fwd st) now |>.

(** ** Retransmissions *)

Definition refresh_fec_qd_cache (st : Ticker) (ep : SocketAddr) : Ticker :=
  let f := default default_fec_dest (fw_fec (tk_fwd st) !! ep) in
  st <| tk_fwd := tk_fwd st <| fw_fec := <[ep := f <| fd_queuing_delay_ms_cached := Some (table_queuing_delay (fw_rt (tk_fwd st)) ep) |>]> (fw_fec (tk_fwd st)) |> |>.

Definition note_send_failure (now : Instant) (st : Ticker) (dest : SocketAddr) : Ticker :=
  let '(rt, (vip, needs_heal)) := note_fail (fw_rt (tk_fwd st)) dest None now in
  let st := refresh_fec_qd_cache (st <| tk_fwd := tk_fwd st <| fw_rt := rt |> |>) dest in
  match vip with
  | Some vip => if tc_predictive_heal cfg && needs_heal then tx st (TxHeal vip) else st
  | None => st
  end.

(** One packet: a token and the socket, or the pacing worker. [t] is the clock at this packet. *)
Definition retransmit_one (t : Instant) (ok : bool) (st : Ticker) (x : bytes * SocketAddr) : Ticker :=
  let '(s, token) := consume_token (tk_sender st) t in
  let st := st <| tk_sender := s |> in
  let fall_back st := tx (st <| tk_sender := tk_sender st <| rs_sent_fallback := sat_add U64_MAX (rs_sent_fallback (tk_sender st)) 1 |> |>) (TxRetransmit x.2 x.1) in
  if token then
    if ok then
      tx (st <| tk_sender := tk_sender st <| rs_sent_direct := sat_add U64_MAX (rs_sent_direct (tk_sender st)) 1 |> |>) (TxDatagram x.2 x.1 SendOk)
    else fall_back st
  else fall_back st.

Fixpoint retransmit_all (clock : nat -> Instant) (io : nat -> bool) (n : nat) (st : Ticker) (l : list (bytes * SocketAddr)) : Ticker :=
  match l with
  | [] => st
  | x :: l => retransmit_all clock io (S n) (retransmit_one (clock n) (io n) st x) l
  end.

(** The arm of the event loop for a tick of the pacing worker; [dead] is the destination of the last failed send when the
    worker reports its socket dead, [drain] its drain flag. *)
Definition on_tick_done (st : Ticker) (now : Instant) (dead : option SocketAddr) (drain : bool) (clock : nat -> Instant) (io : nat -> bool) : option Ticker :=
  let st := match dead with
            | Some dest => if match sa_ip dest with V4 a => a =? 0 | V6 a => a =? 0 end then st else note_send_failure now st dest
            | None => st
            end in
  let st := tx st (TxFlushFec drain) in
  '(c, out, fails) ← tick_into (tk_reliable st) now;
  let st := st <| tk_reliable := c |> in
  let st := foldl (fun st f => note_send_failure now st f.2) st fails in
  Some (retransmit_all clock io 0 st out).

(** ** Keepalives *)

Definition needs_sign (tag : bytes) : bool := bool_decide (tag ∈ [PKT_CLG; PKT_LEAVE; PKT_PRXY; PKT_JACK]).

(** [send_to] and the note of a send that went out. *)
Definition send_noted (st : Ticker) (dest : SocketAddr) (pkt : bytes) (error : option (option Z)) (now : Instant) : Ticker * bool :=
  let r := send_result error in
  let st := tx st (TxDatagram dest pkt r) in
  if bool_decide (r = SendOk) then (st <| tk_outbound := ou_note (tk_outbound st) dest now |>, true) else (st, false).

Definition send_control_packet (st : Ticker) (dest : SocketAddr) (tag body : bytes) (error : option (option Z)) (now : Instant) : Ticker * bool :=
  let keys := crypto_keys (fw_crypto (tk_fwd st)) in
  let plain := send_noted st dest (frame_with_tag tag body) error now in
  if needs_sign tag then
    match (match key_for_dest keys dest with Some k => Some k | None => shared_signing_key keys end) with
    | Some key =>
        let '(c, sealed) := seal_control_body (fw_crypto (tk_fwd st)) key tag body in
        let st := st <| tk_fwd := tk_fwd st <| fw_crypto := c |> |> in
        match sealed with Some sealed => send_noted st dest (frame_with_tag PKT_CTSIG sealed) error now | None => (st, false) end
    | None => if has_any keys then (st, false) else plain
    end
  else plain.

Definition send_mctl (st : Ticker) (dest : SocketAddr) (flags : Z) (vip : option bytes) (error : option (option Z)) (now : Instant) : Ticker * bool :=
  match encode_mctl flags vip with Some body => send_control_packet st dest PKT_MCTL body error now | None => (st, false) end.

Definition keepalive_one (errors : SocketAddr -> option (option Z)) (now : Instant) (st : Ticker) (ep : SocketAddr) : Ticker :=
  if needs_refresh (tk_outbound st) ep now (from_secs (tc_keepalive_secs cfg))
  then (send_mctl st ep MCTL_FLAG_HB (Some (str_bytes (fw_vip (tk_fwd st)))) (errors ep) now).1 else st.

Definition send_keepalives (st : Ticker) (now : Instant) (errors : SocketAddr -> option (option Z)) : Ticker :=
  let routes := endpoints_excluding_stale (fw_rt (tk_fwd st)) in
  let st := st <| tk_outbound := retain_only (tk_outbound st) (list_to_set routes) |> in
  foldl (keepalive_one errors now) st routes.

(** ** Direct retries *)

Definition retry_targets (filtered : list SocketAddr) (max cursor : Z) : list SocketAddr * Z :=
  let n := len filtered in
  let take_n := Z.min n max in
  let start := if 0 <? n then cursor mod n else 0 in
  (omap (fun i => filtered !! Z.to_nat ((start + Z.of_nat i) mod n)) (seq 0 (Z.to_nat take_n)),
   if 0 <? n then (start + take_n) mod n else cursor).

Definition control_race_dests (st : Ticker) (primary : SocketAddr) : list SocketAddr :=
  if negb (fc_multipath_core (tc_fwd cfg) && tc_control_path_race cfg) then [primary]
  else match control_race_endpoints_for_endpoint (fw_rt (tk_fwd st)) primary None with [] => [primary] | dests => dests end.

Definition enqueue_ctrl (tag body : bytes) (st : Ticker) (ep : SocketAddr) : Ticker :=
  let c := fw_crypto (tk_fwd st) in
  let '(ctr, pkt) := build_signed_or_plain_static (key_for_dest (crypto_keys c) ep) (ctrl_send_ctr c) tag body in
  tx (st <| tk_fwd := tk_fwd st <| fw_crypto := c <| ctrl_send_ctr := ctr |> |> |>) (TxControl ep pkt).

Definition secondary_endpoints (rt : RoutingTable) : list SocketAddr :=
  flat_map (fun x : string * RouteEntry =>
    match re_path_set x.2 with
    | Some ps => omap (fun p : Z * PathCandidate => if p.1 =? ps_active_idx ps then None else Some (pc_endpoint p.2)) (indexed_paths ps)
    | None => []
    end) (hm_iter (rt_table rt)).

Definition wants_retry (x : SocketAddr * RouteState) : bool := bool_decide (x.2 ∈ [Candidate; Degraded; Stale]).

Definition direct_retry_tick (st : Ticker) : Ticker :=
  let body := str_bytes (fw_vip (tk_fwd st)) in
  let filtered := fst <$> List.filter wants_retry (snapshot_for_retry (fw_rt (tk_fwd st))) in
  let '(targets, cursor) := retry_targets filtered (el_max_direct_retry_per_tick (tc_limits cfg)) (tk_retry_cursor st) in
  let st := st <| tk_retry_cursor := cursor |> in
  let st := foldl (fun st ep => foldl (enqueue_ctrl PKT_HPCH body) st (control_race_dests st ep)) st targets in
  if tc_bandwidth_prober cfg
  then foldl (enqueue_ctrl PKT_KPAL body) st
         (take (Z.to_nat (el_max_secondary_retry_per_tick (tc_limits cfg))) (secondary_endpoints (fw_rt (tk_fwd st))))
  else st.
End Ticks.

(** ** Probes *)

(** The IPv4 packet a frame becomes. *)
Definition ip_length (frame : bytes) : Z := len frame + UNDERLAY_IPV4_UDP_OVERHEAD.

(** A probe makes a packet two bytes shorter than the size it tests. *)
Lemma probe_two_bytes_short i : 44 <= pi_size i -> ip_length (probe_frame i) = pi_size i - 2.
Proof.
  intros S. unfold ip_length, probe_frame, probe_body, frame_with_tag. rewrite !len_app. unfold len. rewrite !length_be_bytes, length_replicate.
  unfold sat_sub. cbn. unfold UNDERLAY_IPV4_UDP_OVERHEAD. lia.
Qed.

(** The header of a probe, which its answer repeats. *)
Definition probe_header (i : ProbeIntent) : bytes := be_bytes 2 (wrap 16 (pi_size i)) ++ be_bytes 4 (pi_search_gen i) ++ be_bytes 4 (pi_probe_id i).

Lemma probe_header_length i : List.length (probe_header i) = 10%nat.
Proof. unfold probe_header. by rewrite !length_app, !length_be_bytes. Qed.

Lemma probe_body_header i : probe_body i = probe_header i ++ replicate (Z.to_nat (sat_sub (pi_size i) 44)) 171.
Proof. unfold probe_body, probe_header. by rewrite <- !app_assoc. Qed.

Lemma take_probe_body i : take 10 (probe_body i) = probe_header i.
Proof. rewrite probe_body_header. by rewrite take_app_length' by (by rewrite probe_header_length). Qed.

Definition intent_ok (i : ProbeIntent) : Prop :=
  MIN_MTU <= pi_size i <= MAX_MTU /\ 0 <= pi_search_gen i < 2 ^ 32 /\ 0 <= pi_probe_id i < 2 ^ 32.

Section ProbeFacts.
Context `{HashIter} `{Aead} `{Kdf} (cfg : TickConfig).

Lemma follow_path_mtu_pmtud st now : pmtud_of (follow_path_mtu cfg st now) = pmtud_of st.
Proof.
  unfold follow_path_mtu, sync_fec_shard_ceiling_to_path_mtu, apply_suggested_mtu, pmtud_of. destruct (try_apply_adapter_mtu _ _ _) as [a []];
    by case_bool_decide.
Qed.

Lemma header_fields i : intent_ok i -> be_val (take 2 (probe_header i)) = pi_size i /\ be_val (take 4 (drop 2 (probe_header i))) = pi_search_gen i /\
  be_val (take 4 (drop 6 (probe_header i))) = pi_probe_id i.
Proof.
  intros (S & G & P). unfold probe_header. split_and!.
  - rewrite be_bytes_app_take, be_val_be_bytes. unfold wrap, MIN_MTU, MAX_MTU in *. rewrite Z.mod_mod by done. apply Z.mod_small. lia.
  - rewrite be_bytes_app_drop, be_bytes_app_take, be_val_be_bytes. apply Z.mod_small. lia.
  - change 6%nat with (2 + 4)%nat. rewrite <- drop_drop, be_bytes_app_drop, be_bytes_app_drop.
    rewrite <- (app_nil_r (be_bytes 4 (pi_probe_id i))), be_bytes_app_take, be_val_be_bytes. apply Z.mod_small. lia.
Qed.

(** A probe that reaches its peer comes back as its acknowledgement: the peer reads the probe's frame as a probe
    message and answers, the sender reads the answer as an acknowledgement, and unless the MTU is pinned
    its search receives exactly the size, the generation and the number of the probe it sent; the
    adapter and the shard size may follow, the search is not otherwise touched. *)
Theorem probe_answered i st st' now later from peer e :
  intent_ok i ->
  exists answer,
    parse_datagram (probe_frame i) = Some (Control PKT_PMTU (probe_body i)) /\
    tk_out (handle_probe_packet cfg st' PKT_PMTU (probe_body i) from now e) = tk_out st' ++ [TxDatagram from (frame_with_tag PKT_PMAR answer) (send_result e)] /\
    parse_datagram (frame_with_tag PKT_PMAR answer) = Some (Control PKT_PMAR answer) /\
    pmtud_of (handle_probe_packet cfg st PKT_PMAR answer peer later e) =
      if pmtud_frozen cfg st then pmtud_of st else (on_ack (pmtud_of st) peer (pi_size i) (pi_probe_id i) (pi_search_gen i) later).1.
Proof.
  intros I. exists (probe_header i). destruct (header_fields i I) as (E1 & E2 & E3). split_and!.
  - by apply (parse_datagram_frame (Control PKT_PMTU (probe_body i))).
  - unfold handle_probe_packet. rewrite bool_decide_eq_true_2 by done. unfold probe_answer. rewrite (proj2 (Z.ltb_ge _ _)); [by rewrite take_probe_body|].
    rewrite probe_body_header, len_app. unfold len. rewrite probe_header_length. lia.
  - by apply (parse_datagram_frame (Control PKT_PMAR (probe_header i))).
  - unfold handle_probe_packet. rewrite bool_decide_eq_false_2, bool_decide_eq_true_2 by done. unfold apply_pmar_body.
    rewrite (proj2 (Z.ltb_ge _ _)) by (unfold len; rewrite probe_header_length; lia). destruct (pmtud_frozen cfg st); [done|]. rewrite E1, E2, E3.
    destruct (on_ack _ _ _ _ _ _) as [d [[ok changed] ev]]. destruct changed; [by rewrite follow_path_mtu_pmtud|done].
Qed.
End ProbeFacts.

(** ** Retransmissions *)

(** A packet went to the socket, or to the pacing worker. *)
Definition handed_over (x : bytes * SocketAddr) (e : TickEffect) : Prop := e = TxDatagram x.2 x.1 SendOk \/ e = TxRetransmit x.2 x.1.
Definition is_direct (e : TickEffect) : bool := match e with TxDatagram _ _ _ => true | _ => false end.

Section RetransmitFacts.
Context `{HashIter} (cfg : TickConfig).

Lemma retransmit_one_spec t ok st x : exists e, tk_out (retransmit_one t ok st x) = tk_out st ++ [e] /\ handed_over x e /\
  tk_reliable (retransmit_one t ok st x) = tk_reliable st /\
  rs_sent_direct (tk_sender (retransmit_one t ok st x)) = (if is_direct e then sat_add U64_MAX (rs_sent_direct (tk_sender st)) 1 else rs_sent_direct (tk_sender st)) /\
  rs_sent_fallback (tk_sender (retransmit_one t ok st x)) = (if is_direct e then rs_sent_fallback (tk_sender st) else sat_add U64_MAX (rs_sent_fallback (tk_sender st)) 1).
Proof.
  assert (C : rs_sent_direct (consume_token (tk_sender st) t).1 = rs_sent_direct (tk_sender st) /\ rs_sent_fallback (consume_token (tk_sender st) t).1 = rs_sent_fallback (tk_sender st)).
  { unfold consume_token. by destruct (f_le _ _). }
  unfold retransmit_one. destruct (consume_token (tk_sender st) t) as [s token]. cbn [fst] in C. destruct C as [C1 C2].
  destruct token; [destruct ok|]; eexists; cbn; rewrite ?C1, ?C2; split_and!; try reflexivity; [by left|by right|by right].
Qed.

Lemma retransmit_all_spec clock io l : forall n st, exists new,
  tk_out (retransmit_all clock io n st l) = tk_out st ++ new /\ Forall2 handed_over l new /\ tk_reliable (retransmit_all clock io n st l) = tk_reliable st.
Proof.
  induction l as [|x l IH]; intros n st; cbn [retransmit_all]; [exists []; by rewrite app_nil_r|].
  destruct (retransmit_one_spec (clock n) (io n) st x) as (e & E & X & R & _). destruct (IH (S n) (retransmit_one (clock n) (io n) st x)) as (new & O & F & R').
  exists (e :: new). rewrite O, E, R', R, <- app_assoc. split_and!; [done|by constructor|done].
Qed.

Lemma note_send_failure_frame now st dest : tk_reliable (note_send_failure cfg now st dest) = tk_reliable st /\
  exists new, tk_out (note_send_failure cfg now st dest) = tk_out st ++ new /\ Forall (fun e => exists vip, e = TxHeal vip) new.
Proof.
  unfold note_send_failure. destruct (note_fail _ _ _ _) as [rt [[vip|] heal]]; [destruct (_ && heal)|]; (split; [done|]);
    [exists [TxHeal vip]; split; [done|apply Forall_singleton; by eexists]|exists []; rewrite app_nil_r; split; [done|constructor]..].
Qed.

Lemma note_failures_frame now (l : list (Z * SocketAddr)) : forall st, let st' := foldl (fun st f => note_send_failure cfg now st f.2) st l in
  tk_reliable st' = tk_reliable st /\ exists new, tk_out st' = tk_out st ++ new /\ Forall (fun e => exists vip, e = TxHeal vip) new.
Proof.
  induction l as [|f l IH]; intros st; cbn [foldl]; [split; [done|]; exists []; by rewrite app_nil_r|].
  destruct (note_send_failure_frame now st f.2) as [R (n1 & E1 & F1)]. destruct (IH (note_send_failure cfg now st f.2)) as [R' (n2 & E2 & F2)].
  split; [by rewrite R', R|]. exists (n1 ++ n2). rewrite E2, E1, <- app_assoc. split; [done|]. by apply Forall_app.
Qed.

(** C36. A tick of the pacing worker always completes, and hands every packet that is due and has retries left to the socket or
    to the pacing worker, each exactly once and in the order of the channel, whatever the bucket and the
    socket answer; every due packet without retries left is gone and nothing is due any more. *)
Theorem tick_done_retransmits st now dead drain clock io :
  channel_ok (tk_reliable st) -> Reliable.tuning_ok (tk_reliable st) -> retries_ok (tk_reliable st) ->
  exists st' out heals1 heals2 new,
    on_tick_done cfg st now dead drain clock io = Some st' /\
    tk_out st' = tk_out st ++ heals1 ++ [TxFlushFec drain] ++ heals2 ++ new /\
    Forall (fun e => exists vip, e = TxHeal vip) (heals1 ++ heals2) /\
    Forall2 handed_over out new /\ out ≡ₚ omap (tick_sent now) (map_to_list (pending_pkts (tk_reliable st))) /\
    channel_ok (tk_reliable st') /\ pending_pkts (tk_reliable st') = omap (tick_one (tk_reliable st) now) (pending_pkts (tk_reliable st)) /\
    map_Forall (fun _ p => is_due now p = false) (pending_pkts (tk_reliable st')).
Proof.
  intros C T R. unfold on_tick_done.
  set (s1 := match dead with Some dest => _ | None => st end).
  assert (S1 : tk_reliable s1 = tk_reliable st /\ exists new, tk_out s1 = tk_out st ++ new /\ Forall (fun e => exists vip, e = TxHeal vip) new).
  { unfold s1. destruct dead as [dest|]; [|split; [done|]; exists []; rewrite app_nil_r; split; [done|constructor]].
    destruct (match sa_ip dest with V4 a => _ | V6 a => _ end); [split; [done|]; exists []; rewrite app_nil_r; split; [done|constructor]|]. apply note_send_failure_frame. }
  destruct S1 as [R1 (h1 & O1 & F1)]. clearbody s1. cbn [tk_reliable tx setter]. change (tk_reliable (tx s1 (TxFlushFec drain))) with (tk_reliable s1). rewrite R1.
  destruct (tick_into_spec (tk_reliable st) now C T R) as (c & out & fails & -> & Ok & P & D & O & _). cbn [mbind option_bind].
  set (s2 := tx s1 (TxFlushFec drain) <| tk_reliable := c |>). destruct (note_failures_frame now fails s2) as [R2 (h2 & O2 & F2)].
  set (s3 := foldl _ s2 fails) in *. destruct (retransmit_all_spec clock io out 0 s3) as (new & O3 & H3 & R3).
  assert (E : tk_reliable (retransmit_all clock io 0 s3 out) = c) by (by rewrite R3, R2).
  exists (retransmit_all clock io 0 s3 out), out, h1, h2, new. rewrite E, O3, O2. unfold s2. cbn [tk_out tx setter]. 
  split_and!; try done; [|by apply Forall_app]. cbn. rewrite O1. by rewrite <- !app_assoc.
Qed.
End RetransmitFacts.

(** ** Retries in rotation *)

(** The endpoint at a position of the ring. *)
Definition ring (l : list SocketAddr) (i : Z) : option SocketAddr := l !! Z.to_nat (i mod len l).

Lemma retry_targets_spec l max cursor : 0 < len l -> 1 <= max ->
  (forall i, 0 <= i < Z.min (len l) max -> exists ep, ring l (cursor + i) = Some ep /\ ep ∈ (retry_targets l max cursor).1) /\
  (retry_targets l max cursor).2 = (cursor + Z.min (len l) max) mod len l.
Proof.
  intros N M. unfold retry_targets. rewrite (proj2 (Z.ltb_lt _ _)) by done. cbn [fst snd]. split; [|by rewrite Zplus_mod_idemp_l].
  intros i I. assert (L : (Z.to_nat ((cursor + i) mod len l) < List.length l)%nat).
  { pose proof (Z.mod_pos_bound (cursor + i) (len l) N). unfold len in *. lia. }
  apply lookup_lt_is_Some in L as [ep E]. exists ep. split; [done|]. apply list_elem_of_omap. exists (Z.to_nat i). split; [apply elem_of_seq; lia|].
  rewrite Z2Nat.id, Zplus_mod_idemp_l by lia. exact E.
Qed.

Section RetryFacts.
Context `{HashIter} `{Aead} `{Kdf} (cfg : TickConfig).

(** The endpoints of the table that are to be retried, and the number of them in one tick. *)
Definition retry_list (st : Ticker) : list SocketAddr := fst <$> List.filter wants_retry (snapshot_for_retry (fw_rt (tk_fwd st))).
Definition retry_cap : Z := el_max_direct_retry_per_tick (tc_limits cfg).

(** What ticks leave alone, and that they only add to the trace. *)
Definition tick_keeps (st st' : Ticker) : Prop :=
  fw_rt (tk_fwd st') = fw_rt (tk_fwd st) /\ fw_vip (tk_fwd st') = fw_vip (tk_fwd st) /\ exists new, tk_out st' = tk_out st ++ new.

Lemma tick_keeps_refl st : tick_keeps st st.
Proof. split_and!; [done|done|]. exists []. by rewrite app_nil_r. Qed.
Lemma tick_keeps_trans a b c : tick_keeps a b -> tick_keeps b c -> tick_keeps a c.
Proof. intros (A1 & A2 & n & A3) (B1 & B2 & m & B3). split_and!; [congruence|congruence|]. exists (n ++ m). by rewrite B3, A3, <- app_assoc. Qed.
Lemma keeps_out a b e : tick_keeps a b -> e ∈ tk_out a -> e ∈ tk_out b.
Proof. intros (_ & _ & n & ->) I. set_solver. Qed.

Lemma enqueue_keeps tag body st ep : tick_keeps st (enqueue_ctrl tag body st ep).
Proof. unfold enqueue_ctrl. destruct (build_signed_or_plain_static _ _ _ _) as [ctr pkt]. split_and!; [done|done|by eexists]. Qed.

Lemma fold_keeps {A} (f : Ticker -> A -> Ticker) (l : list A) : (forall st x, tick_keeps st (f st x)) -> forall st, tick_keeps st (foldl f st l).
Proof. intros F. induction l as [|x l IH]; intros st; cbn; [apply tick_keeps_refl|]. eapply tick_keeps_trans; [apply F|apply IH]. Qed.

(** A punch carries the address of the sender, in the clear. *)
Definition punch_to (st : Ticker) (d : SocketAddr) : TickEffect := TxControl d (frame_with_tag PKT_HPCH (str_bytes (fw_vip (tk_fwd st)))).

Lemma punch_all st body dests : forall s, tick_keeps st s -> body = str_bytes (fw_vip (tk_fwd st)) ->
  forall d, d ∈ dests -> punch_to st d ∈ tk_out (foldl (enqueue_ctrl PKT_HPCH body) s dests).
Proof.
  induction dests as [|x dests IH]; intros s K B d D; [set_solver|]. cbn [foldl]. apply elem_of_cons in D as [->|D].
  - eapply keeps_out; [apply fold_keeps; intros; apply enqueue_keeps|]. subst body. unfold enqueue_ctrl, build_signed_or_plain_static.
    change (is_signaling_tag PKT_HPCH) with true. cbn. set_solver.
  - apply IH; [|done|done]. eapply tick_keeps_trans; [exact K|apply enqueue_keeps].
Qed.

Lemma race_dests_keep st s ep : tick_keeps st s -> control_race_dests cfg s ep = control_race_dests cfg st ep.
Proof. intros (E & _). unfold control_race_dests. by rewrite E. Qed.

Lemma punch_targets st body l : forall s, tick_keeps st s -> body = str_bytes (fw_vip (tk_fwd st)) -> forall ep d, ep ∈ l -> d ∈ control_race_dests cfg st ep ->
  punch_to st d ∈ tk_out (foldl (fun s ep => foldl (enqueue_ctrl PKT_HPCH body) s (control_race_dests cfg s ep)) s l).
Proof.
  induction l as [|x l IH]; intros s K B ep d E D; [set_solver|]. cbn [foldl].
  assert (F : forall s y, tick_keeps s (foldl (enqueue_ctrl PKT_HPCH body) s (control_race_dests cfg s y))) by (intros; apply fold_keeps; intros; apply enqueue_keeps).
  apply elem_of_cons in E as [->|E].
  - eapply keeps_out; [apply fold_keeps; intros; apply F|]. apply (punch_all st); [done|done|]. by rewrite (race_dests_keep st).
  - apply (IH _ ltac:(eapply tick_keeps_trans; [exact K|apply F]) B ep d E D).
Qed.

Lemma retry_tick_spec st : tick_keeps st (direct_retry_tick cfg st) /\
  tk_retry_cursor (direct_retry_tick cfg st) = (retry_targets (retry_list st) retry_cap (tk_retry_cursor st)).2 /\
  forall ep d, ep ∈ (retry_targets (retry_list st) retry_cap (tk_retry_cursor st)).1 -> d ∈ control_race_dests cfg st ep ->
    punch_to st d ∈ tk_out (direct_retry_tick cfg st).
Proof.
  unfold direct_retry_tick. fold (retry_list st). fold retry_cap. destruct (retry_targets (retry_list st) retry_cap (tk_retry_cursor st)) as [targets cursor]. cbn [fst snd].
  set (s0 := st <| tk_retry_cursor := cursor |>). assert (K0 : tick_keeps st s0) by (split_and!; [done|done|exists []; by rewrite app_nil_r]).
  set (body := str_bytes (fw_vip (tk_fwd st))). set (s1 := foldl (fun st ep => foldl (enqueue_ctrl PKT_HPCH body) st (control_race_dests cfg st ep)) s0 targets).
  assert (F : forall (s : Ticker) (y : SocketAddr), tick_keeps s (foldl (enqueue_ctrl PKT_HPCH body) s (control_race_dests cfg s y))) by (intros; apply fold_keeps; intros; apply enqueue_keeps).
  assert (K1 : tick_keeps s0 s1) by (apply fold_keeps, F).
  assert (Q : forall tag b l s, tk_retry_cursor (foldl (enqueue_ctrl tag b) s l) = tk_retry_cursor s).
  { intros tag b. induction l as [|x l IH]; intros s; cbn; [done|]. rewrite IH. unfold enqueue_ctrl. by destruct (build_signed_or_plain_static _ _ _ _). }
  assert (Q1 : tk_retry_cursor s1 = cursor).
  { unfold s1. assert (G : forall l s, tk_retry_cursor (foldl (fun st ep => foldl (enqueue_ctrl PKT_HPCH body) st (control_race_dests cfg st ep)) s l) = tk_retry_cursor s).
    { induction l as [|x l IH]; intros s; cbn; [done|]. by rewrite IH, Q. } by rewrite G. }
  assert (P : forall ep d, ep ∈ targets -> d ∈ control_race_dests cfg st ep -> punch_to st d ∈ tk_out s1) by (intros ep d; by apply (punch_targets st body targets s0)).
  destruct (tc_bandwidth_prober cfg).
  - match goal with |- context [foldl (enqueue_ctrl PKT_KPAL body) s1 ?l] => set (sec := l) end.
    assert (K2 : tick_keeps s1 (foldl (enqueue_ctrl PKT_KPAL body) s1 sec)) by (apply fold_keeps; intros; apply enqueue_keeps).
    split; [exact (tick_keeps_trans _ _ _ (tick_keeps_trans _ _ _ K0 K1) K2)|]. split; [by rewrite Q|]. intros ep d E D. eapply keeps_out; [exact K2|]. by eapply P.
  - split; [exact (tick_keeps_trans _ _ _ K0 K1)|]. by split.
Qed.

Definition retry_ticks (n : nat) (st : Ticker) : Ticker := Nat.iter n (direct_retry_tick cfg) st.

Lemma retry_ticks_keeps n st : tick_keeps st (retry_ticks n st).
Proof. induction n as [|n IH]; [apply tick_keeps_refl|]. eapply tick_keeps_trans; [exact IH|]. apply retry_tick_spec. Qed.

Lemma retry_list_keeps st s : tick_keeps st s -> retry_list s = retry_list st.
Proof. intros (E & _). unfold retry_list. by rewrite E. Qed.

Lemma retry_ticks_reach n : forall st, 0 < len (retry_list st) -> 1 <= retry_cap ->
  tk_retry_cursor (retry_ticks n st) mod len (retry_list st) = (tk_retry_cursor st + Z.of_nat n * Z.min (len (retry_list st)) retry_cap) mod len (retry_list st) /\
  forall i, 0 <= i < Z.of_nat n * Z.min (len (retry_list st)) retry_cap -> forall ep d, ring (retry_list st) (tk_retry_cursor st + i) = Some ep ->
    d ∈ control_race_dests cfg st ep -> punch_to st d ∈ tk_out (retry_ticks n st).
Proof.
  induction n as [|n IH]; intros st N M; [split; [cbn; by rewrite Z.add_0_r|cbn; lia]|]. destruct (IH st N M) as [C P]. set (s := retry_ticks n st) in *.
  change (retry_ticks (S n) st) with (direct_retry_tick cfg s). pose proof (retry_ticks_keeps n st) as K. fold s in K. pose proof (retry_list_keeps _ _ K) as L.
  destruct (retry_tick_spec s) as (K' & C' & P'). rewrite L in C', P'. set (l := retry_list st) in *. set (k := Z.min (len l) retry_cap) in *.
  destruct (retry_targets_spec l retry_cap (tk_retry_cursor s) N M) as [R1 R2]. fold k in R1, R2. split.
  - rewrite C', R2, Z.mod_mod by lia. rewrite <- Zplus_mod_idemp_l, C, Zplus_mod_idemp_l. f_equal. rewrite Nat2Z.inj_succ. ring.
  - intros i I ep d E D. destruct (Z_lt_ge_dec i (Z.of_nat n * k)) as [I1|I1]; [eapply keeps_out; [exact K'|]; apply (P i ltac:(lia) ep d E D)|].
    rewrite Nat2Z.inj_succ in I. destruct (R1 (i - Z.of_nat n * k)) as (ep' & E' & T); [lia|].
    assert (ep' = ep) as ->.
    { assert (G : ring l (tk_retry_cursor s + (i - Z.of_nat n * k)) = ring l (tk_retry_cursor st + i)).
      { unfold ring. rewrite <- Zplus_mod_idemp_l, C, Zplus_mod_idemp_l. do 3 f_equal. lia. }
      rewrite G in E'. congruence. }
    assert (D' : d ∈ control_race_dests cfg s ep) by (by rewrite (race_dests_keep st)). pose proof (P' ep d T D') as Q.
    unfold punch_to in Q |- *. destruct K as (_ & V & _). by rewrite V in Q.
Qed.

(** C37. No route waits for ever: with [m] retry ticks of at least one endpoint each, enough for as many endpoints as wait,
    every endpoint of the table that is a candidate, degraded or stale has been sent a punch carrying
    the own address, at every address of its race, wherever the rotation stood at the start. *)
Theorem retries_rotate st m ep d :
  1 <= retry_cap -> len (retry_list st) <= Z.of_nat m * retry_cap -> ep ∈ retry_list st -> d ∈ control_race_dests cfg st ep ->
  punch_to st d ∈ tk_out (retry_ticks m st).
Proof.
  intros M W E D. set (l := retry_list st) in *. assert (N : 0 < len l) by (unfold len; destruct l; [set_solver|cbn; lia]).
  destruct (retry_ticks_reach m st N M) as [_ P]. fold l in P. apply list_elem_of_lookup in E as [j J]. pose proof (lookup_lt_Some _ _ _ J) as JL.
  set (i := (Z.of_nat j - tk_retry_cursor st) mod len l). pose proof (Z.mod_pos_bound (Z.of_nat j - tk_retry_cursor st) (len l) N) as B. fold i in B.
  assert (m <> 0%nat) by (intros ->; lia).
  assert (I : i < Z.of_nat m * Z.min (len l) retry_cap).
  { destruct (Z.min_spec (len l) retry_cap) as [[_ ->]|[_ ->]]; [|lia]. nia. }
  apply (P i ltac:(lia) ep d); [|done]. unfold ring, i. rewrite Zplus_mod_idemp_r. replace (tk_retry_cursor st + (Z.of_nat j - tk_retry_cursor st)) with (Z.of_nat j) by lia.
  rewrite Z.mod_small by (unfold len; lia). by rewrite Nat2Z.id.
Qed.
End RetryFacts.

(** ** Keepalives *)

Section KeepaliveFacts.
Context `{HashIter} `{Aead} `{Kdf} (cfg : TickConfig).

Lemma needs_refresh_note c a b now keepalive t : a <> b -> needs_refresh (ou_note c b t) a now keepalive = needs_refresh c a now keepalive.
Proof. intros N. unfold needs_refresh, ou_last, ou_note. cbn. by rewrite lookup_insert_ne. Qed.

Lemma needs_refresh_retain c (l : list SocketAddr) a now keepalive : a ∈ l -> needs_refresh (retain_only c (list_to_set l)) a now keepalive = needs_refresh c a now keepalive.
Proof.
  intros I. unfold needs_refresh, ou_last, retain_only. cbn.
  enough (retain (fun addr _ => bool_decide (addr ∈ (list_to_set l : gset SocketAddr))) (ou_map c) !! a = ou_map c !! a) as -> by done.
  destruct (ou_map c !! a) as [t|] eqn:E; [apply lookup_retain; split; [done|]; apply bool_decide_eq_true_2; set_solver|].
  apply lookup_retain_None. by left.
Qed.

(** The heartbeat of one endpoint. *)
Definition heartbeat (errors : SocketAddr -> option (option Z)) (body : bytes) (ep : SocketAddr) : TickEffect :=
  TxDatagram ep (frame_with_tag PKT_MCTL body) (send_result (errors ep)).

Lemma keepalives_loop errors now body routes : forall st, NoDup routes ->
  encode_mctl MCTL_FLAG_HB (Some (str_bytes (fw_vip (tk_fwd st)))) = Some body ->
  tk_out (foldl (keepalive_one cfg errors now) st routes) =
  tk_out st ++ map (heartbeat errors body) (List.filter (fun ep => needs_refresh (tk_outbound st) ep now (from_secs (tc_keepalive_secs cfg))) routes).
Proof.
  induction routes as [|ep routes IH]; intros st N B; [cbn; by rewrite app_nil_r|]. apply NoDup_cons in N as [E N]. cbn [foldl List.filter].
  unfold keepalive_one at 2. destruct (needs_refresh _ ep _ _) eqn:R; [|by rewrite (IH st N B)].
  unfold send_mctl. rewrite B. unfold send_control_packet. change (needs_sign PKT_MCTL) with false. cbv match. unfold send_noted. case_bool_decide as S; cbn [fst].
  - rewrite IH by done. cbn [tk_out tx setter map]. cbn. rewrite <- app_assoc. f_equal. cbn. f_equal. f_equal.
    apply filter_ext_in. intros x X%list_elem_of_In. apply needs_refresh_note. set_solver.
  - rewrite IH by done. cbn. by rewrite <- app_assoc.
Qed.

(** A heartbeat with the own address goes to exactly the endpoints that are not stale and were not sent to for the length of
    the interval, in the order of the table, once each. *)
Lemma keepalives_exact st now errors body :
  NoDup (endpoints_excluding_stale (fw_rt (tk_fwd st))) -> encode_mctl MCTL_FLAG_HB (Some (str_bytes (fw_vip (tk_fwd st)))) = Some body ->
  tk_out (send_keepalives cfg st now errors) = tk_out st ++
    map (heartbeat errors body) (List.filter (fun ep => needs_refresh (tk_outbound st) ep now (from_secs (tc_keepalive_secs cfg))) (endpoints_excluding_stale (fw_rt (tk_fwd st)))).
Proof.
  intros N B. unfold send_keepalives. rewrite (keepalives_loop errors now body) by done. cbn. do 2 f_equal. apply filter_ext_in.
  intros x X%list_elem_of_In. by apply needs_refresh_retain.
Qed.
End KeepaliveFacts.

(** ** Concrete runs *)

Module TickRuns.
#[local] Existing Instance canonical_iter.
#[local] Existing Instance Toy.toy_aead.
#[local] Existing Instance Toy.toy_kdf.
Definition cfg : TickConfig := mkTickConfig FwdRuns.cfg default_congestion default_limits 5 true true true.
Definition start : Ticker :=
  mkTicker (FwdRuns.start FwdRuns.plain FwdRuns.table) new_channel (new_sender (f64_of_Z 1000) 0) new_outbound 7 None [].
Definition no_error (_ : ProbeIntent) : option (option Z) := None.

Definition probe : ProbeIntent := mkIntent FwdRuns.direct 1252 1 2.
Lemma probe_answered_witness : exists answer,
  parse_datagram (probe_frame probe) = Some (Control PKT_PMTU (probe_body probe)) /\
  parse_datagram (frame_with_tag PKT_PMAR answer) = Some (Control PKT_PMAR answer).
Proof.
  destruct (probe_answered cfg probe start start 0 0 FwdRuns.relay FwdRuns.direct None) as (answer & E1 & _ & E2 & _); [vm_compute; intuition congruence|].
  by exists answer.
Defined.

Definition due : ReliableChannel :=
  new_channel <| pending_pkts := {[3 := mkPending [1] FwdRuns.direct (Some 5) 0 None false 1 50]} |> <| due_heap := [(5, 3)] |> <| next_due_at := Some 5 |>.

Lemma tick_done_retransmits_witness : exists st',
  on_tick_done cfg (start <| tk_reliable := due |>) 10 None false (fun _ => 10) (fun _ => true) = Some st' /\ channel_ok (tk_reliable st').
Proof.
  destruct (tick_done_retransmits cfg (start <| tk_reliable := due |>) 10 None false (fun _ => 10) (fun _ => true)) as (st' & out & h1 & h2 & new & E & _ & _ & _ & _ & C & _).
  - split; [split|split].
    + repeat constructor.
    + intros s q Hq. change (({[3 := mkPending [1] FwdRuns.direct (Some 5) 0 None false 1 50]} : gmap Z PendingPacket) !! s = Some q) in Hq.
      apply lookup_singleton_Some in Hq as [<- <-]. exists 5. by split; [|apply list_elem_of_singleton].
    + exists 3, (mkPending [1] FwdRuns.direct (Some 5) 0 None false 1 50). by split; [apply lookup_singleton_eq|].
    + intros s q t Hq. change (({[3 := mkPending [1] FwdRuns.direct (Some 5) 0 None false 1 50]} : gmap Z PendingPacket) !! s = Some q) in Hq.
      apply lookup_singleton_Some in Hq as [<- <-]. by intros [= <-].
  - vm_compute. split; congruence.
  - intros s q Hq. change (({[3 := mkPending [1] FwdRuns.direct (Some 5) 0 None false 1 50]} : gmap Z PendingPacket) !! s = Some q) in Hq.
    apply lookup_singleton_Some in Hq as [<- <-]. vm_compute. congruence.
  - exists st'. split; [exact E|exact C].
Defined.

Lemma retries_rotate_witness : punch_to start FwdRuns.relay ∈ tk_out (retry_ticks cfg 1 start).
Proof.
  apply (retries_rotate cfg start 1 FwdRuns.relay FwdRuns.relay).
  - by vm_compute.
  - by vm_compute.
  - vm_compute. set_solver.
  - vm_compute. set_solver.
Defined.

(** A path that carries packets of 1250 bytes: the probe for 1252 bytes passes it and is acknowledged,
    and from then on frames are let through that make packets of 1252 bytes. *)
Definition searching : Ticker := drive_pmtud_tick cfg (drive_pmtud_tick cfg start 0 no_error) (from_secs 60) no_error.
Definition acked : Ticker := handle_probe_packet cfg searching PKT_PMAR (probe_header probe) FwdRuns.direct (from_secs 60) None.

Lemma acked_probe_overstates :
  last_good <$> (peers (pmtud_of searching) !! FwdRuns.direct) = Some 1220 /\
  TxDatagram FwdRuns.direct (probe_frame probe) SendOk ∈ tk_out searching /\ ip_length (probe_frame probe) = 1250 /\
  last_good <$> (peers (pmtud_of acked) !! FwdRuns.direct) = Some 1252 /\
  forall frame, ip_length frame = 1252 -> data_udp_fits_path (tk_fwd acked) FwdRuns.direct (len frame) = true.
Proof.
  split; [by vm_compute|]. split; [vm_compute; set_solver|]. split; [by vm_compute|]. split; [by vm_compute|]. intros frame L. unfold data_udp_fits_path.
  replace (len frame) with 1224 by (unfold ip_length, UNDERLAY_IPV4_UDP_OVERHEAD in L; lia). by vm_compute.
Qed.
End TickRuns.
