(* ===== verification/Daemon.v ===== *)
(** * Control connections of the daemon (src/ipc.rs, src/daemon.rs, src/profile.rs)

    The command line talks to the daemon over local connections: a length and a payload per message.  The
    daemon counts the connections that are sessions, and when the last one ends while no profile is
    active it exits.  Encoding a message belongs to the bincode crate ([Bincode]); what a request does in
    the command line is not part of this file.  A run is a list of what happens on the connections.

    The theorems: messages written to a connection are read back one by one; when every client says
    goodbye at most once, the counter is the number of live sessions and the daemon leaves no session
    behind.  [second_goodbye] shows what a second goodbye does. *)

From Stdlib Require Import Ascii String.
From S2P Require Import Prelude Text Float Tuning Config.
#[local] Open Scope Z_scope.

(** ** Messages *)

Inductive IpcRequest :=
| Ping
| ProcessLine (line : string)
| ShutdownGraceful
| ClientDisconnect
| HasActiveProfile
| BootstrapSnapshot
| TakeSessionHome
| ReloadConfigFromDisk
| RuntimeSnapshot
| RuntimeViewBegin
| RuntimeViewEnd
| CreateNetwork (listen_port : Z) (virtual_ip : string) (subnet_prefix : Z)
| JoinInvite (invite : string) (lan_mode : option bool) (endpoint : string)
| DiscoverLanMembers
| AssistLanMember (target : string)
| ResetPerformanceDefaults
| JoinDecentralized (invite : string).

Class Bincode := { serialize : IpcRequest -> bytes; deserialize : bytes -> option IpcRequest }.
Class BincodeLaws `{Bincode} : Prop := { deserialize_serialize : forall r, deserialize (serialize r) = Some r }.

Definition MAX_IPC_FRAME : Z := 16 * 1024 * 1024.

Definition write_frame `{Bincode} (req : IpcRequest) : bytes := let payload := serialize req in le_bytes 4 (wrap 32 (len payload)) ++ payload.

(** The reading half of the loop of [run_ipc_server], on the bytes that have arrived: a request and what follows it,
    [FrameEnd] when the stream ends or the frame is refused, which closes the connection. *)
Inductive Frame := FrameRequest (req : IpcRequest) (rest : bytes) | FrameEnd.
Definition read_request `{Bincode} (stream : bytes) : Frame :=
  if len stream <? 4 then FrameEnd
  else
    let n := le_val (take 4 stream) in
    if MAX_IPC_FRAME <? n then FrameEnd
    else
      let stream := drop 4 stream in
      if len stream <? n then FrameEnd
      else match deserialize (take (Z.to_nat n) stream) with
           | Some req => FrameRequest req (drop (Z.to_nat n) stream)
           | None => FrameEnd
           end.

(** All requests of a stream; every request takes at least four bytes, so the length is fuel enough. *)
Fixpoint read_requests `{Bincode} (fuel : nat) (stream : bytes) : list IpcRequest :=
  match fuel with
  | O => []
  | S fuel => match read_request stream with FrameRequest req rest => req :: read_requests fuel rest | FrameEnd => [] end
  end.

(** ** Sessions *)

(** [CLIENT_COUNT], a [usize]. *)
Definition on_client_connected (count : Z) : Z := wrap 64 (count + 1).
Definition on_client_disconnected (count : Z) : Z * option Z :=
  (wrap 64 (count - 1), if count =? 0 then None else Some (count - 1)).

Definition has_active_profile (snap : NetworkConfig) : bool :=
  negb (bool_decide (nc_crypto_key snap = EmptyString)) && negb (bool_decide (nc_virtual_ip snap = EmptyString)).
Definition should_auto_exit_on_client_disconnect (snap : NetworkConfig) : bool := negb (has_active_profile snap).

(** The two flags of a connection's task. *)
Record Conn := mkConn { cn_session_client : bool; cn_disconnect_accounted : bool }.
#[export] Instance eta_Conn : Settable Conn := fun r => mkConn (cn_session_client r) (cn_disconnect_accounted r).

Record Server := mkServer { sv_count : Z; sv_conns : gmap Z Conn; sv_exited : bool }.
#[export] Instance eta_Server : Settable Server := fun r => mkServer (sv_count r) (sv_conns r) (sv_exited r).
Definition new_server : Server := mkServer 0 ∅ false.

(** The [ClientDisconnect] arm of [handle_ipc]. *)
Definition handle_disconnect (snap : NetworkConfig) (s : Server) : Server :=
  let '(count, remaining) := on_client_disconnected (sv_count s) in
  let s := s <| sv_count := count |> in
  match remaining with
  | Some n => if (n =? 0) && should_auto_exit_on_client_disconnect snap then s <| sv_exited := true |> else s
  | None => s
  end.

(** The end of a connection's task. *)
Definition end_connection (snap : NetworkConfig) (id : Z) (c : Conn) (s : Server) : Server :=
  let s := s <| sv_conns := delete id (sv_conns s) |> in
  if cn_session_client c && negb (cn_disconnect_accounted c) then handle_disconnect snap s else s.

Inductive ServerEvent :=
| EvAccept (id : Z)
| EvRequest (id : Z) (req : IpcRequest) (written : bool)
| EvEnd (id : Z).

Definition is_ping (r : IpcRequest) : bool := match r with Ping => true | _ => false end.
Definition is_goodbye (r : IpcRequest) : bool := match r with ClientDisconnect => true | _ => false end.
Definition is_shutdown (r : IpcRequest) : bool := match r with ShutdownGraceful => true | _ => false end.

(** One turn of a connection's loop; a response that cannot be written ends the connection. *)
Definition serve_request (snap : NetworkConfig) (id : Z) (c : Conn) (req : IpcRequest) (written : bool) (s : Server) : Server :=
  let first := negb (cn_session_client c) && negb (is_ping req) in
  let s := if first then s <| sv_count := on_client_connected (sv_count s) |> else s in
  let c := if first then c <| cn_session_client := true |> else c in
  let s := if is_goodbye req then handle_disconnect snap s else s in
  let c := if is_goodbye req then c <| cn_disconnect_accounted := true |> else c in
  let s := s <| sv_conns := <[id := c]> (sv_conns s) |> in
  if sv_exited s then s
  else if negb written then end_connection snap id c s
  else if is_shutdown req then s <| sv_exited := true |> else s.

(** Nothing happens after the exit. [snap] is the configuration at the event. *)
Definition server_step (s : Server) (x : ServerEvent * NetworkConfig) : Server :=
  if sv_exited s then s
  else match x.1 with
       | EvAccept id => match sv_conns s !! id with Some _ => s | None => s <| sv_conns := <[id := mkConn false false]> (sv_conns s) |> end
       | EvRequest id req written => match sv_conns s !! id with Some c => serve_request x.2 id c req written s | None => s end
       | EvEnd id => match sv_conns s !! id with Some c => end_connection x.2 id c s | None => s end
       end.
Definition server_run (l : list (ServerEvent * NetworkConfig)) : Server := foldl server_step new_server l.

(** ** Streams *)

Section Frames.
Context `{BincodeLaws}.

Lemma read_written req rest : len (serialize req) <= MAX_IPC_FRAME -> read_request (write_frame req ++ rest) = FrameRequest req rest.
Proof.
  intros L. unfold read_request, write_frame. set (payload := serialize req) in *. assert (M : MAX_IPC_FRAME < 2 ^ 32) by done.
  assert (V : le_val (le_bytes 4 (wrap 32 (len payload))) = len payload).
  { rewrite le_val_le_bytes. unfold wrap. rewrite Z.mod_mod by done. apply Z.mod_small. unfold len in *. lia. }
  rewrite <- app_assoc. rewrite take_app_length', drop_app_length' by (by rewrite length_le_bytes). rewrite V, !len_app.
  assert (len (le_bytes 4 (wrap 32 (len payload))) = 4) as -> by (unfold len; by rewrite length_le_bytes).
  rewrite (proj2 (Z.ltb_ge _ _)) by (unfold len; lia). rewrite (proj2 (Z.ltb_ge _ _)) by done. rewrite (proj2 (Z.ltb_ge _ _)) by (unfold len; lia).
  rewrite take_app_length', drop_app_length' by (unfold len; lia). unfold payload. by rewrite deserialize_serialize.
Qed.

Lemma write_frame_length req : (4 <= List.length (write_frame req))%nat.
Proof. unfold write_frame. rewrite length_app, length_le_bytes. lia. Qed.

(** Requests written one after the other are read back, all of them, in order. *)
Lemma stream_roundtrip reqs fuel : Forall (fun r => len (serialize r) <= MAX_IPC_FRAME) reqs -> (List.length reqs <= fuel)%nat ->
  read_requests fuel (mjoin (write_frame <$> reqs)) = reqs.
Proof.
  intros F. revert fuel. induction F as [|r reqs L F IH]; intros fuel Q.
  - destruct fuel; cbn; [done|]. by unfold read_request.
  - destruct fuel as [|fuel]; [cbn in Q; lia|]. cbn [fmap list_fmap mjoin list_join read_requests]. rewrite read_written by done. f_equal. apply IH. cbn in Q. lia.
Qed.
End Frames.

(** ** Counting sessions *)

Definition is_live (c : Conn) : bool := cn_session_client c && negb (cn_disconnect_accounted c).
Definition live_in (m : gmap Z Conn) : Z := Z.of_nat (size (filter (fun kv : Z * Conn => is_live kv.2 = true) m)).
Definition live (s : Server) : Z := live_in (sv_conns s).
Definition one (b : bool) : Z := if b then 1 else 0.

Lemma live_insert_fresh m id c : m !! id = None -> live_in (<[id := c]> m) = live_in m + one (is_live c).
Proof.
  intros N. unfold live_in. rewrite map_filter_insert, delete_id by done. destruct (is_live c) eqn:E; cbn [snd one].
  - rewrite E, decide_True by done. rewrite map_size_insert_None; [lia|]. apply map_lookup_filter_None. by left.
  - rewrite E, decide_False by done. lia.
Qed.

Lemma live_delete m id c : m !! id = Some c -> live_in m = live_in (delete id m) + one (is_live c).
Proof. intros E. rewrite <- (insert_delete_id m id c E) at 1. apply live_insert_fresh. apply lookup_delete_eq. Qed.

Lemma live_insert m id c c0 : m !! id = Some c0 -> live_in (<[id := c]> m) = live_in m - one (is_live c0) + one (is_live c).
Proof. intros E. rewrite <- (insert_delete_eq m id c), live_insert_fresh by apply lookup_delete_eq. rewrite (live_delete m id c0 E). lia. Qed.

Lemma live_range m : 0 <= live_in m <= Z.of_nat (size m).
Proof.
  split; [unfold live_in; lia|]. induction m as [|id c m N IH] using map_ind; [done|]. rewrite live_insert_fresh, map_size_insert_None by done.
  unfold one. destruct (is_live c); lia.
Qed.

(** A client says goodbye at most once per connection, and there are fewer connections than the counter can count. *)
Definition polite (s : Server) (x : ServerEvent * NetworkConfig) : Prop :=
  match x.1 with
  | EvAccept _ => Z.of_nat (size (sv_conns s)) + 1 < 2 ^ 64
  | EvRequest id ClientDisconnect _ => forall c, sv_conns s !! id = Some c -> cn_disconnect_accounted c = false
  | _ => True
  end.

Inductive server_reaches : Server -> Prop :=
| server_reaches_new : server_reaches new_server
| server_reaches_step s x : server_reaches s -> polite s x -> server_reaches (server_step s x).

Record server_ok (s : Server) : Prop := {
  so_count : sv_count s = live s;
  so_flags : map_Forall (fun _ c => cn_disconnect_accounted c = true -> cn_session_client c = true) (sv_conns s);
  so_size : Z.of_nat (size (sv_conns s)) < 2 ^ 64
}.

(** A disconnect of one of [n] counted sessions. *)
Lemma disconnect_counted snap s n : sv_count s = n -> 1 <= n < 2 ^ 64 ->
  handle_disconnect snap s = s <| sv_count := n - 1 |> <| sv_exited := sv_exited s || ((n =? 1) && should_auto_exit_on_client_disconnect snap) |>.
Proof.
  intros <- R. unfold handle_disconnect, on_client_disconnected. rewrite (proj2 (Z.eqb_neq _ _)) by lia. cbv match.
  replace (wrap 64 (sv_count s - 1)) with (sv_count s - 1) by (unfold wrap; rewrite Z.mod_small; lia).
  replace (sv_count s - 1 =? 0) with (sv_count s =? 1) by (apply Bool.eq_true_iff_eq; rewrite !Z.eqb_eq; lia).
  destruct ((sv_count s =? 1) && _); destruct s as [count conns exited]; cbn; [by rewrite orb_true_r|by rewrite orb_false_r].
Qed.

(** What a step may do to a consistent server: it stays consistent; it exits only with no session left and no profile, or on request. *)
Definition good_end (snap : NetworkConfig) (s s' : Server) : Prop :=
  server_ok s' /\ (sv_exited s' = true -> sv_exited s = true \/ live s' = 0 /\ should_auto_exit_on_client_disconnect snap = true).

Lemma end_connection_ok snap id c s : server_ok s -> sv_conns s !! id = Some c -> good_end snap s (end_connection snap id c s).
Proof.
  intros [C F SZ] E. unfold end_connection. assert (S : Z.of_nat (size (delete id (sv_conns s))) < 2 ^ 64).
  { rewrite map_size_delete, E. cbn. lia. }
  pose proof (live_delete _ _ _ E) as L. pose proof (live_range (sv_conns s)) as R. pose proof (live_range (delete id (sv_conns s))) as R'. unfold live in C.
  change (cn_session_client c && negb (cn_disconnect_accounted c)) with (is_live c). destruct (is_live c) eqn:A; cbn [one] in L.
  - rewrite (disconnect_counted snap _ (sv_count s)); [|done|lia]. split.
    + split; cbn; [unfold live; cbn; lia|by apply map_Forall_delete|done].
    + cbn. intros [->|[O%Z.eqb_eq I]%andb_true_iff]%orb_true_iff; [by left|right]. split; [unfold live; cbn; lia|done].
  - split; [|by left]. split; cbn; [unfold live; cbn; lia|by apply map_Forall_delete|done].
Qed.

(** The connection after its request has been counted. *)
Definition counted (c : Conn) (req : IpcRequest) : Conn := if negb (cn_session_client c) && negb (is_ping req) then c <| cn_session_client := true |> else c.

Lemma counted_ok id c req s : server_ok s -> sv_conns s !! id = Some c ->
  let first := negb (cn_session_client c) && negb (is_ping req) in
  server_ok (s <| sv_count := if first then on_client_connected (sv_count s) else sv_count s |> <| sv_conns := <[id := counted c req]> (sv_conns s) |>) /\
  (is_goodbye req = true -> cn_disconnect_accounted c = false -> is_live (counted c req) = true).
Proof.
  intros [C F SZ] E first. pose proof (F id c E) as A. cbn in A. unfold counted. fold first.
  assert (N : sv_conns s !! id <> None) by congruence. pose proof (live_range (sv_conns s)) as R. unfold live in C.
  assert (S : forall c', size (<[id := c']> (sv_conns s)) = size (sv_conns s)) by (intros c'; by rewrite map_size_insert, E).
  destruct first eqn:B; unfold first in B.
  - apply andb_true_iff in B as [B1%negb_true_iff B2]. assert (D : cn_disconnect_accounted c = false) by (destruct (cn_disconnect_accounted c); [by rewrite A in B1|done]).
    assert (L : is_live c = false) by (unfold is_live; by rewrite B1). assert (L' : is_live (c <| cn_session_client := true |>) = true) by (unfold is_live; cbn; by rewrite D).
    assert (A' : cn_session_client (c <| cn_session_client := true |>) = true) by done. set (c' := c <| cn_session_client := true |>) in *. clearbody c'.
    pose proof (live_insert _ _ c' _ E) as I. rewrite L, L' in I. cbn [one] in I.
    pose proof (live_range (<[id := c']> (sv_conns s))) as R2. rewrite S in R2. split; [|done]. split; cbn.
    + unfold live, on_client_connected. cbn. unfold wrap. rewrite Z.mod_small; lia.
    + apply map_Forall_insert_2; [done|done].
    + by rewrite S.
  - split.
    + split; cbn; [unfold live; cbn; by rewrite insert_id|by rewrite insert_id|by rewrite insert_id].
    + intros G D. destruct req; try done. cbn in B. rewrite andb_true_r, negb_false_iff in B. unfold is_live. by rewrite B, D.
Qed.

Lemma goodbye_ok snap id c s : server_ok s -> sv_conns s !! id = Some c -> is_live c = true ->
  good_end snap s (handle_disconnect snap s <| sv_conns := <[id := c <| cn_disconnect_accounted := true |>]> (sv_conns s) |>).
Proof.
  intros [C F SZ] E L. pose proof (live_range (sv_conns s)) as R. unfold live in C. set (c' := c <| cn_disconnect_accounted := true |>).
  pose proof (live_insert _ _ c' _ E) as I. assert (L' : is_live c' = false) by (unfold is_live; cbn; by rewrite andb_false_r). rewrite L, L' in I. cbn [one] in I.
  pose proof (live_range (<[id := c']> (sv_conns s))) as R2. assert (S : size (<[id := c']> (sv_conns s)) = size (sv_conns s)) by (by rewrite map_size_insert, E). rewrite S in R2.
  rewrite (disconnect_counted snap s (sv_count s)); [|done|lia]. split.
  - split; cbn; [unfold live; cbn; lia| |by rewrite S]. apply map_Forall_insert_2; [|done]. intros _. cbn. unfold is_live in L. by destruct (cn_session_client c).
  - cbn. intros [->|[O%Z.eqb_eq X]%andb_true_iff]%orb_true_iff; [by left|right]. split; [unfold live; cbn; lia|done].
Qed.

(** A disconnect does not look at the connections. *)
Lemma disconnect_conns snap s m : handle_disconnect snap (s <| sv_conns := m |>) = handle_disconnect snap s <| sv_conns := m |> /\
  sv_conns (handle_disconnect snap s) = sv_conns s.
Proof.
  unfold handle_disconnect. change (sv_count (s <| sv_conns := m |>)) with (sv_count s). destruct (on_client_disconnected (sv_count s)) as [n [k|]]; [|done].
  by destruct ((k =? 0) && should_auto_exit_on_client_disconnect snap).
Qed.

Lemma serve_request_ok snap id c req written s : server_ok s -> sv_exited s = false -> sv_conns s !! id = Some c ->
  (is_goodbye req = true -> cn_disconnect_accounted c = false) ->
  let s' := serve_request snap id c req written s in
  server_ok s' /\ (sv_exited s' = true -> is_shutdown req && written = true \/ live s' = 0 /\ should_auto_exit_on_client_disconnect snap = true).
Proof.
  intros O X E P. unfold serve_request. set (first := negb (cn_session_client c) && negb (is_ping req)).
  destruct (counted_ok id c req s O E) as [O1 G1]. fold first in O1. set (c1 := counted c req) in *.
  assert (C1 : (if first then c <| cn_session_client := true |> else c) = c1) by done. rewrite C1.
  set (s0 := if first then s <| sv_count := on_client_connected (sv_count s) |> else s).
  set (s1 := s0 <| sv_conns := <[id := c1]> (sv_conns s) |>).
  assert (S1 : server_ok s1) by (unfold s1, s0; by destruct first). assert (X1 : sv_exited s1 = false) by (unfold s1, s0; by destruct first).
  assert (N1 : sv_conns s1 !! id = Some c1) by apply lookup_insert_eq.
  set (c2 := if is_goodbye req then c1 <| cn_disconnect_accounted := true |> else c1).
  set (s2 := (if is_goodbye req then handle_disconnect snap s0 else s0) <| sv_conns := <[id := c2]> (sv_conns (if is_goodbye req then handle_disconnect snap s0 else s0)) |>).
  assert (K : sv_conns s0 = sv_conns s) by (unfold s0; by destruct first).
  assert (S2 : good_end snap s1 s2 /\ sv_conns s2 !! id = Some c2).
  { split; [|apply lookup_insert_eq]. unfold s2, c2. destruct (is_goodbye req) eqn:G.
    - pose proof (goodbye_ok snap id c1 s1 S1 N1 (G1 eq_refl (P eq_refl))) as Q. destruct (disconnect_conns snap s0 (<[id := c1]> (sv_conns s))) as [D1 D2].
      rewrite D2, K. unfold s1 in Q at 2 3. rewrite D1 in Q. cbn [sv_conns setter] in Q. change (sv_conns (s0 <| sv_conns := ?m |>)) with m in Q.
      rewrite insert_insert_eq in Q. exact Q.
    - rewrite K. split; [done|]. unfold s1 in X1. cbn in X1 |- *. by rewrite X1. }
  destruct S2 as [[O2 Y2] N2]. fold s2. clearbody s2 c2. destruct (sv_exited s2) eqn:X2.
  - split; [done|]. intros _. right. destruct (Y2 eq_refl) as [Y|Y]; [congruence|done].
  - destruct written; cbn [negb].
    + rewrite andb_true_r. destruct (is_shutdown req); [|split; [done|]; congruence]. split; [|by left]. destruct O2. by split.
    + destruct (end_connection_ok snap id c2 s2 O2 N2) as [O3 Y3]. split; [done|]. intros Q. right. destruct (Y3 Q) as [Y|Y]; [congruence|done].
Qed.

Lemma server_step_ok s x : server_ok s -> polite s x -> sv_exited s = false ->
  server_ok (server_step s x) /\
  (sv_exited (server_step s x) = true -> (exists id, x.1 = EvRequest id ShutdownGraceful true) \/ live (server_step s x) = 0 /\ should_auto_exit_on_client_disconnect x.2 = true).
Proof.
  destruct x as [e snap]. intros O P X. unfold server_step. rewrite X. cbn [fst snd]. destruct e as [id|id req written|id].
  - destruct (sv_conns s !! id) eqn:E; [split; [done|]; congruence|]. destruct O as [C F SZ]. cbn in P. split; [|cbn; congruence]. split; cbn.
    + unfold live. cbn. rewrite live_insert_fresh by done. cbn. unfold live in C. lia.
    + by apply map_Forall_insert_2.
    + rewrite map_size_insert_None by done. lia.
  - destruct (sv_conns s !! id) as [c|] eqn:E; [|split; [done|]; congruence]. destruct (serve_request_ok snap id c req written s O X E) as [O' Y].
    { intros G. destruct req; try done. by apply P. }
    split; [done|]. intros Q. destruct (Y Q) as [Y'|Y']; [left|by right]. apply andb_true_iff in Y' as [Y1 ->]. destruct req; try done. by exists id.
  - destruct (sv_conns s !! id) as [c|] eqn:E; [|split; [done|]; congruence]. destruct (end_connection_ok snap id c s O E) as [O' Y]. split; [done|].
    intros Q. right. destruct (Y Q) as [Y'|Y']; [congruence|done].
Qed.

Lemma server_reaches_ok s : server_reaches s -> server_ok s.
Proof.
  induction 1 as [|s x _ IH P]; [split; [done|apply map_Forall_empty|done]|]. destruct (sv_exited s) eqn:X; [unfold server_step; by rewrite X|].
  by apply (server_step_ok s x).
Qed.


(** ** Concrete runs *)

Module DaemonRuns.
Definition ev (e : ServerEvent) : ServerEvent * NetworkConfig := (e, default_config).


(** A client that says goodbye twice while another session is open: the daemon exits under the other
    session.  With a profile the counter wraps around instead, and the next last session does not end
    the daemon. *)
Definition joined : NetworkConfig := default_config <| nc_crypto_key := "k"%string |> <| nc_virtual_ip := "10.0.0.2"%string |>.

Lemma second_goodbye :
  let two := [EvAccept 1; EvRequest 1 HasActiveProfile true; EvAccept 2; EvRequest 2 HasActiveProfile true;
              EvRequest 1 ClientDisconnect true; EvRequest 1 ClientDisconnect true] in
  (sv_exited (server_run (map ev two)) = true /\ live (server_run (map ev two)) = 1) /\
  let s := server_run (map (fun e => (e, joined)) (two ++ [EvEnd 2])) in
  sv_count s = U64_MAX /\ live s = 0 /\
  sv_exited (foldl server_step s (map ev [EvAccept 3; EvRequest 3 HasActiveProfile true; EvEnd 3])) = false.
Proof. by vm_compute. Qed.

(** [None] is documented for a counter that is already zero; the counter is decremented all the same. *)
Lemma zero_underflows : on_client_disconnected 0 = (U64_MAX, None).
Proof. by vm_compute. Qed.
End DaemonRuns.
