(* ===== verification/Affinity.v ===== *)
(** * Processor affinity (src/cpu_affinity.rs)

    The specification a user writes, [n] or [a-b], its normal form in the configuration, and the mask of
    logical processors it stands for.  Setting the mask is a call of the operating system.

    The theorems: the mask has exactly the bits the specification names, all of them existing processors,
    and the normal form means the same as what the user wrote. *)

From Stdlib Require Import Ascii String.
From S2P Require Import Prelude Text Tracker.
#[local] Open Scope Z_scope.

Definition MAX_AFFINITY_BITS : Z := 64.
Definition logical_cpu_count (available : option Z) : Z := Z.min (default 1 available) MAX_AFFINITY_BITS.

(** [1usize << i], the shift reduced to the width. *)
Definition cpu_bit (i : Z) : Z := Z.shiftl 1 (i mod 64).
Definition or_bits (l : list Z) : Z := foldl (fun mask i => Z.lor mask (cpu_bit i)) 0 l.

(** [lo..hi]. *)
Definition range (lo hi : Z) : list Z := map (fun k => lo + Z.of_nat k) (seq 0 (Z.to_nat (hi - lo))).

Definition build_mask_excluding_0_and_1 (logical_cpu_count : Z) : option Z :=
  if logical_cpu_count <=? 2 then None
  else
    let mask := or_bits (range 2 (Z.min logical_cpu_count MAX_AFFINITY_BITS)) in
    if mask =? 0 then None else Some mask.

(** What a trimmed specification says: the first and the last processor. *)
Definition read_spec (s : bytes) : option (Z * Z) :=
  match split_once 45 s with
  | Some (a, b) =>
      start ← parse_uint U32_MAX (trim a);
      stop ← parse_uint U32_MAX (trim b);
      if stop <? start then None else Some (start, stop)
  | None => i ← parse_uint U32_MAX s; Some (i, i)
  end.

(** The loop over the range refuses the first processor that does not exist. *)
Definition parse_cpu_affinity_spec (spec : bytes) (n : Z) : option (list Z) :=
  let s := trim spec in
  if bool_decide (s = []) then None
  else if n =? 0 then None
  else match read_spec s with
       | Some (start, stop) => if n <=? stop then None else Some (range start (stop + 1))
       | None => None
       end.

Definition normalize_cpu_affinity_spec (spec : bytes) : option bytes :=
  let s := trim spec in
  if bool_decide (s = []) then None
  else match read_spec s with
       | Some (start, stop) => Some (match split_once 45 s with Some _ => fmt_dec start ++ [45] ++ fmt_dec stop | None => fmt_dec start end)
       | None => None
       end.

Definition mask_from_indices (indices : list Z) : option Z := let mask := or_bits indices in if mask =? 0 then None else Some mask.

Definition resolve_mask (spec : bytes) (n : Z) : option Z :=
  if bool_decide (trim spec = []) then build_mask_excluding_0_and_1 n
  else indices ← parse_cpu_affinity_spec spec n; mask_from_indices indices.

(** ** Masks *)

Lemma elem_of_range lo hi i : i ∈ range lo hi <-> lo <= i < hi.
Proof.
  unfold range. rewrite list_elem_of_fmap. split.
  - intros (k & -> & K%elem_of_seq). lia.
  - intros R. exists (Z.to_nat (i - lo)). split; [lia|]. apply elem_of_seq. lia.
Qed.

Lemma or_bits_testbit l : Forall (fun i => 0 <= i < 64) l -> forall i, 0 <= i -> Z.testbit (or_bits l) i = true <-> i ∈ l.
Proof.
  intros F i I. unfold or_bits. assert (G : forall m, Z.testbit (foldl (fun mask i => Z.lor mask (cpu_bit i)) m l) i = true <-> Z.testbit m i = true \/ i ∈ l).
  { induction F as [|j l J F IH]; intros m; cbn [foldl]; [set_solver|]. rewrite IH, Z.lor_spec, orb_true_iff, elem_of_cons. unfold cpu_bit.
    rewrite Z.mod_small by lia. rewrite Z.shiftl_spec by done.
    assert (B : Z.testbit 1 (i - j) = true <-> i = j).
    { destruct (Z.eq_dec i j) as [->|N]; [by rewrite Z.sub_diag|]. split; [|done]. destruct (Z_lt_ge_dec i j); [by rewrite Z.testbit_neg_r by lia|].
      change 1 with (2 ^ 0). rewrite Z.pow2_bits_false by lia. done. }
    rewrite B. tauto. }
  rewrite G, Z.testbit_0_l. split; [by intros [?|?]|by right].
Qed.

Lemma or_bits_bound l n : Forall (fun i => 0 <= i < n) l -> n <= 64 -> 0 <= or_bits l < 2 ^ Z.max n 0.
Proof.
  intros F N. assert (P : 0 <= or_bits l).
  { unfold or_bits. assert (G : forall m, 0 <= m -> 0 <= foldl (fun mask i => Z.lor mask (cpu_bit i)) m l).
    { clear F. induction l as [|j l IH]; intros m M; cbn; [done|]. apply IH. apply Z.lor_nonneg. split; [done|]. apply Z.shiftl_nonneg. lia. } by apply G. }
  split; [done|]. destruct (Z.eq_dec (or_bits l) 0) as [->|Q]; [apply Z.pow_pos_nonneg; lia|]. apply Z.log2_lt_pow2; [lia|].
  assert (F' : Forall (fun i => 0 <= i < 64) l) by (eapply Forall_impl; [exact F|]; cbn; intros; lia).
  assert (T : Z.log2 (or_bits l) ∈ l) by (apply or_bits_testbit; [done|apply Z.log2_nonneg|apply Z.bit_log2; lia]).
  rewrite Forall_forall in F. specialize (F _ T). lia.
Qed.

(** The processors a specification names on a machine with [n]. *)
Definition selects (spec : bytes) (n i : Z) : Prop :=
  if bool_decide (trim spec = []) then 2 <= i < n
  else exists start stop, read_spec (trim spec) = Some (start, stop) /\ stop < n /\ start <= i <= stop.

Lemma parse_uint_range max l v : 0 <= max -> parse_uint max l = Some v -> 0 <= v <= max.
Proof.
  intros M. assert (G : forall k acc, 0 <= acc <= max -> parse_digits max acc k = Some v -> 0 <= v <= max).
  { induction k as [|b k IH]; intros acc A; cbn; [by intros [= <-]|]. destruct (is_digit b) eqn:D; [|done].
    destruct (_ >? _) eqn:T; [done|]. apply IH. rewrite Z.gtb_ltb, Z.ltb_ge in T. unfold is_digit in D. apply andb_true_iff in D as [D%Z.leb_le _]. lia. }
  unfold parse_uint. destruct l as [|b l]; [done|]. repeat case_match; try done; by apply G.
Qed.

Lemma read_spec_range s start stop : read_spec s = Some (start, stop) -> 0 <= start <= stop /\ stop <= U32_MAX.
Proof.
  unfold read_spec. destruct (split_once 45 s) as [[a b]|].
  - destruct (parse_uint U32_MAX (trim a)) as [x|] eqn:E1; cbn; [|done]. destruct (parse_uint U32_MAX (trim b)) as [y|] eqn:E2; cbn; [|done].
    destruct (Z.ltb_spec y x); [done|]. intros [= <- <-]. apply parse_uint_range in E1, E2; [lia|done..].
  - destruct (parse_uint U32_MAX s) as [x|] eqn:E1; cbn; [|done]. intros [= <- <-]. apply parse_uint_range in E1; [lia|done].
Qed.

(** The mask a specification resolves to has exactly the bits of the processors it names, all of them below the
    number of processors. *)
Theorem affinity_mask_exact spec n mask : 0 <= n <= MAX_AFFINITY_BITS -> resolve_mask spec n = Some mask ->
  0 < mask < 2 ^ n /\ forall i, 0 <= i -> Z.testbit mask i = true <-> selects spec n i.
Proof.
  unfold MAX_AFFINITY_BITS. intros N. unfold resolve_mask, selects. case_bool_decide as B.
  - unfold build_mask_excluding_0_and_1. destruct (Z.leb_spec n 2); [done|]. unfold MAX_AFFINITY_BITS. rewrite Z.min_l by lia.
    assert (F : Forall (fun i => 0 <= i < n) (range 2 n)) by (apply Forall_forall; intros i I%elem_of_range; lia).
    destruct (Z.eqb_spec (or_bits (range 2 n)) 0) as [|Q]; [done|]. intros [= <-]. pose proof (or_bits_bound _ n F ltac:(lia)) as R. rewrite Z.max_l in R by lia. split; [lia|].
    intros i I. rewrite or_bits_testbit, elem_of_range; [done| |done]. eapply Forall_impl; [exact F|]. cbn. intros; lia.
  - unfold parse_cpu_affinity_spec. rewrite bool_decide_eq_false_2 by done. destruct (n =? 0); [done|]. destruct (read_spec (trim spec)) as [[start stop]|] eqn:E; [|done].
    destruct (Z.leb_spec n stop) as [|S]; [done|]. cbn. unfold mask_from_indices. destruct (read_spec_range _ _ _ E) as [P _].
    assert (F : Forall (fun i => 0 <= i < n) (range start (stop + 1))) by (apply Forall_forall; intros i I%elem_of_range; lia).
    destruct (Z.eqb_spec (or_bits (range start (stop + 1))) 0) as [|Q]; [done|]. intros [= <-].
    pose proof (or_bits_bound _ n F ltac:(lia)) as R. rewrite Z.max_l in R by lia. split; [lia|]. intros i I.
    rewrite or_bits_testbit, elem_of_range; [|eapply Forall_impl; [exact F|]; cbn; intros; lia|done]. split.
    + intros X. exists start, stop. split_and!; [done|done|lia|lia].
    + intros (a & b & [= <- <-] & _ & X). lia.
Qed.

(** ** The normal form *)

Lemma digits_solid l : Forall (fun b => 48 <= b <= 57) l -> Forall (fun b => no_space_at b = true) l.
Proof.
  intros D. eapply Forall_impl; [exact D|]. intros b B. cbn in B. assert (forallb no_space_at (range 48 58) = true) as F by (by vm_compute). rewrite forallb_forall in F.
  apply F, list_elem_of_In, elem_of_range. lia.
Qed.

Lemma fmt_dec_nonempty n : fmt_dec n <> [].
Proof. intros E. apply (f_equal (@rev Z)) in E. unfold fmt_dec in E. rewrite rev_involutive in E. by apply dec_rev_nonempty in E. Qed.

Lemma split_once_digits l : Forall (fun b => 48 <= b <= 57) l -> split_once 45 l = None.
Proof. induction 1 as [|b l B _ IH]; [done|]. cbn. rewrite (proj2 (Z.eqb_neq _ _)) by lia. by rewrite IH. Qed.
Lemma split_once_dash l r : Forall (fun b => 48 <= b <= 57) l -> split_once 45 (l ++ 45 :: r) = Some (l, r).
Proof. induction 1 as [|b l B _ IH]; [done|]. cbn. rewrite (proj2 (Z.eqb_neq _ _)) by lia. by rewrite IH. Qed.

(** What is stored for a specification means the same as the specification, on every machine. *)
Lemma normal_form_same spec t n : normalize_cpu_affinity_spec spec = Some t -> parse_cpu_affinity_spec t n = parse_cpu_affinity_spec spec n.
Proof.
  unfold normalize_cpu_affinity_spec, parse_cpu_affinity_spec. case_bool_decide as B; [done|]. destruct (read_spec (trim spec)) as [[start stop]|] eqn:E; [|done].
  destruct (read_spec_range _ _ _ E) as [P Q]. unfold U32_MAX in Q. assert (FS : Forall (fun b => 48 <= b <= 57) (fmt_dec start)) by (apply fmt_dec_digits; lia).
  assert (FT : Forall (fun b => 48 <= b <= 57) (fmt_dec stop)) by (apply fmt_dec_digits; lia).
  assert (U : forall v, 0 <= v <= stop -> parse_uint U32_MAX (fmt_dec v) = Some v) by (intros v V; apply parse_uint_fmt_dec; unfold U32_MAX, U64_MAX; lia).
  intros [= <-]. destruct (split_once 45 (trim spec)) as [[a b]|] eqn:S.
  - assert (T : trim (fmt_dec start ++ [45] ++ fmt_dec stop) = fmt_dec start ++ [45] ++ fmt_dec stop).
    { apply trim_solid. apply Forall_app. split; [by apply digits_solid|]. apply Forall_cons. split; [by vm_compute|by apply digits_solid]. }
    cbn [app] in T |- *. rewrite T, bool_decide_eq_false_2; [|intros X; apply (fmt_dec_nonempty start); by destruct (fmt_dec start)].
    unfold read_spec. cbn [app]. rewrite split_once_dash by done. rewrite !trim_solid, !U by (try apply digits_solid; try done; lia). cbn.
    by rewrite (proj2 (Z.ltb_ge _ _)) by lia.
  - assert (stop = start) as -> by (unfold read_spec in E; rewrite S in E; destruct (parse_uint U32_MAX (trim spec)); [by injection E as -> ->|done]).
    rewrite trim_solid by by apply digits_solid. rewrite bool_decide_eq_false_2 by apply fmt_dec_nonempty. unfold read_spec. rewrite split_once_digits, U by (done || lia). done.
Qed.

(** ** Concrete specifications *)

(** [ 2-5 ] on eight processors. *)
Lemma affinity_mask_exact_witness : 0 < 60 < 2 ^ 8 /\ Z.testbit 60 5 = true.
Proof.
  destruct (affinity_mask_exact (str_bytes " 2-5 ") 8 60) as [B T]; [by vm_compute|by vm_compute|]. split; [exact B|].
  apply T; [done|]. unfold selects. vm_compute. exists 2, 5. by vm_compute.
Defined.
