(* ===== verification/Reconnect.v ===== *)
(** * Background tasks of a session (src/net/engine.rs, src/nat/ice.rs)

    The engine starts tasks that punch, check candidates and keep paths alive, and stops each through a
    flag it keeps in a map under a key.  [Workflows] is that bookkeeping with what starts and stops the
    tasks: answers of trackers, joining, leaving, commands and the reset of a session.  A task is a row of
    [wf_tasks] while it runs, with its flag; [WfDone] is its end.  What the canonical workflow sends is in
    Punch; the pass of a tick and the checks are here, and of a keepalive only its start and stop.

    [tasks_stoppable]: no task ever runs out of reach of the engine.  [join_waits_answered]: who waits for
    a join is answered once.  [reconnect_justified]: what an announce may start.  [ice_sweeps]: what a check
    sends.  [fifth_peer_locked_out] shows that workflows that ended keep the places of the limit, and
    [low_port_misannounced] that a low port is announced as another. *)

From Stdlib Require Import Ascii String.
From S2P Require Import Prelude Text Float Packet Crypto Tuning Paths Routing Tracker Punch Discovery Json Members.
#[local] Open Scope Z_scope.

Definition DECENTRALIZED_KEY : string := "decentralized".
Definition DECENTRALIZED_JOIN_OVERLAY_KEY : string := "decentralized-join-overlay".
Definition DECENTRALIZED_RECONNECT_FASTPATH_KEY : string := "decentralized-reconnect-fastpath".
Definition PEER_RECONNECT_KEY_PREFIX : string := "peer-reconnect:".
Definition PEER_RECONNECT_UNBOUND_KEY : string := "peer-reconnect:unbound".
Definition PEER_RECONNECT_ANNOUNCE_BUDGET : nat := 8.
Definition PEER_RECONNECT_MAX_DISTINCT_KEYS : Z := 4.
Definition PEER_RECONNECT_COOLDOWN : Duration := from_secs 30.

(** ** Tasks *)

Inductive Registry := ByPunch | ByIce | ByKeepalive.
#[export] Instance Registry_eq_dec : EqDecision Registry.
Proof. solve_decision. Defined.

Inductive Job :=
| Canonical (bases : list SocketAddr) (log_stages : bool)
| Pass (targets : list SocketAddr)
| IceChecks (targets : list SocketAddr)
| Keepalive (targets : list SocketAddr) (interval : Duration).

Record Task := mkTask { ta_registry : Registry; ta_key : string; ta_job : Job; ta_stop : bool }.
#[export] Instance eta_Task : Settable Task := fun r => mkTask (ta_registry r) (ta_key r) (ta_job r) (ta_stop r).

(** What becomes of a join that is waited for: the sender gets [None], gets the acknowledgement (and is
    still listening or not), or is dropped. *)
Inductive JoinOutcome := JoinRefused | JoinAcked (heard : bool) | JoinDropped.

(** A sender of [join_tx] is known by its number, [wf_asked] is the next one.  The fields of the fast path
    are never set and left out. *)
Record Workflows := mkWf {
  wf_vip : string; wf_crypto : bool; wf_rt : RoutingTable; wf_disc : DecentralizedState; wf_log : DiscLog; wf_public : option SocketAddr;
  wf_join : option Z; wf_asked : Z; wf_answers : list (Z * JoinOutcome); wf_prepared_at : option Instant; wf_pending_ack : option JoinAck;
  wf_punch : gmap string Z; wf_ice : gmap string Z; wf_keep : gmap string Z; wf_tasks : gmap Z Task; wf_next : Z;
  wf_overlay : gset SocketAddr; wf_cooldown : gmap string Instant
}.
#[export] Instance eta_Workflows : Settable Workflows := fun r =>
  mkWf (wf_vip r) (wf_crypto r) (wf_rt r) (wf_disc r) (wf_log r) (wf_public r) (wf_join r) (wf_asked r) (wf_answers r) (wf_prepared_at r)
    (wf_pending_ack r) (wf_punch r) (wf_ice r) (wf_keep r) (wf_tasks r) (wf_next r) (wf_overlay r) (wf_cooldown r).

Definition new_workflows (now : Instant) : Workflows :=
  mkWf EmptyString false (new_table now) default_decentralized (mkDiscLog [] [] [] []) None None 0 [] None None ∅ ∅ ∅ ∅ 0 ∅ ∅.

Definition stops (g : Registry) (st : Workflows) : gmap string Z :=
  match g with ByPunch => wf_punch st | ByIce => wf_ice st | ByKeepalive => wf_keep st end.
Definition set_stops (g : Registry) (m : gmap string Z) (st : Workflows) : Workflows :=
  match g with ByPunch => st <| wf_punch := m |> | ByIce => st <| wf_ice := m |> | ByKeepalive => st <| wf_keep := m |> end.

(** [stop.store(true)]. *)
Definition raise_flag (tasks : gmap Z Task) (id : Z) : gmap Z Task := alter (fun t => t <| ta_stop := true |>) id tasks.

(** [if let Some(stop) = map.remove(key) { stop.store(true) }]. *)
Definition stop_key (g : Registry) (key : string) (st : Workflows) : Workflows :=
  match stops g st !! key with
  | Some id => set_stops g (delete key (stops g st)) st <| wf_tasks := raise_flag (wf_tasks st) id |>
  | None => st
  end.

(** A new flag in the map, and the task that holds it. *)
Definition spawn (g : Registry) (key : string) (job : Job) (st : Workflows) : Workflows :=
  set_stops g (<[key := wf_next st]> (stops g st)) st
    <| wf_tasks := <[wf_next st := mkTask g key job false]> (wf_tasks st) |> <| wf_next := wf_next st + 1 |>.

Definition stop_punch_workflow_key (key : string) (st : Workflows) : Workflows := stop_key ByPunch key st.

Definition spawn_punch_workflow (key : string) (bases : list SocketAddr) (log_stages : bool) (st : Workflows) : Workflows :=
  if bool_decide (bases = []) then st
  else spawn ByPunch key (Canonical bases log_stages) (stop_punch_workflow_key key st).

Definition stop_join_punch_overlay_task (st : Workflows) : Workflows := stop_key ByPunch DECENTRALIZED_JOIN_OVERLAY_KEY st.
Definition stop_join_punch_overlay (st : Workflows) : Workflows := stop_join_punch_overlay_task st <| wf_overlay := ∅ |>.
Definition stop_decentralized_reconnect_fastpath (st : Workflows) : Workflows := stop_key ByPunch DECENTRALIZED_RECONNECT_FASTPATH_KEY st.

Definition is_reconnect_key (key : string) : bool := String.prefix PEER_RECONNECT_KEY_PREFIX key.
Definition reconnect_key (v : string) : string := PEER_RECONNECT_KEY_PREFIX +:+ v.
Definition stop_peer_reconnect_for_vip (v : string) (st : Workflows) : Workflows := stop_punch_workflow_key (reconnect_key v) st.

(** ** The loops of the tasks

    The pass over the punch targets of a tick, and the checks of candidates; [stop k] is the [k]-th reading
    of the flag, the trace is that of Punch. *)

Definition SPACING : Duration := from_millis 2.
Definition BURST_PER_TARGET : nat := 2.
Definition MAX_PER_TICK : Z := 8.
Definition ice_phases : list (Duration * nat) := [(from_millis 30, 50%nat); (from_millis 100, 20%nat); (from_millis 500, 6%nat)].
(** The pause after each round. *)
Definition ice_delays : list Duration := flat_map (fun x : Duration * nat => repeat x.1 x.2) ice_phases.

(** The targets of a round that starts at [next]. *)
Definition ice_batch (targets : list SocketAddr) (next : Z) : list SocketAddr :=
  omap (fun k => targets !! Z.to_nat ((next + Z.of_nat k) mod len targets)) (seq 0 (Z.to_nat (Z.min MAX_PER_TICK (len targets)))).

Section Loops.
Variable stop : nat -> bool.

Fixpoint burst (n pkt : nat) (t : SocketAddr) (r : PunchRun) : PunchRun :=
  match n with
  | O => r
  | S n => let '(b, r) := load stop r in if b then r else burst n pkt t (emit (emit r (Send t pkt)) (Slept SPACING))
  end.
Fixpoint punch_pass (targets : list SocketAddr) (r : PunchRun) : PunchRun :=
  match targets with
  | [] => r
  | t :: targets => let '(b, r) := load stop r in if b then r else punch_pass targets (burst BURST_PER_TARGET (pr_built r) t (built r))
  end.

Fixpoint ice_sends (pkt : nat) (targets : list SocketAddr) (r : PunchRun) : bool * PunchRun :=
  match targets with
  | [] => (false, r)
  | t :: targets => let '(b, r) := load stop r in if b then (true, r) else ice_sends pkt targets (emit r (Send t pkt))
  end.
Fixpoint ice_rounds (delays : list Duration) (targets : list SocketAddr) (next : Z) (r : PunchRun) : PunchRun :=
  match delays with
  | [] => r
  | d :: delays =>
      let '(b, r) := load stop r in
      if b then r
      else
        let '(b, r) := ice_sends (pr_built r) (ice_batch targets next) (built r) in
        if b then r
        else ice_rounds delays targets ((next + Z.min MAX_PER_TICK (len targets)) mod Z.max (len targets) 1) (emit r (Slept d))
  end.
Definition ice_checks (targets : list SocketAddr) (r : PunchRun) : PunchRun := ice_rounds ice_delays targets 0 r.
End Loops.

(** ** Which endpoints *)

Inductive UniqueIpMatch := Bound (v : string) | Unbound.

Section Reconnect.
Context `{HashIter} `{AddrText}.

Definition filter_decentralized_punch_targets (rt : RoutingTable) (targets : list SocketAddr) : list SocketAddr :=
  List.filter (fun ep =>
    match rt_ep_to_vip rt !! ep with
    | None => true
    | Some v => match rt_table rt !! v with None => true | Some e => negb (bool_decide (re_state e = Active)) end
    end) targets.

Definition unique_ip_peer_vip (rt : RoutingTable) (my_vip : string) (ip : IpAddr) : UniqueIpMatch :=
  match omap (fun x : string * RouteEntry =>
                if bool_decide (x.1 = my_vip) then None else if bool_decide (sa_ip (re_endpoint x.2) = ip) then Some x.1 else None)
             (hm_iter (rt_table rt)) with
  | [v] => Bound v
  | _ => Unbound
  end.

Definition peer_route_needs_work (rt : RoutingTable) (v : string) (candidate : SocketAddr) : bool :=
  match rt_table rt !! v with
  | None => true
  | Some e => match re_state e with Candidate | Degraded | Stale => true | Active => negb (bool_decide (re_endpoint e = candidate)) end
  end.

Definition peer_announce_needs_work_unbound (rt : RoutingTable) (addr : SocketAddr) : bool :=
  match rt_ep_to_vip rt !! addr with
  | None => true
  | Some v => match rt_table rt !! v with
              | None => true
              | Some e => negb (bool_decide (re_state e = Active) && bool_decide (re_endpoint e = addr))
              end
  end.

(** The order of [SocketAddr]. *)
Definition addr_le (a b : SocketAddr) : bool :=
  if bool_decide (sa_ip a = sa_ip b) then sa_port a <=? sa_port b else ip_le (sa_ip a) (sa_ip b).
(** [sort] and [dedup]. *)
Fixpoint insert_addr (x : SocketAddr) (l : list SocketAddr) : list SocketAddr :=
  match l with
  | [] => [x]
  | y :: l => if bool_decide (x = y) then y :: l else if addr_le y x then y :: insert_addr x l else x :: y :: l
  end.
Definition sort_dedup (l : list SocketAddr) : list SocketAddr := foldl (fun l x => insert_addr x l) [] l.

(** ** Reconnecting *)

Definition distinct_peer_reconnect_key_count (st : Workflows) : Z :=
  Z.of_nat (size (filter (fun x : string * Z => is_reconnect_key x.1 = true) (wf_punch st))).

Definition peer_reconnect_on_cooldown (cooldown_key : string) (now : Instant) (st : Workflows) : bool :=
  match wf_cooldown st !! cooldown_key with Some at' => duration_since now at' <? PEER_RECONNECT_COOLDOWN | None => false end.

Definition spawn_peer_reconnect_workflow (key : string) (bases : list SocketAddr) (cooldown_key : string) (now : Instant) (st : Workflows) : Workflows :=
  if bool_decide (bases = []) then st
  else if bool_decide (wf_punch st !! key = None) && (PEER_RECONNECT_MAX_DISTINCT_KEYS <=? distinct_peer_reconnect_key_count st) then st
  else if peer_reconnect_on_cooldown cooldown_key now st then st
  else
    let st := spawn_punch_workflow key bases false st in
    if bool_decide (is_Some (wf_punch st !! key)) then st <| wf_cooldown := <[cooldown_key := now]> (wf_cooldown st) |> else st.

Definition stop_all_peer_reconnect_workflows (st : Workflows) : Workflows :=
  foldl (fun st key => stop_punch_workflow_key key st) st (List.filter is_reconnect_key (hm_iter (wf_punch st)).*1) <| wf_cooldown := ∅ |>.

Definition stop_decentralized_discovery (st : Workflows) : Workflows :=
  let st := st <| wf_disc := Discovery.stop (wf_disc st) |> <| wf_log := new_session (wf_log st) |> in
  let st := stop_all_peer_reconnect_workflows (stop_decentralized_reconnect_fastpath (stop_join_punch_overlay st)) in
  stop_key ByPunch DECENTRALIZED_KEY st.

(** One address of an announce: to the peer whose only known address it has, or to none. *)
Definition sort_announced (rt : RoutingTable) (my_vip : string) (acc : gmap string (list SocketAddr) * list SocketAddr) (addr : SocketAddr)
  : gmap string (list SocketAddr) * list SocketAddr :=
  let '(vip_bases, unbound) := acc in
  match unique_ip_peer_vip rt my_vip (sa_ip addr) with
  | Bound v => if peer_route_needs_work rt v addr then (<[v := default [] (vip_bases !! v) ++ [addr]]> vip_bases, unbound) else acc
  | Unbound => if peer_announce_needs_work_unbound rt addr then (vip_bases, unbound ++ [addr]) else acc
  end.

Definition has_peer_vip_in_rt (st : Workflows) : bool :=
  bool_decide (map_size (filter (fun x : string * RouteEntry => x.1 <> wf_vip st) (rt_table (wf_rt st))) <> 0%nat).

Definition try_peer_reconnect_from_announce (peers : list SocketAddr) (now : Instant) (st : Workflows) : Workflows :=
  if bool_decide (is_Some (wf_join st)) || negb (dc_active (wf_disc st)) then st
  else if negb (has_peer_vip_in_rt st) then st
  else if negb (wf_crypto st) then st
  else
    let '(vip_bases, unbound) := foldl (sort_announced (wf_rt st) (wf_vip st)) (∅, []) (take PEER_RECONNECT_ANNOUNCE_BUDGET peers) in
    let st := foldl (fun st (x : string * list SocketAddr) => spawn_peer_reconnect_workflow (reconnect_key x.1) (sort_dedup x.2) x.1 now st)
                st (hm_iter vip_bases) in
    if bool_decide (unbound = []) then st
    else spawn_peer_reconnect_workflow PEER_RECONNECT_UNBOUND_KEY (sort_dedup unbound) "unbound" now st.

(** ** Joining *)

Definition is_joiner (st : Workflows) : bool := dc_is_joiner (wf_disc st).

Definition spawn_decentralized_join_punch (now : Instant) (st : Workflows) : Workflows :=
  if bool_decide (wf_join st = None) || negb (is_joiner st) then st
  else
    let '(d, bases) := exact_targets (wf_disc st) (wf_public st) now in
    let st := st <| wf_disc := d |> in
    let bases := filter_decentralized_punch_targets (wf_rt st) bases in
    if bool_decide (bases = []) then st
    else spawn_punch_workflow DECENTRALIZED_JOIN_OVERLAY_KEY bases true (stop_join_punch_overlay_task st).

Definition on_join_wait_finished (st : Workflows) : Workflows :=
  stop_decentralized_reconnect_fastpath (stop_join_punch_overlay (st <| wf_disc := set_joiner_active (wf_disc st) false |>)).

Definition on_decentralized_tracker_event (ev : TrackerDatagramEvent) (now : Instant) (st : Workflows) : Workflows :=
  match tv_announce ev with
  | None => st
  | Some (peers, first_announce_in_join) =>
      if bool_decide (is_Some (wf_join st)) && is_joiner st then
        if first_announce_in_join || existsb (fun p => negb (bool_decide (p ∈ wf_overlay st))) peers
        then spawn_decentralized_join_punch now (st <| wf_overlay := wf_overlay st ∪ list_to_set peers |>)
        else st
      else try_peer_reconnect_from_announce peers now st
  end.

(** The sender waiting in [join_tx], if any, is taken out and gets [o]. *)
Definition answer_waiting (o : JoinOutcome) (st : Workflows) : Workflows :=
  match wf_join st with Some id => st <| wf_join := None |> <| wf_answers := wf_answers st ++ [(id, o)] |> | None => st end.

(** The [PrepareJoin] command, up to the packets it sends. *)
Definition prepare_join (now : Instant) (st : Workflows) : Workflows :=
  let id := wf_asked st in
  let st := st <| wf_asked := id + 1 |> in
  if match wf_prepared_at st with Some prev => duration_since now prev <? from_millis 200 | None => false end
  then st <| wf_answers := wf_answers st ++ [(id, JoinRefused)] |>
  else
    let st := answer_waiting JoinRefused (st <| wf_prepared_at := Some now |>) <| wf_join := Some id |> <| wf_crypto := true |> in
    if dc_active (wf_disc st) && is_joiner st then spawn_decentralized_join_punch now st else st.

Definition set_join_sender (st : Workflows) : Workflows :=
  let id := wf_asked st in
  answer_waiting JoinDropped (st <| wf_asked := id + 1 |>) <| wf_join := Some id |>.

Definition cancel_join_wait (st : Workflows) : Workflows :=
  stop_decentralized_discovery (answer_waiting JoinRefused st <| wf_pending_ack := None |>).

(** An acknowledgement of the join that passed the checks of [handle_jack]; [heard] is whether the waiting side still listens. *)
Definition finish_join (ack : JoinAck) (heard : bool) (st : Workflows) : Workflows :=
  if bool_decide (wf_join st = None) && negb (is_joiner st) then st
  else
    let delivered := bool_decide (is_Some (wf_join st)) && heard in
    let st := answer_waiting (JoinAcked heard) st in
    if negb delivered && negb (is_joiner st) then st
    else
      let st := on_join_wait_finished st in
      if delivered then st else st <| wf_pending_ack := Some ack |>.

(** ** Commands and ticks *)

(** The port that is announced, from the one the socket is bound to. *)
Definition listen_port (bound : option Z) : Z := Z.max (default 7878 bound) 7878.

Definition start_decentralized (room node : bytes) (trackers : list bytes) (secs : Z) (joiner : bool) (body : option bytes) (bound : option Z) (st : Workflows)
  : Workflows :=
  let st := stop_key ByPunch DECENTRALIZED_KEY st in
  let st := st <| wf_disc := Discovery.start (wf_disc st) room node trackers secs joiner body (listen_port bound) |> <| wf_log := new_session (wf_log st) |> in
  stop_decentralized_reconnect_fastpath st.

Definition spawn_decentralized_punch_pass (targets : list SocketAddr) (st : Workflows) : Workflows :=
  if bool_decide (targets = []) then st else spawn ByPunch DECENTRALIZED_KEY (Pass targets) (stop_key ByPunch DECENTRALIZED_KEY st).

(** The tick of the engine; its join messages are part of Discovery. *)
Definition engine_decentralized_tick (envs : nat -> SlotEnv) (http_at swept_at pruned_at : Instant) (st : Workflows) : Workflows :=
  let '(d, lg, out) := run_decentralized_tick (wf_disc st) (wf_log st) (wf_public st) (bool_decide (is_Some (wf_join st))) envs http_at swept_at pruned_at in
  let st := st <| wf_disc := d |> <| wf_log := lg |> in
  let targets := filter_decentralized_punch_targets (wf_rt st) (to_punch_targets out) in
  if bool_decide (wf_join st = None) then spawn_decentralized_punch_pass targets st else st.

Definition set_peer_keepalive (key : string) (targets : list SocketAddr) (interval_ms : Z) (st : Workflows) : Workflows :=
  if bool_decide (targets = []) then st
  else spawn ByKeepalive key (Keepalive targets (from_millis (Z.max interval_ms 100))) (stop_key ByKeepalive key st).

Definition stop_all (g : Registry) (st : Workflows) : Workflows :=
  set_stops g ∅ st <| wf_tasks := foldl raise_flag (wf_tasks st) (hm_iter (stops g st)).*2 |>.
Definition stop_background_loops (st : Workflows) : Workflows := stop_all ByKeepalive (stop_all ByIce (stop_all ByPunch st)).

(** This part of [reset_session_state]. *)
Definition reset_session_state (now : Instant) (st : Workflows) : Workflows :=
  let st := answer_waiting JoinRefused (stop_decentralized_discovery st) in
  stop_background_loops (st <| wf_pending_ack := None |>) <| wf_crypto := false |> <| wf_vip := EmptyString |> <| wf_rt := new_table now |>.

(** ** Candidates *)

Record IceCandidate := mkIce { ic_ip : string; ic_port : Z; ic_kind : string }.

Definition gather_candidates (local_ip : string) (local_port : Z) (stun upnp : option (string * Z)) : list IceCandidate :=
  [mkIce local_ip local_port "host"] ++
  match stun with Some (ip, port) => [mkIce ip port "srflx"] | None => [] end ++
  match upnp with Some (ip, port) => [mkIce ip port "upnp"] | None => [] end.

Definition kind_rank (c : IceCandidate) : Z :=
  if bool_decide (ic_kind c = "srflx"%string) then 0 else if bool_decide (ic_kind c = "upnp"%string) then 1
  else if bool_decide (ic_kind c = "host"%string) then 2 else 3.

(** [sort_by_key] is stable. *)
Definition sort_candidates (l : list IceCandidate) : list IceCandidate := flat_map (fun k => List.filter (fun c => kind_rank c =? k) l) [0; 1; 2; 3].

Definition ice_targets (l : list IceCandidate) : list SocketAddr :=
  omap (fun c => parse_addr (ic_ip c +:+ ":" +:+ bytes_str (fmt_dec (ic_port c)))) (sort_candidates l).

Definition start_ice_checks (candidates : list IceCandidate) (src_node : string) (st : Workflows) : Workflows :=
  let targets := ice_targets candidates in
  if bool_decide (targets = []) then st else spawn ByIce src_node (IceChecks targets) (stop_key ByIce src_node st).

(** ** Runs *)

Inductive WfEvent :=
| WfDone (id : Z)
| WfWorld (v : string) (crypto : bool) (rt : RoutingTable) (public : option SocketAddr)
| WfDatagram (from : SocketAddr) (data : bytes) (now : Instant)
| WfHttp (slot : nat) (generation : Z) (url : bytes) (outcome : option (Z * list SocketAddr)) (now : Instant)
| WfTick (envs : nat -> SlotEnv) (http_at swept_at pruned_at : Instant)
| WfPrepareJoin (now : Instant)
| WfSetJoinSender
| WfCancelJoin
| WfJoinError
| WfJoinAck (ack : JoinAck) (heard : bool)
| WfTakeAck
| WfStart (room node : bytes) (trackers : list bytes) (secs : Z) (joiner : bool) (body : option bytes) (bound : option Z)
| WfStop
| WfPunch (key : string) (bases : list SocketAddr) (log_stages : bool)
| WfStopPunch (key : string)
| WfStopReconnect (v : string)
| WfIce (candidates : list IceCandidate) (src_node : string)
| WfStopIce (node : string)
| WfKeepalive (key : string) (targets : list SocketAddr) (interval_ms : Z)
| WfStopKeepalive (key : string)
| WfReset (now : Instant)
| WfShutdown.

Variable fmt : SocketAddr -> bytes.

Definition wf_step (st : Workflows) (e : WfEvent) : Workflows :=
  match e with
  | WfDone id => st <| wf_tasks := delete id (wf_tasks st) |>
  | WfWorld v crypto rt public => st <| wf_vip := v |> <| wf_crypto := crypto |> <| wf_rt := rt |> <| wf_public := public |>
  | WfDatagram from data now =>
      let '(d, _, ev) := handle_datagram fmt (wf_disc st) from data now in
      let st := st <| wf_disc := d |> in
      match ev with Some ev => on_decentralized_tracker_event ev now st | None => st end
  | WfHttp slot generation url outcome now =>
      let '(d, ev) := apply_http_announce_result (wf_disc st) slot generation url outcome now in
      let st := st <| wf_disc := d |> in
      match ev with Some ev => on_decentralized_tracker_event ev now st | None => st end
  | WfTick envs http_at swept_at pruned_at => engine_decentralized_tick envs http_at swept_at pruned_at st
  | WfPrepareJoin now => prepare_join now st
  | WfSetJoinSender => set_join_sender st
  | WfCancelJoin => cancel_join_wait st
  | WfJoinError => answer_waiting JoinRefused st
  | WfJoinAck ack heard => finish_join ack heard st
  | WfTakeAck => st <| wf_pending_ack := None |>
  | WfStart room node trackers secs joiner body bound => start_decentralized room node trackers secs joiner body bound st
  | WfStop => stop_decentralized_discovery st
  | WfPunch key bases log_stages => spawn_punch_workflow key bases log_stages st
  | WfStopPunch key => stop_punch_workflow_key key st
  | WfStopReconnect v => stop_peer_reconnect_for_vip v st
  | WfIce candidates src_node => start_ice_checks candidates src_node st
  | WfStopIce node => stop_key ByIce node st
  | WfKeepalive key targets interval_ms => set_peer_keepalive key targets interval_ms st
  | WfStopKeepalive key => stop_key ByKeepalive key st
  | WfReset now => reset_session_state now st
  | WfShutdown => stop_background_loops st
  end.
Definition wf_run (es : list WfEvent) (now : Instant) : Workflows := foldl wf_step (new_workflows now) es.
End Reconnect.

(** ** No task out of reach *)

Record wf_ok (st : Workflows) : Prop := {
  wo_registered : forall id t, wf_tasks st !! id = Some t -> ta_stop t = false -> stops (ta_registry t) st !! ta_key t = Some id;
  wo_owner : forall g k id t, stops g st !! k = Some id -> wf_tasks st !! id = Some t -> ta_registry t = g /\ ta_key t = k;
  wo_task_ids : forall id t, wf_tasks st !! id = Some t -> id < wf_next st;
  wo_flag_ids : forall g k id, stops g st !! k = Some id -> id < wf_next st
}.

(** Only the maps of flags and the tasks count. *)
Lemma wf_ok_ext st st' : wf_punch st' = wf_punch st -> wf_ice st' = wf_ice st -> wf_keep st' = wf_keep st -> wf_tasks st' = wf_tasks st ->
  wf_next st' = wf_next st -> wf_ok st -> wf_ok st'.
Proof.
  intros P I K T N [A B C D]. assert (S : forall g, stops g st' = stops g st) by (by intros []).
  split; intros *; rewrite ?S, ?T, ?N; eauto.
Qed.

Lemma stops_set g g' m st : stops g (set_stops g' m st) = if decide (g = g') then m else stops g st.
Proof. by destruct g, g'. Qed.
Lemma set_stops_tasks g m st : wf_tasks (set_stops g m st) = wf_tasks st /\ wf_next (set_stops g m st) = wf_next st.
Proof. by destruct g. Qed.
Lemma stops_tasks g st m : stops g (st <| wf_tasks := m |>) = stops g st.
Proof. by destruct g. Qed.
Lemma stops_next g st n : stops g (st <| wf_next := n |>) = stops g st.
Proof. by destruct g. Qed.

Lemma raise_flag_lookup m id i t : raise_flag m id !! i = Some t ->
  exists u, m !! i = Some u /\ t = (if decide (i = id) then u <| ta_stop := true |> else u).
Proof.
  unfold raise_flag. destruct (decide (i = id)) as [->|N].
  - rewrite lookup_alter_eq, fmap_Some. done.
  - rewrite lookup_alter_ne by done. intros E. by exists t.
Qed.

Lemma new_workflows_ok now : wf_ok (new_workflows now).
Proof. split; intros *; cbn; try destruct g; cbn; by rewrite ?lookup_empty. Qed.

Lemma stop_key_ok g k st : wf_ok st -> wf_ok (stop_key g k st).
Proof.
  intros [A B C D]. unfold stop_key. destruct (stops g st !! k) as [id|] eqn:E; [|done].
  destruct (set_stops_tasks g (delete k (stops g st)) st) as [_ N].
  assert (S : forall g' k' i, stops g' (set_stops g (delete k (stops g st)) st) !! k' = Some i -> stops g' st !! k' = Some i).
  { intros g' k' i. rewrite stops_set. destruct (decide (g' = g)) as [->|]; [|done]. by intros [_ ?]%lookup_delete_Some. }
  split; intros *; rewrite ?stops_tasks; cbn [wf_tasks setter wf_next]; rewrite ?N.
  - intros (u & U & ->)%raise_flag_lookup. destruct (decide (id0 = id)) as [->|I]; [done|]. intros F. rewrite stops_set.
    pose proof (A _ _ U F) as R. destruct (decide (ta_registry u = g)) as [G|]; [|done]. rewrite lookup_delete_ne; [by rewrite <- G|].
    intros K. rewrite G, <- K in R. congruence.
  - intros F (u & U & ->)%raise_flag_lookup. specialize (B _ _ _ _ (S _ _ _ F) U). by destruct (decide _).
  - intros (u & U & _)%raise_flag_lookup. eauto.
  - eauto.
Qed.

(** After it nothing is registered under the key. *)
Lemma stop_key_gone g k st : stops g (stop_key g k st) !! k = None.
Proof. unfold stop_key. destruct (stops g st !! k) eqn:E; [|done]. by rewrite stops_tasks, stops_set, decide_True, lookup_delete_eq. Qed.

Lemma spawn_task_ok g k job st : wf_ok st -> stops g st !! k = None -> wf_ok (spawn g k job st).
Proof.
  intros [A B C D] F. unfold spawn.
  assert (S : forall g' k' i, stops g' (set_stops g (<[k := wf_next st]> (stops g st)) st) !! k' = Some i ->
    (g' = g /\ k' = k /\ i = wf_next st) \/ stops g' st !! k' = Some i).
  { intros g' k' i. rewrite stops_set. destruct (decide (g' = g)) as [->|]; [|by right]. intros [[-> <-]|[_ ?]]%lookup_insert_Some; [by left|by right]. }
  split; intros *; rewrite ?stops_next, ?stops_tasks; cbn [wf_tasks setter wf_next].
  - intros [[<- <-]|[I T]]%lookup_insert_Some Fl; cbn in *; rewrite stops_set; [by rewrite decide_True, lookup_insert_eq|].
    pose proof (A _ _ T Fl) as R. destruct (decide (ta_registry t = g)) as [G|]; [|done]. rewrite lookup_insert_ne; [by rewrite <- G|].
    intros K. rewrite G, <- K in R. congruence.
  - intros [(-> & -> & ->)|E]%S [[I <-]|[I T]]%lookup_insert_Some; [done|done| |by eauto]. apply D in E. lia.
  - intros [[<- <-]|[I T]]%lookup_insert_Some; [lia|]. apply C in T. lia.
  - intros [(-> & -> & ->)|E]%S; [lia|]. apply D in E. lia.
Qed.

Lemma respawn_ok g k job st : wf_ok st -> wf_ok (spawn g k job (stop_key g k st)).
Proof. intros O. apply spawn_task_ok; [by apply stop_key_ok|apply stop_key_gone]. Qed.

Lemma raise_all_lookup ids : forall m i t, foldl raise_flag m ids !! i = Some t ->
  exists u, m !! i = Some u /\ ta_registry t = ta_registry u /\ ta_key t = ta_key u /\ (ta_stop t = false -> (i ∉ ids) /\ t = u).
Proof.
  induction ids as [|id ids IH]; intros m i t; cbn [foldl].
  - intros E. exists t. split_and!; try done. intros _. split; [apply not_elem_of_nil|done].
  - intros (u & U & R & K & F)%IH. apply raise_flag_lookup in U as (w & W & ->). exists w. destruct (decide (i = id)) as [->|N].
    + split_and!; [done..|]. intros S. destruct (F S) as [_ ->]. discriminate S.
    + split_and!; [done..|]. intros S. apply F in S as [S ->]. split; [set_solver|done].
Qed.

(** What an operation on tasks leaves alone. *)
Definition task_op (st st' : Workflows) : Prop :=
  (wf_ok st -> wf_ok st') /\ wf_join st' = wf_join st /\ wf_asked st' = wf_asked st /\ wf_answers st' = wf_answers st.
#[export] Instance task_op_refl : Reflexive task_op.
Proof. by intros st. Qed.
#[export] Instance task_op_trans : Transitive task_op.
Proof. intros a b c (A & J & K & L) (A' & J' & K' & L'). split_and!; [auto|congruence..]. Qed.

Lemma task_op_ext st st' : wf_punch st' = wf_punch st -> wf_ice st' = wf_ice st -> wf_keep st' = wf_keep st -> wf_tasks st' = wf_tasks st ->
  wf_next st' = wf_next st -> wf_join st' = wf_join st -> wf_asked st' = wf_asked st -> wf_answers st' = wf_answers st -> task_op st st'.
Proof. intros. split_and!; [|done..]. by apply wf_ok_ext. Qed.

Lemma stop_key_op g k st : task_op st (stop_key g k st).
Proof. split; [apply stop_key_ok|]. unfold stop_key. by destruct (stops g st !! k), g. Qed.

Lemma respawn_op g k job st : task_op st (spawn g k job (stop_key g k st)).
Proof.
  split; [apply respawn_ok|]. destruct (stop_key_op g k st) as (_ & J & K & L). revert J K L. generalize (stop_key g k st).
  intros s. by destruct g.
Qed.

Lemma fold_task_op {A} (f : Workflows -> A -> Workflows) l : (forall st x, task_op st (f st x)) -> forall st, task_op st (foldl f st l).
Proof. intros F. induction l as [|x l IH]; intros st; cbn; [done|]. etrans; [apply F|apply IH]. Qed.

Create HintDb tasks.
Ltac op_ext := apply task_op_ext; reflexivity.
#[export] Hint Resolve stop_key_op respawn_op task_op_refl : tasks.

Lemma spawn_punch_op k bases b st : task_op st (spawn_punch_workflow k bases b st).
Proof. unfold spawn_punch_workflow, stop_punch_workflow_key. case_bool_decide; auto with tasks. Qed.

Lemma stop_overlay_op st : task_op st (stop_join_punch_overlay st).
Proof. unfold stop_join_punch_overlay. etrans; [apply (stop_key_op ByPunch DECENTRALIZED_JOIN_OVERLAY_KEY)|op_ext]. Qed.

Section WfFacts.
Context `{HashIter} `{AddrText}.

Lemma stop_all_op g st : task_op st (stop_all g st).
Proof.
  split; [|by destruct g]. intros [A B C D]. unfold stop_all.
  assert (S : forall g' k i, stops g' (set_stops g ∅ st) !! k = Some i -> g' <> g /\ stops g' st !! k = Some i).
  { intros g' k i. rewrite stops_set. destruct (decide (g' = g)); [by rewrite lookup_empty|done]. }
  destruct (set_stops_tasks g ∅ st) as [_ N].
  split; intros *; rewrite ?stops_tasks; cbn [wf_tasks setter wf_next]; rewrite ?N.
  - intros (u & U & R & K & F)%raise_all_lookup S1. destruct (F S1) as [I ->]. pose proof (A _ _ U S1) as Q. rewrite stops_set.
    destruct (decide (ta_registry u = g)) as [<-|]; [|done]. destruct I. apply list_elem_of_fmap. exists (ta_key u, id). split; [done|].
    by apply hm_iter_elem.
  - intros [_ E]%S (u & U & R & K & _)%raise_all_lookup. destruct (B _ _ _ _ E U). split; congruence.
  - intros (u & U & _)%raise_all_lookup. eauto.
  - intros [_ E]%S. eauto.
Qed.

Lemma stop_reconnects_op st : task_op st (stop_all_peer_reconnect_workflows st).
Proof.
  unfold stop_all_peer_reconnect_workflows. set (s := foldl _ st _).
  assert (F : task_op st s) by (apply fold_task_op; intros; apply (stop_key_op ByPunch)). etrans; [exact F|op_ext].
Qed.

Lemma stop_discovery_op st : task_op st (stop_decentralized_discovery st).
Proof.
  unfold stop_decentralized_discovery. etrans; [|apply stop_key_op]. etrans; [|apply stop_reconnects_op]. etrans; [|apply stop_key_op].
  etrans; [|apply stop_overlay_op]. op_ext.
Qed.

Lemma spawn_reconnect_op k bases c now st : task_op st (spawn_peer_reconnect_workflow k bases c now st).
Proof.
  unfold spawn_peer_reconnect_workflow. case_bool_decide; [done|]. destruct (_ && _); [done|]. destruct (peer_reconnect_on_cooldown _ _ _); [done|].
  case_bool_decide; [|apply spawn_punch_op]. etrans; [apply spawn_punch_op|op_ext].
Qed.

Lemma announce_op peers now st : task_op st (try_peer_reconnect_from_announce peers now st).
Proof.
  unfold try_peer_reconnect_from_announce. destruct (_ || _); [done|]. destruct (negb _); [done|]. destruct (negb _); [done|].
  destruct (foldl _ _ _) as [vb ub].
  assert (F : task_op st (foldl (fun s (x : string * list SocketAddr) => spawn_peer_reconnect_workflow (reconnect_key x.1) (sort_dedup x.2) x.1 now s) st (hm_iter vb)))
    by (apply fold_task_op; intros; apply spawn_reconnect_op).
  case_bool_decide; [done|]. etrans; [exact F|apply spawn_reconnect_op].
Qed.

Lemma join_punch_op now st : task_op st (spawn_decentralized_join_punch now st).
Proof.
  unfold spawn_decentralized_join_punch. destruct (_ || _); [done|]. destruct (exact_targets _ _ _) as [d bases].
  case_bool_decide; [op_ext|]. etrans; [|apply spawn_punch_op]. etrans; [|apply stop_key_op]. op_ext.
Qed.

Lemma wait_finished_op st : task_op st (on_join_wait_finished st).
Proof. unfold on_join_wait_finished. etrans; [|apply stop_key_op]. etrans; [|apply stop_overlay_op]. op_ext. Qed.

Lemma tracker_event_op ev now st : task_op st (on_decentralized_tracker_event ev now st).
Proof.
  unfold on_decentralized_tracker_event. destruct (tv_announce ev) as [[peers first]|]; [|done]. destruct (_ && _); [|apply announce_op].
  destruct (_ || _); [|done]. etrans; [|apply join_punch_op]. op_ext.
Qed.

Lemma start_discovery_op room node trackers secs joiner body port st : task_op st (start_decentralized room node trackers secs joiner body port st).
Proof. unfold start_decentralized. etrans; [|apply stop_key_op]. etrans; [apply (stop_key_op ByPunch DECENTRALIZED_KEY)|op_ext]. Qed.

Lemma engine_tick_op envs a b c st : task_op st (engine_decentralized_tick envs a b c st).
Proof.
  unfold engine_decentralized_tick. destruct (run_decentralized_tick _ _ _ _ _ _ _ _) as [[d lg] out].
  case_bool_decide; [|op_ext]. unfold spawn_decentralized_punch_pass. case_bool_decide; [op_ext|]. etrans; [|apply respawn_op]. op_ext.
Qed.

Lemma stop_loops_op st : task_op st (stop_background_loops st).
Proof. unfold stop_background_loops. do 2 (etrans; [|apply stop_all_op]). apply stop_all_op. Qed.

(** ** Joins that are waited for *)

(** Every sender was answered or waits. *)
Definition joins_ok (st : Workflows) : Prop :=
  0 <= wf_asked st /\ (wf_answers st).*1 ++ option_list (wf_join st) ≡ₚ seqZ 0 (wf_asked st).

Lemma joins_task st st' : task_op st st' -> joins_ok st -> joins_ok st'.
Proof. intros (_ & J & K & L). unfold joins_ok. by rewrite J, K, L. Qed.

Lemma answer_waiting_ok o st : wf_ok st -> wf_ok (answer_waiting o st).
Proof. unfold answer_waiting. destruct (wf_join st); [by apply (wf_ok_ext st)|done]. Qed.

Lemma answer_joins o st : joins_ok st -> joins_ok (answer_waiting o st) /\ wf_join (answer_waiting o st) = None /\ wf_asked (answer_waiting o st) = wf_asked st.
Proof.
  intros [A P]. unfold answer_waiting. destruct (wf_join st) as [id|] eqn:E; [|split_and!; [split; [done|by rewrite E]|done|done]]. split; [|done]. split; [done|]. cbn.
  rewrite fmap_app, app_nil_r. exact P.
Qed.

(** One more sender, answered at once or waiting. *)
Lemma ask_joins st l j : joins_ok st -> l ++ option_list j ≡ₚ (wf_answers st).*1 ++ option_list (wf_join st) ++ [wf_asked st] ->
  forall st', wf_asked st' = wf_asked st + 1 -> (wf_answers st').*1 = l -> wf_join st' = j -> joins_ok st'.
Proof.
  intros [A P] E st' K L J. unfold joins_ok. rewrite K, L, J. split; [lia|]. rewrite E, app_assoc, P, seqZ_app by lia. done.
Qed.

Lemma prepare_join_ok now st : wf_ok st -> joins_ok st -> wf_ok (prepare_join now st) /\ joins_ok (prepare_join now st).
Proof.
  intros O J. unfold prepare_join. destruct (match wf_prepared_at _ with Some _ => _ | None => _ end).
  - split; [by apply (wf_ok_ext st)|]. eapply (ask_joins st); [exact J| |reflexivity..]. cbn. rewrite fmap_app. cbn. solve_Permutation.
  - set (s0 := st <| wf_asked := _ |> <| wf_prepared_at := _ |>).
    set (s := answer_waiting JoinRefused s0 <| wf_join := _ |> <| wf_crypto := true |>).
    assert (S : wf_ok s).
    { apply (wf_ok_ext (answer_waiting JoinRefused s0)); try reflexivity. apply answer_waiting_ok. by apply (wf_ok_ext st). }
    assert (T : joins_ok s).
    { unfold s, answer_waiting. change (wf_join s0) with (wf_join st).
      destruct (wf_join st) as [id|] eqn:E; (eapply (ask_joins st); [exact J| |reflexivity..]); rewrite E; cbn; rewrite ?fmap_app; cbn;
        by rewrite <- ?app_assoc. }
    clearbody s. destruct (_ && _); [|done]. split; [by apply join_punch_op|]. by apply (joins_task s); [apply join_punch_op|].
Qed.

(** Operations that answer who waits and otherwise work on tasks. *)
Lemma answered_ok o st st' : task_op (answer_waiting o st) st' -> wf_ok st -> joins_ok st -> wf_ok st' /\ joins_ok st'.
Proof.
  intros T O J. split; [apply T, answer_waiting_ok, O|]. eapply joins_task; [exact T|]. by apply answer_joins.
Qed.
Lemma answered_none o st st' : task_op (answer_waiting o st) st' -> wf_join st' = None.
Proof. intros (_ & -> & _). unfold answer_waiting. by destruct (wf_join st) eqn:E. Qed.

Lemma cancel_answers st : task_op (answer_waiting JoinRefused st) (cancel_join_wait st).
Proof. unfold cancel_join_wait. generalize (answer_waiting JoinRefused st). intros s. etrans; [|apply stop_discovery_op]. op_ext. Qed.

Lemma finish_answers ack heard st :
  finish_join ack heard st = st /\ wf_join st = None \/ task_op (answer_waiting (JoinAcked heard) st) (finish_join ack heard st).
Proof.
  unfold finish_join. destruct (bool_decide (wf_join st = None) && negb (is_joiner st)) eqn:E.
  { left. split; [done|]. by apply andb_prop in E as [E%bool_decide_eq_true _]. }
  right. set (delivered := bool_decide (is_Some (wf_join st)) && heard). clearbody delivered. generalize (answer_waiting (JoinAcked heard) st). intros s.
  cbv zeta. destruct (negb delivered && negb (is_joiner s)); [done|]. destruct delivered; [apply wait_finished_op|]. pose proof (wait_finished_op s) as W. revert W.
  generalize (on_join_wait_finished s). intros s' W. etrans; [exact W|op_ext].
Qed.

Lemma reset_answers now st : task_op (answer_waiting JoinRefused (stop_decentralized_discovery st)) (reset_session_state now st).
Proof.
  unfold reset_session_state. generalize (answer_waiting JoinRefused (stop_decentralized_discovery st)). intros s.
  assert (L : task_op s (stop_background_loops (s <| wf_pending_ack := None |>))) by (etrans; [|apply stop_loops_op]; op_ext).
  revert L. generalize (stop_background_loops (s <| wf_pending_ack := None |>)). intros s' L. etrans; [exact L|op_ext].
Qed.

Lemma set_sender_ok st : wf_ok st -> joins_ok st -> wf_ok (set_join_sender st) /\ joins_ok (set_join_sender st).
Proof.
  intros O J. unfold set_join_sender. set (s0 := st <| wf_asked := _ |>). split.
  - apply (wf_ok_ext (answer_waiting JoinDropped s0)); try reflexivity. apply answer_waiting_ok. by apply (wf_ok_ext st).
  - unfold answer_waiting. change (wf_join s0) with (wf_join st).
    destruct (wf_join st) as [id|] eqn:E; (eapply (ask_joins st); [exact J| |reflexivity..]); rewrite E; cbn; rewrite ?fmap_app; cbn;
      by rewrite <- ?app_assoc.
Qed.

(** The end of a task. *)
Lemma task_done_ok id st : wf_ok st -> wf_ok (st <| wf_tasks := delete id (wf_tasks st) |>).
Proof.
  intros [A B C D]. split; intros *; rewrite ?stops_tasks; cbn [wf_tasks setter wf_next];
    try (intros [_ T]%lookup_delete_Some); try (intros R [_ T]%lookup_delete_Some); eauto.
Qed.

Variable fmt : SocketAddr -> bytes.
Abbreviation step := (wf_step fmt).

Lemma wf_step_ok st e : wf_ok st -> joins_ok st -> wf_ok (step st e) /\ joins_ok (step st e).
Proof.
  intros O J. assert (T : forall st', task_op st st' -> wf_ok st' /\ joins_ok st') by (intros st' T; split; [by apply T|by apply (joins_task st)]).
  destruct e; cbn [wf_step].
  - split; [by apply task_done_ok|exact J].
  - apply T. op_ext.
  - destruct (handle_datagram _ _ _ _ _) as [[d ?] [ev|]]; apply T; [|op_ext]. etrans; [|apply tracker_event_op]. op_ext.
  - destruct (apply_http_announce_result _ _ _ _ _ _) as [d [ev|]]; apply T; [|op_ext]. etrans; [|apply tracker_event_op]. op_ext.
  - apply T, engine_tick_op.
  - by apply prepare_join_ok.
  - by apply set_sender_ok.
  - apply (answered_ok JoinRefused st); [apply cancel_answers|done..].
  - by apply (answered_ok JoinRefused st).
  - destruct (finish_answers ack heard st) as [[-> _]|F]; [done|]. by apply (answered_ok (JoinAcked heard) st).
  - apply T. op_ext.
  - apply T, start_discovery_op.
  - apply T, stop_discovery_op.
  - apply T, spawn_punch_op.
  - apply T, stop_key_op.
  - apply T, stop_key_op.
  - unfold start_ice_checks. apply T. case_bool_decide; auto with tasks.
  - apply T, stop_key_op.
  - unfold set_peer_keepalive. apply T. case_bool_decide; auto with tasks.
  - apply T, stop_key_op.
  - destruct (T _ (stop_discovery_op st)). apply (answered_ok JoinRefused (stop_decentralized_discovery st)); [apply reset_answers|done..].
  - apply T, stop_loops_op.
Qed.

Lemma wf_run_ok es now : wf_ok (wf_run fmt es now) /\ joins_ok (wf_run fmt es now).
Proof.
  unfold wf_run. assert (I : wf_ok (new_workflows now) /\ joins_ok (new_workflows now)) by (split; [apply new_workflows_ok|by split]).
  revert I. generalize (new_workflows now). induction es as [|e es IH]; intros st [O J]; [done|]. apply IH. by apply wf_step_ok.
Qed.

(** A task that is not registered was told to stop. *)
Lemma unregistered_stopped st id t : wf_ok st -> wf_tasks st !! id = Some t -> stops (ta_registry t) st !! ta_key t = None -> ta_stop t = true.
Proof. intros [A _ _ _] T N. destruct (ta_stop t) eqn:E; [done|]. apply (A _ _ T) in E. congruence. Qed.

(** Stopping a key stops the tasks under it and no other. *)
Lemma stop_key_task g k st id t : wf_ok st -> wf_tasks st !! id = Some t ->
  wf_tasks (stop_key g k st) !! id = Some (t <| ta_stop := ta_stop t || bool_decide (ta_registry t = g /\ ta_key t = k) |>).
Proof.
  intros [A B C D] T. assert (S : forall b, (b = true -> ta_stop t = true) -> Some t = Some (t <| ta_stop := ta_stop t || b |>)).
  { intros b E. destruct t as [r key job []], b; cbn in *; try done. by specialize (E eq_refl). }
  unfold stop_key. destruct (stops g st !! k) as [i|] eqn:E; cbn [wf_tasks setter].
  - unfold raise_flag. destruct (decide (i = id)) as [->|N].
    + rewrite lookup_alter_eq, T. destruct (B _ _ _ _ E T) as [<- <-]. rewrite bool_decide_true by done. by rewrite orb_true_r.
    + rewrite lookup_alter_ne, T by done. apply S. intros [<- <-]%bool_decide_eq_true. destruct (ta_stop t) eqn:F; [done|].
      apply (A _ _ T) in F. congruence.
  - rewrite T. apply S. intros [<- <-]%bool_decide_eq_true. by apply (unregistered_stopped st id).
Qed.

Lemma stop_key_None g k g' k' st : stops g st !! k = None -> stops g (stop_key g' k' st) !! k = None.
Proof.
  intros N. unfold stop_key. destruct (stops g' st !! k') eqn:E; [|done]. rewrite stops_tasks, stops_set.
  destruct (decide (g = g')) as [->|]; [|done]. apply lookup_delete_None. by right.
Qed.

Lemma stop_keys_gone k l : forall st, k ∈ l \/ wf_punch st !! k = None -> wf_punch (foldl (fun s key => stop_punch_workflow_key key s) st l) !! k = None.
Proof.
  induction l as [|x l IH]; intros st K; cbn [foldl]; [by destruct K as [K|K]; [apply not_elem_of_nil in K|]|]. apply IH. unfold stop_punch_workflow_key.
  destruct K as [[->|K]%elem_of_cons|K]; [right; apply (stop_key_gone ByPunch)|by left|right; by apply (stop_key_None ByPunch)].
Qed.

Lemma reconnects_gone k st : is_reconnect_key k = true -> wf_punch (stop_all_peer_reconnect_workflows st) !! k = None.
Proof.
  intros R. unfold stop_all_peer_reconnect_workflows. set (l := List.filter _ _). cbn [wf_punch setter]. apply stop_keys_gone.
  destruct (wf_punch st !! k) as [id|] eqn:E; [left|by right]. apply list_elem_of_In, filter_In. split; [|done].
  apply list_elem_of_In, list_elem_of_fmap. exists (k, id). split; [done|]. by apply hm_iter_elem.
Qed.

Lemma reconnects_keep_gone k st : wf_punch st !! k = None -> wf_punch (stop_all_peer_reconnect_workflows st) !! k = None.
Proof. intros N. unfold stop_all_peer_reconnect_workflows. set (l := List.filter _ _). cbn [wf_punch setter]. apply stop_keys_gone. by right. Qed.

(** The keys under which discovery punches. *)
Definition discovery_key (k : string) : Prop :=
  is_reconnect_key k = true \/ k ∈ [DECENTRALIZED_KEY; DECENTRALIZED_JOIN_OVERLAY_KEY; DECENTRALIZED_RECONNECT_FASTPATH_KEY].

Lemma discovery_gone k st : discovery_key k -> wf_punch (stop_decentralized_discovery st) !! k = None.
Proof.
  intros D. unfold stop_decentralized_discovery. set (s0 := st <| wf_disc := _ |> <| wf_log := _ |>).
  assert (K : forall s k', wf_punch s !! k = None -> wf_punch (stop_key ByPunch k' s) !! k = None) by (intros; by apply (stop_key_None ByPunch)).
  assert (G : forall s, wf_punch (stop_key ByPunch k s) !! k = None) by (intros; apply (stop_key_gone ByPunch)).
  destruct D as [R|D]; [apply K; by apply reconnects_gone|].
  rewrite !elem_of_cons, elem_of_nil in D. destruct D as [->|[->|[->|[]]]]; [apply G|apply K, reconnects_keep_gone..].
  - apply K. change (wf_punch (stop_join_punch_overlay s0)) with (wf_punch (stop_join_punch_overlay_task s0)). apply G.
  - apply G.
Qed.

Lemma stop_all_stops g g' st : stops g (stop_all g' st) = if decide (g = g') then ∅ else stops g st.
Proof. unfold stop_all. by rewrite stops_tasks, stops_set. Qed.
Lemma loops_gone st g : stops g (stop_background_loops st) = ∅.
Proof. unfold stop_background_loops. rewrite !stop_all_stops. by destruct g. Qed.
Lemma reset_gone now st g : stops g (reset_session_state now st) = ∅.
Proof.
  unfold reset_session_state. set (s := answer_waiting _ _ <| wf_pending_ack := None |>). rewrite <- (loops_gone s g).
  generalize (stop_background_loops s). intros s'. by destruct g.
Qed.


(** C40. Whoever waits for a join is answered exactly once: in every run the senders handed to the engine are those
    answered, once each, and the one that waits, if any; a cancellation, a reset, an error of the other
    side and an acknowledgement each leave none waiting. *)
Theorem join_waits_answered es now :
  let st := wf_run fmt es now in
  (wf_answers st).*1 ++ option_list (wf_join st) ≡ₚ seqZ 0 (wf_asked st) /\ NoDup (wf_answers st).*1 /\
  (forall e, match e with WfCancelJoin | WfJoinError | WfReset _ | WfJoinAck _ _ => True | _ => False end -> wf_join (step st e) = None).
Proof.
  intros st. destruct (wf_run_ok es now) as [O [A P]]. fold st in O, A, P. split_and!; [done| |].
  - assert (N : NoDup ((wf_answers st).*1 ++ option_list (wf_join st))) by (rewrite P; apply NoDup_seqZ). by apply NoDup_app in N as [N _].
  - intros e E. destruct e; try done; cbn [wf_step].
    + apply (answered_none JoinRefused st), cancel_answers.
    + by apply (answered_none JoinRefused st).
    + destruct (finish_answers ack heard st) as [[-> N]|F]; [done|]. by apply (answered_none (JoinAcked heard) st).
    + apply (answered_none JoinRefused (stop_decentralized_discovery st)), reset_answers.
Qed.
End WfFacts.

(** ** What an announce starts *)

Definition addr_lt (a b : SocketAddr) : Prop := addr_le b a = false.

Lemma addr_le_antisym a b : addr_le a b = true -> addr_le b a = true -> a = b.
Proof.
  unfold addr_le. destruct a as [i p], b as [j q]; cbn. do 2 case_bool_decide; try congruence.
  - intros ?%Z.leb_le ?%Z.leb_le. f_equal; [done|lia].
  - destruct i, j; cbn; try done. all: intros ?%Z.leb_le ?%Z.leb_le; exfalso; match goal with N : _ <> _ |- _ => apply N; f_equal; lia end.
Qed.

Lemma addr_lt_trans a b c : addr_lt a b -> addr_lt b c -> addr_lt a c.
Proof.
  unfold addr_lt, addr_le. destruct a as [[i|i] p], b as [[j|j] q], c as [[k|k] r]; cbn [sa_ip sa_port ip_le];
    repeat case_bool_decide; simplify_eq; rewrite ?Z.leb_gt; done || lia.
Qed.

Lemma insert_addr_elem x y l : y ∈ insert_addr x l <-> y = x \/ y ∈ l.
Proof.
  induction l as [|z l IH]; cbn [insert_addr]; [set_solver|]. case_bool_decide; [set_solver|]. destruct (addr_le z x); set_solver.
Qed.

Lemma insert_addr_sorted x l : StronglySorted addr_lt l -> StronglySorted addr_lt (insert_addr x l).
Proof.
  induction 1 as [|y l S IH F]; cbn [insert_addr]; [by repeat constructor|]. case_bool_decide as E; [by constructor|].
  destruct (addr_le y x) eqn:L.
  - constructor; [done|]. apply Forall_forall. intros z [->|Z]%insert_addr_elem; [|by rewrite Forall_forall in F; apply F].
    unfold addr_lt. destruct (addr_le x y) eqn:L'; [|done]. by destruct E; apply addr_le_antisym.
  - constructor; [by constructor|]. constructor; [done|]. eapply Forall_impl; [exact F|]. intros z. by apply addr_lt_trans.
Qed.

Lemma sort_dedup_spec l : StronglySorted addr_lt (sort_dedup l) /\ forall x, x ∈ sort_dedup l <-> x ∈ l.
Proof.
  unfold sort_dedup. assert (G : forall acc, StronglySorted addr_lt acc -> StronglySorted addr_lt (foldl (fun l x => insert_addr x l) acc l) /\
    forall x, x ∈ foldl (fun l x => insert_addr x l) acc l <-> x ∈ acc \/ x ∈ l).
  { induction l as [|y l IH]; intros acc S; cbn [foldl]; [split; [done|set_solver]|].
    destruct (IH (insert_addr y acc) (insert_addr_sorted y acc S)) as [S' E]. split; [done|]. intros x. rewrite E, insert_addr_elem. set_solver. }
  destruct (G [] ltac:(constructor)) as [S E]. split; [done|]. intros x. rewrite E. set_solver.
Qed.

Section Announces.
Context `{HashIter} `{AddrText}.

(** What a workflow for some announced addresses is started for: the peer that alone has their address and
    whose route needs them, or no peer in particular. *)
Definition justified (st : Workflows) (peers : list SocketAddr) (key cooldown_key : string) (b : SocketAddr) : Prop :=
  b ∈ take PEER_RECONNECT_ANNOUNCE_BUDGET peers /\
  ((key = reconnect_key cooldown_key /\ unique_ip_peer_vip (wf_rt st) (wf_vip st) (sa_ip b) = Bound cooldown_key /\
    peer_route_needs_work (wf_rt st) cooldown_key b = true) \/
   (key = PEER_RECONNECT_UNBOUND_KEY /\ cooldown_key = "unbound"%string /\ unique_ip_peer_vip (wf_rt st) (wf_vip st) (sa_ip b) = Unbound /\
    peer_announce_needs_work_unbound (wf_rt st) b = true)).

(** A task started from [st] on, by the time the state is [s]. *)
Definition started (st : Workflows) (peers : list SocketAddr) (now : Instant) (s : Workflows) (t : Task) : Prop :=
  ta_registry t = ByPunch /\
  exists bases cooldown_key, ta_job t = Canonical bases false /\ bases <> [] /\ StronglySorted addr_lt bases /\
    Forall (justified st peers (ta_key t) cooldown_key) bases /\
    peer_reconnect_on_cooldown cooldown_key now st = false /\ wf_cooldown s !! cooldown_key = Some now.

Record announcing (st : Workflows) (peers : list SocketAddr) (now : Instant) (s : Workflows) : Prop := {
  an_ids : forall id t, wf_tasks s !! id = Some t -> id < wf_next s;
  an_next : wf_next st <= wf_next s;
  an_count : distinct_peer_reconnect_key_count s <= Z.max PEER_RECONNECT_MAX_DISTINCT_KEYS (distinct_peer_reconnect_key_count st);
  an_cooldown : forall k, peer_reconnect_on_cooldown k now st = true -> peer_reconnect_on_cooldown k now s = true;
  an_started : forall id t, wf_tasks s !! id = Some t -> wf_next st <= id -> started st peers now s t
}.

(** A workflow put in the place of another. *)
Lemma respawn_punch k bases b st : bases <> [] ->
  let s := spawn_punch_workflow k bases b st in
  wf_punch s = <[k := wf_next st]> (wf_punch st) /\ wf_next s = wf_next st + 1 /\ wf_cooldown s = wf_cooldown st /\
  forall id t, wf_tasks s !! id = Some t -> id = wf_next st /\ t = mkTask ByPunch k (Canonical bases b) false \/
    id <> wf_next st /\ exists u, wf_tasks st !! id = Some u /\ ta_registry t = ta_registry u /\ ta_key t = ta_key u /\ ta_job t = ta_job u.
Proof.
  intros B. unfold spawn_punch_workflow. rewrite bool_decide_false by done. unfold stop_punch_workflow_key.
  set (s := stop_key ByPunch k st).
  assert (S : <[k := wf_next st]> (wf_punch s) = <[k := wf_next st]> (wf_punch st) /\ wf_next s = wf_next st /\ wf_cooldown s = wf_cooldown st /\
    forall id t, wf_tasks s !! id = Some t -> exists u, wf_tasks st !! id = Some u /\ ta_registry t = ta_registry u /\ ta_key t = ta_key u /\ ta_job t = ta_job u).
  { unfold s, stop_key. cbn [stops]. destruct (wf_punch st !! k) as [i|] eqn:E; [|split_and!; [done..|]; intros id t T; by exists t].
    cbn [set_stops wf_punch wf_next wf_cooldown wf_tasks setter]. split_and!; [by rewrite insert_delete_eq|done..|].
    intros id t (u & U & ->)%raise_flag_lookup. exists u. by destruct (decide (id = i)). }
  destruct S as (P & N & C & T). clearbody s. cbn [spawn set_stops stops wf_punch wf_next wf_cooldown wf_tasks setter]. rewrite N. split_and!; [done..|].
  intros id t [[<- <-]|[I U]]%lookup_insert_Some; [by left|right]. split; [done|by apply T].
Qed.

Lemma reconnect_count_insert (m : gmap string Z) k (n : Z) : is_reconnect_key k = true ->
  size (filter (fun x : string * Z => is_reconnect_key x.1 = true) (<[k := n]> m)) =
  (size (filter (fun x : string * Z => is_reconnect_key x.1 = true) m) + if bool_decide (m !! k = None) then 1 else 0)%nat.
Proof.
  intros R. rewrite map_filter_insert_True by done. case_bool_decide as E.
  - rewrite map_size_insert_None; [lia|]. apply map_lookup_filter_None. by left.
  - destruct (m !! k) as [i|] eqn:F; [|done]. rewrite map_size_insert_Some; [lia|]. exists i. by apply map_lookup_filter_Some.
Qed.

Lemma on_cooldown_now k now st : wf_cooldown st !! k = Some now -> peer_reconnect_on_cooldown k now st = true.
Proof.
  intros E. unfold peer_reconnect_on_cooldown. rewrite E. apply Z.ltb_lt. unfold duration_since, PEER_RECONNECT_COOLDOWN, from_secs, sat_sub. lia.
Qed.

Lemma spawn_announced st peers now s k bases c : announcing st peers now s -> is_reconnect_key k = true ->
  StronglySorted addr_lt bases -> Forall (justified st peers k c) bases -> announcing st peers now (spawn_peer_reconnect_workflow k bases c now s).
Proof.
  intros A R So J. unfold spawn_peer_reconnect_workflow. case_bool_decide as B; [done|].
  destruct (bool_decide (wf_punch s !! k = None) && _) eqn:L; [done|]. destruct (peer_reconnect_on_cooldown c now s) eqn:C; [done|].
  destruct (respawn_punch k bases false s B) as (P & N & Co & T). set (s' := spawn_punch_workflow k bases false s) in *. clearbody s'.
  rewrite bool_decide_true by (rewrite P, lookup_insert_eq; eauto). cbv zeta.
  assert (Fresh : peer_reconnect_on_cooldown c now st = false).
  { destruct (peer_reconnect_on_cooldown c now st) eqn:E; [|done]. apply (an_cooldown _ _ _ _ A) in E. congruence. }
  assert (Keep : forall c', wf_cooldown s !! c' = Some now -> <[c := now]> (wf_cooldown s) !! c' = Some now).
  { intros c' E. destruct (decide (c = c')) as [->|]; [apply lookup_insert_eq|by rewrite lookup_insert_ne]. }
  destruct A as [I X K D S]. split; cbn [wf_tasks wf_next wf_cooldown setter].
  - intros id t [[-> _]|[_ (u & U & _)]]%T; [lia|]. apply I in U. lia.
  - lia.
  - unfold distinct_peer_reconnect_key_count in *. cbn [wf_punch setter]. rewrite P, reconnect_count_insert by done.
    destruct (bool_decide (wf_punch s !! k = None)); [|lia]. apply Z.leb_gt in L. unfold PEER_RECONNECT_MAX_DISTINCT_KEYS in *. lia.
  - intros c' E. apply D in E. unfold peer_reconnect_on_cooldown in *. cbn [wf_cooldown setter]. rewrite Co.
    destruct (decide (c = c')) as [->|]; [congruence|by rewrite lookup_insert_ne].
  - intros id t [[-> ->]|[Ne (u & U & Er & Ek & Ej)]]%T Id.
    + split; [done|]. exists bases, c. cbn. rewrite Co, lookup_insert_eq. by split_and!.
    + destruct (S id u U Id) as (R' & bs & c' & J1 & J2 & J3 & J4 & J5 & J6). split; [congruence|]. exists bs, c'. rewrite Ej, Ek. split_and!; try done.
      cbn. rewrite Co. by apply Keep.
Qed.
(** The lists the addresses of an announce are sorted into. *)
Definition sorted_out (st : Workflows) (peers : list SocketAddr) (acc : gmap string (list SocketAddr) * list SocketAddr) : Prop :=
  (forall v l b, acc.1 !! v = Some l -> b ∈ l -> justified st peers (reconnect_key v) v b) /\
  (forall b, b ∈ acc.2 -> justified st peers PEER_RECONNECT_UNBOUND_KEY "unbound" b).

Lemma announces_sorted st peers : forall l acc, (forall b, b ∈ l -> b ∈ take PEER_RECONNECT_ANNOUNCE_BUDGET peers) -> sorted_out st peers acc ->
  sorted_out st peers (foldl (sort_announced (wf_rt st) (wf_vip st)) acc l).
Proof.
  induction l as [|a l IH]; intros acc I S; cbn [foldl]; [done|]. apply IH; [set_solver|]. assert (A : a ∈ take PEER_RECONNECT_ANNOUNCE_BUDGET peers) by set_solver.
  destruct acc as [vb ub], S as [S1 S2]. cbn [fst snd] in *. unfold sort_announced.
  destruct (unique_ip_peer_vip _ _ _) as [v|] eqn:U.
  - destruct (peer_route_needs_work _ _ _) eqn:W; [|done]. split; [|done]. cbn [fst]. intros v' l' b [[<- <-]|[N E]]%lookup_insert_Some B; [|by eapply S1].
    apply elem_of_app in B as [B|B%list_elem_of_singleton]; [|subst b; split; [exact A|left; split_and!; [reflexivity|exact U|exact W]]].
    destruct (vb !! v) as [l'|] eqn:E; cbn in B; [exact (S1 v l' b E B)|by apply not_elem_of_nil in B].
  - destruct (peer_announce_needs_work_unbound _ _) eqn:W; [|done]. split; [done|]. cbn [snd].
    intros b [B|B%list_elem_of_singleton]%elem_of_app; [by apply S2|]. subst b. split; [exact A|right; split_and!; [reflexivity|reflexivity|exact U|exact W]].
Qed.

Lemma prefix_append p v : String.prefix p (p +:+ v) = true.
Proof. induction p as [|c p IH]; [by destruct v|]. simpl. by case_match. Qed.

Lemma fold_announced st peers now l : (forall x b, x ∈ l -> b ∈ x.2 -> justified st peers (reconnect_key x.1) x.1 b) -> forall s, announcing st peers now s ->
  announcing st peers now (foldl (fun s (x : string * list SocketAddr) => spawn_peer_reconnect_workflow (reconnect_key x.1) (sort_dedup x.2) x.1 now s) s l).
Proof.
  induction l as [|x l IH]; intros J s A; cbn [foldl]; [done|]. apply IH; [set_solver|]. destruct (sort_dedup_spec x.2) as [S E].
  apply spawn_announced; [done|apply prefix_append|done|]. apply Forall_forall. intros b B%E. apply J; set_solver.
Qed.

(** What an announce of a tracker starts, in every reachable state: at most four reconnections are registered unless
    more were before; a new task is the workflow of a reconnection, started with a key and not while a
    join is waited for, for some of the first eight addresses of the announce in order and without
    repetition, each of which the route of its peer needs (of the only peer with that address, or of none
    in particular), and none for what had one started in the last thirty seconds. *)
Theorem reconnect_justified fmt es now0 peers now :
  let st := wf_run fmt es now0 in
  let st' := try_peer_reconnect_from_announce peers now st in
  distinct_peer_reconnect_key_count st' <= Z.max PEER_RECONNECT_MAX_DISTINCT_KEYS (distinct_peer_reconnect_key_count st) /\
  forall id t, wf_tasks st' !! id = Some t -> wf_next st <= id ->
    wf_join st = None /\ dc_active (wf_disc st) = true /\ wf_crypto st = true /\ started st peers now st' t.
Proof.
  intros st. destruct (wf_run_ok fmt es now0) as [O _]. fold st in O. clearbody st.
  assert (A : announcing st peers now st).
  { split; [apply O|done|lia|done|]. intros id t T I. apply (wo_task_ids _ O) in T. lia. }
  assert (Same : announcing st peers now st -> forall id t, wf_tasks st !! id = Some t -> wf_next st <= id -> False).
  { intros _ id t T I. apply (wo_task_ids _ O) in T. lia. }
  unfold try_peer_reconnect_from_announce. case_bool_decide as J; cbn [orb]; [split; [apply A|intros id t T I; by destruct (Same A id t)]|].
  destruct (dc_active _) eqn:D; cbn [negb]; [|split; [apply A|intros id t T I; by destruct (Same A id t)]].
  destruct (has_peer_vip_in_rt st); cbn [negb]; [|split; [apply A|intros id t T I; by destruct (Same A id t)]].
  destruct (wf_crypto st); cbn [negb]; [|split; [apply A|intros id t T I; by destruct (Same A id t)]].
  pose proof (announces_sorted st peers (take PEER_RECONNECT_ANNOUNCE_BUDGET peers) (∅, []) (fun b B => B)) as S.
  destruct (foldl _ (∅, []) _) as [vb ub]. destruct S as [S1 S2]; [split; cbn; [intros v l b; by rewrite lookup_empty|set_solver]|]. cbn [fst snd] in S1, S2.
  assert (F := fold_announced st peers now (hm_iter vb)). specialize (F ltac:(intros [v l] b X B; apply hm_iter_elem in X; by eapply S1) st A).
  revert F. generalize (foldl (fun s (x : string * list SocketAddr) => spawn_peer_reconnect_workflow (reconnect_key x.1) (sort_dedup x.2) x.1 now s) st (hm_iter vb)).
  intros s F. assert (G : announcing st peers now (if bool_decide (ub = []) then s else spawn_peer_reconnect_workflow PEER_RECONNECT_UNBOUND_KEY (sort_dedup ub) "unbound" now s)).
  { case_bool_decide; [done|]. destruct (sort_dedup_spec ub) as [Q E]. apply spawn_announced; [done|done|done|]. apply Forall_forall. intros b B%E. by apply S2. }
  split; [apply G|]. intros id t T I. split_and!; [by destruct (wf_join st); [destruct J|]|done|done|by apply (an_started _ _ _ _ G id)].
Qed.
End Announces.

(** ** What a check of candidates sends *)

(** The [i]-th address of the sweep. *)
Definition sweep (targets : list SocketAddr) (start : Z) (n : nat) : list SocketAddr :=
  omap (fun i => targets !! Z.to_nat ((start + Z.of_nat i) mod len targets)) (seq 0 n).

Lemma sweep_app targets start n m : sweep targets start (n + m) = sweep targets start n ++ sweep targets ((start + Z.of_nat n) mod len targets) m.
Proof.
  unfold sweep. rewrite seq_app, omap_app. f_equal. replace (0 + n)%nat with (n + 0)%nat by lia. rewrite <- (fmap_add_seq n 0 m).
  induction (seq 0 m) as [|i l IH]; [done|]. cbn. rewrite IH, Zplus_mod_idemp_l.
  by replace (start + Z.of_nat n + Z.of_nat i) with (start + Z.of_nat (n + i)) by lia.
Qed.

Section Sweeps.
Variable stop : nat -> bool.
Abbreviation ext := (extends stop).

Lemma extends_slept r d : ext r (emit r (Slept d)) [Slept d].
Proof. split; cbn; [done|lia|done|repeat constructor]. Qed.

Lemma ice_sends_extends p targets : forall r b r', ice_sends stop p targets r = (b, r') ->
  exists t, ext r r' t /\ sends t `prefix_of` targets /\ (if b then true ∈ polls t else sends t = targets) /\ slept t = 0.
Proof.
  induction targets as [|x targets IH]; intros r b r'; cbn [ice_sends].
  { intros [= <- <-]. exists []. split_and!; [apply extends_refl|done..]. }
  destruct (load stop r) as [b1 r1] eqn:E. destruct b1.
  { intros [= <- <-]. exists [Poll true]. split_and!; [by apply extends_load|apply prefix_nil|set_solver|done]. }
  intros F. destruct (IH _ _ _ F) as (t & X & P & C & S). exists ([Poll false; Send x p] ++ t).
  split; [eapply extends_trans; [by apply extends_send|exact X]|]. rewrite sends_app, polls_app, slept_app, S. cbn. split_and!; [by apply prefix_cons| |done].
  destruct b; [set_solver|by rewrite C].
Qed.

Lemma ice_rounds_extends targets : targets <> [] -> forall delays next r,
  exists t, ext r (ice_rounds stop delays targets next r) t /\
    sent_prefix t (sweep targets next (List.length delays * Z.to_nat (Z.min MAX_PER_TICK (len targets)))) /\
    (true ∈ polls t \/ slept t = foldr Z.add 0 delays).
Proof.
  intros N. assert (L : 0 < len targets) by (destruct targets; [done|rewrite len_cons; pose proof (len_nonneg targets); lia]).
  induction delays as [|d delays IH]; intros next r; cbn [ice_rounds].
  { exists []. split_and!; [apply extends_refl|split; [apply prefix_nil|by left]|by right]. }
  destruct (load stop r) as [b1 r1] eqn:E1. apply extends_load in E1. destruct b1.
  { exists [Poll true]. split_and!; [done|split; [apply prefix_nil|right; set_solver]|left; set_solver]. }
  destruct (ice_sends _ _ _ _) as [b2 r2] eqn:E2. apply ice_sends_extends in E2 as (t2 & X2 & P2 & C2 & S2).
  assert (Y : ext r1 r2 t2) by by eapply extends_eq. pose proof (extends_trans _ _ _ _ _ _ E1 Y) as Y2.
  cbn [List.length Nat.mul]. rewrite sweep_app, Z2Nat.id by (unfold MAX_PER_TICK; lia).
  change (ice_batch targets next) with (sweep targets next (Z.to_nat (Z.min MAX_PER_TICK (len targets)))) in P2, C2.
  destruct b2.
  { exists ([Poll false] ++ t2). split_and!; [done|split|left; rewrite polls_app; set_solver].
    - rewrite sends_app. cbn. by apply prefix_app_r.
    - right. rewrite polls_app. set_solver. }
  rewrite Z.max_l by lia. destruct (IH ((next + Z.min MAX_PER_TICK (len targets)) mod len targets) (emit r2 (Slept d))) as (t3 & X3 & (P3 & C3) & S3).
  exists (([Poll false] ++ t2) ++ [Slept d] ++ t3).
  split; [eapply extends_trans; [exact Y2|]; eapply extends_trans; [apply extends_slept|exact X3]|].
  unfold sent_prefix. rewrite !sends_app, !polls_app, !slept_app, C2. cbn [sends polls omap list_omap app]. split_and!.
  - by apply prefix_app.
  - destruct C3 as [->|C3]; [by left|right; set_solver].
  - destruct S3 as [S3|S3]; [left; set_solver|]. right. rewrite S2, S3. unfold slept. cbn. lia.
Qed.

Lemma burst_extends n p x : forall r, exists t, ext r (burst stop n p x r) t /\ sent_prefix t (repeat x n).
Proof.
  induction n as [|n IH]; intros r; cbn [burst repeat]; [exists []; split; [apply extends_refl|by split; [|left]]|].
  destruct (load stop r) as [b r1] eqn:E. destruct b; [exists [Poll true]; split; [by apply extends_load|apply sent_prefix_stopped]|].
  destruct (IH (emit (emit r1 (Send x p)) (Slept SPACING))) as (t & X & P).
  exists (([Poll false; Send x p] ++ [Slept SPACING]) ++ t). split; [|by apply sent_prefix_cons].
  eapply extends_trans; [|exact X]. eapply extends_trans; [by apply extends_send|apply extends_slept].
Qed.

(** A burst that was cut and what follows it. *)
Lemma sent_prefix_app r r' t u l m : latched stop -> ext r r' (t ++ u) -> guarded u -> sent_prefix t l -> sent_prefix u m -> sent_prefix (t ++ u) (l ++ m).
Proof.
  intros L X G [P [C|C]] [Q D]; unfold sent_prefix; rewrite sends_app, polls_app.
  - rewrite C. split; [by apply prefix_app|]. destruct D as [->|D]; [by left|right; set_solver].
  - split; [|right; set_solver]. destruct (sends u) as [|y s] eqn:S; [rewrite app_nil_r; by apply prefix_app_r|]. exfalso.
    pose proof (ex_polls _ _ _ _ X) as F. rewrite polls_app in F. eapply (latched_split stop _ _ _ L F); [done|]. apply guarded_reads; [done|by rewrite S].
Qed.

Lemma pass_extends targets : latched stop -> forall r, exists t, ext r (punch_pass stop targets r) t /\
  sent_prefix t (flat_map (fun x => repeat x BURST_PER_TARGET) targets).
Proof.
  intros L. induction targets as [|x targets IH]; intros r; cbn [punch_pass flat_map]; [exists []; split; [apply extends_refl|by split; [|left]]|].
  destruct (load stop r) as [b r1] eqn:E. apply extends_load in E. destruct b; [exists [Poll true]; split; [done|apply sent_prefix_stopped]|].
  destruct (burst_extends BURST_PER_TARGET (pr_built r1) x (built r1)) as (t & X & P). set (r2 := burst _ _ _ _ _) in *.
  destruct (IH r2) as (u & Y & Q). assert (X1 : ext r1 r2 t) by by eapply extends_eq.
  pose proof (extends_trans _ _ _ _ _ _ X1 Y) as Z1. exists ([Poll false] ++ t ++ u). split; [by eapply extends_trans|].
  apply (sent_prefix_app _ _ _ _ _ _ L Z1 (ex_guarded _ _ _ _ Y) P) in Q.
  destruct Q as [Q1 Q2]. split; [exact Q1|]. destruct Q2 as [Q2|Q2]; [by left|right; cbn; set_solver].
Qed.
End Sweeps.

(** The pass over the punch targets of a tick sends two packets to each, in order, and is cut only by its
    flag, after which it sends nothing. *)
Theorem punch_pass_spec stop targets : latched stop ->
  let t := pr_trace (punch_pass stop targets new_run) in
  sent_prefix t (flat_map (fun x => [x; x]) targets) /\ forall u v, t = u ++ Poll true :: v -> sends v = [].
Proof.
  intros L t. destruct (pass_extends stop targets L new_run) as (t' & X & S). assert (E : t = t') by apply (ex_trace _ _ _ _ X). rewrite E.
  split; [exact S|]. intros u v. exact (halted _ _ _ _ u v L X).
Qed.

(** A check of candidates sweeps over the addresses of a peer in a circle, in seventy-six rounds of at most eight packets,
    and is cut only by its flag, after which it sends nothing; when it is not, it takes the six and a half
    seconds of its pauses and, with at most 608 addresses, reaches every one. *)
Theorem ice_sweeps stop targets : latched stop -> targets <> [] ->
  let t := pr_trace (ice_checks stop targets new_run) in
  let plan := sweep targets 0 (76 * Z.to_nat (Z.min MAX_PER_TICK (len targets))) in
  sent_prefix t plan /\ (true ∈ polls t \/ slept t = from_millis 6500) /\ (forall u v, t = u ++ Poll true :: v -> sends v = []) /\
  (len targets <= 608 -> forall x, x ∈ targets -> x ∈ plan).
Proof.
  intros L N t plan. destruct (ice_rounds_extends stop targets N ice_delays 0 new_run) as (t' & X & S & D).
  assert (E : t = t') by apply (ex_trace _ _ _ _ X). rewrite E. split_and!; [exact S|exact D|intros u v; exact (halted _ _ _ _ u v L X)|].
  intros B x [i I]%list_elem_of_lookup. pose proof (lookup_lt_Some _ _ _ I) as J. apply list_elem_of_omap. exists i. split.
  - apply elem_of_seq. unfold len, MAX_PER_TICK in *. lia.
  - rewrite Z.add_0_l, Z.mod_small, Nat2Z.id; [done|]. unfold len. lia.
Qed.

(** ** Runs *)

Module WfRuns.
#[local] Existing Instance canonical_iter.
#[local] Instance plain_addr : AddrText := {| show_addr _ := EmptyString; parse_addr _ := None |}.

Definition fmt (a : SocketAddr) : bytes := [].
Definition ep (i : Z) : SocketAddr := mkAddr (V4 (3405803776 + i)) 4000.
Definition url : bytes := str_bytes "http://tracker.example:80/announce".
Definition peers : list (string * Z) := [("10.0.0.1", 1); ("10.0.0.2", 2); ("10.0.0.3", 3); ("10.0.0.4", 4); ("10.0.0.5", 5)]%string.
Definition table : RoutingTable := foldl (fun t (x : string * Z) => rt_update t x.1 (ep x.2) None 0) (new_table 0) peers.

(** Four peers are reconnected and their workflows end. *)
Definition four_done : list WfEvent :=
  [WfWorld "10.0.0.9" true table None; WfStart (repeat 7 20) (str_bytes "n") [url] 60 false None (Some 7878);
   WfHttp 0 1 url (Some (180, [ep 1; ep 2; ep 3; ep 4])) 0; WfDone 0; WfDone 1; WfDone 2; WfDone 3].

(** The limit counts workflows that ended: with no task running, no announce ever again starts one for a
    fifth peer, although its route needs it and it was never tried. *)
Lemma fifth_peer_locked_out :
  let st := wf_run fmt four_done 0 in
  map_to_list (wf_tasks st) = [] /\ wf_next st = 4 /\ peer_route_needs_work (wf_rt st) "10.0.0.5" (ep 5) = true /\
  forall now, map_to_list (wf_tasks (wf_step fmt st (WfHttp 0 1 url (Some (180, [ep 5])) now))) = [].
Proof. split_and!; [vm_compute; reflexivity..|]. intros now. vm_compute. reflexivity. Qed.

(** Without the four the fifth is reconnected. *)
Lemma fifth_alone_reconnected : wf_next (wf_run fmt (take 2 four_done ++ [WfHttp 0 1 url (Some (180, [ep 5])) 0]) 0) = 1.
Proof. vm_compute. reflexivity. Qed.

(** A node whose socket is bound below 7878 announces a port it does not listen on. *)
Lemma low_port_misannounced room node trackers secs joiner body st :
  announce_port (wf_disc (start_decentralized room node trackers secs joiner body (Some 5000) st)) None = 7878.
Proof.
  unfold start_decentralized, stop_decentralized_reconnect_fastpath, stop_key at 1. cbv zeta. by destruct (stops _ _ !! _).
Qed.

Lemma ice_sweeps_witness :
  let t := pr_trace (ice_checks (fun _ => false) [ep 1; ep 2] new_run) in
  sent_prefix t (sweep [ep 1; ep 2] 0 152) /\ slept t = from_millis 6500.
Proof.
  destruct (ice_sweeps (fun _ => false) [ep 1; ep 2] ltac:(by intros k) ltac:(done)) as (S & D & _). split; [exact S|].
  vm_compute. reflexivity.
Defined.
End WfRuns.
